(* ===== verification/_CoqProject ===== *)
-Q . S2P
Prelude.v
Layout.v
Ids.v
CommLog.v
LogSpec.v
LogReplay.v
LogPack.v
Memory.v
CdLog.v
CdReplay.v
MpiWrapper.v
MpiReplay.v
TableStore.v
DataStore.v
Preserve.v
Restoration.v
FileStore.v
FileRestore.v
BufferConsumer.v
StoreType.v
PhaseTree.v
Handle.v
Phases.v
Nesting.v
Escalation.v
FailurePoint.v
Mailbox.v
Events.v
Coordination.v
Float64.v
ErrorInjector.v
Config.v
Detection.v
Parallel.v
Decomposition.v
LinkCells.v
Atoms.v
CoMDTypes.v
HaloExchange.v
Cd.v
CdComd.v
Timestep.v
Recovery.v
Pairs.v
LjForce.v
Eam.v
Random.v
InitAtoms.v
CoMD.v
SparseMatrix.v
SparseMath.v
SparseHalo.v
Sp2Loop.v
Sp2Tasks.v
CoSP2.v
