(* ===== verification/Prelude.v ===== *)
(** * Containment Domains: a verification development

    The repository is the runtime system for Containment Domains, [src/src],
    and applications that use it.  A containment domain is a region of a
    program that preserves the data it needs when it begins, detects errors
    before it completes, and is executed again from its preserved data when
    there was one.  Domains nest; the tasks of an MPI program share them.
    The development models the runtime's message log, its MPI wrappers, its
    preservation in memory and in a file, the life cycle and the recovery of
    domains, the injection and detection of errors, and two applications with their containment domains: the
    molecular-dynamics code CoMD ([src/new_examples/CoMD-eval/src-mpi]) and
    the linear-algebra code CoSP2 ([src/new_examples/CoSP2/src-mpi]).

    ** The parts and how they interact

    A task calls the wrapper of an MPI function ([MpiWrapper]).  The wrapper
    finds the current domain and its logging mode.  In a relaxed domain the
    wrapper logs what it received through the domain ([CdLog]) in the domain's
    log ([CommLog]), and in a re-execution it reads it back instead of
    communicating.  A completed child packs its log into its parent's
    ([CommLog.PackAndPushLogs]), and takes it from there when the parent is
    executed again.  In a strict domain nothing is logged; a rollback cancels
    the operations in flight.  [Preserve] on a domain copies a region of
    memory into the domain's store, a table of entries ([TableStore]) that
    point into a growing buffer ([DataStore]), or makes an entry that refers
    to an ancestor's; in a re-execution the same call restores the region.
    A store on disk ([FileStore]) preserves through a circular buffer of whole
    chunks; the thread that writes the chunks ([BufferConsumer]) takes them
    from the stores it is told of, and the domain's thread waits for it.
    The domains of a task are created, begun, completed and destroyed through
    their handles ([Handle]); a phase ([PhaseTree]) is a place where a domain
    begins, and counts its completions.  Detect asks the injectors for errors
    ([ErrorInjector]) and reports them for the innermost domain that recovers
    from them ([Detection]).  A reported error lowers the rollback
    point; the Complete of the innermost domain then discards the domains
    below the rollback point, restores the domain at it ([Preserve.Recover])
    and jumps to its Begin.  The task is in recovery until the phase and the
    count of the failure are reached again.  Tasks report errors to the head
    of a domain through one-sided mailboxes ([Mailbox]); the head asks all
    tasks to execute the domain again, and at its end they agree on a rollback
    point.
    CoMD calls the C interface of the runtime around each phase of its time
    step, CoSP2 around each pass of its loop; their models have these calls as
    a list of events ([Cd]), next to the computation.

    ** Files

    Shared: [Prelude] (the results of C code, checked arithmetic, arrays,
    loops, their lemmas and tactics), [Layout] (bytes of structures and
    [memcpy], the class [Layout] of what is copied so), [Memory] (the memory
    of a task).

    The runtime, [src/src]:
    - [Ids]: cd_name_t, node_id and cd_id (.h, .cc), the split of tasks among
      children in cd_handle.cc, the layout of message tags in cd_internal.cc;
    - [CommLog]: cd_comm_log (.h, .cc), one definition per member function;
      [LogSpec] is the abstract log and the refinement, [LogReplay] logging
      followed by replay, [LogPack] packing followed by unpacking;
    - [CdLog]: the members of CD in cd_internal.cc that use the log; the
      current path of domains is a list, the innermost first; [CdReplay] has
      the theorems;
    - [MpiWrapper]: cd_mpiwrapper.cc, and BlockUntilValid and
      BlockallUntilValid of cd_comm_internal.cc; MPI itself is a parameter,
      each theorem states what it needs of it; [MpiReplay] has the theorems;
    - [TableStore], [DataStore]: persistence/base_store.h, table_store.hpp,
      data_store (.h, .cc);
    - [Preserve]: preservation, restoration and recovery in cd_internal.cc,
      recover_object.cc and persistence/packer.hpp; [Restoration] and
      [StoreType] have the theorems;
    - [FileStore]: the stores of data_store (.h, .cc) with a file of
      cd_file_handle (.h, .cc); [FileRestore] has the representation of what
      is in the file and what is still in the buffer, and that restoring gives
      what was preserved; [BufferConsumer]: buffer_consumer (.h, .cc), the
      stores that share a file, and the two threads as a step relation;
    - [PhaseTree]: phase_tree (.h, .cc), and CD::BeginPhase;
    - [Handle]: cd_handle.cc, cd_path.h, and the life cycle and recovery in
      cd_internal.cc, with the rollback point of cd_comm_internal.cc, for one
      task; [Phases] has the lemmas on phase trees, [Nesting] the states a
      program reaches and their invariant, [Escalation] what Complete does,
      [FailurePoint] how a recovery ends;
    - [ErrorInjector]: error_injector (.h, .cc), with the numbers of drand48;
      [Detection]: Detect, CheckErrorOccurred, CDAssert and the vectors of
      errors in cd_handle.cc, cd_internal.cc and phase_tree.cc, as a layer over
      [Handle] whose steps are steps of [Nesting] or change nothing there, and
      the theorems;
    - [Config]: LoadConfig and ParseParam of sys_err_t (.h, .cc), PrintInputYAML
      of phase_tree.cc, and a tree of phases as data ([ptree]) that states of
      both trees of the runtime hold ([represents]);
    - [Mailbox]: the mailboxes, counters and rollback points of several tasks
      in cd_comm_internal.cc, the handlers of event_handler (.h, .cc), and
      Assert and SyncCDs of cd_internal.cc, on the memory of all tasks;
      [Events] has the invariant and what CheckMailBox and Assert do,
      [Coordination] the steps of the tasks of a domain and the theorems.

    CoMD, [src/new_examples/CoMD-eval/src-mpi]:
    - [Float64]: [double] as the Standard Library's executable IEEE floats;
    - [Parallel], [Decomposition], [LinkCells], [Atoms], [CoMDTypes],
      [HaloExchange], [LjForce], [Random], [InitAtoms], [CoMD]: the files of
      the same names (CoMD.v also mycommand.h); [Timestep] is timestep.c,
      [Eam] is eam.c; [Pairs]: the loops over pairs of atoms of both force
      routines;
    - [Cd], [CdComd]: the events of the C interface, and cd_comd.c;
    - [Recovery]: what a re-execution of the integrator's domains recomputes.

    CoSP2, [src/new_examples/CoSP2/src-mpi], on [Float64], [Parallel], [Cd]
    and [Random] (its random.c is CoMD's):
    - [SparseMatrix]: sparseMatrix.c and decomposition.c; a matrix is two
      arrays, as built with CONTIG_MATRIX; the lemmas are on its cells, the
      theorems on its rows ([row], the list of a row's entries);
    - [SparseMath]: sparseMath.c, and each routine as a function of rows;
    - [SparseHalo]: haloExchange.c; the messages that arrive are an argument;
    - [Sp2Loop]: sp2Loop.c and cd_cosp2.c, for the builds with and without
      containment domains and preservation; [Sp2Tasks]: a pass on all tasks;
    - [CoSP2]: generate.c, matrixio.c, the counts of sparseMatrix.c, and the
      main program.

    An operation that fails in C (a failed assert, an access out of bounds, a
    signed overflow, a division by zero, a fatal exit) is an error value, and
    an error stops the computation.  Integers are [Z]; unsigned arithmetic
    wraps around where the code's does ([u32], [u64]), signed arithmetic is
    checked.

    ** What the theorems show

    - Message logging: a program of blocking and collective calls, without
      MPI_Allgather and without status, in the relaxed root domain, executed
      again after a failure at any call, gets from the log what it had
      received and goes on as an execution without failure would
      ([MpiReplay.relaxed_recovery]; the replay of MPI_Allgather fails an
      assertion, [MPI_Allgather_replay]); the log refines an abstract list of
      messages ([LogSpec]); what is logged is replayed, and a replay ends and
      switches back to logging ([LogReplay]); packed logs come back
      ([LogPack], [CdReplay]).
    - Preservation: regions of at most 200 bytes that a domain preserved by
      copy are restored in every execution after the first, when the lines its
      recovery prints fit in their array, whatever happened
      to the memory; a reference is restored from the domain that holds the
      copy, and nothing is copied for it ([Restoration]); in every reachable
      state, domains that are used again and objects that serialise themselves
      included, every array entry can be read back ([StoreType]).
    - Preservation in a file: for the first domain of a task, on an empty file,
      regions that fit into the circular buffer behind
      its unfinished chunk are restored from the file in any order
      ([FileRestore.disk_restores]); the consumer loses nothing when it finds
      one chunk or at least two ([BufferConsumer.ConsumeBuffer_cases]); a
      larger region waits forever ([bounded_write_never_returns]), and a child
      overwrites the last chunk of its parent ([child_overwrites_parent]).
    - Recovery: a program is restricted where its labels and names are used,
      not in their form: a path of names that it builds is not that of another
      phase or domain ([Nesting.label_ok], [Nesting.name_ok];
      [underscores_allowed] runs labels as the applications have them).  Then
      in every reachable state the domains and their phases nest
      ([Escalation.domains_nest]); a Complete after an error discards and
      restores exactly what the level of the error asks for
      ([Escalation.Complete_escalates]); a recovery to the domain of the error
      ends ([FailurePoint.own_rollback_recovers]); one that was escalated from
      a domain whose phase was completed since it last began never does
      ([escalated_recovery_never_ends]);
      a Begin forgets the errors reported before ([Begin_forgets_errors]);
      labels with underscores can have the path of another phase, and then
      position and level disagree ([phase_paths_collide]).
    - Detection: in every state reached with injected errors Detect returns and
      finds the innermost domain that recovers from all errors that occurred,
      the root at last ([Detection.Detect_finds_domain]), and Complete jumps to
      it ([found_error_recovered]); which errors occur is decided by the
      numbers drawn ([ErrorInjector.Inject_vector], [zero_rates_no_error]); an
      error that a test asks for is reported in every execution
      ([forced_error_repeats]), and two errors can go further up than each of
      them ([joint_errors_escalate]).
    - Configuration: the file written for an execution, with rates of failures,
      is read back ([Config.config_roundtrip]), unless phases were first met in
      another order ([late_phase_unreadable]) or the file has two executions
      ([appended_unreadable]); the highest bit of a vector and labels with an F
      in front are lost ([root_vector_read_back], [F_label_lost]); with
      CD_NO_ERROR no error is injected ([no_error_run]).
    - Coordination: in every interleaving of reports, checks and the entries
      to SyncCDs, the tasks of a domain agree on the least level reported
      ([Coordination.tasks_agree]); no assertion of the mailboxes fails and no
      counter wraps ([mailboxes_never_assert]); SyncCDs can always end
      ([SyncCDs_completes]); requests of domains above are dropped until those
      domains end ([outer_requests_ignored]), and events are hidden when a
      domain is used again ([reuse_hides_events]).
    - The cases in which the runtime fails, each on an explicit run: logs lost
      by a rollback, a log without memory, wrappers that assert (a replay that
      reads another length than was logged), return early
      or leave their buffers untouched, recovery of a large region, of a
      domain with a long label ([Restoration.Recover_long_label]), of a
      domain that preserved nothing, and of a cooperative entry.
    - Identifiers: the split of tasks into children is a bijection, names of
      children are distinct where the code makes them so, tags keep their
      fields.
    - CoMD: box numbers are a bijection; moving atoms between boxes keeps
      every atom, in its box; the lists and buffers of the halo exchange fit
      and fit together, but for the buffers of the force exchange on the x
      planes of a thin grid ([HaloExchange.forceBuffer_overrun]); both force routines visit every pair once; the
      domains of the integrator and of the main loop are begun and completed
      in the right order, and what they preserve is enough to recompute; the
      embedded-atom force is its three passes over pairs and atoms and returns
      when its tables cover the distances and densities ([Eam]), which fails at
      the end of a table ([Eam.interpolate_table]).
    - CoSP2: the sparse products and sums compute each column once, with its
      contributions in the order of the loops ([SparseMath.sparseX2_correct],
      [sparseAdd_correct]); a task lists the tasks whose rows it needs, and the
      rows that arrive, in any order, are the senders'
      ([SparseHalo.updateData_halo], [exchangeData_delivers]); built without
      preservation, the program ends on one task
      after at most 100 passes with its domains balanced, or counts a full row
      behind an array ([CoSP2.sp2_main_ends]); a pass executed again from the
      regions its preserve calls copy ([Sp2Loop.pass_data]) gives what
      it gave, but for one variable ([Sp2Loop.sp2_reexecution]); files come
      back ([CoSP2.mtx_roundtrip]).  Built with preservation it fails in the
      first pass, because a name is longer than its array
      ([Sp2Loop.preserving_pass_fails]; [sp2_reexecution] takes shorter names),
      and on several tasks it computes with old rows
      ([Sp2Tasks.stale_halo_rows]; [second_pass_differs] is a run).

    ** Bounds and fuel

    Loops of C that are not structural have fuel; a theorem that uses such a
    loop proves that it returns.  [find_child] and [probe_packed] walk the
    packed logs; every pack is at least one byte long, and the fuel is the
    length in bytes.  [block_until] repeats MPI_Test: its fuel is an argument,
    and the theorems say for which fuel the request completes.
    [InvalidateIncompleteLogs] makes [ITERS] passes, as the code does.
    [grow_table] doubles a 64-bit unit: after 64 doublings it is 0, so 65
    steps decide; [grow_data] at least doubles a 64-bit size, so 64 steps do.
    [phase_path] and [finish_recovery] walk towards the root, and
    [reset_to_exec] away from it: a phase is younger than its parent
    ([Phases.tree_wf]), so the number of the phase, or of the younger phases,
    is enough.  [GetCDToRecover] destroys the innermost domain in every round:
    the length of the path is enough ([Escalation.Rollback_rolled]).
    [print_yaml] descends to younger phases as well, and [print_digits] has 64
    digits for 64 bits ([Config.digits_print_u]).
    [find_cover] goes up by one level in every round, so it is enough there as
    well ([Detection.find_cover_innermost]).
    [InvokeErrorHandler] has twice the length of the queue: a report adds one
    event to it.  The counters of pending events are bounded by twice the
    number of reports, which the theorems take to be below 2^30.
    [gasdev] rejects pairs of random numbers, its fuel is an argument.
    [sp2_while] has 100, the limit of passes in the code.
    The theorems about growing memory assume the sizes stay in 64 bits: [fits]
    and [room] for logs, [MAX_DATA] (1 TiB) and [MAX_ENTRIES] (2^39) for
    stores.

    ** Not modelled

    - MPI, the mathematical library and the allocator are parameters or always
      succeed; one-sided MPI wrappers only forward, and MPI_Status is not kept.
    - The file handles on MPI-IO and libc (mpi_file_handle.cc, libc files of
      cd_file_handle.cc), writing at a position and reading a whole store
      (data_store.cc): only the paths of CD::PreserveCopy to a POSIX file are.
    - The entries the heads keep for other tasks, and the handlers that
      exchange them (a parameter of [Mailbox]); two tasks inside an operation
      on a mailbox at the same time: an operation is one step.  [Handle] is the
      life cycle of a program of one task, [Coordination] the synchronisation
      of one domain; rollbacks of several tasks are not composed of the two.
      The profile of a phase, tuning, and estimation.json: the configuration
      that [Detection] uses is a list of labels and vectors.  libyaml: [Config]
      takes the events of a document and writes its lines, for scalars that
      YAML takes as they are.
    - Output of the runtime, but for the lines that RestoreAll writes into 64
      characters ([Preserve.RestoreAll]); the line that preserves a serialising
      object writes into 128 characters, with its name, is taken to fit.
    - Logging of libc calls: its log has the bodies of [CommLog].
    - Input, output and timers of CoMD and CoSP2, and reading the tables of
      CoMD's embedded-atom potential; CoSP2's threads (a row is the work of one
      thread, and no two threads share a row) and its build without
      CONTIG_MATRIX; the requests of its receives.
    - The other applications (LULESH, HPGMG, SpMV, other versions of CoMD)
      are users of the runtime, like the two modelled. *)

From Stdlib Require Import ZArith Lia.
From Stdlib Require String.
From stdpp Require Import base list numbers sets.

#[global] Open Scope Z_scope.

(** ** Results of C code

    A C function either returns or its behaviour stops being defined by the
    source: a failed [assert], an access outside an array, a signed integer
    or a float-to-integer conversion outside the range of [int], a division
    by zero, a fatal [exit]. *)
Inductive cerr :=
  | AssertFail
  | OutOfBounds
  | IntOverflow
  | DivByZero
  | FatalExit
  | OutOfFuel.

Inductive res (A : Type) :=
  | Ok (a : A)
  | Err (e : cerr).
Arguments Ok {_} _.
Arguments Err {_} _.

#[export] Instance cerr_eq_dec : EqDecision cerr.
Proof. solve_decision. Defined.

#[export] Instance res_eq_dec {A} `{!EqDecision A} : EqDecision (res A).
Proof. solve_decision. Defined.

#[export] Instance res_ret : MRet res := @Ok.
#[export] Instance res_bind : MBind res := λ A B f m,
  match m with Ok a => f a | Err e => Err e end.

(** [returns m Q]: the code returns, and its result satisfies [Q]. This is
    total correctness: no assertion fails, no access leaves its array. *)
Definition returns {A} (m : res A) (Q : A → Prop) : Prop :=
  match m with Ok a => Q a | Err _ => False end.

Create HintDb cspec.

Lemma returns_Ok {A} (m : res A) (Q : A → Prop) :
  returns m Q ↔ ∃ a, m = Ok a ∧ Q a.
Proof. destruct m; simpl; naive_solver. Qed.

Lemma returns_ret {A} (a : A) (Q : A → Prop) : Q a → returns (Ok a) Q.
Proof. done. Qed.

Lemma returns_bind {A B} (m : res A) (f : A → res B) (P : A → Prop) (Q : B → Prop) :
  returns m P → (∀ a, P a → returns (f a) Q) → returns (m ≫= f) Q.
Proof. destruct m; simpl; naive_solver. Qed.

Lemma returns_mono {A} (m : res A) (P Q : A → Prop) :
  returns m P → (∀ a, P a → Q a) → returns m Q.
Proof. destruct m; simpl; naive_solver. Qed.

Lemma ret_bind {A B} (a : A) (f : A → res B) : Ok a ≫= f = f a.
Proof. done. Qed.

Lemma bind_Ok {A B} (m : res A) (f : A → res B) b :
  m ≫= f = Ok b ↔ ∃ a, m = Ok a ∧ f a = Ok b.
Proof. destruct m; simpl; naive_solver. Qed.

#[export] Hint Resolve returns_ret : cspec.

(** The value of a computation known to return. *)
Definition get {A} (d : A) (m : res A) : A := match m with Ok a => a | Err _ => d end.

Lemma get_Ok {A} (d : A) (m : res A) : (if m then true else false) = true → m = Ok (get d m).
Proof. by destruct m. Qed.

(** ** Guards *)

(** C's [assert]. *)
Definition cassert (b : bool) : res unit :=
  if b then Ok () else Err AssertFail.

(** [sprintf] of a line into an array of [cap] characters. *)
Definition sprintf (cap : Z) (s : String.string) : res String.string :=
  if Z.of_nat (String.length s) <? cap then Ok s else Err OutOfBounds.

Definition INT_MAX : Z := 2147483647.
Definition INT_MIN : Z := -2147483648.

(** A value stored into an [int]: outside its range the behaviour of the
    signed computation that produced it is undefined. *)
Definition int32 (z : Z) : res Z :=
  if (INT_MIN <=? z) && (z <=? INT_MAX) then Ok z else Err IntOverflow.

(** Values stored into unsigned types wrap around. *)
Definition u32 (z : Z) : Z := z mod 2 ^ 32.
Definition u64 (z : Z) : Z := z mod 2 ^ 64.
#[global] Arguments u32 : simpl never.
#[global] Arguments u64 : simpl never.

(** C's [/] and [%] on [int]: truncation towards zero. *)
Definition cdiv (a b : Z) : res Z := if b =? 0 then Err DivByZero else Ok (Z.quot a b).
Definition crem (a b : Z) : res Z := if b =? 0 then Err DivByZero else Ok (Z.rem a b).

Lemma cdiv_Ok a b : 0 ≤ a → 0 < b → cdiv a b = Ok (a / b).
Proof.
  intros. unfold cdiv. rewrite (proj2 (Z.eqb_neq _ _)) by lia.
  by rewrite Z.quot_div_nonneg by lia.
Qed.

Lemma crem_Ok a b : 0 ≤ a → 0 < b → crem a b = Ok (a mod b).
Proof.
  intros. unfold crem. rewrite (proj2 (Z.eqb_neq _ _)) by lia.
  by rewrite Z.rem_mod_nonneg by lia.
Qed.

Lemma cassert_true b : b = true → cassert b = Ok ().
Proof. by intros ->. Qed.

Lemma cassert_Ok b u : cassert b = Ok u ↔ b = true.
Proof. destruct b, u; simpl; naive_solver. Qed.

Lemma int32_Ok z : INT_MIN ≤ z ≤ INT_MAX → int32 z = Ok z.
Proof.
  intros [??]. unfold int32.
  by rewrite (proj2 (Z.leb_le _ _)), (proj2 (Z.leb_le _ _)) by done.
Qed.

Lemma int32_inv z z' : int32 z = Ok z' → z' = z ∧ INT_MIN ≤ z ≤ INT_MAX.
Proof. unfold int32. case_match; [|done]. intros [= ->]. lia. Qed.

Lemma u32_range z : 0 ≤ u32 z < 2 ^ 32.
Proof. apply Z.mod_pos_bound. lia. Qed.

Lemma u64_range z : 0 ≤ u64 z < 2 ^ 64.
Proof. apply Z.mod_pos_bound. lia. Qed.

Lemma u32_small z : 0 ≤ z < 2 ^ 32 → u32 z = z.
Proof. apply Z.mod_small. Qed.

Lemma u64_small z : 0 ≤ z < 2 ^ 64 → u64 z = z.
Proof. apply Z.mod_small. Qed.

(** ** Arrays

    A C array is a list; every access is checked against its allocation. *)
Section arrays.
Context {A : Type}.
Implicit Types (a : list A) (i j : Z) (x y : A).

Definition aload (a : list A) (i : Z) : res A :=
  if 0 <=? i then
    match a !! Z.to_nat i with Some x => Ok x | None => Err OutOfBounds end
  else Err OutOfBounds.

Definition astore (a : list A) (i : Z) (x : A) : res (list A) :=
  if (0 <=? i) && (i <? Z.of_nat (length a))
  then Ok (<[Z.to_nat i := x]> a) else Err OutOfBounds.

Lemma aload_Ok a i x :
  aload a i = Ok x ↔ 0 ≤ i ∧ a !! Z.to_nat i = Some x.
Proof.
  unfold aload. destruct (Z.leb_spec 0 i).
  - destruct (a !! Z.to_nat i); naive_solver.
  - split; [done|lia].
Qed.

Lemma aload_lookup a i x :
  0 ≤ i → a !! Z.to_nat i = Some x → aload a i = Ok x.
Proof. rewrite aload_Ok. done. Qed.

Lemma aload_total `{!Inhabited A} a i :
  0 ≤ i < Z.of_nat (length a) → aload a i = Ok (a !!! Z.to_nat i).
Proof.
  intros. apply aload_lookup; [lia|]. apply list_lookup_lookup_total_lt. lia.
Qed.

Lemma aload_is_Some a i :
  0 ≤ i < Z.of_nat (length a) → ∃ x, a !! Z.to_nat i = Some x ∧ aload a i = Ok x.
Proof.
  intros. destruct (lookup_lt_is_Some_2 a (Z.to_nat i)) as [x Hx]; [lia|].
  exists x. split; [done|]. apply aload_lookup; [lia|done].
Qed.

Lemma astore_Ok a i x :
  0 ≤ i < Z.of_nat (length a) → astore a i x = Ok (<[Z.to_nat i := x]> a).
Proof.
  intros. unfold astore.
  by rewrite (proj2 (Z.leb_le _ _)), (proj2 (Z.ltb_lt _ _)) by lia.
Qed.

Lemma astore_inv a i x a' :
  astore a i x = Ok a' →
  0 ≤ i < Z.of_nat (length a) ∧ a' = <[Z.to_nat i := x]> a.
Proof. unfold astore. case_match; [|done]. intros [= <-]. split; [lia|done]. Qed.

Lemma astore_length a i x a' : astore a i x = Ok a' → length a' = length a.
Proof. intros [? ->]%astore_inv. by rewrite length_insert. Qed.
End arrays.

(** ** Loops *)

(** [for (x in l) body]: the state is threaded, the first error stops it. *)
Fixpoint foldM {A S} (body : A → S → res S) (l : list A) (s : S) : res S :=
  match l with
  | [] => Ok s
  | x :: l => s' ← body x s; foldM body l s'
  end.

(** [for (int i = lo; i < hi; ++i) body]. *)
Definition for_range {S} (lo hi : Z) (body : Z → S → res S) (s : S) : res S :=
  foldM body (seqZ lo (hi - lo)) s.

Section loops.
Context {A S : Type}.
Implicit Types (body : A → S → res S) (l : list A) (s : S).

Lemma foldM_app body l1 l2 s :
  foldM body (l1 ++ l2) s = foldM body l1 s ≫= foldM body l2.
Proof.
  revert s. induction l1 as [|x l1 IH]; intros s; simpl; [done|].
  destruct (body x s); simpl; [apply IH|done].
Qed.

(** Loop rule: an invariant indexed by the part of the list already done. *)
Lemma foldM_inv (I : list A → S → Prop) body l s :
  I [] s →
  (∀ l1 x l2 s, l = l1 ++ x :: l2 → I l1 s → returns (body x s) (I (l1 ++ [x]))) →
  returns (foldM body l s) (I l).
Proof.
  intros H0 Hstep.
  assert (∀ l2 l1 s, l = l1 ++ l2 → I l1 s → returns (foldM body l2 s) (I l)) as Hgen.
  { induction l2 as [|x l2 IH]; intros l1 s1 -> HI; simpl.
    - by rewrite app_nil_r.
    - eapply returns_bind; [by apply (Hstep l1 x l2)|].
      intros s' HI'. apply (IH (l1 ++ [x])); [|done]. by rewrite <-app_assoc. }
  by apply (Hgen l [] s).
Qed.

Lemma foldM_pure (f : A → S → S) body l s :
  (∀ x s, x ∈ l → body x s = Ok (f x s)) →
  foldM body l s = Ok (foldl (flip f) s l).
Proof.
  revert s. induction l as [|x l IH]; intros s Hf; simpl; [done|].
  rewrite Hf by set_solver. simpl. apply IH. set_solver.
Qed.

(** Partial-correctness rule, for a loop already known to return. *)
Lemma foldM_preserve (I : S → Prop) body l s s' :
  (∀ x s s', x ∈ l → I s → body x s = Ok s' → I s') →
  I s → foldM body l s = Ok s' → I s'.
Proof.
  revert s. induction l as [|x l IH]; intros s Hb HI; simpl.
  - by intros [= <-].
  - intros (s1 & H1 & H2)%bind_Ok. eapply IH; [|eapply Hb; eauto; set_solver|done].
    intros; eapply Hb; eauto; set_solver.
Qed.
End loops.

(** A loop that appends one element per iteration to an array. *)
Lemma foldM_collect {A B} (g : A → res B) (h : A → B) (l : list A) (acc : list B) :
  (∀ x, x ∈ l → g x = Ok (h x)) →
  foldM (λ x acc, y ← g x; Ok (acc ++ [y])) l acc = Ok (acc ++ (h <$> l)).
Proof.
  revert acc. induction l as [|x l IH]; intros acc Hg; simpl.
  - by rewrite app_nil_r.
  - rewrite Hg by set_solver. simpl. rewrite IH by set_solver. by rewrite <-app_assoc.
Qed.

Lemma length_bind_const {A B} (f : A → list B) (l : list A) n :
  (∀ x, x ∈ l → length (f x) = n) → length (l ≫= f) = (length l * n)%nat.
Proof.
  induction l as [|x l IH]; intros Hf; csimpl; [done|].
  rewrite length_app, Hf, IH by set_solver. lia.
Qed.

Lemma fmap_list_bind {A B C} (f : B → C) (g : A → list B) (l : list A) :
  f <$> (l ≫= g) = l ≫= (λ x, f <$> g x).
Proof. induction l as [|x l IH]; csimpl; [done|]. by rewrite fmap_app, IH. Qed.

Lemma list_bind_singleton {A B} (h : A → B) (l : list A) : l ≫= (λ x, [h x]) = h <$> l.
Proof. induction l as [|x l IH]; csimpl; [done|]. by rewrite IH. Qed.

Lemma list_bind_singleton_l {A B} (f : A → list B) x : [x] ≫= f = f x.
Proof. csimpl. by rewrite app_nil_r. Qed.

Lemma fmap_inj_on {A B} (f : A → B) (l k : list A) :
  (∀ x y, x ∈ l → y ∈ k → f x = f y → x = y) → f <$> l = f <$> k → l = k.
Proof.
  revert k. induction l as [|x l IH]; intros [|y k] Hf; csimpl; try done.
  intros He. assert (f x = f y ∧ f <$> l = f <$> k) as [H1 H2] by (split; congruence).
  f_equal; [by apply Hf; [left|left|]|]. apply IH; [|done].
  intros x' y' ??. apply Hf; by right.
Qed.

Lemma list_elem_of_concat {A} (x : A) (ls : list (list A)) :
  x ∈ concat ls ↔ ∃ l, x ∈ l ∧ l ∈ ls.
Proof.
  induction ls as [|l ls IH]; simpl.
  - split; [by intros ?%not_elem_of_nil|]. by intros (?&?&?%not_elem_of_nil).
  - rewrite elem_of_app, IH. setoid_rewrite elem_of_cons. naive_solver.
Qed.

Section ranges.
Context {S : Type}.
Implicit Types (body : Z → S → res S) (s : S).

Lemma for_range_nil lo hi body s : hi ≤ lo → for_range lo hi body s = Ok s.
Proof. intros. unfold for_range. by rewrite seqZ_nil by lia. Qed.

Lemma for_range_cons lo hi body s :
  lo < hi → for_range lo hi body s = body lo s ≫= for_range (lo + 1) hi body.
Proof.
  intros. unfold for_range. rewrite seqZ_cons by lia. simpl.
  replace (Z.pred (hi - lo)) with (hi - (lo + 1)) by lia.
  by replace (Z.succ lo) with (lo + 1) by lia.
Qed.

Lemma for_range_snoc lo hi body s :
  lo ≤ hi → for_range lo (hi + 1) body s = for_range lo hi body s ≫= body hi.
Proof.
  intros. unfold for_range.
  replace (hi + 1 - lo) with ((hi - lo) + 1) by lia.
  rewrite seqZ_app by lia. rewrite foldM_app.
  replace (lo + (hi - lo)) with hi by lia.
  rewrite (seqZ_cons hi), (seqZ_nil (Z.succ hi)) by lia.
  destruct (foldM _ _ s) as [s'|]; simpl; [|done].
  by destruct (body hi s').
Qed.

(** Loop rule: an invariant indexed by the loop variable. *)
Lemma for_range_inv (I : Z → S → Prop) lo hi body s :
  lo ≤ hi → I lo s →
  (∀ i s, lo ≤ i < hi → I i s → returns (body i s) (I (i + 1))) →
  returns (for_range lo hi body s) (I hi).
Proof.
  intros Hle H0 Hstep. set (n := Z.to_nat (hi - lo)).
  assert (hi = lo + Z.of_nat n) as Hhi by lia.
  assert (∀ k, (k ≤ n)%nat →
    returns (for_range lo (lo + Z.of_nat k) body s) (I (lo + Z.of_nat k))) as Hk.
  { induction k as [|k IH]; intros Hkn.
    - rewrite for_range_nil by lia. simpl. by rewrite Z.add_0_r.
    - replace (lo + Z.of_nat (Datatypes.S k)) with (lo + Z.of_nat k + 1) by lia.
      rewrite for_range_snoc by lia.
      eapply returns_bind; [apply IH; lia|]. intros s' HI. apply Hstep; [lia|done]. }
  rewrite Hhi. apply Hk. lia.
Qed.

Lemma for_range_preserve (I : S → Prop) lo hi body s s' :
  (∀ i s s', lo ≤ i < hi → I s → body i s = Ok s' → I s') →
  I s → for_range lo hi body s = Ok s' → I s'.
Proof.
  intros Hb. apply foldM_preserve. intros i s1 s2 Hi. apply Hb.
  apply elem_of_seqZ in Hi. lia.
Qed.

Lemma for_range_ext lo hi body body' s :
  (∀ i s, lo ≤ i < hi → body i s = body' i s) →
  for_range lo hi body s = for_range lo hi body' s.
Proof.
  intros Hb. unfold for_range.
  assert (∀ l s, (∀ i, i ∈ l → lo ≤ i < hi) →
    foldM body l s = foldM body' l s) as Hl.
  { induction l as [|i l IH]; intros s1 Hl; simpl; [done|].
    rewrite Hb by (apply Hl; set_solver).
    destruct (body' i s1); simpl; [|done]. apply IH. set_solver. }
  apply Hl. intros i Hi%elem_of_seqZ. lia.
Qed.
End ranges.

(** A loop over the indices of an array is a loop over its elements. *)
Lemma for_range_list {A S} (F : A → S → res S) (l : list A) (s : S) :
  for_range 0 (Z.of_nat (length l)) (λ i s, x ← aload l i; F x s) s = foldM F l s.
Proof.
  assert (∀ l2 l1 s, l = l1 ++ l2 →
    for_range (Z.of_nat (length l1)) (Z.of_nat (length l)) (λ i s, x ← aload l i; F x s) s =
    foldM F l2 s) as Hgen; [|by apply (Hgen l [])].
  induction l2 as [|x l2 IH]; intros l1 s1 Hl.
  - rewrite Hl, app_nil_r, for_range_nil by lia. done.
  - rewrite for_range_cons by (rewrite Hl, length_app; simpl; lia). simpl.
    rewrite (aload_lookup l _ x); [|lia|].
    2:{ rewrite Nat2Z.id, Hl. by apply list_lookup_middle. }
    csimpl. destruct (F x s1) as [s2|]; csimpl; [|done].
    rewrite <-(IH (l1 ++ [x]) s2) by (rewrite Hl, <-app_assoc; done).
    rewrite length_app. simpl. by rewrite Nat2Z.inj_add.
Qed.

(** A loop that updates the elements at some indices, each from its own value. *)
Definition map_at {A} (l : list Z) (h : Z → A → A) (a : list A) : list A :=
  imap (λ i x, if decide (Z.of_nat i ∈ l) then h (Z.of_nat i) x else x) a.

Lemma length_map_at {A} l (h : Z → A → A) a : length (map_at l h a) = length a.
Proof. apply length_imap. Qed.

Lemma map_at_lookup {A} l (h : Z → A → A) a (k : nat) :
  map_at l h a !! k = (λ x, if decide (Z.of_nat k ∈ l) then h (Z.of_nat k) x else x) <$> a !! k.
Proof. unfold map_at. by rewrite list_lookup_imap. Qed.

Lemma map_at_cons {A} i l (h : Z → A → A) a x :
  0 ≤ i → i ∉ l → a !! Z.to_nat i = Some x →
  map_at (i :: l) h a = map_at l h (<[Z.to_nat i := h i x]> a).
Proof.
  intros Hi Hl Hx. apply list_eq. intros k. rewrite !map_at_lookup.
  destruct (decide (k = Z.to_nat i)) as [->|Hk].
  - rewrite list_lookup_insert_eq by (by eapply lookup_lt_Some). rewrite Hx. simpl.
    rewrite Z2Nat.id by done. rewrite decide_True by left. by rewrite decide_False.
  - rewrite list_lookup_insert_ne by done. destruct (a !! k); simpl; [|done]. f_equal.
    destruct (decide (Z.of_nat k ∈ l)).
    + by rewrite decide_True by (by right).
    + rewrite decide_False; [done|]. intros [?|?]%elem_of_cons; [lia|done].
Qed.

Lemma foldM_update {A} (F : Z → list A → res (list A)) (h : Z → A → A) l a :
  NoDup l →
  (∀ i, i ∈ l → 0 ≤ i < Z.of_nat (length a)) →
  (∀ i a' x, i ∈ l → length a' = length a → a' !! Z.to_nat i = Some x →
     F i a' = Ok (<[Z.to_nat i := h i x]> a')) →
  foldM F l a = Ok (map_at l h a).
Proof.
  intros Hnd. revert a. induction Hnd as [|i l Hi Hnd IH]; intros a Hr HF; simpl.
  - f_equal. apply list_eq. intros k. rewrite map_at_lookup.
    by destruct (a !! k).
  - destruct (lookup_lt_is_Some_2 a (Z.to_nat i)) as [x Hx].
    { specialize (Hr i ltac:(left)). lia. }
    rewrite (HF i a x) by (done || left). simpl.
    rewrite (map_at_cons i l h a x) by (done || apply (Hr i); left).
    apply IH.
    + intros j Hj. rewrite length_insert. apply Hr. by right.
    + intros j a' y Hj Hlen. apply HF; [by right|]. by rewrite Hlen, length_insert.
Qed.

(** ** Tactics *)

(** Case analysis on a chain of binds known to return. *)
Ltac res_inv :=
  repeat match goal with
  | H : Ok _ = Ok _ |- _ => injection H as H; subst
  | H : Err _ = Ok _ |- _ => discriminate H
  | H : _ ≫= _ = Ok _ |- _ => apply bind_Ok in H as (?&?&H)
  | H : mret _ = Ok _ |- _ => injection H as H; subst
  | H : cassert _ = Ok _ |- _ => apply cassert_Ok in H
  | H : int32 _ = Ok _ |- _ => apply int32_inv in H as [-> ?]
  | H : astore _ _ _ = Ok _ |- _ => apply astore_inv in H as [? ->]
  | H : aload _ _ = Ok _ |- _ => apply aload_Ok in H as [??]
  end.

(** Turns boolean comparisons of [Z] into propositions. *)
Ltac zbool :=
  repeat match goal with
  | H : (_ =? _) = true |- _ => apply Z.eqb_eq in H
  | H : (_ =? _) = false |- _ => apply Z.eqb_neq in H
  | H : (_ <? _) = true |- _ => apply Z.ltb_lt in H
  | H : (_ <? _) = false |- _ => apply Z.ltb_ge in H
  | H : (_ <=? _) = true |- _ => apply Z.leb_le in H
  | H : (_ <=? _) = false |- _ => apply Z.leb_gt in H
  | H : (_ && _)%bool = true |- _ => apply andb_true_iff in H as [??]
  end.

(** Removes the wrap-around of unsigned sums that stay in range. *)
Ltac u32_norm :=
  repeat match goal with
  | |- context [ u32 ?x ] =>
      lazymatch x with
      | context [ u32 _ ] => fail
      | _ => rewrite (u32_small x) by lia
      end
  end.

(** Case analysis on the first conditional on [Z] in the goal. *)
Ltac zcase :=
  match goal with
  | |- context [ if ?b then _ else _ ] => destruct b eqn:?; zbool
  end.

(** ** Vectors of three *)
Record vec3 (A : Type) := V3 { v0 : A; v1 : A; v2 : A }.
Arguments V3 {_} _ _ _.
Arguments v0 {_} _.
Arguments v1 {_} _.
Arguments v2 {_} _.

#[export] Instance vec3_eq_dec {A} `{!EqDecision A} : EqDecision (vec3 A).
Proof. solve_decision. Defined.
#[export] Instance vec3_inhabited {A} `{!Inhabited A} : Inhabited (vec3 A) :=
  populate (V3 inhabitant inhabitant inhabitant).

Definition vmap {A B} (f : A → B) (v : vec3 A) : vec3 B := V3 (f (v0 v)) (f (v1 v)) (f (v2 v)).
Definition vmap2 {A B C} (f : A → B → C) (v : vec3 A) (w : vec3 B) : vec3 C :=
  V3 (f (v0 v) (v0 w)) (f (v1 v) (v1 w)) (f (v2 v) (v2 w)).
