(* ===== verification/Layout.v ===== *)
(** * Bytes in memory

    The runtime copies whole structures into byte arrays with [memcpy] and
    copies them back later.  This file has the cells such an array consists
    of, the two directions of [memcpy], and the class [Layout] of the types
    that are copied this way: their size, how a value lies in memory, how it
    is read back, and the law that reading back gives the value.  Integers are
    little-endian, as on the machines the runtime is built for; the value of a
    padding byte is indeterminate and nothing reads it. *)

From Stdlib Require Import ZArith Lia.
From stdpp Require Import base list list_numbers numbers.
From S2P Require Import Prelude.

(** ** Memory cells *)

(** A byte, or [None] where nothing has been stored since the allocation. *)
#[global] Abbreviation cell := (option Z).

(** The length of an array, as the code counts it. *)
Definition zlen {A} (l : list A) : Z := Z.of_nat (length l).
#[global] Arguments zlen {_} _ : simpl never.

Lemma zlen_app {A} (l k : list A) : zlen (l ++ k) = zlen l + zlen k.
Proof. unfold zlen. rewrite length_app. lia. Qed.

Lemma zlen_cons {A} (x : A) l : zlen (x :: l) = zlen l + 1.
Proof. unfold zlen. simpl. lia. Qed.

Lemma zlen_nil {A} : zlen ([] : list A) = 0.
Proof. done. Qed.

Lemma zlen_nonneg {A} (l : list A) : 0 ≤ zlen l.
Proof. unfold zlen. lia. Qed.

Lemma zlen_replicate {A} n (x : A) : 0 ≤ n → zlen (replicate (Z.to_nat n) x) = n.
Proof. intros. unfold zlen. rewrite length_replicate. lia. Qed.

Lemma zlen_fmap {A B} (f : A → B) l : zlen (f <$> l) = zlen l.
Proof. unfold zlen. by rewrite length_fmap. Qed.

Lemma zlen_take {A} n (l : list A) : 0 ≤ n ≤ zlen l → zlen (take (Z.to_nat n) l) = n.
Proof. unfold zlen. intros. rewrite length_take. lia. Qed.

Lemma zlen_drop {A} n (l : list A) : 0 ≤ n ≤ zlen l → zlen (drop (Z.to_nat n) l) = zlen l - n.
Proof. unfold zlen. intros. rewrite length_drop. lia. Qed.

Create Rewrite HintDb zlen.

#[export] Hint Rewrite @zlen_app @zlen_cons @zlen_nil @zlen_fmap : zlen.

Lemma to_nat_zlen {A} (l : list A) : Z.to_nat (zlen l) = length l.
Proof. unfold zlen. lia. Qed.

Lemma take_zlen_app {A} (l k : list A) : take (Z.to_nat (zlen l)) (l ++ k) = l.
Proof. rewrite to_nat_zlen. by rewrite take_app_length. Qed.

Lemma drop_zlen_app {A} (l k : list A) : drop (Z.to_nat (zlen l)) (l ++ k) = k.
Proof. rewrite to_nat_zlen. by rewrite drop_app_length. Qed.

(** ** memcpy *)

(** Reads [n] elements from offset [pos]; a copy of nothing touches nothing. *)
Definition slice {A} (src : option (list A)) (pos n : Z) : res (list A) :=
  if n =? 0 then Ok []
  else match src with
       | None => Err OutOfBounds
       | Some s => if (0 <=? pos) && (0 <=? n) && (pos + n <=? zlen s)
                   then Ok (take (Z.to_nat n) (drop (Z.to_nat pos) s))
                   else Err OutOfBounds
       end.

(** Writes the elements [bs] at offset [pos]. *)
Definition blit {A} (dst : option (list A)) (pos : Z) (bs : list A) : res (option (list A)) :=
  if zlen bs =? 0 then Ok dst
  else match dst with
       | None => Err OutOfBounds
       | Some d => if (0 <=? pos) && (pos + zlen bs <=? zlen d)
                   then Ok (Some (take (Z.to_nat pos) d ++ bs
                                  ++ drop (Z.to_nat (pos + zlen bs)) d))
                   else Err OutOfBounds
       end.

Lemma slice_mid {A} (l m r : list A) : slice (Some (l ++ m ++ r)) (zlen l) (zlen m) = Ok m.
Proof.
  unfold slice. destruct (Z.eqb_spec (zlen m) 0) as [Hm|Hm].
  - destruct m; [done|]. rewrite zlen_cons in Hm. pose proof (zlen_nonneg m). lia.
  - pose proof (zlen_nonneg l). pose proof (zlen_nonneg m). pose proof (zlen_nonneg r).
    rewrite !zlen_app.
    replace ((0 <=? zlen l) && (0 <=? zlen m) &&
             (zlen l + zlen m <=? zlen l + (zlen m + zlen r))) with true.
    + by rewrite drop_zlen_app, take_zlen_app.
    + symmetry. rewrite !andb_true_iff, !Z.leb_le. lia.
Qed.

Lemma slice_mid' {A} (l m r : list A) p n :
  p = zlen l → n = zlen m → slice (Some (l ++ m ++ r)) p n = Ok m.
Proof. intros -> ->. apply slice_mid. Qed.

Lemma slice_zlen {A} (src : option (list A)) p n d : 0 ≤ n → slice src p n = Ok d → zlen d = n.
Proof.
  intros Hn. unfold slice. destruct (Z.eqb_spec n 0) as [->|]; [by intros [= <-]|].
  destruct src as [s|]; [|done]. case_match; [|done]. zbool. intros [= <-].
  apply zlen_take. rewrite zlen_drop by lia. lia.
Qed.

Lemma blit_mid {A} (l m r k : list A) :
  zlen k = zlen m → blit (Some (l ++ m ++ r)) (zlen l) k = Ok (Some (l ++ k ++ r)).
Proof.
  intros Hk. unfold blit. destruct (Z.eqb_spec (zlen k) 0) as [Hk0|Hk0].
  - rewrite Hk0 in Hk. destruct k, m; rewrite ?zlen_cons in *; try done;
      try (pose proof (zlen_nonneg k)); try (pose proof (zlen_nonneg m)); lia.
  - pose proof (zlen_nonneg l). pose proof (zlen_nonneg m). pose proof (zlen_nonneg r).
    rewrite !zlen_app, Hk.
    replace ((0 <=? zlen l) && (zlen l + zlen m <=? zlen l + (zlen m + zlen r))) with true.
    + rewrite take_zlen_app. do 3 f_equal.
      rewrite <-zlen_app, app_assoc. by rewrite drop_zlen_app.
    + symmetry. rewrite !andb_true_iff, !Z.leb_le. lia.
Qed.

Lemma blit_mid' {A} (l m r k : list A) p :
  p = zlen l → zlen k = zlen m → blit (Some (l ++ m ++ r)) p k = Ok (Some (l ++ k ++ r)).
Proof. intros ->. apply blit_mid. Qed.

Lemma blit_length {A} (d : list A) p k d' :
  blit (Some d) p k = Ok d' → ∃ d1, d' = Some d1 ∧ zlen d1 = zlen d.
Proof.
  unfold blit. destruct (zlen k =? 0).
  - intros [= <-]. by exists d.
  - case_match; [|done]. intros [= <-]. eexists; split; [done|]. zbool.
    rewrite !zlen_app, zlen_take, zlen_drop by (pose proof (zlen_nonneg k); lia). lia.
Qed.

(** [p = new T[n]] for elements of [sz] bytes, each in the state [x] its
    default constructor leaves; a size the implementation cannot represent
    throws, and nothing in the program catches it. *)
Definition new_array {A} (n sz : Z) (x : A) : res (list A) :=
  if n * sz <? 2 ^ 63 then Ok (replicate (Z.to_nat n) x) else Err FatalExit.

Lemma new_array_Ok {A} n sz (x : A) :
  0 ≤ n → n * sz < 2 ^ 63 → new_array n sz x = Ok (replicate (Z.to_nat n) x).
Proof. intros. unfold new_array. by rewrite (proj2 (Z.ltb_lt _ _)). Qed.

(** ** Layouts *)

Class Layout (A : Type) := {
  sizeof : Z;
  storable : A → Prop;
  to_bytes : A → list cell;
  of_bytes : list cell → option A;
  zlen_to_bytes a : zlen (to_bytes a) = sizeof;
  of_to_bytes a : storable a → of_bytes (to_bytes a) = Some a;
}.
#[global] Hint Mode Layout ! : typeclass_instances.
#[global] Arguments sizeof A {_}.

(** Two values that lie in memory alike are equal. *)
Lemma to_bytes_inj `{Layout A} (a b : A) :
  storable a → storable b → to_bytes a = to_bytes b → a = b.
Proof.
  intros Ha Hb He. apply of_to_bytes in Ha. apply of_to_bytes in Hb. congruence.
Qed.

Lemma sizeof_nonneg `{Layout A} (a : A) : 0 ≤ sizeof A.
Proof. rewrite <-(zlen_to_bytes a). apply zlen_nonneg. Qed.

(** Unsigned integers of [n] bytes. *)
Record uint (n : Z) := UInt { uval : Z }.
Arguments UInt {_} _.
Arguments uval {_} _.

#[export] Instance uint_eq_dec n : EqDecision (uint n).
Proof. solve_decision. Defined.

Fixpoint le_bytes (n : nat) (z : Z) : list cell :=
  match n with
  | O => []
  | S n => Some (z mod 256) :: le_bytes n (z / 256)
  end.

Fixpoint le_value (l : list cell) : option Z :=
  match l with
  | [] => Some 0
  | c :: l => b ← c; v ← le_value l; Some (b + 256 * v)
  end.

Lemma length_le_bytes n z : length (le_bytes n z) = n.
Proof. revert z. induction n; intros; simpl; auto. Qed.

Lemma le_value_bytes n z : 0 ≤ z < 256 ^ Z.of_nat n → le_value (le_bytes n z) = Some z.
Proof.
  revert z. induction n as [|n IH]; intros z Hz; simpl.
  - f_equal. simpl in Hz. lia.
  - rewrite IH; simpl.
    + f_equal. pose proof (Z.div_mod z 256). lia.
    + replace (Z.of_nat (S n)) with (Z.succ (Z.of_nat n)) in Hz by lia.
      rewrite Z.pow_succ_r in Hz by lia.
      split; [apply Z.div_pos; lia|]. apply Z.div_lt_upper_bound; lia.
Qed.

#[export] Program Instance uint_layout (n : nat) : Layout (uint (Z.of_nat n)) := {|
  sizeof := Z.of_nat n;
  storable u := 0 ≤ uval u < 256 ^ Z.of_nat n;
  to_bytes u := le_bytes n (uval u);
  of_bytes l := UInt <$> le_value l;
|}.
Next Obligation. intros n u. unfold zlen. by rewrite length_le_bytes. Qed.
Next Obligation. intros n [u] Hu. simpl in *. by rewrite le_value_bytes. Qed.

#[global] Abbreviation u8 := (uint (Z.of_nat 1)).
#[global] Abbreviation uint32_t := (uint (Z.of_nat 4)).
#[global] Abbreviation uint64_t := (uint (Z.of_nat 8)).

(** [int]: two's complement. *)
Record sint := SInt { sval : Z }.

#[export] Program Instance sint_layout : Layout sint := {|
  sizeof := 4;
  storable i := INT_MIN ≤ sval i ≤ INT_MAX;
  to_bytes i := le_bytes 4 (u32 (sval i));
  of_bytes l := (λ z, SInt (if z <=? INT_MAX then z else z - 2 ^ 32)) <$> le_value l;
|}.
Next Obligation. done. Qed.
Next Obligation.
  intros [i] Hi. simpl sval in *. rewrite le_value_bytes by (apply u32_range).
  simpl. do 2 f_equal. unfold u32, INT_MIN, INT_MAX in *.
  change (2 ^ 32) with 4294967296 in *.
  pose proof (Z.div_mod i 4294967296). pose proof (Z.mod_pos_bound i 4294967296).
  destruct (Z.leb_spec (i mod 4294967296) 2147483647); lia.
Qed.

(** [bool]: one byte. *)
#[export] Program Instance bool_layout : Layout bool := {|
  sizeof := 1;
  storable b := True;
  to_bytes b := [Some (if b then 1 else 0)];
  of_bytes l := (λ z, negb (z =? 0)) <$> le_value l;
|}.
Next Obligation. done. Qed.
Next Obligation. by intros [] _. Qed.

(** Padding, and members whose value no reader uses after the copy. *)
Inductive pad (n : Z) := Pad.
Arguments Pad {_}.

#[export] Program Instance pad_layout (n : nat) : Layout (pad (Z.of_nat n)) := {|
  sizeof := Z.of_nat n;
  storable _ := True;
  to_bytes _ := replicate n None;
  of_bytes _ := Some Pad;
|}.
Next Obligation. intros n []. unfold zlen. by rewrite length_replicate. Qed.
Next Obligation. by intros n []. Qed.

#[global] Abbreviation padding n := (pad (Z.of_nat n)).

(** Members one after the other. *)
#[export] Program Instance pair_layout `{Layout A, Layout B} : Layout (A * B) := {|
  sizeof := sizeof A + sizeof B;
  storable p := storable (fst p) ∧ storable (snd p);
  to_bytes p := to_bytes (fst p) ++ to_bytes (snd p);
  of_bytes l := a ← of_bytes (take (Z.to_nat (sizeof A)) l);
                b ← of_bytes (drop (Z.to_nat (sizeof A)) l); Some (a, b);
|}.
Next Obligation. intros A ? B ? [a b]. simpl. by rewrite zlen_app, !zlen_to_bytes. Qed.
Next Obligation.
  intros A ? B ? [a b] [Ha Hb]. simpl in *.
  rewrite <-(zlen_to_bytes a), take_zlen_app, drop_zlen_app.
  rewrite (of_to_bytes a Ha). simpl. by rewrite (of_to_bytes b Hb).
Qed.

(** A structure, from the tuple of its members. *)
Program Definition struct_layout {A T} `{Layout T} (f : A → T) (g : T → A)
    (Hgf : ∀ a, g (f a) = a) : Layout A := {|
  sizeof := sizeof T;
  storable a := storable (f a);
  to_bytes a := to_bytes (f a);
  of_bytes l := g <$> of_bytes l;
|}.
Next Obligation. intros. simpl. apply zlen_to_bytes. Qed.
Next Obligation. intros A T ? f g Hgf a Ha. simpl. rewrite of_to_bytes by done. simpl. by rewrite Hgf. Qed.

(** ** Copies of one value *)

(** [memcpy(&x, p + pos, sizeof x)]: indeterminate bytes must not be read. *)
Definition load_at (A : Type) `{Layout A} (src : option (list cell)) (pos : Z) : res A :=
  l ← slice src pos (sizeof A);
  match of_bytes l with Some a => Ok a | None => Err OutOfBounds end.

Lemma load_at_mid `{Layout A} (l r : list cell) (a : A) p :
  p = zlen l → storable a → load_at A (Some (l ++ to_bytes a ++ r)) p = Ok a.
Proof.
  intros -> Ha. unfold load_at.
  rewrite <-(zlen_to_bytes a), slice_mid. simpl. by rewrite of_to_bytes.
Qed.

(** An array of values, one after the other. *)
Definition array_bytes `{Layout A} (l : list A) : list cell := l ≫= to_bytes.

Lemma array_bytes_cons `{Layout A} (a : A) (l : list A) :
  array_bytes (a :: l) = to_bytes a ++ array_bytes l.
Proof. done. Qed.

Fixpoint load_array (A : Type) `{Layout A} (n : nat) (src : list cell) : res (list A) :=
  match n with
  | O => Ok []
  | S n =>
      match of_bytes (take (Z.to_nat (sizeof A)) src) with
      | Some a => l ← load_array A n (drop (Z.to_nat (sizeof A)) src); Ok (a :: l)
      | None => Err OutOfBounds
      end
  end.

Lemma zlen_array_bytes `{Layout A} (l : list A) : zlen (array_bytes l) = sizeof A * zlen l.
Proof.
  induction l as [|a l IH]; [unfold zlen; simpl; lia|].
  unfold array_bytes in *. csimpl. rewrite zlen_app, IH, zlen_to_bytes, zlen_cons. lia.
Qed.

Lemma load_array_bytes `{Layout A} (l : list A) (r : list cell) :
  Forall storable l → load_array A (length l) (array_bytes l ++ r) = Ok l.
Proof.
  induction 1 as [|a l Ha Hl IH]; [done|]. simpl. unfold array_bytes in *. csimpl.
  rewrite <-app_assoc, <-(zlen_to_bytes a), take_zlen_app, drop_zlen_app.
  rewrite of_to_bytes by done. by rewrite IH.
Qed.
