(* ===== verification/Ids.v ===== *)
(** * Identifiers of containment domains

    [src/src/cd_name_t.cc], [src/src/node_id.cc], [src/src/cd_id.cc] and the
    functions of [src/src/cd_handle.cc] and [src/src/cd_internal.cc] that
    divide tasks among children and lay out message tags.  A domain is named
    by its level and its rank in the level; a task of it by the communicator
    and the rank in it.  MPI's handles ([ColorT], [GroupT]) are parameters. *)

From Stdlib Require Import ZArith Lia.
From stdpp Require Import base list numbers.
From S2P Require Import Prelude Layout.

(** ** CDNameT *)

Record CDNameT := { level_ : Z; phase_ : Z; rank_in_level_ : Z; size_ : Z }.

#[export] Instance CDNameT_eq_dec : EqDecision CDNameT.
Proof. solve_decision. Defined.

Definition CDNameT_default : CDNameT := {| level_ := 0; phase_ := 0; rank_in_level_ := 0; size_ := 0 |}.

(** The members are [uint32_t], the arguments [uint64_t]. *)
Definition CDNameT_new (level phase rank_in_level size : Z) : CDNameT :=
  {| level_ := u32 level; phase_ := u32 phase; rank_in_level_ := u32 rank_in_level; size_ := u32 size |}.

(** The name of a child; the products are unsigned, [int] arguments included. *)
Definition CDNameT_child (parent : CDNameT) (num_children color : Z) : CDNameT :=
  {| level_ := u32 (level_ parent + 1);
     phase_ := u32 (-1);
     rank_in_level_ := u32 (u32 (u32 num_children * rank_in_level_ parent) + u32 color);
     size_ := u32 num_children |}.

Definition name_eqb (a b : CDNameT) : bool :=
  (level_ a =? level_ b) && (phase_ a =? phase_ b) &&
  (rank_in_level_ a =? rank_in_level_ b) && (size_ a =? size_ b).

Definition IncLevel (n : CDNameT) : CDNameT :=
  {| level_ := u32 (level_ n + 1); phase_ := phase_ n; rank_in_level_ := rank_in_level_ n; size_ := size_ n |}.

(** An [int]; the conversion from [uint32_t] keeps the bits. *)
Definition CDTag (n : CDNameT) : Z :=
  let t := Z.lor (u32 (Z.shiftl (level_ n) 16)) (rank_in_level_ n) in
  if t <=? INT_MAX then t else t - 2 ^ 32.

Definition name_tuple (n : CDNameT) : uint32_t * (uint32_t * (uint32_t * uint32_t)) :=
  (UInt (level_ n), (UInt (phase_ n), (UInt (rank_in_level_ n), UInt (size_ n)))).

#[export] Instance CDNameT_layout : Layout CDNameT :=
  struct_layout name_tuple
    (λ t, {| level_ := uval (fst t); phase_ := uval (fst (snd t));
             rank_in_level_ := uval (fst (snd (snd t))); size_ := uval (snd (snd (snd t))) |})
    (λ n, match n with Build_CDNameT _ _ _ _ => eq_refl end).

Lemma name_eqb_eq a b : name_eqb a b = true ↔ a = b.
Proof.
  destruct a, b. unfold name_eqb. simpl. rewrite !andb_true_iff, !Z.eqb_eq.
  split; [intros [[[-> ->] ->] ->]; done|by intros [= -> -> -> ->]].
Qed.

Section ids.
Context {ColorT GroupT : Type} `{EqDecision ColorT} `{Layout ColorT} `{Layout GroupT}.

(** ** NodeID *)

Record NodeID := {
  task_in_color_ : Z;
  head_ : Z;
  nsize_ : Z;
  color_id_ : Z;
  color_ : ColorT;
  task_group_ : GroupT;
}.

(** [NodeID(head)]; the null communicator is MPI's. *)
Definition NodeID_head (comm_null : ColorT) (group : GroupT) (head : Z) : NodeID :=
  {| task_in_color_ := -1; head_ := head; nsize_ := -1; color_id_ := -1;
     color_ := comm_null; task_group_ := group |}.

Definition NodeID_new (color : ColorT) (group : GroupT) (task head size : Z) : NodeID :=
  {| task_in_color_ := task; head_ := head; nsize_ := size; color_id_ := -1;
     color_ := color; task_group_ := group |}.

(** Two nodes are the same if the communicator, the rank in it and its size
    agree: neither the head nor the group is compared. *)
Definition node_eqb (a b : NodeID) : bool :=
  bool_decide (color_ a = color_ b) && (task_in_color_ a =? task_in_color_ b)
  && (nsize_ a =? nsize_ b).

Definition IsHead (n : NodeID) : bool := head_ n =? task_in_color_ n.

Definition set_head (n : NodeID) (head : Z) : NodeID :=
  {| task_in_color_ := task_in_color_ n; head_ := head; nsize_ := nsize_ n;
     color_id_ := color_id_ n; color_ := color_ n; task_group_ := task_group_ n |}.

Record TaskInfo := { ti_color_id : Z; ti_task_in_color : Z; ti_head : Z; ti_size : Z }.

Definition NodeID_Serialize (n : NodeID) : TaskInfo :=
  {| ti_color_id := color_id_ n; ti_task_in_color := task_in_color_ n;
     ti_head := head_ n; ti_size := nsize_ n |}.

(** Every assignment of [Deserialize] has the argument on both sides. *)
Definition NodeID_Deserialize (n : NodeID) (taskinfo : TaskInfo) : NodeID * TaskInfo :=
  (n, {| ti_color_id := ti_color_id taskinfo; ti_task_in_color := ti_task_in_color taskinfo;
         ti_head := ti_head taskinfo; ti_size := ti_size taskinfo |}).

Definition node_tuple (n : NodeID) : padding 8 * (sint * (sint * (sint * (sint * (ColorT * GroupT))))) :=
  (Pad, (SInt (task_in_color_ n), (SInt (head_ n), (SInt (nsize_ n),
    (SInt (color_id_ n), (color_ n, task_group_ n)))))).

(** The first eight bytes point to the table of virtual functions. *)
#[export] Instance NodeID_layout : Layout NodeID :=
  struct_layout node_tuple
    (λ t, let '(_, (a, (b, (c, (d, (e, f)))))) := t in
          {| task_in_color_ := sval a; head_ := sval b; nsize_ := sval c; color_id_ := sval d;
             color_ := e; task_group_ := f |})
    (λ n, match n with Build_NodeID _ _ _ _ _ _ => eq_refl end).

(** ** CDID *)

Record CDID := {
  cd_name_ : CDNameT;
  node_id_ : NodeID;
  domain_id_ : Z;
  object_id_ : Z;
  sequential_id_ : Z;
}.

Definition CDID_new (cd_name : CDNameT) (node : NodeID) : CDID :=
  {| cd_name_ := cd_name; node_id_ := node; domain_id_ := 0; object_id_ := 0; sequential_id_ := 0 |}.

(** The copy constructor drops the object identifier. *)
Definition CDID_copy (that : CDID) : CDID :=
  {| cd_name_ := cd_name_ that; node_id_ := node_id_ that; domain_id_ := domain_id_ that;
     object_id_ := 0; sequential_id_ := sequential_id_ that |}.

(** The assignment operator keeps it. *)
Definition CDID_assign (that : CDID) : CDID :=
  {| cd_name_ := cd_name_ that; node_id_ := node_id_ that; domain_id_ := domain_id_ that;
     object_id_ := object_id_ that; sequential_id_ := sequential_id_ that |}.

Definition cdid_eqb (a b : CDID) : bool :=
  node_eqb (node_id_ a) (node_id_ b) && name_eqb (cd_name_ a) (cd_name_ b)
  && (sequential_id_ a =? sequential_id_ b).

Definition SetCDID (c : CDID) (node : NodeID) : CDID :=
  {| cd_name_ := cd_name_ c; node_id_ := node; domain_id_ := domain_id_ c;
     object_id_ := object_id_ c; sequential_id_ := sequential_id_ c |}.

Definition SetSequentialID (c : CDID) (seq_id : Z) : CDID :=
  {| cd_name_ := cd_name_ c; node_id_ := node_id_ c; domain_id_ := domain_id_ c;
     object_id_ := object_id_ c; sequential_id_ := u32 seq_id |}.

Definition cdid_tuple (c : CDID) : CDNameT * (NodeID * (uint32_t * (uint32_t * uint32_t))) :=
  (cd_name_ c, (node_id_ c, (UInt (domain_id_ c), (UInt (object_id_ c), UInt (sequential_id_ c))))).

#[export] Instance CDID_layout : Layout CDID :=
  struct_layout cdid_tuple
    (λ t, let '(a, (b, (c, (d, e)))) := t in
          {| cd_name_ := a; node_id_ := b; domain_id_ := uval c; object_id_ := uval d;
             sequential_id_ := uval e |})
    (λ c, match c with Build_CDID _ _ _ _ _ => eq_refl end).

(** Equality of identifiers is an equivalence coarser than equality. *)
Definition same_cdid (a b : CDID) : Prop := cdid_eqb a b = true.

Lemma same_cdid_spec a b :
  same_cdid a b ↔
  color_ (node_id_ a) = color_ (node_id_ b) ∧
  task_in_color_ (node_id_ a) = task_in_color_ (node_id_ b) ∧
  nsize_ (node_id_ a) = nsize_ (node_id_ b) ∧
  cd_name_ a = cd_name_ b ∧ sequential_id_ a = sequential_id_ b.
Proof.
  unfold same_cdid, cdid_eqb, node_eqb.
  rewrite !andb_true_iff, bool_decide_eq_true, name_eqb_eq, !Z.eqb_eq. tauto.
Qed.

#[export] Instance same_cdid_equiv : Equivalence same_cdid.
Proof.
  split.
  - intros a. by apply same_cdid_spec.
  - intros a b. rewrite !same_cdid_spec. naive_solver.
  - intros a b c. rewrite !same_cdid_spec. naive_solver congruence.
Qed.

#[export] Instance cdid_eqb_proper : Proper (same_cdid ==> same_cdid ==> eq) cdid_eqb.
Proof.
  intros a a' Ha b b' Hb. apply eq_true_iff_eq.
  fold (same_cdid a b). fold (same_cdid a' b').
  split; intros Hab; [by rewrite <-Ha, Hab|by rewrite Ha, Hab, <-Hb].
Qed.

(** A copied identifier is the same domain's, although its object is lost. *)
Lemma CDID_copy_same c : same_cdid (CDID_copy c) c.
Proof. by apply same_cdid_spec. Qed.

(** ** Message tags *)

(** [TAG_MASK(X)]: [(2 << (X-1)) - 1], computed as an [int]. *)
Definition TAG_MASK (X : Z) : res Z :=
  if (1 <=? X) && (X <=? 32) then m ← int32 (Z.shiftl 2 (X - 1)); int32 (m - 1)
  else Err IntOverflow.

Record TagBits := { max_tag_bit : Z; max_tag_rank_bit : Z; max_tag_task_bit : Z }.

(** Initialize: the loop that looks for the highest bit of [MPI_TAG_UB + 1],
    from bit [cnt] down; shifting a 64-bit word by 64 is undefined. *)
Fixpoint highest_bit (n : nat) (x cnt : Z) : res Z :=
  match n with
  | O => Ok 0
  | S n =>
      if cnt <? 0 then Ok 0
      else if 64 <=? cnt then Err IntOverflow
      else if Z.testbit x cnt then Ok cnt else highest_bit n x (cnt - 1)
  end.

Definition tag_bits (cnt tag_ub : Z) : res TagBits :=
  v ← int32 (tag_ub + 1);
  b ← highest_bit (Z.to_nat (cnt + 1)) (u64 v) cnt;
  let rank_bit := b - 6 - 1 in
  Ok {| max_tag_bit := b; max_tag_rank_bit := rank_bit; max_tag_task_bit := Z.quot rank_bit 2 |}.

(** [sizeof(ENTRY_TAG_T)*8] is where the loop starts. *)
Definition init_tag_bits (tag_ub : Z) : res TagBits := tag_bits 64 tag_ub.

Definition GenMsgTag (t : TagBits) (tag : Z) : res Z :=
  m ← TAG_MASK (max_tag_bit t); Ok (u32 (Z.land tag m)).

Definition GenMsgTagForSameCD (t : TagBits) (c : CDID) (msg_type task_in_color : Z) : res Z :=
  let level := level_ (cd_name_ c) in
  let rank_in_level := rank_in_level_ (cd_name_ c) in
  let tag := Z.lor (Z.lor (u32 (Z.shiftl level (max_tag_rank_bit t)))
                          (u32 (Z.shiftl rank_in_level (max_tag_task_bit t)))) (u32 task_in_color) in
  m ← TAG_MASK (max_tag_bit t);
  let tag := Z.land tag m in
  b ← int32 (Z.shiftl 1 (max_tag_bit t - 1));
  Ok (Z.lor tag b).
End ids.
Arguments NodeID : clear implicits.
Arguments CDID : clear implicits.

(** ** Splitting the tasks of a domain among its children *)

(** SplitCD_1D: new_color and new_task.  A size the children do not divide
    is only reported. *)
Definition SplitCD_1D (my_task_id my_size num_children : Z) : res (Z * Z) :=
  _ ← crem my_size num_children;
  new_size ← cdiv my_size num_children;
  new_color ← cdiv my_task_id new_size;
  new_task ← crem my_task_id new_size;
  Ok (new_color, new_task).

Section split3.
(** [round(pow(n, 1/3.))], of the mathematical library. *)
Context (cbrt : Z → Z).

Definition SplitCD_3D (my_task_id my_size num_children : Z) : res (Z * Z) :=
  new_size ← cdiv my_size num_children;
  let num_x := cbrt my_size in
  num_children_x ← (if 1 <? num_children then Ok (cbrt num_children)
                    else if num_children =? 1 then Ok 1 else Err AssertFail);
  new_num_x ← cdiv num_x num_children_x;
  _ ← cassert (num_x * num_x * num_x =? my_size);
  _ ← cassert (num_children_x * num_children_x * num_children_x =? num_children);
  _ ← cassert (new_num_x * new_num_x * new_num_x =? new_size);
  _ ← cassert (negb (num_x =? 0));
  _ ← cassert (negb (new_num_x =? 0));
  _ ← cassert (negb (num_children_x =? 0));
  let sz := num_x * num_x in
  zz ← cdiv my_task_id sz;
  tmp ← crem my_task_id sz;
  yy ← cdiv tmp num_x;
  xx ← crem tmp num_x;
  cx ← cdiv xx new_num_x; cy ← cdiv yy new_num_x; cz ← cdiv zz new_num_x;
  tx ← crem xx new_num_x; ty ← crem yy new_num_x; tz ← crem zz new_num_x;
  Ok (cx + cy * num_children_x + cz * (num_children_x * num_children_x),
      tx + ty * new_num_x + tz * (new_num_x * new_num_x)).
End split3.

(** CDHandle::SelectHead *)
Definition SelectHead (level task_size : Z) : res Z :=
  _ ← cassert (negb (task_size =? 0));
  Ok (u32 (level + 1) mod task_size).

(** ** Splitting: what the children get *)

(** The digits of a number in base [n]. *)
Lemma digit_bounds n m x : 0 < n → 0 ≤ x < n * m → 0 ≤ x / n < m ∧ 0 ≤ x mod n < n.
Proof.
  intros. split; [|by apply Z.mod_pos_bound].
  split; [by apply Z.div_pos; lia|]. apply Z.div_lt_upper_bound; lia.
Qed.

Lemma digits_inj n q r q' r' :
  0 ≤ r < n → 0 ≤ r' < n → r + q * n = r' + q' * n → q = q' ∧ r = r'.
Proof. intros. assert (q = q') by nia. subst. lia. Qed.

(** A split along one dimension deals the tasks out in blocks: the task's
    number is recovered from its colour and its number within the colour, both
    in range, so every child gets the same number of tasks, each once. *)
Theorem SplitCD_1D_blocks num_children new_size my_task_id :
  0 < num_children → 0 < new_size → 0 ≤ my_task_id < num_children * new_size →
  ∃ color task, SplitCD_1D my_task_id (num_children * new_size) num_children = Ok (color, task) ∧
    0 ≤ color < num_children ∧ 0 ≤ task < new_size ∧ my_task_id = color * new_size + task.
Proof.
  intros Hc Hs Ht. exists (my_task_id / new_size), (my_task_id mod new_size).
  unfold SplitCD_1D. rewrite crem_Ok, cdiv_Ok by nia. simpl.
  replace (num_children * new_size / num_children) with new_size
    by (rewrite Z.mul_comm, Z.div_mul; lia).
  rewrite cdiv_Ok, crem_Ok by lia. simpl.
  destruct (digit_bounds new_size num_children my_task_id) as [??]; [lia..|].
  split; [done|]. pose proof (Z.div_mod my_task_id new_size). lia.
Qed.

Lemma SplitCD_1D_blocks_witness :
  (0 < 4 ∧ 0 < 2 ∧ 0 ≤ 5 < 4 * 2) ∧
  ∃ color task, SplitCD_1D 5 (4 * 2) 4 = Ok (color, task) ∧
    0 ≤ color < 4 ∧ 0 ≤ task < 2 ∧ 5 = color * 2 + task.
Proof. split; [lia|]. apply SplitCD_1D_blocks; lia. Defined.

Section split3_spec.
Context (cbrt : Z → Z).

(** The split of a cube of [n*m] tasks a side into [m] children a side, on
    coordinates. *)
Lemma SplitCD_3D_coords n m x y z :
  0 < n → 0 < m →
  cbrt ((m * n) * (m * n) * (m * n)) = m * n →
  (m = 1 ∨ cbrt (m * m * m) = m) →
  0 ≤ x < n * m → 0 ≤ y < n * m → 0 ≤ z < n * m →
  SplitCD_3D cbrt (x + y * (m * n) + z * ((m * n) * (m * n)))
    ((m * n) * (m * n) * (m * n)) (m * m * m) =
  Ok (x / n + y / n * m + z / n * (m * m), x mod n + y mod n * n + z mod n * (n * n)).
Proof.
  intros Hn Hm Hc Hcm Hx Hy Hz. unfold SplitCD_3D.
  assert (0 < m * m * m) by nia. assert (0 < m * n) by nia.
  assert (0 < (m * n) * (m * n)) by nia.
  rewrite (cdiv_Ok (m * n * (m * n) * (m * n)) (m * m * m)) by nia.
  replace (m * n * (m * n) * (m * n) / (m * m * m)) with (n * n * n).
  2:{ replace (m * n * (m * n) * (m * n)) with (n * n * n * (m * m * m)) by ring.
      by rewrite Z.div_mul by lia. }
  cbn [mbind res_bind]. rewrite Hc.
  assert ((if 1 <? m * m * m then Ok (cbrt (m * m * m))
    else if m * m * m =? 1 then Ok 1 else Err AssertFail) = Ok m) as ->.
  { destruct (Z.ltb_spec 1 (m * m * m)) as [Hl|Hl].
    - destruct Hcm as [->| ->]; [lia|done].
    - assert (m = 1) by nia. by subst. }
  cbn [mbind res_bind]. rewrite (cdiv_Ok (m * n) m) by nia.
  replace (m * n / m) with n by (rewrite Z.mul_comm, Z.div_mul; lia).
  cbn [mbind res_bind].
  rewrite !Z.eqb_refl, !(proj2 (Z.eqb_neq _ _)) by lia. cbn [mbind res_bind cassert negb].
  set (N := m * n) in *. replace (n * m) with N in * by (unfold N; ring).
  assert (0 ≤ x + y * N < N * N) by nia.
  assert (0 ≤ z * (N * N)) by nia.
  assert (0 < N * N) by nia.
  rewrite (cdiv_Ok _ (N * N)), (crem_Ok _ (N * N)) by lia. cbn [mbind res_bind].
  rewrite Z.div_add, Z.mod_add, (Z.div_small (_ + _)), (Z.mod_small (_ + _)), Z.add_0_l by lia.
  rewrite (cdiv_Ok _ N), (crem_Ok _ N) by nia. cbn [mbind res_bind].
  rewrite Z.div_add, Z.mod_add, (Z.div_small x), (Z.mod_small x), Z.add_0_l by lia.
  rewrite !cdiv_Ok by lia. cbn [mbind res_bind].
  rewrite !crem_Ok by lia. done.
Qed.

Lemma digits3 N t : 0 < N → 0 ≤ t < N * N * N →
  ∃ x y z, t = x + y * N + z * (N * N) ∧ 0 ≤ x < N ∧ 0 ≤ y < N ∧ 0 ≤ z < N.
Proof.
  intros HN Ht. exists (t mod N), ((t / N) mod N), (t / N / N).
  pose proof (Z.div_mod t N). pose proof (Z.div_mod (t / N) N).
  destruct (digit_bounds N (N * N) t) as [??]; [nia..|].
  destruct (digit_bounds N N (t / N)) as [??]; [nia..|].
  split; [nia|]. lia.
Qed.

(** C34: a split in three dimensions is a bijection: on a cube of tasks divided
    into a cube of children every assertion holds, the colour and the task
    number are in range, and no other task gets the same pair; so all children
    get equally many tasks. *)
Theorem SplitCD_3D_bijection n m t :
  0 < n → 0 < m →
  cbrt ((m * n) * (m * n) * (m * n)) = m * n →
  (m = 1 ∨ cbrt (m * m * m) = m) →
  0 ≤ t < (m * n) * (m * n) * (m * n) →
  ∃ color task,
    SplitCD_3D cbrt t ((m * n) * (m * n) * (m * n)) (m * m * m) = Ok (color, task) ∧
    0 ≤ color < m * m * m ∧ 0 ≤ task < n * n * n ∧
    ∀ t', 0 ≤ t' < (m * n) * (m * n) * (m * n) →
      SplitCD_3D cbrt t' ((m * n) * (m * n) * (m * n)) (m * m * m) = Ok (color, task) → t' = t.
Proof.
  intros Hn Hm Hc Hcm Ht.
  destruct (digits3 (m * n) t) as (x & y & z & -> & Hx & Hy & Hz); [nia|done|].
  destruct (digit_bounds n m x) as [Hx1 Hx2]; [lia..|].
  destruct (digit_bounds n m y) as [Hy1 Hy2]; [lia..|].
  destruct (digit_bounds n m z) as [Hz1 Hz2]; [lia..|].
  eexists _, _. rewrite SplitCD_3D_coords by (done || lia).
  split; [done|]. split; [nia|]. split; [nia|].
  intros t' Ht'.
  destruct (digits3 (m * n) t') as (x' & y' & z' & -> & Hx' & Hy' & Hz'); [nia|done|].
  destruct (digit_bounds n m x') as [Hx1' Hx2']; [lia..|].
  destruct (digit_bounds n m y') as [Hy1' Hy2']; [lia..|].
  destruct (digit_bounds n m z') as [Hz1' Hz2']; [lia..|].
  rewrite SplitCD_3D_coords by (done || lia). intros [= Hcol Htask].
  assert (∀ k a b c a' b' c', 0 ≤ a < k → 0 ≤ a' < k → 0 ≤ b < k → 0 ≤ b' < k →
    a + b * k + c * (k * k) = a' + b' * k + c' * (k * k) → a = a' ∧ b = b' ∧ c = c') as Hd.
  { intros k a b c a' b' c' ???? He.
    destruct (digits_inj k (b + c * k) a (b' + c' * k) a') as [Hq ->]; [lia..|nia|].
    destruct (digits_inj k c b c' b') as [-> ->]; [lia..|]. done. }
  apply Hd in Hcol as (Hax & Hay & Haz); [|lia..].
  apply Hd in Htask as (Hbx & Hby & Hbz); [|lia..].
  rewrite (Z.div_mod x n), (Z.div_mod x' n), (Z.div_mod y n), (Z.div_mod y' n),
    (Z.div_mod z n), (Z.div_mod z' n) by lia.
  rewrite Hax, Hay, Haz, Hbx, Hby, Hbz. done.
Qed.
End split3_spec.

Lemma SplitCD_3D_bijection_witness :
  let cbrt := λ z, if z =? 64 then 4 else 2 in
  ∃ color task,
    SplitCD_3D cbrt 27 ((2 * 2) * (2 * 2) * (2 * 2)) (2 * 2 * 2) = Ok (color, task) ∧
    0 ≤ color < 2 * 2 * 2 ∧ 0 ≤ task < 2 * 2 * 2 ∧
    ∀ t', 0 ≤ t' < (2 * 2) * (2 * 2) * (2 * 2) →
      SplitCD_3D cbrt t' ((2 * 2) * (2 * 2) * (2 * 2)) (2 * 2 * 2) = Ok (color, task) → t' = 27.
Proof.
  intros cbrt.
  apply (SplitCD_3D_bijection cbrt 2 2 27); [lia|lia|reflexivity|right; reflexivity|lia].
Defined.

(** ** Names *)

(** The children of the domains of one level have distinct names, if all
    the parents create equally many and the product stays in 32 bits: the
    parent's rank and the colour are recovered from the child's rank. *)
Theorem child_names_unique a b num_children ca cb :
  0 ≤ ca < num_children → 0 ≤ cb < num_children →
  0 ≤ rank_in_level_ a → num_children * (rank_in_level_ a + 1) ≤ 2 ^ 32 →
  0 ≤ rank_in_level_ b → num_children * (rank_in_level_ b + 1) ≤ 2 ^ 32 →
  CDNameT_child a num_children ca = CDNameT_child b num_children cb →
  rank_in_level_ a = rank_in_level_ b ∧ ca = cb.
Proof.
  intros Hca Hcb Ha Hwa Hb Hwb [= _ Hr].
  assert (num_children ≤ 2 ^ 32) as [Hn|Hn]%Z.le_lteq by nia.
  - assert (∀ r c, 0 ≤ r → 0 ≤ c < num_children → num_children * (r + 1) ≤ 2 ^ 32 →
      u32 (u32 (u32 num_children * r) + u32 c) = num_children * r + c) as He.
    { intros r c ???. rewrite (u32_small num_children), (u32_small c) by lia.
      rewrite (u32_small (num_children * r)) by nia. apply u32_small. nia. }
    rewrite !He in Hr by done.
    destruct (digits_inj num_children (rank_in_level_ a) ca (rank_in_level_ b) cb); lia.
  - assert (rank_in_level_ a = 0) as Ha0 by nia. assert (rank_in_level_ b = 0) as Hb0 by nia.
    rewrite Ha0, Hb0 in *. split; [done|].
    rewrite !Z.mul_0_r in Hr. rewrite (u32_small 0), !Z.add_0_l in Hr by lia.
    rewrite !(u32_small (u32 _)) in Hr by apply u32_range.
    by rewrite !u32_small in Hr by lia.
Qed.

Lemma child_names_unique_witness :
  let a := CDNameT_new 1 0 3 4 in let b := CDNameT_new 1 0 3 4 in
  CDNameT_child a 5 2 = CDNameT_child b 5 2 ∧ rank_in_level_ a = rank_in_level_ b ∧ 2 = 2.
Proof.
  split; [reflexivity|].
  apply (child_names_unique (CDNameT_new 1 0 3 4) (CDNameT_new 1 0 3 4) 5 2 2);
    vm_compute; split || idtac; try discriminate; reflexivity.
Defined.

(** Parents that create different numbers of children may name two of them
    alike. *)
Lemma child_names_collide :
  CDNameT_child (CDNameT_new 1 0 0 2) 4 2 ≠ CDNameT_child (CDNameT_new 1 0 1 2) 2 0 ∧
  rank_in_level_ (CDNameT_child (CDNameT_new 1 0 0 2) 4 2) =
  rank_in_level_ (CDNameT_child (CDNameT_new 1 0 1 2) 2 0).
Proof. split; [discriminate|reflexivity]. Qed.

(** ** Tags *)

Lemma lor_shiftl_add a k c :
  0 ≤ a → 0 ≤ k → 0 ≤ c < 2 ^ k → Z.lor (Z.shiftl a k) c = a * 2 ^ k + c.
Proof.
  intros Ha Hk Hc.
  rewrite <-Z.lxor_lor, <-Z.add_nocarry_lxor, Z.shiftl_mul_pow2; try done.
  all: apply Z.bits_inj'; intros i Hi; rewrite Z.land_spec, Z.bits_0.
  all: destruct (Z.ltb_spec i k);
    [rewrite Z.shiftl_spec_low by lia; done|].
  all: rewrite <-(Z.mod_small c (2 ^ k)), Z.mod_pow2_bits_high by lia; apply andb_false_r.
Qed.

Lemma TAG_MASK_Ok b : 1 ≤ b ≤ 30 → TAG_MASK b = Ok (2 ^ b - 1).
Proof.
  intros Hb. unfold TAG_MASK.
  rewrite (proj2 (Z.leb_le 1 b)), (proj2 (Z.leb_le b 32)) by lia. cbn [andb].
  rewrite Z.shiftl_mul_pow2 by lia.
  replace (2 * 2 ^ (b - 1)) with (2 ^ b)
    by (rewrite <-Z.pow_succ_r by lia; f_equal; lia).
  assert (2 ^ b ≤ 2 ^ 30) by (apply Z.pow_le_mono_r; lia).
  assert (0 < 2 ^ b) by (apply Z.pow_pos_nonneg; lia).
  rewrite int32_Ok by (unfold INT_MIN, INT_MAX; lia). simpl.
  apply int32_Ok. unfold INT_MIN, INT_MAX. lia.
Qed.

Lemma land_mask_small x b : 0 ≤ b → 0 ≤ x < 2 ^ b → Z.land x (2 ^ b - 1) = x.
Proof.
  intros Hb Hx. replace (2 ^ b - 1) with (Z.ones b) by (rewrite Z.ones_equiv; lia).
  rewrite Z.land_ones by done. by apply Z.mod_small.
Qed.

(** The layout Initialize chooses for [b] tag bits. *)
Definition tag_layout (b : Z) : TagBits :=
  {| max_tag_bit := b; max_tag_rank_bit := b - 6 - 1; max_tag_task_bit := Z.quot (b - 6 - 1) 2 |}.

Section tags.
Context {ColorT GroupT : Type}.
Implicit Types (c : CDID ColorT GroupT).

(** Within the documented widths (a level of 6 bits, and the rank and the
    task sharing the rest) the tag of a message inside a domain has the three
    numbers in disjoint fields below the topmost bit, so different levels,
    ranks or tasks have different tags; the message type is in no field. *)
Theorem GenMsgTagForSameCD_fields b c msg_type task :
  let t := tag_layout b in
  7 ≤ b ≤ 30 →
  0 ≤ level_ (cd_name_ c) < 2 ^ 6 →
  0 ≤ rank_in_level_ (cd_name_ c) < 2 ^ (max_tag_rank_bit t - max_tag_task_bit t) →
  0 ≤ task < 2 ^ max_tag_task_bit t →
  GenMsgTagForSameCD t c msg_type task =
    Ok (2 ^ (b - 1) + level_ (cd_name_ c) * 2 ^ max_tag_rank_bit t
        + rank_in_level_ (cd_name_ c) * 2 ^ max_tag_task_bit t + task).
Proof.
  intros t Hb Hl Hr Ht. unfold GenMsgTagForSameCD, t, tag_layout in *. cbn [max_tag_bit max_tag_rank_bit max_tag_task_bit] in *.
  set (l := level_ (cd_name_ c)) in *. set (r := rank_in_level_ (cd_name_ c)) in *.
  assert (0 ≤ b - 6 - 1) by lia. set (rb := b - 6 - 1) in *.
  rewrite Z.quot_div_nonneg in * by lia.
  assert (0 ≤ rb / 2 ≤ rb) as [??].
  { split; [apply Z.div_pos; lia|]. pose proof (Z.div_mod rb 2). pose proof (Z.mod_pos_bound rb 2). lia. }
  set (tb := rb / 2) in *.
  assert (2 ^ b = 2 * 2 ^ (b - 1)) as Hb1 by (rewrite <-Z.pow_succ_r by lia; f_equal; lia).
  assert (2 ^ (b - 1) = 2 ^ 6 * 2 ^ rb) as Hb2 by (rewrite <-Z.pow_add_r by lia; f_equal; lia).
  assert (2 ^ rb = 2 ^ (rb - tb) * 2 ^ tb) as Hb3 by (rewrite <-Z.pow_add_r by lia; f_equal; lia).
  assert (2 ^ b ≤ 2 ^ 30) by (apply Z.pow_le_mono_r; lia).
  assert (0 < 2 ^ tb) by (apply Z.pow_pos_nonneg; lia).
  assert (0 < 2 ^ rb) by (apply Z.pow_pos_nonneg; lia).
  assert (0 ≤ r * 2 ^ tb + task < 2 ^ rb) by nia.
  assert (0 ≤ l * 2 ^ rb + (r * 2 ^ tb + task) < 2 ^ (b - 1)) by nia.
  change (2 ^ 30) with 1073741824 in *. change (2 ^ 6) with 64 in *.
  rewrite !u32_small; [| |rewrite Z.shiftl_mul_pow2 by lia; nia..]; [|split; [lia|]; change (2 ^ 32) with 4294967296; nia].
  rewrite <-Z.lor_assoc, (lor_shiftl_add r), lor_shiftl_add by lia.
  rewrite TAG_MASK_Ok by lia. cbn [mbind res_bind].
  rewrite land_mask_small by lia.
  rewrite int32_Ok.
  2:{ rewrite Z.shiftl_mul_pow2, Z.mul_1_l by lia. unfold INT_MIN, INT_MAX. lia. }
  cbn [mbind res_bind]. f_equal. rewrite Z.lor_comm, lor_shiftl_add by lia. lia.
Qed.
End tags.

(** An identifier with integers as MPI's handles. *)
Definition ex_cdid (level rank : Z) : CDID Z Z :=
  CDID_new (CDNameT_new level 0 rank 8) (NodeID_new 5 6 2 0 4).

Lemma GenMsgTagForSameCD_fields_witness :
  (7 ≤ 28 ≤ 30 ∧ 0 ≤ 3 < 2 ^ 6 ∧ 0 ≤ 9 < 2 ^ 11 ∧ 0 ≤ 17 < 2 ^ 10) ∧
  GenMsgTagForSameCD (tag_layout 28) (ex_cdid 3 9) 0 17 =
    Ok (2 ^ 27 + 3 * 2 ^ 21 + 9 * 2 ^ 10 + 17).
Proof.
  split; [lia|].
  apply (GenMsgTagForSameCD_fields 28 (ex_cdid 3 9) 0 17);
    vm_compute; split || idtac; try discriminate; reflexivity.
Defined.

(** The search that looks for the highest bit. *)
Lemma highest_bit_pow2 k n cnt :
  0 ≤ k < 63 → k ≤ cnt ≤ 63 → n = Z.to_nat (cnt + 1) → highest_bit n (2 ^ k) cnt = Ok k.
Proof.
  intros Hk. revert cnt. induction n as [|n IH]; intros cnt Hc Hn; [lia|]. simpl.
  rewrite (proj2 (Z.ltb_ge _ _)), (proj2 (Z.leb_gt _ _)) by lia.
  rewrite Z.pow2_bits_eqb by lia. destruct (Z.eqb_spec k cnt) as [->|]; [done|].
  apply IH; lia.
Qed.

(** The search for the tag width starts with a shift by the whole width of
    its 64-bit operand, which is undefined whatever upper bound MPI reports;
    and for the bound [INT_MAX] the sum before it already overflows. *)
Theorem init_tag_bits_undefined tag_ub : init_tag_bits tag_ub = Err IntOverflow.
Proof.
  unfold init_tag_bits, tag_bits.
  destruct (int32 (tag_ub + 1)) as [v|e] eqn:Hv; simpl; [done|].
  unfold int32 in Hv. case_match; [done|congruence].
Qed.

(** Started one bit lower, the search finds the width of a bound [2^k - 1]
    below [INT_MAX]. *)
Lemma tag_bits_pow2 k : 0 ≤ k ≤ 30 → tag_bits 63 (2 ^ k - 1) = Ok (tag_layout k).
Proof.
  intros Hk. unfold tag_bits.
  assert (2 ^ k ≤ 2 ^ 30) by (apply Z.pow_le_mono_r; lia).
  assert (0 < 2 ^ k) by (apply Z.pow_pos_nonneg; lia).
  replace (2 ^ k - 1 + 1) with (2 ^ k) by lia.
  rewrite int32_Ok by (unfold INT_MIN, INT_MAX; lia). cbn [mbind res_bind].
  rewrite u64_small by lia. by rewrite (highest_bit_pow2 k) by lia.
Qed.

(** Deserialize ignores its argument: whatever task information it is
    given, the node keeps its own, and the information is not changed. *)
Lemma NodeID_Deserialize_ignores {ColorT GroupT} (n : NodeID ColorT GroupT) (i : TaskInfo) :
  NodeID_Deserialize n i = (n, i).
Proof. by destruct i. Qed.
