(* ===== verification/CommLog.v ===== *)
(** * The communication log of a domain

    [src/src/cd_comm_log.h] and [src/src/cd_comm_log.cc]: a relaxed domain
    logs the messages it receives, and reads them back when it is executed
    again.  The log is a table of entries, a queue with the bytes of all the
    messages, and the packed logs of completed children.  The file has the
    operations on one log: allocation and growth, logging, completing the
    entry of a non-blocking receive, replay, packing into the parent's log
    and unpacking again; the abstract log they implement is in [LogSpec.v].

    Memory that an operation allocates is indeterminate until it is written;
    the structures are copied into the parent's bytes by [memcpy] with the
    layouts below.  [delete] frees memory nothing refers to any more and has
    no part in the model. *)

From Stdlib Require Import ZArith Lia.
From stdpp Require Import base list numbers.
From S2P Require Import Prelude Layout Ids.

(** ** Data *)

Inductive CommLogErrT :=
  | kCommLogOK
  | kCommLogInitFailed
  | kCommLogAllocFailed
  | kCommLogChildLogAllocFailed
  | kCommLogReInitFailed
  | kCommLogCommLogModeFlip
  | kCommLogChildLogNotFound
  | kCommLogMissing
  | kCommLogError.

#[export] Instance CommLogErrT_eq_dec : EqDecision CommLogErrT.
Proof. solve_decision. Defined.

Inductive CommLogMode := kGenerateLog | kReplayLog | kInvalidLogMode.

#[export] Instance CommLogMode_eq_dec : EqDecision CommLogMode.
Proof. solve_decision. Defined.

Record LogTableElement := {
  pos_ : Z;              (** where the data starts in the queue *)
  length_ : Z;
  completed_ : bool;
  flag_ : Z;             (** the address of the request *)
  counter_ : Z;
  reexec_counter_ : Z;
  isrepeated_ : bool;
  taskID_ : Z;
}.

(** Entries are indeterminate until they are written. *)
Record LogTable := {
  t_base_ptr_ : option (list (option LogTableElement));
  t_cur_pos_ : Z;
  t_table_size_ : Z;
}.

Record LogQueue := {
  q_base_ptr_ : option (list cell);
  q_cur_pos_ : Z;
  q_queue_size_ : Z;
}.

Record ChildLogQueue := {
  c_base_ptr_ : option (list cell);
  c_size_ : Z;
  c_cur_pos_ : Z;
}.

Record CommLog := {
  queue_size_unit_ : Z;
  table_size_unit_ : Z;
  child_log_size_unit_ : Z;
  comm_log_mode_ : CommLogMode;
  log_queue_ : LogQueue;
  log_table_ : LogTable;
  log_table_reexec_pos_ : Z;
  new_log_generated_ : bool;
  child_log_ : ChildLogQueue;
}.

Definition set_mode (m : CommLogMode) (l : CommLog) : CommLog :=
  {| queue_size_unit_ := queue_size_unit_ l; table_size_unit_ := table_size_unit_ l;
     child_log_size_unit_ := child_log_size_unit_ l; comm_log_mode_ := m;
     log_queue_ := log_queue_ l; log_table_ := log_table_ l;
     log_table_reexec_pos_ := log_table_reexec_pos_ l;
     new_log_generated_ := new_log_generated_ l; child_log_ := child_log_ l |}.
Definition set_queue (q : LogQueue) (l : CommLog) : CommLog :=
  {| queue_size_unit_ := queue_size_unit_ l; table_size_unit_ := table_size_unit_ l;
     child_log_size_unit_ := child_log_size_unit_ l; comm_log_mode_ := comm_log_mode_ l;
     log_queue_ := q; log_table_ := log_table_ l;
     log_table_reexec_pos_ := log_table_reexec_pos_ l;
     new_log_generated_ := new_log_generated_ l; child_log_ := child_log_ l |}.
Definition set_table (t : LogTable) (l : CommLog) : CommLog :=
  {| queue_size_unit_ := queue_size_unit_ l; table_size_unit_ := table_size_unit_ l;
     child_log_size_unit_ := child_log_size_unit_ l; comm_log_mode_ := comm_log_mode_ l;
     log_queue_ := log_queue_ l; log_table_ := t;
     log_table_reexec_pos_ := log_table_reexec_pos_ l;
     new_log_generated_ := new_log_generated_ l; child_log_ := child_log_ l |}.
Definition set_reexec (p : Z) (l : CommLog) : CommLog :=
  {| queue_size_unit_ := queue_size_unit_ l; table_size_unit_ := table_size_unit_ l;
     child_log_size_unit_ := child_log_size_unit_ l; comm_log_mode_ := comm_log_mode_ l;
     log_queue_ := log_queue_ l; log_table_ := log_table_ l;
     log_table_reexec_pos_ := p;
     new_log_generated_ := new_log_generated_ l; child_log_ := child_log_ l |}.
Definition set_new (b : bool) (l : CommLog) : CommLog :=
  {| queue_size_unit_ := queue_size_unit_ l; table_size_unit_ := table_size_unit_ l;
     child_log_size_unit_ := child_log_size_unit_ l; comm_log_mode_ := comm_log_mode_ l;
     log_queue_ := log_queue_ l; log_table_ := log_table_ l;
     log_table_reexec_pos_ := log_table_reexec_pos_ l;
     new_log_generated_ := b; child_log_ := child_log_ l |}.
Definition set_child (c : ChildLogQueue) (l : CommLog) : CommLog :=
  {| queue_size_unit_ := queue_size_unit_ l; table_size_unit_ := table_size_unit_ l;
     child_log_size_unit_ := child_log_size_unit_ l; comm_log_mode_ := comm_log_mode_ l;
     log_queue_ := log_queue_ l; log_table_ := log_table_ l;
     log_table_reexec_pos_ := log_table_reexec_pos_ l;
     new_log_generated_ := new_log_generated_ l; child_log_ := c |}.

(** ** Layouts of the structures that are copied into the parent's bytes

    A [base_ptr_] is copied too, and overwritten after the copy before it is
    used: it has no value in the model. *)

Definition element_tuple (e : LogTableElement) :
    uint64_t * (uint64_t * (bool * (padding 7 * (uint64_t * (uint64_t * (uint64_t *
      (bool * (padding 3 * uint32_t)))))))) :=
  (UInt (pos_ e), (UInt (length_ e), (completed_ e, (Pad, (UInt (flag_ e), (UInt (counter_ e),
    (UInt (reexec_counter_ e), (isrepeated_ e, (Pad, UInt (taskID_ e)))))))))).

#[export] Instance LogTableElement_layout : Layout LogTableElement :=
  struct_layout element_tuple
    (λ t, let '(a, (b, (c, (_, (d, (e, (f, (g, (_, h))))))))) := t in
          {| pos_ := uval a; length_ := uval b; completed_ := c; flag_ := uval d;
             counter_ := uval e; reexec_counter_ := uval f; isrepeated_ := g; taskID_ := uval h |})
    (λ e, match e with Build_LogTableElement _ _ _ _ _ _ _ _ => eq_refl end).

(** The position and the size, or the size and the position, after a pointer. *)
Record PtrMeta := { m_fst : Z; m_snd : Z }.

#[export] Instance PtrMeta_layout : Layout PtrMeta :=
  struct_layout (λ m, (Pad, (UInt (m_fst m), UInt (m_snd m))) : padding 8 * (uint64_t * uint64_t))
    (λ t, let '(_, (a, b)) := t in {| m_fst := uval a; m_snd := uval b |})
    (λ m, match m with Build_PtrMeta _ _ => eq_refl end).

Definition table_meta (t : LogTable) : PtrMeta := {| m_fst := t_cur_pos_ t; m_snd := t_table_size_ t |}.
Definition queue_meta (q : LogQueue) : PtrMeta := {| m_fst := q_cur_pos_ q; m_snd := q_queue_size_ q |}.
Definition child_meta (c : ChildLogQueue) : PtrMeta := {| m_fst := c_size_ c; m_snd := c_cur_pos_ c |}.

Definition ELEM : Z := sizeof LogTableElement.

(** ** Initialization *)

Definition queue_null : LogQueue := {| q_base_ptr_ := None; q_cur_pos_ := 0; q_queue_size_ := 0 |}.
Definition table_null : LogTable := {| t_base_ptr_ := None; t_cur_pos_ := 0; t_table_size_ := 0 |}.
Definition child_null : ChildLogQueue := {| c_base_ptr_ := None; c_size_ := 0; c_cur_pos_ := 0 |}.

(** [new] throws when it fails: the returns of [kCommLogInitFailed] after it
    are never taken. *)
Definition InitAlloc (l : CommLog) : res (CommLogErrT * CommLog) :=
  l ← match q_base_ptr_ (log_queue_ l) with
      | None =>
          b ← new_array (queue_size_unit_ l) 1 None;
          Ok (set_queue {| q_base_ptr_ := Some b; q_cur_pos_ := q_cur_pos_ (log_queue_ l);
                           q_queue_size_ := queue_size_unit_ l |} l)
      | Some _ => Ok l
      end;
  l ← match t_base_ptr_ (log_table_ l) with
      | None =>
          b ← new_array (table_size_unit_ l) ELEM None;
          Ok (set_table {| t_base_ptr_ := Some b; t_cur_pos_ := t_cur_pos_ (log_table_ l);
                           t_table_size_ := table_size_unit_ l |} l)
      | Some _ => Ok l
      end;
  Ok (kCommLogOK, l).

Definition InitInternal (l : CommLog) : res CommLog :=
  let l := set_new false (set_reexec 0 (set_child child_null (set_table table_null
             (set_queue queue_null (set_new false l))))) in
  match comm_log_mode_ l with
  | kGenerateLog => '(_, l) ← InitAlloc l; Ok l
  | _ => Ok l
  end.

(** The constructor with all the units; the other members are set by InitInternal. *)
Definition CommLog_new (mode : CommLogMode) (queue_unit table_unit child_unit : Z) : res CommLog :=
  InitInternal
    {| queue_size_unit_ := queue_unit; table_size_unit_ := table_unit;
       child_log_size_unit_ := child_unit; comm_log_mode_ := mode;
       log_queue_ := queue_null; log_table_ := table_null; log_table_reexec_pos_ := 0;
       new_log_generated_ := false; child_log_ := child_null |}.

(** The constructor the runtime uses. *)
Definition CommLog_default (mode : CommLogMode) : res CommLog :=
  CommLog_new mode (1024 * 1024) 1024 (1024 * 1024).

Definition ReInit (l : CommLog) : CommLog := set_reexec 0 (set_mode kReplayLog l).

Definition Realloc (l : CommLog) : res (CommLogErrT * CommLog) :=
  let l := set_new false (set_reexec 0 (set_child child_null (set_table table_null
             (set_queue queue_null l)))) in
  '(_, l) ← InitAlloc l;
  Ok (kCommLogOK, l).

Definition Reset (l : CommLog) : CommLog :=
  let t := log_table_ l in let q := log_queue_ l in let c := child_log_ l in
  set_mode kGenerateLog (set_new false (set_reexec 0
    (set_child {| c_base_ptr_ := c_base_ptr_ c; c_size_ := c_size_ c; c_cur_pos_ := 0 |}
    (set_queue {| q_base_ptr_ := q_base_ptr_ q; q_cur_pos_ := 0; q_queue_size_ := q_queue_size_ q |}
    (set_table {| t_base_ptr_ := t_base_ptr_ t; t_cur_pos_ := 0; t_table_size_ := t_table_size_ t |} l))))).

(** ** Growth *)

(** Entry [i] of the table. *)
Definition elem (t : LogTable) (i : Z) : res LogTableElement :=
  match t_base_ptr_ t with
  | None => Err OutOfBounds
  | Some b => o ← aload b i; match o with Some e => Ok e | None => Err OutOfBounds end
  end.

Definition set_elem (t : LogTable) (i : Z) (e : LogTableElement) : res LogTable :=
  match t_base_ptr_ t with
  | None => Err OutOfBounds
  | Some b => b ← astore b i (Some e);
      Ok {| t_base_ptr_ := Some b; t_cur_pos_ := t_cur_pos_ t; t_table_size_ := t_table_size_ t |}
  end.

Definition IncreaseLogTableSize (l : CommLog) : res (CommLogErrT * CommLog) :=
  let t := log_table_ l in
  let size := u64 (t_table_size_ t * 2) in
  tmp ← new_array size ELEM None;
  old ← slice (t_base_ptr_ t) 0 (t_table_size_ t);
  b ← blit (Some tmp) 0 old;
  Ok (kCommLogOK, set_table {| t_base_ptr_ := b; t_cur_pos_ := t_cur_pos_ t; t_table_size_ := size |} l).

Definition IncreaseLogQueueSize (l : CommLog) (length : Z) : res (CommLogErrT * CommLog) :=
  let q := log_queue_ l in
  let required_length := u64 (u64 (q_cur_pos_ q + length) * 2) in
  if required_length <=? q_queue_size_ q then Err AssertFail
  else
    tmp ← new_array required_length 1 None;
    old ← slice (q_base_ptr_ q) 0 (q_queue_size_ q);
    b ← blit (Some tmp) 0 old;
    Ok (kCommLogOK, set_queue {| q_base_ptr_ := b; q_cur_pos_ := q_cur_pos_ q;
                                 q_queue_size_ := required_length |} l).

(** ** Logging *)

(** A buffer of the application: its address and the bytes from it on. *)
Record buffer := { b_addr : Z; b_bytes : option (list cell) }.

Definition WriteLogTable (l : CommLog) (taskID : Z) (data_length : Z) (completed : bool) (flag : Z)
    (isrepeated : bool) : res (CommLogErrT * CommLog) :=
  '(ret, l) ← (if t_table_size_ (log_table_ l) <=? t_cur_pos_ (log_table_ l)
               then IncreaseLogTableSize l else Ok (kCommLogOK, l));
  if bool_decide (ret = kCommLogAllocFailed) then Ok (ret, l)
  else
    let t := log_table_ l in
    t ← set_elem t (t_cur_pos_ t)
          {| pos_ := q_cur_pos_ (log_queue_ l); length_ := data_length; completed_ := completed;
             flag_ := flag; counter_ := 1; reexec_counter_ := 0; isrepeated_ := isrepeated;
             taskID_ := taskID |};
    Ok (kCommLogOK, set_table {| t_base_ptr_ := t_base_ptr_ t; t_cur_pos_ := u64 (t_cur_pos_ t + 1);
                                 t_table_size_ := t_table_size_ t |} l).

Definition WriteLogQueue (l : CommLog) (data : buffer) (data_length : Z) (completed : bool) :
    res (CommLogErrT * CommLog) :=
  '(ret, l) ← (if q_queue_size_ (log_queue_ l) <? u64 (q_cur_pos_ (log_queue_ l) + data_length)
               then IncreaseLogQueueSize l data_length else Ok (kCommLogOK, l));
  if bool_decide (ret = kCommLogAllocFailed) then Ok (ret, l)
  else
    let q := log_queue_ l in
    b ← (if completed && negb (data_length =? 0)
         then src ← slice (b_bytes data) 0 data_length; blit (q_base_ptr_ q) (q_cur_pos_ q) src
         else Ok (q_base_ptr_ q));
    Ok (kCommLogOK, set_queue {| q_base_ptr_ := b; q_cur_pos_ := u64 (q_cur_pos_ q + data_length);
                                 q_queue_size_ := q_queue_size_ q |} l).

(** The conjunction is evaluated from left to right; each conjunct reads the
    entry before [cur_pos_], an unsigned index. *)
Definition FoundRepeatedEntry (l : CommLog) (data_length : Z) (completed : bool) (flag : Z) : res bool :=
  e ← elem (log_table_ l) (u64 (t_cur_pos_ (log_table_ l) - 1));
  Ok (isrepeated_ e && (length_ e =? data_length) && eqb (completed_ e) completed && (flag_ e =? flag)).

Definition set_counter (n : Z) (e : LogTableElement) : LogTableElement :=
  {| pos_ := pos_ e; length_ := length_ e; completed_ := completed_ e; flag_ := flag_ e;
     counter_ := n; reexec_counter_ := reexec_counter_ e; isrepeated_ := isrepeated_ e;
     taskID_ := taskID_ e |}.
Definition set_reexec_counter (n : Z) (e : LogTableElement) : LogTableElement :=
  {| pos_ := pos_ e; length_ := length_ e; completed_ := completed_ e; flag_ := flag_ e;
     counter_ := counter_ e; reexec_counter_ := n; isrepeated_ := isrepeated_ e;
     taskID_ := taskID_ e |}.
Definition set_completed (e : LogTableElement) : LogTableElement :=
  {| pos_ := pos_ e; length_ := length_ e; completed_ := true; flag_ := flag_ e;
     counter_ := counter_ e; reexec_counter_ := reexec_counter_ e; isrepeated_ := isrepeated_ e;
     taskID_ := taskID_ e |}.

(** The part of LogData that changes the log: the entry the domain's list of
    incomplete operations receives is in [CdLog.v]. *)
Definition LogData (l : CommLog) (data : buffer) (data_length : Z) (taskID : Z) (completed : bool)
    (flag : Z) (isrepeated : bool) : res (CommLogErrT * CommLog) :=
  found ← (if isrepeated then FoundRepeatedEntry l data_length completed flag else Ok false);
  if found : bool then
    let i := u64 (t_cur_pos_ (log_table_ l) - 1) in
    e ← elem (log_table_ l) i;
    t ← set_elem (log_table_ l) i (set_counter (u64 (counter_ e + 1)) e);
    Ok (kCommLogOK, set_table t l)
  else
    '(ret, l) ← WriteLogTable l taskID data_length completed flag isrepeated;
    if bool_decide (ret = kCommLogAllocFailed) then Ok (ret, l)
    else
      '(ret, l) ← (if negb (data_length =? 0) then WriteLogQueue l data data_length completed
                   else Ok (ret, l));
      if bool_decide (ret = kCommLogAllocFailed) then Ok (ret, l)
      else Ok (kCommLogOK, set_new true l).

(** The loop over the table, from entry [pos] on, [n] entries left. *)
Fixpoint probe_log (n : nat) (pos : Z) (l : CommLog) (addr : buffer) (length flag : Z) :
    res (bool * CommLog) :=
  match n with
  | O => Ok (false, l)
  | S n =>
      e ← elem (log_table_ l) pos;
      if flag_ e =? flag then
        _ ← cassert (length_ e =? length);
        t ← set_elem (log_table_ l) pos (set_completed e);
        let q := log_queue_ l in
        b ← (if negb (length =? 0)
             then src ← slice (b_bytes addr) 0 length; blit (q_base_ptr_ q) (pos_ e) src
             else Ok (q_base_ptr_ q));
        Ok (true, set_queue {| q_base_ptr_ := b; q_cur_pos_ := q_cur_pos_ q;
                               q_queue_size_ := q_queue_size_ q |} (set_table t l))
      else probe_log n (pos + 1) l addr length flag
  end.

Definition ProbeAndLogData (l : CommLog) (addr : buffer) (length flag : Z) : res (bool * CommLog) :=
  probe_log (Z.to_nat (t_cur_pos_ (log_table_ l))) 0 l addr length flag.

(** ** Replay *)

(** The end of ReadData and of ProbeData: a repeated entry is left when it has
    been read as often as it was logged. *)
Definition advance_reexec (l : CommLog) (e : LogTableElement) : res CommLog :=
  let p := log_table_reexec_pos_ l in
  if isrepeated_ e then
    let n := u64 (reexec_counter_ e + 1) in
    if n =? counter_ e then
      t ← set_elem (log_table_ l) p (set_reexec_counter 0 e);
      Ok (set_reexec (u64 (p + 1)) (set_table t l))
    else
      t ← set_elem (log_table_ l) p (set_reexec_counter n e);
      Ok (set_table t l)
  else Ok (set_reexec (u64 (p + 1)) l).

(** The result, what is copied to the start of the reader's buffer, and the log. *)
Definition ReadData (l : CommLog) (length : Z) : res (CommLogErrT * list cell * CommLog) :=
  let t := log_table_ l in
  if log_table_reexec_pos_ l =? t_cur_pos_ t then
    Ok (kCommLogCommLogModeFlip, [], set_mode kGenerateLog l)
  else if t_cur_pos_ t =? 0 then Err AssertFail
  else
    e ← elem t (log_table_reexec_pos_ l);
    if negb (length =? length_ e) then Err AssertFail
    else if negb (completed_ e) then Ok (kCommLogMissing, [], l)
    else
      data ← (if negb (length =? 0) then slice (q_base_ptr_ (log_queue_ l)) (pos_ e) (length_ e)
              else Ok []);
      l ← advance_reexec l e;
      Ok (kCommLogOK, data, l).

Definition ProbeData (l : CommLog) (length : Z) : res (CommLogErrT * CommLog) :=
  let t := log_table_ l in
  if log_table_reexec_pos_ l =? t_cur_pos_ t then
    Ok (kCommLogCommLogModeFlip, set_mode kGenerateLog l)
  else if t_cur_pos_ t =? 0 then Err AssertFail
  else
    e ← elem t (log_table_reexec_pos_ l);
    if negb (length =? length_ e) then Err AssertFail
    else if negb (completed_ e) then Ok (kCommLogError, l)
    else l ← advance_reexec l e; Ok (kCommLogOK, l).

(** ** Packing the logs of a completed child into its parent's *)

Definition SIZE : Z := sizeof uint64_t.
Definition META : Z := sizeof PtrMeta.

Definition CheckChildLogAlloc (l : CommLog) (length : Z) : res (CommLogErrT * CommLog) :=
  let c := child_log_ l in
  let unit := child_log_size_unit_ l in
  match c_base_ptr_ c with
  | None =>
      if unit =? 0 then Err DivByZero
      else
        let required_length := u64 ((length / unit + 1) * unit) in
        b ← new_array required_length 1 None;
        Ok (kCommLogOK, set_child {| c_base_ptr_ := Some b; c_size_ := required_length; c_cur_pos_ := 0 |} l)
  | Some base =>
      if c_size_ c <=? u64 (c_cur_pos_ c + length) then
        if unit =? 0 then Err DivByZero
        else
          let required_length := u64 ((u64 (c_cur_pos_ c + length) / unit + 1) * unit) in
          tmp ← new_array required_length 1 None;
          old ← slice (Some base) 0 (c_cur_pos_ c);
          b ← blit (Some tmp) 0 old;
          Ok (kCommLogOK, set_child {| c_base_ptr_ := b; c_size_ := required_length;
                                       c_cur_pos_ := c_cur_pos_ c |} l)
      else Ok (kCommLogOK, l)
  end.

(** [memcpy(&base_ptr_[cur_pos_], ...); cur_pos_ += size]. *)
Definition push_bytes (c : ChildLogQueue) (bs : list cell) : res ChildLogQueue :=
  b ← blit (c_base_ptr_ c) (c_cur_pos_ c) bs;
  Ok {| c_base_ptr_ := b; c_size_ := c_size_ c; c_cur_pos_ := u64 (c_cur_pos_ c + zlen bs) |}.

(** The bytes of a table entry, written or not. *)
Definition entry_bytes (o : option LogTableElement) : list cell :=
  match o with Some e => to_bytes e | None => replicate (Z.to_nat ELEM) None end.

Fixpoint load_entries (n : nat) (src : list cell) : list (option LogTableElement) :=
  match n with
  | O => []
  | S n => of_bytes (take (Z.to_nat ELEM) src) :: load_entries n (drop (Z.to_nat ELEM) src)
  end.

Section pack.
Context {ColorT GroupT : Type} `{EqDecision ColorT} `{Layout ColorT} `{Layout GroupT}.
#[local] Abbreviation ID := (CDID ColorT GroupT).

(** [SIZE][CDID][Table][Queue][ChildLogQueue] *)
Definition pack_length (l : CommLog) : Z :=
  u64 (SIZE + sizeof ID + META + ELEM * t_cur_pos_ (log_table_ l)
       + META + q_cur_pos_ (log_queue_ l) + META + c_cur_pos_ (child_log_ l)).

(** The child log of [dst] after the log [l] of the domain [id] is copied in. *)
Definition PackLogs (l : CommLog) (id : ID) (dst : option CommLog) (length : Z) :
    res (CommLogErrT * option CommLog) :=
  match dst with
  | None => Ok (kCommLogError, None)
  | Some d =>
      let t := log_table_ l in let q := log_queue_ l in
      let push bs d := c ← push_bytes (child_log_ d) bs; Ok (set_child c d) in
      d ← push (to_bytes (UInt length : uint64_t)) d;
      d ← push (to_bytes (CDID_copy id)) d;
      d ← push (to_bytes (table_meta t)) d;
      entries ← slice (t_base_ptr_ t) 0 (t_cur_pos_ t);
      d ← push (entries ≫= entry_bytes) d;
      d ← push (to_bytes (queue_meta q)) d;
      data ← slice (q_base_ptr_ q) 0 (q_cur_pos_ q);
      d ← push data d;
      d ← push (to_bytes (child_meta (child_log_ l))) d;
      packs ← slice (c_base_ptr_ (child_log_ l)) 0 (c_cur_pos_ (child_log_ l));
      d ← push packs d;
      Ok (kCommLogOK, Some d)
  end.

(** [parent_cd->CommLogCheckAlloc] is CheckChildLogAlloc on the parent's log;
    what it returns is not looked at. *)
Definition PackAndPushLogs (l : CommLog) (id : ID) (parent : CommLog) : res (CommLogErrT * CommLog) :=
  let length := pack_length l in
  '(_, parent) ← CheckChildLogAlloc parent length;
  '(_, p) ← PackLogs l id (Some parent) length;
  Ok (kCommLogOK, default parent p).

(** ** Finding and unpacking a child's log *)

(** The loop, from byte [tmp_index] on.  A length of zero would repeat the
    iteration for ever; [fuel] bounds the iterations. *)
Fixpoint find_child (fuel : nat) (c : ChildLogQueue) (child_cd_id : ID) (tmp_index : Z) : res Z :=
  match fuel with
  | O => Err OutOfFuel
  | S fuel =>
      if tmp_index <? c_cur_pos_ c then
        len ← load_at uint64_t (c_base_ptr_ c) tmp_index;
        cd_id ← load_at ID (c_base_ptr_ c) (u64 (tmp_index + SIZE));
        if cdid_eqb cd_id child_cd_id then Ok tmp_index
        else find_child fuel c child_cd_id (u64 (tmp_index + uval len))
      else Ok tmp_index
  end.

(** The error code and the offset [*src_ptr] points to. *)
Definition FindChildLogs (l : CommLog) (child_cd_id : ID) : res (CommLogErrT * Z) :=
  let c := child_log_ l in
  i ← find_child (S (Z.to_nat (c_cur_pos_ c))) c child_cd_id 0;
  if c_cur_pos_ c <=? i then Ok (kCommLogChildLogNotFound, 0) else Ok (kCommLogOK, i).

Definition UnpackLogs (l : CommLog) (my_id : ID) (src : option (list cell)) : res (CommLogErrT * CommLog) :=
  match src with
  | None => Err AssertFail
  | Some _ =>
      length ← load_at uint64_t src 0;
      let index := SIZE in
      cd_id ← load_at ID src index;
      if negb (cdid_eqb cd_id my_id) then Err AssertFail
      else
        let index := u64 (index + sizeof ID) in
        m ← load_at PtrMeta src index;
        let index := u64 (index + META) in
        tmp ← new_array (m_snd m) ELEM None;
        let size := u64 (ELEM * m_fst m) in
        bs ← slice src index size;
        b ← blit (Some tmp) 0 (load_entries (Z.to_nat (m_fst m)) bs);
        let l := set_table {| t_base_ptr_ := b; t_cur_pos_ := m_fst m; t_table_size_ := m_snd m |} l in
        let index := u64 (index + size) in
        m ← load_at PtrMeta src index;
        let index := u64 (index + META) in
        tmp ← new_array (m_snd m) 1 None;
        bs ← slice src index (m_fst m);
        b ← blit (Some tmp) 0 bs;
        let l := set_queue {| q_base_ptr_ := b; q_cur_pos_ := m_fst m; q_queue_size_ := m_snd m |} l in
        let index := u64 (index + m_fst m) in
        m ← load_at PtrMeta src index;
        let index := u64 (index + META) in
        tmp ← new_array (m_fst m) 1 None;
        bs ← slice src index (m_snd m);
        b ← blit (Some tmp) 0 bs;
        let l := set_child {| c_base_ptr_ := b; c_size_ := m_fst m; c_cur_pos_ := m_snd m |} l in
        let index := u64 (index + m_snd m) in
        if negb (index =? uval length) then Err AssertFail else Ok (kCommLogOK, l)
  end.

(** On the parent's log, for a child with its identifier and log; what
    UnpackLogs returns is not looked at. *)
Definition UnpackLogsToChildCD (parent : CommLog) (child_id : ID) (child : CommLog) :
    res (CommLogErrT * CommLog) :=
  '(ret, i) ← FindChildLogs parent child_id;
  if negb (bool_decide (ret = kCommLogOK)) then Ok (ret, child)
  else
    '(_, child) ← UnpackLogs child child_id (drop (Z.to_nat i) <$> c_base_ptr_ (child_log_ parent));
    Ok (kCommLogOK, child).

(** ** Completing an entry of a packed log *)

(** The inner loop: the offset and the entry with the flag, [n] entries left. *)
Fixpoint probe_table (n : nat) (src : option (list cell)) (i : Z) (flag : Z) :
    res (option (Z * LogTableElement)) :=
  match n with
  | O => Ok None
  | S n => e ← load_at LogTableElement src i;
           if flag_ e =? flag then Ok (Some (i, e)) else probe_table n src (u64 (i + ELEM)) flag
  end.

(** The offset of [completed_] in an entry. *)
Definition completed_off : Z := SIZE + SIZE.

Fixpoint probe_packed (fuel : nat) (c : ChildLogQueue) (addr : buffer) (length flag index : Z) :
    res (bool * ChildLogQueue) :=
  match fuel with
  | O => Err OutOfFuel
  | S fuel =>
      if index <? c_cur_pos_ c then
        tmp_length ← load_at uint64_t (c_base_ptr_ c) index;
        let inner_index := u64 (index + SIZE + sizeof ID) in
        m ← load_at PtrMeta (c_base_ptr_ c) inner_index;
        let inner_index := u64 (inner_index + META) in
        r ← probe_table (Z.to_nat (m_fst m)) (c_base_ptr_ c) inner_index flag;
        match r with
        | Some (i, e) =>
            _ ← cassert (length_ e =? length);
            let inner_index := u64 (inner_index + ELEM * m_fst m + META) in
            src ← slice (b_bytes addr) 0 length;
            b ← blit (c_base_ptr_ c) (u64 (inner_index + pos_ e)) src;
            b ← blit b (u64 (i + completed_off)) [Some 1];
            Ok (true, {| c_base_ptr_ := b; c_size_ := c_size_ c; c_cur_pos_ := c_cur_pos_ c |})
        | None => probe_packed fuel c addr length flag (u64 (index + uval tmp_length))
        end
      else Ok (false, c)
  end.

Definition ProbeAndLogDataPacked (l : CommLog) (addr : buffer) (length flag : Z) : res (bool * CommLog) :=
  '(found, c) ← probe_packed (S (Z.to_nat (c_cur_pos_ (child_log_ l)))) (child_log_ l) addr length flag 0;
  Ok (found, set_child c l).
End pack.
