(* ===== verification/LogSpec.v ===== *)
(** * The abstract communication log, and the refinement

    What the communication log promises: a list of messages, each with how
    often it was logged and how often it has been read back, a reading
    position and a mode.  The relation [Rep] connects it to the table, the
    queue and the child log of [CommLog.v]; every operation there refines the
    operation of the same name on the abstract log, errors included. *)

From Stdlib Require Import ZArith Lia.
From stdpp Require Import base list numbers.
From S2P Require Import Prelude Layout Ids CommLog.

(** ** The abstract log *)

Record Msg := {
  m_data : option (list cell);  (** [None] while the operation is incomplete *)
  m_len : Z;
  m_flag : Z;
  m_count : Z;                  (** how often it was logged *)
  m_reads : Z;                  (** how often it was read in this replay *)
  m_rep : bool;
  m_task : Z;
}.

Record Spec := {
  s_msgs : list Msg;
  s_pos : Z;
  s_mode : CommLogMode;
  s_new : bool;
  s_packs : list cell;
}.

Definition with_msgs (ms : list Msg) (s : Spec) : Spec :=
  {| s_msgs := ms; s_pos := s_pos s; s_mode := s_mode s; s_new := s_new s; s_packs := s_packs s |}.
Definition with_pos (p : Z) (s : Spec) : Spec :=
  {| s_msgs := s_msgs s; s_pos := p; s_mode := s_mode s; s_new := s_new s; s_packs := s_packs s |}.
Definition with_mode (m : CommLogMode) (s : Spec) : Spec :=
  {| s_msgs := s_msgs s; s_pos := s_pos s; s_mode := m; s_new := s_new s; s_packs := s_packs s |}.
Definition with_new (b : bool) (s : Spec) : Spec :=
  {| s_msgs := s_msgs s; s_pos := s_pos s; s_mode := s_mode s; s_new := b; s_packs := s_packs s |}.

Definition set_count (n : Z) (m : Msg) : Msg :=
  {| m_data := m_data m; m_len := m_len m; m_flag := m_flag m; m_count := n;
     m_reads := m_reads m; m_rep := m_rep m; m_task := m_task m |}.
Definition set_reads (n : Z) (m : Msg) : Msg :=
  {| m_data := m_data m; m_len := m_len m; m_flag := m_flag m; m_count := m_count m;
     m_reads := n; m_rep := m_rep m; m_task := m_task m |}.
Definition set_data (d : list cell) (m : Msg) : Msg :=
  {| m_data := Some d; m_len := m_len m; m_flag := m_flag m; m_count := m_count m;
     m_reads := m_reads m; m_rep := m_rep m; m_task := m_task m |}.

(** A repetition is recognised by everything but the data. *)
Definition repeats (m : Msg) (len flag : Z) (completed : bool) : bool :=
  m_rep m && (m_len m =? len) && eqb (bool_decide (is_Some (m_data m))) completed && (m_flag m =? flag).

Definition spec_log (s : Spec) (data : list cell) (len task : Z) (completed : bool) (flag : Z)
    (rep : bool) : res (CommLogErrT * Spec) :=
  let m := {| m_data := if completed then Some data else None; m_len := len; m_flag := flag;
              m_count := 1; m_reads := 0; m_rep := rep; m_task := task |} in
  let append : res (CommLogErrT * Spec) := Ok (kCommLogOK, with_new true (with_msgs (s_msgs s ++ [m]) s)) in
  if rep then
    match s_msgs s !! pred (length (s_msgs s)) with
    | None => Err OutOfBounds
    | Some m' =>
        if repeats m' len flag completed
        then Ok (kCommLogOK, with_msgs (<[pred (length (s_msgs s)) := set_count (u64 (m_count m' + 1)) m']> (s_msgs s)) s)
        else append
    end
  else append.

(** The first message with the flag gets the data, complete already or not. *)
Fixpoint spec_probe (ms : list Msg) (data : list cell) (len flag : Z) : res (bool * list Msg) :=
  match ms with
  | [] => Ok (false, [])
  | m :: ms =>
      if m_flag m =? flag then
        if m_len m =? len then Ok (true, set_data data m :: ms) else Err AssertFail
      else '(b, ms) ← spec_probe ms data len flag; Ok (b, m :: ms)
  end.

Definition spec_advance (s : Spec) (m : Msg) : Spec :=
  let p := Z.to_nat (s_pos s) in
  if m_rep m then
    let n := u64 (m_reads m + 1) in
    if n =? m_count m
    then with_pos (s_pos s + 1) (with_msgs (<[p := set_reads 0 m]> (s_msgs s)) s)
    else with_msgs (<[p := set_reads n m]> (s_msgs s)) s
  else with_pos (s_pos s + 1) s.

(** A message of another length fails an assertion. *)
Definition spec_read (s : Spec) (len : Z) : res (CommLogErrT * list cell * Spec) :=
  match s_msgs s !! Z.to_nat (s_pos s) with
  | None => Ok (kCommLogCommLogModeFlip, [], with_mode kGenerateLog s)
  | Some m =>
      if negb (len =? m_len m) then Err AssertFail
      else match m_data m with
           | None => Ok (kCommLogMissing, [], s)
           | Some d => Ok (kCommLogOK, d, spec_advance s m)
           end
  end.

Definition spec_probedata (s : Spec) (len : Z) : res (CommLogErrT * Spec) :=
  match s_msgs s !! Z.to_nat (s_pos s) with
  | None => Ok (kCommLogCommLogModeFlip, with_mode kGenerateLog s)
  | Some m =>
      if negb (len =? m_len m) then Err AssertFail
      else match m_data m with
           | None => Ok (kCommLogError, s)
           | Some d => Ok (kCommLogOK, spec_advance s m)
           end
  end.

Definition spec_empty (mode : CommLogMode) : Spec :=
  {| s_msgs := []; s_pos := 0; s_mode := mode; s_new := false; s_packs := [] |}.

(** ** The representation *)

(** The entries share the queue out among them, in order and without gaps. *)
Fixpoint laid (p : Z) (es : list LogTableElement) (n : Z) : Prop :=
  match es with
  | [] => p = n
  | e :: es => pos_ e = p ∧ 0 ≤ length_ e ∧ laid (p + length_ e) es n
  end.

Definition abs_msg (e : LogTableElement) (d : list cell) : Msg :=
  {| m_data := if completed_ e then Some d else None; m_len := length_ e; m_flag := flag_ e;
     m_count := counter_ e; m_reads := reexec_counter_ e; m_rep := isrepeated_ e; m_task := taskID_ e |}.

Fixpoint abs_msgs (es : list LogTableElement) (q : list cell) : list Msg :=
  match es with
  | [] => []
  | e :: es => abs_msg e (take (Z.to_nat (length_ e)) q) :: abs_msgs es (drop (Z.to_nat (length_ e)) q)
  end.

Definition table_rep (t : LogTable) (es : list LogTableElement) : Prop :=
  ∃ rest, t_base_ptr_ t = Some ((Some <$> es) ++ rest) ∧ t_cur_pos_ t = zlen es ∧
    t_table_size_ t = zlen es + zlen rest ∧ 0 < t_table_size_ t ∧ t_table_size_ t * ELEM < 2 ^ 63.

(** Bytes in use at the front of an allocation of [size] bytes. *)
Definition bytes_rep (base : option (list cell)) (cur size : Z) (q : list cell) : Prop :=
  ∃ rest, base = Some (q ++ rest) ∧ cur = zlen q ∧ size = zlen q + zlen rest ∧ size < 2 ^ 63.

Definition queue_rep (u : LogQueue) (q : list cell) : Prop :=
  bytes_rep (q_base_ptr_ u) (q_cur_pos_ u) (q_queue_size_ u) q.

Definition child_rep (c : ChildLogQueue) (p : list cell) : Prop :=
  (c = child_null ∧ p = []) ∨ bytes_rep (c_base_ptr_ c) (c_cur_pos_ c) (c_size_ c) p.

Record rep (l : CommLog) (s : Spec) (es : list LogTableElement) (q : list cell) : Prop := {
  rep_table : table_rep (log_table_ l) es;
  rep_queue : queue_rep (log_queue_ l) q;
  rep_child : child_rep (child_log_ l) (s_packs s);
  rep_laid : laid 0 es (zlen q);
  rep_storable : Forall storable es;
  rep_msgs : s_msgs s = abs_msgs es q;
  rep_pos : s_pos s = log_table_reexec_pos_ l ∧ 0 ≤ s_pos s ≤ zlen es;
  rep_mode : s_mode s = comm_log_mode_ l;
  rep_new : s_new s = new_log_generated_ l;
  rep_units : 0 < queue_size_unit_ l < 2 ^ 63 ∧ 0 < table_size_unit_ l ∧
              table_size_unit_ l * ELEM < 2 ^ 63 ∧ 0 < child_log_size_unit_ l;
}.

Definition Rep (l : CommLog) (s : Spec) : Prop := ∃ es q, rep l s es q.

(** A computation on the log refines one on the abstract log: the same result
    and related logs, or the same error. *)
Definition refines {A} (c : res (A * CommLog)) (a : res (A * Spec)) : Prop :=
  match a with
  | Ok (r, s) => ∃ l, c = Ok (r, l) ∧ Rep l s
  | Err e => c = Err e
  end.

(** ** The parts of the representation *)

Lemma zlen_len_eq {A B} (l : list A) (k : list B) : zlen l = zlen k ↔ length l = length k.
Proof. unfold zlen. lia. Qed.

Lemma aload_app_l {A} (l k : list A) i x :
  0 ≤ i → l !! Z.to_nat i = Some x → aload (l ++ k) i = Ok x.
Proof. intros. apply aload_lookup; [done|]. by apply lookup_app_l_Some. Qed.

Lemma elem_rep t es i e :
  table_rep t es → 0 ≤ i → es !! Z.to_nat i = Some e → elem t i = Ok e.
Proof.
  intros (rest & Hb & _) Hi He. unfold elem. rewrite Hb.
  rewrite (aload_app_l _ _ _ (Some e)); [done|done|]. by rewrite list_lookup_fmap, He.
Qed.

Lemma set_elem_rep t es i e' :
  table_rep t es → 0 ≤ i < zlen es →
  ∃ t', set_elem t i e' = Ok t' ∧ table_rep t' (<[Z.to_nat i := e']> es).
Proof.
  intros (rest & Hb & Hc & Hs & Hp & Hm) Hi. unfold set_elem. rewrite Hb.
  assert (Z.to_nat i < length es)%nat by (unfold zlen in *; lia).
  rewrite astore_Ok by (rewrite length_app, length_fmap; unfold zlen in *; lia).
  eexists. split; [done|]. exists rest. cbn [t_base_ptr_ t_cur_pos_ t_table_size_].
  rewrite insert_app_l by (by rewrite length_fmap). rewrite list_fmap_insert.
  unfold zlen in *. rewrite length_insert. done.
Qed.

(** Growing an allocation keeps the bytes in use. *)
Lemma grow_rep {A} (l rest : list (option A)) (n : Z) (x : option A) :
  zlen (l ++ rest) ≤ n →
  ∃ rest', blit (Some (replicate (Z.to_nat n) x)) 0 (l ++ rest) = Ok (Some (l ++ rest')) ∧
    n = zlen l + zlen rest'.
Proof.
  intros Hn. pose proof (zlen_nonneg (l ++ rest)).
  set (m := Z.to_nat (n - zlen (l ++ rest))).
  exists (rest ++ replicate m x).
  replace (Z.to_nat n) with (length (l ++ rest) + m)%nat by (unfold m, zlen in *; lia).
  rewrite replicate_add.
  pose proof (blit_mid [] (replicate (length (l ++ rest)) x) (replicate m x) (l ++ rest)) as Hb.
  rewrite zlen_nil in Hb. simpl in Hb. rewrite Hb.
  - split; [by rewrite <-app_assoc|]. unfold m, zlen in *.
    rewrite !length_app in *. rewrite length_replicate. lia.
  - unfold zlen. by rewrite length_replicate.
Qed.

Lemma slice_all {A} (l : list A) n : n = zlen l → slice (Some l) 0 n = Ok l.
Proof. intros ->. pose proof (slice_mid [] l []) as Hs. by rewrite zlen_nil, app_nil_r in Hs. Qed.

Lemma slice_prefix {A} (l r : list A) n : n = zlen l → slice (Some (l ++ r)) 0 n = Ok l.
Proof. intros ->. apply (slice_mid [] l r). Qed.

Lemma laid_app p es es' n k : laid p es n → laid n es' k → laid p (es ++ es') k.
Proof. revert p. induction es as [|e es IH]; simpl; [by intros ? ->|]. naive_solver. Qed.

Lemma laid_le p es n : laid p es n → p ≤ n.
Proof. revert p. induction es as [|e es IH]; simpl; [intros; lia|]. intros p (?&?&?%IH). lia. Qed.

(** Splitting the table splits the queue. *)
Lemma laid_split p es1 es2 n :
  laid p (es1 ++ es2) n → ∃ k, laid p es1 k ∧ laid k es2 n.
Proof.
  revert p. induction es1 as [|e es1 IH]; intros p; simpl; [naive_solver|].
  intros (?&?&(k&?&?)%IH). by exists k.
Qed.

Lemma abs_msgs_app es1 es2 q1 q2 p :
  laid p es1 (p + zlen q1) → abs_msgs (es1 ++ es2) (q1 ++ q2) = abs_msgs es1 q1 ++ abs_msgs es2 q2.
Proof.
  revert p q1. induction es1 as [|e es1 IH]; intros p q1; simpl.
  - intros Hp. destruct q1 as [|x q1]; [done|]. rewrite zlen_cons in Hp.
    pose proof (zlen_nonneg q1). lia.
  - intros (Hpos & Hlen & Hl). pose proof (laid_le _ _ _ Hl).
    rewrite take_app_le, drop_app_le by (unfold zlen in *; lia). f_equal.
    apply (IH (p + length_ e)). rewrite zlen_drop by lia.
    by replace (p + length_ e + (zlen q1 - length_ e)) with (p + zlen q1) by lia.
Qed.

Lemma length_abs_msgs es q : length (abs_msgs es q) = length es.
Proof. revert q. induction es as [|e es IH]; intros q; simpl; [done|]. by rewrite IH. Qed.

(** The message of one entry, in the middle of the table. *)
Lemma abs_msgs_split es1 e es2 q p :
  laid p (es1 ++ e :: es2) (p + zlen q) →
  ∃ q1 d q2, q = q1 ++ d ++ q2 ∧ zlen q1 = pos_ e - p ∧ zlen d = length_ e ∧
    laid p es1 (p + zlen q1) ∧ laid (p + zlen q1 + zlen d) es2 (p + zlen q) ∧
    abs_msgs (es1 ++ e :: es2) q = abs_msgs es1 q1 ++ abs_msg e d :: abs_msgs es2 q2.
Proof.
  intros Hl. destruct (laid_split _ _ _ _ Hl) as (k & H1 & Hpos & Hlen & H2).
  pose proof (laid_le _ _ _ H1). pose proof (laid_le _ _ _ H2).
  set (q1 := take (Z.to_nat (k - p)) q). set (q' := drop (Z.to_nat (k - p)) q).
  assert (q = q1 ++ q') as Hq by (unfold q1, q'; by rewrite take_drop).
  assert (zlen q1 = k - p) as Hq1 by (apply zlen_take; lia).
  assert (zlen q' = zlen q - (k - p)) as Hq' by (apply zlen_drop; lia).
  exists q1, (take (Z.to_nat (length_ e)) q'), (drop (Z.to_nat (length_ e)) q').
  rewrite take_drop. rewrite zlen_take by lia. split; [done|]. split; [lia|]. split; [done|].
  replace (p + zlen q1) with k by lia. split; [done|].
  split; [by replace (p + zlen q1 + length_ e) with (k + length_ e) by lia|].
  rewrite Hq at 1. rewrite (abs_msgs_app es1 _ _ _ p); [done|].
  by replace (p + zlen q1) with k by lia.
Qed.

(** ** Writing *)

Definition entry_of (p : Z) (len task : Z) (completed : bool) (flag : Z) (rep : bool) : LogTableElement :=
  {| pos_ := p; length_ := len; completed_ := completed; flag_ := flag; counter_ := 1;
     reexec_counter_ := 0; isrepeated_ := rep; taskID_ := task |}.

Lemma IncreaseLogTableSize_rep l es :
  table_rep (log_table_ l) es → 2 * t_table_size_ (log_table_ l) * ELEM < 2 ^ 63 →
  ∃ t, IncreaseLogTableSize l = Ok (kCommLogOK, set_table t l) ∧ table_rep t es ∧
    t_table_size_ t = 2 * t_table_size_ (log_table_ l).
Proof.
  intros (rest & Hb & Hc & Hs & Hp & Hm) Hg. unfold IncreaseLogTableSize.
  set (t := log_table_ l) in *. assert (ELEM = 56) as HE by done. rewrite HE in *.
  rewrite u64_small by lia. rewrite new_array_Ok by lia. cbn [mbind res_bind].
  rewrite Hb, slice_all by (rewrite zlen_app, zlen_fmap; lia). cbn [mbind res_bind].
  destruct (grow_rep (Some <$> es) rest (t_table_size_ t * 2) None) as (rest' & Hr & Hn).
  { rewrite zlen_app, zlen_fmap. lia. }
  rewrite Hr. cbn [mbind res_bind]. eexists. split; [done|]. cbn [t_table_size_].
  split; [|lia]. exists rest'. cbn [t_base_ptr_ t_cur_pos_ t_table_size_].
  rewrite HE, zlen_fmap in *. split_and!; [done|done|lia|lia|lia].
Qed.

Lemma set_elem_append t es e :
  table_rep t es → t_cur_pos_ t < t_table_size_ t →
  ∃ t', set_elem t (t_cur_pos_ t) e = Ok t' ∧
    table_rep {| t_base_ptr_ := t_base_ptr_ t'; t_cur_pos_ := u64 (t_cur_pos_ t' + 1);
                 t_table_size_ := t_table_size_ t' |} (es ++ [e]).
Proof.
  intros (rest & Hb & Hc & Hs & Hp & Hm) Hlt. unfold set_elem. rewrite Hb.
  destruct rest as [|x rest]; [rewrite zlen_nil in Hs; lia|].
  pose proof (zlen_nonneg es). rewrite zlen_cons in Hs.
  rewrite astore_Ok by (rewrite Hc; unfold zlen; rewrite length_app, length_fmap; simpl; lia).
  eexists. split; [done|]. exists rest. cbn [t_base_ptr_ t_cur_pos_ t_table_size_].
  assert (ELEM = 56) as HE by done. rewrite HE in *.
  rewrite Hc, to_nat_zlen, zlen_app, zlen_cons, zlen_nil.
  split_and!; [|rewrite u64_small; lia|lia|lia|lia].
  rewrite fmap_app, <-app_assoc. simpl.
  replace (length es) with (length (Some <$> es) + 0)%nat by (rewrite length_fmap; lia).
  by rewrite insert_app_r.
Qed.

Lemma WriteLogTable_rep l es task len completed flag rep :
  table_rep (log_table_ l) es → 2 * t_table_size_ (log_table_ l) * ELEM < 2 ^ 63 →
  ∃ t, WriteLogTable l task len completed flag rep = Ok (kCommLogOK, set_table t l) ∧
    table_rep t (es ++ [entry_of (q_cur_pos_ (log_queue_ l)) len task completed flag rep]).
Proof.
  intros Ht Hg. unfold WriteLogTable.
  destruct (Z.leb_spec (t_table_size_ (log_table_ l)) (t_cur_pos_ (log_table_ l))) as [Hle|Hlt].
  - destruct (IncreaseLogTableSize_rep l es) as (t & -> & Ht' & Hsz); [done..|].
    cbn [mbind res_bind]. rewrite bool_decide_eq_false_2 by done.
    assert (t_cur_pos_ t < t_table_size_ t).
    { destruct Ht as (r&?&?&?&?&?), Ht' as (?&?&?&?&?&?). pose proof (zlen_nonneg r). lia. }
    destruct (set_elem_append t es (entry_of (q_cur_pos_ (log_queue_ l)) len task completed flag rep))
      as (t' & He & Hr); [done..|].
    cbn [log_table_ set_table]. unfold entry_of in He. cbn [log_queue_ set_table]. rewrite He.
    cbn [mbind res_bind]. eexists. split; [done|]. done.
  - cbn [mbind res_bind]. rewrite bool_decide_eq_false_2 by done.
    destruct (set_elem_append (log_table_ l) es
      (entry_of (q_cur_pos_ (log_queue_ l)) len task completed flag rep)) as (t' & He & Hr); [done..|].
    unfold entry_of in He. rewrite He. cbn [mbind res_bind]. eexists. split; [done|]. done.
Qed.

(** The growth never reports its error: it is only called when the new size
    is larger. *)
Lemma IncreaseLogQueueSize_rep l q len :
  queue_rep (log_queue_ l) q → 0 ≤ len → 2 * (zlen q + len) < 2 ^ 63 →
  q_queue_size_ (log_queue_ l) < zlen q + len →
  ∃ u, IncreaseLogQueueSize l len = Ok (kCommLogOK, set_queue u l) ∧ queue_rep u q ∧
    q_queue_size_ u = 2 * (zlen q + len).
Proof.
  intros (rest & Hb & Hc & Hs & Hm) Hl Hg Hlt. unfold IncreaseLogQueueSize.
  set (u := log_queue_ l) in *. pose proof (zlen_nonneg q).
  rewrite Hc, (u64_small (zlen q + len)), u64_small by lia.
  rewrite (proj2 (Z.leb_gt _ _)) by lia. rewrite new_array_Ok by lia. cbn [mbind res_bind].
  rewrite Hb, slice_all by (rewrite zlen_app; lia). cbn [mbind res_bind].
  destruct (grow_rep q rest ((zlen q + len) * 2) None) as (rest' & Hr & Hn); [rewrite zlen_app; lia|].
  rewrite Hr. cbn [mbind res_bind]. eexists. split; [done|]. cbn [q_queue_size_].
  split; [|lia]. exists rest'. cbn [q_base_ptr_ q_cur_pos_ q_queue_size_].
  split_and!; [done|done|lia|lia].
Qed.

(** Writing behind the bytes in use. *)
Lemma blit_append base cur size q bs :
  bytes_rep base cur size q → zlen q + zlen bs ≤ size →
  ∃ b, blit base cur bs = Ok b ∧ bytes_rep b (u64 (cur + zlen bs)) size (q ++ bs).
Proof.
  intros (rest & -> & -> & Hs & Hm) Hle. pose proof (zlen_nonneg q). pose proof (zlen_nonneg bs).
  rewrite <-(take_drop (length bs) rest).
  rewrite blit_mid by (unfold zlen in *; rewrite length_take; lia).
  eexists. split; [done|]. exists (drop (length bs) rest).
  rewrite zlen_app, u64_small by lia.
  split_and!; [by rewrite <-app_assoc|done| |done].
  unfold zlen in *. rewrite length_drop. lia.
Qed.

Lemma WriteLogQueue_rep l q data len completed d :
  queue_rep (log_queue_ l) q → 0 ≤ len → 2 * (zlen q + len) < 2 ^ 63 →
  (completed = true → slice (b_bytes data) 0 len = Ok d) →
  ∃ u d', WriteLogQueue l data len completed = Ok (kCommLogOK, set_queue u l) ∧
    queue_rep u (q ++ d') ∧ zlen d' = len ∧ (completed = true → d' = d).
Proof.
  intros Hq Hl Hg Hd. unfold WriteLogQueue.
  pose proof Hq as (rest & _ & Hc & Hs & Hm). pose proof (zlen_nonneg q).
  rewrite Hc, u64_small by lia.
  assert (∃ u, (if q_queue_size_ (log_queue_ l) <? zlen q + len then IncreaseLogQueueSize l len
                else Ok (kCommLogOK, l)) = Ok (kCommLogOK, set_queue u l) ∧ queue_rep u q ∧
     zlen q + len ≤ q_queue_size_ u) as (u & -> & Hu & Hsz).
  { destruct (Z.ltb_spec (q_queue_size_ (log_queue_ l)) (zlen q + len)) as [Hlt|Hle].
    - destruct (IncreaseLogQueueSize_rep l q len) as (u & -> & Hu & Hsz); [done..|].
      exists u. split; [done|]. split; [done|lia].
    - exists (log_queue_ l). split; [by destruct l|]. done. }
  cbn [mbind res_bind]. rewrite bool_decide_eq_false_2 by done. cbn [log_queue_ set_queue].
  destruct (completed && negb (len =? 0)) eqn:Hcl.
  - apply andb_true_iff in Hcl as [Hcp Hl0]. rewrite (Hd Hcp). cbn [mbind res_bind].
    pose proof (slice_zlen _ _ _ _ Hl (Hd Hcp)) as Hzd.
    destruct (blit_append _ _ _ _ d Hu) as (b & -> & Hb); [lia|]. cbn [mbind res_bind].
    rewrite Hzd in Hb. by exists {| q_base_ptr_ := b; q_cur_pos_ := u64 (q_cur_pos_ u + len);
      q_queue_size_ := q_queue_size_ u |}, d.
  - cbn [mbind res_bind].
    destruct Hu as (rest' & Hb & Hc' & Hs' & Hm'). pose proof (zlen_nonneg rest').
    exists {| q_base_ptr_ := q_base_ptr_ u; q_cur_pos_ := u64 (q_cur_pos_ u + len);
      q_queue_size_ := q_queue_size_ u |}, (take (Z.to_nat len) rest').
    split; [done|]. rewrite zlen_take by lia. split; [|split; [done|]].
    + exists (drop (Z.to_nat len) rest'). cbn [q_base_ptr_ q_cur_pos_ q_queue_size_].
      rewrite <-app_assoc, take_drop, zlen_app, zlen_take, zlen_drop by lia.
      rewrite u64_small by lia. split_and!; [done|lia|lia|done].
    + intros ->. simpl in Hcl. apply negb_false_iff, Z.eqb_eq in Hcl as ->.
      specialize (Hd eq_refl). unfold slice in Hd. simpl in Hd. by injection Hd as <-.
Qed.

(** ** Entries in place *)

(** The message of entry [i]: its data is the entry's part of the queue;
    changing the entry, or its part of the queue, changes this message only. *)
Record entry_at (es : list LogTableElement) (q : list cell) (i : nat) (e : LogTableElement)
    (d : list cell) : Prop := {
  at_msg : abs_msgs es q !! i = Some (abs_msg e d);
  at_len : zlen d = length_ e;
  at_read : ∀ rest, slice (Some (q ++ rest)) (pos_ e) (length_ e) = Ok d;
  at_laid : ∀ e', pos_ e' = pos_ e → length_ e' = length_ e → laid 0 (<[i := e']> es) (zlen q);
  at_update : ∀ e', length_ e' = length_ e →
    abs_msgs (<[i := e']> es) q = <[i := abs_msg e' d]> (abs_msgs es q);
  at_write : ∀ e' d' rest, length_ e' = length_ e → zlen d' = zlen d →
    ∃ q', blit (Some (q ++ rest)) (pos_ e) d' = Ok (Some (q' ++ rest)) ∧ zlen q' = zlen q ∧
      abs_msgs (<[i := e']> es) q' = <[i := abs_msg e' d']> (abs_msgs es q);
}.

Lemma entry_at_lookup es q i e :
  laid 0 es (zlen q) → es !! i = Some e → ∃ d, entry_at es q i e d.
Proof.
  intros Hl Hi.
  assert (∃ es1 es2, es = es1 ++ e :: es2 ∧ i = length es1) as (es1 & es2 & -> & ->).
  { exists (take i es), (drop (S i) es). split; [by rewrite take_drop_middle|].
    apply lookup_lt_Some in Hi. rewrite length_take. lia. }
  destruct (abs_msgs_split es1 e es2 q 0 Hl) as (q1 & d & q2 & -> & H1 & Hd & Hl1 & Hl2 & Ha).
  exists d. rewrite Z.sub_0_r in H1. rewrite Z.add_0_l in *.
  assert (∀ e' d', length_ e' = length_ e → zlen d' = zlen d →
    abs_msgs (es1 ++ e' :: es2) (q1 ++ d' ++ q2) = abs_msgs es1 q1 ++ abs_msg e' d' :: abs_msgs es2 q2)
    as Habs.
  { intros e' d' He' Hd'. rewrite (abs_msgs_app _ _ _ _ 0) by done. f_equal. simpl.
    rewrite He', <-Hd, <-Hd'. by rewrite take_zlen_app, drop_zlen_app. }
  assert (∀ e' : LogTableElement, <[length es1 := e']> (es1 ++ e :: es2) = es1 ++ e' :: es2) as Hins.
  { intros e'. replace (length es1) with (length es1 + 0)%nat by lia. by rewrite insert_app_r. }
  assert (∀ m, <[length es1 := m]> (abs_msgs es1 q1 ++ abs_msg e d :: abs_msgs es2 q2) =
    abs_msgs es1 q1 ++ m :: abs_msgs es2 q2) as Hinsa.
  { intros m. rewrite <-(length_abs_msgs es1 q1).
    replace (length (abs_msgs es1 q1)) with (length (abs_msgs es1 q1) + 0)%nat by lia.
    by rewrite insert_app_r. }
  split.
  - rewrite Ha, <-(length_abs_msgs es1 q1). by apply list_lookup_middle.
  - done.
  - intros rest. rewrite <-!app_assoc. by apply slice_mid'.
  - intros e' Hp Hlen. rewrite Hins. eapply laid_app; [exact Hl1|]. simpl.
    rewrite Hp, Hlen. split; [done|]. split; [rewrite <-Hd; apply zlen_nonneg|].
    by rewrite Hd in Hl2.
  - intros e' He'. rewrite Hins, Ha, Hinsa. by apply Habs.
  - intros e' d' rest He' Hd'. exists (q1 ++ d' ++ q2). rewrite <-!app_assoc.
    split; [by apply blit_mid'|]. split; [rewrite !zlen_app, Hd'; done|].
    rewrite Hins, Ha, Hinsa. by apply Habs.
Qed.

Lemma table_rep_pos t es : table_rep t es → 0 ≤ zlen es < 2 ^ 63.
Proof.
  intros (rest & _ & _ & Hs & _ & Hm). pose proof (zlen_nonneg es). pose proof (zlen_nonneg rest).
  change ELEM with 56 in *. lia.
Qed.

Lemma storable_update (e : LogTableElement) (es : list LogTableElement) i :
  Forall storable es → storable e → Forall storable (<[i := e]> es).
Proof. intros. by apply Forall_insert. Qed.

Lemma u64_storable z : 0 ≤ u64 z < 256 ^ Z.of_nat 8.
Proof. apply u64_range. Qed.

(** The fields of an entry are in the ranges of their types. *)
Definition entry_ok (e : LogTableElement) : Prop :=
  0 ≤ pos_ e < 2 ^ 64 ∧ 0 ≤ length_ e < 2 ^ 64 ∧ 0 ≤ flag_ e < 2 ^ 64 ∧ 0 ≤ counter_ e < 2 ^ 64 ∧
  0 ≤ reexec_counter_ e < 2 ^ 64 ∧ 0 ≤ taskID_ e < 2 ^ 32.

Lemma storable_entry e : storable e ↔ entry_ok e.
Proof.
  unfold entry_ok. cbn -[Z.pow].
  change (256 ^ Z.of_nat 8) with (2 ^ 64). change (256 ^ Z.of_nat 4) with (2 ^ 32).
  destruct e; cbn -[Z.pow]. tauto.
Qed.

(** Replacing the table entry that represents message [i]. *)
Lemma rep_update l s es q i e e' :
  rep l s es q → 0 ≤ i → es !! Z.to_nat i = Some e → pos_ e' = pos_ e → length_ e' = length_ e →
  storable e' →
  ∃ t d, set_elem (log_table_ l) i e' = Ok t ∧ entry_at es q (Z.to_nat i) e d ∧
    rep (set_table t l) (with_msgs (<[Z.to_nat i := abs_msg e' d]> (s_msgs s)) s)
      (<[Z.to_nat i := e']> es) q.
Proof.
  intros [Ht Hq Hc Hl Hs Hm Hp Hmo Hn Hu] Hi He Hpos Hlen Hst.
  destruct (entry_at_lookup es q _ e Hl He) as [d Hd].
  destruct (set_elem_rep (log_table_ l) es i e' Ht) as (t & Hse & Ht').
  { apply lookup_lt_Some in He. unfold zlen. lia. }
  exists t, d. split; [done|]. split; [done|]. split; try done.
  - by eapply at_laid.
  - by apply storable_update.
  - cbn [s_msgs with_msgs]. rewrite Hm. symmetry. by eapply at_update.
  - cbn [s_pos with_msgs log_table_reexec_pos_ set_table]. unfold zlen in *. by rewrite length_insert.
Qed.

(** ** LogData *)

(** What is left of the address space after the next growth. *)
Definition room (l : CommLog) (len : Z) : Prop :=
  2 * t_table_size_ (log_table_ l) * ELEM < 2 ^ 63 ∧ 2 * (q_cur_pos_ (log_queue_ l) + len) < 2 ^ 63.

Lemma append_rep l s data d len task completed flag rp :
  Rep l s → room l len → 0 ≤ len → 0 ≤ task < 2 ^ 32 → 0 ≤ flag < 2 ^ 64 →
  (completed = true → slice (b_bytes data) 0 len = Ok d) →
  let m := {| m_data := if completed then Some d else None; m_len := len; m_flag := flag;
              m_count := 1; m_reads := 0; m_rep := rp; m_task := task |} in
  refines
    ('(ret, l) ← WriteLogTable l task len completed flag rp;
     if bool_decide (ret = kCommLogAllocFailed) then Ok (ret, l)
     else
      '(ret, l) ← (if negb (len =? 0) then WriteLogQueue l data len completed else Ok (ret, l));
      if bool_decide (ret = kCommLogAllocFailed) then Ok (ret, l) else Ok (kCommLogOK, set_new true l))
    (Ok (kCommLogOK, with_new true (with_msgs (s_msgs s ++ [m]) s))).
Proof.
  intros (es & q & Hrep) [Hrt Hrq] Hlen Htask Hflag Hd m.
  destruct Hrep as [Ht Hq Hc Hl Hs Hm Hp Hmo Hn Hu].
  destruct (WriteLogTable_rep l es task len completed flag rp Ht Hrt) as (t & -> & Ht').
  cbn [mbind res_bind]. rewrite bool_decide_eq_false_2 by done.
  pose proof Hq as (_ & _ & Hcur & _). rewrite Hcur in *. set (e := entry_of _ _ _ _ _ _) in Ht'.
  pose proof (zlen_nonneg q).
  assert (∃ u d', (if negb (len =? 0) then WriteLogQueue (set_table t l) data len completed
    else Ok (kCommLogOK, set_table t l)) = Ok (kCommLogOK, set_queue u (set_table t l)) ∧
    queue_rep u (q ++ d') ∧ zlen d' = len ∧ (completed = true → d' = d)) as (u & d' & -> & Hu' & Hd' & Hdd).
  { destruct (Z.eqb_spec len 0) as [->|Hne]; cbn [negb].
    - exists (log_queue_ l), []. rewrite app_nil_r. split; [by destruct l|]. split; [done|].
      split; [done|]. intros ->. specialize (Hd eq_refl). unfold slice in Hd. simpl in Hd. congruence.
    - by apply WriteLogQueue_rep. }
  cbn [mbind res_bind]. rewrite bool_decide_eq_false_2 by done.
  eexists. split; [done|]. exists (es ++ [e]), (q ++ d'). split; try done.
  - rewrite zlen_app. eapply laid_app; [exact Hl|]. simpl. rewrite Hd'. lia.
  - apply Forall_app. split; [done|]. constructor; [|done].
    apply storable_entry. unfold entry_ok, e, entry_of. cbn [pos_ length_ flag_ counter_ reexec_counter_ taskID_].
    lia.
  - cbn [s_msgs with_msgs with_new]. rewrite Hm, (abs_msgs_app _ _ _ _ 0) by done. f_equal. simpl.
    f_equal. unfold abs_msg, e, entry_of, m. simpl.
    rewrite <-Hd', to_nat_zlen, firstn_all. destruct completed; [|done]. by rewrite (Hdd eq_refl).
  - cbn. rewrite zlen_app. unfold zlen in *. simpl. lia.
Qed.

Lemma elem_none l s es q : rep l s es q → es = [] → elem (log_table_ l) (u64 (t_cur_pos_ (log_table_ l) - 1)) = Err OutOfBounds.
Proof.
  intros [(rest & Hb & Hc & Hs & Hp & Hm) _ _ _ _ _ _ _ _ _] ->.
  unfold elem. rewrite Hb, Hc. change (u64 (zlen [] - 1)) with (2 ^ 64 - 1).
  unfold aload. rewrite (proj2 (Z.leb_le _ _)) by lia.
  rewrite lookup_ge_None_2; [done|]. change ELEM with 56 in *. rewrite zlen_nil in Hs.
  simpl. unfold zlen in Hs. lia.
Qed.

Lemma repeats_abs e d len flag completed :
  repeats (abs_msg e d) len flag completed =
  isrepeated_ e && (length_ e =? len) && eqb (completed_ e) completed && (flag_ e =? flag).
Proof. unfold repeats, abs_msg. simpl. by destruct (completed_ e). Qed.

(** LogData against the abstract logging. *)
Lemma LogData_sim l s data d len task completed flag rp :
  Rep l s → room l len → 0 ≤ len → 0 ≤ task < 2 ^ 32 → 0 ≤ flag < 2 ^ 64 →
  (completed = true → slice (b_bytes data) 0 len = Ok d) →
  refines (LogData l data len task completed flag rp) (spec_log s d len task completed flag rp).
Proof.
  intros HR Hroom Hlen Htask Hflag Hd.
  pose proof (append_rep l s data d len task completed flag rp HR Hroom Hlen Htask Hflag Hd) as Happ.
  destruct HR as (es & q & Hrep). unfold LogData, spec_log.
  destruct rp; [|exact Happ].
  pose proof (rep_msgs _ _ _ _ Hrep) as Hm. rewrite Hm, length_abs_msgs in *.
  unfold FoundRepeatedEntry. destruct (es !! pred (length es)) as [e|] eqn:He.
  - pose proof (rep_table _ _ _ _ Hrep) as Ht. pose proof (table_rep_pos _ _ Ht) as Hpos.
    pose proof Ht as (rest & _ & Hcur & _).
    pose proof (lookup_lt_Some _ _ _ He) as Hlt.
    assert (u64 (t_cur_pos_ (log_table_ l) - 1) = zlen es - 1) as Hi.
    { rewrite Hcur. apply u64_small. unfold zlen in *. lia. }
    assert (Z.to_nat (zlen es - 1) = pred (length es)) as Hn by (unfold zlen; lia).
    rewrite Hi, (elem_rep _ es _ e) by (done || (rewrite Hn; done) || (unfold zlen in *; lia)).
    cbn [mbind res_bind].
    assert (storable e) as Hst 
      by (eapply Forall_lookup_1; [exact (rep_storable _ _ _ _ Hrep)|exact He]).
    apply storable_entry in Hst.
    destruct (rep_update l s es q (zlen es - 1) e (set_counter (u64 (counter_ e + 1)) e) Hrep)
      as (t & d' & Hse & Hat & Hrep').
    { unfold zlen in *. lia. } { by rewrite Hn. } { done. } { done. }
    { apply storable_entry. destruct Hst as (?&?&?&?&?&?).
      split_and!; cbn [pos_ length_ flag_ counter_ reexec_counter_ taskID_ set_counter];
        try lia; apply u64_range. }
    rewrite Hn in *. rewrite (at_msg _ _ _ _ _ Hat).
    rewrite repeats_abs.
    destruct (isrepeated_ e && (length_ e =? len) && eqb (completed_ e) completed && (flag_ e =? flag));
      [|exact Happ].
    cbn [mbind res_bind]. rewrite Hse. cbn [mbind res_bind]. eexists. split; [done|].
    exists (<[pred (length es) := set_counter (u64 (counter_ e + 1)) e]> es), q.
    rewrite Hm in Hrep'. exact Hrep'.
  - assert (es = []) as ->.
    { destruct es as [|e es]; [done|]. apply lookup_ge_None_1 in He. simpl in He. lia. }
    rewrite (elem_none l s [] q) by done. simpl. done.
Qed.

(** ** ProbeAndLogData *)

(** Completing the entry of message [i] with its data. *)
Lemma complete_rep l s es q i e addr data :
  rep l s es q → 0 ≤ i → es !! Z.to_nat i = Some e → slice (b_bytes addr) 0 (length_ e) = Ok data →
  ∃ t b d q', set_elem (log_table_ l) i (set_completed e) = Ok t ∧
    (if negb (length_ e =? 0)
     then src ← slice (b_bytes addr) 0 (length_ e); blit (q_base_ptr_ (log_queue_ l)) (pos_ e) src
     else Ok (q_base_ptr_ (log_queue_ l))) = Ok b ∧
    s_msgs s !! Z.to_nat i = Some (abs_msg e d) ∧
    rep (set_queue {| q_base_ptr_ := b; q_cur_pos_ := q_cur_pos_ (log_queue_ l);
                      q_queue_size_ := q_queue_size_ (log_queue_ l) |} (set_table t l))
      (with_msgs (<[Z.to_nat i := set_data data (abs_msg e d)]> (s_msgs s)) s)
      (<[Z.to_nat i := set_completed e]> es) q'.
Proof.
  intros Hrep Hi He Hsl.
  assert (storable e) as Hst by (eapply Forall_lookup_1; [exact (rep_storable _ _ _ _ Hrep)|exact He]).
  assert (0 ≤ length_ e) as Hle by (apply storable_entry in Hst; unfold entry_ok in Hst; lia).
  assert (storable (set_completed e)) as Hst' by (by apply storable_entry in Hst; apply storable_entry).
  destruct (rep_update l s es q i e (set_completed e) Hrep) as (t & d & Hse & Hat & Hrep'); try done.
  pose proof (slice_zlen _ _ _ _ Hle Hsl) as Hzd.
  pose proof (rep_queue _ _ _ _ Hrep) as (rest & Hb & Hc & Hs & Hm).
  destruct (at_write _ _ _ _ _ Hat (set_completed e) data rest) as (q' & Hbl & Hq' & Habs); [done| |].
  { by rewrite (at_len _ _ _ _ _ Hat). }
  exists t, (Some (q' ++ rest)), d, q'. split; [done|]. split; [|split].
  - destruct (Z.eqb_spec (length_ e) 0) as [H0|H0]; cbn [negb].
    + rewrite Hb. unfold blit in Hbl. rewrite Hzd, H0 in Hbl. simpl in Hbl. by injection Hbl as ->.
    + rewrite Hsl. cbn [mbind res_bind]. by rewrite Hb.
  - rewrite (rep_msgs _ _ _ _ Hrep). apply Hat.
  - destruct Hrep' as [Ht' Hq'' Hc' Hl' Hs' Hm' Hp' Hmo' Hn' Hu']. split; try done.
    + exists rest. cbn [log_queue_ set_queue q_base_ptr_ q_cur_pos_ q_queue_size_].
      rewrite Hq'. done.
    + by rewrite Hq'.
    + cbn [s_msgs with_msgs]. by rewrite Habs, (rep_msgs _ _ _ _ Hrep).
Qed.

Lemma probe_log_rep l s es q addr data len flag es1 es2 :
  rep l s es q → es = es1 ++ es2 → 0 ≤ len → slice (b_bytes addr) 0 len = Ok data →
  match spec_probe (drop (length es1) (s_msgs s)) data len flag with
  | Ok (b, ms) => ∃ l', probe_log (length es2) (zlen es1) l addr len flag = Ok (b, l') ∧
                        Rep l' (with_msgs (take (length es1) (s_msgs s) ++ ms) s)
  | Err e => probe_log (length es2) (zlen es1) l addr len flag = Err e
  end.
Proof.
  intros Hrep Hes Hlen Hsl. revert es1 Hes. induction es2 as [|e es2 IH]; intros es1 Hes.
  - rewrite app_nil_r in Hes. subst es1.
    rewrite drop_ge by (rewrite (rep_msgs _ _ _ _ Hrep), length_abs_msgs; done).
    simpl. exists l. split; [done|]. exists es, q.
    rewrite take_ge, app_nil_r by (rewrite (rep_msgs _ _ _ _ Hrep), length_abs_msgs; done).
    by destruct s.
  - assert (es !! length es1 = Some e) as He by (rewrite Hes; by apply list_lookup_middle).
    destruct (entry_at_lookup es q (length es1) e (rep_laid _ _ _ _ Hrep) He) as [d Hat].
    pose proof (at_msg _ _ _ _ _ Hat) as Hmsg. rewrite <-(rep_msgs _ _ _ _ Hrep) in Hmsg.
    rewrite (drop_S _ _ _ Hmsg). cbn [spec_probe length probe_log].
    rewrite (elem_rep _ es _ e);
      [|exact (rep_table _ _ _ _ Hrep)|apply zlen_nonneg|by rewrite to_nat_zlen].
    cbn [mbind res_bind].
    unfold abs_msg at 1 2. cbn [m_flag m_len]. destruct (flag_ e =? flag).
    + destruct (Z.eqb_spec (length_ e) len) as [Hel|Hel]; [|done].
      cbn [cassert mbind res_bind]. subst len.
      destruct (complete_rep l s es q (zlen es1) e addr data) as (t & b & d' & q' & -> & Hb & Hm' & Hr);
        [done|apply zlen_nonneg|by rewrite to_nat_zlen|done|].
      rewrite to_nat_zlen in *. cbn [mbind res_bind]. rewrite Hb. cbn [mbind res_bind].
      eexists. split; [done|]. eexists _, q'.
      assert (abs_msg e d' = abs_msg e d) as Heq by congruence. rewrite Heq in Hr.
      rewrite insert_take_drop in Hr by (by eapply lookup_lt_Some). exact Hr.
    + specialize (IH (es1 ++ [e])).
      rewrite <-app_assoc, length_app in IH. simpl in IH. specialize (IH Hes).
      rewrite Nat.add_1_r in IH. rewrite zlen_app in IH. change (zlen [e]) with 1 in IH.
      destruct (spec_probe _ _ _ _) as [[b ms]|err]; cbn [mbind res_bind]; [|done].
      destruct IH as (l' & Hpl & HR). exists l'. split; [done|].
      rewrite (take_S_r _ _ _ Hmsg), <-app_assoc in HR. exact HR.
Qed.

(** ProbeAndLogData against the abstract completion. *)
Lemma ProbeAndLogData_sim l s addr data len flag :
  Rep l s → 0 ≤ len → slice (b_bytes addr) 0 len = Ok data →
  refines (ProbeAndLogData l addr len flag)
    ('(b, ms) ← spec_probe (s_msgs s) data len flag; Ok (b, with_msgs ms s)).
Proof.
  intros (es & q & Hrep) Hlen Hsl. unfold ProbeAndLogData.
  pose proof (probe_log_rep l s es q addr data len flag [] es Hrep eq_refl Hlen Hsl) as Hp.
  rewrite drop_0 in Hp. pose proof (rep_table _ _ _ _ Hrep) as (rest & _ & Hc & _).
  rewrite Hc, to_nat_zlen. change (zlen []) with 0 in Hp.
  by destruct (spec_probe (s_msgs s) data len flag) as [[b ms]|err].
Qed.

(** ** Replay *)

Lemma advance_rep l s es q e :
  rep l s es q → es !! Z.to_nat (log_table_reexec_pos_ l) = Some e →
  ∃ l' d, advance_reexec l e = Ok l' ∧ entry_at es q (Z.to_nat (log_table_reexec_pos_ l)) e d ∧
    Rep l' (spec_advance s (abs_msg e d)).
Proof.
  intros Hrep He. set (p := log_table_reexec_pos_ l) in *.
  pose proof (rep_pos _ _ _ _ Hrep) as [Hp [Hp0 _]]. fold p in Hp. rewrite Hp in Hp0.
  pose proof (lookup_lt_Some _ _ _ He) as Hlt.
  pose proof (table_rep_pos _ _ (rep_table _ _ _ _ Hrep)) as Hz.
  assert (storable e) as Hst by (eapply Forall_lookup_1; [exact (rep_storable _ _ _ _ Hrep)|exact He]).
  assert (∀ n, 0 ≤ n < 2 ^ 64 → storable (set_reexec_counter n e)) as Hst'.
  { intros n Hn. apply storable_entry in Hst as (?&?&?&?&?&?). apply storable_entry.
    split_and!; cbn [pos_ length_ flag_ counter_ reexec_counter_ taskID_ set_reexec_counter]; lia. }
  assert (u64 (p + 1) = p + 1) as Hu by (apply u64_small; unfold zlen in *; lia).
  unfold advance_reexec, spec_advance. fold p. rewrite Hp. cbn [m_rep m_reads m_count abs_msg].
  destruct (isrepeated_ e) eqn:Hr.
  - destruct (u64 (reexec_counter_ e + 1) =? counter_ e).
    + destruct (rep_update l s es q p e (set_reexec_counter 0 e) Hrep) as (t & d & -> & Hat & Hrep');
        [done..|apply Hst'; lia|].
      cbn [mbind res_bind]. eexists _, d. split; [done|]. split; [done|].
      eexists _, q. destruct Hrep'. split; try done.
      cbn [s_pos with_pos log_table_reexec_pos_ set_reexec]. rewrite Hu.
      unfold zlen in *. rewrite length_insert. lia.
    + destruct (rep_update l s es q p e (set_reexec_counter (u64 (reexec_counter_ e + 1)) e) Hrep)
        as (t & d & -> & Hat & Hrep'); [done..|apply Hst', u64_range|].
      cbn [mbind res_bind]. eexists _, d. split; [done|]. split; [done|].
      by eexists _, q.
  - destruct (entry_at_lookup es q (Z.to_nat p) e (rep_laid _ _ _ _ Hrep) He) as [d Hat].
    eexists _, d. split; [done|]. split; [done|]. exists es, q. destruct Hrep. split; try done.
    cbn [s_pos with_pos log_table_reexec_pos_ set_reexec]. rewrite Hu. unfold zlen in *. lia.
Qed.

Lemma read_lookup l s es q :
  rep l s es q →
  match s_msgs s !! Z.to_nat (s_pos s) with
  | None => log_table_reexec_pos_ l = t_cur_pos_ (log_table_ l)
  | Some m => ∃ e d, es !! Z.to_nat (log_table_reexec_pos_ l) = Some e ∧ m = abs_msg e d ∧
      entry_at es q (Z.to_nat (log_table_reexec_pos_ l)) e d ∧
      log_table_reexec_pos_ l ≠ t_cur_pos_ (log_table_ l) ∧ t_cur_pos_ (log_table_ l) ≠ 0 ∧
      elem (log_table_ l) (log_table_reexec_pos_ l) = Ok e
  end.
Proof.
  intros Hrep. pose proof (rep_pos _ _ _ _ Hrep) as [Hp Hpr]. rewrite Hp in *.
  pose proof (rep_table _ _ _ _ Hrep) as Ht. pose proof Ht as (rest & _ & Hc & _).
  rewrite (rep_msgs _ _ _ _ Hrep).
  destruct (es !! Z.to_nat (log_table_reexec_pos_ l)) as [e|] eqn:He.
  - destruct (entry_at_lookup es q _ e (rep_laid _ _ _ _ Hrep) He) as [d Hat].
    rewrite (at_msg _ _ _ _ _ Hat). exists e, d. pose proof (lookup_lt_Some _ _ _ He).
    rewrite Hc. split; [done|]. split; [done|]. split; [done|].
    split; [unfold zlen; lia|]. split; [unfold zlen; lia|].
    apply (elem_rep _ es); [exact Ht|lia|exact He].
  - rewrite lookup_ge_None_2; [|rewrite length_abs_msgs; by apply lookup_ge_None_1].
    apply lookup_ge_None_1 in He. rewrite Hc. unfold zlen in *. lia.
Qed.

(** ReadData against the abstract reading. *)
Lemma ReadData_sim l s len :
  Rep l s → refines ('(r, d, l) ← ReadData l len; Ok ((r, d), l))
    ('(r, d, s) ← spec_read s len; Ok ((r, d), s)).
Proof.
  intros (es & q & Hrep). unfold ReadData, spec_read.
  pose proof (read_lookup l s es q Hrep) as Hr.
  destruct (s_msgs s !! Z.to_nat (s_pos s)) as [m|].
  - destruct Hr as (e & d & He & -> & Hat & Hne & H0 & Hel).
    rewrite (proj2 (Z.eqb_neq _ _) Hne), (proj2 (Z.eqb_neq _ _) H0), Hel. cbn [mbind res_bind].
    cbn [abs_msg m_len m_data]. destruct (Z.eqb_spec len (length_ e)) as [->|Hn]; cbn [negb].
    + destruct (completed_ e) eqn:Hcp; cbn [negb].
      * destruct (advance_rep l s es q e Hrep He) as (l' & d' & Hadv & Hat' & HR).
        assert (d' = d) as ->.
        { pose proof (at_read _ _ _ _ _ Hat []). pose proof (at_read _ _ _ _ _ Hat' []). congruence. }
        pose proof (rep_queue _ _ _ _ Hrep) as (rest & Hb & _).
        assert ((if negb (length_ e =? 0)
          then slice (q_base_ptr_ (log_queue_ l)) (pos_ e) (length_ e) else Ok []) = Ok d) as ->.
        { pose proof (at_read _ _ _ _ _ Hat rest) as Hread. rewrite <-Hb in Hread.
          destruct (length_ e =? 0) eqn:Hz; cbn [negb]; [|done].
          apply Z.eqb_eq in Hz. rewrite Hz in Hread. exact Hread. }
        cbn [mbind res_bind]. rewrite Hadv. cbn [mbind res_bind]. eexists. split; [done|].
        exact HR.
      * eexists. split; [done|]. by exists es, q.
    + done.
  - rewrite (proj2 (Z.eqb_eq _ _) Hr). cbn [mbind res_bind]. eexists. split; [done|].
    exists es, q. destruct Hrep. by split.
Qed.

Lemma ProbeData_sim l s len :
  Rep l s → refines (ProbeData l len) (spec_probedata s len).
Proof.
  intros (es & q & Hrep). unfold ProbeData, spec_probedata.
  pose proof (read_lookup l s es q Hrep) as Hr.
  destruct (s_msgs s !! Z.to_nat (s_pos s)) as [m|].
  - destruct Hr as (e & d & He & -> & Hat & Hne & H0 & Hel).
    rewrite (proj2 (Z.eqb_neq _ _) Hne), (proj2 (Z.eqb_neq _ _) H0), Hel. cbn [mbind res_bind].
    cbn [abs_msg m_len m_data]. destruct (negb (len =? length_ e)); [done|].
    destruct (completed_ e) eqn:Hcp; cbn [negb].
    + destruct (advance_rep l s es q e Hrep He) as (l' & d' & -> & Hat' & HR).
      cbn [mbind res_bind]. eexists. split; [done|].
      assert (d' = d) as ->.
      { pose proof (at_read _ _ _ _ _ Hat []). pose proof (at_read _ _ _ _ _ Hat' []). congruence. }
      exact HR.
    + eexists. split; [done|]. by exists es, q.
  - rewrite (proj2 (Z.eqb_eq _ _) Hr). eexists. split; [done|]. exists es, q. destruct Hrep. by split.
Qed.

(** ** A concrete log *)

Definition ex_null : CommLog :=
  {| queue_size_unit_ := 4; table_size_unit_ := 1; child_log_size_unit_ := 16;
     comm_log_mode_ := kReplayLog; log_queue_ := queue_null; log_table_ := table_null;
     log_table_reexec_pos_ := 0; new_log_generated_ := false; child_log_ := child_null |}.

(** A receive completed by its wait, and a second receive with the same
    request. *)
Definition ex_reuse_entries : list LogTableElement :=
  [{| pos_ := 0; length_ := 2; completed_ := true; flag_ := 96; counter_ := 1; reexec_counter_ := 0;
      isrepeated_ := false; taskID_ := 2 |};
   {| pos_ := 2; length_ := 0; completed_ := true; flag_ := 0; counter_ := 1; reexec_counter_ := 0;
      isrepeated_ := false; taskID_ := 2 |};
   {| pos_ := 2; length_ := 2; completed_ := false; flag_ := 96; counter_ := 1; reexec_counter_ := 0;
      isrepeated_ := false; taskID_ := 2 |}].

Definition ex_reuse_log : CommLog :=
  get ex_null
    (l ← CommLog_new kGenerateLog 4 1 16;
     '(_, l) ← LogData l {| b_addr := 32; b_bytes := Some [None; None] |} 2 2 false 96 false;
     '(_, l) ← ProbeAndLogData l {| b_addr := 32; b_bytes := Some [Some 7; Some 8] |} 2 96;
     '(_, l) ← LogData l {| b_addr := 96; b_bytes := None |} 0 2 true 0 false;
     '(_, l) ← LogData l {| b_addr := 32; b_bytes := Some [Some 7; Some 8] |} 2 2 false 96 false;
     Ok l).

Definition ex_reuse_spec : Spec :=
  {| s_msgs := abs_msgs ex_reuse_entries [Some 7; Some 8; None; None]; s_pos := 0;
     s_mode := kGenerateLog; s_new := true; s_packs := [] |}.

Lemma ex_reuse_rep : Rep ex_reuse_log ex_reuse_spec.
Proof.
  exists ex_reuse_entries, [Some 7; Some 8; None; None]. split.
  - exists [None]. vm_compute. done.
  - exists []. vm_compute. done.
  - left. vm_compute. done.
  - vm_compute. repeat split; discriminate.
  - repeat constructor; discriminate.
  - reflexivity.
  - vm_compute. repeat split; discriminate.
  - reflexivity.
  - reflexivity.
  - vm_compute. repeat split; discriminate.
Qed.

(** ** The refinement, for the users of the log *)

(** C15: LogData refines the abstract logging: a message that repeats the last
    one is counted there, any other is appended with its data, whatever the
    table and the queue have to grow; a repetition logged into an empty log
    reads the entry before the table. *)
Theorem LogData_refines l s data d len task completed flag rp :
  Rep l s → room l len → 0 ≤ len → 0 ≤ task < 2 ^ 32 → 0 ≤ flag < 2 ^ 64 →
  (completed = true → slice (b_bytes data) 0 len = Ok d) →
  refines (LogData l data len task completed flag rp) (spec_log s d len task completed flag rp).
Proof. apply LogData_sim. Qed.

Lemma LogData_refines_witness :
  let data := {| b_addr := 64; b_bytes := Some [Some 3; Some 4; None] |} in
  refines (LogData ex_reuse_log data 2 5 true 0 true)
    (spec_log ex_reuse_spec [Some 3; Some 4] 2 5 true 0 true) ∧
  length (s_msgs (get (kCommLogError, ex_reuse_spec)
    (spec_log ex_reuse_spec [Some 3; Some 4] 2 5 true 0 true)).2) = 4%nat.
Proof.
  intros data. split; [|vm_compute; reflexivity].
  apply (LogData_refines ex_reuse_log ex_reuse_spec data [Some 3; Some 4]).
  - exact ex_reuse_rep.
  - split; vm_compute; reflexivity.
  - lia.
  - lia.
  - lia.
  - intros _. reflexivity.
Defined.

(** C20: ProbeAndLogData refines the abstract completion: the first message
    with the flag, complete already or not, becomes complete and gets the
    data; a wrong length fails the assertion; without such a message nothing
    changes. *)
Theorem ProbeAndLogData_refines l s addr data len flag :
  Rep l s → 0 ≤ len → slice (b_bytes addr) 0 len = Ok data →
  refines (ProbeAndLogData l addr len flag)
    ('(b, ms) ← spec_probe (s_msgs s) data len flag; Ok (b, with_msgs ms s)).
Proof. apply ProbeAndLogData_sim. Qed.

Lemma ProbeAndLogData_refines_witness :
  let addr := {| b_addr := 32; b_bytes := Some [Some 17; Some 18] |} in
  refines (ProbeAndLogData ex_reuse_log addr 2 96)
    ('(b, ms) ← spec_probe (s_msgs ex_reuse_spec) [Some 17; Some 18] 2 96;
     Ok (b, with_msgs ms ex_reuse_spec)).
Proof.
  intros addr. apply ProbeAndLogData_refines; [exact ex_reuse_rep|lia|reflexivity].
Defined.

(** C16: ReadData refines the abstract reading: the next message's data if it is
    complete and of the wanted length, the code for a missing message if it is
    not complete, a failed assertion if it has another length, and the switch to
    logging exactly when every message has been read; it never reads outside
    the table or the queue. *)
Theorem ReadData_refines l s len :
  Rep l s → refines ('(r, d, l) ← ReadData l len; Ok ((r, d), l))
    ('(r, d, s) ← spec_read s len; Ok ((r, d), s)).
Proof. apply ReadData_sim. Qed.

Lemma ReadData_refines_witness :
  refines ('(r, d, l) ← ReadData ex_reuse_log 2; Ok ((r, d), l))
    (Ok ((kCommLogOK, [Some 7; Some 8]), with_pos 1 ex_reuse_spec)).
Proof. exact (ReadData_refines ex_reuse_log ex_reuse_spec 2 ex_reuse_rep). Defined.
