(* ===== verification/LogReplay.v ===== *)
(** * Logging and replaying

    What a relaxed domain relies on when it is executed again: a log written
    by LogData and rewound by ReInit returns what was logged, in order and as
    often, and then switches back to logging.  The file also has the cases in
    which this fails in the code: a repetition logged first, a request that is
    used twice, and a replay that is itself interrupted. *)

From Stdlib Require Import ZArith Lia.
From stdpp Require Import base list numbers.
From S2P Require Import Prelude Layout Ids CommLog LogSpec.

(** ** States of a log *)

Definition units_ok (queue_unit table_unit child_unit : Z) : Prop :=
  0 < queue_unit < 2 ^ 63 ∧ 0 < table_unit ∧ table_unit * ELEM < 2 ^ 63 ∧ 0 < child_unit.

Lemma InitAlloc_null_rep l :
  log_queue_ l = queue_null → log_table_ l = table_null → child_log_ l = child_null →
  log_table_reexec_pos_ l = 0 → new_log_generated_ l = false →
  units_ok (queue_size_unit_ l) (table_size_unit_ l) (child_log_size_unit_ l) →
  ∃ l', InitAlloc l = Ok (kCommLogOK, l') ∧ Rep l' (spec_empty (comm_log_mode_ l)) ∧
    t_table_size_ (log_table_ l') = table_size_unit_ l.
Proof.
  intros Hq Ht Hc Hp Hn (Hu1 & Hu2 & Hu3 & Hu4). unfold InitAlloc. rewrite Hq. cbn [q_base_ptr_ queue_null].
  rewrite new_array_Ok by lia. cbn [mbind res_bind]. cbn [log_table_ set_queue]. rewrite Ht.
  cbn [t_base_ptr_ table_null table_size_unit_ set_queue].
  rewrite new_array_Ok by lia. cbn [mbind res_bind].
  eexists. split; [done|]. split; [|done]. exists [], []. split; try done.
  - exists (replicate (Z.to_nat (table_size_unit_ l)) None).
    cbn [log_table_ set_table t_base_ptr_ t_cur_pos_ t_table_size_ table_null].
    change (zlen []) with 0. rewrite zlen_replicate by lia. split_and!; done || lia.
  - exists (replicate (Z.to_nat (queue_size_unit_ l)) None).
    cbn [log_queue_ set_table set_queue q_base_ptr_ q_cur_pos_ q_queue_size_ queue_null].
    change (zlen []) with 0. rewrite zlen_replicate by lia. split_and!; done || lia.
  - left. by split.
Qed.

Lemma CommLog_new_rep qu tu cu :
  units_ok qu tu cu →
  ∃ l, CommLog_new kGenerateLog qu tu cu = Ok l ∧ Rep l (spec_empty kGenerateLog) ∧
    t_table_size_ (log_table_ l) = tu.
Proof.
  intros Hu. unfold CommLog_new, InitInternal.
  edestruct InitAlloc_null_rep as (l & Hi & HR & Hs); [..|]; last first.
  { cbn [comm_log_mode_ set_new set_reexec set_child set_table set_queue].
    rewrite Hi. cbn [mbind res_bind]. exists l. split; [done|]. split; [exact HR|exact Hs]. }
  all: done.
Qed.

Lemma ReInit_rep l s :
  Rep l s → Rep (ReInit l) (with_pos 0 (with_mode kReplayLog s)).
Proof.
  intros (es & q & []). exists es, q. split; try done. split; [done|]. cbn. pose proof (zlen_nonneg es). lia.
Qed.

Lemma Reset_rep l s : Rep l s → Rep (Reset l) (spec_empty kGenerateLog).
Proof.
  intros (es & q & [Ht Hq Hc Hl Hs Hm Hp Hmo Hn Hu]). exists [], []. split; try done.
  - destruct Ht as (rest & Hb & Hcur & Hsz & Hpos & Hmax). exists ((Some <$> es) ++ rest).
    cbn. change (zlen []) with 0. rewrite zlen_app, zlen_fmap. split_and!; done || lia.
  - destruct Hq as (rest & Hb & Hcur & Hsz & Hmax). exists (q ++ rest).
    cbn. change (zlen []) with 0. rewrite zlen_app. split_and!; done || lia.
  - destruct Hc as [[Hc ?]|(rest & Hb & Hcur & Hsz & Hmax)]; [left; split; [unfold Reset; cbn; by rewrite Hc|done]|right].
    exists (s_packs s ++ rest). cbn. change (zlen []) with 0. rewrite zlen_app. split_and!; done || lia.
Qed.

(** ** Reading a log to its end *)

(** A sequence of reads of given lengths: what each returned. *)
Fixpoint reads (l : CommLog) (lens : list Z) : res (list (CommLogErrT * list cell) * CommLog) :=
  match lens with
  | [] => Ok ([], l)
  | len :: lens =>
      '(r, d, l) ← ReadData l len;
      '(rs, l) ← reads l lens;
      Ok ((r, d) :: rs, l)
  end.

Fixpoint spec_reads (s : Spec) (lens : list Z) : res (list (CommLogErrT * list cell) * Spec) :=
  match lens with
  | [] => Ok ([], s)
  | len :: lens =>
      '(r, d, s) ← spec_read s len;
      '(rs, s) ← spec_reads s lens; Ok ((r, d) :: rs, s)
  end.

Lemma reads_refines l s lens : Rep l s → refines (reads l lens) (spec_reads s lens).
Proof.
  revert l s. induction lens as [|len lens IH]; intros l s HR; simpl; [by exists l|].
  pose proof (ReadData_sim l s len HR) as H1. destruct (spec_read s len) as [[[r d] s1]|e]; cbn [mbind res_bind] in *.
  - destruct H1 as (l1 & H1 & HR1). destruct (ReadData l len) as [[[r' d'] l1']|]; simpl in H1; [|done].
    injection H1 as -> -> ->. cbn [mbind res_bind]. specialize (IH l1 s1 HR1).
    destruct (spec_reads s1 lens) as [[rs s2]|e]; cbn [mbind res_bind]; [|by rewrite IH].
    destruct IH as (l2 & H2 & HR2). rewrite H2. cbn [mbind res_bind]. by exists l2.
  - destruct (ReadData l len) as [[[r' d'] l1']|]; simpl in H1; [done|]. by injection H1 as ->.
Qed.

Lemma spec_reads_app s l1 l2 :
  spec_reads s (l1 ++ l2) =
  ('(r1, s) ← spec_reads s l1; '(r2, s) ← spec_reads s l2; Ok (r1 ++ r2, s)).
Proof.
  revert s. induction l1 as [|len l1 IH]; intros s; simpl.
  - by destruct (spec_reads s l2) as [[]|].
  - destruct (spec_read s len) as [[[r d] s1]|]; cbn [mbind res_bind]; [|done]. rewrite IH.
    destruct (spec_reads s1 l1) as [[r1 s2]|]; cbn [mbind res_bind]; [|done].
    by destruct (spec_reads s2 l2) as [[]|].
Qed.

(** A message that can be replayed from its start. *)
Definition ready (m : Msg) : Prop :=
  is_Some (m_data m) ∧ m_reads m = 0 ∧ 1 ≤ m_count m < 2 ^ 64 ∧ (m_rep m = false → m_count m = 1).

Definition times (m : Msg) : nat := Z.to_nat (m_count m).
Definition payload (m : Msg) : list cell := default [] (m_data m).

(** Every message as often as it was logged. *)
Definition expand (ms : list Msg) : list Msg := ms ≫= λ m, replicate (times m) m.

Lemma set_reads_id m : set_reads (m_reads m) m = m.
Proof. by destruct m. Qed.

Lemma with_pos_msgs p s ms : with_pos p (with_msgs ms s) = with_msgs ms (with_pos p s).
Proof. done. Qed.

(** [k] more reads of a message finish it. *)
Lemma read_repeated s (p : nat) m k :
  s_pos s = Z.of_nat p → s_msgs s !! p = Some m → m_rep m = true → is_Some (m_data m) →
  0 ≤ m_reads m → m_count m = m_reads m + Z.of_nat (S k) → m_count m < 2 ^ 64 →
  spec_reads s (replicate (S k) (m_len m)) =
  Ok (replicate (S k) (kCommLogOK, payload m), with_pos (s_pos s + 1) (with_msgs (<[p := set_reads 0 m]> (s_msgs s)) s)).
Proof.
  revert s m. induction k as [|k IH]; intros s m Hp Hm Hr [d Hd] H0 Hc Hmax.
  - simpl. unfold spec_read. rewrite Hp, Nat2Z.id, Hm, Z.eqb_refl, Hd. cbn [negb].
    unfold spec_advance. rewrite Hr, u64_small, (proj2 (Z.eqb_eq _ _)) by lia.
    unfold payload. rewrite Hp, Nat2Z.id, Hd. done.
  - change (replicate (S (S k)) ?x) with (x :: replicate (S k) x). cbn [spec_reads].
    unfold spec_read. rewrite Hp, Nat2Z.id, Hm, Z.eqb_refl, Hd. cbn [negb mbind res_bind].
    unfold spec_advance. rewrite Hr, u64_small, (proj2 (Z.eqb_neq _ _)) by lia.
    rewrite Hp, Nat2Z.id.
    pose proof (lookup_lt_Some _ _ _ Hm) as Hlt.
    pose proof (IH (with_msgs (<[p := set_reads (m_reads m + 1) m]> (s_msgs s)) s)
      (set_reads (m_reads m + 1) m)) as IH'.
    cbn [s_pos with_msgs s_msgs m_len set_reads m_rep m_data m_reads m_count] in IH'.
    rewrite IH'; clear IH'; try done; try lia; [|by rewrite list_lookup_insert_eq].
    cbn [mbind res_bind]. rewrite list_insert_insert_eq. unfold payload. cbn [m_data set_reads]. rewrite Hd.
    by rewrite Hp.
Qed.

(** Reading a message as often as it was logged leaves it ready again. *)
Lemma read_message s (p : nat) m :
  s_pos s = Z.of_nat p → s_msgs s !! p = Some m → ready m →
  spec_reads s (replicate (times m) (m_len m)) =
  Ok (replicate (times m) (kCommLogOK, payload m), with_pos (s_pos s + 1) s).
Proof.
  intros Hp Hm (Hd & H0 & Hc & Hr). destruct (m_rep m) eqn:Hrep.
  - unfold times. replace (Z.to_nat (m_count m)) with (S (Z.to_nat (m_count m - 1))) by lia.
    rewrite (read_repeated s p) by (done || lia). do 2 f_equal.
    rewrite <-H0, set_reads_id, list_insert_id by done. by destruct s.
  - unfold times. rewrite (Hr eq_refl). destruct Hd as [d Hd].
    change (Z.to_nat 1) with 1%nat. cbn [replicate spec_reads].
    unfold spec_read. rewrite Hp, Nat2Z.id, Hm, Z.eqb_refl, Hd. cbn [negb].
    unfold spec_advance, payload. by rewrite Hrep, Hd, Hp.
Qed.

Lemma read_all s ms1 ms2 ms3 :
  s_msgs s = ms1 ++ ms2 ++ ms3 → s_pos s = zlen ms1 → Forall ready ms2 →
  spec_reads s (m_len <$> expand ms2) =
  Ok ((λ m, (kCommLogOK, payload m)) <$> expand ms2, with_pos (zlen (ms1 ++ ms2)) s).
Proof.
  intros Hms Hpos Hr. revert s ms1 Hms Hpos.
  induction Hr as [|m ms2 Hm Hr IH]; intros s ms1 Hms Hpos.
  - cbn. f_equal. rewrite app_nil_r, <-Hpos. by destruct s.
  - unfold expand in *. csimpl. rewrite !fmap_app, !fmap_replicate, spec_reads_app.
    rewrite (read_message s (length ms1) m); [|done|by rewrite Hms; apply list_lookup_middle|done]. rewrite ret_bind.
    rewrite (IH _ (ms1 ++ [m])).
    + by rewrite <-app_assoc.
    + cbn [s_msgs with_pos]. by rewrite Hms, <-app_assoc.
    + cbn [s_pos with_pos]. rewrite Hpos. unfold zlen. rewrite length_app. simpl. lia.
Qed.

(** Reading a log whose messages are ready. *)
Lemma replay_log l s :
  Rep l s → Forall ready (s_msgs s) →
  ∃ l', reads (ReInit l) (m_len <$> expand (s_msgs s)) =
      Ok ((λ m, (kCommLogOK, payload m)) <$> expand (s_msgs s), l') ∧
    (∀ len, ∃ l'', ReadData l' len = Ok (kCommLogCommLogModeFlip, [], l'') ∧
       comm_log_mode_ l'' = kGenerateLog ∧
       Rep l'' (with_mode kGenerateLog (with_pos (zlen (s_msgs s)) s))).
Proof.
  intros HR Hready. pose proof (ReInit_rep l s HR) as HR0.
  pose proof (reads_refines _ _ (m_len <$> expand (s_msgs s)) HR0) as Hl.
  rewrite (read_all _ [] (s_msgs s) []) in Hl by (rewrite ?app_nil_r; done). destruct Hl as (l' & Hl & HR1).
  exists l'. split; [exact Hl|]. intros len.
  pose proof (ReadData_sim _ _ len HR1) as Hf. unfold spec_read in Hf.
  cbn [s_msgs s_pos with_pos with_mode app] in Hf.
  rewrite lookup_ge_None_2 in Hf by (rewrite to_nat_zlen; lia).
  destruct Hf as (l'' & Hf & HR2).
  destruct (ReadData l' len) as [[[r d] l3]|]; cbn in Hf; [|done]. injection Hf as -> -> ->.
  exists l''. split; [done|]. split; [|exact HR2].
  destruct HR2 as (es & q & HR2). by rewrite <-(rep_mode _ _ _ _ HR2).
Qed.

(** C18: replay is faithful and ends: after ReInit, a log of complete messages
    whose read counters are all 0, because no replay was interrupted in the middle
    of repeated messages (see [interrupted_replay_skips]), returns every message as
    often as it was logged, in order, and the read after the last switches the log back
    to generating; the messages are then as before, ready for another replay. *)
Theorem replay_returns_log l s :
  Rep l s → Forall ready (s_msgs s) →
  ∃ l', reads (ReInit l) (m_len <$> expand (s_msgs s)) =
      Ok ((λ m, (kCommLogOK, payload m)) <$> expand (s_msgs s), l') ∧
    (∀ len, ∃ l'', ReadData l' len = Ok (kCommLogCommLogModeFlip, [], l'') ∧
       comm_log_mode_ l'' = kGenerateLog ∧
       Rep l'' (with_mode kGenerateLog (with_pos (zlen (s_msgs s)) s))).
Proof. apply replay_log. Qed.

(** ** Room for a sequence of messages *)

Lemma WriteLogQueue_table l data len completed r l' :
  WriteLogQueue l data len completed = Ok (r, l') → log_table_ l' = log_table_ l.
Proof.
  unfold WriteLogQueue. intros H. apply bind_Ok in H as ([r1 l1] & H1 & H2).
  assert (log_table_ l1 = log_table_ l) as Hl1.
  { destruct (_ <? _); [|by injection H1 as <- <-]. unfold IncreaseLogQueueSize in H1.
    cbv zeta in H1.
    destruct (_ <=? _); [discriminate H1|]. res_inv. done. }
  destruct (bool_decide (r1 = _)); [by injection H2 as <- <-|]. res_inv. done.
Qed.

Lemma set_elem_size t i e t' : set_elem t i e = Ok t' → t_table_size_ t' = t_table_size_ t.
Proof. unfold set_elem. destruct (t_base_ptr_ t); [|done]. intros. by res_inv. Qed.

(** The table at most doubles the entries it holds. *)
Lemma LogData_size l s data len task completed flag rp r l' :
  Rep l s → LogData l data len task completed flag rp = Ok (r, l') →
  t_table_size_ (log_table_ l') ≤ Z.max (t_table_size_ (log_table_ l)) (2 * zlen (s_msgs s)).
Proof.
  intros (es & q & Hrep) H. unfold LogData in H. apply bind_Ok in H as (found & _ & H).
  pose proof (rep_table _ _ _ _ Hrep) as (rest & _ & Hc & Hs & Hp & Hm).
  assert (zlen es = zlen (s_msgs s)) as Hz
    by (rewrite (rep_msgs _ _ _ _ Hrep); unfold zlen; by rewrite length_abs_msgs).
  destruct found.
  - res_inv. cbn [log_table_ set_table]. erewrite set_elem_size by done. lia.
  - apply bind_Ok in H as ([r1 l1] & H1 & H).
    assert (t_table_size_ (log_table_ l1) ≤
            Z.max (t_table_size_ (log_table_ l)) (2 * zlen (s_msgs s))) as Hl1.
    { unfold WriteLogTable in H1. apply bind_Ok in H1 as ([r0 l0] & H0 & H1).
      assert (t_table_size_ (log_table_ l0) ≤
              Z.max (t_table_size_ (log_table_ l)) (2 * zlen (s_msgs s))) as Hl0.
      { destruct (Z.leb_spec (t_table_size_ (log_table_ l)) (t_cur_pos_ (log_table_ l))).
        - unfold IncreaseLogTableSize in H0. apply bind_Ok in H0 as (? & _ & H0). res_inv.
          cbn [log_table_ set_table t_table_size_]. change ELEM with 56 in *.
          rewrite u64_small by lia. lia.
        - injection H0 as <- <-. lia. }
      destruct (bool_decide (r0 = _)); [by injection H1 as <- <-|]. clear H. res_inv.
      cbn [log_table_ set_table t_table_size_]. by erewrite set_elem_size. }
    destruct (bool_decide (r1 = _)); [by injection H as <- <-|].
    apply bind_Ok in H as ([r2 l2] & H2 & H).
    assert (log_table_ l2 = log_table_ l1) as Hl2.
    { destruct (negb _); [by eapply WriteLogQueue_table|by injection H2 as <- <-]. }
    destruct (bool_decide (r2 = _)); injection H as <- <-; cbn [log_table_ set_new]; by rewrite Hl2.
Qed.

(** The queue holds the data of all the messages. *)
Definition volume (ms : list Msg) : Z := foldr (λ m n, m_len m + n) 0 ms.

Lemma laid_volume p es n q : laid p es n → p + volume (abs_msgs es q) = n.
Proof.
  revert p q. induction es as [|e es IH]; intros p q; simpl; [lia|].
  intros (_ & _ & Hl). rewrite <-(IH _ (drop (Z.to_nat (length_ e)) q) Hl). lia.
Qed.

Lemma rep_volume l s : Rep l s → q_cur_pos_ (log_queue_ l) = volume (s_msgs s).
Proof.
  intros (es & q & Hrep). pose proof (rep_queue _ _ _ _ Hrep) as (_ & _ & Hc & _).
  rewrite Hc, (rep_msgs _ _ _ _ Hrep), <-(laid_volume _ _ _ q (rep_laid _ _ _ _ Hrep)). lia.
Qed.

Lemma volume_app m1 m2 : volume (m1 ++ m2) = volume m1 + volume m2.
Proof. induction m1 as [|m m1 IH]; simpl; [lia|]. rewrite IH. lia. Qed.

(** ** A sequence of complete messages *)

Record logged := { g_data : list cell; g_task : Z; g_flag : Z; g_rep : bool }.

Definition logged_ok (g : logged) : Prop := 0 ≤ g_task g < 2 ^ 32 ∧ 0 ≤ g_flag g < 2 ^ 64.

Fixpoint log_all (l : CommLog) (gs : list logged) : res CommLog :=
  match gs with
  | [] => Ok l
  | g :: gs =>
      '(_, l) ← LogData l {| b_addr := 0; b_bytes := Some (g_data g) |} (zlen (g_data g)) (g_task g)
                  true (g_flag g) (g_rep g);
      log_all l gs
  end.

Fixpoint spec_log_all (s : Spec) (gs : list logged) : res Spec :=
  match gs with
  | [] => Ok s
  | g :: gs =>
      '(_, s) ← spec_log s (g_data g) (zlen (g_data g)) (g_task g) true (g_flag g) (g_rep g);
      spec_log_all s gs
  end.

(** A repetition follows a message, and has its data if it looks like it. *)
Fixpoint repeatable (prev : option logged) (gs : list logged) : Prop :=
  match gs with
  | [] => True
  | g :: gs =>
      (g_rep g = true → ∃ p, prev = Some p ∧
         (g_rep p = true → zlen (g_data p) = zlen (g_data g) → g_flag p = g_flag g →
          g_data p = g_data g)) ∧
      repeatable (Some g) gs
  end.

(** The last message of the log is the previous one, or what it repeated. *)
Definition last_is (s : Spec) (prev : option logged) : Prop :=
  match prev with
  | None => True
  | Some g => ∃ m, s_msgs s !! pred (length (s_msgs s)) = Some m ∧ m_data m = Some (g_data g) ∧
      m_len m = zlen (g_data g) ∧ m_flag m = g_flag g ∧ m_rep m = g_rep g
  end.

Lemma spec_log_last s g N prev :
  Forall ready (s_msgs s) → Forall (λ m, m_count m ≤ N) (s_msgs s) → N + 1 < 2 ^ 64 →
  last_is s prev → repeatable prev [g] →
  ∃ s', spec_log s (g_data g) (zlen (g_data g)) (g_task g) true (g_flag g) (g_rep g) = Ok (kCommLogOK, s') ∧
    Forall ready (s_msgs s') ∧ Forall (λ m, m_count m ≤ Z.max 1 (N + 1)) (s_msgs s') ∧ last_is s' (Some g) ∧
    payload <$> expand (s_msgs s') = (payload <$> expand (s_msgs s)) ++ [g_data g] ∧
    m_len <$> expand (s_msgs s') = (m_len <$> expand (s_msgs s)) ++ [zlen (g_data g)] ∧
    (zlen (s_msgs s') ≤ zlen (s_msgs s) + 1 ∧ volume (s_msgs s') ≤ volume (s_msgs s) + zlen (g_data g)).
Proof.
  intros Hr HN HNb Hl [Hg _]. unfold spec_log.
  set (m := {| m_data := Some (g_data g) |}).
  set (append := with_new true (with_msgs (s_msgs s ++ [m]) s)).
  assert (Forall ready (s_msgs append) ∧ Forall (λ m, m_count m ≤ Z.max 1 (N + 1)) (s_msgs append) ∧
    last_is append (Some g) ∧
    payload <$> expand (s_msgs append) = (payload <$> expand (s_msgs s)) ++ [g_data g] ∧
    m_len <$> expand (s_msgs append) = (m_len <$> expand (s_msgs s)) ++ [zlen (g_data g)] ∧
    (zlen (s_msgs append) ≤ zlen (s_msgs s) + 1 ∧
     volume (s_msgs append) ≤ volume (s_msgs s) + zlen (g_data g))) as Happ.
  { unfold append. cbn [s_msgs with_new with_msgs]. split_and!.
    - apply Forall_app. split; [done|]. constructor; [|done].
      split; [by eexists|]. split; [done|]. split; [cbn; lia|done].
    - apply Forall_app. split; [eapply Forall_impl; [|exact HN]; cbn; intros; lia|].
      constructor; [cbn; lia|done].
    - exists m. split; [|done]. cbn [s_msgs with_new with_msgs]. rewrite length_app. cbn.
      replace (length (s_msgs s) + 1)%nat with (S (length (s_msgs s))) by lia. cbn.
      by apply list_lookup_middle.
    - unfold expand. rewrite bind_app, fmap_app. done.
    - unfold expand. rewrite bind_app, fmap_app. done.
    - rewrite zlen_app. done.
    - rewrite volume_app. cbn. lia. }
  destruct (g_rep g) eqn:Hrep; [|by exists append].
  destruct (Hg eq_refl) as (p & -> & Hdata). destruct Hl as (m' & Hm' & Hmd & Hml & Hmf & Hmr).
  rewrite Hm'. unfold repeats. rewrite Hmd, Hmr, Hml, Hmf. cbn [bool_decide].
  rewrite bool_decide_eq_true_2 by eauto.
  destruct (g_rep p && (zlen (g_data p) =? zlen (g_data g)) && eqb true true && (g_flag p =? g_flag g)) eqn:Hc;
    [|by exists append].
  apply andb_true_iff in Hc as [[[Hp1 Hp2]%andb_true_iff _]%andb_true_iff Hp3].
  zbool. specialize (Hdata Hp1 Hp2 Hp3).
  pose proof (Forall_lookup_1 _ _ _ _ HN Hm') as HNm. cbn in HNm.
  pose proof (Forall_lookup_1 _ _ _ _ Hr Hm') as (Hd1 & Hd2 & Hd3 & Hd4).
  eexists. split; [done|]. cbn [s_msgs with_msgs].
  rewrite u64_small by lia.
  pose proof (take_drop_middle _ _ _ Hm') as Hsplit.
  assert (drop (S (pred (length (s_msgs s)))) (s_msgs s) = []) as Hnil.
  { apply drop_ge. apply lookup_lt_Some in Hm'. lia. }
  rewrite Hnil in Hsplit. pose proof (lookup_lt_Some _ _ _ Hm') as Hlt.
  assert (∀ x, <[pred (length (s_msgs s)) := x]> (s_msgs s) = take (pred (length (s_msgs s))) (s_msgs s) ++ [x]) as Hins.
  { intros x. rewrite insert_take_drop by done. by rewrite Hnil. }
  rewrite Hins. set (ini := take _ _) in *.
  assert (expand [set_count (m_count m' + 1) m'] = replicate (times m') (set_count (m_count m' + 1) m') ++ [set_count (m_count m' + 1) m']) as He.
  { unfold expand. csimpl. rewrite app_nil_r. unfold times. cbn [m_count set_count].
    replace (Z.to_nat (m_count m' + 1)) with (Z.to_nat (m_count m') + 1)%nat by lia.
    by rewrite replicate_add. }
  assert (∀ {B} (f : Msg → B), f (set_count (m_count m' + 1) m') = f m' →
    f <$> expand (ini ++ [set_count (m_count m' + 1) m']) = (f <$> expand (s_msgs s)) ++ [f m']) as Hexp.
  { intros B f Hf. rewrite <-Hsplit at 1. unfold expand in *. rewrite !bind_app, !fmap_app, He.
    rewrite fmap_app, !fmap_replicate, Hf. csimpl. rewrite app_nil_r, fmap_replicate, Hf.
    by rewrite <-app_assoc. }
  split_and!.
  - apply Forall_app. split; [by apply Forall_take|]. constructor; [|done].
    split; [done|]. split; [done|]. cbn [m_count set_count m_rep]. split; [lia|]. congruence.
  - apply Forall_app. split; [apply Forall_take; eapply Forall_impl; [|exact HN]; cbn; intros; lia|].
    constructor; [cbn; lia|done].
  - exists (set_count (m_count m' + 1) m'). cbn [s_msgs with_msgs m_data m_len m_flag m_rep set_count].
    split; [|split_and!; congruence].
    rewrite length_app. cbn. replace (length ini + 1)%nat with (S (length ini)) by lia. cbn.
    by apply list_lookup_middle.
  - rewrite (Hexp _ payload) by done. do 2 f_equal. unfold payload. rewrite Hmd. simpl. done.
  - rewrite (Hexp _ m_len) by done. congruence.
  - pose proof (f_equal zlen Hsplit) as Hz. rewrite zlen_app in *.
    change (zlen [m']) with 1 in Hz. change (zlen [_]) with 1. lia.
  - pose proof (f_equal volume Hsplit) as Hv. rewrite volume_app in *. cbn in *.
    pose proof (zlen_nonneg (g_data g)). lia.
Qed.

Definition total (gs : list logged) : Z := foldr (λ g n, zlen (g_data g) + n) 0 gs.

Lemma total_nonneg gs : 0 ≤ total gs.
Proof. induction gs as [|g gs IH]; simpl; [lia|]. pose proof (zlen_nonneg (g_data g)). lia. Qed.

(** What a table of [t0] entries can grow to for [n] messages of [v] bytes. *)
Definition fits (t0 n v : Z) : Prop :=
  2 * t0 * ELEM < 2 ^ 63 ∧ 4 * n * ELEM < 2 ^ 63 ∧ 2 * v < 2 ^ 63.

Lemma log_all_rep l s gs prev N t0 n v :
  Rep l s → Forall ready (s_msgs s) → Forall (λ m, m_count m ≤ N) (s_msgs s) → 1 ≤ N →
  last_is s prev → repeatable prev gs → Forall logged_ok gs →
  t_table_size_ (log_table_ l) ≤ Z.max t0 (2 * n) → fits t0 n v →
  zlen (s_msgs s) + zlen gs ≤ n → volume (s_msgs s) + total gs ≤ v → N + zlen gs < 2 ^ 63 →
  ∃ l' s', log_all l gs = Ok l' ∧ Rep l' s' ∧ Forall ready (s_msgs s') ∧
    payload <$> expand (s_msgs s') = (payload <$> expand (s_msgs s)) ++ (g_data <$> gs) ∧
    m_len <$> expand (s_msgs s') = (m_len <$> expand (s_msgs s)) ++ ((λ g, zlen (g_data g)) <$> gs).
Proof.
  revert l s prev N. induction gs as [|g gs IH];
    intros l s prev N HR Hr HN HN1 Hl Hrp Hok Ht Hf Hn Hv HNb.
  - exists l, s. rewrite !app_nil_r. done.
  - cbn [repeatable] in Hrp. destruct Hrp as [Hg Hrp].
    apply Forall_cons_1 in Hok as [[Hok1 Hok2] Hok]. rewrite zlen_cons in *.
    pose proof (zlen_nonneg gs). pose proof (zlen_nonneg (s_msgs s)).
    pose proof (total_nonneg gs). pose proof (zlen_nonneg (g_data g)). cbn [total foldr] in Hv.
    fold (total gs) in Hv. destruct Hf as (Hf1 & Hf2 & Hf3).
    destruct (spec_log_last s g N prev) as (s1 & Hs1 & Hr1 & HN' & Hl1 & Hp1 & Hm1 & Hz1 & Hv1); try done.
    { lia. }
    pose proof (LogData_sim l s {| b_addr := 0; b_bytes := Some (g_data g) |} (g_data g)
      (zlen (g_data g)) (g_task g) true (g_flag g) (g_rep g) HR) as Href.
    rewrite Hs1 in Href. destruct Href as (l1 & Hl' & HR1).
    + split; [change ELEM with 56 in *; lia|]. rewrite (rep_volume l s HR). lia.
    + lia.
    + done.
    + done.
    + intros _. by apply slice_all.
    + cbn [log_all]. rewrite Hl'. cbn [mbind res_bind].
      pose proof (LogData_size _ _ _ _ _ _ _ _ _ _ HR Hl') as Hsz.
      replace (Z.max 1 (N + 1)) with (N + 1) in HN' by lia.
      destruct (IH l1 s1 (Some g) (N + 1)) as (l2 & s2 & Hl2 & HR2 & Hr2 & Hp2 & Hm2);
        try done; try lia.
      exists l2, s2. rewrite Hp2, Hm2, Hp1, Hm1. csimpl. rewrite <-!app_assoc. done.
Qed.

(** C17: logging and replaying round-trips: the messages logged into a new log,
    repetitions merged and the memory grown as needed, are returned by the
    reads after ReInit, each with its own data, in order, and the read after
    the last one switches back to logging.  The conditions are that a message
    logged as a repetition has the data of the one it repeats and is not the
    first, and that the sizes stay below the limit of the address space. *)
Theorem log_then_replay qu tu cu gs :
  units_ok qu tu cu → Forall logged_ok gs → repeatable None gs →
  fits tu (zlen gs) (total gs) →
  ∃ l l1 l2, CommLog_new kGenerateLog qu tu cu = Ok l ∧ log_all l gs = Ok l1 ∧
    reads (ReInit l1) ((λ g, zlen (g_data g)) <$> gs) = Ok ((λ g, (kCommLogOK, g_data g)) <$> gs, l2) ∧
    ∀ len, ∃ l3, ReadData l2 len = Ok (kCommLogCommLogModeFlip, [], l3) ∧
      comm_log_mode_ l3 = kGenerateLog.
Proof.
  intros Hu Hok Hrp Hf.
  destruct (CommLog_new_rep qu tu cu Hu) as (l & Hl & HR & Hsz). exists l.
  pose proof (zlen_nonneg gs). assert (ELEM = 56) as HE by done.
  assert (zlen gs < 2 ^ 60) by (destruct Hf as (_ & Hf & _); rewrite HE in Hf; lia).
  destruct (log_all_rep l (spec_empty kGenerateLog) gs None 1 tu (zlen gs) (total gs))
    as (l1 & s1 & Hl1 & HR1 & Hr1 & Hp1 & Hm1); try done.
  { rewrite Hsz. lia. } { lia. }
  destruct (replay_log l1 s1 HR1 Hr1) as (l2 & Hl2 & Hflip).
  exists l1, l2. split; [done|]. split; [done|]. cbn in Hp1, Hm1. rewrite Hm1 in Hl2. split.
  - rewrite Hl2. do 2 f_equal.
    transitivity ((λ d, (kCommLogOK, d)) <$> (payload <$> expand (s_msgs s1))).
    { by rewrite <-list_fmap_compose. }
    rewrite Hp1, <-list_fmap_compose. done.
  - intros len. destruct (Hflip len) as (l3 & H3 & Hm3 & _). by exists l3.
Qed.

Lemma log_then_replay_witness :
  let test := {| g_data := [Some 0; Some 0]; g_task := 0; g_flag := 0; g_rep := true |} in
  let gs := [{| g_data := [Some 7; Some 8; Some 9]; g_task := 2; g_flag := 0; g_rep := false |};
             test; test; test; {| g_data := []; g_task := 3; g_flag := 96; g_rep := false |}] in
  (units_ok 4 1 16 ∧ Forall logged_ok gs ∧ repeatable None gs ∧ fits 1 (zlen gs) (total gs)) ∧
  ∃ l l1 l2, CommLog_new kGenerateLog 4 1 16 = Ok l ∧ log_all l gs = Ok l1 ∧
    reads (ReInit l1) ((λ g, zlen (g_data g)) <$> gs) = Ok ((λ g, (kCommLogOK, g_data g)) <$> gs, l2) ∧
    ∀ len, ∃ l3, ReadData l2 len = Ok (kCommLogCommLogModeFlip, [], l3) ∧
      comm_log_mode_ l3 = kGenerateLog.
Proof.
  intros test gs.
  assert (units_ok 4 1 16) as H1 by (unfold units_ok; change ELEM with 56; lia).
  assert (Forall logged_ok gs) as H2 by (repeat constructor; simpl; lia).
  assert (repeatable None gs) as H3.
  { cbn. split_and!; try done; intros _; eexists; split; try reflexivity; done. }
  assert (fits 1 (zlen gs) (total gs)) as H4.
  { unfold fits. change ELEM with 56. change (zlen gs) with 5. change (total gs) with 9. lia. }
  split; [auto|]. exact (log_then_replay 4 1 16 gs H1 H2 H3 H4).
Defined.

(** ** Where replay fails *)

(** A repetition logged into a new log, as MPI_Test does when it is the
    first operation of a domain and finds the request incomplete, reads the
    table at index [-1]. *)
Theorem LogData_first_repetition qu tu cu data len task completed flag :
  units_ok qu tu cu →
  ∃ l, CommLog_new kGenerateLog qu tu cu = Ok l ∧
    LogData l data len task completed flag true = Err OutOfBounds.
Proof.
  intros Hu. destruct (CommLog_new_rep qu tu cu Hu) as (l & Hl & (es & q & Hrep) & _).
  exists l. split; [done|]. unfold LogData, FoundRepeatedEntry.
  assert (es = []) as Hes.
  { pose proof (rep_msgs _ _ _ _ Hrep) as Hm. by destruct es. }
  by rewrite (elem_none _ _ _ _ Hrep Hes).
Qed.

Lemma LogData_first_repetition_witness :
  units_ok 4 1 16 ∧ ∃ l, CommLog_new kGenerateLog 4 1 16 = Ok l ∧
    LogData l {| b_addr := 64; b_bytes := Some [Some 0; Some 0; Some 0; Some 0] |} 4 0 true 0 true
    = Err OutOfBounds.
Proof.
  split; [unfold units_ok; change ELEM with 56; lia|].
  apply LogData_first_repetition. unfold units_ok. change ELEM with 56. lia.
Defined.

(** ReInit does not reset the count of an entry that an interrupted replay
    was in the middle of: if a message logged [m_count] times has been read
    [m_reads] times, the next replay returns it [m_reads] times too few, and
    what follows it too early. *)
Theorem interrupted_replay_skips l s ms1 m ms2 :
  Rep l s → s_msgs s = ms1 ++ m :: ms2 → Forall ready ms1 → Forall ready ms2 →
  m_rep m = true → is_Some (m_data m) → 0 ≤ m_reads m < m_count m → m_count m < 2 ^ 64 →
  let left := replicate (Z.to_nat (m_count m - m_reads m)) m in
  let read := expand ms1 ++ left ++ expand ms2 in
  ∃ l', reads (ReInit l) (m_len <$> read) = Ok ((λ m, (kCommLogOK, payload m)) <$> read, l') ∧
    ∀ len, ∃ l'', ReadData l' len = Ok (kCommLogCommLogModeFlip, [], l'').
Proof.
  intros HR Hms H1 H2 Hr Hd Hc Hmax left read. pose proof (ReInit_rep l s HR) as HR0.
  pose proof (reads_refines _ _ (m_len <$> read) HR0) as Hl. unfold read in Hl.
  rewrite !fmap_app, !spec_reads_app in Hl.
  rewrite (read_all _ [] ms1 (m :: ms2)) in Hl by done. unfold left in Hl.
  replace (Z.to_nat (m_count m - m_reads m))
    with (S (Z.to_nat (m_count m - m_reads m - 1))) in Hl by lia.
  rewrite fmap_replicate in Hl. rewrite ret_bind in Hl.
  rewrite spec_reads_app, (read_repeated _ (length ms1) m) in Hl; try done; try lia; [|by cbn; rewrite Hms; apply list_lookup_middle].
  cbn [s_msgs with_pos with_mode s_pos app] in Hl.
  assert (<[length ms1 := set_reads 0 m]> (s_msgs s) = ms1 ++ set_reads 0 m :: ms2) as Hins.
  { rewrite Hms. replace (length ms1) with (length ms1 + 0)%nat by lia. by rewrite insert_app_r. }
  rewrite ret_bind, Hins in Hl.
  rewrite (read_all _ (ms1 ++ [set_reads 0 m]) ms2 []) in Hl; [|by cbn; rewrite <-app_assoc, app_nil_r|by cbn; rewrite zlen_app|done].
  rewrite !ret_bind in Hl. destruct Hl as (l' & Hl & HR1). exists l'. split.
  - unfold read, left. rewrite !fmap_app, fmap_replicate.
    replace (Z.to_nat (m_count m - m_reads m))
      with (S (Z.to_nat (m_count m - m_reads m - 1))) by lia.
    rewrite fmap_replicate. exact Hl.
  - intros len. pose proof (ReadData_sim _ _ len HR1) as Hf. unfold spec_read in Hf.
    cbn [s_msgs s_pos with_pos with_mode with_msgs] in Hf.
    rewrite lookup_ge_None_2 in Hf
      by (rewrite to_nat_zlen, !length_app; simpl; lia).
    destruct Hf as (l'' & Hf & HR2).
    destruct (ReadData l' len) as [[[r d] l3]|]; cbn in Hf; [|done]. injection Hf as -> -> ->.
    by exists l''.
Qed.

(** A log of one message and three unsuccessful tests, replayed up to the
    second test. *)
Definition ex_msgs : list logged :=
  let test := {| g_data := [Some 0; Some 0]; g_task := 0; g_flag := 0; g_rep := true |} in
  [{| g_data := [Some 7; Some 8; Some 9]; g_task := 2; g_flag := 0; g_rep := false |}; test; test; test].

Definition ex_replaying : CommLog :=
  get ex_null (l ← CommLog_new kGenerateLog 4 1 16; l ← log_all l ex_msgs;
               '(_, l) ← reads (ReInit l) [3; 2; 2]; Ok l).

Definition ex_entries : list LogTableElement :=
  [{| pos_ := 0; length_ := 3; completed_ := true; flag_ := 0; counter_ := 1; reexec_counter_ := 0;
      isrepeated_ := false; taskID_ := 2 |};
   {| pos_ := 3; length_ := 2; completed_ := true; flag_ := 0; counter_ := 3; reexec_counter_ := 2;
      isrepeated_ := true; taskID_ := 0 |}].

Definition ex_queue : list cell := [Some 7; Some 8; Some 9; Some 0; Some 0].

(** The same log before the replay. *)
Definition ex_logged : CommLog :=
  get ex_null (l ← CommLog_new kGenerateLog 4 1 16; log_all l ex_msgs).

Definition ex_logged_spec : Spec :=
  {| s_msgs := abs_msgs (set_reexec_counter 0 <$> ex_entries) ex_queue; s_pos := 0; s_mode := kGenerateLog;
     s_new := true; s_packs := [] |}.

Lemma ex_logged_rep : Rep ex_logged ex_logged_spec.
Proof.
  exists (set_reexec_counter 0 <$> ex_entries), ex_queue. split.
  - exists []. vm_compute. done.
  - exists (replicate 5 None). vm_compute. done.
  - left. vm_compute. done.
  - vm_compute. repeat split; discriminate.
  - repeat constructor; discriminate.
  - reflexivity.
  - vm_compute. repeat split; discriminate.
  - reflexivity.
  - reflexivity.
  - vm_compute. repeat split; discriminate.
Qed.

Lemma replay_returns_log_witness :
  let ms := s_msgs ex_logged_spec in
  (m_len <$> expand ms) = [3; 2; 2; 2] ∧
  ∃ l', reads (ReInit ex_logged) (m_len <$> expand ms) =
      Ok ((λ m, (kCommLogOK, payload m)) <$> expand ms, l') ∧
    (∀ len, ∃ l'', ReadData l' len = Ok (kCommLogCommLogModeFlip, [], l'') ∧
       comm_log_mode_ l'' = kGenerateLog ∧
       Rep l'' (with_mode kGenerateLog (with_pos (zlen ms) ex_logged_spec))).
Proof.
  intros ms. split; [reflexivity|].
  apply (replay_returns_log ex_logged ex_logged_spec ex_logged_rep).
  repeat constructor; vm_compute; repeat split; try discriminate; by eexists.
Defined.

Definition ex_replaying_spec : Spec :=
  {| s_msgs := abs_msgs ex_entries ex_queue; s_pos := 1; s_mode := kReplayLog; s_new := true; s_packs := [] |}.

Lemma ex_replaying_rep : Rep ex_replaying ex_replaying_spec.
Proof.
  exists ex_entries, ex_queue. split.
  - exists []. vm_compute. done.
  - exists (replicate 5 None). vm_compute. done.
  - left. vm_compute. done.
  - vm_compute. repeat split; discriminate.
  - repeat constructor; discriminate.
  - reflexivity.
  - vm_compute. repeat split; discriminate.
  - reflexivity.
  - reflexivity.
  - vm_compute. repeat split; discriminate.
Qed.

Lemma interrupted_replay_skips_witness :
  let m := abs_msg (nth 1 ex_entries (entry_of 0 0 0 true 0 true)) [Some 0; Some 0] in
  let ms1 := [abs_msg (nth 0 ex_entries (entry_of 0 0 0 true 0 true)) [Some 7; Some 8; Some 9]] in
  let read := expand ms1 ++ replicate 1 m ++ expand [] in
  (m_count m = 3 ∧ m_reads m = 2) ∧
  ∃ l', reads (ReInit ex_replaying) (m_len <$> read) =
      Ok ((λ m, (kCommLogOK, payload m)) <$> read, l') ∧
    ∀ len, ∃ l'', ReadData l' len = Ok (kCommLogCommLogModeFlip, [], l'').
Proof.
  intros m ms1 read. split; [split; reflexivity|].
  apply (interrupted_replay_skips ex_replaying ex_replaying_spec ms1 m []).
  - exact ex_replaying_rep.
  - reflexivity.
  - constructor; [|constructor]. vm_compute. repeat split; try discriminate. by eexists.
  - constructor.
  - reflexivity.
  - vm_compute. by eexists.
  - vm_compute. split; [discriminate|reflexivity].
  - vm_compute. reflexivity.
Defined.

(** A request that is used for a second operation: completing it completes
    the first entry with its address again, with the second operation's data,
    and the second entry stays incomplete, so that a replay returns the wrong
    data first and then reports the second message as missing. *)
Theorem ProbeAndLogData_reused_request l s addr data ms1 m1 ms2 m2 ms3 :
  Rep l s → s_msgs s = ms1 ++ m1 :: ms2 ++ m2 :: ms3 →
  Forall (λ m, m_flag m ≠ m_flag m1) ms1 → m_flag m2 = m_flag m1 → m_data m2 = None →
  slice (b_bytes addr) 0 (m_len m1) = Ok data → 0 ≤ m_len m1 →
  ∃ l', ProbeAndLogData l addr (m_len m1) (m_flag m1) = Ok (true, l') ∧
    Rep l' (with_msgs (ms1 ++ set_data data m1 :: ms2 ++ m2 :: ms3) s) ∧
    (s_pos s = zlen ms1 → m_rep m1 = false →
     ∃ l'', ReadData l' (m_len m1) = Ok (kCommLogOK, data, l'')) ∧
    (∀ l2, Rep l2 (with_pos (zlen (ms1 ++ set_data data m1 :: ms2))
                     (with_msgs (ms1 ++ set_data data m1 :: ms2 ++ m2 :: ms3) s)) →
     ∃ l3, ReadData l2 (m_len m2) = Ok (kCommLogMissing, [], l3)).
Proof.
  intros HR Hms H1 Hf Hd Hsl Hlen.
  pose proof (ProbeAndLogData_sim l s addr data (m_len m1) (m_flag m1) HR Hlen Hsl) as Href.
  assert (spec_probe (s_msgs s) data (m_len m1) (m_flag m1) =
    Ok (true, ms1 ++ set_data data m1 :: ms2 ++ m2 :: ms3)) as Hsp.
  { rewrite Hms. clear Hms. induction H1 as [|m ms1 Hm H1 IH]; simpl.
    - by rewrite !Z.eqb_refl.
    - rewrite (proj2 (Z.eqb_neq _ _) Hm), IH. done. }
  rewrite Hsp in Href. destruct Href as (l' & Hl & HR'). exists l'. split; [done|]. split; [done|].
  assert (∀ l2 s2 m, Rep l2 s2 → s_msgs s2 !! Z.to_nat (s_pos s2) = Some m →
    ∃ l3, ReadData l2 (m_len m) = match m_data m with
      | Some d => Ok (kCommLogOK, d, l3) | None => Ok (kCommLogMissing, [], l3) end) as Hread.
  { intros l2 s2 m HR2 Hm. pose proof (ReadData_sim l2 s2 (m_len m) HR2) as Hr.
    unfold spec_read in Hr. rewrite Hm, Z.eqb_refl in Hr. cbn [negb] in Hr.
    destruct (m_data m); destruct Hr as (l3 & Hr & _); exists l3;
      destruct (ReadData l2 (m_len m)) as [[[r' d'] l4]|]; cbn in Hr; congruence. }
  split.
  - intros Hpos _. apply (Hread l' _ (set_data data m1) HR'). cbn [s_msgs with_msgs s_pos].
    rewrite Hpos, to_nat_zlen. by apply list_lookup_middle.
  - intros l2 HR2. destruct (Hread l2 _ m2 HR2) as [l3 Hl3].
    { cbn [s_msgs with_msgs s_pos with_pos]. rewrite to_nat_zlen.
      change (ms1 ++ set_data data m1 :: ms2 ++ m2 :: ms3)
        with (ms1 ++ (set_data data m1 :: ms2) ++ m2 :: ms3). rewrite app_assoc.
      by apply list_lookup_middle. }
    exists l3. by rewrite Hd in Hl3.
Qed.

Lemma ProbeAndLogData_reused_request_witness :
  let addr := {| b_addr := 32; b_bytes := Some [Some 17; Some 18] |} in
  let ms := s_msgs ex_reuse_spec in
  let m1 := nth 0 ms (abs_msg (entry_of 0 0 0 true 0 true) []) in
  let m2 := nth 2 ms (abs_msg (entry_of 0 0 0 true 0 true) []) in
  let ms2 := [nth 1 ms (abs_msg (entry_of 0 0 0 true 0 true) [])] in
  ∃ l', ProbeAndLogData ex_reuse_log addr 2 96 = Ok (true, l') ∧
    Rep l' (with_msgs (set_data [Some 17; Some 18] m1 :: ms2 ++ [m2]) ex_reuse_spec) ∧
    (0 = 0 → false = false → ∃ l'', ReadData l' 2 = Ok (kCommLogOK, [Some 17; Some 18], l'')) ∧
    (∀ l2, Rep l2 (with_pos 2 (with_msgs (set_data [Some 17; Some 18] m1 :: ms2 ++ [m2]) ex_reuse_spec)) →
     ∃ l3, ReadData l2 2 = Ok (kCommLogMissing, [], l3)).
Proof.
  intros addr ms m1 m2 ms2.
  apply (ProbeAndLogData_reused_request ex_reuse_log ex_reuse_spec addr [Some 17; Some 18] [] m1 ms2 m2 []).
  - exact ex_reuse_rep.
  - reflexivity.
  - constructor.
  - reflexivity.
  - reflexivity.
  - reflexivity.
  - discriminate.
Defined.
