(* ===== verification/LogPack.v ===== *)
(** * Packing logs into the parent, and unpacking them

    A completed child appends its log to the bytes of its parent's child log
    ([PackAndPushLogs]); when the parent is executed again and creates the
    child, the child takes its log from there ([UnpackLogsToChildCD]).  The
    round trip, the space it needs, and which of several packs is found. *)

From Stdlib Require Import ZArith Lia.
From stdpp Require Import base list numbers.
From S2P Require Import Prelude Layout Ids CommLog LogSpec LogReplay.

(** ** Bytes in use *)

Lemma push_bytes_rep c p bs :
  bytes_rep (c_base_ptr_ c) (c_cur_pos_ c) (c_size_ c) p → zlen p + zlen bs ≤ c_size_ c →
  ∃ c', push_bytes c bs = Ok c' ∧ c_size_ c' = c_size_ c ∧
    bytes_rep (c_base_ptr_ c') (c_cur_pos_ c') (c_size_ c') (p ++ bs).
Proof.
  intros Hp Hle. unfold push_bytes.
  destruct (blit_append _ _ _ _ bs Hp Hle) as (b & -> & Hb). cbn [mbind res_bind].
  eexists. split; [done|]. split; [done|]. exact Hb.
Qed.

(** Room for [len] more bytes, one more than needed. *)
Lemma CheckChildLogAlloc_rep l p len :
  child_rep (child_log_ l) p → 0 ≤ len → 0 < child_log_size_unit_ l →
  zlen p + len + child_log_size_unit_ l < 2 ^ 63 →
  ∃ c, CheckChildLogAlloc l len = Ok (kCommLogOK, set_child c l) ∧
    bytes_rep (c_base_ptr_ c) (c_cur_pos_ c) (c_size_ c) p ∧ zlen p + len < c_size_ c.
Proof.
  intros Hc Hlen Hu Hmax. unfold CheckChildLogAlloc. set (unit := child_log_size_unit_ l) in *.
  pose proof (zlen_nonneg p).
  assert (∀ x, 0 ≤ x → x + unit < 2 ^ 63 → x < (x / unit + 1) * unit ∧
    (x / unit + 1) * unit ≤ x + unit ∧ u64 ((x / unit + 1) * unit) = (x / unit + 1) * unit) as Hreq.
  { intros x Hx Hxm. pose proof (Z.div_mod x unit). pose proof (Z.mod_pos_bound x unit).
    assert (x < (x / unit + 1) * unit ≤ x + unit) by lia.
    split; [lia|]. split; [lia|]. apply u64_small. lia. }
  destruct Hc as [[-> ->]|Hb].
  - cbn [c_base_ptr_ child_null]. rewrite (proj2 (Z.eqb_neq _ _)) by lia.
    change (zlen []) with 0 in *.
    destruct (Hreq len) as (H1 & H2 & ->); [lia..|]. rewrite new_array_Ok by lia. cbn [mbind res_bind].
    eexists. split; [done|]. cbn [c_base_ptr_ c_cur_pos_ c_size_]. split; [|lia].
    exists (replicate (Z.to_nat ((len / unit + 1) * unit)) None).
    change (zlen []) with 0. rewrite zlen_replicate by lia. split_and!; [reflexivity|reflexivity|lia|lia].
  - pose proof Hb as (rest & Hbase & Hcur & Hs & Hm). rewrite Hbase, Hcur.
    pose proof (zlen_nonneg rest). rewrite u64_small by lia.
    destruct (Z.leb_spec (c_size_ (child_log_ l)) (zlen p + len)) as [Hle|Hlt].
    + rewrite (proj2 (Z.eqb_neq _ _)) by lia.
      destruct (Hreq (zlen p + len)) as (H1 & H2 & ->); [lia..|].
      rewrite new_array_Ok by lia. cbn [mbind res_bind]. rewrite slice_prefix by done.
      cbn [mbind res_bind].
      destruct (grow_rep p [] (((zlen p + len) / unit + 1) * unit) None) as (rest' & Hg & Hn).
      { rewrite app_nil_r. lia. }
      rewrite app_nil_r in Hg. rewrite Hg. cbn [mbind res_bind].
      eexists. split; [done|]. cbn [c_base_ptr_ c_cur_pos_ c_size_]. split; [|lia].
      exists rest'. split_and!; [reflexivity|reflexivity|lia|lia].
    + exists (child_log_ l). split; [by destruct l|]. done.
Qed.

(** The sizes of the fixed parts. *)
Lemma SIZE_eq : SIZE = 8. Proof. reflexivity. Qed.
Lemma META_eq : META = 24. Proof. reflexivity. Qed.
Lemma sizeof_uint64 : sizeof uint64_t = 8. Proof. reflexivity. Qed.
Lemma sizeof_meta : sizeof PtrMeta = 24. Proof. reflexivity. Qed.
Lemma sizeof_element : sizeof LogTableElement = ELEM. Proof. reflexivity. Qed.

Lemma array_bytes_entries (es : list LogTableElement) :
  (Some <$> es) ≫= entry_bytes = array_bytes es.
Proof.
  induction es as [|e es IH]; [done|]. rewrite fmap_cons, bind_cons, array_bytes_cons, IH.
  unfold entry_bytes. reflexivity.
Qed.

Lemma load_entries_array (es : list LogTableElement) :
  Forall storable es → load_entries (length es) (array_bytes es) = Some <$> es.
Proof.
  induction 1 as [|e es He Hes IH]; [done|]. rewrite array_bytes_cons, fmap_cons.
  cbn [length load_entries].
  rewrite <-sizeof_element, <-(zlen_to_bytes e), take_zlen_app, drop_zlen_app.
  rewrite of_to_bytes by done. by rewrite IH.
Qed.

Lemma load_at_eq `{Layout A} (s pre post : list cell) (a : A) p :
  s = pre ++ to_bytes a ++ post → p = zlen pre → storable a → load_at A (Some s) p = Ok a.
Proof. intros -> -> ?. by apply load_at_mid. Qed.

Lemma slice_eq {A} (s pre m post : list A) p n :
  s = pre ++ m ++ post → p = zlen pre → n = zlen m → slice (Some s) p n = Ok m.
Proof. intros -> -> ->. apply slice_mid. Qed.

Lemma uint64_storable z : 0 ≤ z < 2 ^ 64 → storable (UInt z : uint64_t).
Proof. done. Qed.

Lemma meta_storable a b : 0 ≤ a < 2 ^ 64 → 0 ≤ b < 2 ^ 64 → storable {| m_fst := a; m_snd := b |}.
Proof. done. Qed.

Section packs.
Context {ColorT GroupT : Type} `{EqDecision ColorT} `{Layout ColorT} `{Layout GroupT}.
#[local] Abbreviation ID := (CDID ColorT GroupT).
Implicit Types (id : ID) (l p : CommLog).

(** ** The format *)

(** What PackLogs appends for the log of [id]. *)
Definition pack_of (l : CommLog) (id : ID) (es : list LogTableElement) (q packs : list cell) : list cell :=
  to_bytes (UInt (pack_length (ColorT := ColorT) (GroupT := GroupT) l) : uint64_t) ++ to_bytes (CDID_copy id) ++ to_bytes (table_meta (log_table_ l)) ++
  array_bytes es ++ to_bytes (queue_meta (log_queue_ l)) ++ q ++
  to_bytes (child_meta (child_log_ l)) ++ packs.

(** How many bytes a log takes in the parent, and that they can be counted. *)
Definition packed_size (l : CommLog) : Z :=
  SIZE + sizeof ID + META + ELEM * t_cur_pos_ (log_table_ l) + META + q_cur_pos_ (log_queue_ l)
  + META + c_cur_pos_ (child_log_ l).

Lemma child_rep_cur c ps : child_rep c ps → c_cur_pos_ c = zlen ps.
Proof. intros [[-> ->]|(rest & _ & Hc & _)]; done. Qed.

Lemma zlen_pack_of l s es q id :
  rep l s es q → zlen (pack_of l id es q (s_packs s)) = packed_size l.
Proof.
  intros []. unfold pack_of, packed_size. rewrite !zlen_app, !zlen_to_bytes, zlen_array_bytes.
  destruct rep_table as (r1 & _ & Hc1 & _). destruct rep_queue as (r2 & _ & Hc2 & _).
  rewrite Hc1, Hc2, (child_rep_cur _ _ rep_child). rewrite SIZE_eq, META_eq, sizeof_uint64, sizeof_meta, sizeof_element. lia.
Qed.

Lemma packed_size_pos l s es q id : rep l s es q → 0 < packed_size l.
Proof.
  intros Hrep. rewrite <-(zlen_pack_of l s es q id Hrep). unfold pack_of.
  rewrite !zlen_app, !zlen_to_bytes. rewrite sizeof_uint64, sizeof_meta.
  repeat match goal with |- context [zlen ?x] => pose proof (zlen_nonneg x); generalize dependent (zlen x); intros end.
  pose proof (sizeof_nonneg id). lia.
Qed.

Definition with_packs (ps : list cell) (s : Spec) : Spec :=
  {| s_msgs := s_msgs s; s_pos := s_pos s; s_mode := s_mode s; s_new := s_new s; s_packs := ps |}.

Lemma set_child_rep l s es q c ps :
  rep l s es q → child_rep c ps → rep (set_child c l) (with_packs ps s) es q.
Proof. intros [] Hc. split; done. Qed.

(** Eight copies, one behind the other. *)
Lemma push_all_rep c pre bss :
  bytes_rep (c_base_ptr_ c) (c_cur_pos_ c) (c_size_ c) pre → zlen pre + zlen (concat bss) ≤ c_size_ c →
  ∃ c', foldM (λ bs c, push_bytes c bs) bss c = Ok c' ∧
    bytes_rep (c_base_ptr_ c') (c_cur_pos_ c') (c_size_ c') (pre ++ concat bss).
Proof.
  revert c pre. induction bss as [|bs bss IH]; intros c pre Hc Hle; simpl in *.
  - exists c. by rewrite app_nil_r.
  - rewrite zlen_app in Hle. pose proof (zlen_nonneg (concat bss)).
    destruct (push_bytes_rep c pre bs) as (c1 & -> & Hs & H1'); [done|lia|]. cbn [mbind res_bind].
    destruct (IH c1 (pre ++ bs)) as (c2 & -> & H2); [done|rewrite zlen_app; lia|].
    exists c2. split; [done|]. by rewrite app_assoc.
Qed.

Lemma PackLogs_fold l id d len ents data packs :
  slice (t_base_ptr_ (log_table_ l)) 0 (t_cur_pos_ (log_table_ l)) = Ok ents →
  slice (q_base_ptr_ (log_queue_ l)) 0 (q_cur_pos_ (log_queue_ l)) = Ok data →
  slice (c_base_ptr_ (child_log_ l)) 0 (c_cur_pos_ (child_log_ l)) = Ok packs →
  PackLogs l id (Some d) len =
  (c ← foldM (λ bs c, push_bytes c bs)
         [to_bytes (UInt len : uint64_t); to_bytes (CDID_copy id); to_bytes (table_meta (log_table_ l));
          ents ≫= entry_bytes; to_bytes (queue_meta (log_queue_ l)); data;
          to_bytes (child_meta (child_log_ l)); packs] (child_log_ d);
   Ok (kCommLogOK, Some (set_child c d))).
Proof.
  intros Ht Hq Hc. unfold PackLogs. cbn [foldM].
  do 3 (destruct (push_bytes _ _) as [?|]; cbn [mbind res_bind]; [|done]; cbn [child_log_ set_child]).
  rewrite Ht. cbn [mbind res_bind].
  do 2 (destruct (push_bytes _ _) as [?|]; cbn [mbind res_bind]; [|done]; cbn [child_log_ set_child]).
  rewrite Hq. cbn [mbind res_bind].
  do 2 (destruct (push_bytes _ _) as [?|]; cbn [mbind res_bind]; [|done]; cbn [child_log_ set_child]).
  rewrite Hc. cbn [mbind res_bind].
  by destruct (push_bytes _ _) as [?|].
Qed.

Lemma PackAndPushLogs_rep l s es q id p sp :
  rep l s es q → Rep p sp → zlen (s_packs sp) + packed_size l + child_log_size_unit_ p < 2 ^ 63 →
  ∃ p', PackAndPushLogs l id p = Ok (kCommLogOK, p') ∧
    Rep p' (with_packs (s_packs sp ++ pack_of l id es q (s_packs s)) sp).
Proof.
  intros Hrep (esp & qp & Hp) Hmax. unfold PackAndPushLogs.
  pose proof (packed_size_pos l s es q id Hrep) as Hpos.
  pose proof (zlen_nonneg (s_packs sp)) as Hzp.
  pose proof (rep_units _ _ _ _ Hp) as (_ & _ & _ & Hu).
  assert (pack_length (ColorT := ColorT) (GroupT := GroupT) l = packed_size l) as Hlen.
  { unfold pack_length. apply u64_small. unfold packed_size in *. lia. }
  rewrite Hlen.
  destruct (CheckChildLogAlloc_rep p (s_packs sp) (packed_size l)) as (c & -> & Hc & Hroom);
    [apply Hp|lia|done|done|]. cbn [mbind res_bind].
  pose proof (rep_table _ _ _ _ Hrep) as (r1 & Hb1 & Hc1 & _).
  pose proof (rep_queue _ _ _ _ Hrep) as (r2 & Hb2 & Hc2 & _).
  assert (slice (c_base_ptr_ (child_log_ l)) 0 (c_cur_pos_ (child_log_ l)) = Ok (s_packs s)) as Hsc.
  { destruct (rep_child _ _ _ _ Hrep) as [[-> ->]|(r3 & -> & -> & _)]; [done|]. by apply slice_prefix. }
  rewrite (PackLogs_fold l id _ _ (Some <$> es) q (s_packs s)); last first.
  { exact Hsc. } { rewrite Hb2. by apply slice_prefix. }
  { rewrite Hb1. apply slice_prefix. by rewrite zlen_fmap. }
  cbn [child_log_ set_child]. rewrite array_bytes_entries.
  set (bss := [_; _; _; _; _; _; _; _]).
  assert (concat bss = pack_of l id es q (s_packs s)) as Hcat.
  { unfold bss, pack_of. cbn [concat]. by rewrite Hlen, app_nil_r. }
  destruct (push_all_rep c (s_packs sp) bss Hc) as (c' & -> & Hc').
  { rewrite Hcat, (zlen_pack_of l s es q id Hrep). lia. }
  cbn [mbind res_bind default]. eexists. split; [done|].
  exists esp, qp. rewrite Hcat in Hc'.
  apply (set_child_rep (set_child c p) (with_packs (s_packs sp) sp)); [|by right].
  apply set_child_rep; [done|by right].
Qed.

(** ** Finding a pack *)

(** Some bytes that start like a pack: their own length, and an identifier. *)
Definition is_pack (b : list cell) (id : ID) : Prop :=
  ∃ rest, b = to_bytes (UInt (zlen b) : uint64_t) ++ to_bytes id ++ rest ∧ storable id ∧ zlen b < 2 ^ 63.

Lemma is_pack_pos b id : is_pack b id → 0 < zlen b.
Proof.
  intros (rest & Hb & _). rewrite Hb, !zlen_app, !zlen_to_bytes.
  rewrite sizeof_uint64. pose proof (sizeof_nonneg id). pose proof (zlen_nonneg rest). lia.
Qed.

(** The search passes over the packs of other domains. *)
Lemma find_child_skip fuel c id skip b rest pre i :
  c_base_ptr_ c = Some (pre ++ b ++ rest) → i = zlen pre → zlen pre + zlen b ≤ c_cur_pos_ c →
  c_cur_pos_ c < 2 ^ 63 → is_pack b skip → sizeof ID < 2 ^ 62 →
  find_child (S fuel) c id i =
    if cdid_eqb skip id then Ok i else find_child fuel c id (zlen (pre ++ b)).
Proof.
  intros Hb -> Hle Hmax Hp Hsz. pose proof (is_pack_pos _ _ Hp). destruct Hp as (r & Hbe & Hst & Hzb).
  pose proof (zlen_nonneg pre). cbn [find_child]. rewrite (proj2 (Z.ltb_lt _ _)) by lia. rewrite Hb.
  rewrite (load_at_eq _ pre (to_bytes skip ++ r ++ rest) (UInt (zlen b) : uint64_t));
    [|rewrite Hbe at 1; by rewrite <-!app_assoc|done|apply uint64_storable; lia].
  rewrite ret_bind. cbn [uval]. rewrite SIZE_eq.
  assert (zlen b = 8 + sizeof ID + zlen r) as Hzb'
    by (rewrite Hbe at 1; rewrite !zlen_app, !zlen_to_bytes; rewrite sizeof_uint64; lia).
  pose proof (zlen_nonneg r). pose proof (sizeof_nonneg skip).
  rewrite (u64_small (zlen pre + 8)) by lia.
  rewrite (load_at_eq _ (pre ++ to_bytes (UInt (zlen b) : uint64_t)) (r ++ rest) skip);
    [|rewrite Hbe at 1; by rewrite <-!app_assoc|by rewrite zlen_app, zlen_to_bytes, sizeof_uint64|done].
  rewrite ret_bind, u64_small by lia. by rewrite zlen_app.
Qed.

Lemma find_child_packs fuel c id (packs : list (list cell * ID)) rest pre :
  c_base_ptr_ c = Some (pre ++ concat packs.*1 ++ rest) →
  zlen pre + zlen (concat packs.*1) ≤ c_cur_pos_ c → c_cur_pos_ c < 2 ^ 63 → sizeof ID < 2 ^ 62 →
  Forall (λ x, is_pack x.1 x.2) packs → (length packs ≤ fuel)%nat →
  Forall (λ x, cdid_eqb x.2 id = false) packs →
  find_child fuel c id (zlen pre) = find_child (fuel - length packs) c id (zlen (pre ++ concat packs.*1)).
Proof.
  intros Hb Hle Hmax Hsz Hp Hf Hid. revert fuel pre Hb Hle Hf Hid.
  induction Hp as [|[b skip] packs Hb1 Hp IH]; intros fuel pre Hb Hle Hf Hid.
  - rewrite fmap_nil. cbn [concat length]. by rewrite app_nil_r, Nat.sub_0_r.
  - destruct fuel as [|fuel]; cbn [length] in Hf; [lia|].
    apply Forall_cons_1 in Hid as [Hne Hid].
    rewrite fmap_cons in *. cbn [fst snd concat length Nat.sub] in *. rewrite zlen_app in Hle.
    pose proof (zlen_nonneg (concat packs.*1)). rewrite <-app_assoc in Hb.
    rewrite (find_child_skip fuel c id skip b _ pre) by (done || lia). rewrite Hne.
    rewrite (IH fuel (pre ++ b)); [|by rewrite <-app_assoc|rewrite zlen_app; lia|lia|done].
    by rewrite <-app_assoc.
Qed.

Lemma packs_count (packs : list (list cell * ID)) :
  Forall (λ x, is_pack x.1 x.2) packs → Z.of_nat (length packs) ≤ zlen (concat packs.*1).
Proof.
  induction 1 as [|[b skip] packs Hb Hp IH]; [done|]. rewrite fmap_cons. cbn [fst snd concat length] in *.
  rewrite zlen_app. pose proof (is_pack_pos _ _ Hb). lia.
Qed.

(** The first of several packs with the identifier is found; without one the
    search ends at the end of the bytes. *)
Lemma FindChildLogs_first p sp (packs : list (list cell * ID)) b id id' more :
  Rep p sp → s_packs sp = concat packs.*1 ++ b ++ more →
  Forall (λ x, is_pack x.1 x.2) packs → Forall (λ x, cdid_eqb x.2 id = false) packs →
  is_pack b id' → cdid_eqb id' id = true → sizeof ID < 2 ^ 62 →
  FindChildLogs p id = Ok (kCommLogOK, zlen (concat packs.*1)).
Proof.
  intros (es & q & Hrep) Hs Hp Hne Hb Heq Hsz. unfold FindChildLogs.
  destruct (rep_child _ _ _ _ Hrep) as [[_ Hnil]|(rest & Hbase & Hcur & Hsize & Hmax)].
  { exfalso. rewrite Hnil in Hs. pose proof (is_pack_pos _ _ Hb) as Hpos.
    destruct (concat packs.*1), b; done. }
  pose proof (zlen_nonneg (concat packs.*1)). pose proof (zlen_nonneg more).
  pose proof (zlen_nonneg rest). pose proof (is_pack_pos _ _ Hb). pose proof (packs_count _ Hp).
  rewrite Hs in *. rewrite !zlen_app in *.
  rewrite (find_child_packs _ _ id packs (b ++ more ++ rest) []);
    [|rewrite Hbase; by rewrite <-!app_assoc|change (zlen []) with 0; lia|lia|done|done|lia|done].
  replace (S (Z.to_nat (c_cur_pos_ (child_log_ p))) - length packs)%nat
    with (S (Z.to_nat (c_cur_pos_ (child_log_ p)) - length packs)) by lia.
  rewrite (find_child_skip _ _ id id' b (more ++ rest) (concat packs.*1));
    [|rewrite Hbase; by rewrite <-!app_assoc|done|lia|lia|done|done].
  rewrite Heq, ret_bind. cbn [app]. rewrite (proj2 (Z.leb_gt _ _)) by lia. done.
Qed.

Lemma FindChildLogs_none p sp (packs : list (list cell * ID)) id :
  Rep p sp → s_packs sp = concat packs.*1 →
  Forall (λ x, is_pack x.1 x.2) packs → Forall (λ x, cdid_eqb x.2 id = false) packs →
  sizeof ID < 2 ^ 62 → FindChildLogs p id = Ok (kCommLogChildLogNotFound, 0).
Proof.
  intros (es & q & Hrep) Hs Hp Hne Hsz. unfold FindChildLogs.
  destruct (rep_child _ _ _ _ Hrep) as [[Hc Hnil]|(rest & Hbase & Hcur & Hsize & Hmax)].
  { rewrite Hc. done. }
  pose proof (zlen_nonneg (concat packs.*1)). pose proof (zlen_nonneg rest).
  pose proof (packs_count _ Hp). rewrite Hs in *.
  rewrite (find_child_packs _ _ id packs rest []);
    [|rewrite Hbase; done|change (zlen []) with 0; lia|lia|done|done|lia|done].
  replace (S (Z.to_nat (c_cur_pos_ (child_log_ p))) - length packs)%nat
    with (S (Z.to_nat (c_cur_pos_ (child_log_ p)) - length packs)) by lia.
  cbn [find_child app]. rewrite (proj2 (Z.ltb_ge _ _)) by lia. cbn [mbind res_bind].
  by rewrite (proj2 (Z.leb_le _ _)) by lia.
Qed.

(** ** Unpacking *)

#[local] Ltac u64_norm :=
  repeat match goal with
  | |- context [ u64 ?x ] =>
      lazymatch x with
      | context [ u64 _ ] => fail
      | _ => rewrite (u64_small x) by lia
      end
  end.

Lemma UnpackLogs_rep l s es q id child later :
  rep l s es q → storable (CDID_copy id) → packed_size l < 2 ^ 63 → log_table_reexec_pos_ child = 0 →
  queue_size_unit_ child = queue_size_unit_ l → table_size_unit_ child = table_size_unit_ l →
  child_log_size_unit_ child = child_log_size_unit_ l →
  ∃ child', UnpackLogs child id (Some (pack_of l id es q (s_packs s) ++ later)) = Ok (kCommLogOK, child') ∧
    Rep child' {| s_msgs := s_msgs s; s_pos := 0; s_mode := comm_log_mode_ child;
                  s_new := new_log_generated_ child; s_packs := s_packs s |}.
Proof.
  intros Hrep Hid Hmax Hpos Hu1 Hu2 Hu3.
  pose proof (packed_size_pos l s es q id Hrep) as Hps.
  pose proof (zlen_pack_of l s es q id Hrep) as Hzl.
  pose proof (rep_table _ _ _ _ Hrep) as (r1 & Hb1 & Hc1 & Hs1 & Hp1 & Hm1).
  pose proof (rep_queue _ _ _ _ Hrep) as (r2 & Hb2 & Hc2 & Hs2 & Hm2).
  pose proof (child_rep_cur _ _ (rep_child _ _ _ _ Hrep)) as Hc3.
  assert (0 ≤ c_size_ (child_log_ l) < 2 ^ 63 ∧ zlen (s_packs s) ≤ c_size_ (child_log_ l)) as [Hs3 Hs3'].
  { destruct (rep_child _ _ _ _ Hrep) as [[-> ->]|(r3 & _ & _ & Hs3 & Hm3)]; [done|].
    pose proof (zlen_nonneg r3). pose proof (zlen_nonneg (s_packs s)). lia. }
  assert (ELEM = 56) as HE by reflexivity.
  pose proof (zlen_nonneg es). pose proof (zlen_nonneg q). pose proof (zlen_nonneg (s_packs s)).
  pose proof (zlen_nonneg r1). pose proof (zlen_nonneg r2). pose proof (sizeof_nonneg id).
  assert (pack_length (ColorT := ColorT) (GroupT := GroupT) l = packed_size l) as Hlen
    by (unfold pack_length; apply u64_small; unfold packed_size in *; lia).
  unfold packed_size in Hps, Hmax, Hzl. rewrite SIZE_eq, META_eq, HE, Hc1, Hc2, Hc3 in *.
  unfold UnpackLogs. cbv zeta. rewrite SIZE_eq, META_eq, HE.
  unfold pack_of. rewrite Hlen. unfold packed_size. rewrite SIZE_eq, META_eq, HE, Hc1, Hc2, Hc3.
  set (n := 8 + sizeof ID + 24 + 56 * zlen es + 24 + zlen q + 24 + zlen (s_packs s)) in *.
  set (A := to_bytes (UInt n : uint64_t)). set (B := to_bytes (CDID_copy id)).
  set (C := to_bytes (table_meta (log_table_ l))). set (D := array_bytes es).
  set (E := to_bytes (queue_meta (log_queue_ l))). set (G := to_bytes (child_meta (child_log_ l))).
  assert (zlen A = 8) as HA by (unfold A; by rewrite zlen_to_bytes, sizeof_uint64).
  assert (zlen B = sizeof ID) as HB by (unfold B; by rewrite zlen_to_bytes).
  assert (zlen C = 24) as HC by (unfold C; by rewrite zlen_to_bytes, sizeof_meta).
  assert (zlen D = 56 * zlen es) as HD by (unfold D; by rewrite zlen_array_bytes, sizeof_element, HE).
  assert (zlen E = 24) as HEE by (unfold E; by rewrite zlen_to_bytes, sizeof_meta).
  assert (zlen G = 24) as HG by (unfold G; by rewrite zlen_to_bytes, sizeof_meta).
  set (src := (A ++ B ++ C ++ D ++ E ++ q ++ G ++ s_packs s) ++ later).
  rewrite (load_at_eq src [] (B ++ C ++ D ++ E ++ q ++ G ++ s_packs s ++ later) (UInt n : uint64_t));
    [|unfold src; by rewrite <-!app_assoc|done|apply uint64_storable; lia].
  rewrite ret_bind.
  rewrite (load_at_eq src A (C ++ D ++ E ++ q ++ G ++ s_packs s ++ later) (CDID_copy id));
    [|unfold src; by rewrite <-!app_assoc|done|done].
  rewrite ret_bind. rewrite (CDID_copy_same id). cbn [negb]. u64_norm.
  rewrite (load_at_eq src (A ++ B) (D ++ E ++ q ++ G ++ s_packs s ++ later) (table_meta (log_table_ l)));
    [|unfold src; by rewrite <-!app_assoc|rewrite zlen_app; lia|apply meta_storable; lia].
  rewrite ret_bind. cbn [table_meta m_fst m_snd]. rewrite Hc1. u64_norm.
  rewrite new_array_Ok by lia. rewrite ret_bind.
  rewrite (slice_eq src (A ++ B ++ C) D (E ++ q ++ G ++ s_packs s ++ later));
    [|unfold src; by rewrite <-!app_assoc|rewrite !zlen_app; lia|lia].
  rewrite ret_bind. rewrite to_nat_zlen. unfold D at 1.
  rewrite load_entries_array by apply Hrep.
  destruct (grow_rep (Some <$> es) [] (t_table_size_ (log_table_ l)) None) as (r1' & Hg1 & Hn1).
  { rewrite app_nil_r, zlen_fmap. lia. }
  rewrite app_nil_r in Hg1. rewrite Hg1, ret_bind.
  rewrite (load_at_eq src (A ++ B ++ C ++ D) (q ++ G ++ s_packs s ++ later) (queue_meta (log_queue_ l)));
    [|unfold src; by rewrite <-!app_assoc|rewrite !zlen_app; lia|apply meta_storable; lia].
  rewrite ret_bind. cbn [queue_meta m_fst m_snd]. rewrite Hc2. u64_norm.
  rewrite new_array_Ok by lia. rewrite ret_bind.
  rewrite (slice_eq src (A ++ B ++ C ++ D ++ E) q (G ++ s_packs s ++ later));
    [|unfold src; by rewrite <-!app_assoc|rewrite !zlen_app; lia|done].
  rewrite ret_bind.
  destruct (grow_rep q [] (q_queue_size_ (log_queue_ l)) None) as (r2' & Hg2 & Hn2).
  { rewrite app_nil_r. lia. }
  rewrite app_nil_r in Hg2. rewrite Hg2, ret_bind.
  rewrite (load_at_eq src (A ++ B ++ C ++ D ++ E ++ q) (s_packs s ++ later) (child_meta (child_log_ l)));
    [|unfold src; by rewrite <-!app_assoc|rewrite !zlen_app; lia|apply meta_storable; lia].
  rewrite ret_bind. cbn [child_meta m_fst m_snd]. rewrite Hc3. u64_norm.
  rewrite new_array_Ok by lia. rewrite ret_bind.
  rewrite (slice_eq src (A ++ B ++ C ++ D ++ E ++ q ++ G) (s_packs s) later);
    [|unfold src; by rewrite <-!app_assoc|rewrite !zlen_app; lia|done].
  rewrite ret_bind.
  destruct (grow_rep (s_packs s) [] (c_size_ (child_log_ l)) None) as (r3' & Hg3 & Hn3).
  { rewrite app_nil_r. lia. }
  rewrite app_nil_r in Hg3. rewrite Hg3, ret_bind.
  cbn [uval]. rewrite (proj2 (Z.eqb_eq _ n)) by (unfold n; lia). cbn [negb].
  eexists. split; [reflexivity|]. exists es, q. rewrite zlen_fmap in Hn1.
  pose proof (rep_units _ _ _ _ Hrep) as (?&?&?&?).
  split; try apply Hrep; try done.
  - exists r1'. cbn -[ELEM]. rewrite ?HE. split_and!; [reflexivity|reflexivity|lia|lia|lia].
  - exists r2'. cbn. split_and!; [reflexivity|reflexivity|lia|lia].
  - right. exists r3'. cbn. split_and!; [reflexivity|reflexivity|lia|lia].
  - cbn -[ELEM]. rewrite Hu1, Hu2, Hu3, HE. lia.
Qed.

(** A log into which the pack of [l] can be unpacked: nothing has been read
    from it, and it has the units of [l], as all logs of the runtime have. *)
Definition unpackable (l child : CommLog) : Prop :=
  log_table_reexec_pos_ child = 0 ∧ queue_size_unit_ child = queue_size_unit_ l ∧
  table_size_unit_ child = table_size_unit_ l ∧ child_log_size_unit_ child = child_log_size_unit_ l.

(** The messages and packs of [s], in the mode of the log they are unpacked into. *)
Definition unpacked (s : Spec) (child : CommLog) : Spec :=
  {| s_msgs := s_msgs s; s_pos := 0; s_mode := comm_log_mode_ child;
     s_new := new_log_generated_ child; s_packs := s_packs s |}.

Lemma pack_of_is_pack l s es q id :
  rep l s es q → storable (CDID_copy id) → packed_size l < 2 ^ 63 →
  is_pack (pack_of l id es q (s_packs s)) (CDID_copy id).
Proof.
  intros Hrep Hid Hmax. pose proof (zlen_pack_of l s es q id Hrep) as Hz.
  pose proof (packed_size_pos l s es q id Hrep).
  eexists. rewrite Hz. split; [|done]. unfold pack_of.
  assert (pack_length (ColorT := ColorT) (GroupT := GroupT) l = packed_size l) as ->
    by (unfold pack_length; apply u64_small; unfold packed_size in *; lia).
  reflexivity.
Qed.

(** Unpacking from a parent whose first pack for [id] is that of [l]. *)
Lemma unpack_first l s es q id p sp (packs : list (list cell * ID)) more child :
  rep l s es q → Rep p sp → s_packs sp = concat packs.*1 ++ pack_of l id es q (s_packs s) ++ more →
  Forall (λ x, is_pack x.1 x.2) packs → Forall (λ x, cdid_eqb x.2 id = false) packs →
  storable (CDID_copy id) → sizeof ID < 2 ^ 62 → packed_size l < 2 ^ 63 → unpackable l child →
  ∃ child', UnpackLogsToChildCD p id child = Ok (kCommLogOK, child') ∧ Rep child' (unpacked s child).
Proof.
  intros Hrep HR Hs Hp Hne Hid Hsz Hmax (Hu0 & Hu1 & Hu2 & Hu3).
  unfold UnpackLogsToChildCD.
  rewrite (FindChildLogs_first p sp packs _ id (CDID_copy id) more HR Hs Hp Hne);
    [|by apply (pack_of_is_pack l s)|apply CDID_copy_same|done].
  rewrite ret_bind. rewrite bool_decide_eq_true_2 by done. cbn [negb].
  destruct HR as (esp & qp & HRp).
  destruct (rep_child _ _ _ _ HRp) as [[_ Hnil]|(rest & Hbase & _)].
  { exfalso. rewrite Hs in Hnil. apply (f_equal zlen) in Hnil. rewrite !zlen_app in Hnil.
    rewrite (zlen_pack_of l s es q id Hrep) in Hnil. change (zlen []) with 0 in Hnil.
    pose proof (packed_size_pos l s es q id Hrep).
    pose proof (zlen_nonneg more). pose proof (zlen_nonneg (concat packs.*1)). lia. }
  rewrite Hbase, Hs. cbn [fmap option_fmap option_map]. rewrite <-!app_assoc, drop_zlen_app.
  destruct (UnpackLogs_rep l s es q id child (more ++ rest)) as (child' & -> & HR'); try done.
  rewrite ret_bind. by exists child'.
Qed.

(** Packing, and unpacking into a log the child is created with. *)
Lemma pack_unpack_rep l s id p sp (packs : list (list cell * ID)) child :
  Rep l s → Rep p sp → s_packs sp = concat packs.*1 →
  Forall (λ x, is_pack x.1 x.2) packs → Forall (λ x, cdid_eqb x.2 id = false) packs →
  storable (CDID_copy id) → sizeof ID < 2 ^ 62 →
  zlen (s_packs sp) + packed_size l + child_log_size_unit_ p < 2 ^ 63 → unpackable l child →
  ∃ p' child', PackAndPushLogs l id p = Ok (kCommLogOK, p') ∧
    (∃ ps, Rep p' (with_packs ps sp)) ∧
    UnpackLogsToChildCD p' id child = Ok (kCommLogOK, child') ∧ Rep child' (unpacked s child).
Proof.
  intros (es & q & Hrep) HRp Hs Hp Hne Hid Hsz Hmax Hu.
  destruct (PackAndPushLogs_rep l s es q id p sp Hrep HRp Hmax) as (p' & Hpush & HR').
  destruct HRp as (esp & qp & Hpp). pose proof (rep_units _ _ _ _ Hpp) as (_ & _ & _ & Hup).
  pose proof (zlen_nonneg (s_packs sp)).
  destruct (unpack_first l s es q id p' _ packs [] child Hrep HR') as (child' & Hun & HRc); try done.
  { cbn [s_packs with_packs]. by rewrite Hs, app_nil_r. } { lia. }
  exists p', child'. split; [done|]. split; [by eexists|]. done.
Qed.

(** C19: packing and unpacking round-trips: the log a completed child pushed to
    its parent is the log the child gets back when the parent is executed
    again: the same messages and the same packs of its own children, read from
    the start, whatever packs of other domains the parent holds; the parent's
    own messages are untouched, and the bytes grow as needed. *)
Theorem pack_unpack l s id p sp (packs : list (list cell * ID)) child :
  Rep l s → Rep p sp → s_packs sp = concat packs.*1 →
  Forall (λ x, is_pack x.1 x.2) packs → Forall (λ x, cdid_eqb x.2 id = false) packs →
  storable (CDID_copy id) → sizeof ID < 2 ^ 62 →
  zlen (s_packs sp) + packed_size l + child_log_size_unit_ p < 2 ^ 63 → unpackable l child →
  ∃ p' child', PackAndPushLogs l id p = Ok (kCommLogOK, p') ∧
    (∃ ps, Rep p' (with_packs ps sp)) ∧
    UnpackLogsToChildCD p' id child = Ok (kCommLogOK, child') ∧ Rep child' (unpacked s child).
Proof. apply pack_unpack_rep. Qed.

(** A child that is completed twice under one identifier, as when its
    parent's replay ends inside it and it goes on logging, leaves two packs in
    the parent, and the next replay gets the older one: the messages logged
    since are not replayed. *)
Theorem unpack_finds_older l1 s1 l2 s2 id p sp (packs : list (list cell * ID)) child :
  Rep l1 s1 → Rep l2 s2 → Rep p sp → s_packs sp = concat packs.*1 →
  Forall (λ x, is_pack x.1 x.2) packs → Forall (λ x, cdid_eqb x.2 id = false) packs →
  storable (CDID_copy id) → sizeof ID < 2 ^ 62 →
  zlen (s_packs sp) + packed_size l1 + packed_size l2 + child_log_size_unit_ p < 2 ^ 63 →
  unpackable l1 child →
  ∃ p1 p2 child', PackAndPushLogs l1 id p = Ok (kCommLogOK, p1) ∧
    PackAndPushLogs l2 id p1 = Ok (kCommLogOK, p2) ∧
    UnpackLogsToChildCD p2 id child = Ok (kCommLogOK, child') ∧ Rep child' (unpacked s1 child).
Proof.
  intros (es1 & q1 & H1) (es2 & q2 & H2) HRp Hs Hp Hne Hid Hsz Hmax Hu.
  pose proof (packed_size_pos l1 s1 es1 q1 id H1). pose proof (packed_size_pos l2 s2 es2 q2 id H2).
  pose proof (zlen_nonneg (s_packs sp)).
  destruct (PackAndPushLogs_rep l1 s1 es1 q1 id p sp H1 HRp) as (p1 & Hpush1 & HR1); [lia|].
  assert (child_log_size_unit_ p1 = child_log_size_unit_ p) as Hunit.
  { unfold PackAndPushLogs in Hpush1.
    destruct HRp as (esp & qp & Hpp). pose proof (rep_units _ _ _ _ Hpp) as (_ & _ & _ & Hup).
    destruct (CheckChildLogAlloc_rep p (s_packs sp) (pack_length (ColorT := ColorT) (GroupT := GroupT) l1))
      as (c & Hc & _); [apply Hpp|apply u64_range|done| |].
    { unfold pack_length. rewrite u64_small; unfold packed_size in *; lia. }
    rewrite Hc, ret_bind in Hpush1. apply bind_Ok in Hpush1 as ([r o] & Hpk & Hpush1).
    unfold PackLogs in Hpk. res_inv. cbn [default]. reflexivity. }
  destruct (PackAndPushLogs_rep l2 s2 es2 q2 id p1 _ H2 HR1) as (p2 & Hpush2 & HR2).
  { cbn [s_packs with_packs]. rewrite zlen_app, (zlen_pack_of l1 s1 es1 q1 id H1), Hunit. lia. }
  destruct HRp as (esp & qp & Hpp). pose proof (rep_units _ _ _ _ Hpp) as (_ & _ & _ & Hup).
  destruct (unpack_first l1 s1 es1 q1 id p2 _ packs (pack_of l2 id es2 q2 (s_packs s2)) child H1 HR2)
    as (child' & Hun & HRc); try done.
  { cbn [s_packs with_packs]. by rewrite Hs, <-app_assoc. } { lia. }
  exists p1, p2, child'. done.
Qed.
End packs.

(** ** A parent, and a child named by 32-bit handles *)

Definition ex_id : CDID uint32_t uint32_t :=
  CDID_new (CDNameT_new 2 0 3 4) (NodeID_new (UInt 5) (UInt 6) 1 0 2).

Definition ex_parent : CommLog := get ex_null (CommLog_new kGenerateLog 4 1 16).

Lemma ex_parent_rep : Rep ex_parent (spec_empty kGenerateLog).
Proof.
  destruct (CommLog_new_rep 4 1 16) as (l & Hl & HR & _).
  { unfold units_ok. change ELEM with 56. lia. }
  unfold ex_parent. by rewrite Hl.
Qed.

Lemma ex_id_storable : storable (CDID_copy ex_id).
Proof. vm_compute. repeat split; discriminate. Qed.

Lemma pack_unpack_witness :
  ∃ p' child', PackAndPushLogs ex_reuse_log ex_id ex_parent = Ok (kCommLogOK, p') ∧
    (∃ ps, Rep p' (with_packs ps (spec_empty kGenerateLog))) ∧
    UnpackLogsToChildCD p' ex_id ex_null = Ok (kCommLogOK, child') ∧
    Rep child' (unpacked ex_reuse_spec ex_null).
Proof.
  apply (pack_unpack ex_reuse_log ex_reuse_spec ex_id ex_parent (spec_empty kGenerateLog) [] ex_null).
  - exact ex_reuse_rep.
  - exact ex_parent_rep.
  - reflexivity.
  - constructor.
  - constructor.
  - exact ex_id_storable.
  - vm_compute. reflexivity.
  - vm_compute. reflexivity.
  - vm_compute. repeat split.
Defined.

Lemma unpack_finds_older_witness :
  ∃ p1 p2 child', PackAndPushLogs ex_replaying ex_id ex_parent = Ok (kCommLogOK, p1) ∧
    PackAndPushLogs ex_reuse_log ex_id p1 = Ok (kCommLogOK, p2) ∧
    UnpackLogsToChildCD p2 ex_id ex_null = Ok (kCommLogOK, child') ∧
    Rep child' (unpacked ex_replaying_spec ex_null).
Proof.
  apply (unpack_finds_older ex_replaying ex_replaying_spec ex_reuse_log ex_reuse_spec ex_id
    ex_parent (spec_empty kGenerateLog) [] ex_null).
  - exact ex_replaying_rep.
  - exact ex_reuse_rep.
  - exact ex_parent_rep.
  - reflexivity.
  - constructor.
  - constructor.
  - exact ex_id_storable.
  - vm_compute. reflexivity.
  - vm_compute. reflexivity.
  - vm_compute. repeat split.
Defined.
