(* ===== verification/Memory.v ===== *)
(** * The memory of a task

    The bytes of the application's buffers, by address.  MPI and the runtime
    read and write them through pointers; a byte nobody has stored is
    indeterminate. *)

From Stdlib Require Import ZArith Lia.
From stdpp Require Import base gmap list list_numbers numbers.
From S2P Require Import Prelude Layout.

#[global] Abbreviation mem := (gmap Z Z).

Definition mread (m : mem) (a n : Z) : list cell := (λ i, m !! (a + i)) <$> seqZ 0 n.

Fixpoint mwrite (m : mem) (a : Z) (bs : list cell) : mem :=
  match bs with
  | [] => m
  | b :: bs => mwrite (partial_alter (λ _, b) a m) (a + 1) bs
  end.

(** An [int] in memory. *)
Definition mint (m : mem) (a : Z) : res Z := v ← load_at sint (Some (mread m a 4)) 0; Ok (sval v).

Lemma zlen_mread m a n : 0 ≤ n → zlen (mread m a n) = n.
Proof. intros. unfold mread, zlen. rewrite length_fmap, length_seqZ. lia. Qed.

Lemma mread_nil m a : mread m a 0 = [].
Proof. done. Qed.

Lemma lookup_mwrite m a bs i :
  mwrite m a bs !! i =
  if decide (a ≤ i < a + zlen bs) then mjoin (bs !! Z.to_nat (i - a)) else m !! i.
Proof.
  revert m a. induction bs as [|b bs IH]; intros m a; cbn [mwrite].
  - rewrite decide_False; [done|]. change (zlen []) with 0. lia.
  - rewrite IH, zlen_cons. pose proof (zlen_nonneg bs).
    destruct (decide (i = a)) as [->|Hne].
    + rewrite decide_False by lia. rewrite decide_True by lia.
      rewrite Z.sub_diag. change (mjoin ((b :: bs) !! Z.to_nat 0)) with b.
      apply lookup_partial_alter_eq.
    + rewrite lookup_partial_alter_ne by done.
      destruct (decide (a ≤ i < a + (zlen bs + 1))) as [Hin|Hout].
      * rewrite decide_True by lia.
        replace (Z.to_nat (i - a)) with (S (Z.to_nat (i - (a + 1)))) by lia. done.
      * by rewrite decide_False by lia.
Qed.

Lemma lookup_mread m a n i :
  (i < Z.to_nat n)%nat → mread m a n !! i = Some (m !! (a + Z.of_nat i)).
Proof.
  intros Hi. unfold mread. rewrite list_lookup_fmap, lookup_seqZ_lt by lia. simpl. do 3 f_equal; lia.
Qed.

(** Two memories that agree outside of [n] bytes at [a]. *)
Definition same_outside (a n : Z) (m m' : mem) : Prop := ∀ i, ¬ (a ≤ i < a + n) → m' !! i = m !! i.

(** Copying the bytes where they may differ makes the memories equal. *)
Lemma mwrite_mread a n m m' : 0 ≤ n → same_outside a n m m' → mwrite m a (mread m' a n) = m'.
Proof.
  intros Hn Hs. apply map_eq. intros i. rewrite lookup_mwrite, zlen_mread by done.
  destruct (decide (a ≤ i < a + n)) as [Hi|Hi]; [|symmetry; by apply Hs].
  rewrite lookup_mread by lia. simpl. f_equal. lia.
Qed.

Lemma mwrite_mread_same a n m : 0 ≤ n → mwrite m a (mread m a n) = m.
Proof. intros. by apply mwrite_mread. Qed.

Lemma same_outside_nil a m m' : same_outside a 0 m m' → m' = m.
Proof. intros Hs. apply map_eq. intros i. apply Hs. lia. Qed.
