(* ===== verification/CdLog.v ===== *)
(** * The communication log as part of a domain

    The members of [src/src/cd_internal.cc] that tie the communication log to
    a containment domain: its creation (InternalInitialize), the unpacking at
    Begin, the completion of the log at Complete and at a rollback
    (CompleteLogs), the switch to replay at a re-execution (InternalReexecute)
    and the operations the MPI wrappers call (LogData, ReadData, ProbeData,
    ProbeAndLogData, the list of incomplete operations).

    The domains of a task are a list, the innermost first: the parent of a
    domain is the next one ([CDPath] holds them the other way round). *)

From Stdlib Require Import ZArith Lia.
From stdpp Require Import base gmap list numbers.
From S2P Require Import Prelude Layout Ids CommLog Memory.

(** ** Data *)

Definition kStrict : Z := 1.
Definition kRelaxed : Z := 2.
Definition MASK_CDTYPE (X : Z) : Z := Z.land X 3.

Inductive CDLoggingMode := kOutOfCD | kStrictCD | kRelaxedCDGen | kRelaxedCDRead | kInvalidLoggingMode.

Inductive CDExecMode := kExecution | kReexecution | kSuspension.

#[export] Instance CDExecMode_eq_dec : EqDecision CDExecMode.
Proof. solve_decision. Defined.

Section cdlog.
Context {ColorT GroupT : Type} `{EqDecision ColorT} `{Layout ColorT} `{Layout GroupT}.
#[local] Abbreviation ID := (CDID ColorT GroupT).

(** A non-blocking operation nobody has waited for; [p_], [pushed_] and
    [level_] are not used by the functions here. *)
Record IncompleteLogEntry := {
  i_addr_ : Z;
  i_length_ : Z;
  i_taskID_ : Z;
  i_tag_ : Z;
  i_comm_ : ColorT;
  i_flag_ : Z;               (** the address of the request *)
  i_complete_ : bool;
  i_isrecv_ : bool;
  i_intra_cd_msg_ : bool;
}.

Record CD := {
  cd_id_ : ID;
  cd_type_ : Z;
  cd_exec_mode_ : CDExecMode;
  cd_logging_mode_ : CDLoggingMode;
  comm_log_ptr_ : option CommLog;
  incomplete_log_ : list IncompleteLogEntry;
  child_seq_id_ : Z;
}.

Definition with_id (i : ID) (c : CD) : CD :=
  {| cd_id_ := i; cd_type_ := cd_type_ c; cd_exec_mode_ := cd_exec_mode_ c;
     cd_logging_mode_ := cd_logging_mode_ c; comm_log_ptr_ := comm_log_ptr_ c;
     incomplete_log_ := incomplete_log_ c; child_seq_id_ := child_seq_id_ c |}.
Definition SetCDLoggingMode (m : CDLoggingMode) (c : CD) : CD :=
  {| cd_id_ := cd_id_ c; cd_type_ := cd_type_ c; cd_exec_mode_ := cd_exec_mode_ c;
     cd_logging_mode_ := m; comm_log_ptr_ := comm_log_ptr_ c;
     incomplete_log_ := incomplete_log_ c; child_seq_id_ := child_seq_id_ c |}.
Definition with_log (l : CommLog) (c : CD) : CD :=
  {| cd_id_ := cd_id_ c; cd_type_ := cd_type_ c; cd_exec_mode_ := cd_exec_mode_ c;
     cd_logging_mode_ := cd_logging_mode_ c; comm_log_ptr_ := Some l;
     incomplete_log_ := incomplete_log_ c; child_seq_id_ := child_seq_id_ c |}.
Definition with_incomplete (i : list IncompleteLogEntry) (c : CD) : CD :=
  {| cd_id_ := cd_id_ c; cd_type_ := cd_type_ c; cd_exec_mode_ := cd_exec_mode_ c;
     cd_logging_mode_ := cd_logging_mode_ c; comm_log_ptr_ := comm_log_ptr_ c;
     incomplete_log_ := i; child_seq_id_ := child_seq_id_ c |}.
Definition with_seq (n : Z) (c : CD) : CD :=
  {| cd_id_ := cd_id_ c; cd_type_ := cd_type_ c; cd_exec_mode_ := cd_exec_mode_ c;
     cd_logging_mode_ := cd_logging_mode_ c; comm_log_ptr_ := comm_log_ptr_ c;
     incomplete_log_ := incomplete_log_ c; child_seq_id_ := n |}.

(** A member called through a null [comm_log_ptr_]. *)
Definition log_of (c : CD) : res CommLog :=
  match comm_log_ptr_ c with Some l => Ok l | None => Err OutOfBounds end.

Definition is_relaxed (c : CD) : bool := MASK_CDTYPE (cd_type_ c) =? kRelaxed.

(** ** The incomplete operations *)

Definition find_incomplete (flag : Z) (l : list IncompleteLogEntry) : option (nat * IncompleteLogEntry) :=
  list_find (λ e, i_flag_ e = flag) l.

Definition IsSend (c : CD) (flag : Z) : bool :=
  match find_incomplete flag (incomplete_log_ c) with
  | Some (_, e) => negb (i_isrecv_ e)
  | None => false
  end.

Definition DeleteIncompleteLog (c : CD) (flag : Z) : bool * CD :=
  match find_incomplete flag (incomplete_log_ c) with
  | Some (i, _) => (true, with_incomplete (delete i (incomplete_log_ c)) c)
  | None => (false, c)
  end.

(** ** Logging and reading *)

(** A buffer of the application, as long as it is read here. *)
Definition buffer_at (m : mem) (a n : Z) : buffer := {| b_addr := a; b_bytes := Some (mread m a n) |}.

(** [CommLog::LogData] with the entry it adds to the domain's incomplete
    operations; a repeated message returns before that.  [ERROR_MESSAGE]
    asserts. *)
Definition CD_LogData (c : CD) (m : mem) (data_ptr length task_id : Z) (completed : bool) (flag : Z)
    (isrecv isrepeated intra_cd_msg : bool) (tag : Z) (comm : ColorT) : res (CommLogErrT * CD) :=
  match comm_log_ptr_ c with
  | None => Err AssertFail
  | Some l =>
      found ← (if isrepeated then FoundRepeatedEntry l length completed flag else Ok false);
      '(ret, l) ← LogData l (buffer_at m data_ptr length) length task_id completed flag isrepeated;
      let c := with_log l c in
      if negb completed && negb found then
        Ok (ret, with_incomplete
          (incomplete_log_ c ++
             [{| i_addr_ := data_ptr; i_length_ := length; i_taskID_ := task_id; i_tag_ := u32 tag;
                 i_comm_ := comm; i_flag_ := flag; i_complete_ := false; i_isrecv_ := isrecv;
                 i_intra_cd_msg_ := intra_cd_msg |}]) c)
      else Ok (ret, c)
  end.

(** The bytes that are read go to [data_ptr]. *)
Definition CD_ReadData (c : CD) (m : mem) (data_ptr length : Z) : res (CommLogErrT * mem * CD) :=
  match comm_log_ptr_ c with
  | None => Err AssertFail
  | Some l =>
      '(ret, data, l) ← ReadData l length;
      let c := with_log l c in
      let c := if bool_decide (ret = kCommLogCommLogModeFlip) then SetCDLoggingMode kRelaxedCDGen c else c in
      Ok (ret, mwrite m data_ptr data, c)
  end.

Definition CD_ProbeData (c : CD) (length : Z) : res (CommLogErrT * CD) :=
  match comm_log_ptr_ c with
  | None => Err AssertFail
  | Some l =>
      '(ret, l) ← ProbeData l length;
      let c := with_log l c in
      Ok (ret, if bool_decide (ret = kCommLogCommLogModeFlip) then SetCDLoggingMode kRelaxedCDGen c else c)
  end.

(** ** Completing an operation *)

(** The entry with the flag in the innermost domain that has one. *)
Fixpoint find_up (flag : Z) (path : list CD) : option (nat * nat * IncompleteLogEntry) :=
  match path with
  | [] => None
  | c :: ps =>
      match find_incomplete flag (incomplete_log_ c) with
      | Some (i, e) => Some (0%nat, i, e)
      | None => (λ '(k, i, e), (S k, i, e)) <$> find_up flag ps
      end
  end.

(** The ancestors, while they are relaxed: the packed log of a completed
    descendant may hold the entry. *)
Fixpoint probe_parents (m : mem) (ps : list CD) (e : IncompleteLogEntry) (flag : Z) : res (list CD) :=
  match ps with
  | [] => Ok []
  | p :: ps =>
      if is_relaxed p then
        l ← log_of p;
        '(found, l) ← ProbeAndLogDataPacked (ColorT := ColorT) (GroupT := GroupT) l
                        (buffer_at m (i_addr_ e) (i_length_ e)) (i_length_ e) flag;
        if found : bool then Ok (with_log l p :: ps)
        else ps ← probe_parents m ps e flag; Ok (with_log l p :: ps)
      else Ok (p :: ps)
  end.

(** The wait itself is logged as an event of length 0 by the domain that waits. *)
Definition CD_ProbeAndLogData (m : mem) (path : list CD) (flag : Z) (comm_null : ColorT) : res (list CD) :=
  match path with
  | [] => Err OutOfBounds
  | c :: ps =>
      let r := find_up flag path in
      path ← match comm_log_ptr_ c, r with
             | Some l, Some (_, _, e) =>
                 path ← (if i_intra_cd_msg_ e then Ok path
                         else
                           '(found, l) ← ProbeAndLogData l (buffer_at m (i_addr_ e) (i_length_ e)) (i_length_ e) flag;
                           if found : bool then Ok (with_log l c :: ps)
                           else ps ← probe_parents m ps e flag; Ok (with_log l c :: ps));
                 match path with
                 | [] => Err OutOfBounds
                 | c :: ps =>
                     '(_, c) ← CD_LogData c m flag 0 (i_taskID_ e) true 0 false false false (-1) comm_null;
                     Ok (c :: ps)
                 end
             | Some _, None => Err AssertFail
             | None, _ => Ok path
             end;
      match r with
      | Some (k, i, _) => Ok (alter (λ p, with_incomplete (delete i (incomplete_log_ p)) p) k path)
      | None => Ok path
      end
  end.

(** ** Creation *)

(** Initialize and InternalInitialize: [Init] and the log of the new domain;
    [MASK_CDTYPE(cd_type_)] decides whether it has one. *)
Definition InternalInitialize (parent : option CD) (id : ID) (cd_type : Z) : res CD :=
  let c := {| cd_id_ := id; cd_type_ := cd_type; cd_exec_mode_ := kSuspension;
              cd_logging_mode_ := kInvalidLoggingMode; comm_log_ptr_ := None; incomplete_log_ := [];
              child_seq_id_ := 0 |} in
  match parent with
  | Some p =>
      c ← (if is_relaxed c then
             if is_relaxed p then
               lp ← log_of p;
               let parent_log_mode := comm_log_mode_ lp in
               l ← CommLog_default parent_log_mode;
               Ok (SetCDLoggingMode (if bool_decide (parent_log_mode = kGenerateLog)
                                     then kRelaxedCDGen else kRelaxedCDRead) (with_log l c))
             else l ← CommLog_default kGenerateLog; Ok (SetCDLoggingMode kRelaxedCDGen (with_log l c))
           else Ok (SetCDLoggingMode kStrictCD c));
      Ok (with_id (SetSequentialID (cd_id_ c) 0) c)
  | None =>
      if is_relaxed c
      then l ← CommLog_default kGenerateLog; Ok (SetCDLoggingMode kRelaxedCDGen (with_log l c))
      else Ok (SetCDLoggingMode kStrictCD c)
  end.

(** ** Begin *)

(** A relaxed child of a relaxed parent in replay gets its log back. *)
Definition Begin_log (path : list CD) : res (list CD) :=
  match path with
  | c :: p :: ps =>
      if is_relaxed p && is_relaxed c then
        lp ← log_of p;
        if bool_decide (comm_log_mode_ lp = kReplayLog) then
          l ← log_of c;
          '(ret, l) ← UnpackLogsToChildCD lp (cd_id_ c) (set_mode kReplayLog l);
          l ← (if bool_decide (ret = kCommLogChildLogNotFound) then '(_, l) ← Realloc l; Ok l else Ok l);
          Ok (with_log l c :: p :: ps)
        else Ok path
      else Ok path
  | _ => Ok path
  end.

(** The end of Begin, outside of a rollback. *)
Definition Begin_mode (c : CD) : CD :=
  {| cd_id_ := cd_id_ c; cd_type_ := cd_type_ c;
     cd_exec_mode_ := match cd_exec_mode_ c with kReexecution => kReexecution | _ => kExecution end;
     cd_logging_mode_ := cd_logging_mode_ c; comm_log_ptr_ := comm_log_ptr_ c;
     incomplete_log_ := incomplete_log_ c; child_seq_id_ := child_seq_id_ c |}.

(** ** Complete and rollback *)

Section mpi.
Context {World : Type}.
(** What MPI does for the runtime: [PMPI_Test] on the request at an address
    (done or not), [PMPI_Cancel] with [PMPI_Test_cancelled] (cancelled or not),
    and a blocking [PMPI_Probe]; whether a request is null is its value. *)
Variable pmpi_test : Z → mem → World → bool * mem * World.
Variable pmpi_cancel : Z → mem → World → bool * mem * World.
Variable pmpi_probe : IncompleteLogEntry → World → World.
Variable request_null : mem → Z → bool.

(** One pass over the list that erases the entries that are done. *)
Fixpoint sweep (step : Z → mem → World → bool * mem * World) (l : list IncompleteLogEntry) (m : mem) (w : World) :
    list IncompleteLogEntry * mem * World :=
  match l with
  | [] => ([], m, w)
  | e :: l =>
      let '(done, m, w) := step (i_flag_ e) m w in
      let '(l, m, w) := sweep step l m w in
      (if done then l else e :: l, m, w)
  end.

(** [while(size > 0) { pass; if (iters++ > 1000000) break; }] *)
Fixpoint sweeps (n : nat) (step : Z → mem → World → bool * mem * World) (l : list IncompleteLogEntry)
    (m : mem) (w : World) : list IncompleteLogEntry * mem * World :=
  match n, l with
  | O, _ | _, [] => (l, m, w)
  | S n, _ => let '(l, m, w) := sweep step l m w in sweeps n step l m w
  end.

Definition ITERS : Z := 1000002.

Definition InvalidateIncompleteLogs (c : CD) (m : mem) (w : World) : CD * mem * World :=
  let first f m w := if request_null m f then (true, m, w) else pmpi_test f m w in
  let test f m w := let '(d, m, w) := pmpi_test f m w in (d || request_null m f, m, w) in
  let cancel f m w := let '(d, m, w) := pmpi_cancel f m w in (d || request_null m f, m, w) in
  let '(l, m, w) := sweep first (incomplete_log_ c) m w in
  let '(l, m, w) := sweeps (Z.to_nat ITERS) test l m w in
  let '(l, m, w) := sweeps (Z.to_nat ITERS) cancel l m w in
  let '(l, m, w) := sweep (λ _ m w, (true, m, w)) l m w in
  (with_incomplete l c, m, w).

Definition ProbeIncompleteLogs (c : CD) (w : World) : World :=
  foldl (λ w e, pmpi_probe e w) w (incomplete_log_ c).

(** Packing into the parent's log, and what the parent's log is set to. *)
Definition push_logs (c p : CD) : res CD :=
  l ← log_of c;
  if new_log_generated_ l && is_relaxed p then
    lp ← log_of p;
    '(_, lp) ← PackAndPushLogs l (cd_id_ c) lp;
    let lp := set_new true lp in
    Ok (with_log (if bool_decide (comm_log_mode_ l = kGenerateLog) then set_mode kGenerateLog lp else lp) p)
  else Ok p.

Definition CompleteLogs (is_rollback : bool) (path : list CD) (m : mem) (w : World) :
    res (list CD * mem * World) :=
  match path with
  | c :: p :: ps =>
      if is_relaxed c then
        p ← push_logs c p;
        l ← log_of c;
        let c := with_log (Reset l) c in
        match cd_exec_mode_ c with
        | kExecution =>
            Ok (with_incomplete [] c :: with_incomplete (incomplete_log_ p ++ incomplete_log_ c) p :: ps, m, w)
        | kReexecution => Ok (c :: p :: ps, m, ProbeIncompleteLogs c w)
        | kSuspension =>
            if is_rollback then Ok (c :: p :: ps, m, ProbeIncompleteLogs c w) else Err AssertFail
        end
      else if MASK_CDTYPE (cd_type_ c) =? kStrict then
        if bool_decide (cd_exec_mode_ c = kReexecution) || is_rollback then
          let '(c, m, w) := InvalidateIncompleteLogs c m w in Ok (c :: p :: ps, m, w)
        else Ok (path, m, w)
      else Err AssertFail
  | _ => Ok (path, m, w)
  end.
End mpi.

(** InternalReexecute, up to the jump back to the start of the domain. *)
Definition InternalReexecute (c : CD) : res CD :=
  c ← (if is_relaxed c then l ← log_of c; Ok (SetCDLoggingMode kRelaxedCDRead (with_log (ReInit l) c))
       else Ok c);
  Ok (with_seq 0 c).
End cdlog.
Arguments IncompleteLogEntry : clear implicits.
Arguments CD : clear implicits.
