(* ===== verification/CdReplay.v ===== *)
(** * A domain's log across completion, rollback and re-execution

    Theorems about the functions of [CdLog.v]: the log of a completed child
    comes back when the parent is executed again; the log of a domain that is
    itself rolled back does not, unless it is the root; a child created in a
    replay that ends before the child begins has no memory for its log. *)

From Stdlib Require Import ZArith Lia.
From stdpp Require Import base gmap list numbers.
From S2P Require Import Prelude Layout Ids CommLog LogSpec LogReplay LogPack Memory CdLog.

Section replay.
Context {ColorT GroupT World : Type} `{EqDecision ColorT} `{Layout ColorT} `{Layout GroupT}.
#[local] Abbreviation ID := (CDID ColorT GroupT).
#[local] Abbreviation CD := (CD ColorT GroupT).
Implicit Types (c p : CD) (ps : list CD) (m : mem) (w : World).

(** ** Unpacking depends on the identifier only up to equality of domains *)

Lemma find_child_same (id id' : ID) fuel cq i :
  same_cdid id id' → find_child fuel cq id i = find_child fuel cq id' i.
Proof.
  intros Hid. revert i. induction fuel as [|fuel IH]; intros i; cbn [find_child]; [reflexivity|].
  destruct (i <? _); [|reflexivity].
  destruct (load_at uint64_t _ _) as [len|]; [rewrite !ret_bind|reflexivity].
  destruct (load_at ID _ _) as [cd|]; [rewrite !ret_bind|reflexivity].
  rewrite (cdid_eqb_proper cd cd (reflexivity cd) id id' Hid). by rewrite IH.
Qed.

Lemma UnpackLogs_same l (id id' : ID) src :
  same_cdid id id' → UnpackLogs l id src = UnpackLogs l id' src.
Proof.
  intros Hid. unfold UnpackLogs. destruct src as [src|]; [|reflexivity].
  destruct (load_at uint64_t _ _) as [len|]; [rewrite !ret_bind|reflexivity].
  destruct (load_at ID _ _) as [cd|]; [rewrite !ret_bind|reflexivity].
  by rewrite (cdid_eqb_proper cd cd (reflexivity cd) id id' Hid).
Qed.

Lemma UnpackLogsToChildCD_same parent (id id' : ID) child :
  same_cdid id id' → UnpackLogsToChildCD parent id child = UnpackLogsToChildCD parent id' child.
Proof.
  intros Hid. unfold UnpackLogsToChildCD, FindChildLogs. rewrite (find_child_same id id') by exact Hid.
  destruct (find_child _ _ _ _) as [i|]; [rewrite !ret_bind|reflexivity].
  destruct (c_cur_pos_ _ <=? i); rewrite !ret_bind; [reflexivity|].
  by rewrite (UnpackLogs_same child id id').
Qed.

(** The log of a child created while its parent is in replay. *)
Definition fresh_replay : CommLog :=
  {| queue_size_unit_ := 1024 * 1024; table_size_unit_ := 1024; child_log_size_unit_ := 1024 * 1024;
     comm_log_mode_ := kReplayLog; log_queue_ := queue_null; log_table_ := table_null;
     log_table_reexec_pos_ := 0; new_log_generated_ := false; child_log_ := child_null |}.

Lemma CommLog_default_replay : CommLog_default kReplayLog = Ok fresh_replay.
Proof. reflexivity. Qed.

Lemma set_new_rep l s b : Rep l s → Rep (set_new b l) (with_new b s).
Proof. intros (es & q & []). exists es, q. by split. Qed.

Lemma set_mode_rep l s md : Rep l s → Rep (set_mode md l) (with_mode md s).
Proof. intros (es & q & []). exists es, q. by split. Qed.

(** ** Completion and re-execution of the parent *)

(** A log with the units the runtime uses. *)
Definition default_units (l : CommLog) : Prop :=
  queue_size_unit_ l = 1024 * 1024 ∧ table_size_unit_ l = 1024 ∧ child_log_size_unit_ l = 1024 * 1024.

(** Completing a relaxed child that has logged something new. *)
Lemma CompleteLogs_child test cancel probe null c p ps l lp lp' m w :
  is_relaxed c = true → is_relaxed p = true → cd_exec_mode_ c = kExecution →
  comm_log_ptr_ c = Some l → comm_log_ptr_ p = Some lp → new_log_generated_ l = true →
  PackAndPushLogs l (cd_id_ c) lp = Ok (kCommLogOK, lp') →
  CompleteLogs (World := World) test cancel probe null false (c :: p :: ps) m w =
    Ok (with_incomplete [] (with_log (Reset l) c) ::
        with_incomplete (incomplete_log_ p ++ incomplete_log_ c)
          (with_log (if bool_decide (comm_log_mode_ l = kGenerateLog)
                     then set_mode kGenerateLog (set_new true lp') else set_new true lp') p) :: ps, m, w).
Proof.
  intros Hc Hp He Hl Hlp Hn Hpk. unfold CompleteLogs, push_logs, log_of.
  rewrite Hc, Hl, Hlp. rewrite ret_bind, Hn, Hp. cbn [andb]. rewrite ret_bind, Hpk, !ret_bind.
  cbn [cd_exec_mode_ with_log comm_log_ptr_]. by rewrite He.
Qed.

(** Unpacking reads only the parent's packed logs. *)
Lemma Unpack_modes b md (pl : CommLog) (id : ID) (child : CommLog) :
  UnpackLogsToChildCD (ReInit (set_mode md (set_new b pl))) id child = UnpackLogsToChildCD pl id child ∧
  UnpackLogsToChildCD (ReInit (set_new b pl)) id child = UnpackLogsToChildCD pl id child.
Proof. done. Qed.

(** C2: the log of a relaxed child of the relaxed root survives its completion
    and the rollback and re-execution of the root: Complete packs it into the
    root's log and hands the incomplete operations to the root; a rollback of the
    root keeps its log (of any other domain it resets the log, see
    [rollback_loses_log]); after its InternalReexecute the child that is created
    anew starts in replay mode, and Begin gives it a log with the same messages,
    read from the start, whatever packs of other children the root holds. *)
Theorem child_log_restored test cancel probe null c p l s lp sp (packs : list (list cell * ID)) (id : ID) m w :
  is_relaxed c = true → is_relaxed p = true → cd_exec_mode_ c = kExecution →
  comm_log_ptr_ c = Some l → comm_log_ptr_ p = Some lp → new_log_generated_ l = true →
  default_units l → same_cdid (SetSequentialID id 0) (cd_id_ c) →
  Rep l s → Rep lp sp → s_packs sp = concat packs.*1 →
  Forall (λ x, is_pack x.1 x.2) packs → Forall (λ x, cdid_eqb x.2 (cd_id_ c) = false) packs →
  storable (CDID_copy (cd_id_ c)) → sizeof ID < 2 ^ 62 →
  zlen (s_packs sp) + packed_size (ColorT := ColorT) (GroupT := GroupT) l + child_log_size_unit_ lp < 2 ^ 63 →
  ∃ c1 p1 p2 c2 c3 l3,
    CompleteLogs (World := World) test cancel probe null false [c; p] m w = Ok ([c1; p1], m, w) ∧
    incomplete_log_ c1 = [] ∧ incomplete_log_ p1 = incomplete_log_ p ++ incomplete_log_ c ∧
    (∀ m' w', CompleteLogs test cancel probe null true [p1] m' w' = Ok ([p1], m', w')) ∧
    InternalReexecute p1 = Ok p2 ∧ InternalInitialize (Some p2) id (cd_type_ c) = Ok c2 ∧
    cd_logging_mode_ c2 = kRelaxedCDRead ∧ Begin_log [c2; p2] = Ok [c3; p2] ∧
    comm_log_ptr_ c3 = Some l3 ∧ Rep l3 (with_pos 0 (with_mode kReplayLog (with_new false s))).
Proof.
  intros Hc Hp He Hl Hlp Hn (Hu1 & Hu2 & Hu3) Hid HR HRp Hs Hpk Hne Hst Hsz Hmax.
  destruct (pack_unpack_rep l s (cd_id_ c) lp sp packs fresh_replay HR HRp Hs Hpk Hne Hst Hsz Hmax)
    as (lp' & child' & Hpush & _ & Hun & HRc); [by split_and!|].
  pose proof (CompleteLogs_child test cancel probe null c p [] l lp lp' m w Hc Hp He Hl Hlp Hn Hpush) as Hcomp.
  set (lp1 := if bool_decide (comm_log_mode_ l = kGenerateLog)
              then set_mode kGenerateLog (set_new true lp') else set_new true lp') in *.
  set (p1 := with_incomplete _ (with_log lp1 p)) in *.
  set (p2 := with_seq 0 (SetCDLoggingMode kRelaxedCDRead (with_log (ReInit lp1) p1))).
  set (c0 := {| cd_id_ := id; cd_type_ := cd_type_ c; cd_exec_mode_ := kSuspension;
                cd_logging_mode_ := kInvalidLoggingMode; comm_log_ptr_ := None; incomplete_log_ := [];
                child_seq_id_ := 0 |} : CD).
  set (c2 := with_id (SetSequentialID id 0) (SetCDLoggingMode kRelaxedCDRead (with_log fresh_replay c0))).
  assert (UnpackLogsToChildCD (ReInit lp1) (cd_id_ c2) fresh_replay = Ok (kCommLogOK, child')) as Hun2.
  { cbn [c2 cd_id_ with_id]. rewrite (UnpackLogsToChildCD_same _ _ (cd_id_ c)) by exact Hid.
    rewrite <-Hun. unfold lp1. destruct (bool_decide _);
      [exact (proj1 (Unpack_modes true kGenerateLog lp' _ _))|exact (proj2 (Unpack_modes true kGenerateLog lp' _ _))]. }
  eexists _, p1, p2, c2, (with_log child' c2), child'.
  split; [exact Hcomp|]. split; [reflexivity|]. split; [reflexivity|]. split; [by intros|].
  split; [|split; [|split; [|split]]].
  - unfold InternalReexecute. change (is_relaxed p1) with (is_relaxed p). by rewrite Hp.
  - unfold InternalInitialize. fold c0. change (is_relaxed c0) with (is_relaxed c). rewrite Hc.
    change (is_relaxed p2) with (is_relaxed p). rewrite Hp.
    change (log_of p2) with (Ok (ReInit lp1)). rewrite ret_bind.
    change (comm_log_mode_ (ReInit lp1)) with kReplayLog. by rewrite CommLog_default_replay.
  - reflexivity.
  - unfold Begin_log. change (is_relaxed p2) with (is_relaxed p). change (is_relaxed c2) with (is_relaxed c).
    rewrite Hp, Hc. cbn [andb]. change (log_of p2) with (Ok (ReInit lp1)). rewrite ret_bind.
    change (comm_log_mode_ (ReInit lp1)) with kReplayLog. rewrite bool_decide_eq_true_2 by done.
    change (log_of c2) with (Ok fresh_replay). rewrite ret_bind.
    change (set_mode kReplayLog fresh_replay) with fresh_replay. rewrite Hun2, !ret_bind. done.
  - split; [reflexivity|]. exact HRc.
Qed.

(** ** Rollback of the domain itself *)

Lemma ReadData_empty l len :
  log_table_reexec_pos_ l = t_cur_pos_ (log_table_ l) →
  ReadData l len = Ok (kCommLogCommLogModeFlip, [], set_mode kGenerateLog l).
Proof. intros Hl. unfold ReadData. by rewrite Hl, Z.eqb_refl. Qed.

Lemma CD_ReadData_empty c l m ptr len :
  comm_log_ptr_ c = Some l → log_table_reexec_pos_ l = t_cur_pos_ (log_table_ l) →
  CD_ReadData c m ptr len =
    Ok (kCommLogCommLogModeFlip, m, SetCDLoggingMode kRelaxedCDGen (with_log (set_mode kGenerateLog l) c)).
Proof.
  intros Hc Hl. unfold CD_ReadData. rewrite Hc, (ReadData_empty l len Hl), ret_bind.
  by rewrite bool_decide_eq_true_2.
Qed.

Lemma CompleteLogs_reset test cancel probe null b c p ps c1 rest m w m' w' :
  is_relaxed c = true →
  CompleteLogs (World := World) test cancel probe null b (c :: p :: ps) m w = Ok (c1 :: rest, m', w') →
  is_relaxed c1 = true ∧ ∃ l, comm_log_ptr_ c1 = Some (Reset l).
Proof.
  intros Hc Hcomp. unfold CompleteLogs in Hcomp. rewrite Hc in Hcomp.
  apply bind_Ok in Hcomp as (p1 & _ & Hcomp). apply bind_Ok in Hcomp as (l & _ & Hcomp).
  destruct (cd_exec_mode_ (with_log (Reset l) c)); [| |destruct b; [|done]];
    injection Hcomp as <- _ _ _; (split; [exact Hc|by exists l]).
Qed.

(** C21: a rollback completes the log of the domain that is then executed
    again.  For a relaxed domain with a parent this resets the log before
    InternalReexecute switches it to replay: the first read finds nothing and
    switches back to logging, so the domain sends and receives everything
    again although it had logged it.  The root keeps its log. *)
Theorem rollback_loses_log test cancel probe null c p ps c1 rest c2 m w m' w' :
  is_relaxed c = true →
  CompleteLogs (World := World) test cancel probe null true (c :: p :: ps) m w = Ok (c1 :: rest, m', w') →
  InternalReexecute c1 = Ok c2 →
  cd_logging_mode_ c2 = kRelaxedCDRead ∧
  (∀ m ptr len, ∃ c3, CD_ReadData c2 m ptr len = Ok (kCommLogCommLogModeFlip, m, c3) ∧
     cd_logging_mode_ c3 = kRelaxedCDGen) ∧
  (∀ root : CD, CompleteLogs test cancel probe null true [root] m w = Ok ([root], m, w)).
Proof.
  intros Hc Hcomp Hre. destruct (CompleteLogs_reset _ _ _ _ _ _ _ _ _ _ _ _ _ _ Hc Hcomp) as [Hc1 [l Hl]].
  unfold InternalReexecute, log_of in Hre. rewrite Hc1, Hl in Hre. rewrite !ret_bind in Hre.
  injection Hre as <-. split; [reflexivity|]. split; [|by intros].
  intros m0 ptr len. eexists. split; [by apply (CD_ReadData_empty _ (ReInit (Reset l)))|reflexivity].
Qed.

(** ** A child created in a replay that ends before the child begins *)

(** A relaxed child created while its parent is in replay gets a log
    without memory; if the parent's replay has ended when the child begins,
    Begin leaves it so: the child's first receive ends its own replay, and
    logging the message writes outside the table, because doubling a table of
    no entries makes no room. *)
Theorem child_created_in_replay_oob p lp p' lp' c (id : ID) ps :
  is_relaxed p = true → comm_log_ptr_ p = Some lp → comm_log_mode_ lp = kReplayLog →
  is_relaxed p' = true → comm_log_ptr_ p' = Some lp' → comm_log_mode_ lp' = kGenerateLog →
  InternalInitialize (Some p) id kRelaxed = Ok c →
  Begin_log (c :: p' :: ps) = Ok (c :: p' :: ps) ∧
  ∀ m ptr len task tag comm completed flag isrecv intra, ∃ c',
    CD_ReadData c m ptr len = Ok (kCommLogCommLogModeFlip, m, c') ∧
    CD_LogData c' m ptr len task completed flag isrecv false intra tag comm = Err OutOfBounds.
Proof.
  intros Hp Hlp Hmode Hp' Hlp' Hmode' Hinit. unfold InternalInitialize, log_of in Hinit.
  rewrite Hp, Hlp in Hinit. change (is_relaxed _) with true in Hinit. rewrite ret_bind, Hmode in Hinit.
  rewrite CommLog_default_replay, ret_bind in Hinit. rewrite bool_decide_eq_false_2 in Hinit by done.
  injection Hinit as <-. split.
  - unfold Begin_log, log_of. rewrite Hp', Hlp'. change (is_relaxed _) with true. cbn [andb].
    rewrite ret_bind, Hmode'. by rewrite bool_decide_eq_false_2.
  - intros m ptr len task tag comm completed flag isrecv intra. eexists. split; reflexivity.
Qed.
End replay.

(** ** A child of the root *)

(** The log of a receive, its wait and an incomplete receive, with the units of
    the runtime. *)
Definition ex_child_log : CommLog :=
  {| queue_size_unit_ := 1024 * 1024; table_size_unit_ := 1024; child_log_size_unit_ := 1024 * 1024;
     comm_log_mode_ := kGenerateLog;
     log_queue_ := {| q_base_ptr_ := Some [Some 7; Some 8; None; None]; q_cur_pos_ := 4; q_queue_size_ := 4 |};
     log_table_ := {| t_base_ptr_ := Some (Some <$> ex_reuse_entries); t_cur_pos_ := 3; t_table_size_ := 3 |};
     log_table_reexec_pos_ := 0; new_log_generated_ := true; child_log_ := child_null |}.

Lemma ex_child_rep : Rep ex_child_log ex_reuse_spec.
Proof.
  exists ex_reuse_entries, [Some 7; Some 8; None; None]. split.
  - exists []. vm_compute. done.
  - exists []. vm_compute. done.
  - left. split; reflexivity.
  - vm_compute. repeat split; discriminate.
  - repeat constructor; discriminate.
  - reflexivity.
  - vm_compute. repeat split; discriminate.
  - reflexivity.
  - reflexivity.
  - vm_compute. repeat split; discriminate.
Qed.

Definition ex_cd (mode : CDLoggingMode) (l : CommLog) (i : list (IncompleteLogEntry uint32_t)) :
    CD uint32_t uint32_t :=
  {| cd_id_ := ex_id; cd_type_ := kRelaxed; cd_exec_mode_ := kExecution; cd_logging_mode_ := mode;
     comm_log_ptr_ := Some l; incomplete_log_ := i; child_seq_id_ := 0 |}.

Definition ex_entry : IncompleteLogEntry uint32_t :=
  {| i_addr_ := 32; i_length_ := 2; i_taskID_ := 2; i_tag_ := 7; i_comm_ := UInt 1; i_flag_ := 96;
     i_complete_ := false; i_isrecv_ := true; i_intra_cd_msg_ := false |}.

(** An MPI that is always done at once. *)
Definition ex_test (f : Z) (m : mem) (w : unit) : bool * mem * unit := (true, m, w).
Definition ex_probe (e : IncompleteLogEntry uint32_t) (w : unit) : unit := w.
Definition ex_request_null (m : mem) (f : Z) : bool := false.

Lemma child_log_restored_witness :
  let c := ex_cd kRelaxedCDGen ex_child_log [ex_entry] in
  let p := ex_cd kRelaxedCDGen ex_parent [] in
  ∃ c1 p1 p2 c2 c3 l3,
    CompleteLogs ex_test ex_test ex_probe ex_request_null false [c; p] ∅ () = Ok ([c1; p1], ∅, ()) ∧
    incomplete_log_ c1 = [] ∧ incomplete_log_ p1 = [ex_entry] ∧
    (∀ m' w', CompleteLogs ex_test ex_test ex_probe ex_request_null true [p1] m' w' = Ok ([p1], m', w')) ∧
    InternalReexecute p1 = Ok p2 ∧ InternalInitialize (Some p2) ex_id kRelaxed = Ok c2 ∧
    cd_logging_mode_ c2 = kRelaxedCDRead ∧ Begin_log [c2; p2] = Ok [c3; p2] ∧
    comm_log_ptr_ c3 = Some l3 ∧ Rep l3 (with_pos 0 (with_mode kReplayLog (with_new false ex_reuse_spec))).
Proof.
  intros c p.
  apply (child_log_restored ex_test ex_test ex_probe ex_request_null c p ex_child_log ex_reuse_spec
    ex_parent (spec_empty kGenerateLog) [] ex_id ∅ ()).
  - reflexivity.
  - reflexivity.
  - reflexivity.
  - reflexivity.
  - reflexivity.
  - reflexivity.
  - repeat split.
  - vm_compute. reflexivity.
  - exact ex_child_rep.
  - exact ex_parent_rep.
  - reflexivity.
  - constructor.
  - constructor.
  - exact ex_id_storable.
  - vm_compute. reflexivity.
  - vm_compute. reflexivity.
Defined.

Lemma rollback_loses_log_witness :
  let c := ex_cd kRelaxedCDGen (set_new false ex_child_log) [] in
  let p := ex_cd kRelaxedCDGen ex_parent [] in
  let c2 := with_seq 0 (SetCDLoggingMode kRelaxedCDRead (with_log (ReInit (Reset (set_new false ex_child_log))) c)) in
  CompleteLogs ex_test ex_test ex_probe ex_request_null true [c; p] ∅ () =
    Ok ([with_log (Reset (set_new false ex_child_log)) c; p], ∅, ()) ∧
  cd_logging_mode_ c2 = kRelaxedCDRead ∧
  (∀ m ptr len, ∃ c3, CD_ReadData c2 m ptr len = Ok (kCommLogCommLogModeFlip, m, c3) ∧
     cd_logging_mode_ c3 = kRelaxedCDGen) ∧
  (∀ root : CD uint32_t uint32_t,
     CompleteLogs ex_test ex_test ex_probe ex_request_null true [root] ∅ () = Ok ([root], ∅, ())).
Proof.
  intros c p c2. split; [reflexivity|].
  apply (rollback_loses_log ex_test ex_test ex_probe ex_request_null c p []
    (with_log (Reset (set_new false ex_child_log)) c) [p] c2 ∅ () ∅ ()); reflexivity.
Defined.

Lemma child_created_in_replay_oob_witness :
  let p := ex_cd kRelaxedCDRead (ReInit ex_parent) [] in
  let p' := ex_cd kRelaxedCDGen ex_parent [] in
  let c := with_id (SetSequentialID ex_id 0) (SetCDLoggingMode kRelaxedCDRead
    {| cd_id_ := ex_id; cd_type_ := kRelaxed; cd_exec_mode_ := kSuspension; cd_logging_mode_ := kInvalidLoggingMode;
       comm_log_ptr_ := Some fresh_replay; incomplete_log_ := []; child_seq_id_ := 0 |}) in
  Begin_log [c; p'] = Ok [c; p'] ∧
  ∀ m ptr len task tag comm completed flag isrecv intra, ∃ c',
    CD_ReadData c m ptr len = Ok (kCommLogCommLogModeFlip, m, c') ∧
    CD_LogData c' m ptr len task completed flag isrecv false intra tag comm = Err OutOfBounds.
Proof.
  intros p p' c.
  apply (child_created_in_replay_oob p (ReInit ex_parent) p' ex_parent c ex_id []); reflexivity.
Defined.
