(* ===== verification/MpiWrapper.v ===== *)
(** * The MPI wrappers

    [src/src/cd_mpiwrapper.cc], with [BlockUntilValid] and
    [BlockallUntilValid] of [src/src/cd_comm_internal.cc]: every MPI function
    the application calls.  Out of the context of a domain, and in a strict
    domain, a wrapper calls MPI; in a relaxed domain that logs it calls MPI
    and logs what was received; in a relaxed domain that replays it reads the
    log instead, until the log is read to its end.

    MPI itself ([PMPI_...]) is a parameter: [pmpi] gives what a call returns,
    what it writes to memory and the state of the rest of the machine. *)

From Stdlib Require Import ZArith Lia.
From stdpp Require Import base gmap list list_numbers numbers.
From S2P Require Import Prelude Layout Ids CommLog Memory CdLog.

Definition MPI_ERR_NEED_ESCALATE : Z := 65280.

(** [sizeof(int)]. *)
Definition SIZEOF_INT : Z := 4.

(** A [long]. *)
Definition int64 (z : Z) : res Z := if (- 2 ^ 63 <=? z) && (z <? 2 ^ 63) then Ok z else Err IntOverflow.

(** A wrapper returns MPI's code, or leaves through the escalation of the
    error, which jumps to the start of a domain. *)
Inductive Ret := Returned (code : Z) | Escalates.

Section wrapper.
Context {Comm GroupT Datatype Op World : Type} `{EqDecision Comm} `{Layout Comm} `{Layout GroupT}.
#[local] Abbreviation CD := (CD Comm GroupT).

(** ** The calls *)

Inductive Call :=
  | PMPI_Send (buf count : Z) (datatype : Datatype) (dest tag : Z) (comm : Comm)
  | PMPI_Ssend (buf count : Z) (datatype : Datatype) (dest tag : Z) (comm : Comm)
  | PMPI_Rsend (buf count : Z) (datatype : Datatype) (dest tag : Z) (comm : Comm)
  | PMPI_Bsend (buf count : Z) (datatype : Datatype) (dest tag : Z) (comm : Comm)
  | PMPI_Recv (buf count : Z) (datatype : Datatype) (src tag : Z) (comm : Comm) (status : Z)
  | PMPI_Sendrecv (sendbuf sendcount : Z) (sendtype : Datatype) (dest sendtag recvbuf recvcount : Z)
      (recvtype : Datatype) (src recvtag : Z) (comm : Comm) (status : Z)
  | PMPI_Sendrecv_replace (buf count : Z) (datatype : Datatype) (dest sendtag src recvtag : Z)
      (comm : Comm) (status : Z)
  | PMPI_Isend (buf count : Z) (datatype : Datatype) (dest tag : Z) (comm : Comm) (request : Z)
  | PMPI_Irecv (buf count : Z) (datatype : Datatype) (src tag : Z) (comm : Comm) (request : Z)
  | PMPI_Test (request flag status : Z)
  | PMPI_Testall (count array_of_requests flag array_of_statuses : Z)
  | PMPI_Testany (count array_of_requests index flag status : Z)
  | PMPI_Testsome (incount array_of_requests outcount array_of_indices array_of_statuses : Z)
  | PMPI_Wait (request status : Z)
  | PMPI_Waitall (count array_of_requests array_of_statuses : Z)
  | PMPI_Waitany (count array_of_requests index status : Z)
  | PMPI_Waitsome (incount array_of_requests outcount array_of_indices array_of_statuses : Z)
  | PMPI_Barrier (comm : Comm)
  | PMPI_Bcast (buffer count : Z) (datatype : Datatype) (root : Z) (comm : Comm)
  | PMPI_Gather (sendbuf sendcnt : Z) (sendtype : Datatype) (recvbuf recvcnt : Z) (recvtype : Datatype)
      (root : Z) (comm : Comm)
  | PMPI_Gatherv (sendbuf sendcnt : Z) (sendtype : Datatype) (recvbuf : Z) (recvcnts displs : list Z)
      (recvtype : Datatype) (root : Z) (comm : Comm)
  | PMPI_Allgather (sendbuf sendcnt : Z) (sendtype : Datatype) (recvbuf recvcnt : Z) (recvtype : Datatype)
      (comm : Comm)
  | PMPI_Allgatherv (sendbuf sendcnt : Z) (sendtype : Datatype) (recvbuf : Z) (recvcnts displs : list Z)
      (recvtype : Datatype) (comm : Comm)
  | PMPI_Reduce (sendbuf recvbuf count : Z) (datatype : Datatype) (op : Op) (root : Z) (comm : Comm)
  | PMPI_Allreduce (sendbuf recvbuf count : Z) (datatype : Datatype) (op : Op) (comm : Comm)
  | PMPI_Alltoall (sendbuf sendcnt : Z) (sendtype : Datatype) (recvbuf recvcnt : Z) (recvtype : Datatype)
      (comm : Comm)
  | PMPI_Alltoallv (sendbuf : Z) (sendcnts sdispls : list Z) (sendtype : Datatype) (recvbuf : Z)
      (recvcnts rdispls : list Z) (recvtype : Datatype) (comm : Comm)
  | PMPI_Scatter (sendbuf sendcnt : Z) (sendtype : Datatype) (recvbuf recvcnt : Z) (recvtype : Datatype)
      (root : Z) (comm : Comm)
  | PMPI_Scatterv (sendbuf : Z) (sendcnts displs : list Z) (sendtype : Datatype) (recvbuf recvcnt : Z)
      (recvtype : Datatype) (root : Z) (comm : Comm)
  | PMPI_Reduce_scatter (sendbuf recvbuf : Z) (recvcnts : list Z) (datatype : Datatype) (op : Op) (comm : Comm)
  | PMPI_Scan (sendbuf recvbuf count : Z) (datatype : Datatype) (op : Op) (comm : Comm).

(** What MPI provides.  [pmpi_test] and [pmpi_iallreduce] are calls the
    runtime makes with a flag or a request of its own: they return whether the
    request is complete, and the address of the request.  [poll] is what the
    mailboxes of the domains say between two tests, the rollback point, and
    [need_reexec] whether one is set. *)
Record Mpi := {
  pmpi : Call → mem → World → Z * mem * World;
  pmpi_test : Z → Z → mem → World → Z * bool * mem * World;
  pmpi_iallreduce : Z → Z → Z → Datatype → Op → Comm → mem → World → Z * Z * mem * World;
  PMPI_Type_size : Datatype → Z;
  PMPI_Comm_rank : Comm → Z;
  PMPI_Comm_size : Comm → Z;
  sizeof_MPI_Request : Z;
  sizeof_MPI_Status : Z;
  sizeof_MPI_Datatype : Z;
  is_request_null : mem → Z → bool;
  MPI_COMM_NULL : Comm;
  poll : CD → World → Z * World;
  need_reexec : World → bool;
}.

Variable mpi : Mpi.

(** ** The state of a task *)

(** The domains of the task are a list, the innermost first. *)
Record St := { st_mem : mem; st_net : World; st_path : list CD }.

(** The innermost domain that is active; the rest of the path around it. *)
Definition GetCurrentCD (path : list CD) : option (list CD * CD * list CD) :=
  match path with
  | [] => None
  | c :: ps =>
      if bool_decide (cd_exec_mode_ c = kSuspension) then
        match ps with [] => None | p :: ps => Some ([c], p, ps) end
      else Some ([], c, ps)
  end.

(** A call of MPI. *)
Definition run (c : Call) (s : St) : Z * St :=
  let '(r, m, w) := pmpi mpi c (st_mem s) (st_net s) in
  (r, {| st_mem := m; st_net := w; st_path := st_path s |}).

Definition outside (c : Call) (s : St) : res (Ret * St) := let '(r, s) := run c s in Ok (Returned r, s).

(** A member of the current domain. *)
Definition on_cd {A} (f : mem → CD → res (A * mem * CD)) (s : St) : res (A * St) :=
  match GetCurrentCD (st_path s) with
  | None => Err OutOfBounds
  | Some (i, c, ps) =>
      '(a, m, c) ← f (st_mem s) c;
      Ok (a, {| st_mem := m; st_net := st_net s; st_path := i ++ c :: ps |})
  end.

Definition log_entry (ptr len task : Z) (completed : bool) (flag : Z) (isrecv isrepeated intra : bool) (tag : Z)
    (comm : Comm) (s : St) : res St :=
  '(_, s) ← on_cd (λ m c, '(r, c) ← CD_LogData c m ptr (u64 len) (u32 task) completed flag isrecv isrepeated
                                       intra tag comm; Ok (r, m, c)) s;
  Ok s.

(** [LogData] with its default arguments. *)
Definition log_data (ptr len task : Z) (s : St) : res St :=
  log_entry ptr len task true 0 false false false (-1) (MPI_COMM_NULL mpi) s.

(** The logging of an unsuccessful test. *)
Definition log_repeated (ptr len : Z) (s : St) : res St :=
  log_entry ptr len 0 true 0 false true false (-1) (MPI_COMM_NULL mpi) s.

Definition read_data (ptr len : Z) (s : St) : res (CommLogErrT * St) :=
  on_cd (λ m c, CD_ReadData c m ptr (u64 len)) s.

Definition probe_data (len : Z) (s : St) : res (CommLogErrT * St) :=
  on_cd (λ m c, '(r, c) ← CD_ProbeData c (u64 len); Ok (r, m, c)) s.

Definition probe_and_log (flag : Z) (s : St) : res St :=
  match GetCurrentCD (st_path s) with
  | None => Err OutOfBounds
  | Some (i, c, ps) =>
      path ← CD_ProbeAndLogData (st_mem s) (c :: ps) flag (MPI_COMM_NULL mpi);
      Ok {| st_mem := st_mem s; st_net := st_net s; st_path := i ++ path |}
  end.

(** [for (ii=0; ii<count; ii++) ProbeAndLogData(&array_of_requests[ii])]. *)
Definition request (array_of_requests i : Z) : Z := array_of_requests + i * sizeof_MPI_Request mpi.

Definition probe_and_log_all (flags : list Z) (s : St) : res St :=
  foldl (λ r f, s ← r; probe_and_log f s) (Ok s) flags.

Definition probe_all (flags : list Z) (s : St) : res St :=
  foldl (λ r f, s ← r; '(_, s) ← probe_data 0 s; Ok s) (Ok s) flags.

(** [switch (GetCDLoggingMode())]; [ERROR_MESSAGE] asserts. *)
Definition by_mode (strict gen replay : St → res (Ret * St)) (s : St) : res (Ret * St) :=
  match GetCurrentCD (st_path s) with
  | None => Err OutOfBounds
  | Some (_, c, _) =>
      match cd_logging_mode_ c with
      | kStrictCD => strict s
      | kRelaxedCDGen => gen s
      | kRelaxedCDRead => replay s
      | _ => Err AssertFail
      end
  end.

(** The code of a blocking wrapper: [log] follows the call, [replay] replaces
    it unless the log has been read to its end; other errors of [replay] are
    not looked at. *)
Definition generate (c : Call) (log : St → res St) (s : St) : res (Ret * St) :=
  let '(r, s) := run c s in s ← log s; Ok (Returned r, s).

Definition blocking (c : Call) (log : St → res St) (replay : St → res (CommLogErrT * St)) (s : St) :
    res (Ret * St) :=
  match GetCurrentCD (st_path s) with
  | None => outside c s
  | Some _ =>
      by_mode (outside c) (generate c log)
        (λ s, '(e, s) ← replay s;
              if bool_decide (e = kCommLogCommLogModeFlip) then generate c log s else Ok (Returned 0, s)) s
  end.

(** ** Blocking point-to-point communication *)

(** [count*type_size]: an [int] product. *)
Definition bytes (count : Z) (t : Datatype) : res Z := int32 (count * PMPI_Type_size mpi t).

Definition MPI_Send (buf count : Z) (t : Datatype) (dest tag : Z) (comm : Comm) : St → res (Ret * St) :=
  blocking (PMPI_Send buf count t dest tag comm) (log_data buf 0 dest) (probe_data 0).

Definition MPI_Ssend (buf count : Z) (t : Datatype) (dest tag : Z) (comm : Comm) : St → res (Ret * St) :=
  blocking (PMPI_Ssend buf count t dest tag comm) (log_data buf 0 dest) (probe_data 0).

Definition MPI_Rsend (buf count : Z) (t : Datatype) (dest tag : Z) (comm : Comm) : St → res (Ret * St) :=
  blocking (PMPI_Rsend buf count t dest tag comm) (log_data buf 0 dest) (probe_data 0).

Definition MPI_Bsend (buf count : Z) (t : Datatype) (dest tag : Z) (comm : Comm) : St → res (Ret * St) :=
  blocking (PMPI_Bsend buf count t dest tag comm) (log_data buf 0 dest) (probe_data 0).

Definition MPI_Recv (buf count : Z) (t : Datatype) (src tag : Z) (comm : Comm) (status : Z) (s : St) :
    res (Ret * St) :=
  n ← bytes count t;
  blocking (PMPI_Recv buf count t src tag comm status) (log_data buf n src) (read_data buf n) s.

(** The replay of an exchange: the data is read only if the event of the send
    was logged. *)
Definition replay_exchange (recvbuf n : Z) (s : St) : res (CommLogErrT * St) :=
  '(e, s) ← probe_data 0 s;
  if bool_decide (e = kCommLogOK) then
    '(e, s) ← read_data recvbuf n s;
    _ ← cassert (bool_decide (e = kCommLogOK)); Ok (e, s)
  else Ok (e, s).

Definition MPI_Sendrecv (sendbuf sendcount : Z) (sendtype : Datatype) (dest sendtag recvbuf recvcount : Z)
    (recvtype : Datatype) (src recvtag : Z) (comm : Comm) (status : Z) (s : St) : res (Ret * St) :=
  n ← bytes recvcount recvtype;
  blocking (PMPI_Sendrecv sendbuf sendcount sendtype dest sendtag recvbuf recvcount recvtype src recvtag comm status)
    (λ s, s ← log_data sendbuf 0 dest s; log_data recvbuf n src s) (replay_exchange recvbuf n) s.

Definition MPI_Sendrecv_replace (buf count : Z) (t : Datatype) (dest sendtag src recvtag : Z) (comm : Comm)
    (status : Z) (s : St) : res (Ret * St) :=
  n ← bytes count t;
  blocking (PMPI_Sendrecv_replace buf count t dest sendtag src recvtag comm status)
    (λ s, s ← log_data buf 0 dest s; log_data buf n src s) (replay_exchange buf n) s.

(** ** Non-blocking communication *)

(** [MPI_ERR_NEED_ESCALATE] from a blocking test escalates the error; MPI itself
    does not return this code. *)
Definition finish (r : Z) : Ret := if r =? MPI_ERR_NEED_ESCALATE then Escalates else Returned r.

Definition push_incomplete (buf length task tag : Z) (comm : Comm) (request : Z) (isrecv : bool) (s : St) : res St :=
  '(_, s) ← on_cd (λ m c, Ok ((), m, with_incomplete (incomplete_log_ c ++
    [{| i_addr_ := buf; i_length_ := length; i_taskID_ := u32 task; i_tag_ := u32 tag; i_comm_ := comm;
        i_flag_ := request; i_complete_ := false; i_isrecv_ := isrecv; i_intra_cd_msg_ := false |}]) c)) s;
  Ok s.

(** What a replaying wrapper of the non-blocking functions does with the
    result of its read: an error asserts, a missing message is not looked at. *)
Definition replayed (e : CommLogErrT) (gen : St → res (Ret * St)) (ok : St → res (Ret * St)) (s : St) :
    res (Ret * St) :=
  match e with
  | kCommLogOK => ok s
  | kCommLogCommLogModeFlip => gen s
  | kCommLogError => Err AssertFail
  | _ => Ok (Returned 0, s)
  end.

Definition zero (s : St) : res (Ret * St) := Ok (Returned 0, s).

Definition in_cd (c : Call) (strict gen replay : St → res (Ret * St)) (s : St) : res (Ret * St) :=
  match GetCurrentCD (st_path s) with
  | None => outside c s
  | Some _ => by_mode strict gen replay s
  end.

(** [CheckIntraCDMsg] returns false: every message is one between domains.
    In a strict domain the length of the entry is the size of one element. *)
Definition MPI_Isend (buf count : Z) (t : Datatype) (dest tag : Z) (comm : Comm) (request : Z) :
    St → res (Ret * St) :=
  let c := PMPI_Isend buf count t dest tag comm request in
  let gen := generate c (log_entry buf 0 dest false request false false false (-1) (MPI_COMM_NULL mpi)) in
  in_cd c (generate c (push_incomplete buf (PMPI_Type_size mpi t) dest tag comm request false)) gen
    (λ s, '(e, s) ← probe_data 0 s; replayed e gen zero s).

Definition MPI_Irecv (buf count : Z) (t : Datatype) (src tag : Z) (comm : Comm) (request : Z) (s : St) :
    res (Ret * St) :=
  n ← bytes count t;
  let c := PMPI_Irecv buf count t src tag comm request in
  let gen := generate c (log_entry buf n src false request true false false tag comm) in
  in_cd c (generate c (push_incomplete buf (PMPI_Type_size mpi t) src tag comm request true)) gen
    (λ s, '(e, s) ← read_data buf n s; replayed e gen zero s) s.

(** ** Tests *)

(** [*flag == 1] after a call. *)
Definition is_set (flag : Z) (s : St) : res bool := f ← mint (st_mem s) flag; Ok (f =? 1).

(** The strict case: the entries of the requests that are complete are deleted. *)
Definition test_strict (c : Call) (flag : Z) (complete : St → res St) (s : St) : res (Ret * St) :=
  let '(r, s) := run c s in
  b ← is_set flag s;
  s ← (if b : bool then complete s else Ok s); Ok (Returned r, s).

(** The logging case: the flag is logged, a zero flag as a repetition. *)
Definition test_gen (c : Call) (flag : Z) (complete : St → res St) (s : St) : res (Ret * St) :=
  let '(r, s) := run c s in
  b ← is_set flag s;
  s ← (if b : bool then s ← log_data flag SIZEOF_INT 0 s; complete s else log_repeated flag SIZEOF_INT s);
  Ok (Returned r, s).

Definition test_replay (flag : Z) (gen : St → res (Ret * St)) (probe : St → res St) (s : St) : res (Ret * St) :=
  '(e, s) ← read_data flag SIZEOF_INT s;
  replayed e gen (λ s, b ← is_set flag s; s ← (if b : bool then probe s else Ok s); Ok (Returned 0, s)) s.

Definition MPI_Test (request flag status : Z) : St → res (Ret * St) :=
  let c := PMPI_Test request flag status in
  let gen := test_gen c flag (probe_and_log request) in
  in_cd c (test_strict c flag (probe_and_log request)) gen
    (test_replay flag gen (λ s, '(_, s) ← probe_data 0 s; Ok s)).

Definition requests (count array_of_requests : Z) : list Z := request array_of_requests <$> seqZ 0 count.

Definition MPI_Testall (count array_of_requests flag array_of_statuses : Z) : St → res (Ret * St) :=
  let c := PMPI_Testall count array_of_requests flag array_of_statuses in
  let reqs := requests count array_of_requests in
  let gen := test_gen c flag (probe_and_log_all reqs) in
  in_cd c (test_strict c flag (probe_and_log_all reqs)) gen (test_replay flag gen (probe_all reqs)).

(** [array_of_requests[*index]]. *)
Definition request_at (array_of_requests index : Z) (s : St) : res Z :=
  i ← mint (st_mem s) index; Ok (request array_of_requests i).

Definition MPI_Testany (count array_of_requests index flag status : Z) : St → res (Ret * St) :=
  let c := PMPI_Testany count array_of_requests index flag status in
  let complete s := r ← request_at array_of_requests index s; probe_and_log r s in
  let gen := test_gen c flag (λ s, s ← log_data index SIZEOF_INT 0 s; complete s) in
  in_cd c (test_strict c flag complete) gen
    (test_replay flag gen (λ s, '(_, s) ← read_data index SIZEOF_INT s; '(_, s) ← probe_data 0 s; Ok s)).

(** [array_of_requests[array_of_indices[ii]]] for [ii < *outcount]. *)
Definition requests_of (array_of_requests array_of_indices outcount : Z) (s : St) : res (list Z) :=
  n ← mint (st_mem s) outcount;
  foldl (λ r i, l ← r; j ← mint (st_mem s) (array_of_indices + i * SIZEOF_INT);
                Ok (l ++ [request array_of_requests j])) (Ok []) (seqZ 0 n).

Definition complete_some (array_of_requests array_of_indices outcount : Z) (s : St) : res St :=
  reqs ← requests_of array_of_requests array_of_indices outcount s; probe_and_log_all reqs s.

Definition MPI_Testsome (incount array_of_requests outcount array_of_indices array_of_statuses : Z) :
    St → res (Ret * St) :=
  let c := PMPI_Testsome incount array_of_requests outcount array_of_indices array_of_statuses in
  let complete := complete_some array_of_requests array_of_indices outcount in
  let gen s :=
    let '(r, s) := run c s in
    n ← mint (st_mem s) outcount;
    s ← (if 0 <? n then s ← log_data outcount SIZEOF_INT 0 s; complete s else log_repeated outcount SIZEOF_INT s);
    Ok (Returned r, s) in
  in_cd c
    (λ s, let '(r, s) := run c s in
          n ← mint (st_mem s) outcount;
          s ← (if 0 <? n then complete s else Ok s); Ok (Returned r, s))
    gen
    (λ s, '(e, s) ← read_data outcount SIZEOF_INT s;
          replayed e gen (λ s, n ← mint (st_mem s) outcount; s ← probe_all (seqZ 0 n) s; zero s) s).

(** ** Waits *)

Definition delete_incomplete (request : Z) (s : St) : res St :=
  '(_, s) ← on_cd (λ m c, Ok ((), m, (DeleteIncompleteLog c request).2)) s; Ok s.

Definition delete_all (reqs : list Z) (s : St) : res St :=
  foldl (λ r f, s ← r; delete_incomplete f s) (Ok s) reqs.

Definition test_request (request status : Z) (s : St) : Z * bool * St :=
  let '(ret, flag, m, w) := pmpi_test mpi request status (st_mem s) (st_net s) in
  (ret, flag, {| st_mem := m; st_net := w; st_path := st_path s |}).

(** [CheckMailBox], [CheckRollbackPoint] and the forced rollback after
    [10000000] tests: whether the domain is rolled back. *)
Definition check_rollback (force : bool) (s : St) : res (bool * St) :=
  match GetCurrentCD (st_path s) with
  | None => Err OutOfBounds
  | Some (_, c, _) =>
      let '(rollback_point, w) := poll mpi c (st_net s) in
      let level := level_ (cd_name_ (cd_id_ c)) in
      Ok ((if force then level else rollback_point) <=? level,
          {| st_mem := st_mem s; st_net := w; st_path := st_path s |})
  end.

(** The loop of BlockUntilValid; [fuel] bounds the tests. *)
Fixpoint block_until (fuel : nat) (iters : Z) (is_send : bool) (request status : Z) (s : St) : res (Z * St) :=
  match fuel with
  | O => Err OutOfFuel
  | S fuel =>
      let iters := iters + 1 in
      let '(ret, flag, s) := test_request request status s in
      if flag then s ← delete_incomplete request s; Ok (ret, s)
      else if is_send then block_until fuel iters is_send request status s
      else
        '(rollback, s) ← check_rollback (10000000 <? iters) s;
        if rollback : bool then Ok (MPI_ERR_NEED_ESCALATE, s)
        else block_until fuel iters is_send request status s
  end.

Definition current_is_send (request : Z) (s : St) : bool :=
  match GetCurrentCD (st_path s) with Some (_, c, _) => IsSend c request | None => false end.

Definition BlockUntilValid (fuel : nat) (request status : Z) (s : St) : res (Z * St) :=
  block_until fuel 0 (current_is_send request s) request status s.

(** One test of each request in [ids]: those that are complete, those that are
    not. *)
Fixpoint test_each (reqs stats : Z → Z) (ids : list Z) (s : St) : list Z * list Z * St :=
  match ids with
  | [] => ([], [], s)
  | i :: ids =>
      let '(_, flag, s) := test_request (reqs i) (stats i) s in
      let '(done, todo, s) := test_each reqs stats ids s in
      if flag then (i :: done, todo, s) else (done, i :: todo, s)
  end.

(** The first loop of BlockallUntilValid tests the requests that are not null. *)
Fixpoint test_first (reqs stats : Z → Z) (ids : list Z) (s : St) : list Z * St :=
  match ids with
  | [] => ([], s)
  | i :: ids =>
      if is_request_null mpi (st_mem s) (reqs i) then test_first reqs stats ids s
      else
        let '(_, flag, s) := test_request (reqs i) (stats i) s in
        let '(valid, s) := test_first reqs stats ids s in
        (if flag then i :: valid else valid, s)
  end.

Fixpoint block_valid (fuel : nat) (reqs stats : Z → Z) (all : list Z) (check : bool) (valid : list Z) (s : St) :
    res (Z * St) :=
  match fuel with
  | O => Err OutOfFuel
  | S fuel =>
      let '(_, valid, s) := test_each reqs stats valid s in
      match valid with
      | [] => s ← delete_all all s; Ok (-1, s)
      | _ =>
          if check then
            '(rollback, s) ← check_rollback false s;
            if rollback : bool then Ok (MPI_ERR_NEED_ESCALATE, s)
            else block_valid fuel reqs stats all check valid s
          else block_valid fuel reqs stats all check valid s
      end
  end.

(** Only the requests that are complete at the first test are waited for. *)
Definition BlockallUntilValid (fuel : nat) (count array_of_requests array_of_statuses : Z) (s : St) :
    res (Z * St) :=
  let reqs i := request array_of_requests i in
  let stats i := array_of_statuses + i * sizeof_MPI_Status mpi in
  let all := requests count array_of_requests in
  let is_all_wait_for_recv := existsb (λ r, negb (current_is_send r s)) all in
  let '(valid, s) := test_first reqs stats (seqZ 0 count) s in
  match valid with
  | [] => s ← delete_all all s; Ok (-1, s)
  | _ => block_valid fuel reqs stats all is_all_wait_for_recv valid s
  end.

Definition MPI_Wait (fuel : nat) (request status : Z) : St → res (Ret * St) :=
  let c := PMPI_Wait request status in
  in_cd c
    (λ s, '(r, s) ← BlockUntilValid fuel request status s; Ok (finish r, s))
    (λ s, '(r, s) ← BlockUntilValid fuel request status s;
          _ ← cassert (negb (need_reexec mpi (st_net s)));
          s ← probe_and_log request s; Ok (finish r, s))
    (λ s, '(e, s) ← probe_data 0 s;
          replayed e (λ s, let '(r, s) := run c s in s ← probe_and_log request s; Ok (finish r, s)) zero s).

(** The loop over the events of the waits, up to the end of the log. *)
Fixpoint probe_until_flip (n : nat) (e : CommLogErrT) (s : St) : res (CommLogErrT * St) :=
  match n with
  | O => Ok (e, s)
  | S n =>
      '(e, s) ← probe_data 0 s;
      if bool_decide (e = kCommLogCommLogModeFlip) then Ok (e, s) else probe_until_flip n e s
  end.

Definition MPI_Waitall (fuel : nat) (count array_of_requests array_of_statuses : Z) (s : St) : res (Ret * St) :=
  _ ← cassert (0 <? count);
  let c := PMPI_Waitall count array_of_requests array_of_statuses in
  let reqs := requests count array_of_requests in
  let wait s := let '(r, s) := run c s in s ← probe_and_log_all reqs s; Ok (finish r, s) in
  in_cd c
    (λ s, '(r, s) ← BlockallUntilValid fuel count array_of_requests array_of_statuses s; Ok (finish r, s))
    wait
    (λ s, '(e, s) ← probe_until_flip (Z.to_nat count) kCommLogOK s; replayed e wait zero s) s.

Definition MPI_Waitany (count array_of_requests index status : Z) : St → res (Ret * St) :=
  let c := PMPI_Waitany count array_of_requests index status in
  let complete s := r ← request_at array_of_requests index s; probe_and_log r s in
  let gen s :=
    let '(r, s) := run c s in
    s ← log_data index SIZEOF_INT 0 s; s ← complete s; Ok (Returned r, s) in
  in_cd c (λ s, let '(r, s) := run c s in s ← complete s; Ok (Returned r, s)) gen
    (λ s, '(e, s) ← read_data index SIZEOF_INT s;
          replayed e gen (λ s, '(_, s) ← probe_data 0 s; zero s) s).

Definition MPI_Waitsome (incount array_of_requests outcount array_of_indices array_of_statuses : Z) :
    St → res (Ret * St) :=
  let c := PMPI_Waitsome incount array_of_requests outcount array_of_indices array_of_statuses in
  let complete := complete_some array_of_requests array_of_indices outcount in
  let gen s :=
    let '(r, s) := run c s in
    s ← log_data outcount SIZEOF_INT 0 s;
    n ← mint (st_mem s) outcount;
    s ← log_data array_of_indices (n * SIZEOF_INT) 0 s;
    s ← complete s; Ok (Returned r, s) in
  in_cd c (λ s, let '(r, s) := run c s in s ← complete s; Ok (Returned r, s)) gen
    (λ s, '(e, s) ← read_data outcount SIZEOF_INT s;
          replayed e gen
            (λ s, n ← mint (st_mem s) outcount;
                  '(_, s) ← read_data array_of_indices (n * SIZEOF_INT) s;
                  reqs ← requests_of array_of_requests array_of_indices outcount s;
                  s ← foldl (λ r f, s ← r; '(_, s) ← read_data f 0 s; Ok s) (Ok s) reqs;
                  zero s) s).

(** ** Collective communication *)

Definition MPI_Barrier (comm : Comm) : St → res (Ret * St) :=
  blocking (PMPI_Barrier comm) (log_data 0 0 (PMPI_Comm_rank mpi comm)) (probe_data 0).

Definition MPI_Bcast (buffer count : Z) (t : Datatype) (root : Z) (comm : Comm) (s : St) : res (Ret * St) :=
  n ← bytes count t;
  blocking (PMPI_Bcast buffer count t root comm) (log_data buffer n root) (read_data buffer n) s.

(** What the root receives is logged with its data, what the others do as an event. *)
Definition log_at_root (myrank root recvbuf n sendbuf : Z) : St → res St :=
  if myrank =? root then log_data recvbuf n root else log_data sendbuf 0 root.

Definition read_at_root (myrank root recvbuf n : Z) : St → res (CommLogErrT * St) :=
  if myrank =? root then read_data recvbuf n else probe_data 0.

(** [size*recvcnt*type_size]. *)
Definition all_bytes (comm : Comm) (recvcnt : Z) (t : Datatype) : res Z :=
  x ← int32 (PMPI_Comm_size mpi comm * recvcnt); int32 (x * PMPI_Type_size mpi t).

Definition MPI_Gather (sendbuf sendcnt : Z) (sendtype : Datatype) (recvbuf recvcnt : Z) (recvtype : Datatype)
    (root : Z) (comm : Comm) (s : St) : res (Ret * St) :=
  let c := PMPI_Gather sendbuf sendcnt sendtype recvbuf recvcnt recvtype root comm in
  match GetCurrentCD (st_path s) with
  | None => outside c s
  | Some _ =>
      let myrank := PMPI_Comm_rank mpi comm in
      n ← all_bytes comm recvcnt recvtype;
      blocking c (log_at_root myrank root recvbuf n sendbuf) (read_at_root myrank root recvbuf n) s
  end.

(** The length of the receive array: the sum of the counts, or the end of the
    last block if that is larger. *)
Definition totalcnts (comm : Comm) (recvcnts displs : list Z) : res Z :=
  let size := PMPI_Comm_size mpi comm in
  t ← for_range 0 size (λ i t, c ← aload recvcnts i; int64 (t + c)) 0;
  for_range 0 size (λ i t, d ← aload displs i; c ← aload recvcnts i; x ← int32 (d + c);
                           Ok (if t <? x then x else t)) t.

Definition total_bytes (comm : Comm) (recvcnts displs : list Z) (t : Datatype) : res Z :=
  n ← totalcnts comm recvcnts displs; int64 (n * PMPI_Type_size mpi t).

Definition MPI_Gatherv (sendbuf sendcnt : Z) (sendtype : Datatype) (recvbuf : Z) (recvcnts displs : list Z)
    (recvtype : Datatype) (root : Z) (comm : Comm) (s : St) : res (Ret * St) :=
  let myrank := PMPI_Comm_rank mpi comm in
  n ← total_bytes comm recvcnts displs recvtype;
  blocking (PMPI_Gatherv sendbuf sendcnt sendtype recvbuf recvcnts displs recvtype root comm)
    (log_at_root myrank root recvbuf n sendbuf) (read_at_root myrank root recvbuf n) s.

(** The replay reads [size*recvcnt*sizeof(recvtype)] bytes, the size of the
    handle of the type. *)
Definition MPI_Allgather (sendbuf sendcnt : Z) (sendtype : Datatype) (recvbuf recvcnt : Z) (recvtype : Datatype)
    (comm : Comm) (s : St) : res (Ret * St) :=
  n ← all_bytes comm recvcnt recvtype;
  x ← int32 (PMPI_Comm_size mpi comm * recvcnt);
  blocking (PMPI_Allgather sendbuf sendcnt sendtype recvbuf recvcnt recvtype comm)
    (log_data recvbuf n (PMPI_Comm_rank mpi comm)) (read_data recvbuf (x * sizeof_MPI_Datatype mpi)) s.

Definition MPI_Allgatherv (sendbuf sendcnt : Z) (sendtype : Datatype) (recvbuf : Z) (recvcnts displs : list Z)
    (recvtype : Datatype) (comm : Comm) (s : St) : res (Ret * St) :=
  n ← total_bytes comm recvcnts displs recvtype;
  blocking (PMPI_Allgatherv sendbuf sendcnt sendtype recvbuf recvcnts displs recvtype comm)
    (log_data recvbuf n (PMPI_Comm_rank mpi comm)) (read_data recvbuf n) s.

Definition MPI_Reduce (sendbuf recvbuf count : Z) (t : Datatype) (op : Op) (root : Z) (comm : Comm) (s : St) :
    res (Ret * St) :=
  let myrank := PMPI_Comm_rank mpi comm in
  n ← bytes count t;
  blocking (PMPI_Reduce sendbuf recvbuf count t op root comm)
    (log_at_root myrank root recvbuf n sendbuf) (read_at_root myrank root recvbuf n) s.

(** In a strict domain the reduction is non-blocking and can be interrupted. *)
Definition MPI_Allreduce (fuel : nat) (sendbuf recvbuf count : Z) (t : Datatype) (op : Op) (comm : Comm) (s : St) :
    res (Ret * St) :=
  n ← bytes count t;
  let c := PMPI_Allreduce sendbuf recvbuf count t op comm in
  let gen := generate c (log_data recvbuf n (PMPI_Comm_rank mpi comm)) in
  in_cd c
    (λ s, let '(_, req, m, w) := pmpi_iallreduce mpi sendbuf recvbuf count t op comm (st_mem s) (st_net s) in
          '(r, s) ← BlockUntilValid fuel req 0 {| st_mem := m; st_net := w; st_path := st_path s |};
          Ok (finish r, s))
    gen
    (λ s, '(e, s) ← read_data recvbuf n s;
          if bool_decide (e = kCommLogCommLogModeFlip) then gen s else zero s) s.

Definition MPI_Alltoall (sendbuf sendcnt : Z) (sendtype : Datatype) (recvbuf recvcnt : Z) (recvtype : Datatype)
    (comm : Comm) (s : St) : res (Ret * St) :=
  n ← all_bytes comm recvcnt recvtype;
  blocking (PMPI_Alltoall sendbuf sendcnt sendtype recvbuf recvcnt recvtype comm)
    (log_data recvbuf n (PMPI_Comm_rank mpi comm)) (read_data recvbuf n) s.

Definition MPI_Alltoallv (sendbuf : Z) (sendcnts sdispls : list Z) (sendtype : Datatype) (recvbuf : Z)
    (recvcnts rdispls : list Z) (recvtype : Datatype) (comm : Comm) (s : St) : res (Ret * St) :=
  n ← total_bytes comm recvcnts rdispls recvtype;
  blocking (PMPI_Alltoallv sendbuf sendcnts sdispls sendtype recvbuf recvcnts rdispls recvtype comm)
    (log_data recvbuf n (PMPI_Comm_rank mpi comm)) (read_data recvbuf n) s.

Definition MPI_Scatter (sendbuf sendcnt : Z) (sendtype : Datatype) (recvbuf recvcnt : Z) (recvtype : Datatype)
    (root : Z) (comm : Comm) (s : St) : res (Ret * St) :=
  n ← bytes recvcnt recvtype;
  blocking (PMPI_Scatter sendbuf sendcnt sendtype recvbuf recvcnt recvtype root comm)
    (log_data recvbuf n root) (read_data recvbuf n) s.

Definition MPI_Scatterv (sendbuf : Z) (sendcnts displs : list Z) (sendtype : Datatype) (recvbuf recvcnt : Z)
    (recvtype : Datatype) (root : Z) (comm : Comm) (s : St) : res (Ret * St) :=
  n ← bytes recvcnt recvtype;
  blocking (PMPI_Scatterv sendbuf sendcnts displs sendtype recvbuf recvcnt recvtype root comm)
    (log_data recvbuf n root) (read_data recvbuf n) s.

Definition MPI_Reduce_scatter (sendbuf recvbuf : Z) (recvcnts : list Z) (t : Datatype) (op : Op) (comm : Comm)
    (s : St) : res (Ret * St) :=
  let myrank := PMPI_Comm_rank mpi comm in
  x ← aload recvcnts myrank;
  n ← bytes x t;
  blocking (PMPI_Reduce_scatter sendbuf recvbuf recvcnts t op comm)
    (log_data recvbuf n myrank) (read_data recvbuf n) s.

Definition MPI_Scan (sendbuf recvbuf count : Z) (t : Datatype) (op : Op) (comm : Comm) (s : St) : res (Ret * St) :=
  n ← bytes count t;
  blocking (PMPI_Scan sendbuf recvbuf count t op comm)
    (log_data recvbuf n (PMPI_Comm_rank mpi comm)) (read_data recvbuf n) s.

(** The wrapper of each call. *)
Definition MPI (fuel : nat) (c : Call) : St → res (Ret * St) :=
  match c with
  | PMPI_Send b n t d g k => MPI_Send b n t d g k
  | PMPI_Ssend b n t d g k => MPI_Ssend b n t d g k
  | PMPI_Rsend b n t d g k => MPI_Rsend b n t d g k
  | PMPI_Bsend b n t d g k => MPI_Bsend b n t d g k
  | PMPI_Recv b n t r g k s => MPI_Recv b n t r g k s
  | PMPI_Sendrecv b n t d g b' n' t' r g' k s => MPI_Sendrecv b n t d g b' n' t' r g' k s
  | PMPI_Sendrecv_replace b n t d g r g' k s => MPI_Sendrecv_replace b n t d g r g' k s
  | PMPI_Isend b n t d g k r => MPI_Isend b n t d g k r
  | PMPI_Irecv b n t d g k r => MPI_Irecv b n t d g k r
  | PMPI_Test r f s => MPI_Test r f s
  | PMPI_Testall n r f s => MPI_Testall n r f s
  | PMPI_Testany n r i f s => MPI_Testany n r i f s
  | PMPI_Testsome n r o i s => MPI_Testsome n r o i s
  | PMPI_Wait r s => MPI_Wait fuel r s
  | PMPI_Waitall n r s => MPI_Waitall fuel n r s
  | PMPI_Waitany n r i s => MPI_Waitany n r i s
  | PMPI_Waitsome n r o i s => MPI_Waitsome n r o i s
  | PMPI_Barrier k => MPI_Barrier k
  | PMPI_Bcast b n t r k => MPI_Bcast b n t r k
  | PMPI_Gather b n t b' n' t' r k => MPI_Gather b n t b' n' t' r k
  | PMPI_Gatherv b n t b' ns ds t' r k => MPI_Gatherv b n t b' ns ds t' r k
  | PMPI_Allgather b n t b' n' t' k => MPI_Allgather b n t b' n' t' k
  | PMPI_Allgatherv b n t b' ns ds t' k => MPI_Allgatherv b n t b' ns ds t' k
  | PMPI_Reduce b b' n t o r k => MPI_Reduce b b' n t o r k
  | PMPI_Allreduce b b' n t o k => MPI_Allreduce fuel b b' n t o k
  | PMPI_Alltoall b n t b' n' t' k => MPI_Alltoall b n t b' n' t' k
  | PMPI_Alltoallv b ns ds t b' ns' ds' t' k => MPI_Alltoallv b ns ds t b' ns' ds' t' k
  | PMPI_Scatter b n t b' n' t' r k => MPI_Scatter b n t b' n' t' r k
  | PMPI_Scatterv b ns ds t b' n' t' r k => MPI_Scatterv b ns ds t b' n' t' r k
  | PMPI_Reduce_scatter b b' ns t o k => MPI_Reduce_scatter b b' ns t o k
  | PMPI_Scan b b' n t o k => MPI_Scan b b' n t o k
  end.
End wrapper.
Arguments Call : clear implicits.
Arguments Mpi : clear implicits.
Arguments St : clear implicits.
