(* ===== verification/MpiReplay.v ===== *)
(** * Message logging makes a re-execution repeat the execution

    Theorems about the wrappers of [MpiWrapper.v].  A program of blocking and
    collective calls that is executed in a relaxed domain does what it would do
    without the runtime; executed again from the start after a failure, it gets
    every message it had received from the log, sends nothing twice, and goes
    on where the failure was, as if nothing had happened.  The other theorems
    are the calls for which this does not hold. *)

From Stdlib Require Import ZArith Lia.
From stdpp Require Import base gmap list list_numbers numbers.
From S2P Require Import Prelude Layout Ids CommLog LogSpec LogReplay LogPack Memory CdLog CdReplay MpiWrapper.

Section mpireplay.
Context {Comm GroupT Datatype Op World : Type} `{EqDecision Comm} `{Layout Comm} `{Layout GroupT}.
#[local] Abbreviation CD := (CD Comm GroupT).
#[local] Abbreviation Call := (Call Comm Datatype Op).
#[local] Abbreviation St := (St Comm GroupT World).
Variable mpi : Mpi Comm GroupT Datatype Op World.
Variable fuel : nat.
Implicit Types (c : Call) (s : St) (cd : CD) (l : CommLog) (sp : Spec).

(** ** What a call logs *)

(** An event, the data received into a buffer, or both. *)
Inductive effect :=
  | Event (ptr task : Z)
  | Data (ptr len task : Z)
  | Exchange (sendptr dest ptr len task : Z).

Definition at_root (comm : Comm) (root recvbuf n sendbuf : Z) : effect :=
  if PMPI_Comm_rank mpi comm =? root then Data recvbuf n root else Event sendbuf root.

(** The calls that can be replayed: all the blocking ones but MPI_Allgather. *)
Definition effect_of (c : Call) : res effect :=
  match c with
  | PMPI_Send b _ _ d _ _ | PMPI_Ssend b _ _ d _ _ | PMPI_Rsend b _ _ d _ _ | PMPI_Bsend b _ _ d _ _ =>
      Ok (Event b d)
  | PMPI_Recv b n t src _ _ _ => n ← bytes mpi n t; Ok (Data b n src)
  | PMPI_Sendrecv b _ _ d _ b' n' t' src _ _ _ => n ← bytes mpi n' t'; Ok (Exchange b d b' n src)
  | PMPI_Sendrecv_replace b n t d _ src _ _ _ => n ← bytes mpi n t; Ok (Exchange b d b n src)
  | PMPI_Barrier k => Ok (Event 0 (PMPI_Comm_rank mpi k))
  | PMPI_Bcast b n t root _ => n ← bytes mpi n t; Ok (Data b n root)
  | PMPI_Gather b _ _ b' n' t' root k => n ← all_bytes mpi k n' t'; Ok (at_root k root b' n b)
  | PMPI_Gatherv b _ _ b' ns ds t' root k => n ← total_bytes mpi k ns ds t'; Ok (at_root k root b' n b)
  | PMPI_Allgatherv _ _ _ b' ns ds t' k => n ← total_bytes mpi k ns ds t'; Ok (Data b' n (PMPI_Comm_rank mpi k))
  | PMPI_Reduce b b' n t _ root k => n ← bytes mpi n t; Ok (at_root k root b' n b)
  | PMPI_Allreduce _ b' n t _ k => n ← bytes mpi n t; Ok (Data b' n (PMPI_Comm_rank mpi k))
  | PMPI_Alltoall _ _ _ b' n' t' k => n ← all_bytes mpi k n' t'; Ok (Data b' n (PMPI_Comm_rank mpi k))
  | PMPI_Alltoallv _ _ _ _ b' ns ds t' k => n ← total_bytes mpi k ns ds t'; Ok (Data b' n (PMPI_Comm_rank mpi k))
  | PMPI_Scatter _ _ _ b' n' t' root _ => n ← bytes mpi n' t'; Ok (Data b' n root)
  | PMPI_Scatterv _ _ _ _ b' n' t' root _ => n ← bytes mpi n' t'; Ok (Data b' n root)
  | PMPI_Reduce_scatter _ b' ns t _ k =>
      x ← aload ns (PMPI_Comm_rank mpi k); n ← bytes mpi x t; Ok (Data b' n (PMPI_Comm_rank mpi k))
  | PMPI_Scan _ b' n t _ k => n ← bytes mpi n t; Ok (Data b' n (PMPI_Comm_rank mpi k))
  | _ => Err AssertFail
  end.

Definition log_of_effect (e : effect) : St → res St :=
  match e with
  | Event ptr task => log_data mpi ptr 0 task
  | Data ptr len task => log_data mpi ptr len task
  | Exchange sp dest ptr len task => λ s, s ← log_data mpi sp 0 dest s; log_data mpi ptr len task s
  end.

Definition replay_of_effect (e : effect) : St → res (CommLogErrT * St) :=
  match e with
  | Event _ _ => probe_data 0
  | Data ptr len _ => read_data ptr len
  | Exchange _ _ ptr len _ => replay_exchange ptr len
  end.

Definition mode_is (md : CDLoggingMode) (s : St) : Prop :=
  ∃ cd ps, st_path s = cd :: ps ∧ cd_exec_mode_ cd ≠ kSuspension ∧ cd_logging_mode_ cd = md.

Lemma current s cd ps :
  st_path s = cd :: ps → cd_exec_mode_ cd ≠ kSuspension → GetCurrentCD (st_path s) = Some ([], cd, ps).
Proof. intros -> Hs. unfold GetCurrentCD. by rewrite bool_decide_eq_false_2. Qed.

Lemma blocking_gen c log replay s :
  mode_is kRelaxedCDGen s → blocking mpi c log replay s = generate mpi c log s.
Proof.
  intros (cd & ps & Hp & He & Hm). unfold blocking, by_mode. by rewrite (current _ _ _ Hp He), Hm.
Qed.

Lemma blocking_replay c log replay s :
  mode_is kRelaxedCDRead s →
  blocking mpi c log replay s =
    ('(e, s) ← replay s; if bool_decide (e = kCommLogCommLogModeFlip) then generate mpi c log s
                         else Ok (Returned 0, s)).
Proof.
  intros (cd & ps & Hp & He & Hm). unfold blocking, by_mode. by rewrite (current _ _ _ Hp He), Hm.
Qed.

(** Unfolds the wrapper of a call whose effect is known. *)
Ltac unfold_wrapper He Hc Hmd :=
  match type of He with effect_of ?c = _ => destruct c end;
  cbn [effect_of] in He; try discriminate; res_inv; cbn [MPI];
  unfold MPI_Send, MPI_Ssend, MPI_Rsend, MPI_Bsend, MPI_Recv, MPI_Sendrecv, MPI_Sendrecv_replace, MPI_Barrier,
    MPI_Bcast, MPI_Gather, MPI_Gatherv, MPI_Allgatherv, MPI_Reduce, MPI_Allreduce, MPI_Alltoall, MPI_Alltoallv,
    MPI_Scatter, MPI_Scatterv, MPI_Reduce_scatter, MPI_Scan, in_cd, by_mode, log_at_root, read_at_root, at_root;
  rewrite ?Hc, ?Hmd; try (erewrite aload_lookup by eassumption; rewrite ret_bind);
  repeat match goal with H : ?a = Ok _ |- context [?a] => rewrite H, ?ret_bind; clear H end.

(** The wrapper of a call that can be replayed, in the two modes of a relaxed
    domain. *)
Lemma MPI_gen c e s :
  effect_of c = Ok e → mode_is kRelaxedCDGen s → MPI mpi fuel c s = generate mpi c (log_of_effect e) s.
Proof.
  intros He Hm. pose proof Hm as (cd & ps & Hp & Hx & Hmd). pose proof (current _ _ _ Hp Hx) as Hc.
  unfold_wrapper He Hc Hmd; rewrite ?blocking_gen by done; try reflexivity;
    match goal with |- context [?a =? ?b] => by destruct (a =? b) end.
Qed.

Lemma MPI_replay c e s :
  effect_of c = Ok e → mode_is kRelaxedCDRead s →
  MPI mpi fuel c s =
    ('(r, s) ← replay_of_effect e s;
     if bool_decide (r = kCommLogCommLogModeFlip) then generate mpi c (log_of_effect e) s
     else Ok (Returned 0, s)).
Proof.
  intros He Hm. pose proof Hm as (cd & ps & Hp & Hx & Hmd). pose proof (current _ _ _ Hp Hx) as Hc.
  unfold_wrapper He Hc Hmd; rewrite ?blocking_replay by done; try reflexivity;
    match goal with |- context [?a =? ?b] => by destruct (a =? b) end.
Qed.

(** ** One call *)

Definition data_msg (d : list cell) (task : Z) : Msg :=
  {| m_data := Some d; m_len := zlen d; m_flag := 0; m_count := 1; m_reads := 0; m_rep := false; m_task := u32 task |}.

(** The messages a call adds to the log, from the memory after it. *)
Definition messages (e : effect) (m : mem) : list Msg :=
  match e with
  | Event _ task => [data_msg [] task]
  | Data ptr len task => [data_msg (mread m ptr len) task]
  | Exchange _ dest ptr len task => [data_msg [] dest; data_msg (mread m ptr len) task]
  end.

(** The buffer a call writes. *)
Definition region (e : effect) : Z * Z :=
  match e with Event ptr _ => (ptr, 0) | Data ptr len _ | Exchange _ _ ptr len _ => (ptr, len) end.

(** The domain is active, in a mode, with a log. *)
Record logging (md : CDLoggingMode) (s : St) (cd : CD) (ps : list CD) (l : CommLog) (sp : Spec) : Prop := {
  lg_path : st_path s = cd :: ps;
  lg_exec : cd_exec_mode_ cd ≠ kSuspension;
  lg_mode : cd_logging_mode_ cd = md;
  lg_ptr : comm_log_ptr_ cd = Some l;
  lg_rep : Rep l sp;
}.

(** Room for [k] more messages and [b] more bytes, in a log that may grow to
    [n] messages and [v] bytes. *)
Definition spare (t0 n v : Z) (l : CommLog) (sp : Spec) (k b : Z) : Prop :=
  fits t0 n v ∧ t_table_size_ (log_table_ l) ≤ Z.max t0 (2 * n) ∧
  zlen (s_msgs sp) + k ≤ n ∧ volume (s_msgs sp) + b ≤ v ∧ 0 ≤ k ∧ 0 ≤ b.

Definition logged_more (sp : Spec) (ms : list Msg) : Spec := with_new true (with_msgs (s_msgs sp ++ ms) sp).

Lemma log_data_ok s cd ps l sp ptr len task t0 n v k b :
  logging kRelaxedCDGen s cd ps l sp → 0 ≤ len < 2 ^ 63 → spare t0 n v l sp (1 + k) (len + b) → 0 ≤ k → 0 ≤ b →
  ∃ l', log_data mpi ptr len task s =
      Ok {| st_mem := st_mem s; st_net := st_net s; st_path := with_log l' cd :: ps |} ∧
    Rep l' (logged_more sp [data_msg (mread (st_mem s) ptr len) task]) ∧
    spare t0 n v l' (logged_more sp [data_msg (mread (st_mem s) ptr len) task]) k b.
Proof.
  intros [Hp Hx Hm Hl HR] Hlen (Hf & Ht & Hn & Hv & _ & _) Hk Hb.
  pose proof Hf as (Hf1 & Hf2 & Hf3). pose proof (zlen_nonneg (s_msgs sp)).
  pose proof (LogData_sim l sp (buffer_at (st_mem s) ptr len) (mread (st_mem s) ptr len) len (u32 task)
    true 0 false HR) as Href.
  destruct Href as (l' & Hlog & HR').
  { split; [change ELEM with 56 in *; lia|]. rewrite (rep_volume l sp HR). lia. }
  { lia. } { apply u32_range. } { lia. }
  { intros _. apply slice_all. symmetry. apply zlen_mread. lia. }
  assert (data_msg (mread (st_mem s) ptr len) task =
    {| m_data := Some (mread (st_mem s) ptr len); m_len := len; m_flag := 0; m_count := 1; m_reads := 0;
       m_rep := false; m_task := u32 task |}) as Hmsg by (unfold data_msg; rewrite zlen_mread by lia; done).
  exists l'. unfold logged_more. rewrite Hmsg. split; [|split; [exact HR'|]].
  - unfold log_data, log_entry, on_cd. rewrite (current _ _ _ Hp Hx).
    unfold CD_LogData. rewrite Hl, ret_bind, u64_small, Hlog, !ret_bind by lia. done.
  - pose proof (LogData_size _ _ _ _ _ _ _ _ _ _ HR Hlog) as Hsz.
    unfold spare. cbn [s_msgs with_new with_msgs]. rewrite zlen_app, volume_app.
    change (zlen [_]) with 1. cbn [volume foldr m_len]. split_and!; try done; lia.
Qed.

Lemma spare_le t0 n v l sp k b k' b' :
  spare t0 n v l sp k b → 0 ≤ k' ≤ k → 0 ≤ b' ≤ b → spare t0 n v l sp k' b'.
Proof. intros (?&?&?&?&_&_) ? ?. split_and!; try done; lia. Qed.

Lemma logged_more_app sp ms1 ms2 : logged_more (logged_more sp ms1) ms2 = logged_more sp (ms1 ++ ms2).
Proof. unfold logged_more. cbn. by rewrite <-app_assoc. Qed.

Lemma logging_log md s cd ps l sp l' sp' m w :
  logging md s cd ps l sp → Rep l' sp' →
  logging md {| st_mem := m; st_net := w; st_path := with_log l' cd :: ps |} (with_log l' cd) ps l' sp'.
Proof. intros [] ?. by split. Qed.

(** Logging what a call received. *)
Lemma log_effect_ok e s cd ps l sp t0 n v k b :
  logging kRelaxedCDGen s cd ps l sp → 0 ≤ (region e).2 < 2 ^ 63 →
  spare t0 n v l sp (2 + k) ((region e).2 + b) → 0 ≤ k → 0 ≤ b →
  ∃ l', log_of_effect e s = Ok {| st_mem := st_mem s; st_net := st_net s; st_path := with_log l' cd :: ps |} ∧
    Rep l' (logged_more sp (messages e (st_mem s))) ∧
    spare t0 n v l' (logged_more sp (messages e (st_mem s))) k b.
Proof.
  intros Hlg Hlen Hsp Hk Hb. destruct e as [ptr task|ptr len task|sptr dest ptr len task]; cbn [region snd] in *.
  - apply (log_data_ok s cd ps l sp ptr 0 task t0 n v k b); try done; try lia.
    eapply spare_le; [exact Hsp|lia|lia].
  - apply (log_data_ok s cd ps l sp ptr len task t0 n v k b); try done; try lia.
    eapply spare_le; [exact Hsp|lia|lia].
  - cbn [log_of_effect messages].
    destruct (log_data_ok s cd ps l sp sptr 0 dest t0 n v (1 + k) (len + b)) as (l1 & -> & HR1 & Hs1); try done; try lia.
    { eapply spare_le; [exact Hsp|lia|lia]. }
    rewrite ret_bind.
    destruct (log_data_ok _ _ _ _ _ ptr len task t0 n v k b
      (logging_log _ _ _ _ _ _ _ _ (st_mem s) (st_net s) Hlg HR1)) as (l2 & -> & HR2 & Hs2); try done; try lia.
    cbn [st_mem st_net] in *. rewrite logged_more_app in *.
    exists l2. split; [|split; [exact HR2|exact Hs2]]. done.
Qed.

(** A call in a domain that logs: MPI's result, and the messages in the log. *)
Lemma gen_step c e s cd ps l sp t0 n v k b r m w :
  logging kRelaxedCDGen s cd ps l sp → effect_of c = Ok e → 0 ≤ (region e).2 < 2 ^ 63 →
  spare t0 n v l sp (2 + k) ((region e).2 + b) → 0 ≤ k → 0 ≤ b →
  pmpi mpi c (st_mem s) (st_net s) = (r, m, w) →
  ∃ l', MPI mpi fuel c s = Ok (Returned r, {| st_mem := m; st_net := w; st_path := with_log l' cd :: ps |}) ∧
    Rep l' (logged_more sp (messages e m)) ∧ spare t0 n v l' (logged_more sp (messages e m)) k b.
Proof.
  intros Hlg He Hlen Hsp Hk Hb Hr. pose proof Hlg as [Hp Hx Hm Hl HR].
  rewrite (MPI_gen c e s He) by (by exists cd, ps). unfold generate, run. rewrite Hr.
  destruct (log_effect_ok e {| st_mem := m; st_net := w; st_path := st_path s |} cd ps l sp t0 n v k b)
    as (l' & -> & HR' & Hs'); try done.
  rewrite ret_bind. by exists l'.
Qed.

(** ** Reading a message back *)

Lemma spec_read_msg sp d task :
  s_msgs sp !! Z.to_nat (s_pos sp) = Some (data_msg d task) →
  spec_read sp (zlen d) = Ok (kCommLogOK, d, with_pos (s_pos sp + 1) sp).
Proof.
  intros Hm. unfold spec_read. rewrite Hm. cbn [m_len data_msg]. by rewrite Z.eqb_refl.
Qed.

Lemma spec_probe_msg sp d task :
  s_msgs sp !! Z.to_nat (s_pos sp) = Some (data_msg d task) →
  spec_probedata sp (zlen d) = Ok (kCommLogOK, with_pos (s_pos sp + 1) sp).
Proof.
  intros Hm. unfold spec_probedata. rewrite Hm. cbn [m_len data_msg]. by rewrite Z.eqb_refl.
Qed.

(** Reading does not change the size of the table. *)
Definition same_size (l l' : CommLog) : Prop := t_table_size_ (log_table_ l') = t_table_size_ (log_table_ l).

Lemma advance_same_size l e l' : advance_reexec l e = Ok l' → same_size l l'.
Proof.
  unfold advance_reexec. intros Ha. destruct (isrepeated_ e); [destruct (_ =? counter_ e)|]; res_inv;
    unfold same_size; cbn [log_table_ set_reexec set_table]; [by erewrite set_elem_size|by erewrite set_elem_size|done].
Qed.

Lemma ReadData_same_size l len r d l' : ReadData l len = Ok (r, d, l') → same_size l l'.
Proof.
  unfold ReadData. intros Hr. destruct (_ =? _); [by injection Hr as <- <- <-|].
  destruct (_ =? 0); [discriminate|]. apply bind_Ok in Hr as (e & _ & Hr).
  destruct (negb (len =? _)); [discriminate|].
  destruct (negb (completed_ e)); [by injection Hr as <- <- <-|].
  apply bind_Ok in Hr as (dd & _ & Hr). apply bind_Ok in Hr as (l1 & Ha & Hr). injection Hr as <- <- <-.
  by eapply advance_same_size.
Qed.

Lemma ProbeData_same_size l len r l' : ProbeData l len = Ok (r, l') → same_size l l'.
Proof.
  unfold ProbeData. intros Hr. destruct (_ =? _); [by injection Hr as <- <-|].
  destruct (_ =? 0); [discriminate|]. apply bind_Ok in Hr as (e & _ & Hr).
  destruct (negb (len =? _)); [discriminate|].
  destruct (negb (completed_ e)); [by injection Hr as <- <-|].
  apply bind_Ok in Hr as (l1 & Ha & Hr). injection Hr as <- <-. by eapply advance_same_size.
Qed.

Lemma read_data_spec s cd ps l sp ptr len r d sp' :
  logging kRelaxedCDRead s cd ps l sp → 0 ≤ len < 2 ^ 63 → spec_read sp len = Ok (r, d, sp') →
  ∃ l', read_data ptr len s =
      Ok (r, {| st_mem := mwrite (st_mem s) ptr d; st_net := st_net s;
                st_path := (if bool_decide (r = kCommLogCommLogModeFlip)
                            then SetCDLoggingMode kRelaxedCDGen (with_log l' cd) else with_log l' cd) :: ps |}) ∧
    Rep l' sp' ∧ same_size l l'.
Proof.
  intros [Hp Hx Hm Hl HR] Hlen Hs. pose proof (ReadData_sim l sp len HR) as Href. rewrite Hs in Href.
  destruct Href as (l' & Href & HR').
  destruct (ReadData l len) as [[[r1 d1] l1]|] eqn:Hread; [|done]. injection Href as -> -> ->.
  exists l'. split; [|split; [done|by eapply ReadData_same_size]]. unfold read_data, on_cd. rewrite (current _ _ _ Hp Hx).
  unfold CD_ReadData. rewrite Hl, u64_small, Hread, !ret_bind by lia. done.
Qed.

Lemma probe_data_spec s cd ps l sp len r sp' :
  logging kRelaxedCDRead s cd ps l sp → 0 ≤ len < 2 ^ 63 → spec_probedata sp len = Ok (r, sp') →
  ∃ l', probe_data len s =
      Ok (r, {| st_mem := st_mem s; st_net := st_net s;
                st_path := (if bool_decide (r = kCommLogCommLogModeFlip)
                            then SetCDLoggingMode kRelaxedCDGen (with_log l' cd) else with_log l' cd) :: ps |}) ∧
    Rep l' sp' ∧ same_size l l'.
Proof.
  intros [Hp Hx Hm Hl HR] Hlen Hs. pose proof (ProbeData_sim l sp len HR) as Href. rewrite Hs in Href.
  destruct Href as (l' & Href & HR').
  exists l'. split; [|split; [done|by eapply ProbeData_same_size]]. unfold probe_data, on_cd. rewrite (current _ _ _ Hp Hx).
  unfold CD_ProbeData. rewrite Hl, u64_small, Href, !ret_bind by lia. done.
Qed.

Lemma read_msg s cd ps l sp ptr d task :
  logging kRelaxedCDRead s cd ps l sp → s_msgs sp !! Z.to_nat (s_pos sp) = Some (data_msg d task) →
  zlen d < 2 ^ 63 →
  ∃ l', read_data ptr (zlen d) s =
      Ok (kCommLogOK, {| st_mem := mwrite (st_mem s) ptr d; st_net := st_net s; st_path := with_log l' cd :: ps |}) ∧
    Rep l' (with_pos (s_pos sp + 1) sp) ∧ same_size l l'.
Proof.
  intros Hlg Hm Hd. pose proof (zlen_nonneg d).
  destruct (read_data_spec s cd ps l sp ptr (zlen d) kCommLogOK d (with_pos (s_pos sp + 1) sp) Hlg)
    as (l' & Hpd & Hrp); [lia|by eapply spec_read_msg|].
  exists l'. split; [|done]. by rewrite Hpd, bool_decide_eq_false_2.
Qed.

Lemma probe_msg s cd ps l sp d task :
  logging kRelaxedCDRead s cd ps l sp → s_msgs sp !! Z.to_nat (s_pos sp) = Some (data_msg d task) →
  zlen d < 2 ^ 63 →
  ∃ l', probe_data (zlen d) s =
      Ok (kCommLogOK, {| st_mem := st_mem s; st_net := st_net s; st_path := with_log l' cd :: ps |}) ∧
    Rep l' (with_pos (s_pos sp + 1) sp) ∧ same_size l l'.
Proof.
  intros Hlg Hm Hd. pose proof (zlen_nonneg d).
  destruct (probe_data_spec s cd ps l sp (zlen d) kCommLogOK (with_pos (s_pos sp + 1) sp) Hlg)
    as (l' & Hpd & Hrp); [lia|by eapply spec_probe_msg|].
  exists l'. split; [|done]. by rewrite Hpd, bool_decide_eq_false_2.
Qed.

(** Reading back what the call logged makes the memory what the call made it. *)
Lemma replay_effect_ok e s cd ps l sp pre post m :
  logging kRelaxedCDRead s cd ps l sp → 0 ≤ (region e).2 < 2 ^ 63 →
  s_msgs sp = pre ++ messages e m ++ post → s_pos sp = zlen pre →
  same_outside (region e).1 (region e).2 (st_mem s) m →
  ∃ l', replay_of_effect e s =
      Ok (kCommLogOK, {| st_mem := m; st_net := st_net s; st_path := with_log l' cd :: ps |}) ∧
    Rep l' (with_pos (zlen (pre ++ messages e m)) sp) ∧ same_size l l'.
Proof.
  intros Hlg Hlen Hms Hpos Hout.
  assert (∀ d task ms1, messages e m = data_msg d task :: ms1 →
    s_msgs sp !! Z.to_nat (s_pos sp) = Some (data_msg d task)) as Hfst.
  { intros d task ms1 He. rewrite Hms, Hpos, to_nat_zlen, He. by apply list_lookup_middle. }
  destruct e as [ptr task|ptr len task|sptr dest ptr len task];
    cbn [region fst snd messages replay_of_effect] in *.
  - apply same_outside_nil in Hout. subst m.
    destruct (probe_msg s cd ps l sp [] task Hlg) as (l' & Hp & HR' & Hz'); [by eapply Hfst|done|].
    exists l'. split; [exact Hp|]. split; [|exact Hz']. rewrite zlen_app. change (zlen [_]) with 1. by rewrite <-Hpos.
  - assert (zlen (mread m ptr len) = len) as Hz by (apply zlen_mread; lia).
    destruct (read_msg s cd ps l sp ptr (mread m ptr len) task Hlg) as (l' & Hp & HR' & Hz');
      [by eapply Hfst|lia|].
    rewrite Hz in Hp. exists l'. rewrite Hp, mwrite_mread by (done || lia). split; [done|]. split; [|exact Hz'].
    rewrite zlen_app. change (zlen [_]) with 1. by rewrite <-Hpos.
  - assert (zlen (mread m ptr len) = len) as Hz by (apply zlen_mread; lia).
    unfold replay_exchange.
    destruct (probe_msg s cd ps l sp [] dest Hlg) as (l1 & Hp & HR1 & Hz1); [by eapply Hfst|done|].
    change (zlen []) with 0 in Hp. rewrite Hp, ret_bind, bool_decide_eq_true_2 by done.
    destruct (read_msg _ _ _ _ _ ptr (mread m ptr len) task
      (logging_log _ _ _ _ _ _ _ _ (st_mem s) (st_net s) Hlg HR1)) as (l2 & Hr & HR2 & Hz2).
    { cbn [s_msgs s_pos with_pos]. rewrite Hms, Hpos.
      replace (Z.to_nat (zlen pre + 1)) with (length pre + 1)%nat by (unfold zlen; lia).
      by rewrite lookup_app_r, Nat.add_comm, Nat.add_sub by lia. }
    { lia. }
    rewrite Hz in Hr. rewrite Hr, ret_bind, bool_decide_eq_true_2 by done.
    cbn [cassert st_mem st_net]. rewrite ret_bind, mwrite_mread by (done || lia).
    exists l2. split; [done|]. split; [|exact (eq_trans Hz2 Hz1)]. rewrite zlen_app. change (zlen [_; _]) with 2.
    cbn [s_pos with_pos] in HR2. rewrite Hpos in HR2.
    replace (zlen pre + 2) with (zlen pre + 1 + 1) by lia. exact HR2.
Qed.

(** A replayed call: nothing is sent or received. *)
Lemma replay_step c e s cd ps l sp pre post m :
  logging kRelaxedCDRead s cd ps l sp → effect_of c = Ok e → 0 ≤ (region e).2 < 2 ^ 63 →
  s_msgs sp = pre ++ messages e m ++ post → s_pos sp = zlen pre →
  same_outside (region e).1 (region e).2 (st_mem s) m →
  ∃ l', MPI mpi fuel c s =
      Ok (Returned 0, {| st_mem := m; st_net := st_net s; st_path := with_log l' cd :: ps |}) ∧
    Rep l' (with_pos (zlen (pre ++ messages e m)) sp) ∧ same_size l l'.
Proof.
  intros Hlg He Hlen Hms Hpos Hout. pose proof Hlg as [Hp Hx Hm Hl HR].
  rewrite (MPI_replay c e s He) by (by exists cd, ps).
  destruct (replay_effect_ok e s cd ps l sp pre post m) as (l' & -> & HR'); try done.
  rewrite ret_bind, bool_decide_eq_false_2 by done. by exists l'.
Qed.

Definition resumed (l : CommLog) (cd : CD) : CD := SetCDLoggingMode kRelaxedCDGen (with_log l cd).

(** At the end of the log the call is made, in a domain that logs again. *)
Lemma flip_step c e s cd ps l sp :
  logging kRelaxedCDRead s cd ps l sp → effect_of c = Ok e → 0 ≤ (region e).2 < 2 ^ 63 →
  s_pos sp = zlen (s_msgs sp) →
  ∃ l', MPI mpi fuel c s =
      MPI mpi fuel c {| st_mem := st_mem s; st_net := st_net s; st_path := resumed l' cd :: ps |} ∧
    logging kRelaxedCDGen {| st_mem := st_mem s; st_net := st_net s; st_path := resumed l' cd :: ps |}
      (resumed l' cd) ps l' (with_mode kGenerateLog sp) ∧ same_size l l'.
Proof.
  intros Hlg He Hlen Hpos. pose proof Hlg as [Hp Hx Hm Hl HR].
  assert (s_msgs sp !! Z.to_nat (s_pos sp) = None) as Hnone
    by (rewrite Hpos, to_nat_zlen; by apply lookup_ge_None_2).
  assert (∃ l', replay_of_effect e s = Ok (kCommLogCommLogModeFlip,
      {| st_mem := st_mem s; st_net := st_net s; st_path := resumed l' cd :: ps |}) ∧
    Rep l' (with_mode kGenerateLog sp) ∧ same_size l l') as (l' & Hr & HR' & Hsz).
  { assert (∀ len, 0 ≤ len < 2 ^ 63 → ∃ l', probe_data len s = Ok (kCommLogCommLogModeFlip,
        {| st_mem := st_mem s; st_net := st_net s; st_path := resumed l' cd :: ps |}) ∧
      Rep l' (with_mode kGenerateLog sp) ∧ same_size l l') as Hprobe.
    { intros len Hl0. destruct (probe_data_spec s cd ps l sp len kCommLogCommLogModeFlip (with_mode kGenerateLog sp) Hlg Hl0)
        as (l' & Hpd & Hrp); [unfold spec_probedata; by rewrite Hnone|]. exists l'. split; [|done].
      by rewrite Hpd, bool_decide_eq_true_2. }
    destruct e as [ptr task|ptr len task|sptr dest ptr len task]; cbn [region snd replay_of_effect] in *.
    - apply Hprobe. lia.
    - destruct (read_data_spec s cd ps l sp ptr len kCommLogCommLogModeFlip [] (with_mode kGenerateLog sp) Hlg Hlen)
        as (l' & Hpd & Hrp); [unfold spec_read; by rewrite Hnone|]. exists l'. split; [|done].
      by rewrite Hpd, bool_decide_eq_true_2.
    - destruct (Hprobe 0) as (l' & Hpd & Hrp); [lia|]. exists l'. split; [|done].
      unfold replay_exchange. by rewrite Hpd, ret_bind, bool_decide_eq_false_2. }
  exists l'. rewrite (MPI_replay c e s He) by (by exists cd, ps). rewrite Hr, ret_bind, bool_decide_eq_true_2 by done.
  split; [|split; [by split|exact Hsz]]. symmetry. apply MPI_gen; [done|]. eexists _, ps. done.
Qed.

(** ** Programs *)

(** A step computes on the memory, then makes the call it decides on. *)
Definition program := list (mem → mem * Call).

Definition enter (m : mem) (s : St) : St := {| st_mem := m; st_net := st_net s; st_path := st_path s |}.

Fixpoint exec (prog : program) (s : St) : res (list Ret * St) :=
  match prog with
  | [] => Ok ([], s)
  | step :: prog =>
      let '(m, c) := step (st_mem s) in
      '(r, s) ← MPI mpi fuel c (enter m s);
      '(rs, s) ← exec prog s;
      Ok (r :: rs, s)
  end.

(** The same program without the runtime. *)
Fixpoint direct (prog : program) (m : mem) (w : World) : list Z * mem * World :=
  match prog with
  | [] => ([], m, w)
  | step :: prog =>
      let '(m, c) := step m in
      let '(r, m, w) := pmpi mpi c m w in
      let '(rs, m, w) := direct prog m w in
      (r :: rs, m, w)
  end.

(** The messages a program logs. *)
Fixpoint trace (prog : program) (m : mem) (w : World) : list Msg :=
  match prog with
  | [] => []
  | step :: prog =>
      let '(m, c) := step m in
      let '(r, m, w) := pmpi mpi c m w in
      match effect_of c with Ok e => messages e m | Err _ => [] end ++ trace prog m w
  end.

(** A call that can be replayed: at most [B] bytes are logged, MPI succeeds and
    writes only the receive buffer (no status). *)
Definition recoverable (B : Z) (c : Call) : Prop :=
  ∃ e, effect_of c = Ok e ∧ 0 ≤ (region e).2 ≤ B ∧
    ∀ m w, ∃ m' w', pmpi mpi c m w = (0, m', w') ∧ same_outside (region e).1 (region e).2 m m'.

Definition recoverable_program (B : Z) (prog : program) : Prop := Forall (λ step, ∀ m, recoverable B (step m).2) prog.

Lemma exec_app p1 p2 s :
  exec (p1 ++ p2) s = ('(r1, s) ← exec p1 s; '(r2, s) ← exec p2 s; Ok (r1 ++ r2, s)).
Proof.
  revert s. induction p1 as [|st p1 IH]; intros s; simpl.
  - by destruct (exec p2 s) as [[r2 s2]|].
  - destruct (st (st_mem s)) as [m c]. destruct (MPI mpi fuel c (enter m s)) as [[r s1]|]; simpl; [|done].
    rewrite IH. destruct (exec p1 s1) as [[r1 s2]|]; simpl; [|done]. by destruct (exec p2 s2) as [[r2 s3]|].
Qed.

Lemma logging_enter md s cd ps l sp m : logging md s cd ps l sp → logging md (enter m s) cd ps l sp.
Proof. intros []. by split. Qed.

(** A program in a domain that logs does what it does without the runtime. *)
Lemma exec_gen B prog s cd ps l sp t0 n v k b rs m w :
  recoverable_program B prog → 0 ≤ B < 2 ^ 63 → logging kRelaxedCDGen s cd ps l sp →
  spare t0 n v l sp (2 * zlen prog + k) (B * zlen prog + b) → 0 ≤ k → 0 ≤ b →
  direct prog (st_mem s) (st_net s) = (rs, m, w) →
  ∃ l' sp', exec prog s = Ok (Returned <$> rs, {| st_mem := m; st_net := w; st_path := with_log l' cd :: ps |}) ∧
    Rep l' sp' ∧ s_msgs sp' = s_msgs sp ++ trace prog (st_mem s) (st_net s) ∧ spare t0 n v l' sp' k b.
Proof.
  intros Hrec HB. revert s cd l sp rs.
  induction Hrec as [|st prog Hc Hrec IH]; intros s cd l sp rs Hlg Hsp Hk Hb Hd; simpl in Hd.
  - injection Hd as <- <- <-. exists l, sp. cbn [exec trace]. rewrite app_nil_r. pose proof Hlg as [Hp Hx Hm Hl HR].
    change (zlen []) with 0 in Hsp.
    split; [|split; [done|split; [done|by (eapply spare_le; [exact Hsp|lia|lia])]]]. destruct s as [sm sn spt], cd; cbn in *. by rewrite Hp, Hl.
  - specialize (Hc (st_mem s)). cbn [exec trace]. destruct (st (st_mem s)) as [m0 c].
    destruct Hc as (e & He & Hlen & Hpm). cbn [snd] in *.
    destruct (Hpm m0 (st_net s)) as (m1 & w1 & Hr & Hout). rewrite Hr in *.
    destruct (direct prog m1 w1) as [[rs1 m2] w2] eqn:Hd1. injection Hd as <- <- <-.
    rewrite zlen_cons in Hsp. pose proof (zlen_nonneg prog).
    destruct (gen_step c e (enter m0 s) cd ps l sp t0 n v (2 * zlen prog + k) (B * zlen prog + b) 0 m1 w1)
      as (l1 & -> & HR1 & Hs1); try done; try lia; [by apply logging_enter| |].
    { eapply spare_le; [exact Hsp|lia|nia]. }
    rewrite ret_bind.
    destruct (IH _ _ _ _ rs1 (logging_log _ _ _ _ _ _ _ _ m1 w1 Hlg HR1)) as (l2 & sp2 & -> & HR2 & Hms & Hs2); try done.
    rewrite ret_bind. exists l2, sp2. split; [done|]. split; [done|]. split; [|done].
    rewrite Hms, He. cbn [s_msgs logged_more with_new with_msgs st_mem st_net]. by rewrite <-app_assoc.
Qed.

(** A program whose messages are in the log, replayed: the same results and the
    same memory, and nothing is sent or received. *)
Lemma exec_replay B prog s cd ps l sp pre post w0 rs m w :
  recoverable_program B prog → 0 ≤ B < 2 ^ 63 → logging kRelaxedCDRead s cd ps l sp →
  direct prog (st_mem s) w0 = (rs, m, w) →
  s_msgs sp = pre ++ trace prog (st_mem s) w0 ++ post → s_pos sp = zlen pre →
  ∃ l', exec prog s = Ok (Returned <$> rs, {| st_mem := m; st_net := st_net s; st_path := with_log l' cd :: ps |}) ∧
    Rep l' (with_pos (zlen (pre ++ trace prog (st_mem s) w0)) sp) ∧ same_size l l'.
Proof.
  intros Hrec HB. revert s cd l sp pre w0 rs.
  induction Hrec as [|st prog Hc Hrec IH]; intros s cd l sp pre w0 rs Hlg Hd Hms Hpos; simpl in Hd.
  - injection Hd as <- <- <-. exists l. cbn [exec trace] in *. rewrite app_nil_r, <-Hpos.
    pose proof Hlg as [Hp Hx Hm Hl HR]. split; [|split; [|done]].
    + destruct s as [sm sn spt], cd; cbn in *. by rewrite Hp, Hl.
    + by destruct sp.
  - specialize (Hc (st_mem s)). cbn [exec trace] in *. destruct (st (st_mem s)) as [m0 c].
    destruct Hc as (e & He & Hlen & Hpm). cbn [snd] in *.
    destruct (Hpm m0 w0) as (m1 & w1 & Hr & Hout). rewrite Hr, He in *.
    destruct (direct prog m1 w1) as [[rs1 m2] w2] eqn:Hd1. injection Hd as <- <- <-.
    destruct (replay_step c e (enter m0 s) cd ps l sp pre (trace prog m1 w1 ++ post) m1)
      as (l1 & -> & HR1 & Hz1); try done; try lia; [by apply logging_enter|by rewrite Hms, <-!app_assoc|].
    rewrite ret_bind. change (st_net (enter m0 s)) with (st_net s).
    destruct (IH _ _ _ _ (pre ++ messages e m1) w1 rs1 (logging_log _ _ _ _ _ _ _ _ m1 (st_net s) Hlg HR1))
      as (l2 & -> & HR2 & Hz2); try done.
    { cbn [s_msgs with_pos st_mem]. by rewrite Hms, <-!app_assoc. }
    rewrite ret_bind. exists l2. split; [done|]. cbn [st_mem] in HR2. rewrite <-app_assoc in HR2.
    split; [exact HR2|exact (eq_trans Hz2 Hz1)].
Qed.

(** Past the end of the log the program goes on in a domain that logs. *)
Lemma exec_flip B st prog s cd ps l sp :
  recoverable_program B (st :: prog) → 0 ≤ B < 2 ^ 63 → logging kRelaxedCDRead s cd ps l sp →
  s_pos sp = zlen (s_msgs sp) →
  ∃ l', let s' := {| st_mem := st_mem s; st_net := st_net s; st_path := resumed l' cd :: ps |} in
    exec (st :: prog) s = exec (st :: prog) s' ∧
    logging kRelaxedCDGen s' (resumed l' cd) ps l' (with_mode kGenerateLog sp) ∧ same_size l l'.
Proof.
  intros Hrec HB Hlg Hpos. apply Forall_cons_1 in Hrec as [Hc _]. specialize (Hc (st_mem s)).
  cbn [exec st_mem]. destruct (st (st_mem s)) as [m0 c]. destruct Hc as (e & He & Hlen & _).
  destruct (flip_step c e (enter m0 s) cd ps l sp) as (l' & Hf & Hlg' & Hz); try done; try lia; [by apply logging_enter|].
  exists l'. cbv zeta. rewrite Hf. split; [reflexivity|]. split; [|exact Hz]. destruct Hlg'. by split.
Qed.

Lemma spare_same t0 n v l sp l' sp' k b :
  spare t0 n v l sp k b → same_size l l' → s_msgs sp' = s_msgs sp → spare t0 n v l' sp' k b.
Proof. unfold spare, same_size. by intros (?&?&?&?&?&?) -> ->. Qed.

(** Re-executing a program after it was interrupted. *)
Lemma exec_recovery B prog1 prog2 s0 root l0 sp0 w0 t0 n v r1 m1 w1 r2 m2 w2 :
  recoverable_program B (prog1 ++ prog2) → 0 ≤ B < 2 ^ 63 →
  logging kRelaxedCDRead s0 root [] l0 sp0 →
  s_msgs sp0 = trace prog1 (st_mem s0) w0 → s_pos sp0 = 0 → st_net s0 = w1 →
  spare t0 n v l0 sp0 (2 * zlen prog2) (B * zlen prog2) →
  direct prog1 (st_mem s0) w0 = (r1, m1, w1) → direct prog2 m1 w1 = (r2, m2, w2) →
  ∃ root', exec (prog1 ++ prog2) s0 =
    Ok (Returned <$> (r1 ++ r2), {| st_mem := m2; st_net := w2; st_path := [root'] |}).
Proof.
  intros Hrec HB Hlg Hms Hpos Hw Hsp Hd1 Hd2. apply Forall_app in Hrec as [Hrec1 Hrec2].
  destruct (exec_replay B prog1 s0 root [] l0 sp0 [] [] w0 r1 m1 w1) as (l1 & He1 & HR1 & Hz1); try done.
  { rewrite app_nil_r. exact Hms. }
  rewrite exec_app, He1, ret_bind, fmap_app. cbn [app] in HR1. rewrite <-Hms in HR1.
  pose proof (logging_log _ _ _ _ _ _ _ _ m1 (st_net s0) Hlg HR1) as Hlg1.
  destruct prog2 as [|st prog2]; cbn [direct] in Hd2.
  { injection Hd2 as <- <- <-. cbn [exec fmap list_fmap]. rewrite ret_bind, !app_nil_r.
    cbn [st_net] in *. rewrite Hw. by eexists. }
  destruct (exec_flip B st prog2 _ _ _ _ _ Hrec2 HB Hlg1) as (l2 & -> & Hlg2 & Hz2); [done|].
  cbv zeta in Hlg2. cbn [st_mem st_net] in *.
  destruct (exec_gen B (st :: prog2) _ _ _ _ _ t0 n v 0 0 r2 m2 w2 Hrec2 HB Hlg2) as (l3 & sp3 & -> & _); try lia.
  { eapply spare_le; [eapply spare_same; [exact Hsp|exact (eq_trans Hz2 Hz1)|done]| |].
    - pose proof (zlen_nonneg (st :: prog2)). lia.
    - pose proof (zlen_nonneg (st :: prog2)). nia. }
  { cbn [st_mem st_net]. rewrite Hw. exact Hd2. }
  rewrite ret_bind. by eexists.
Qed.

(** C1: message logging makes a failure invisible.  A program of blocking and
    collective calls in the relaxed root domain (any call but MPI_Allgather, whose
    replay fails, and none that returns a status, which is not logged) does what it
    does without the runtime.  Interrupted after
    [prog1] and executed again from the start with the restored memory, the
    network being where [prog1] left it, it receives every message of [prog1]
    from the log without touching the network, switches back to logging at the
    end of the log, and the whole execution returns what the execution without
    a failure and without the runtime returns, with the same memory and the
    same network. *)
Theorem relaxed_recovery B prog1 prog2 id root m0 w0 r1 m1 w1 r2 m2 w2 :
  recoverable_program B (prog1 ++ prog2) → 0 ≤ B < 2 ^ 63 →
  fits 1024 (2 * zlen (prog1 ++ prog2)) (B * zlen (prog1 ++ prog2)) →
  InternalInitialize None id kRelaxed = Ok root →
  direct prog1 m0 w0 = (r1, m1, w1) → direct prog2 m1 w1 = (r2, m2, w2) →
  ∃ root1 root2 root3,
    exec prog1 {| st_mem := m0; st_net := w0; st_path := [Begin_mode root] |} =
      Ok (Returned <$> r1, {| st_mem := m1; st_net := w1; st_path := [root1] |}) ∧
    InternalReexecute root1 = Ok root2 ∧
    exec (prog1 ++ prog2) {| st_mem := m0; st_net := w1; st_path := [root2] |} =
      Ok (Returned <$> (r1 ++ r2), {| st_mem := m2; st_net := w2; st_path := [root3] |}).
Proof.
  intros Hrec HB Hfits Hinit Hd1 Hd2. pose proof Hrec as [Hrec1 _]%Forall_app.
  unfold InternalInitialize in Hinit. change (is_relaxed _) with true in Hinit. unfold CommLog_default in Hinit.
  destruct (CommLog_new_rep (1024 * 1024) 1024 (1024 * 1024)) as (l & Hl & HR & Hsz).
  { unfold units_ok. change ELEM with 56. lia. }
  rewrite Hl, ret_bind in Hinit. injection Hinit as <-.
  set (s0 := {| st_mem := m0; st_net := w0; st_path := _ |}). set (root := Begin_mode _) in *.
  assert (logging kRelaxedCDGen s0 root [] l (spec_empty kGenerateLog)) as Hlg by by split.
  rewrite zlen_app in Hfits. pose proof (zlen_nonneg prog1). pose proof (zlen_nonneg prog2).
  destruct (exec_gen B prog1 s0 root [] l (spec_empty kGenerateLog) 1024 (2 * (zlen prog1 + zlen prog2))
    (B * (zlen prog1 + zlen prog2)) (2 * zlen prog2) (B * zlen prog2) r1 m1 w1)
    as (l1 & sp1 & He1 & HR1 & Hms1 & Hs1); try done; try lia.
  { unfold spare. rewrite Hsz. cbn [s_msgs spec_empty volume foldr]. change (zlen []) with 0.
    split_and!; try done; lia || nia. }
  exists (with_log l1 root), (with_seq 0 (SetCDLoggingMode kRelaxedCDRead (with_log (ReInit l1) root))).
  destruct (exec_recovery B prog1 prog2
    {| st_mem := m0; st_net := w1;
       st_path := [with_seq 0 (SetCDLoggingMode kRelaxedCDRead (with_log (ReInit l1) root))] |}
    (with_seq 0 (SetCDLoggingMode kRelaxedCDRead (with_log (ReInit l1) root))) (ReInit l1)
    (with_pos 0 (with_mode kReplayLog sp1)) w0 1024 (2 * (zlen prog1 + zlen prog2))
    (B * (zlen prog1 + zlen prog2)) r1 m1 w1 r2 m2 w2) as (root3 & He2); try done.
  { split; try done. by apply ReInit_rep. }
  exists root3. split; [exact He1|]. split; [reflexivity|exact He2].
Qed.

(** ** The calls this does not hold for *)

(** MPI_Allgather in replay asks the log for [size*recvcnt] times the size
    of the handle of the type instead of the type's own size.  Where the two
    differ, the log refuses the length with a failed assertion. *)
Theorem MPI_Allgather_replay s cd ps l sp pre post sendbuf sendcnt sendtype recvbuf recvcnt recvtype comm d task :
  logging kRelaxedCDRead s cd ps l sp →
  effect_of (PMPI_Alltoall sendbuf sendcnt sendtype recvbuf recvcnt recvtype comm) =
    Ok (Data recvbuf (zlen d) task) →
  s_msgs sp = pre ++ data_msg d task :: post → s_pos sp = zlen pre →
  0 < PMPI_Comm_size mpi comm * recvcnt < 2 ^ 31 → 0 < sizeof_MPI_Datatype mpi < 2 ^ 31 →
  PMPI_Type_size mpi recvtype ≠ sizeof_MPI_Datatype mpi →
  MPI_Allgather mpi sendbuf sendcnt sendtype recvbuf recvcnt recvtype comm s = Err AssertFail.
Proof.
  intros Hlg He Hms Hpos Hcnt Hdt Hne. pose proof Hlg as [Hp Hx Hm Hl HR].
  cbn [effect_of] in He. apply bind_Ok in He as (n & Hn & He). injection He as -> _.
  pose proof Hn as Hn'. unfold all_bytes in Hn'. apply bind_Ok in Hn' as (x & Hxx & Hn').
  apply int32_inv in Hn' as [Hd _]. pose proof Hxx as [-> _]%int32_inv.
  unfold MPI_Allgather. rewrite Hn, ret_bind, Hxx, ret_bind.
  rewrite blocking_replay by (by exists cd, ps).
  pose proof (ReadData_sim l sp (PMPI_Comm_size mpi comm * recvcnt * sizeof_MPI_Datatype mpi) HR) as Href.
  unfold spec_read in Href. rewrite Hms, Hpos, to_nat_zlen, list_lookup_middle in Href by done.
  cbn [m_len data_msg] in Href. rewrite (proj2 (Z.eqb_neq _ _)) in Href by nia. cbn [negb mbind res_bind refines] in Href.
  unfold read_data, on_cd. rewrite (current _ _ _ Hp Hx). unfold CD_ReadData. rewrite Hl, u64_small by nia.
  destruct (ReadData l _) as [[[? ?] ?]|]; [done|]. by injection Href as ->.
Qed.

(** MPI_Wait in a relaxed domain that logs does not return for a request
    the domain itself started: BlockUntilValid deletes the incomplete entry of
    the request before ProbeAndLogData looks for it, which takes the missing
    entry for a wrong control flow and asserts.  The data is never logged. *)
Theorem MPI_Wait_relaxed_asserts s cd ps l i e request status r m w :
  st_path s = cd :: ps → cd_exec_mode_ cd ≠ kSuspension → cd_logging_mode_ cd = kRelaxedCDGen →
  comm_log_ptr_ cd = Some l → fuel ≠ 0%nat →
  find_incomplete request (incomplete_log_ cd) = Some (i, e) →
  find_incomplete request (delete i (incomplete_log_ cd)) = None → find_up request ps = None →
  pmpi_test mpi request status (st_mem s) (st_net s) = (r, true, m, w) → need_reexec mpi w = false →
  MPI_Wait mpi fuel request status s = Err AssertFail.
Proof.
  intros Hp Hx Hm Hl Hfuel Hf Hdel Hup Ht Hn. pose proof (current _ _ _ Hp Hx) as Hc.
  unfold MPI_Wait, in_cd, by_mode. rewrite Hc, Hm. unfold BlockUntilValid.
  destruct fuel as [|fl]; [done|]. cbn [block_until]. unfold test_request. rewrite Ht.
  unfold delete_incomplete, on_cd. cbn [st_path st_mem st_net].
  rewrite Hc. rewrite !ret_bind. cbn [st_net]. rewrite Hn. cbn [negb cassert]. rewrite ret_bind.
  unfold probe_and_log. cbn [st_path st_mem app].
  unfold DeleteIncompleteLog. rewrite Hf. cbn [snd].
  unfold GetCurrentCD. cbn [cd_exec_mode_ with_incomplete]. rewrite bool_decide_eq_false_2 by done.
  unfold CD_ProbeAndLogData. cbn [comm_log_ptr_ with_incomplete find_up incomplete_log_].
  rewrite Hl, Hdel, Hup. done.
Qed.

Lemma delete_all_ok reqs s cd ps :
  st_path s = cd :: ps → cd_exec_mode_ cd ≠ kSuspension →
  delete_all reqs s = Ok {| st_mem := st_mem s; st_net := st_net s;
    st_path := foldl (λ d r, (DeleteIncompleteLog d r).2) cd reqs :: ps |}.
Proof.
  unfold delete_all. revert s cd. induction reqs as [|r reqs IH]; intros s cd Hp Hx; cbn [foldl].
  - destruct s; cbn in *. by rewrite Hp.
  - rewrite ret_bind. unfold delete_incomplete at 2, on_cd. rewrite (current _ _ _ Hp Hx), !ret_bind.
    apply (IH {| st_mem := st_mem s; st_net := st_net s; st_path := (DeleteIncompleteLog cd r).2 :: ps |}); [done|].
    unfold DeleteIncompleteLog. by destruct (find_incomplete _ _) as [[? ?]|].
Qed.

Lemma test_first_pending reqs stats ids s :
  (∀ i, In i ids → is_request_null mpi (st_mem s) (reqs i) = false ∧
     pmpi_test mpi (reqs i) (stats i) (st_mem s) (st_net s) = (0, false, st_mem s, st_net s)) →
  test_first mpi reqs stats ids s = ([], s).
Proof.
  induction ids as [|i ids IH]; intros Hpend; [done|]. cbn [test_first].
  destruct (Hpend i) as [-> Ht]; [by left|]. unfold test_request. rewrite Ht.
  assert ({| st_mem := st_mem s; st_net := st_net s; st_path := st_path s |} = s) as -> by by destruct s.
  rewrite IH; [done|]. intros j Hj. apply Hpend. by right.
Qed.

(** MPI_Waitall in a strict domain does not wait if none of the requests
    is complete when it is called: it forgets the incomplete operations and
    returns -1, with the requests still pending and the buffers unreceived. *)
Theorem MPI_Waitall_strict_returns_early s cd ps count reqs stats :
  st_path s = cd :: ps → cd_exec_mode_ cd ≠ kSuspension → cd_logging_mode_ cd = kStrictCD → 0 < count →
  (∀ i, 0 ≤ i < count → is_request_null mpi (st_mem s) (request mpi reqs i) = false ∧
     pmpi_test mpi (request mpi reqs i) (stats + i * sizeof_MPI_Status mpi) (st_mem s) (st_net s) =
       (0, false, st_mem s, st_net s)) →
  MPI_Waitall mpi fuel count reqs stats s =
    Ok (Returned (-1), {| st_mem := st_mem s; st_net := st_net s;
      st_path := foldl (λ d r, (DeleteIncompleteLog d r).2) cd (requests mpi count reqs) :: ps |}).
Proof.
  intros Hp Hx Hm Hcnt Hpend. pose proof (current _ _ _ Hp Hx) as Hc.
  unfold MPI_Waitall. rewrite (proj2 (Z.ltb_lt _ _) Hcnt). cbn [cassert]. rewrite ret_bind.
  unfold in_cd, by_mode. rewrite Hc, Hm. unfold BlockallUntilValid.
  rewrite test_first_pending.
  - rewrite (delete_all_ok _ s cd ps Hp Hx), !ret_bind. done.
  - intros i Hi. apply Hpend. apply list_elem_of_In in Hi. by apply elem_of_seqZ in Hi.
Qed.
End mpireplay.

(** ** A small MPI

    One task of one; a message is a byte, the number of the call that receives
    it; the world counts the calls. *)

#[local] Abbreviation ex_Call := (Call uint32_t unit unit).

Definition ex_pmpi (c : ex_Call) (m : mem) (w : Z) : Z * mem * Z :=
  match c with
  | PMPI_Recv buf _ _ _ _ _ _ | PMPI_Bcast buf _ _ _ _ | PMPI_Sendrecv _ _ _ _ _ buf _ _ _ _ _ _ =>
      (0, mwrite m buf [Some w], w + 1)
  | _ => (0, m, w + 1)
  end.

(** Requests are never null; the tests say whether they are complete. *)
Definition ex_mpi (test : bool) : Mpi uint32_t uint32_t unit unit Z := {|
  pmpi := ex_pmpi;
  pmpi_test := λ _ _ m w, (0, test, m, w);
  pmpi_iallreduce := λ _ _ _ _ _ _ m w, (0, 0, m, w);
  PMPI_Type_size := λ _, 1;
  PMPI_Comm_rank := λ _, 0;
  PMPI_Comm_size := λ _, 1;
  sizeof_MPI_Request := 4;
  sizeof_MPI_Status := 20;
  sizeof_MPI_Datatype := 4;
  is_request_null := λ _ _, false;
  MPI_COMM_NULL := UInt 0;
  poll := λ _ w, (2 ^ 32 - 1, w);
  need_reexec := λ _, false;
|}.

(** Receive a byte; send it on from another buffer; exchange; broadcast. *)
Definition ex_prog1 : program :=
  [(λ m, (m, PMPI_Recv 100 1 tt 3 7 (UInt 1) 0 : ex_Call));
   (λ m, (mwrite m 200 (mread m 100 1), PMPI_Send 200 1 tt 3 7 (UInt 1)))].

Definition ex_prog2 : program :=
  [(λ m, (m, PMPI_Sendrecv 200 1 tt 3 7 100 1 tt 2 7 (UInt 1) 0 : ex_Call));
   (λ m, (m, PMPI_Bcast 300 1 tt 0 (UInt 1)))].

Lemma same_outside_mwrite m a b : same_outside a 1 m (mwrite m a [b]).
Proof. intros i Hi. rewrite lookup_mwrite. change (zlen [b]) with 1. by rewrite decide_False. Qed.

Lemma ex_recoverable : recoverable_program (ex_mpi true) 1 (ex_prog1 ++ ex_prog2).
Proof.
  repeat constructor; intros m; cbn [snd].
  - exists (Data 100 1 3). split; [reflexivity|]. split; [cbn; lia|].
    intros m1 w. eexists _, _. split; [reflexivity|apply same_outside_mwrite].
  - exists (Event 200 3). split; [reflexivity|]. split; [cbn; lia|].
    intros m1 w. eexists _, _. split; [reflexivity|done].
  - exists (Exchange 200 3 100 1 2). split; [reflexivity|]. split; [cbn; lia|].
    intros m1 w. eexists _, _. split; [reflexivity|apply same_outside_mwrite].
  - exists (Data 300 1 0). split; [reflexivity|]. split; [cbn; lia|].
    intros m1 w. eexists _, _. split; [reflexivity|apply same_outside_mwrite].
Qed.

Lemma ex_root : ∃ root, InternalInitialize None ex_id kRelaxed = Ok root.
Proof.
  unfold InternalInitialize. change (is_relaxed _) with true. unfold CommLog_default.
  destruct (CommLog_new_rep (1024 * 1024) 1024 (1024 * 1024)) as (l & -> & _).
  { unfold units_ok. change ELEM with 56. lia. }
  by eexists.
Qed.

Lemma relaxed_recovery_witness :
  let m1 : mem := <[200 := 0]> (<[100 := 0]> ∅) in
  let m2 : mem := <[300 := 3]> (<[200 := 0]> (<[100 := 2]> ∅)) in
  ∃ root root1 root2 root3, InternalInitialize None ex_id kRelaxed = Ok root ∧
    exec (ex_mpi true) 0 ex_prog1 {| st_mem := ∅; st_net := 0; st_path := [Begin_mode root] |} =
      Ok ([Returned 0; Returned 0], {| st_mem := m1; st_net := 2; st_path := [root1] |}) ∧
    InternalReexecute root1 = Ok root2 ∧
    exec (ex_mpi true) 0 (ex_prog1 ++ ex_prog2) {| st_mem := ∅; st_net := 2; st_path := [root2] |} =
      Ok ([Returned 0; Returned 0; Returned 0; Returned 0],
          {| st_mem := m2; st_net := 4; st_path := [root3] |}).
Proof.
  intros m1 m2. destruct ex_root as [root Hroot]. exists root.
  destruct (relaxed_recovery (ex_mpi true) 0 1 ex_prog1 ex_prog2 ex_id root ∅ 0 [0; 0] m1 2 [0; 0] m2 4)
    as (root1 & root2 & root3 & He1 & Hre & He2).
  - exact ex_recoverable.
  - lia.
  - unfold fits. change (zlen (ex_prog1 ++ ex_prog2)) with 4. change ELEM with 56. lia.
  - exact Hroot.
  - vm_compute. reflexivity.
  - vm_compute. reflexivity.
  - exists root1, root2, root3. split; [exact Hroot|]. split; [exact He1|]. split; [exact Hre|exact He2].
Defined.

(** A log of one message of one byte, in replay. *)
Definition ex_gather_entries : list LogTableElement :=
  [{| pos_ := 0; length_ := 1; completed_ := true; flag_ := 0; counter_ := 1; reexec_counter_ := 0;
      isrepeated_ := false; taskID_ := 0 |}].

Definition ex_gather_log : CommLog :=
  {| queue_size_unit_ := 4; table_size_unit_ := 1; child_log_size_unit_ := 16; comm_log_mode_ := kReplayLog;
     log_queue_ := {| q_base_ptr_ := Some [Some 5]; q_cur_pos_ := 1; q_queue_size_ := 1 |};
     log_table_ := {| t_base_ptr_ := Some (Some <$> ex_gather_entries); t_cur_pos_ := 1; t_table_size_ := 1 |};
     log_table_reexec_pos_ := 0; new_log_generated_ := false; child_log_ := child_null |}.

Definition ex_gather_spec : Spec :=
  {| s_msgs := [data_msg [Some 5] 0]; s_pos := 0; s_mode := kReplayLog; s_new := false; s_packs := [] |}.

Lemma ex_gather_rep : Rep ex_gather_log ex_gather_spec.
Proof.
  exists ex_gather_entries, [Some 5]. split.
  - exists []. vm_compute. done.
  - exists []. vm_compute. done.
  - left. split; reflexivity.
  - vm_compute. repeat split; discriminate.
  - repeat constructor; discriminate.
  - reflexivity.
  - vm_compute. repeat split; discriminate.
  - reflexivity.
  - reflexivity.
  - vm_compute. repeat split; discriminate.
Qed.

Definition ex_state (cd : CD uint32_t uint32_t) : St uint32_t uint32_t Z :=
  {| st_mem := ∅; st_net := 0; st_path := [cd] |}.

Lemma MPI_Allgather_replay_witness :
  let cd := ex_cd kRelaxedCDRead ex_gather_log [] in
  MPI_Allgather (ex_mpi true) 200 1 tt 100 1 tt (UInt 1) (ex_state cd) = Err AssertFail.
Proof.
  intros cd.
  apply (MPI_Allgather_replay (ex_mpi true) (ex_state cd) cd [] ex_gather_log ex_gather_spec [] [] 200 1 tt 100 1 tt
    (UInt 1) [Some 5] 0); cbn -[Z.pow]; try reflexivity; try lia.
  split; try reflexivity; [discriminate|exact ex_gather_rep].
Defined.

(** A receive the domain itself started, with the request at address 96. *)
Lemma MPI_Wait_relaxed_asserts_witness :
  MPI_Wait (ex_mpi true) 1 96 0 (ex_state (ex_cd kRelaxedCDGen ex_child_log [ex_entry])) = Err AssertFail.
Proof.
  apply (MPI_Wait_relaxed_asserts (ex_mpi true) 1 _ (ex_cd kRelaxedCDGen ex_child_log [ex_entry]) [] ex_child_log 0
    ex_entry 96 0 0 ∅ 0); try reflexivity; discriminate.
Defined.

Lemma MPI_Waitall_strict_returns_early_witness :
  let cd := {| cd_id_ := ex_id; cd_type_ := kStrict; cd_exec_mode_ := kExecution; cd_logging_mode_ := kStrictCD;
               comm_log_ptr_ := None; incomplete_log_ := [ex_entry]; child_seq_id_ := 0 |} in
  MPI_Waitall (ex_mpi false) 0 2 96 400 (ex_state cd) =
    Ok (Returned (-1), {| st_mem := ∅; st_net := 0; st_path := [with_incomplete [] cd] |}).
Proof.
  intros cd. apply (MPI_Waitall_strict_returns_early (ex_mpi false) 0 (ex_state cd) cd [] 2 96 400);
    try reflexivity; [discriminate|]. intros i Hi. split; reflexivity.
Defined.
