(* ===== verification/TableStore.v ===== *)
(** * The table of a preservation store

    [src/src/persistence/base_store.h] and [table_store.hpp]: the word that
    packs the size of an entry with its attributes, the entry of a preserved
    region ([CDEntry]) and the growing table of entries ([TableStore<CDEntry>])
    a domain keeps.  The debugging output of the searches is omitted, and so is
    [prv_entry_], the link to an earlier table that only [Advance(offset)]
    writes. *)

From Stdlib Require Import ZArith Lia.
From stdpp Require Import base list list_numbers numbers.
From S2P Require Import Prelude Layout.

(** ** Attributes *)

(** [Attr]: 48 bits of size, 16 bits of attributes. *)
Definition knoattr : Z := 0.
Definition kinvalid : Z := 1.
Definition krefer : Z := 4.
Definition kremote : Z := 8.
Definition knested : Z := 64.
Definition ktable : Z := 128.
Definition koutput : Z := 256.
Definition karray : Z := 512.

Definition Attr_new (attr size : Z) : Z :=
  Z.lor (Z.ldiff (u64 (Z.shiftl attr 48)) (Z.ones 48)) (Z.land size (Z.ones 48)).
Definition attr_size (code : Z) : Z := Z.land code (Z.ones 48).
Definition attr_bits (code : Z) : Z := Z.shiftr code 48.
Definition Attr_Set (code attr : Z) : Z := Z.lor code (u64 (Z.shiftl attr 48)).
Definition Attr_Unset (code attr : Z) : Z := Z.ldiff code (u64 (Z.shiftl attr 48)).
Definition CheckAll (code attr : Z) : bool := Z.lxor (attr_bits code) attr =? 0.
Definition CheckAny (code attr : Z) : bool := negb (Z.land (attr_bits code) attr =? 0).
Definition Attr_Check (code attr : Z) : bool := Z.land (attr_bits code) attr =? attr.

(** [AttrInternal]: the bit fields, in the order the compiler lays them out,
    from the least significant bit. *)
Definition table_ (code : Z) : bool := Z.testbit code 56.
Definition invalid_ (code : Z) : bool := Z.testbit code 63.

(** ** Entries *)

(** [src_] is the address of the region, or the tag an entry refers to. *)
Record CDEntry := { id_ : Z; size_ : Z; offset_ : Z; src_ : Z }.

#[export] Instance CDEntry_eq_dec : EqDecision CDEntry.
Proof. solve_decision. Defined.

Definition CDEntry_default : CDEntry := {| id_ := 0; size_ := 0; offset_ := 0; src_ := 0 |}.
Definition CDEntry_new (id attr size offset src : Z) : CDEntry :=
  {| id_ := id; size_ := Attr_new attr size; offset_ := offset; src_ := src |}.
Definition SetOffset (offset : Z) (e : CDEntry) : CDEntry :=
  {| id_ := id_ e; size_ := size_ e; offset_ := offset; src_ := src_ e |}.
Definition with_size (code : Z) (e : CDEntry) : CDEntry :=
  {| id_ := id_ e; size_ := code; offset_ := offset_ e; src_ := src_ e |}.
Definition entry_size (e : CDEntry) : Z := attr_size (size_ e).

(** [sizeof(CDEntry)], and the null address. *)
Definition ENTRY_SIZE : Z := 32.
Definition NULL : Z := 0.
Definition INVALID_NUM : Z := 18446744073709551615.
Definition BASE_ENTRY_CNT : Z := 128.

(** ** The table *)

(** The allocation is [t_ptr_]; [t_size_] is its size in bytes. *)
Record TableStore := {
  t_ptr_ : option (list CDEntry);
  t_size_ : Z;
  t_tail_ : Z;
  t_head_ : Z;
  t_advance_point_ : Z;
  t_grow_unit_ : Z;
  t_allocated_ : Z;
}.

Definition AllocateTable (t : TableStore) (entry_cnt : Z) : res TableStore :=
  let t := {| t_ptr_ := t_ptr_ t; t_size_ := t_size_ t; t_tail_ := t_advance_point_ t; t_head_ := 0;
              t_advance_point_ := t_advance_point_ t; t_grow_unit_ := t_grow_unit_ t;
              t_allocated_ := t_allocated_ t |} in
  if entry_cnt =? 0 then Ok t
  else match t_ptr_ t with
       | None =>
           p ← new_array entry_cnt ENTRY_SIZE CDEntry_default;
           Ok {| t_ptr_ := Some p; t_size_ := u64 (entry_cnt * ENTRY_SIZE); t_tail_ := t_tail_ t;
                 t_head_ := t_head_ t; t_advance_point_ := t_advance_point_ t; t_grow_unit_ := entry_cnt;
                 t_allocated_ := u32 (t_allocated_ t + 1) |}
       | Some _ =>
           Ok {| t_ptr_ := t_ptr_ t; t_size_ := t_size_ t; t_tail_ := t_tail_ t; t_head_ := t_head_ t;
                 t_advance_point_ := t_advance_point_ t; t_grow_unit_ := entry_cnt;
                 t_allocated_ := t_allocated_ t |}
       end.

(** [TableStore(alloc)]; the size of a table without memory is not set. *)
Definition TableStore_new (alloc : Z) : res TableStore :=
  AllocateTable {| t_ptr_ := None; t_size_ := 0; t_tail_ := 0; t_head_ := 0; t_advance_point_ := 0;
                   t_grow_unit_ := 32; t_allocated_ := 0 |} alloc.

Definition Table_Init (t : TableStore) : TableStore :=
  {| t_ptr_ := t_ptr_ t; t_size_ := t_size_ t; t_tail_ := 0; t_head_ := 0; t_advance_point_ := 0;
     t_grow_unit_ := if 0 <? t_size_ t then u64 (t_size_ t * 2) else t_grow_unit_ t;
     t_allocated_ := t_allocated_ t |}.

(** [NeedRealloc]'s loop: the unit doubles until the table is large enough; 64
    doublings leave 0 of a 64-bit unit, and the loop would go on forever. *)
Fixpoint grow_table (fuel : nat) (need size unit : Z) (ret : bool) : res (bool * Z * Z) :=
  match fuel with
  | O => Err OutOfFuel
  | S fuel =>
      if size <? need then
        let unit := u64 (Z.shiftl unit 1) in
        grow_table fuel need (u64 (unit * ENTRY_SIZE)) unit true
      else Ok (ret, size, unit)
  end.

Definition NeedRealloc (t : TableStore) (cnt : Z) : res (bool * TableStore) :=
  '(ret, size, unit) ← grow_table 65 (u64 ((t_tail_ t + cnt) * ENTRY_SIZE)) (t_size_ t) (t_grow_unit_ t) false;
  Ok (ret, {| t_ptr_ := t_ptr_ t; t_size_ := size; t_tail_ := t_tail_ t; t_head_ := t_head_ t;
              t_advance_point_ := t_advance_point_ t; t_grow_unit_ := unit; t_allocated_ := t_allocated_ t |}).

Definition with_entries (p : list CDEntry) (t : TableStore) : TableStore :=
  {| t_ptr_ := Some p; t_size_ := t_size_ t; t_tail_ := t_tail_ t; t_head_ := t_head_ t;
     t_advance_point_ := t_advance_point_ t; t_grow_unit_ := t_grow_unit_ t; t_allocated_ := t_allocated_ t |}.

Definition with_tail (n : Z) (t : TableStore) : TableStore :=
  {| t_ptr_ := t_ptr_ t; t_size_ := t_size_ t; t_tail_ := n; t_head_ := t_head_ t;
     t_advance_point_ := t_advance_point_ t; t_grow_unit_ := t_grow_unit_ t; t_allocated_ := t_allocated_ t |}.

Definition Table_Reallocate (t : TableStore) : res TableStore :=
  match t_ptr_ t with
  | None => AllocateTable t BASE_ENTRY_CNT
  | Some p =>
      q ← new_array (t_grow_unit_ t) ENTRY_SIZE CDEntry_default;
      old ← slice (Some p) 0 (t_tail_ t);
      q ← blit (Some q) 0 old;
      Ok {| t_ptr_ := q; t_size_ := t_size_ t; t_tail_ := t_tail_ t; t_head_ := t_head_ t;
            t_advance_point_ := t_advance_point_ t; t_grow_unit_ := t_grow_unit_ t;
            t_allocated_ := u32 (t_allocated_ t + 1) |}
  end.

(** The four forms of [Insert] of one entry, and [InsertEntry]; the pointer
    [InsertEntry] returns is given by the index of the entry. *)
Definition InsertEntry (t : TableStore) (e : CDEntry) : res (Z * TableStore) :=
  '(need, t) ← NeedRealloc t 1;
  t ← (if need : bool then Table_Reallocate t else Ok t);
  ret ← crem (t_tail_ t) (t_size_ t);
  match t_ptr_ t with
  | None => Err OutOfBounds
  | Some p => p ← astore p (t_tail_ t) e; Ok (ret, with_tail (u64 (t_tail_ t + 1)) (with_entries p t))
  end.

Definition Insert (t : TableStore) (e : CDEntry) : res TableStore := '(_, t) ← InsertEntry t e; Ok t.

Definition entry_at (t : TableStore) (i : Z) : res CDEntry :=
  match t_ptr_ t with None => Err OutOfBounds | Some p => aload p i end.

(** ** Searches *)

(** [FindReverseOrder] from the last entry; an attribute asked for asserts
    when an entry has the tag and the attribute. *)
Fixpoint find_reverse (t : TableStore) (tag attr : Z) (n : nat) : res (option Z) :=
  match n with
  | O => Ok None
  | S n =>
      e ← entry_at t (Z.of_nat n);
      if id_ e =? tag then
        if attr =? knoattr then Ok (Some (Z.of_nat n))
        else _ ← cassert (negb (Attr_Check (size_ e) attr)); find_reverse t tag attr n
      else find_reverse t tag attr n
  end.

Definition FindReverse (t : TableStore) (tag attr : Z) : res (option Z) :=
  find_reverse t tag attr (Z.to_nat (t_tail_ t)).

(** [Find(id)] and [FindWithOffset]: the first entry from [i]. *)
Fixpoint find_from (t : TableStore) (f : CDEntry → bool) (i : Z) (n : nat) : res (option Z) :=
  match n with
  | O => Ok None
  | S n => e ← entry_at t i; if f e then Ok (Some i) else find_from t f (i + 1) n
  end.

Definition Find (t : TableStore) (id : Z) : res (option Z) :=
  find_from t (λ e, id_ e =? id) 0 (Z.to_nat (t_tail_ t)).
Definition FindWithOffset (t : TableStore) (offset table_offset : Z) : res (option Z) :=
  find_from t (λ e, offset_ e =? offset) table_offset (Z.to_nat (t_tail_ t - table_offset)).

(** [FindWithAttr] into the same table: the entries that are kept move down. *)
Definition FindWithAttr_self (t : TableStore) (attr begin : Z) (is_true : bool) : res TableStore :=
  '(dst, t) ← for_range begin (t_tail_ t) (λ i '(dst, t),
     e ← entry_at t i;
     if bool_decide (CheckAny (size_ e) attr = is_true) then
       match t_ptr_ t with
       | None => Err OutOfBounds
       | Some p => p ← astore p dst e; Ok (dst + 1, with_entries p t)
       end
     else Ok (dst, t)) (begin, t);
  Ok (with_tail dst t).

(** [FindWithAttr] into another table; it returns that table's tail. *)
Definition FindWithAttr (t : TableStore) (attr begin : Z) (into : TableStore) (is_true : bool) :
    res (Z * TableStore) :=
  into ← for_range begin (t_tail_ t) (λ i into,
     e ← entry_at t i;
     if bool_decide (CheckAny (size_ e) attr = is_true) then Insert into e else Ok into) into;
  Ok (t_tail_ into, into).

Definition Table_Free (t : TableStore) (reuse : bool) : TableStore :=
  if reuse then
    {| t_ptr_ := t_ptr_ t; t_size_ := t_size_ t; t_tail_ := 0; t_head_ := t_head_ t; t_advance_point_ := 0;
       t_grow_unit_ := t_grow_unit_ t; t_allocated_ := 0 |}
  else
    {| t_ptr_ := None; t_size_ := 0; t_tail_ := 0; t_head_ := t_head_ t; t_advance_point_ := 0;
       t_grow_unit_ := BASE_ENTRY_CNT; t_allocated_ := 0 |}.

(** ** The attribute word *)

Lemma testbit_attr_new attr size i :
  0 ≤ i → Z.testbit (Attr_new attr size) i =
  if i <? 48 then Z.testbit size i else (i <? 64) && Z.testbit attr (i - 48).
Proof.
  intros Hi. unfold Attr_new, u64.
  rewrite Z.lor_spec, Z.ldiff_spec, Z.land_spec, Z.testbit_ones_nonneg by lia.
  destruct (Z.ltb_spec i 48) as [H1|H1]; [by rewrite andb_false_r, andb_true_r|].
  rewrite andb_false_r, orb_false_r, andb_true_r.
  destruct (Z.ltb_spec i 64) as [H2|H2].
  - rewrite Z.mod_pow2_bits_low, Z.shiftl_spec by lia. done.
  - by rewrite Z.mod_pow2_bits_high by lia.
Qed.

Lemma testbit_shift attr i :
  0 ≤ i → Z.testbit (u64 (Z.shiftl attr 48)) i = (48 <=? i) && (i <? 64) && Z.testbit attr (i - 48).
Proof.
  intros Hi. unfold u64. destruct (Z.ltb_spec i 64) as [H2|H2].
  - rewrite Z.mod_pow2_bits_low, Z.shiftl_spec by lia. rewrite andb_true_r.
    destruct (Z.leb_spec 48 i); [done|]. by rewrite Z.testbit_neg_r by lia.
  - rewrite Z.mod_pow2_bits_high by lia. by rewrite andb_false_r.
Qed.

Lemma testbit_above n x i : 0 ≤ x < 2 ^ n → 0 ≤ n ≤ i → Z.testbit x i = false.
Proof.
  intros Hx Hi. destruct (Z.eq_dec x 0) as [->|]; [apply Z.bits_0|].
  apply Z.bits_above_log2; [lia|]. enough (Z.log2 x < n) by lia. apply Z.log2_lt_pow2; lia.
Qed.

Lemma attr_size_new attr size : attr_size (Attr_new attr size) = size mod 2 ^ 48.
Proof.
  unfold attr_size. rewrite <-Z.land_ones by lia. apply Z.bits_inj'. intros i Hi.
  rewrite !Z.land_spec, testbit_attr_new, Z.testbit_ones_nonneg by lia.
  by destruct (i <? 48); rewrite ?andb_false_r.
Qed.

Lemma attr_bits_new attr size : 0 ≤ attr < 2 ^ 16 → attr_bits (Attr_new attr size) = attr.
Proof.
  intros Ha. unfold attr_bits. apply Z.bits_inj'. intros i Hi.
  rewrite Z.shiftr_spec, testbit_attr_new by lia. rewrite (proj2 (Z.ltb_ge (i + 48) 48)) by lia.
  replace (i + 48 - 48) with i by lia. destruct (Z.ltb_spec (i + 48) 64); [done|].
  symmetry. apply (testbit_above 16); lia.
Qed.

Lemma attr_size_set code attr : attr_size (Attr_Set code attr) = attr_size code.
Proof.
  unfold attr_size, Attr_Set. apply Z.bits_inj'. intros i Hi.
  rewrite !Z.land_spec, Z.lor_spec, testbit_shift, Z.testbit_ones_nonneg by lia.
  destruct (Z.ltb_spec i 48); [|by rewrite !andb_false_r].
  rewrite (proj2 (Z.leb_gt _ _)) by lia. by rewrite orb_false_r.
Qed.

Lemma attr_size_unset code attr : attr_size (Attr_Unset code attr) = attr_size code.
Proof.
  unfold attr_size, Attr_Unset. apply Z.bits_inj'. intros i Hi.
  rewrite !Z.land_spec, Z.ldiff_spec, testbit_shift, Z.testbit_ones_nonneg by lia.
  destruct (Z.ltb_spec i 48); [|by rewrite !andb_false_r].
  rewrite (proj2 (Z.leb_gt _ _)) by lia. by rewrite andb_true_r.
Qed.

Lemma attr_bits_unset code attr :
  0 ≤ code < 2 ^ 64 → attr_bits (Attr_Unset code attr) = Z.ldiff (attr_bits code) attr.
Proof.
  intros Hc. unfold attr_bits, Attr_Unset. apply Z.bits_inj'. intros i Hi.
  rewrite Z.ldiff_spec, !Z.shiftr_spec, Z.ldiff_spec, testbit_shift by lia.
  rewrite (proj2 (Z.leb_le _ _)) by lia. replace (i + 48 - 48) with i by lia.
  destruct (Z.ltb_spec (i + 48) 64); [done|].
  rewrite (testbit_above 64 code) by lia. done.
Qed.

(** The bit field [invalid_] is not the bit of the mask [kinvalid]: setting
    the attribute is not seen by [invalid()], and [table_] is [koutput]'s bit. *)
Lemma invalid_ignores_kinvalid code : invalid_ (Attr_Set code kinvalid) = invalid_ code.
Proof.
  unfold invalid_, Attr_Set. rewrite Z.lor_spec, testbit_shift by lia. simpl.
  by rewrite orb_false_r.
Qed.

Lemma table_is_koutput : table_ (Attr_new koutput 0) = true ∧ table_ (Attr_new ktable 0) = false.
Proof. split; reflexivity. Qed.

(** ** What a table holds

    The entries inserted since Free.  The bound on the unit leaves room for
    every doubling up to [MAX_ENTRIES] entries. *)
Definition MAX_ENTRIES : Z := 2 ^ 39.

Definition table_rep (t : TableStore) (l : list CDEntry) : Prop :=
  t_head_ t = 0 ∧ t_tail_ t = zlen l ∧ 1 ≤ t_grow_unit_ t ≤ 2 ^ 40 ∧
  (t_size_ t = ENTRY_SIZE * t_grow_unit_ t ∨ t_grow_unit_ t ≤ 2 ^ 39) ∧ 0 ≤ t_advance_point_ t ≤ zlen l ∧
  match t_ptr_ t with
  | Some p => t_size_ t = ENTRY_SIZE * zlen p ∧ ∃ r, p = l ++ r
  | None => l = [] ∧ t_size_ t = 0
  end.

Lemma grow_table_S fuel need size unit ret :
  grow_table (S fuel) need size unit ret =
  if size <? need then
    grow_table fuel need (u64 (u64 (Z.shiftl unit 1) * ENTRY_SIZE)) (u64 (Z.shiftl unit 1)) true
  else Ok (ret, size, unit).
Proof. done. Qed.

(** From a size that matches its unit. *)
Lemma grow_table_matched fuel need unit ret :
  1 ≤ unit ≤ 2 ^ 40 → need ≤ ENTRY_SIZE * 2 ^ 39 → need ≤ ENTRY_SIZE * unit * 2 ^ Z.of_nat fuel →
  ∃ unit' ret', grow_table (S fuel) need (ENTRY_SIZE * unit) unit ret = Ok (ret', ENTRY_SIZE * unit', unit') ∧
    need ≤ ENTRY_SIZE * unit' ∧ unit ≤ unit' ≤ 2 ^ 40 ∧ ret' = ret || negb (unit' =? unit).
Proof.
  unfold ENTRY_SIZE. revert unit ret. induction fuel as [|fuel IH]; intros unit ret Hu Hn Hf.
  - rewrite grow_table_S, (proj2 (Z.ltb_ge _ _)) by lia. exists unit, ret.
    rewrite Z.eqb_refl, orb_false_r. repeat split; lia.
  - rewrite grow_table_S. destruct (Z.ltb_spec (32 * unit) need) as [Hlt|Hge].
    + assert (Z.of_nat (S fuel) = Z.of_nat fuel + 1) as Hfu by lia.
      rewrite Hfu, Z.pow_add_r in Hf by lia. change (2 ^ 1) with 2 in Hf.
      unfold ENTRY_SIZE. rewrite Z.shiftl_mul_pow2, (u64_small (unit * 2 ^ 1)), !u64_small by lia.
      change (2 ^ 1) with 2. replace (unit * 2 * 32) with (32 * (unit * 2)) by lia.
      destruct (IH (unit * 2) true) as (u' & r' & -> & ? & ? & ->); [lia|lia|nia|].
      exists u', (true || negb (u' =? unit * 2)). repeat split; lia.
    + exists unit, ret. rewrite Z.eqb_refl, orb_false_r. repeat split; lia.
Qed.

Lemma NeedRealloc_rep t l :
  table_rep t l → zlen l < MAX_ENTRIES →
  ∃ b t', NeedRealloc t 1 = Ok (b, t') ∧ t_ptr_ t' = t_ptr_ t ∧ t_tail_ t' = t_tail_ t ∧ t_head_ t' = t_head_ t ∧
    t_advance_point_ t' = t_advance_point_ t ∧ 1 ≤ t_grow_unit_ t' ≤ 2 ^ 40 ∧
    if b then t_size_ t' = ENTRY_SIZE * t_grow_unit_ t' ∧ zlen l + 1 ≤ t_grow_unit_ t'
    else t' = t ∧ ENTRY_SIZE * (zlen l + 1) ≤ t_size_ t.
Proof.
  intros (Hh & Ht & Hg & Hs & Ha & _) Hmax. unfold MAX_ENTRIES in Hmax. pose proof (zlen_nonneg l).
  unfold NeedRealloc. rewrite Ht, u64_small by (unfold ENTRY_SIZE; lia).
  rewrite grow_table_S. destruct (Z.ltb_spec (t_size_ t) ((zlen l + 1) * ENTRY_SIZE)) as [Hlt|Hge].
  - destruct (grow_table_matched 63 ((zlen l + 1) * ENTRY_SIZE) (t_grow_unit_ t * 2) true) as (u & b & Hu & ? & ? & ->).
    { unfold ENTRY_SIZE in *. lia. }
    { unfold ENTRY_SIZE. lia. }
    { unfold ENTRY_SIZE. change (2 ^ Z.of_nat 63) with (2 ^ 63). lia. }
    unfold ENTRY_SIZE in *. rewrite Z.shiftl_mul_pow2, (u64_small (t_grow_unit_ t * 2 ^ 1)), !u64_small by lia.
    change (2 ^ 1) with 2. replace (t_grow_unit_ t * 2 * 32) with (32 * (t_grow_unit_ t * 2)) by lia.
    rewrite Hu, ret_bind. eexists _, _. split; [done|]. simpl. repeat split; try done; lia.
  - rewrite ret_bind. eexists _, _. split; [done|]. simpl. repeat split; try done; try lia.
    by destruct t; simpl in *; subst.
Qed.

Lemma astore_snoc {A} (l r : list A) x y : astore (l ++ y :: r) (zlen l) x = Ok (l ++ x :: r).
Proof.
  rewrite astore_Ok by (rewrite length_app; unfold zlen; simpl; lia).
  rewrite to_nat_zlen, insert_app_r_alt by lia. by rewrite Nat.sub_diag.
Qed.

(** A table with room for one more entry after [l]. *)
Definition table_room (t : TableStore) (l : list CDEntry) : Prop :=
  ∃ x r, t_ptr_ t = Some (l ++ x :: r) ∧ t_head_ t = 0 ∧ t_tail_ t = zlen l ∧ 1 ≤ t_grow_unit_ t ≤ 2 ^ 40 ∧
    0 ≤ t_advance_point_ t ≤ zlen l ∧ (t_size_ t = ENTRY_SIZE * t_grow_unit_ t ∨ t_grow_unit_ t ≤ 2 ^ 39) ∧
    t_size_ t = ENTRY_SIZE * zlen (l ++ x :: r).

(** What an operation does to the number of allocations. *)
Definition allocates (t t' : TableStore) : Prop :=
  t_allocated_ t' = t_allocated_ t ∨ t_allocated_ t' = u32 (t_allocated_ t + 1).

Lemma Table_Reallocate_rep t l :
  t_head_ t = 0 → t_tail_ t = zlen l → 0 ≤ t_advance_point_ t ≤ zlen l → zlen l + 1 ≤ t_grow_unit_ t ≤ 2 ^ 40 →
  t_size_ t = ENTRY_SIZE * t_grow_unit_ t →
  match t_ptr_ t with Some p => ∃ r, p = l ++ r | None => l = [] end →
  ∃ t', Table_Reallocate t = Ok t' ∧ table_room t' l ∧ t_allocated_ t' = u32 (t_allocated_ t + 1).
Proof.
  intros Hh Ht Ha Hg Hs Hm. pose proof (zlen_nonneg l). unfold Table_Reallocate.
  destruct (t_ptr_ t) as [p|] eqn:Hp.
  - destruct Hm as (r & ->).
    rewrite new_array_Ok, ret_bind by (unfold ENTRY_SIZE; lia).
    rewrite Ht, (slice_mid' [] l r), ret_bind by done.
    set (g := t_grow_unit_ t) in *.
    assert (replicate (Z.to_nat g) CDEntry_default =
      [] ++ replicate (length l) CDEntry_default ++ CDEntry_default :: replicate (Z.to_nat (g - zlen l - 1)) CDEntry_default) as ->.
    { change (CDEntry_default :: replicate ?n CDEntry_default) with (replicate (S n) CDEntry_default).
      rewrite app_nil_l, <-replicate_add. f_equal. unfold zlen in *. lia. }
    rewrite (blit_mid' [] _ _ _ 0), ret_bind by (done || (unfold zlen; by rewrite length_replicate)).
    eexists. split; [done|]. split; [|done]. eexists _, _. split; [done|]. simpl. repeat split; try done; try lia.
    rewrite zlen_app, zlen_cons, zlen_replicate by lia. lia.
  - subst l. change (zlen []) with 0 in *. unfold AllocateTable. change (BASE_ENTRY_CNT =? 0) with false.
    cbn beta iota zeta delta [t_ptr_]. rewrite Hp, new_array_Ok, ret_bind by done.
    eexists. split; [done|]. split; [|done]. exists CDEntry_default, (replicate 127 CDEntry_default).
    split; [done|]. simpl. change (u64 (BASE_ENTRY_CNT * ENTRY_SIZE)) with 4096. change (zlen []) with 0.
    repeat split; try done; try lia. by left.
Qed.

Lemma room_rep t l :
  table_rep t l → zlen l < MAX_ENTRIES →
  ∃ t', ('(need, t) ← NeedRealloc t 1; if need : bool then Table_Reallocate t else Ok t) = Ok t' ∧
    table_room t' l ∧ allocates t t'.
Proof.
  intros Hr Hmax. destruct (NeedRealloc_rep t l Hr Hmax) as (b & t1 & Hn & Hp & Ht & Hh & Had & Hg & Hb).
  destruct Hr as (Hh0 & Ht0 & Hg0 & Hs0 & Ha0 & Hm). rewrite Hn, ret_bind.
  assert (t_allocated_ t1 = t_allocated_ t) as Hal.
  { revert Hn. unfold NeedRealloc. destruct (grow_table _ _ _ _ _) as [[[? ?] ?]|]; [|done]. by intros [= <- <-]. }
  destruct b.
  - destruct Hb as [Hsz Hroom]. destruct (Table_Reallocate_rep t1 l) as (t2 & -> & Hr2 & Hal2);
      rewrite ?Hp, ?Ht, ?Hh, ?Had; try done; try lia.
    + destruct (t_ptr_ t); naive_solver.
    + exists t2. split; [done|]. split; [done|]. right. by rewrite Hal2, Hal.
  - destruct Hb as [-> Hroom]. exists t. split; [done|]. split; [|by left]. unfold table_room.
    destruct (t_ptr_ t) as [p|].
    + destruct Hm as (Hsp & r & ->). unfold ENTRY_SIZE in *. rewrite zlen_app in Hsp.
      destruct r as [|x r]; [change (zlen []) with 0 in Hsp; lia|]. exists x, r. rewrite zlen_app.
      repeat split; done || lia.
    + destruct Hm as (-> & Hs00). rewrite Hs00 in Hroom. unfold ENTRY_SIZE in Hroom.
      change (zlen []) with 0 in Hroom. lia.
Qed.

Lemma InsertEntry_sim t l e :
  table_rep t l → zlen l < MAX_ENTRIES →
  ∃ t', InsertEntry t e = Ok (zlen l, t') ∧ table_rep t' (l ++ [e]) ∧ allocates t t'.
Proof.
  intros Hr Hmax. destruct (room_rep t l Hr Hmax) as (t2 & E & (x & r & Ep & Eh & Et & Eg & Ea & Eu & Es) & Hal).
  unfold MAX_ENTRIES in Hmax. pose proof (zlen_nonneg l). pose proof (zlen_nonneg r).
  apply bind_Ok in E as ([b t1] & Hn & E).
  unfold InsertEntry. rewrite Hn, ret_bind, E, ret_bind, Et.
  rewrite zlen_app, zlen_cons in Es. unfold ENTRY_SIZE in *.
  rewrite crem_Ok, ret_bind, Ep, astore_snoc, ret_bind by lia.
  rewrite Z.mod_small by lia. eexists. split; [done|]. split; [|done].
  unfold table_rep, with_tail, with_entries; simpl.
  rewrite zlen_app. change (zlen [e]) with 1. rewrite u64_small by lia.
  repeat split; try done; try lia.
  - unfold ENTRY_SIZE. rewrite zlen_app, zlen_cons. lia.
  - exists r. by rewrite <-app_assoc.
Qed.

Lemma entry_at_rep t l i e :
  table_rep t l → l !! i = Some e → entry_at t (Z.of_nat i) = Ok e.
Proof.
  intros (_ & _ & _ & _ & _ & Hm) Hl. unfold entry_at. destruct (t_ptr_ t).
  - destruct Hm as (_ & r & ->). apply aload_lookup; [lia|]. rewrite Nat2Z.id. by apply lookup_app_l_Some.
  - destruct Hm as (-> & _). done.
Qed.

(** The last entry of [l] with the tag. *)
Definition is_last (tag : Z) (l : list CDEntry) (r : option Z) : Prop :=
  match r with
  | Some i => ∃ n e, i = Z.of_nat n ∧ l !! n = Some e ∧ id_ e = tag ∧
                ∀ m e', (n < m)%nat → l !! m = Some e' → id_ e' ≠ tag
  | None => ∀ m e', l !! m = Some e' → id_ e' ≠ tag
  end.

Lemma find_reverse_rep t l tag n :
  table_rep t l → (n ≤ length l)%nat →
  (∀ m e', (n ≤ m)%nat → l !! m = Some e' → id_ e' ≠ tag) →
  ∃ r, find_reverse t tag knoattr n = Ok r ∧ is_last tag l r.
Proof.
  intros Hr. induction n as [|n IH]; intros Hn Hlast; cbn [find_reverse].
  - exists None. split; [done|]. intros m e'. apply Hlast. lia.
  - destruct (lookup_lt_is_Some_2 l n) as [e He]; [lia|].
    rewrite (entry_at_rep t l n e), ret_bind by done. change (knoattr =? knoattr) with true.
    destruct (Z.eqb_spec (id_ e) tag) as [Ht|Ht].
    + eexists. split; [done|]. exists n, e. split; [done|]. split; [done|]. split; [done|].
      intros m e' Hm. apply Hlast. lia.
    + apply IH; [lia|]. intros m e' Hm He'. destruct (decide (m = n)) as [->|]; [naive_solver|].
      apply (Hlast m); [lia|done].
Qed.

Lemma FindReverse_sim t l tag :
  table_rep t l → ∃ r, FindReverse t tag knoattr = Ok r ∧ is_last tag l r.
Proof.
  intros Hr. pose proof Hr as (_ & Ht & _). unfold FindReverse. rewrite Ht, to_nat_zlen.
  apply find_reverse_rep; [done|lia|]. intros m e' Hm He'. apply lookup_lt_Some in He'. lia.
Qed.

Lemma Table_Free_rep t l : table_rep t l → table_rep (Table_Free t true) [].
Proof.
  intros (Hh & Ht & Hg & Hs & Ha & Hm). unfold table_rep, Table_Free; simpl. change (zlen []) with 0.
  repeat split; try done; try lia. destruct (t_ptr_ t) as [p|].
  - destruct Hm as [? _]. split; [done|]. by exists p.
  - naive_solver.
Qed.

Lemma TableStore_new_rep n t : 1 ≤ n ≤ 2 ^ 40 → TableStore_new n = Ok t → table_rep t [].
Proof.
  intros Hn. unfold TableStore_new, AllocateTable. rewrite (proj2 (Z.eqb_neq n 0)) by lia.
  cbn [t_ptr_]. rewrite new_array_Ok, ret_bind by (unfold ENTRY_SIZE; lia). intros [= <-].
  unfold table_rep; simpl. change (zlen []) with 0. unfold ENTRY_SIZE. rewrite u64_small, zlen_replicate by lia.
  repeat split; try lia. by eexists.
Qed.

(** Copying all entries that have the attribute, when all of them do. *)
Lemma FindWithAttr_all t l attr into :
  table_rep t l → table_rep into [] → zlen l < MAX_ENTRIES → Forall (λ e, CheckAny (size_ e) attr = true) l →
  ∃ into', FindWithAttr t attr 0 into true = Ok (zlen l, into') ∧ table_rep into' l.
Proof.
  intros Hr Hi Hn Hall. pose proof Hr as (_ & Ht & _). unfold FindWithAttr. rewrite Ht.
  assert (returns (for_range 0 (zlen l) (λ i into,
      e ← entry_at t i; if bool_decide (CheckAny (size_ e) attr = true) then Insert into e else Ok into) into)
    (λ into', table_rep into' (take (Z.to_nat (zlen l)) l))) as (into' & -> & Hi')%returns_Ok.
  { apply (for_range_inv (λ i into', table_rep into' (take (Z.to_nat i) l))); [apply zlen_nonneg|done|].
    intros i s Hil Hs. destruct (lookup_lt_is_Some_2 l (Z.to_nat i)) as [e He]; [unfold zlen in Hil; lia|].
    rewrite <-(Z2Nat.id i) at 1 by lia. rewrite (entry_at_rep t l _ e), ret_bind by done.
    rewrite bool_decide_eq_true_2 by by eapply Forall_lookup_1 in Hall.
    destruct (InsertEntry_sim s (take (Z.to_nat i) l) e Hs) as (s' & Hins & Hs' & _).
    { unfold zlen in *. rewrite length_take. lia. }
    unfold Insert. rewrite Hins, ret_bind. simpl.
    replace (Z.to_nat (i + 1)) with (S (Z.to_nat i)) by lia. by rewrite (take_S_r _ _ e). }
  rewrite ret_bind. rewrite to_nat_zlen, firstn_all in Hi'. pose proof Hi' as (_ & Ht' & _). rewrite Ht'.
  by exists into'.
Qed.
