(* ===== verification/DataStore.v ===== *)
(** * The bytes of a preservation store

    [src/src/persistence/data_store.h] and [data_store.cc], for a store that
    stays in memory (file type [kVolatile], mode [kGrowingMode], no file
    handle): a circular buffer that grows when it is full.  The header
    [MagicStore] in front of the buffer moves with it and nothing in memory
    reads it, so it is left out; so are locks, timers and the global state of
    the thread that writes buffers to files. *)

From Stdlib Require Import ZArith Lia.
From stdpp Require Import base list list_numbers numbers.
From S2P Require Import Prelude Layout TableStore.

Definition CHUNK_ALIGNMENT : Z := 1048576.
Definition DATA_GROW_UNIT : Z := 134217728.
Definition TWO_GIGABYTE : Z := 2147483648.

Record DataStore := {
  d_size_ : Z;
  d_head_ : Z;
  d_tail_ : Z;
  d_grow_unit_ : Z;
  d_allocated_ : Z;
  written_len_ : Z;
  d_ptr_ : option (list cell);
}.

Definition buf_used (d : DataStore) : Z := d_tail_ d - d_head_ d.
Definition used (d : DataStore) : Z := u64 (d_tail_ d + written_len_ d).

(** [DataStore(NULL, init_size, kVolatile)]: Init, AllocateData and InitFile
    without a file handle. *)
Definition DataStore_new (init_size : Z) : res DataStore :=
  p ← new_array init_size 1 None;
  Ok {| d_size_ := init_size; d_head_ := 0; d_tail_ := 0; d_grow_unit_ := init_size; d_allocated_ := 1;
        written_len_ := CHUNK_ALIGNMENT; d_ptr_ := Some p |}.

Definition with_data (p : option (list cell)) (d : DataStore) : DataStore :=
  {| d_size_ := d_size_ d; d_head_ := d_head_ d; d_tail_ := d_tail_ d; d_grow_unit_ := d_grow_unit_ d;
     d_allocated_ := d_allocated_ d; written_len_ := written_len_ d; d_ptr_ := p |}.

Definition ReInit (d : DataStore) : DataStore :=
  {| d_size_ := d_size_ d; d_head_ := 0; d_tail_ := 0; d_grow_unit_ := d_grow_unit_ d; d_allocated_ := 0;
     written_len_ := written_len_ d; d_ptr_ := d_ptr_ d |}.

Definition FreeData (d : DataStore) (reuse : bool) : DataStore :=
  if reuse then ReInit d
  else {| d_size_ := 0; d_head_ := 0; d_tail_ := 0; d_grow_unit_ := DATA_GROW_UNIT; d_allocated_ := 0;
          written_len_ := written_len_ d; d_ptr_ := None |}.

(** ** Copies into and out of the circular buffer *)

(** [pos % size_]; the position INVALID_NUM stands for the tail or the head. *)
Definition buf_offset (d : DataStore) (pos default : Z) : res Z :=
  crem (if pos =? INVALID_NUM then default else pos) (d_size_ d).

Definition CopyToBuffer (d : DataStore) (src : list cell) (pos : Z) : res DataStore :=
  if zlen src =? 0 then Ok d
  else
    offset ← buf_offset d pos (d_tail_ d);
    let first := d_size_ d - offset in
    if 0 <? zlen src - first then
      p ← blit (d_ptr_ d) offset (take (Z.to_nat first) src);
      p ← blit p 0 (drop (Z.to_nat first) src);
      Ok (with_data p d)
    else p ← blit (d_ptr_ d) offset src; Ok (with_data p d).

Definition CopyFromBuffer (d : DataStore) (len pos : Z) : res (list cell) :=
  if len =? 0 then Ok []
  else
    offset ← buf_offset d pos (d_head_ d);
    let first := d_size_ d - offset in
    if 0 <? len - first then
      a ← slice (d_ptr_ d) offset first;
      b ← slice (d_ptr_ d) 0 (len - first);
      Ok (a ++ b)
    else slice (d_ptr_ d) offset len.

(** ** Growth *)

(** The loop of Reallocate; a size of 0 never grows. *)
Fixpoint grow_data (fuel : nat) (need size unit : Z) : res (Z * Z) :=
  match fuel with
  | O => Err OutOfFuel
  | S fuel =>
      if size <? need then
        if TWO_GIGABYTE <? size then grow_data fuel need (u64 (size + unit)) (u64 (unit + unit))
        else if 268435456 <? size then grow_data fuel need (u64 (Z.shiftl size 1)) (u64 (Z.shiftl size 1))
        else grow_data fuel need (u64 (Z.shiftl size 2)) (u64 (Z.shiftl size 2))
      else Ok (size, unit)
  end.

Definition Reallocate (d : DataStore) (len : Z) : res DataStore :=
  let orig_size := d_size_ d in
  '(size, unit) ← grow_data 64 (u64 (len + buf_used d)) orig_size (d_grow_unit_ d);
  q ← new_array size 1 None;
  tail ← crem (d_tail_ d) orig_size;
  head ← crem (d_head_ d) orig_size;
  q ← (if d_head_ d <? d_tail_ d then
         if tail <=? head then
           let first := orig_size - head in
           a ← slice (d_ptr_ d) head first;
           b ← slice (d_ptr_ d) 0 (buf_used d - first);
           q ← blit (Some q) head a; blit q 0 b
         else a ← slice (d_ptr_ d) head (buf_used d); blit (Some q) head a
       else Ok (Some q));
  Ok {| d_size_ := size; d_head_ := d_head_ d; d_tail_ := d_tail_ d; d_grow_unit_ := unit;
        d_allocated_ := u32 (d_allocated_ d + 1); written_len_ := written_len_ d; d_ptr_ := q |}.

(** ** Write and read *)

Definition WriteMem (d : DataStore) (src : list cell) : res (Z * DataStore) :=
  let ret := used d in
  d ← CopyToBuffer d src INVALID_NUM;
  Ok (ret, {| d_size_ := d_size_ d; d_head_ := d_head_ d; d_tail_ := u64 (d_tail_ d + zlen src);
              d_grow_unit_ := d_grow_unit_ d; d_allocated_ := d_allocated_ d; written_len_ := written_len_ d;
              d_ptr_ := d_ptr_ d |}).

Definition WriteCacheMode (d : DataStore) (src : list cell) : res (Z * DataStore) :=
  d ← (if d_size_ d <? u64 (zlen src + buf_used d) then Reallocate d (zlen src) else Ok d);
  WriteMem d src.

(** [Write(pfrom, len)] returns the offset of the data, counted from the start
    of the store's file. *)
Definition Write (d : DataStore) (src : list cell) : res (Z * DataStore) := WriteCacheMode d src.

Definition GetData (d : DataStore) (len pos : Z) : res (list cell) :=
  CopyFromBuffer d len (u64 (pos - written_len_ d)).

(** ** What a store in memory holds

    The bytes written since ReInit, at the start of the buffer. *)
Definition data_rep (d : DataStore) (bs : list cell) : Prop :=
  d_head_ d = 0 ∧ d_tail_ d = zlen bs ∧ d_grow_unit_ d = d_size_ d ∧ written_len_ d = CHUNK_ALIGNMENT ∧
  1 ≤ d_size_ d < 2 ^ 52 ∧ ∃ r, d_ptr_ d = Some (bs ++ r) ∧ zlen (bs ++ r) = d_size_ d.

(** What a store holds and can still take. *)
Definition MAX_DATA : Z := 2 ^ 40.

Lemma grow_data_S fuel need size unit :
  grow_data (S fuel) need size unit =
  if size <? need then
    if TWO_GIGABYTE <? size then grow_data fuel need (u64 (size + unit)) (u64 (unit + unit))
    else if 268435456 <? size then grow_data fuel need (u64 (Z.shiftl size 1)) (u64 (Z.shiftl size 1))
    else grow_data fuel need (u64 (Z.shiftl size 2)) (u64 (Z.shiftl size 2))
  else Ok (size, unit).
Proof. done. Qed.

Lemma grow_data_spec fuel need size :
  1 ≤ size < 2 ^ 52 → need ≤ 2 ^ 45 → need ≤ size * 2 ^ Z.of_nat fuel →
  ∃ size', grow_data (S fuel) need size size = Ok (size', size') ∧ need ≤ size' ∧ size ≤ size' < 2 ^ 52.
Proof.
  revert size. induction fuel as [|fuel IH]; intros size Hs Hn Hf.
  - rewrite grow_data_S, (proj2 (Z.ltb_ge _ _)) by lia. exists size. split; [done|]. lia.
  - assert (Z.of_nat (S fuel) = Z.of_nat fuel + 1) as Hfu by lia.
    rewrite Hfu, Z.pow_add_r in Hf by lia. pose proof (Z.pow_pos_nonneg 2 (Z.of_nat fuel)).
    rewrite grow_data_S. destruct (Z.ltb_spec size need); [|exists size; split; [done|lia]].
    assert (∀ s, size * 2 ≤ s → s ≤ size * 4 →
      ∃ size', grow_data (S fuel) need s s = Ok (size', size') ∧ need ≤ size' ∧ size ≤ size' < 2 ^ 52) as Hgo.
    { intros s H1 H2. destruct (IH s) as (s' & -> & ? & ?); [lia|lia| |exists s'; split; [done|lia]].
      change (2 ^ 1) with 2 in Hf.
      pose proof (Z.mul_le_mono_nonneg_r (size * 2) s (2 ^ Z.of_nat fuel)). lia. }
    rewrite !Z.shiftl_mul_pow2 by lia.
    repeat case_match; rewrite !u64_small by lia; (apply Hgo; lia).
Qed.

Lemma buf_offset_Ok d pos x :
  1 ≤ d_size_ d → 0 ≤ (if pos =? INVALID_NUM then x else pos) < d_size_ d →
  buf_offset d pos x = Ok (if pos =? INVALID_NUM then x else pos).
Proof. intros. unfold buf_offset. rewrite crem_Ok by lia. by rewrite Z.mod_small. Qed.

(** The size the buffer grows to, and its contents. *)
Lemma Reallocate_rep d bs len :
  data_rep d bs → 0 ≤ len → zlen bs + len ≤ MAX_DATA →
  ∃ d', Reallocate d len = Ok d' ∧ data_rep d' bs ∧ zlen bs + len ≤ d_size_ d'.
Proof.
  intros (Hh & Ht & Hg & Hw & Hs & r & Hp & Hr) Hlen Hmax. unfold MAX_DATA in Hmax.
  pose proof (zlen_nonneg bs). pose proof (zlen_nonneg r). rewrite zlen_app in Hr.
  unfold Reallocate, buf_used. rewrite Hh, Ht, Hg, Hp, Z.sub_0_r, u64_small by lia.
  destruct (grow_data_spec 63 (len + zlen bs) (d_size_ d)) as (size' & -> & Hn & Hs'); [lia|lia| |].
  { change (2 ^ Z.of_nat 63) with (2 ^ 63). lia. }
  rewrite ret_bind, new_array_Ok, ret_bind by lia.
  rewrite !crem_Ok, !ret_bind by lia.
  set (q := replicate (Z.to_nat size') None : list cell).
  assert (zlen q = size') as Hq by (apply zlen_replicate; lia).
  assert (∃ q', (if 0 <? zlen bs then
      if zlen bs mod d_size_ d <=? 0 mod d_size_ d then
        a ← slice (Some (bs ++ r)) (0 mod d_size_ d) (d_size_ d - 0 mod d_size_ d);
        b ← slice (Some (bs ++ r)) 0 (zlen bs - (d_size_ d - 0 mod d_size_ d));
        q ← blit (Some q) (0 mod d_size_ d) a; blit q 0 b
      else a ← slice (Some (bs ++ r)) (0 mod d_size_ d) (zlen bs); blit (Some q) (0 mod d_size_ d) a
    else Ok (Some q)) = Ok (Some (bs ++ q')) ∧ zlen (bs ++ q') = size') as (q' & -> & Hq').
  { rewrite Z.mod_0_l by lia.
    assert (q = take (Z.to_nat (zlen bs)) q ++ drop (Z.to_nat (zlen bs)) q) as Hsplit
      by (symmetry; apply take_drop).
    destruct (Z.ltb_spec 0 (zlen bs)) as [Hb|Hb].
    - exists (drop (Z.to_nat (zlen bs)) q). split; [|rewrite zlen_app, zlen_drop by lia; lia].
      assert (blit (Some q) 0 bs = Ok (Some (bs ++ drop (Z.to_nat (zlen bs)) q))) as Hblit.
      { rewrite Hsplit at 1. apply (blit_mid' [] _ _ _ 0); [done|]. rewrite zlen_take; lia. }
      rewrite Z.sub_0_r.
      assert (slice (Some (bs ++ r)) 0 (zlen bs) = Ok bs) as Hsl by by apply (slice_mid' [] bs r).
      destruct (Z.leb_spec (zlen bs mod d_size_ d) 0) as [Hm|Hm].
      + destruct (Z.eq_dec (zlen bs) (d_size_ d)) as [He|He];
          [|rewrite Z.mod_small in Hm by lia; lia].
        rewrite <-He, Z.sub_diag, Hsl, ret_bind.
        change (slice (Some (bs ++ r)) 0 0) with (Ok [] : res (list cell)).
        by rewrite ret_bind, Hblit, ret_bind.
      + by rewrite Hsl, ret_bind.
    - exists q. assert (bs = []) as -> by (destruct bs; [done|rewrite zlen_cons in Hb; pose proof (zlen_nonneg bs); lia]).
      done. }
  rewrite ret_bind. eexists. split; [done|]. split; [|simpl; lia].
  unfold data_rep; simpl. repeat split; try done; try lia. by exists q'.
Qed.

Lemma WriteMem_rep d bs k :
  data_rep d bs → zlen bs + zlen k ≤ d_size_ d → zlen bs + zlen k ≤ MAX_DATA →
  ∃ d', WriteMem d k = Ok (CHUNK_ALIGNMENT + zlen bs, d') ∧ data_rep d' (bs ++ k).
Proof.
  intros (Hh & Ht & Hg & Hw & Hs & r & Hp & Hr) Hroom Hmax. unfold MAX_DATA in Hmax.
  pose proof (zlen_nonneg bs). pose proof (zlen_nonneg r). pose proof (zlen_nonneg k). rewrite zlen_app in Hr.
  assert (used d = CHUNK_ALIGNMENT + zlen bs) as Hu.
  { unfold used. rewrite Ht, Hw. unfold CHUNK_ALIGNMENT. rewrite u64_small; lia. }
  assert (∃ d1, CopyToBuffer d k INVALID_NUM = Ok d1 ∧ d_size_ d1 = d_size_ d ∧ d_head_ d1 = 0 ∧ d_tail_ d1 = zlen bs ∧
    d_grow_unit_ d1 = d_size_ d ∧ written_len_ d1 = CHUNK_ALIGNMENT ∧
    ∃ r', d_ptr_ d1 = Some ((bs ++ k) ++ r') ∧ zlen ((bs ++ k) ++ r') = d_size_ d) as (d1 & Hc & E1 & E2 & E3 & E4 & E5 & r' & E6 & E7).
  { unfold CopyToBuffer. destruct (Z.eqb_spec (zlen k) 0) as [Hk|Hk].
    - assert (k = []) as -> by (destruct k as [|x k]; [done|rewrite zlen_cons in Hk; pose proof (zlen_nonneg k); lia]).
      exists d. rewrite app_nil_r. repeat split; try done. exists r. rewrite zlen_app. split; [done|lia].
    - rewrite buf_offset_Ok, ret_bind; change (INVALID_NUM =? INVALID_NUM) with true; cbn beta iota; [|lia..].
      rewrite (proj2 (Z.ltb_ge _ _)) by lia.
      exists (with_data (Some ((bs ++ k) ++ drop (Z.to_nat (zlen k)) r)) d). split.
      + rewrite Hp, Ht, <-(take_drop (Z.to_nat (zlen k)) r) at 1.
        rewrite blit_mid by (rewrite zlen_take; lia). by rewrite ret_bind, <-app_assoc.
      + repeat split; try done. eexists. split; [done|]. rewrite !zlen_app, zlen_drop by lia. lia. }
  unfold WriteMem. rewrite Hc, ret_bind, Hu. eexists. split; [done|].
  unfold data_rep; simpl. rewrite E1, E2, E3, E4, E5, E6, u64_small, zlen_app by lia.
  repeat split; try done; try lia. exists r'. split; [done|]. rewrite <-E7, !zlen_app. lia.
Qed.

Lemma Write_sim d bs k :
  data_rep d bs → zlen bs + zlen k ≤ MAX_DATA →
  ∃ d', Write d k = Ok (CHUNK_ALIGNMENT + zlen bs, d') ∧ data_rep d' (bs ++ k).
Proof.
  intros Hd Hmax. unfold Write, WriteCacheMode.
  pose proof Hd as (Hh & Ht & _ & _ & Hs & _). unfold buf_used. rewrite Hh, Ht, Z.sub_0_r.
  pose proof (zlen_nonneg bs). pose proof (zlen_nonneg k).
  rewrite u64_small by (unfold MAX_DATA in Hmax; lia).
  destruct (Z.ltb_spec (d_size_ d) (zlen k + zlen bs)).
  - destruct (Reallocate_rep d bs (zlen k)) as (d' & -> & Hd' & ?); [done..|]. rewrite ret_bind.
    by apply WriteMem_rep.
  - rewrite ret_bind. apply WriteMem_rep; [done|lia|done].
Qed.

Lemma GetData_sim d l k r :
  data_rep d (l ++ k ++ r) → zlen (l ++ k ++ r) ≤ MAX_DATA →
  GetData d (zlen k) (CHUNK_ALIGNMENT + zlen l) = Ok k.
Proof.
  intros (Hh & Ht & Hg & Hw & Hs & z & Hp & Hr) Hmax. unfold MAX_DATA in Hmax.
  rewrite !zlen_app in *. pose proof (zlen_nonneg l). pose proof (zlen_nonneg k). pose proof (zlen_nonneg r).
  pose proof (zlen_nonneg z).
  unfold GetData. rewrite Hw. replace (CHUNK_ALIGNMENT + zlen l - CHUNK_ALIGNMENT) with (zlen l) by lia.
  rewrite u64_small by lia. unfold CopyFromBuffer.
  destruct (Z.eqb_spec (zlen k) 0) as [Hk|Hk].
  - destruct k as [|x k]; [done|]. rewrite zlen_cons in Hk. pose proof (zlen_nonneg k). lia.
  - assert ((zlen l =? INVALID_NUM) = false) as Hi by (apply Z.eqb_neq; unfold INVALID_NUM; lia).
    rewrite buf_offset_Ok, ret_bind; rewrite ?Hi; [|lia..].
    rewrite (proj2 (Z.ltb_ge _ _)) by lia. rewrite Hp, <-!app_assoc. apply slice_mid.
Qed.

Lemma DataStore_new_rep n d : 1 ≤ n < 2 ^ 52 → DataStore_new n = Ok d → data_rep d [].
Proof.
  intros Hn. unfold DataStore_new. rewrite new_array_Ok, ret_bind by lia. intros [= <-].
  unfold data_rep. simpl. repeat split; try done; try lia.
  exists (replicate (Z.to_nat n) None). simpl. split; [done|]. rewrite zlen_replicate; lia.
Qed.

Lemma data_ReInit_rep d bs : data_rep d bs → data_rep (ReInit d) [].
Proof.
  intros (Hh & Ht & Hg & Hw & Hs & z & Hp & Hr). unfold data_rep; simpl.
  repeat split; try done; try lia. by exists (bs ++ z).
Qed.
