(* ===== verification/Preserve.v ===== *)
(** * Preservation and restoration

    The members of [src/src/cd_internal.cc] that preserve the application's
    data in a domain and restore it when the domain is executed again:
    Preserve, InternalPreserve, PreserveCopy, Restore, SearchEntry,
    InternalGetEntry, RestoreAll, DeleteEntryDirectory, with
    [RecoverObject::Recover] and the store of [persistence/packer.hpp] they
    use.  The domains preserve to memory ([kDRAM]).  Objects that serialise
    themselves ([kSerdes]) are code of the application: parameters.

    The domains of a task are a list, the innermost first; [k] is the position
    of the domain a function is called on.  What the heads keep for other tasks
    ([remote_entry_table_]) and messages between tasks (GetRemoteEntry) are not
    modelled, nor is the phase tree, whose [failed_phase] and [failed_seqID]
    are set whenever a domain is executed again. *)

From Stdlib Require Import ZArith Lia String.
From stdpp Require Import base gmap list list_numbers numbers strings pretty.
From S2P Require Import Prelude Layout Memory CdLog TableStore DataStore.

(** ** Data *)

(** [CDPrvType]. *)
Definition kCopy : Z := 256.
Definition kRef : Z := 512.
Definition kRegen : Z := 1024.
Definition kCoop : Z := 2048.
Definition kSerdes : Z := 4096.
Definition kIgnore : Z := 8192.
Definition kOutput : Z := 32768.

Definition CHECK_PRV_TYPE (X Y : Z) : bool := Z.land X Y =? Y.
Definition CHECK_ANY (X Y : Z) : bool := negb (Z.land X Y =? 0).

(** A pointer to an entry of a table: the allocation of the table it points
    into, counted by [allocated_], and the index.  An allocation frees the one
    before. *)
Definition EntryPtr : Type := Z * Z.

(** The members of [CD] for preservation. *)
Record CDPrv := {
  exec_mode_ : CDExecMode;
  reexecuted_ : bool;
  entry_table_ : TableStore;
  entry_data_ : DataStore;
  remote_entry_directory_map_ : gmap Z (option EntryPtr);
  preserve_count_ : Z;
  restore_count_ : Z;
}.

Definition with_mode (m : CDExecMode) (c : CDPrv) : CDPrv :=
  {| exec_mode_ := m; reexecuted_ := reexecuted_ c; entry_table_ := entry_table_ c; entry_data_ := entry_data_ c;
     remote_entry_directory_map_ := remote_entry_directory_map_ c; preserve_count_ := preserve_count_ c;
     restore_count_ := restore_count_ c |}.
Definition with_store (t : TableStore) (d : DataStore) (c : CDPrv) : CDPrv :=
  {| exec_mode_ := exec_mode_ c; reexecuted_ := reexecuted_ c; entry_table_ := t; entry_data_ := d;
     remote_entry_directory_map_ := remote_entry_directory_map_ c; preserve_count_ := preserve_count_ c;
     restore_count_ := restore_count_ c |}.
Definition with_counts (p r : Z) (c : CDPrv) : CDPrv :=
  {| exec_mode_ := exec_mode_ c; reexecuted_ := reexecuted_ c; entry_table_ := entry_table_ c;
     entry_data_ := entry_data_ c; remote_entry_directory_map_ := remote_entry_directory_map_ c;
     preserve_count_ := p; restore_count_ := r |}.
Definition with_remote (m : gmap Z (option EntryPtr)) (c : CDPrv) : CDPrv :=
  {| exec_mode_ := exec_mode_ c; reexecuted_ := reexecuted_ c; entry_table_ := entry_table_ c;
     entry_data_ := entry_data_ c; remote_entry_directory_map_ := m; preserve_count_ := preserve_count_ c;
     restore_count_ := restore_count_ c |}.
Definition with_reexecuted (b : bool) (c : CDPrv) : CDPrv :=
  {| exec_mode_ := exec_mode_ c; reexecuted_ := b; entry_table_ := entry_table_ c; entry_data_ := entry_data_ c;
     remote_entry_directory_map_ := remote_entry_directory_map_ c; preserve_count_ := preserve_count_ c;
     restore_count_ := restore_count_ c |}.

(** A new domain.  The constructor of CD passes 32 as the size of the table;
    the overload of CDPacker it selects takes a [bool] there, and the table is
    created with one entry. *)
Definition TABLE_ALLOC : Z := Z.b2z true.

Definition CDPrv_new (data_grow_unit : Z) : res CDPrv :=
  t ← TableStore_new TABLE_ALLOC;
  d ← DataStore_new data_grow_unit;
  Ok {| exec_mode_ := kSuspension; reexecuted_ := false; entry_table_ := t; entry_data_ := d;
        remote_entry_directory_map_ := ∅; preserve_count_ := 0; restore_count_ := 0 |}.

(** The part of Begin for the store: a domain that is not executed again
    starts with an empty buffer. *)
Definition Begin_prv (c : CDPrv) : CDPrv :=
  let c := match exec_mode_ c with kSuspension => with_mode kExecution c | _ => c end in
  match exec_mode_ c with
  | kReexecution => c
  | _ => with_mode kExecution (with_store (entry_table_ c) (ReInit (entry_data_ c)) c)
  end.

(** [CDPacker::Clear(true)] and the counters. *)
Definition DeleteEntryDirectory (c : CDPrv) : CDPrv :=
  with_remote ∅ (with_counts 0 0 (with_store (Table_Free (entry_table_ c) true) (FreeData (entry_data_ c) true) c)).

(** The end of Complete when no error occurred. *)
Definition Complete_prv (c : CDPrv) : CDPrv :=
  with_mode kSuspension (DeleteEntryDirectory (with_reexecuted false c)).

(** The part of [CD::Initialize] for a domain that is used again: the object that
    Destroy left in access_store_, with what its store still holds. *)
Definition Initialize_prv (c : CDPrv) : CDPrv :=
  {| exec_mode_ := kSuspension; reexecuted_ := false; entry_table_ := Table_Init (entry_table_ c);
     entry_data_ := entry_data_ c; remote_entry_directory_map_ := remote_entry_directory_map_ c;
     preserve_count_ := 0; restore_count_ := 0 |}.

(** ** Adding to the store *)

(** An entry as it lies in memory. *)
Definition table_entry_bytes (e : CDEntry) : list cell :=
  le_bytes 8 (id_ e) ++ le_bytes 8 (size_ e) ++ le_bytes 8 (offset_ e) ++ le_bytes 8 (src_ e).

(** [Packer::AppendTable] and [Packer::AddEntry]. *)
Definition AppendTable (t : TableStore) (d : DataStore) : res (Z * DataStore) :=
  let n := t_tail_ t - t_advance_point_ t in
  _ ← cassert (0 <=? n);
  if 0 <? n then
    i ← crem (t_advance_point_ t) (t_size_ t);
    es ← slice (t_ptr_ t) i n;
    Write d (es ≫= table_entry_bytes)
  else Ok (INVALID_NUM, d).

Definition AddEntry (t : TableStore) (d : DataStore) (m : mem) (src : Z) (e : CDEntry) :
    res (EntryPtr * TableStore * DataStore) :=
  '(offset, d) ← (if negb (src =? NULL) && negb (entry_size e =? 0) then Write d (mread m src (entry_size e))
                  else Ok (INVALID_NUM, d));
  '(i, t) ← InsertEntry t (SetOffset offset e);
  Ok ((t_allocated_ t, i), t, d).

(** The settings of the runtime, the hash function of the standard library,
    and the members of the application's serialisable objects. *)
Record Env := {
  cd_hash : string → Z;
  dont_preserve : bool;
  is_koutput_disabled : bool;
  PreserveObject : Z → mem → TableStore → DataStore → string → res (Z * TableStore * DataStore);
  GetTotalSize : Z → mem → Z;
  Deserialize : Z → mem → TableStore → DataStore → string → res (Z * mem);
}.

Section preserve.
Variable env : Env.

Definition PreserveCopy (m : mem) (c : CDPrv) (data len preserve_mask : Z) (my_name : string) (id : Z) :
    res (EntryPtr * Z * CDPrv) :=
  let attr := if CHECK_PRV_TYPE preserve_mask kCoop then kremote else 0 in
  let attr := if CHECK_PRV_TYPE preserve_mask kOutput then Z.lor koutput attr else attr in
  let t := entry_table_ c in
  let d := entry_data_ c in
  if CHECK_PRV_TYPE preserve_mask kSerdes then
    let attr := Z.lor attr knested in
    let packed_offset := used d in
    '(len, t, d) ← PreserveObject env data m t d my_name;
    let table_offset := used d in
    '(_, d) ← AppendTable t d;
    let packed_total_size := u64 (used d - packed_offset) in
    '(i, t) ← InsertEntry t (CDEntry_new id attr packed_total_size packed_offset table_offset);
    Ok ((t_allocated_ t, i), len, with_store t d c)
  else
    let attr := Z.lor attr karray in
    '(p, t, d) ← AddEntry t d m data (CDEntry_new id attr len 0 data);
    Ok (p, len, with_store t d c).

(** ** Searching *)

Definition deref (t : TableStore) (p : EntryPtr) : res CDEntry :=
  if p.1 =? t_allocated_ t then entry_at t p.2 else Err OutOfBounds.

Definition InternalGetEntry (c : CDPrv) (tag attr : Z) : res (option Z) :=
  r ← (match remote_entry_directory_map_ c !! tag with
       | Some None => Ok None
       | Some (Some p) => e ← deref (entry_table_ c) p; Ok (Some p.2)
       | None => FindReverse (entry_table_ c) tag attr
       end);
  match r with
  | None => Ok None
  | Some i => e ← entry_at (entry_table_ c) i; Ok (if Attr_Check (size_ e) krefer then None else Some i)
  end.

(** The positions in the path from the current domain up to the root. *)
Fixpoint search_up (tag attr : Z) (j : nat) (path : list CDPrv) : res (option (nat * Z)) :=
  match path with
  | [] => Ok None
  | c :: path =>
      r ← InternalGetEntry c tag attr;
      match r with Some i => Ok (Some (j, i)) | None => search_up tag attr (S j) path end
  end.

Definition current_pos (path : list CDPrv) : option nat :=
  match path with
  | [] => None
  | c :: ps => if bool_decide (exec_mode_ c = kSuspension) then match ps with [] => None | _ => Some 1%nat end
               else Some O
  end.

Definition SearchEntry (path : list CDPrv) (tag attr : Z) : res (option (nat * Z)) :=
  match current_pos path with
  | None => Ok None
  | Some j => search_up tag attr j (drop j path)
  end.

Definition domain (path : list CDPrv) (k : nat) : res CDPrv :=
  match path !! k with Some c => Ok c | None => Err OutOfBounds end.

(** ** InternalPreserve *)

(** The entry of a reference, [src_] is the tag it refers to. *)
Definition insert_ref (path : list CDPrv) (k : nat) (e : CDEntry) : res (EntryPtr * list CDPrv) :=
  c ← domain path k;
  '(i, t) ← InsertEntry (entry_table_ c) e;
  Ok ((t_allocated_ t, i), <[k := with_store t (entry_data_ c) c]> path).

Definition preserve_copy_at (m : mem) (path : list CDPrv) (k : nat) (data len mask : Z) (my_name : string) (id : Z) :
    res (EntryPtr * Z * list CDPrv) :=
  c ← domain path k;
  '(p, len, c) ← PreserveCopy m c data len mask my_name id;
  Ok (p, len, <[k := c]> path).

(** A reference to an entry that is found: wait until it is valid (a wait that
    nothing in this task ends), and take its attribute [koutput] away. *)
Definition use_source (path : list CDPrv) (j : nat) (i : Z) : res (list CDPrv) :=
  c ← domain path j;
  e ← entry_at (entry_table_ c) i;
  if invalid_ (size_ e) then Err OutOfFuel
  else match t_ptr_ (entry_table_ c) with
       | None => Err OutOfBounds
       | Some p =>
           p ← astore p i (with_size (Attr_Unset (size_ e) koutput) e);
           Ok (<[j := with_store (with_entries p (entry_table_ c)) (entry_data_ c) c]> path)
       end.

Definition preserve_ref (m : mem) (path : list CDPrv) (k : nat) (data len mask : Z) (my_name : string)
    (id ref_id ref_offset : Z) : res (option EntryPtr * Z * list CDPrv) :=
  let attr := if CHECK_PRV_TYPE mask kCoop then Z.lor kremote krefer else krefer in
  let serdes := CHECK_PRV_TYPE mask kSerdes in
  let attr := if serdes then Z.lor attr knested else attr in
  let len := if serdes then GetTotalSize env data m else len in
  let e := CDEntry_new id attr len ref_offset ref_id in
  if CHECK_PRV_TYPE mask kIgnore then '(p, path) ← insert_ref path k e; Ok (Some p, len, path)
  else
    r ← SearchEntry path ref_id knoattr;
    match r with
    | Some (j, i) =>
        path ← use_source path j i;
        if CHECK_PRV_TYPE mask kOutput then Ok (None, len, path)
        else '(p, path) ← insert_ref path k e; Ok (Some p, len, path)
    | None =>
        if CHECK_PRV_TYPE mask kOutput then Ok (None, len, path)
        else '(p, len, path) ← preserve_copy_at m path k data len mask my_name ref_id; Ok (Some p, len, path)
    end.

Definition tag_or (name : string) (id : Z) : Z := if bool_decide (name = EmptyString) then id else cd_hash env name.

Definition InternalPreserve (m : mem) (path : list CDPrv) (k : nat) (data len mask : Z) (my_name ref_name : string)
    (ref_offset : Z) : res (Z * list CDPrv) :=
  c ← domain path k;
  _ ← cassert (bool_decide (exec_mode_ c = kExecution));
  _ ← cassert (bool_decide (my_name ≠ EmptyString));
  let id := cd_hash env my_name in
  let ref_id := tag_or ref_name id in
  if dont_preserve env then Ok (len, path)
  else
    '(p, len, path) ←
      (if CHECK_ANY mask (Z.lor kCopy kOutput) then
         '(p, len, path) ← preserve_copy_at m path k data len mask my_name id; Ok (Some p, len, path)
       else if CHECK_PRV_TYPE mask kRef then preserve_ref m path k data len mask my_name id ref_id ref_offset
       else Err AssertFail);
    if negb (id =? INVALID_NUM) && CHECK_PRV_TYPE mask kCoop then
      c ← domain path k;
      Ok (len, <[k := with_remote (<[id := p]> (remote_entry_directory_map_ c)) c]> path)
    else Ok (len, path).

(** ** Restore and Preserve *)

Definition Restore (m : mem) (path : list CDPrv) (data len mask : Z) (my_name ref_name : string) : res mem :=
  let entry_id := cd_hash env my_name in
  let is_ref := CHECK_PRV_TYPE mask kRef in
  let search_tag := if is_ref then tag_or ref_name entry_id else entry_id in
  r ← SearchEntry path search_tag knoattr;
  match r with
  | None => Err AssertFail
  | Some (j, i) =>
      c ← domain path j;
      if CHECK_PRV_TYPE mask kSerdes then
        '(n, m) ← Deserialize env data m (entry_table_ c) (entry_data_ c) (if is_ref then ref_name else my_name);
        _ ← cassert (negb (n =? INVALID_NUM)); Ok m
      else
        e ← entry_at (entry_table_ c) i;
        _ ← cassert (entry_size e =? len);
        _ ← cassert (src_ e =? data);
        bs ← GetData (entry_data_ c) len (offset_ e);
        if (data =? NULL) && negb (len =? 0) then Err OutOfBounds else Ok (mwrite m data bs)
  end.

(** A call of Preserve: in an execution it preserves, in a re-execution it
    restores, and the last restoration switches back to execution. *)
Definition Preserve (m : mem) (path : list CDPrv) (k : nat) (data len mask : Z) (my_name ref_name : string)
    (ref_offset : Z) : res (Z * mem * list CDPrv) :=
  c ← domain path k;
  if CHECK_PRV_TYPE mask kOutput then
    if is_koutput_disabled env then Ok (len, m, path)
    else match exec_mode_ c with
         | kExecution =>
             '(len, path) ← InternalPreserve m path k data len mask my_name ref_name ref_offset; Ok (len, m, path)
         | kReexecution => Ok (len, m, path)
         | kSuspension => Err AssertFail
         end
  else
    match exec_mode_ c with
    | kExecution =>
        '(len, path) ← InternalPreserve m path k data len mask my_name ref_name ref_offset;
        c ← domain path k;
        Ok (len, m, <[k := with_counts (u64 (preserve_count_ c + 1)) (restore_count_ c) c]> path)
    | kReexecution =>
        _ ← cassert (negb (dont_preserve env));
        if restore_count_ c <? preserve_count_ c then
          m ← Restore m path data len mask my_name ref_name;
          let n := u64 (restore_count_ c + 1) in
          let c := if n =? preserve_count_ c then with_mode kExecution (with_counts (preserve_count_ c) 0 c)
                   else with_counts (preserve_count_ c) n c in
          Ok (len, m, <[k := c]> path)
        else Err AssertFail
    | kSuspension => Err AssertFail
    end.

(** ** Recovery *)

(** [sizeof(Internal)], the structure of debug_user_data.h. *)
Definition SIZEOF_INTERNAL : Z := 200.

(** What RestoreAll prints of the domain besides its entries: its label and
    level, the count of its phase, and the count of the failure. *)
Record Place := mkPlace { p_label : string; p_level : Z; p_seq_end : Z; p_failed_seqID : Z }.

(** [" %s Lv%u %ld->%ld"] *)
Definition place_line (w : Place) : string :=
  (" " ++ p_label w ++ " Lv" ++ pretty (p_level w) ++ " " ++ pretty (p_seq_end w) ++ "->" ++ pretty (p_failed_seqID w))%string.

(** RestoreAll reads every preserved array into an object of type Internal on
    the stack, to print it.  The two lines it prints before are written into an
    array of 64 characters. *)
Definition RestoreAll (w : Place) (c : CDPrv) : res CDPrv :=
  _ ← sprintf 64 ("RollbackAll" ++ place_line w)%string;
  objs ← TableStore_new BASE_ENTRY_CNT;
  '(entry_num, objs) ← FindWithAttr (entry_table_ c) karray 0 objs true;
  _ ← sprintf 64 ("Rollback " ++ pretty entry_num ++ place_line w)%string;
  _ ← for_range 0 entry_num (λ i _,
        i ← crem i (t_size_ objs);
        e ← entry_at objs i;
        bs ← GetData (entry_data_ c) (entry_size e) (offset_ e);
        if zlen bs <=? SIZEOF_INTERNAL then Ok () else Err OutOfBounds) ();
  Ok (with_counts (preserve_count_ c) 0 c).

(** [RecoverObject::Recover], up to Reexecute. *)
Definition Recover (w : Place) (c : CDPrv) : res CDPrv := RestoreAll w (with_reexecuted true (with_mode kReexecution c)).

End preserve.

(** ** An instance

    Names are their own hash, and no object serialises itself. *)
Fixpoint name_code (s : string) : Z :=
  match s with EmptyString => 0 | String a s => Z.of_nat (Ascii.nat_of_ascii a) + 256 * name_code s end.

Definition plain_env : Env :=
  {| cd_hash := name_code; dont_preserve := false; is_koutput_disabled := false;
     PreserveObject := λ _ _ _ _ _, Err AssertFail; GetTotalSize := λ _ _, 0;
     Deserialize := λ _ _ _ _ _, Err AssertFail |}.
