(* ===== verification/Restoration.v ===== *)
(** * What is preserved is restored

    Theorems about [Preserve.v], for regions a domain preserves by copy: every
    execution of the domain after the first finds in its regions what they
    held when they were preserved, whatever happened to the memory since, and
    however often the domain fails; and the cases in which the code fails. *)

From Stdlib Require Import ZArith Lia String.
From stdpp Require Import base gmap list list_numbers numbers strings pretty.
From S2P Require Import Prelude Layout Memory CdLog TableStore DataStore Preserve.

(** ** The calls of a domain *)

Record Region := { r_addr : Z; r_len : Z; r_name : string }.

(** The lines RestoreAll prints for [n] entries fit in its array. *)
Definition lines_fit (w : Place) (n : Z) : Prop :=
  Z.of_nat (String.length ("RollbackAll" ++ place_line w)) < 64 ∧
  Z.of_nat (String.length ("Rollback " ++ pretty n ++ place_line w)) < 64.

#[export] Instance lines_fit_dec w n : Decision (lines_fit w n).
Proof. unfold lines_fit. apply _. Defined.

Lemma sprintf_fits cap s : Z.of_nat (String.length s) < cap → sprintf cap s = Ok s.
Proof. intros H. unfold sprintf. by rewrite (proj2 (Z.ltb_lt _ _)). Qed.

Lemma sprintf_either cap s : sprintf cap s = Ok s ∨ sprintf cap s = Err OutOfBounds.
Proof. unfold sprintf. destruct (_ <? _); auto. Qed.

Lemma length_string_app (a b : string) : String.length (a ++ b) = (String.length a + String.length b)%nat.
Proof. induction a; simpl; by f_equal. Qed.

Section restoration.
Variable env : Env.
Hypothesis preserves : dont_preserve env = false.

#[local] Abbreviation tag r := (cd_hash env (r_name r)).

(** A call that preserves a region by copy in the innermost domain, or
    restores it. *)
Definition preserve_region (m : mem) (r : Region) (path : list CDPrv) : res (mem * list CDPrv) :=
  '(_, m, path) ← Preserve env m path 0 (r_addr r) (r_len r) kCopy (r_name r) EmptyString 0; Ok (m, path).

(** The calls of an execution, each with the memory it finds; the result is
    the memory each of them leaves. *)
Fixpoint calls (l : list (mem * Region)) (path : list CDPrv) : res (list mem * list CDPrv) :=
  match l with
  | [] => Ok ([], path)
  | (m, r) :: l =>
      '(m, path) ← preserve_region m r path;
      '(ms, path) ← calls l path;
      Ok (m :: ms, path)
  end.

(** Executions after the first: each begins with a recovery, where RestoreAll
    prints the label of the domain and its counts. *)
Fixpoint attempts (ls : list (Place * list (mem * Region))) (path : list CDPrv) : res (list (list mem) * list CDPrv) :=
  match ls with
  | [] => Ok ([], path)
  | (w, l) :: ls =>
      match path with
      | [] => Err OutOfBounds
      | c :: ps =>
          c ← Recover w c;
          '(ms, path) ← calls l (c :: ps);
          '(mss, path) ← attempts ls path;
          Ok (ms :: mss, path)
      end
  end.

(** ** The specification

    The contents of the regions preserved so far, in the order of the calls.
    A call for a region that has been preserved gives its contents back;
    another preserves what the memory holds. *)
Definition spec_mems (saved : list (list cell)) (l : list (mem * Region)) : list mem :=
  imap (λ i '(m, r), match saved !! i with Some bs => mwrite m (r_addr r) bs | None => m end) l.

Definition spec_saved (saved : list (list cell)) (l : list (mem * Region)) : list (list cell) :=
  saved ++ ((λ '(m, r), mread m (r_addr r) (r_len r)) <$> drop (length saved) l).

Fixpoint spec_attempts (saved : list (list cell)) (ls : list (Place * list (mem * Region))) : list (list mem) :=
  match ls with
  | [] => []
  | (_, l) :: ls => spec_mems saved l :: spec_attempts (spec_saved saved l) ls
  end.

(** ** The store holds what was preserved *)

Definition entry_for (o : Z) (r : Region) : CDEntry :=
  SetOffset (CHUNK_ALIGNMENT + o) (CDEntry_new (tag r) karray (r_len r) 0 (r_addr r)).

Fixpoint entries (o : Z) (l : list (Region * list cell)) : list CDEntry :=
  match l with
  | [] => []
  | (r, bs) :: l => entry_for o r :: entries (o + zlen bs) l
  end.

Definition bytes_of (l : list (Region * list cell)) : list cell := l ≫= snd.

Definition region_ok (r : Region) : Prop :=
  1 ≤ r_len r < 2 ^ 48 ∧ r_addr r ≠ NULL ∧ r_name r ≠ EmptyString.

(** All regions of a domain: distinct tags, room in the store. *)
Definition regions_ok (rs : list Region) : Prop :=
  Forall region_ok rs ∧ NoDup ((λ r, tag r) <$> rs) ∧ zlen rs < MAX_ENTRIES ∧
  foldr (λ r n, r_len r + n) 0 rs ≤ MAX_DATA.

Definition held (c : CDPrv) (l : list (Region * list cell)) : Prop :=
  table_rep (entry_table_ c) (entries 0 l) ∧ data_rep (entry_data_ c) (bytes_of l) ∧
  remote_entry_directory_map_ c = ∅ ∧ preserve_count_ c = zlen l ∧
  Forall (λ '(r, bs), zlen bs = r_len r) l.

Lemma length_entries o l : length (entries o l) = length l.
Proof. revert o. induction l as [|[r bs] l IH]; intros o; simpl; [done|]. by rewrite IH. Qed.

Lemma zlen_entries o l : zlen (entries o l) = zlen l.
Proof. unfold zlen. by rewrite length_entries. Qed.

Lemma entries_lookup o l i r bs :
  l !! i = Some (r, bs) → entries o l !! i = Some (entry_for (o + zlen (bytes_of (take i l))) r).
Proof.
  revert o i. induction l as [|[r0 bs0] l IH]; intros o i; [done|].
  destruct i as [|i]; simpl.
  - intros [= -> ->]. change (zlen (bytes_of [])) with 0. by rewrite Z.add_0_r.
  - intros Hl. rewrite (IH _ _ Hl). unfold bytes_of. simpl. rewrite zlen_app. by rewrite Z.add_assoc.
Qed.

Lemma entries_lookup_inv o l i e :
  entries o l !! i = Some e →
  ∃ r bs, l !! i = Some (r, bs) ∧ e = entry_for (o + zlen (bytes_of (take i l))) r.
Proof.
  intros He. destruct (lookup_lt_is_Some_2 l i) as [[r bs] Hl].
  { rewrite <-(length_entries o). by eapply lookup_lt_Some. }
  exists r, bs. split; [done|]. pose proof (entries_lookup o l i r bs Hl). congruence.
Qed.

Lemma entries_snoc o l r bs :
  entries o (l ++ [(r, bs)]) = entries o l ++ [entry_for (o + zlen (bytes_of l)) r].
Proof.
  revert o. induction l as [|[r0 bs0] l IH]; intros o; simpl.
  - change (zlen (bytes_of [])) with 0. by rewrite Z.add_0_r.
  - rewrite IH. unfold bytes_of. simpl. rewrite zlen_app. by rewrite Z.add_assoc.
Qed.

Lemma bytes_of_split l i r bs :
  l !! i = Some (r, bs) → bytes_of l = bytes_of (take i l) ++ bs ++ bytes_of (drop (S i) l).
Proof.
  intros Hl. rewrite <-(take_drop_middle l i (r, bs) Hl) at 1. unfold bytes_of.
  by rewrite bind_app, bind_cons.
Qed.

Lemma entry_for_fields o r :
  region_ok r → id_ (entry_for o r) = tag r ∧ entry_size (entry_for o r) = r_len r ∧
  src_ (entry_for o r) = r_addr r ∧ offset_ (entry_for o r) = CHUNK_ALIGNMENT + o ∧
  Attr_Check (size_ (entry_for o r)) krefer = false ∧ CheckAny (size_ (entry_for o r)) karray = true.
Proof.
  intros (Hlen & _ & _). unfold entry_for, SetOffset, CDEntry_new, entry_size; simpl.
  rewrite attr_size_new, Z.mod_small by lia. unfold Attr_Check, CheckAny.
  rewrite attr_bits_new by (unfold karray; lia). done.
Qed.

Definition volume (rs : list Region) : Z := foldr (λ r n, r_len r + n) 0 rs.

Lemma region_volume_app rs rs' : volume (rs ++ rs') = volume rs + volume rs'.
Proof. unfold volume. induction rs as [|r rs IH]; simpl; [done|]. rewrite IH. lia. Qed.

Lemma volume_nonneg rs : Forall region_ok rs → 0 ≤ volume rs.
Proof. unfold volume. induction 1 as [|r rs (? & _) _ IH]; simpl; [done|]. lia. Qed.

Lemma zlen_bytes_of l : Forall (λ '(r, bs), zlen bs = r_len r) l → zlen (bytes_of l) = volume l.*1.
Proof.
  induction 1 as [|[r bs] l Hr _ IH]; [done|]. change (bytes_of ((r, bs) :: l)) with (bs ++ bytes_of l).
  rewrite zlen_app, IH, Hr. done.
Qed.

(** The first regions of a domain, with room for the others. *)
Lemma prefix_room rs l k :
  regions_ok rs → Forall (λ '(r, bs), zlen bs = r_len r) l → l.*1 ++ k `prefix_of` rs →
  Forall region_ok (l.*1 ++ k) ∧ zlen (bytes_of l) + volume k ≤ MAX_DATA ∧ zlen l + zlen k < MAX_ENTRIES ∧
  NoDup ((λ r, tag r) <$> (l.*1 ++ k)).
Proof.
  intros (Hok & Hnd & Hn & Hv) Hl [k' ->].
  rewrite Forall_app in Hok. destruct Hok as [Hok Hok']. fold (volume (( l.*1 ++ k) ++ k')) in Hv.
  rewrite !region_volume_app in Hv. pose proof (volume_nonneg _ Hok'). rewrite zlen_bytes_of by done.
  split; [done|]. split; [lia|]. rewrite !zlen_app, zlen_fmap in Hn. pose proof (zlen_nonneg k').
  split; [lia|]. rewrite fmap_app in Hnd. by apply NoDup_app in Hnd as (? & _ & _).
Qed.

Lemma AddEntry_rep t d m l r :
  region_ok r → table_rep t (entries 0 l) → data_rep d (bytes_of l) →
  zlen (bytes_of l) + r_len r ≤ MAX_DATA → zlen l < MAX_ENTRIES →
  ∃ p t' d', AddEntry t d m (r_addr r) (CDEntry_new (tag r) karray (r_len r) 0 (r_addr r)) = Ok (p, t', d') ∧
    table_rep t' (entries 0 (l ++ [(r, mread m (r_addr r) (r_len r))])) ∧
    data_rep d' (bytes_of (l ++ [(r, mread m (r_addr r) (r_len r))])).
Proof.
  intros Hr Ht Hd Hb Hn. pose proof (entry_for_fields 0 r Hr) as (_ & Hsz & _).
  destruct Hr as (Hlen & Ha & Hnm). unfold AddEntry.
  change (entry_size (CDEntry_new _ _ _ _ _)) with (entry_size (entry_for 0 r)). rewrite Hsz.
  rewrite (proj2 (Z.eqb_neq _ _) Ha), (proj2 (Z.eqb_neq (r_len r) 0)) by lia. simpl negb. cbn [andb].
  destruct (Write_sim d (bytes_of l) (mread m (r_addr r) (r_len r)) Hd) as (d' & Hw & Hd');
    [rewrite zlen_mread; lia|].
  rewrite Hw, ret_bind.
  destruct (InsertEntry_sim t (entries 0 l)
    (SetOffset (CHUNK_ALIGNMENT + zlen (bytes_of l)) (CDEntry_new (tag r) karray (r_len r) 0 (r_addr r))) Ht)
    as (t' & Hi & Ht' & _); [by rewrite zlen_entries|].
  rewrite Hi, ret_bind. eexists _, _, _. split; [done|]. split.
  - rewrite entries_snoc. exact Ht'.
  - unfold bytes_of. rewrite bind_app. simpl. rewrite app_nil_r. exact Hd'.
Qed.

(** A call of Preserve that copies a region, in terms of the store. *)
Lemma preserve_copy_call m c ps r mask t d p :
  exec_mode_ c = kExecution → r_name r ≠ EmptyString → 0 ≤ preserve_count_ c < 2 ^ 64 - 1 →
  CHECK_PRV_TYPE mask kOutput = false → CHECK_PRV_TYPE mask kSerdes = false →
  CHECK_ANY mask (Z.lor kCopy kOutput) = true →
  AddEntry (entry_table_ c) (entry_data_ c) m (r_addr r)
    (CDEntry_new (tag r) (Z.lor (if CHECK_PRV_TYPE mask kCoop then kremote else 0) karray) (r_len r) 0 (r_addr r)) =
    Ok (p, t, d) →
  Preserve env m (c :: ps) 0 (r_addr r) (r_len r) mask (r_name r) EmptyString 0 =
  Ok (r_len r, m,
      with_counts (preserve_count_ c + 1) (restore_count_ c)
        (if negb (tag r =? INVALID_NUM) && CHECK_PRV_TYPE mask kCoop
         then with_remote (<[tag r := Some p]> (remote_entry_directory_map_ c)) (with_store t d c)
         else with_store t d c) :: ps).
Proof.
  intros Hm Hnm Hc Ho Hs Ha Hadd.
  unfold Preserve. change (domain (c :: ps) 0) with (Ok c : res CDPrv). rewrite ret_bind, Ho, Hm.
  unfold InternalPreserve. change (domain (c :: ps) 0) with (Ok c : res CDPrv). rewrite ret_bind, Hm.
  rewrite !bool_decide_eq_true_2 by done. change (cassert true) with (Ok () : res unit). rewrite !ret_bind, preserves, Ha.
  unfold preserve_copy_at, PreserveCopy. change (domain (c :: ps) 0) with (Ok c : res CDPrv). rewrite ret_bind, Hs, Ho.
  rewrite Hadd, !ret_bind. cbn [insert list_insert].
  destruct (_ && _); change (domain (?x :: ps) 0) with (Ok x : res CDPrv); rewrite ?ret_bind;
    cbn [insert list_insert]; change (domain (?x :: ps) 0) with (Ok x : res CDPrv); rewrite ret_bind; simpl;
    by rewrite u64_small by lia.
Qed.

(** A call in an execution preserves. *)
Lemma preserve_step c ps m l rs r :
  regions_ok rs → held c l → exec_mode_ c = kExecution → l.*1 ++ [r] `prefix_of` rs →
  ∃ c', preserve_region m r (c :: ps) = Ok (m, c' :: ps) ∧
    held c' (l ++ [(r, mread m (r_addr r) (r_len r))]) ∧ exec_mode_ c' = kExecution ∧
    restore_count_ c' = restore_count_ c.
Proof.
  intros Hrs (Ht & Hd & Hmap & Hcnt & Hl) Hm Hpre.
  destruct (prefix_room rs l [r] Hrs Hl Hpre) as (Hok & Hb & Hn & _).
  apply Forall_app in Hok as [_ Hr]. apply Forall_cons in Hr as [Hr _]. pose proof Hr as (Hlen & Ha & Hnm).
  change (volume [r]) with (r_len r + 0) in Hb. change (zlen [r]) with 1 in Hn.
  destruct (AddEntry_rep (entry_table_ c) (entry_data_ c) m l r Hr Ht Hd) as (p & t' & d' & Hadd & Ht' & Hd');
    [lia|lia|].
  pose proof (zlen_nonneg l). unfold MAX_ENTRIES in Hn. unfold preserve_region.
  rewrite (preserve_copy_call m c ps r kCopy t' d' p) by (done || lia). rewrite andb_false_r, ret_bind.
  eexists. split; [done|]. simpl. split; [|done].
  split; [exact Ht'|]. split; [exact Hd'|]. split; [exact Hmap|]. simpl. rewrite Hcnt. split.
  - rewrite zlen_app. done.
  - apply Forall_app. split; [done|]. apply Forall_singleton. apply zlen_mread. lia.
Qed.

Lemma held_region_ok rs c l n r bs :
  regions_ok rs → l.*1 `prefix_of` rs → held c l → l !! n = Some (r, bs) → region_ok r.
Proof.
  intros Hrs Hpre (_ & _ & _ & _ & Hl) Hn.
  destruct (prefix_room rs l [] Hrs Hl) as (Hok & _); [by rewrite app_nil_r|]. rewrite app_nil_r in Hok.
  eapply Forall_lookup_1; [exact Hok|]. by rewrite list_lookup_fmap, Hn.
Qed.

Lemma FindReverse_held rs c l n r bs :
  regions_ok rs → l.*1 `prefix_of` rs → held c l → l !! n = Some (r, bs) →
  FindReverse (entry_table_ c) (tag r) knoattr = Ok (Some (Z.of_nat n)).
Proof.
  intros Hrs Hpre (Ht & _ & _ & _ & Hl) Hn.
  destruct (prefix_room rs l [] Hrs Hl) as (Hok & _ & _ & Hnd); [by rewrite app_nil_r|]. rewrite app_nil_r in Hok, Hnd.
  assert (region_ok r) as Hr.
  { eapply Forall_lookup_1; [exact Hok|]. rewrite list_lookup_fmap, Hn. done. }
  destruct (FindReverse_sim _ _ (tag r) Ht) as (res & -> & Hlast). f_equal.
  assert (id_ (entry_for (0 + zlen (bytes_of (take n l))) r) = tag r) as Hid by apply (entry_for_fields _ r Hr).
  pose proof (entries_lookup 0 l n r bs Hn) as Hen.
  destruct res as [i|]; simpl in Hlast; [|by destruct (Hlast _ _ Hen)].
  destruct Hlast as (n' & e & -> & He & Htag & _). do 2 f_equal.
  destruct (entries_lookup_inv _ _ _ _ He) as (r' & bs' & Hn' & ->).
  assert (region_ok r') as Hr'.
  { eapply Forall_lookup_1; [exact Hok|]. rewrite list_lookup_fmap, Hn'. done. }
  rewrite (proj1 (entry_for_fields _ r' Hr')) in Htag.
  eapply (NoDup_lookup _ _ _ (tag r) Hnd); rewrite !list_lookup_fmap; [by rewrite Hn'; simpl; rewrite Htag|by rewrite Hn].
Qed.

Lemma entry_held rs c l n r bs :
  regions_ok rs → l.*1 `prefix_of` rs → held c l → l !! n = Some (r, bs) →
  ∃ e, entry_at (entry_table_ c) (Z.of_nat n) = Ok e ∧ entry_size e = r_len r ∧ src_ e = r_addr r ∧
    Attr_Check (size_ e) krefer = false ∧ CheckAny (size_ e) karray = true ∧
    GetData (entry_data_ c) (r_len r) (offset_ e) = Ok bs.
Proof.
  intros Hrs Hpre (Ht & Hd & _ & _ & Hl) Hn.
  destruct (prefix_room rs l [] Hrs Hl) as (Hok & Hb & _); [by rewrite app_nil_r|]. rewrite app_nil_r in Hok.
  assert (region_ok r) as Hr.
  { eapply Forall_lookup_1; [exact Hok|]. rewrite list_lookup_fmap, Hn. done. }
  assert (zlen bs = r_len r) as Hbs by (eapply Forall_lookup_1 in Hl; [|exact Hn]; done).
  eexists. split; [by eapply entry_at_rep, entries_lookup|].
  destruct (entry_for_fields (0 + zlen (bytes_of (take n l))) r Hr) as (_ & -> & -> & -> & -> & ->).
  split; [done|]. split; [done|]. split; [done|]. split; [done|].
  rewrite (bytes_of_split l n r bs Hn) in Hd, Hb. rewrite Z.add_0_l, <-Hbs.
  apply (GetData_sim _ _ _ _ Hd). change (volume []) with 0 in Hb. lia.
Qed.

Lemma SearchEntry_held rs c ps l n r bs :
  regions_ok rs → l.*1 `prefix_of` rs → held c l → l !! n = Some (r, bs) → exec_mode_ c ≠ kSuspension →
  SearchEntry (c :: ps) (tag r) knoattr = Ok (Some (O, Z.of_nat n)).
Proof.
  intros Hrs Hpre Hh Hn Hm. unfold SearchEntry, current_pos. rewrite bool_decide_eq_false_2 by done.
  cbn [drop search_up]. unfold InternalGetEntry. pose proof Hh as (_ & _ & -> & _).
  rewrite lookup_empty, (FindReverse_held rs c l n r bs), ret_bind by done.
  destruct (entry_held rs c l n r bs) as (e & -> & _ & _ & Hk & _); [done..|]. by rewrite ret_bind, Hk, ret_bind.
Qed.

(** A call in a re-execution restores. *)
Lemma restore_step c ps m l rs n r bs :
  regions_ok rs → l.*1 `prefix_of` rs → held c l → exec_mode_ c = kReexecution →
  l !! n = Some (r, bs) → restore_count_ c = Z.of_nat n →
  ∃ c', preserve_region m r (c :: ps) = Ok (mwrite m (r_addr r) bs, c' :: ps) ∧ held c' l ∧
    if decide (S n = length l) then exec_mode_ c' = kExecution ∧ restore_count_ c' = 0
    else exec_mode_ c' = kReexecution ∧ restore_count_ c' = Z.of_nat (S n).
Proof.
  intros Hrs Hpre Hh Hm Hn Hc. pose proof Hh as (Ht & Hd & Hmap & Hcnt & Hl).
  destruct (prefix_room rs l [] Hrs Hl) as (Hok & _ & Hmax & _); [by rewrite app_nil_r|]. rewrite app_nil_r in Hok.
  destruct (held_region_ok rs c l n r bs) as (Hlen & Ha & Hnm); [done..|].
  pose proof (lookup_lt_Some _ _ _ Hn) as Hlt. unfold MAX_ENTRIES in Hmax. change (zlen []) with 0 in Hmax.
  unfold preserve_region, Preserve. change (domain (c :: ps) 0) with (Ok c : res CDPrv). rewrite ret_bind.
  change (CHECK_PRV_TYPE kCopy kOutput) with false. cbn iota. rewrite Hm, preserves.
  change (cassert (negb false)) with (Ok () : res unit). rewrite ret_bind.
  rewrite (proj2 (Z.ltb_lt _ _)) by (rewrite Hc, Hcnt; unfold zlen; lia).
  unfold Restore. change (CHECK_PRV_TYPE kCopy kRef) with false. change (CHECK_PRV_TYPE kCopy kSerdes) with false.
  cbn iota. rewrite (SearchEntry_held rs c ps l n r bs), ret_bind by (done || by rewrite Hm).
  change (domain (c :: ps) 0) with (Ok c : res CDPrv). rewrite ret_bind.
  destruct (entry_held rs c l n r bs) as (e & -> & Hsz & Hsrc & _ & _ & Hget); [done..|]. rewrite ret_bind, Hsz, Hsrc.
  rewrite !Z.eqb_refl. change (cassert true) with (Ok () : res unit). rewrite !ret_bind, Hget, ret_bind.
  rewrite (proj2 (Z.eqb_neq _ _) Ha). cbn [andb]. rewrite ret_bind, Hc, Hcnt, u64_small by (unfold zlen in *; lia).
  cbn [insert list_insert]. rewrite ret_bind.
  destruct (Z.eqb_spec (Z.of_nat n + 1) (zlen l)) as [He|He].
  - eexists. split; [done|]. rewrite decide_True by (unfold zlen in He; lia). done.
  - eexists. split; [done|]. rewrite decide_False by (unfold zlen in He; lia). split; [done|]. simpl.
    split; [done|lia].
Qed.

(** The copy of the table RestoreAll goes through. *)
Lemma restore_table c l rs :
  regions_ok rs → l.*1 `prefix_of` rs → held c l →
  ∃ t0 t1, TableStore_new BASE_ENTRY_CNT = Ok t0 ∧
    FindWithAttr (entry_table_ c) karray 0 t0 true = Ok (zlen l, t1) ∧
    ∀ i r bs, l !! i = Some (r, bs) → ∃ e, crem (Z.of_nat i) (t_size_ t1) = Ok (Z.of_nat i) ∧
      entry_at t1 (Z.of_nat i) = Ok e ∧ entry_size e = r_len r ∧ zlen bs = r_len r ∧
      GetData (entry_data_ c) (r_len r) (offset_ e) = Ok bs.
Proof.
  intros Hrs Hpre Hh. pose proof Hh as (Ht & Hd & Hmap & Hcnt & Hl).
  destruct (prefix_room rs l [] Hrs Hl) as (Hok & _ & Hmax & _); [by rewrite app_nil_r|].
  change (zlen []) with 0 in Hmax. rewrite app_nil_r in Hok.
  destruct (TableStore_new BASE_ENTRY_CNT) as [t0|] eqn:Hnew; [|by vm_compute in Hnew].
  apply TableStore_new_rep in Hnew as Ht0; [|by unfold BASE_ENTRY_CNT].
  destruct (FindWithAttr_all (entry_table_ c) (entries 0 l) karray t0) as (t1 & Hf & Ht1); try done.
  { rewrite zlen_entries. lia. }
  { apply Forall_lookup_2. intros i e He. destruct (entries_lookup_inv _ _ _ _ He) as (r & bs & Hi & ->).
    apply (entry_for_fields _ r). eapply Forall_lookup_1; [exact Hok|]. by rewrite list_lookup_fmap, Hi. }
  rewrite zlen_entries in Hf. exists t0, t1. split; [done|]. split; [done|]. intros i r bs Hi.
  pose proof (entries_lookup 0 l i r bs Hi) as Hen.
  destruct (entry_held rs c l i r bs Hrs Hpre Hh Hi) as (e & He & Hes & _ & _ & _ & Hget).
  rewrite (entry_at_rep _ _ _ _ Ht Hen) in He. injection He as <-. eexists.
  split; [|split; [by apply (entry_at_rep t1 _ _ _ Ht1)|split; [done|split; [|done]]]].
  - pose proof (lookup_lt_Some _ _ _ Hi).
    assert (Z.of_nat i < t_size_ t1).
    { destruct Ht1 as (_ & _ & _ & _ & _ & Hm). destruct (t_ptr_ t1).
      - destruct Hm as (-> & r' & ->). rewrite zlen_app, zlen_entries. pose proof (zlen_nonneg r').
        unfold ENTRY_SIZE, zlen. lia.
      - destruct Hm as [Hm _]. apply (f_equal length) in Hm. rewrite length_entries in Hm. simpl in Hm. lia. }
    rewrite crem_Ok by lia. by rewrite Z.mod_small by lia.
  - by eapply (Forall_lookup_1 _ _ _ _ Hl) in Hi.
Qed.

(** RestoreAll reads back every region that fits its object. *)
Lemma Recover_rep w c l rs :
  regions_ok rs → l.*1 `prefix_of` rs → held c l → Forall (λ r, r_len r ≤ SIZEOF_INTERNAL) rs →
  lines_fit w (zlen l) →
  ∃ c', Recover w c = Ok c' ∧ held c' l ∧ exec_mode_ c' = kReexecution ∧ restore_count_ c' = 0.
Proof.
  intros Hrs Hpre Hh Hsz [Hw1 Hw2]. destruct (restore_table c l rs Hrs Hpre Hh) as (t0 & t1 & Hnew & Hf & Hread).
  unfold Recover, RestoreAll. rewrite (sprintf_fits _ _ Hw1), ret_bind, Hnew, ret_bind.
  cbn [entry_table_ entry_data_ with_reexecuted with_mode]. rewrite Hf, ret_bind, (sprintf_fits _ _ Hw2), ret_bind.
  assert (returns (for_range 0 (zlen l) (λ i (_ : ()),
      i ← crem i (t_size_ t1); e ← entry_at t1 i; bs ← GetData (entry_data_ c) (entry_size e) (offset_ e);
      if zlen bs <=? SIZEOF_INTERNAL then Ok () else Err OutOfBounds) ()) (λ _, True)) as ([] & -> & _)%returns_Ok.
  { apply (for_range_inv (λ _ _, True)); [apply zlen_nonneg|done|]. intros i [] Hi _.
    destruct (lookup_lt_is_Some_2 l (Z.to_nat i)) as [[r bs] Hli]; [unfold zlen in Hi; lia|].
    destruct (Hread _ _ _ Hli) as (e & Hc & He & Hes & Hbs & Hget). rewrite Z2Nat.id in Hc, He by lia.
    rewrite Hc, ret_bind, He, ret_bind, Hes, Hget, ret_bind, Hbs.
    rewrite (proj2 (Z.leb_le _ _)); [done|]. eapply Forall_lookup_1 in Hsz; [exact Hsz|].
    eapply prefix_lookup_Some; [|exact Hpre]. by rewrite list_lookup_fmap, Hli. }
  rewrite ret_bind. eexists. split; [done|]. split; [|done]. exact Hh.
Qed.

(** ** A whole execution

    The [n]-th call has come: in a re-execution until all that was preserved
    is restored, then in normal execution. *)
Definition stage (c : CDPrv) (l : list (Region * list cell)) (n : nat) : Prop :=
  if decide (n < length l)%nat then exec_mode_ c = kReexecution ∧ restore_count_ c = Z.of_nat n
  else n = length l ∧ exec_mode_ c = kExecution.

Definition reads (l : list (mem * Region)) : list (list cell) := (λ '(m, r), mread m (r_addr r) (r_len r)) <$> l.

Definition mems_from (n : nat) (saved : list (list cell)) (l : list (mem * Region)) : list mem :=
  imap (λ i '(m, r), match saved !! (n + i)%nat with Some bs => mwrite m (r_addr r) bs | None => m end) l.

Lemma mems_from_cons n saved m r l :
  mems_from n saved ((m, r) :: l) =
  match saved !! n with Some bs => mwrite m (r_addr r) bs | None => m end :: mems_from (S n) saved l.
Proof.
  unfold mems_from. rewrite imap_cons, Nat.add_0_r. f_equal. apply imap_ext. intros i [m' r'] _. simpl.
  by rewrite Nat.add_succ_r.
Qed.

Lemma mems_from_grow n saved bs l :
  n = length saved → mems_from (S n) (saved ++ [bs]) l = mems_from (S n) saved l.
Proof.
  intros ->. apply imap_ext. intros i [m r] _. simpl.
  by rewrite !lookup_ge_None_2 by (rewrite ?length_app; simpl; lia).
Qed.

Lemma stage_next c l n :
  (if decide (S n = length l) then exec_mode_ c = kExecution ∧ restore_count_ c = 0
   else exec_mode_ c = kReexecution ∧ restore_count_ c = Z.of_nat (S n)) →
  (n < length l)%nat → stage c l (S n).
Proof. unfold stage. intros. repeat case_decide; naive_solver lia. Qed.

Lemma calls_spec rs ps k c l n :
  regions_ok rs → held c l → stage c l n → (n ≤ length l)%nat → l.*1 `prefix_of` rs →
  take n rs ++ k.*2 `prefix_of` rs →
  ∃ c' l', calls k (c :: ps) = Ok (mems_from n l.*2 k, c' :: ps) ∧ held c' l' ∧
    stage c' l' (n + length k) ∧ l'.*1 `prefix_of` rs ∧ l'.*2 = l.*2 ++ reads (drop (length l - n) k).
Proof.
  intros Hrs. revert c l n. induction k as [|[m r] k IH]; intros c l n Hh Hst Hn Hpre Hk.
  - exists c, l. rewrite Nat.add_0_r, drop_nil, app_nil_r. done.
  - assert (n ≤ length rs)%nat as Hnr.
    { apply prefix_length in Hpre. rewrite length_fmap in Hpre. lia. }
    assert (rs !! n = Some r) as Hr.
    { eapply prefix_lookup_Some; [|exact Hk]. rewrite lookup_app_r; rewrite length_take; [|lia].
      by replace (n - n `min` length rs)%nat with O by lia. }
    assert (take (S n) rs ++ k.*2 `prefix_of` rs) as Hk'.
    { rewrite (take_S_r _ _ r) by done. rewrite <-app_assoc. exact Hk. }
    cbn [calls]. rewrite mems_from_cons. unfold stage in Hst. case_decide as Hlt.
    + destruct Hst as [Hm Hc]. destruct (lookup_lt_is_Some_2 l n Hlt) as [[r' bs] Hln].
      assert (rs !! n = Some r') as Hr'.
      { eapply prefix_lookup_Some; [|exact Hpre]. by rewrite list_lookup_fmap, Hln. }
      assert (r' = r) as -> by congruence.
      destruct (restore_step c ps m l rs n r bs) as (c1 & -> & Hh1 & Hst1); [done..|].
      rewrite ret_bind. apply stage_next in Hst1; [|done].
      destruct (IH c1 l (S n)) as (c2 & l2 & -> & Hh2 & Hst2 & Hp2 & Hl2); [done|done|lia|done|done|].
      rewrite ret_bind. rewrite list_lookup_fmap, Hln. simpl. exists c2, l2. split; [done|]. split; [done|].
      rewrite Nat.add_succ_r. split; [done|]. split; [done|]. rewrite Hl2.
      by replace (length l - n)%nat with (S (length l - S n)) by lia.
    + destruct Hst as [-> Hm]. rewrite (lookup_ge_None_2 (l.*2)) by (rewrite length_fmap; lia).
      assert (l.*1 = take (length l) rs) as Hl1.
      { destruct Hpre as [k' ->]. rewrite take_app_le, firstn_all2; rewrite ?length_fmap; done. }
      assert (l.*1 ++ [r] `prefix_of` rs) as Hpr.
      { rewrite Hl1, <-(take_S_r _ _ r) by done. apply prefix_take. }
      destruct (preserve_step c ps m l rs r) as (c1 & -> & Hh1 & Hm1 & _); [done..|]. rewrite ret_bind.
      set (bs := mread m (r_addr r) (r_len r)) in *.
      destruct (IH c1 (l ++ [(r, bs)]) (S (length l))) as (c2 & l2 & Hc2 & Hh2 & Hst2 & Hp2 & Hl2).
      { done. }
      { unfold stage. rewrite length_app. simpl. rewrite decide_False by lia. split; [lia|done]. }
      { rewrite length_app. simpl. lia. }
      { by rewrite fmap_app. }
      { done. }
      rewrite Hc2, ret_bind. exists c2, l2. rewrite fmap_app. simpl.
      rewrite mems_from_grow by (by rewrite length_fmap). split; [done|]. split; [done|].
      rewrite Nat.add_succ_r. split; [done|]. split; [done|].
      rewrite Hl2, fmap_app, length_app. simpl.
      by replace (length l + 1 - S (length l))%nat with O by lia; rewrite Nat.sub_diag, <-app_assoc.
Qed.

Lemma stage_recovered c l :
  l ≠ [] → exec_mode_ c = kReexecution → restore_count_ c = 0 → stage c l 0.
Proof. intros Hl ? ?. unfold stage. destruct l; [done|]. rewrite decide_True by (simpl; lia). done. Qed.

Definition attempt_ok (rs : list Region) (k : Place * list (mem * Region)) : Prop :=
  k.2.*2 `prefix_of` rs ∧ ∀ n, 0 ≤ n ≤ zlen rs → lines_fit k.1 n.

Lemma attempts_spec rs ps ls c l :
  regions_ok rs → Forall (λ r, r_len r ≤ SIZEOF_INTERNAL) rs → held c l → l ≠ [] → l.*1 `prefix_of` rs →
  Forall (attempt_ok rs) ls →
  ∃ c', attempts ls (c :: ps) = Ok (spec_attempts l.*2 ls, c' :: ps).
Proof.
  intros Hrs Hsz. revert c l. induction ls as [|[w k] ls IH]; intros c l Hh Hl Hpre Hks; [by exists c|].
  apply Forall_cons in Hks as [[Hk Hw] Hks]. cbn [attempts spec_attempts].
  destruct (Recover_rep w c l rs) as (c1 & -> & Hh1 & Hm1 & Hc1); [done..| |].
  { apply Hw. apply prefix_length in Hpre. rewrite length_fmap in Hpre. unfold zlen. lia. }
  rewrite ret_bind.
  destruct (calls_spec rs ps k c1 l 0) as (c2 & l2 & -> & Hh2 & _ & Hp2 & Hl2);
    [done|done|by apply stage_recovered|lia|done|done|].
  rewrite ret_bind. rewrite Nat.sub_0_r in Hl2.
  destruct (IH c2 l2) as (c3 & Hat); [done| |done|done|].
  { intros ->. symmetry in Hl2. apply app_eq_nil in Hl2 as [Hl2 _]. by destruct l. }
  rewrite Hat, ret_bind. exists c3. do 2 f_equal. unfold spec_saved. rewrite Hl2, length_fmap. done.
Qed.

Lemma Begin_held c : held c [] → exec_mode_ c ≠ kReexecution → held (Begin_prv c) [] ∧ exec_mode_ (Begin_prv c) = kExecution.
Proof.
  intros (Ht & Hd & Hmap & Hcnt & Hl) Hm. unfold Begin_prv, held.
  destruct (exec_mode_ c) eqn:He; try done; simpl; rewrite ?He; simpl; (split; [|done]);
    (split; [done|]); (split; [by eapply data_ReInit_rep|done]).
Qed.

Lemma Complete_held c l : held c l → held (Complete_prv c) [] ∧ exec_mode_ (Complete_prv c) = kSuspension.
Proof.
  intros (Ht & Hd & Hmap & Hcnt & Hl). split; [|done]. unfold held, Complete_prv, DeleteEntryDirectory. simpl.
  split; [by eapply Table_Free_rep|]. split; [by eapply data_ReInit_rep|]. done.
Qed.

Lemma new_held n c : 1 ≤ n < 2 ^ 52 → CDPrv_new n = Ok c → held c [] ∧ exec_mode_ c = kSuspension.
Proof.
  intros Hn. unfold CDPrv_new. destruct (TableStore_new TABLE_ALLOC) as [t|] eqn:Ht; [|done].
  destruct (DataStore_new n) as [d|] eqn:Hd; [|done]. rewrite !ret_bind. intros [= <-]. split; [|done].
  apply TableStore_new_rep in Ht; [|unfold TABLE_ALLOC; simpl; lia]. apply DataStore_new_rep in Hd; [|done].
  done.
Qed.

Lemma begun_calls c ps rs first :
  regions_ok rs → held c [] → exec_mode_ c = kExecution → first.*2 `prefix_of` rs →
  ∃ c' l, calls first (c :: ps) = Ok (first.*1, c' :: ps) ∧ held c' l ∧ l.*1 `prefix_of` rs ∧ l.*2 = reads first ∧
    exec_mode_ c' = kExecution.
Proof.
  intros Hrs Hh Hm Hf. destruct (calls_spec rs ps first c [] 0) as (c' & l & Hc & Hh' & Hst & Hp & Hl);
    [done|done|done|done|apply prefix_nil|done|].
  exists c', l. rewrite Hc. split; [|split; [done|split; [done|split; [by rewrite Hl|]]]].
  - do 2 f_equal. clear. change (([] : list (Region * list cell)).*2) with ([] : list (list cell)). generalize 0%nat. induction first as [|[m r] first IH]; intros n; [done|].
    rewrite mems_from_cons, lookup_nil. simpl. by rewrite IH.
  - unfold stage in Hst. assert (length l = length first) as Hlen.
    { apply (f_equal length) in Hl. unfold reads in Hl. rewrite length_app, !length_fmap, drop_0 in Hl. done. }
    rewrite decide_False in Hst by (simpl; lia). naive_solver.
Qed.

(** C11: The regions a domain preserves by copy are restored.  A new domain
    begins, and its execution preserves regions with distinct tags, leaving
    the memory as it is.  However often it fails after that, wherever in its
    sequence of calls each execution stops, and whatever the memory holds by
    then: each call for a region that was preserved in an earlier execution
    writes back the bytes the region held then, changing nothing else, and
    each call for a region that was not preserves it.  The regions are of at
    most 200 bytes each (see [Recover_large_region]), and the lines RestoreAll
    prints of the domain fit in their array of 64 characters (see
    [Recover_long_label]). *)
Theorem preserved_regions_restored n c0 ps rs first ls :
  1 ≤ n < 2 ^ 52 → CDPrv_new n = Ok c0 →
  regions_ok rs → Forall (λ r, r_len r ≤ SIZEOF_INTERNAL) rs →
  first ≠ [] → first.*2 `prefix_of` rs → Forall (attempt_ok rs) ls →
  ∃ c1, calls first (Begin_prv c0 :: ps) = Ok (first.*1, c1 :: ps) ∧
  ∃ c2, attempts ls (c1 :: ps) = Ok (spec_attempts (reads first) ls, c2 :: ps).
Proof.
  intros Hn Hnew Hrs Hsz Hne Hf Hls. destruct (new_held n c0 Hn Hnew) as [Hh0 Hm0].
  destruct (Begin_held c0 Hh0) as [Hh Hm]; [by rewrite Hm0|].
  destruct (begun_calls (Begin_prv c0) ps rs first) as (c1 & l & Hc & Hh1 & Hp & Hl & _); [done..|].
  exists c1. split; [done|]. rewrite <-Hl. apply (attempts_spec rs); try done.
  intros ->. unfold reads in Hl. by destruct first.
Qed.

(** RestoreAll copies every preserved array into an object of 200 bytes on
    the stack.  If the first region a domain preserves is larger, its recovery
    writes outside of the object. *)
Theorem Recover_large_region n c0 ps rs m r first w :
  1 ≤ n < 2 ^ 52 → CDPrv_new n = Ok c0 → regions_ok rs → ((m, r) :: first).*2 `prefix_of` rs →
  SIZEOF_INTERNAL < r_len r →
  ∃ c1 ms, calls ((m, r) :: first) (Begin_prv c0 :: ps) = Ok (ms, c1 :: ps) ∧ Recover w c1 = Err OutOfBounds.
Proof.
  intros Hn Hnew Hrs Hf Hsz. destruct (new_held n c0 Hn Hnew) as [Hh0 Hm0].
  destruct (Begin_held c0 Hh0) as [Hh Hm]; [by rewrite Hm0|].
  destruct (begun_calls (Begin_prv c0) ps rs ((m, r) :: first)) as (c1 & l & Hc & Hh1 & Hp & Hl & _); [done..|].
  exists c1. eexists. split; [exact Hc|].
  assert (∃ l', l = (r, mread m (r_addr r) (r_len r)) :: l') as (l' & ->).
  { destruct l as [|[r' bs] l']; [done|]. injection Hl as -> Hl. destruct Hp as [k ->].
    simpl in Hf. destruct Hf as [k' Hf]. injection Hf as -> _. by exists l'. }
  destruct (restore_table c1 _ rs Hrs Hp Hh1) as (t0 & t1 & Hnew0 & Hff & Hread).
  destruct (Hread 0%nat _ _ eq_refl) as (e & Hcr & He & Hes & Hbs & Hget). change (Z.of_nat 0) with 0 in Hcr, He.
  unfold Recover, RestoreAll. destruct (sprintf_either 64 ("RollbackAll" ++ place_line w)) as [-> | ->]; [|done].
  rewrite ret_bind, Hnew0, ret_bind. cbn [entry_table_ entry_data_ with_reexecuted with_mode]. rewrite Hff, ret_bind.
  destruct (sprintf_either 64 ("Rollback " ++ pretty (zlen ((r, mread m (r_addr r) (r_len r)) :: l')) ++ place_line w))
    as [-> | ->]; [|done]. rewrite ret_bind.
  rewrite for_range_cons by (rewrite zlen_cons; pose proof (zlen_nonneg l'); lia).
  rewrite Hcr, ret_bind, He, ret_bind, Hes, Hget, ret_bind, Hbs. by rewrite (proj2 (Z.leb_gt _ _)) by done.
Qed.

(** RestoreAll prints the label of the domain into an array of 64 characters: a
    domain with a label of 46 characters is never recovered. *)
Theorem Recover_long_label w c : (46 ≤ String.length (p_label w))%nat → Recover w c = Err OutOfBounds.
Proof.
  intros Hw. unfold Recover, RestoreAll, sprintf. rewrite (proj2 (Z.ltb_ge _ _)); [done|].
  unfold place_line. rewrite !length_string_app. simpl. lia.
Qed.

(** ** References *)

Lemma InternalGetEntry_held rs c l n r bs :
  regions_ok rs → l.*1 `prefix_of` rs → held c l → l !! n = Some (r, bs) →
  InternalGetEntry c (tag r) knoattr = Ok (Some (Z.of_nat n)).
Proof.
  intros Hrs Hpre Hh Hn. unfold InternalGetEntry. pose proof Hh as (_ & _ & -> & _).
  rewrite lookup_empty, (FindReverse_held rs c l n r bs), ret_bind by done.
  destruct (entry_held rs c l n r bs) as (e & -> & _ & _ & Hk & _); [done..|]. by rewrite ret_bind, Hk.
Qed.

(** The entry of a reference is skipped by the search. *)
Lemma InternalGetEntry_ref c e t :
  remote_entry_directory_map_ c = ∅ → table_rep (entry_table_ c) e →
  Forall (λ x, Attr_Check (size_ x) krefer = true) e → InternalGetEntry c t knoattr = Ok None.
Proof.
  intros Hmap Ht He. unfold InternalGetEntry. rewrite Hmap, lookup_empty.
  destruct (FindReverse_sim _ _ t Ht) as ([i|] & -> & Hlast); rewrite ret_bind; [|done].
  destruct Hlast as (n & x & -> & Hx & _). rewrite (entry_at_rep _ _ _ _ Ht Hx), ret_bind.
  eapply Forall_lookup_1 in He; [|exact Hx]. by rewrite He.
Qed.

Lemma ref_entry_fields id len off ref :
  Attr_Check (size_ (CDEntry_new id krefer len off ref)) krefer = true ∧
  CheckAny (size_ (CDEntry_new id krefer len off ref)) karray = false.
Proof.
  unfold Attr_Check, CheckAny, CDEntry_new. cbn [size_]. rewrite attr_bits_new by (unfold krefer; lia).
  split; reflexivity.
Qed.

Lemma unset_output len : Attr_Unset (Attr_new karray len) koutput = Attr_new karray len.
Proof.
  unfold Attr_Unset. apply Z.bits_inj'. intros i Hi. rewrite Z.ldiff_spec, testbit_shift, !testbit_attr_new by lia.
  destruct (Z.ltb_spec i 48); [rewrite (proj2 (Z.leb_gt _ _)) by lia; by rewrite andb_true_r|].
  rewrite (proj2 (Z.leb_le _ _)) by lia. destruct (Z.ltb_spec i 64); [|done]. cbn [andb].
  change karray with (2 ^ 9). change koutput with (2 ^ 8). rewrite !Z.pow2_bits_eqb by lia.
  destruct (Z.eqb_spec 9 (i - 48)) as [<-|]; done.
Qed.

Lemma not_invalid len : invalid_ (Attr_new karray len) = false.
Proof. unfold invalid_. by rewrite testbit_attr_new. Qed.

(** Referring to a region of the parent leaves the parent as it is. *)
Lemma use_source_held rs c p ps l n r bs :
  regions_ok rs → l.*1 `prefix_of` rs → held p l → l !! n = Some (r, bs) →
  use_source (c :: p :: ps) 1 (Z.of_nat n) = Ok (c :: p :: ps).
Proof.
  intros Hrs Hpre Hh Hn. pose proof Hh as (Ht & _). pose proof (entries_lookup 0 l n r bs Hn) as Hen.
  unfold use_source. change (domain (c :: p :: ps) 1) with (Ok p : res CDPrv). rewrite ret_bind.
  rewrite (entry_at_rep _ _ _ _ Ht Hen), ret_bind. simpl size_. rewrite not_invalid, unset_output.
  destruct Ht as (_ & _ & _ & _ & _ & Hm). destruct (t_ptr_ (entry_table_ p)) as [a|] eqn:Ha.
  - destruct Hm as (_ & z & ->). pose proof (lookup_lt_Some _ _ _ Hen).
    rewrite astore_Ok, ret_bind by (rewrite length_app; lia). rewrite Nat2Z.id.
    change (with_size (Attr_new karray (r_len r)) (entry_for ?o r)) with (entry_for o r).
    rewrite (list_insert_id (entries 0 l ++ z) n) by (by apply lookup_app_l_Some).
    unfold with_store, with_entries. simpl. destruct p as [? ? [] ? ? ? ?]. simpl in *. by subst.
  - destruct Hm as [Hm _]. by rewrite Hm in Hen.
Qed.

(** The reference's call in an execution. *)
Lemma preserve_ref_step rs c p ps l k r bs m my off :
  regions_ok rs → l.*1 `prefix_of` rs → held p l → l !! k = Some (r, bs) → my ≠ EmptyString →
  held c [] → exec_mode_ c = kExecution →
  ∃ c1 e, Preserve env m (c :: p :: ps) 0 (r_addr r) (r_len r) kRef my (r_name r) off = Ok (r_len r, m, c1 :: p :: ps) ∧
    table_rep (entry_table_ c1) [e] ∧ Attr_Check (size_ e) krefer = true ∧ CheckAny (size_ e) karray = false ∧
    remote_entry_directory_map_ c1 = ∅ ∧ preserve_count_ c1 = 1 ∧ exec_mode_ c1 = kExecution ∧ entry_data_ c1 = entry_data_ c.
Proof.
  intros Hrs Hpre Hh Hk Hmy (Ht & Hd & Hmap & Hcnt & _) Hm.
  destruct (held_region_ok rs p l k r bs) as (Hlen & Ha & Hnm); [done..|].
  unfold Preserve. change (domain (c :: p :: ps) 0) with (Ok c : res CDPrv). rewrite ret_bind.
  change (CHECK_PRV_TYPE kRef kOutput) with false. cbn iota. rewrite Hm.
  unfold InternalPreserve. change (domain (c :: p :: ps) 0) with (Ok c : res CDPrv). rewrite ret_bind, Hm.
  rewrite !bool_decide_eq_true_2 by done. change (cassert true) with (Ok () : res unit). rewrite !ret_bind, preserves.
  change (CHECK_ANY kRef (Z.lor kCopy kOutput)) with false. change (CHECK_PRV_TYPE kRef kRef) with true. cbn iota.
  unfold preserve_ref, tag_or. rewrite bool_decide_eq_false_2 by done.
  change (CHECK_PRV_TYPE kRef kCoop) with false. change (CHECK_PRV_TYPE kRef kSerdes) with false.
  change (CHECK_PRV_TYPE kRef kIgnore) with false. change (CHECK_PRV_TYPE kRef kOutput) with false. cbn iota.
  unfold SearchEntry, current_pos. rewrite bool_decide_eq_false_2 by (by rewrite Hm). cbn [drop search_up].
  rewrite (InternalGetEntry_ref c []), ret_bind by done. rewrite (InternalGetEntry_held rs p l k r bs) by done.
  rewrite !ret_bind, (use_source_held rs c p ps l k r bs), ret_bind by done.
  set (e := CDEntry_new _ _ _ _ _). unfold insert_ref. change (domain (c :: p :: ps) 0) with (Ok c : res CDPrv).
  rewrite ret_bind.
  destruct (InsertEntry_sim (entry_table_ c) [] e Ht) as (t1 & -> & Ht1 & _); [done|].
  rewrite !ret_bind, andb_false_r, ret_bind. cbn [insert list_insert].
  change (domain (?x :: p :: ps) 0) with (Ok x : res CDPrv). rewrite ret_bind. cbn [insert list_insert].
  eexists _, e. split; [done|]. split; [exact Ht1|]. destruct (ref_entry_fields (cd_hash env my) (r_len r) off (tag r)).
  split; [done|]. split; [done|]. split; [done|]. simpl. by rewrite Hcnt, Hm.
Qed.

(** A domain that only refers to data of others has nothing to read back. *)
Lemma Recover_ref w c e :
  table_rep (entry_table_ c) [e] → CheckAny (size_ e) karray = false → lines_fit w 0 →
  Recover w c = Ok (with_counts (preserve_count_ c) 0 (with_reexecuted true (with_mode kReexecution c))).
Proof.
  intros Ht He [Hw1 Hw2]. unfold Recover, RestoreAll. rewrite (sprintf_fits _ _ Hw1), ret_bind.
  destruct (TableStore_new BASE_ENTRY_CNT) as [t0|] eqn:Hnew; [|by vm_compute in Hnew].
  apply TableStore_new_rep in Hnew as (_ & Ht0 & _); [|by unfold BASE_ENTRY_CNT]. change (zlen []) with 0 in Ht0.
  rewrite ret_bind. cbn [entry_table_ entry_data_ with_reexecuted with_mode preserve_count_].
  unfold FindWithAttr. pose proof Ht as (_ & -> & _). change (zlen [e]) with 1.
  rewrite for_range_cons by lia. pose proof (entry_at_rep _ _ 0 e Ht eq_refl) as Hof. change (Z.of_nat 0) with 0 in Hof.
  rewrite Hof, ret_bind, He, bool_decide_eq_false_2 by done. rewrite ret_bind, for_range_nil, ret_bind by lia. rewrite Ht0, ret_bind.
  rewrite (sprintf_fits _ _ Hw2), ret_bind, for_range_nil by lia. done.
Qed.

(** C13: A reference is restored from the domain that preserved the data.  A
    domain that begins refers to a region its parent has preserved; that
    leaves the parent, the memory and the domain's own buffer of data as they
    are: all the domain has is one entry in its table, a reference.  When the
    domain is executed again, the same call writes back the bytes the parent
    holds, and the domain is back in normal execution.  The lines RestoreAll
    prints fit in their array. *)
Theorem reference_restored n c0 rs p ps l k r bs m m' my off w :
  1 ≤ n < 2 ^ 52 → CDPrv_new n = Ok c0 →
  regions_ok rs → l.*1 `prefix_of` rs → held p l → l !! k = Some (r, bs) → my ≠ EmptyString →
  lines_fit w 0 →
  ∃ c1 c2 c3 e,
    Preserve env m (Begin_prv c0 :: p :: ps) 0 (r_addr r) (r_len r) kRef my (r_name r) off =
      Ok (r_len r, m, c1 :: p :: ps) ∧
    entry_data_ c1 = entry_data_ (Begin_prv c0) ∧ table_rep (entry_table_ c1) [e] ∧
    Attr_Check (size_ e) krefer = true ∧ CheckAny (size_ e) karray = false ∧
    Recover w c1 = Ok c2 ∧
    Preserve env m' (c2 :: p :: ps) 0 (r_addr r) (r_len r) kRef my (r_name r) off =
      Ok (r_len r, mwrite m' (r_addr r) bs, c3 :: p :: ps) ∧
    exec_mode_ c3 = kExecution.
Proof.
  intros Hn Hnew Hrs Hpre Hh Hk Hmy Hw. destruct (new_held n c0 Hn Hnew) as [Hh0 Hm0].
  destruct (Begin_held c0 Hh0) as [Hhc Hm]; [by rewrite Hm0|].
  destruct (preserve_ref_step rs (Begin_prv c0) p ps l k r bs m my off) as (c1 & e & Hp & Ht1 & Hr1 & Hk1 & Hmap1 & Hcnt1 & _ & Hdata);
    [done..|].
  exists c1. eexists. eexists. exists e. do 5 (split; [done|]). split; [by apply (Recover_ref w c1 e)|].
  unfold Preserve. change (domain (?x :: p :: ps) 0) with (Ok x : res CDPrv). rewrite ret_bind.
  change (CHECK_PRV_TYPE kRef kOutput) with false. cbn iota. simpl exec_mode_. cbn iota. rewrite preserves.
  change (cassert (negb false)) with (Ok () : res unit). rewrite ret_bind. simpl restore_count_. simpl preserve_count_.
  rewrite Hcnt1. change (0 <? 1) with true. cbn iota.
  destruct (entry_held rs p l k r bs) as (x & Hx & Hsz & Hsrc & _ & _ & Hget); [done..|].
  destruct (held_region_ok rs p l k r bs) as (_ & Ha & Hnm); [done..|].
  unfold Restore. change (CHECK_PRV_TYPE kRef kRef) with true. change (CHECK_PRV_TYPE kRef kSerdes) with false. cbn iota.
  unfold tag_or. rewrite bool_decide_eq_false_2 by done.
  unfold SearchEntry, current_pos. rewrite bool_decide_eq_false_2 by done. cbn [drop search_up].
  set (c2 := with_counts 1 0 (with_reexecuted true (with_mode kReexecution c1))).
  rewrite (InternalGetEntry_ref c2 [e]), ret_bind by (first [done | by repeat constructor]).
  rewrite (InternalGetEntry_held rs p l k r bs), !ret_bind by done.
  change (domain (?y :: p :: ps) 1) with (Ok p : res CDPrv). rewrite ret_bind, Hx, ret_bind, Hsz, Hsrc, !Z.eqb_refl.
  change (cassert true) with (Ok () : res unit). rewrite !ret_bind, Hget, ret_bind, (proj2 (Z.eqb_neq _ _) Ha).
  cbn [andb]. rewrite ret_bind. cbn [insert list_insert]. split; [done|]. done.
Qed.

(** A domain that fails before it has preserved anything cannot be
    executed again: it is in re-execution with nothing to restore, nothing
    ends the re-execution, and its first call of Preserve asserts. *)
Theorem reexecution_without_preserve_asserts n c0 ps m data len mask my ref off w :
  1 ≤ n < 2 ^ 52 → CDPrv_new n = Ok c0 → CHECK_PRV_TYPE mask kOutput = false → lines_fit w 0 →
  ∃ c1, Recover w (Begin_prv c0) = Ok c1 ∧ Preserve env m (c1 :: ps) 0 data len mask my ref off = Err AssertFail.
Proof.
  intros Hn Hnew Hmask Hw. destruct (new_held n c0 Hn Hnew) as [Hh0 Hm0].
  destruct (Begin_held c0 Hh0) as [Hh _]; [by rewrite Hm0|].
  assert (regions_ok []) as Hrs.
  { split; [done|]. split; [constructor|]. split; [done|]. by unfold MAX_DATA. }
  destruct (Recover_rep w (Begin_prv c0) [] [] Hrs) as (c1 & Hr & (_ & _ & _ & Hcnt & _) & Hm & Hc); [done..|].
  exists c1. split; [done|]. unfold Preserve. change (domain (c1 :: ps) 0) with (Ok c1 : res CDPrv).
  rewrite ret_bind, Hmask, Hm, preserves. change (cassert (negb false)) with (Ok () : res unit). rewrite ret_bind.
  by rewrite Hc, Hcnt.
Qed.

(** ** Cooperative entries *)

Lemma first_insertions e1 e2 :
  ∃ t0 t1 t2, TableStore_new TABLE_ALLOC = Ok t0 ∧ InsertEntry t0 e1 = Ok (0, t1) ∧ InsertEntry t1 e2 = Ok (1, t2) ∧
    t_allocated_ t1 = 1 ∧ t_allocated_ t2 = 2 ∧ entry_at t1 0 = Ok e1.
Proof. do 3 eexists. repeat split; reflexivity. Qed.

Lemma AddEntry_region t d m r a :
  region_ok r →
  AddEntry t d m (r_addr r) (CDEntry_new (tag r) a (r_len r) 0 (r_addr r)) =
  '(o, d') ← Write d (mread m (r_addr r) (r_len r));
  '(i, t') ← InsertEntry t (SetOffset o (CDEntry_new (tag r) a (r_len r) 0 (r_addr r)));
  Ok ((t_allocated_ t', i), t', d').
Proof.
  intros (Hl & Ha & _). unfold AddEntry.
  assert (entry_size (CDEntry_new (tag r) a (r_len r) 0 (r_addr r)) = r_len r) as ->.
  { unfold entry_size. simpl. rewrite attr_size_new, Z.mod_small; lia. }
  by rewrite (proj2 (Z.eqb_neq _ _) Ha), (proj2 (Z.eqb_neq (r_len r) 0)) by lia.
Qed.

Lemma SearchEntry_coop c ps t a i :
  exec_mode_ c ≠ kSuspension → remote_entry_directory_map_ c !! t = Some (Some (a, i)) →
  SearchEntry (c :: ps) t knoattr =
  if a =? t_allocated_ (entry_table_ c) then
    e ← entry_at (entry_table_ c) i;
    if Attr_Check (size_ e) krefer then search_up t knoattr 1 ps else Ok (Some (0%nat, i))
  else Err OutOfBounds.
Proof.
  intros Hm Hmap. unfold SearchEntry, current_pos. rewrite bool_decide_eq_false_2 by done. cbn [drop search_up].
  unfold InternalGetEntry. rewrite Hmap. unfold deref. cbn [fst snd]. destruct (a =? _); [|done].
  destruct (entry_at (entry_table_ c) i) as [e|] eqn:He; [|done]. rewrite !ret_bind, He, !ret_bind.
  by destruct (Attr_Check (size_ e) krefer).
Qed.

(** A domain's table starts with room for one entry (see [TABLE_ALLOC]).
    When the first region a domain preserves is preserved cooperatively, the
    domain's directory keeps a pointer to its entry; the second region makes
    the table grow, the old table is deleted, and from then on every search for
    the first region reads freed memory. *)
Theorem coop_entry_dangles n c0 ps m r1 r2 :
  1 ≤ n < 2 ^ 52 → CDPrv_new n = Ok c0 → region_ok r1 → region_ok r2 → tag r1 ≠ INVALID_NUM →
  r_len r1 + r_len r2 ≤ MAX_DATA →
  ∃ c1 c2,
    Preserve env m (Begin_prv c0 :: ps) 0 (r_addr r1) (r_len r1) (Z.lor kCopy kCoop) (r_name r1) EmptyString 0 =
      Ok (r_len r1, m, c1 :: ps) ∧
    SearchEntry (c1 :: ps) (tag r1) knoattr = Ok (Some (0%nat, 0)) ∧
    preserve_region m r2 (c1 :: ps) = Ok (m, c2 :: ps) ∧
    SearchEntry (c2 :: ps) (tag r1) knoattr = Err OutOfBounds.
Proof.
  intros Hn Hnew Hok1 Hok2 Htag Hmax. pose proof Hok1 as (Hl1 & Ha1 & Hnm1). pose proof Hok2 as (Hl2 & Ha2 & Hnm2).
  set (e1 := CDEntry_new (tag r1) (Z.lor kremote karray) (r_len r1) 0 (r_addr r1)).
  set (e2 := CDEntry_new (tag r2) (Z.lor 0 karray) (r_len r2) 0 (r_addr r2)).
  set (bs1 := mread m (r_addr r1) (r_len r1)). set (bs2 := mread m (r_addr r2) (r_len r2)).
  assert (zlen bs1 = r_len r1) as Hz1 by (apply zlen_mread; lia).
  assert (zlen bs2 = r_len r2) as Hz2 by (apply zlen_mread; lia).
  destruct (first_insertions (SetOffset (CHUNK_ALIGNMENT + 0) e1) (SetOffset (CHUNK_ALIGNMENT + zlen bs1) e2))
    as (t0 & t1 & t2 & Ht0 & Hi1 & Hi2 & Hal1 & Hal2 & He1).
  unfold CDPrv_new in Hnew. rewrite Ht0, ret_bind in Hnew.
  destruct (DataStore_new n) as [d0|] eqn:Hd0; [|done]. rewrite ret_bind in Hnew. injection Hnew as <-.
  apply DataStore_new_rep in Hd0 as Hr0; [|done]. apply data_ReInit_rep in Hr0.
  destruct (Write_sim (ReInit d0) [] bs1 Hr0) as (d1 & Hw1 & Hr1); change (zlen (@nil cell)) with 0 in *; [lia|].
  destruct (Write_sim d1 bs1 bs2 Hr1) as (d2 & Hw2 & Hr2); [lia|].
  assert (∀ c, exec_mode_ c = kExecution → preserve_count_ c = 0 → entry_table_ c = t0 → entry_data_ c = ReInit d0 →
    ∃ c1, Preserve env m (c :: ps) 0 (r_addr r1) (r_len r1) (Z.lor kCopy kCoop) (r_name r1) EmptyString 0 =
      Ok (r_len r1, m, c1 :: ps) ∧ exec_mode_ c1 = kExecution ∧ preserve_count_ c1 = 1 ∧ entry_table_ c1 = t1 ∧
      entry_data_ c1 = d1 ∧ remote_entry_directory_map_ c1 !! tag r1 = Some (Some (1, 0))) as Hfirst.
  { intros c Hm Hc Ht Hd. eexists. split.
    - apply (preserve_copy_call m c ps r1 _ t1 d1 (1, 0)); try done; [by rewrite Hc|].
      rewrite AddEntry_region, Ht, Hd by done. fold bs1. rewrite Hw1, ret_bind.
      change (Z.lor (if CHECK_PRV_TYPE (Z.lor kCopy kCoop) kCoop then kremote else 0) karray) with (Z.lor kremote karray).
      fold e1. by rewrite Hi1, ret_bind, Hal1.
    - rewrite (proj2 (Z.eqb_neq _ _) Htag). change (negb false && _) with true. cbn iota. simpl.
      rewrite Hc. repeat split; try done. apply lookup_insert_eq. }
  match goal with |- context [Begin_prv ?c] => destruct (Hfirst (Begin_prv c)) as (c1 & Hp1 & Hm1 & Hc1 & Ht1 & Hd1 & Hmap1); [done..|] end.
  exists c1. eexists. split; [exact Hp1|]. split; [|split].
  - rewrite (SearchEntry_coop c1 ps _ 1 0), Ht1, Hal1, He1, ret_bind by (done || by rewrite Hm1).
    assert (Attr_Check (size_ (SetOffset (CHUNK_ALIGNMENT + 0) e1)) krefer = false) as ->; [|done].
    change (size_ (SetOffset _ e1)) with (Attr_new (Z.lor kremote karray) (r_len r1)). unfold Attr_Check.
    rewrite attr_bits_new by (by split). done.
  - unfold preserve_region. rewrite (preserve_copy_call m c1 ps r2 kCopy t2 d2 (2, 1)); try done.
    + by rewrite Hc1.
    + rewrite AddEntry_region, Ht1, Hd1 by done. fold bs2. rewrite Hw2, ret_bind.
      change (CHECK_PRV_TYPE kCopy kCoop) with false. cbn iota. fold e2. by rewrite Hi2, ret_bind, Hal2.
  - rewrite andb_false_r, (SearchEntry_coop _ ps _ 1 0); [|cbn [exec_mode_ with_counts with_store]; by rewrite Hm1|exact Hmap1].
    cbn [entry_table_ with_counts with_store]. by rewrite Hal2.
Qed.

End restoration.

(** ** Witnesses *)

Definition region_a : Region := {| r_addr := 16; r_len := 3; r_name := "a" |}.
Definition region_b : Region := {| r_addr := 40; r_len := 2; r_name := "b" |}.
Definition sample_mem : mem := mwrite ∅ 16 [Some 1; Some 2; Some 3].

Lemma sample_regions_ok : regions_ok plain_env [region_a; region_b].
Proof.
  split; [|split; [|done]].
  - repeat constructor; done.
  - repeat constructor; set_solver.
Qed.

Definition sample_place : Place := mkPlace "sweep" 1 0 0.

Lemma sample_lines n : 0 ≤ n ≤ 2 → lines_fit sample_place n.
Proof. intros H. assert (n = 0 ∨ n = 1 ∨ n = 2) as [-> | [-> | ->]] by lia; vm_compute; done. Qed.

Lemma preserved_regions_restored_witness :
  ∃ c0, CDPrv_new 64 = Ok c0 ∧
  ∃ c1, calls plain_env [(sample_mem, region_a)] (Begin_prv c0 :: []) = Ok ([sample_mem], [c1]) ∧
  ∃ c2, attempts plain_env [(sample_place, [(∅, region_a); (sample_mem, region_b)]); (sample_place, [(∅, region_a)])] [c1] =
    Ok (spec_attempts (reads [(sample_mem, region_a)])
      [(sample_place, [(∅, region_a); (sample_mem, region_b)]); (sample_place, [(∅, region_a)])], [c2]).
Proof.
  eexists. split; [reflexivity|].
  refine (preserved_regions_restored plain_env eq_refl 64 _ [] [region_a; region_b] [(sample_mem, region_a)]
    [(sample_place, [(∅, region_a); (sample_mem, region_b)]); (sample_place, [(∅, region_a)])] _ eq_refl sample_regions_ok _ _ _ _).
  - lia.
  - repeat constructor; done.
  - done.
  - by exists [region_b].
  - apply Forall_cons. split; [|apply Forall_singleton]; (split; [|apply sample_lines]).
    + by exists [].
    + by exists [region_b].
Defined.

Definition region_large : Region := {| r_addr := 16; r_len := 201; r_name := "a" |}.

Lemma large_region_ok : regions_ok plain_env [region_large].
Proof.
  split; [|split; [|done]].
  - repeat constructor; done.
  - repeat constructor; set_solver.
Qed.

Lemma Recover_large_region_witness :
  ∃ c0, CDPrv_new 64 = Ok c0 ∧
  ∃ c1 ms, calls plain_env [(∅, region_large)] (Begin_prv c0 :: []) = Ok (ms, [c1]) ∧ Recover sample_place c1 = Err OutOfBounds.
Proof.
  eexists. split; [reflexivity|].
  refine (Recover_large_region plain_env eq_refl 64 _ [] [region_large] ∅ region_large [] sample_place _ eq_refl large_region_ok _ _).
  - lia.
  - by exists [].
  - done.
Defined.

Lemma reexecution_without_preserve_asserts_witness :
  ∃ c0, CDPrv_new 64 = Ok c0 ∧
  ∃ c1, Recover sample_place (Begin_prv c0) = Ok c1 ∧
    Preserve plain_env ∅ [c1] 0 16 3 kCopy "a" EmptyString 0 = Err AssertFail.
Proof.
  eexists. split; [reflexivity|].
  refine (reexecution_without_preserve_asserts plain_env eq_refl 64 _ [] ∅ 16 3 kCopy "a" EmptyString 0 sample_place _ eq_refl eq_refl _);
    [lia|by apply sample_lines].
Defined.

Lemma coop_entry_dangles_witness :
  ∃ c0, CDPrv_new 64 = Ok c0 ∧
  ∃ c1 c2, Preserve plain_env ∅ [Begin_prv c0] 0 16 3 (Z.lor kCopy kCoop) "a" EmptyString 0 = Ok (3, ∅, [c1]) ∧
    SearchEntry [c1] (name_code "a") knoattr = Ok (Some (0%nat, 0)) ∧
    preserve_region plain_env ∅ region_b [c1] = Ok (∅, [c2]) ∧
    SearchEntry [c2] (name_code "a") knoattr = Err OutOfBounds.
Proof.
  eexists. split; [reflexivity|].
  refine (coop_entry_dangles plain_env eq_refl 64 _ [] ∅ region_a region_b _ eq_refl _ _ _ _);
    [lia|done|done|done|done].
Defined.

(** A parent that holds one region. *)
Lemma sample_parent :
  ∃ c0 p, CDPrv_new 64 = Ok c0 ∧ held plain_env p [(region_a, mread sample_mem 16 3)] ∧
    calls plain_env [(sample_mem, region_a)] [Begin_prv c0] = Ok ([sample_mem], [p]).
Proof.
  destruct (CDPrv_new 64) as [c0|] eqn:Hc; [|by vm_compute in Hc].
  destruct (new_held plain_env 64 c0) as [Hh Hm]; [lia|done|].
  destruct (Begin_held plain_env c0 Hh) as [Hb Hmb]; [by rewrite Hm|].
  destruct (begun_calls plain_env eq_refl (Begin_prv c0) [] [region_a; region_b] [(sample_mem, region_a)])
    as (p & l & Hcl & Hp & Hpre & Hl & _); [apply sample_regions_ok|done|done|by exists [region_b]|].
  exists c0, p. split; [done|]. split; [|done].
  destruct l as [|[r bs] [|]]; try done. injection Hl as ->. destruct Hpre as [k Hk]. injection Hk as <- _. done.
Qed.

Lemma reference_restored_witness :
  ∃ c0 p c1 c2 c3 e, CDPrv_new 64 = Ok c0 ∧
    Preserve plain_env sample_mem [Begin_prv c0; p] 0 16 3 kRef "child" "a" 0 = Ok (3, sample_mem, [c1; p]) ∧
    entry_data_ c1 = entry_data_ (Begin_prv c0) ∧ table_rep (entry_table_ c1) [e] ∧
    Attr_Check (size_ e) krefer = true ∧ CheckAny (size_ e) karray = false ∧
    Recover sample_place c1 = Ok c2 ∧
    Preserve plain_env ∅ [c2; p] 0 16 3 kRef "child" "a" 0 = Ok (3, mwrite ∅ 16 (mread sample_mem 16 3), [c3; p]) ∧
    exec_mode_ c3 = kExecution.
Proof.
  destruct sample_parent as (c0 & p & Hc & Hp & _).
  destruct (reference_restored plain_env eq_refl 64 c0 [region_a; region_b] p []
    [(region_a, mread sample_mem 16 3)] 0 region_a (mread sample_mem 16 3) sample_mem ∅ "child" 0 sample_place)
    as (c1 & c2 & c3 & e & H); try done.
  - apply sample_regions_ok.
  - by exists [region_b].
  - exists c0, p, c1, c2, c3, e. split; [done|]. exact H.
Defined.
