(* ===== verification/FileStore.v ===== *)
(** * A preservation store that is kept in a file

    [src/src/persistence/data_store.h] and [data_store.cc] for a store whose
    file type is [kPosixFile] ([PosixFileHandle] of [cd_file_handle.cc]), which
    is what a domain that preserves to the local disk uses: the circular
    buffer is filled by WriteBuffer, written to the file by Flush and read back
    from the file by GetData, through the same buffer.

    All stores of a task share one file and one file handle.  [lseek] and
    [write] are modelled as succeeding in full, [read] stops at the end of the
    file; a hole left by [lseek] reads as zeros.  [assert] is checked,
    [PACKER_ASSERT] is compiled out.  The threads are in BufferConsumer.v: here
    WriteBuffer stops where it would wait for room and returns what is left. *)

From Stdlib Require Import ZArith Lia.
From stdpp Require Import base list list_numbers numbers.
From S2P Require Import Prelude Layout TableStore DataStore.

(** [CHUNK_ALIGNMENT], [chunksize_] and [chunk_mask + 1]: the size depends on
    [_USE_PFS]. *)
Definition CHUNK (use_pfs : bool) : Z := if use_pfs then CHUNK_ALIGNMENT else 512.

(** The buffer modes and the file types. *)
Definition kGrowingMode : Z := 0.
Definition kConcurrent : Z := 1.
Definition kBoundedMode : Z := 2.
Definition kEagerWriting : Z := 4.
Definition kReadMode : Z := 16.
Definition kVolatile : Z := 0.
Definition kPosixFile : Z := 256.
Definition kMPIFile : Z := 1024.

Definition CHECK_FLAG (X Y : Z) : bool := Z.land X Y =? Y.
Definition CD_SET (X Y : Z) : Z := Z.lor X Y.
Definition CD_UNSET (X Y : Z) : Z := Z.land X (Z.lnot Y).

(** ** The file *)

Record PosixFile := { contents_ : list cell; offset_ : Z }.

(** What [lseek] and [write] leave in the file. *)
Definition file_write (f : list cell) (off : Z) (bs : list cell) : list cell :=
  take (Z.to_nat off) (f ++ replicate (Z.to_nat (off - zlen f)) (Some 0)) ++ bs
  ++ drop (Z.to_nat (off + zlen bs)) f.

Definition Posix_Write (f : PosixFile) (offset : Z) (src : list cell) (inc : Z) : PosixFile :=
  {| contents_ := file_write (contents_ f) offset src;
     offset_ := u64 (if 0 <=? inc then offset_ f + inc else offset_ f + zlen src) |}.

(** The bytes [read] finds. *)
Definition Posix_Read (f : PosixFile) (len offset : Z) : res (list cell) :=
  _ ← cassert (0 <? len);
  Ok (take (Z.to_nat len) (drop (Z.to_nat offset) (contents_ f))).

Definition SetOffset (offset : Z) (f : PosixFile) : PosixFile :=
  {| contents_ := contents_ f; offset_ := offset |}.
Definition GetFileSize (f : PosixFile) : Z := offset_ f.

(** ** The store *)

Record FileStore := {
  ds_ : DataStore;
  mode_ : Z;
  ftype_ : Z;
  buf_preserved_ : option (list cell);
  tail_preserved_ : Z;
  head_preserved_ : Z;
  r_tail_ : Z;
  r_head_ : Z;
}.

Definition with_ds (d : DataStore) (s : FileStore) : FileStore :=
  {| ds_ := d; mode_ := mode_ s; ftype_ := ftype_ s; buf_preserved_ := buf_preserved_ s;
     tail_preserved_ := tail_preserved_ s; head_preserved_ := head_preserved_ s;
     r_tail_ := r_tail_ s; r_head_ := r_head_ s |}.
Definition SetMode (m : Z) (s : FileStore) : FileStore :=
  {| ds_ := ds_ s; mode_ := m; ftype_ := ftype_ s; buf_preserved_ := buf_preserved_ s;
     tail_preserved_ := tail_preserved_ s; head_preserved_ := head_preserved_ s;
     r_tail_ := r_tail_ s; r_head_ := r_head_ s |}.
Definition SetFileType (t : Z) (s : FileStore) : FileStore :=
  {| ds_ := ds_ s; mode_ := mode_ s; ftype_ := t; buf_preserved_ := buf_preserved_ s;
     tail_preserved_ := tail_preserved_ s; head_preserved_ := head_preserved_ s;
     r_tail_ := r_tail_ s; r_head_ := r_head_ s |}.
Definition with_preserved (b : option (list cell)) (n : Z) (s : FileStore) : FileStore :=
  {| ds_ := ds_ s; mode_ := mode_ s; ftype_ := ftype_ s; buf_preserved_ := b;
     tail_preserved_ := n; head_preserved_ := head_preserved_ s; r_tail_ := r_tail_ s; r_head_ := r_head_ s |}.
Definition with_head_preserved (n : Z) (s : FileStore) : FileStore :=
  {| ds_ := ds_ s; mode_ := mode_ s; ftype_ := ftype_ s; buf_preserved_ := buf_preserved_ s;
     tail_preserved_ := tail_preserved_ s; head_preserved_ := n; r_tail_ := r_tail_ s; r_head_ := r_head_ s |}.
Definition with_window (t h : Z) (s : FileStore) : FileStore :=
  {| ds_ := ds_ s; mode_ := mode_ s; ftype_ := ftype_ s; buf_preserved_ := buf_preserved_ s;
     tail_preserved_ := tail_preserved_ s; head_preserved_ := head_preserved_ s; r_tail_ := t; r_head_ := h |}.

Definition with_ends (h t : Z) (d : DataStore) : DataStore :=
  {| d_size_ := d_size_ d; d_head_ := h; d_tail_ := t; d_grow_unit_ := d_grow_unit_ d;
     d_allocated_ := d_allocated_ d; written_len_ := written_len_ d; d_ptr_ := d_ptr_ d |}.
Definition with_written (w : Z) (d : DataStore) : DataStore :=
  {| d_size_ := d_size_ d; d_head_ := d_head_ d; d_tail_ := d_tail_ d; d_grow_unit_ := d_grow_unit_ d;
     d_allocated_ := d_allocated_ d; written_len_ := w; d_ptr_ := d_ptr_ d |}.

Section FileStore.
Variable use_pfs : bool.
Let chunk := CHUNK use_pfs.

Definition align_up (num : Z) : Z :=
  let aligned_down := Z.land num (Z.lnot (chunk - 1)) in
  let remain := Z.land num (chunk - 1) in
  if 0 <? remain then u64 (aligned_down + chunk) else aligned_down.
Definition align_down (num : Z) : Z := Z.land num (Z.lnot (chunk - 1)).

Definition IsEmpty (d : DataStore) : bool := buf_used d <? chunk.
Definition IsFull (d : DataStore) : bool := d_size_ d - chunk <? buf_used d.

(** [DataStore(NULL, init_size, filemode)] before InitFile. *)
Definition FileStore_new (init_size filemode : Z) : res FileStore :=
  d ← DataStore_new init_size;
  Ok {| ds_ := with_written 0 d; mode_ := kGrowingMode; ftype_ := filemode; buf_preserved_ := None;
        tail_preserved_ := 0; head_preserved_ := 0; r_tail_ := 0; r_head_ := 0 |}.

(** [InitFile(kPosixFile)]: [magic] is the header in front of the buffer, the
    first store of the file writes it. *)
Definition InitFile (s : FileStore) (f : PosixFile) (magic : list cell) : FileStore * PosixFile :=
  let f := if GetFileSize f <? chunk then Posix_Write f 0 magic (-1) else f in
  (SetFileType kPosixFile (with_ds (with_written (GetFileSize f) (ds_ s)) s), f).

Definition PadZeros (d : DataStore) (len : Z) : Z * DataStore :=
  (u64 (align_up (d_tail_ d) + written_len_ d), with_ends (d_head_ d) (align_up (u64 (d_tail_ d + len))) d).

(** ** Between the buffer and the file *)

Definition CopyFileToBuffer (d : DataStore) (f : PosixFile) (buf_pos len pos : Z) : res DataStore :=
  if len =? 0 then Ok d
  else
    tail ← crem buf_pos (d_size_ d);
    let first := d_size_ d - tail in
    let rest := len - first in
    if 0 <? rest then
      a ← Posix_Read f first pos;
      p ← blit (d_ptr_ d) tail a;
      b ← Posix_Read f rest (u64 (pos + first));
      p ← blit p 0 b;
      Ok (with_data p d)
    else
      a ← Posix_Read f len pos;
      p ← blit (d_ptr_ d) tail a;
      Ok (with_data p d).

Definition CopyBufferToFile (d : DataStore) (f : PosixFile) (buf_pos len file_offset : Z) : res PosixFile :=
  if len =? 0 then Ok f
  else
    pos_in_buf ← crem buf_pos (d_size_ d);
    let first := d_size_ d - pos_in_buf in
    if first <? len then
      a ← slice (d_ptr_ d) pos_in_buf first;
      let f := Posix_Write f file_offset a (-1) in
      let second := len - first in
      b ← slice (d_ptr_ d) 0 (align_up second);
      Ok (Posix_Write f (u64 (file_offset + first)) b (align_down second))
    else
      a ← slice (d_ptr_ d) pos_in_buf (align_up len);
      Ok (Posix_Write f file_offset a (align_down len)).

Definition WriteFile (d : DataStore) (f : PosixFile) (len : Z) : res (DataStore * PosixFile) :=
  f ← CopyBufferToFile d f (d_head_ d) len (u64 (d_head_ d + written_len_ d));
  Ok (with_ends (u64 (d_head_ d + align_down len)) (d_tail_ d) d, f).

Definition Flush (d : DataStore) (f : PosixFile) : res (DataStore * PosixFile) :=
  if 0 <? buf_used d then WriteFile d f (buf_used d) else Ok (d, f).

(** [FlushMagic]. *)
Definition FlushMagic (s : FileStore) (f : PosixFile) (magic : list cell) : PosixFile :=
  if ftype_ s =? kVolatile then f else Posix_Write f 0 magic 0.

Definition FakeWrite (s : FileStore) (f : PosixFile) (len : Z) : Z * FileStore * PosixFile :=
  let d := ds_ s in
  let len_to_write := align_down len in
  let s' := with_head_preserved (d_head_ d) s in
  let '(s', f) := if 0 <? len_to_write
                  then (with_ds (with_ends (u64 (d_head_ d + len_to_write)) (d_tail_ d) d) s', SetOffset len_to_write f)
                  else (s', f) in
  (u64 (d_head_ d + written_len_ d), s', f).

(** ** Writing in bounded mode *)

(** Phase 1 of WriteBuffer: up to the end of the chunk the tail is in, without
    looking at the room in the buffer. *)
Definition Phase1 (d : DataStore) (src : list cell) : res (DataStore * list cell) :=
  o ← crem (d_tail_ d) chunk;
  let available_in_chunk := chunk - o in
  let len_to_write := if zlen src <? available_in_chunk then zlen src else available_in_chunk in
  t ← crem (d_tail_ d) (d_size_ d);
  p ← blit (d_ptr_ d) t (take (Z.to_nat len_to_write) src);
  Ok (with_ends (d_head_ d) (u64 (d_tail_ d + len_to_write)) (with_data p d), drop (Z.to_nat len_to_write) src).

(** The copies phases 2 and 3 make. *)
Fixpoint pieces (fuel : nat) (src : list cell) : list (list cell) :=
  match fuel with
  | O => []
  | S fuel =>
      if chunk <=? zlen src then take (Z.to_nat chunk) src :: pieces fuel (drop (Z.to_nat chunk) src)
      else if 0 <? zlen src then [src] else []
  end.

(** WriteInternal once there is room. *)
Definition WriteInternal (d : DataStore) (src : list cell) : res DataStore :=
  t ← crem (d_tail_ d) (d_size_ d);
  p ← blit (d_ptr_ d) t src;
  Ok (with_ends (d_head_ d) (u64 (d_tail_ d + zlen src)) (with_data p d)).

(** The calls of WriteInternal up to the first that has to wait. *)
Fixpoint WriteInternals (d : DataStore) (ps : list (list cell)) : res (DataStore * list (list cell)) :=
  match ps with
  | [] => Ok (d, [])
  | p :: ps' => if IsFull d then Ok (d, ps) else d ← WriteInternal d p; WriteInternals d ps'
  end.

(** WriteBuffer up to the first lock. *)
Definition WriteBuffer_start (d : DataStore) (src : list cell) : res (Z * DataStore * list (list cell)) :=
  _ ← cassert ((0 <? zlen src) && match d_ptr_ d with Some _ => true | None => false end);
  '(d', rest) ← Phase1 d src;
  Ok (used d, d', pieces (S (length rest)) rest).

Definition WriteBuffer (d : DataStore) (src : list cell) : res (Z * DataStore * list (list cell)) :=
  '(ret, d, ps) ← WriteBuffer_start d src;
  '(d, ps) ← WriteInternals d ps;
  Ok (ret, d, ps).

Definition WriteBufferMode_start (d : DataStore) (src : list cell) : res (Z * DataStore * list (list cell)) :=
  d ← (if d_size_ d <? zlen src then Reallocate d (zlen src) else Ok d);
  WriteBuffer_start d src.

Definition WriteBufferMode (d : DataStore) (src : list cell) : res (Z * DataStore * list (list cell)) :=
  d ← (if d_size_ d <? zlen src then Reallocate d (zlen src) else Ok d);
  WriteBuffer d src.

(** [Write(pfrom, len)]; [chunksize_threshold] is a global of the file.  The
    last component is what could not be written yet. *)
Definition Write (chunksize_threshold : Z) (s : FileStore) (f : PosixFile) (src : list cell) :
    res (Z * FileStore * PosixFile * list (list cell)) :=
  if CHECK_FLAG (mode_ s) kBoundedMode then
    '(ret, d, ps) ← WriteBufferMode (ds_ s) src;
    Ok (ret, with_ds d s, f, ps)
  else
    '(ret, d) ← WriteCacheMode (ds_ s) src;
    '(d, f) ← (if negb (ftype_ s =? kVolatile) && negb (CHECK_FLAG (mode_ s) kConcurrent)
                  && (chunksize_threshold <=? buf_used d)
               then WriteFile d f (buf_used d) else Ok (d, f));
    Ok (ret, with_ds d s, f, []).

(** ** Reading back *)

Definition InitReadMode (s : FileStore) : res FileStore :=
  if CHECK_FLAG (mode_ s) kReadMode then Ok s
  else
    let s := SetMode (CD_SET (mode_ s) kReadMode) s in
    let d := ds_ s in
    s ← (if 0 <? buf_used d then
           b ← CopyFromBuffer d (buf_used d) INVALID_NUM;
           Ok (with_ds (with_ends (d_head_ d) (d_head_ d) d) (with_preserved (Some b) (buf_used d) s))
         else Ok s);
    let r := u64 (d_head_ d + written_len_ d) in
    Ok (with_window r r s).

Definition FinReadMode (s : FileStore) : res FileStore :=
  if CHECK_FLAG (mode_ s) kReadMode then
    let s := SetMode (CD_UNSET (mode_ s) kReadMode) s in
    s ← (if 0 <? tail_preserved_ s then
           b ← slice (buf_preserved_ s) 0 (tail_preserved_ s);
           d ← CopyToBuffer (ds_ s) b INVALID_NUM;
           Ok (with_ds (with_ends (d_head_ d) (u64 (d_head_ d + tail_preserved_ s)) d) s)
         else Ok s);
    Ok (with_preserved None 0 s)
  else Ok s.

(** The window of the file to read next: what it returns and sets. *)
Record Offsets := {
  max_len_to_read : Z; len_to_read : Z; co_buf_offset : Z; r_tail_next : Z; r_head_next : Z
}.

Definition CalcOffset (size r_tail r_head buf_pos_low buf_pos_high : Z) (locality : bool) : res Offsets :=
  let total_len := u64 (buf_pos_high - buf_pos_low) in
  let overflow := size <? total_len in
  let max_len := if overflow then size else total_len in
  if r_tail <? buf_pos_high then
    if buf_pos_low <? r_head then Err AssertFail
    else if buf_pos_low <? r_tail then
      let t := if overflow then u64 (size + buf_pos_low) else buf_pos_high in
      Ok {| max_len_to_read := max_len; len_to_read := u64 (t - r_tail); co_buf_offset := r_tail;
            r_tail_next := t; r_head_next := r_head |}
    else if locality then
      if overflow then
        Ok {| max_len_to_read := max_len; len_to_read := size; co_buf_offset := buf_pos_low;
              r_tail_next := u64 (buf_pos_low + size); r_head_next := buf_pos_low |}
      else if size <? u64 (buf_pos_high - r_tail) then
        Ok {| max_len_to_read := max_len; len_to_read := max_len; co_buf_offset := buf_pos_low;
              r_tail_next := buf_pos_high; r_head_next := buf_pos_low |}
      else
        Ok {| max_len_to_read := max_len; len_to_read := u64 (buf_pos_high - r_tail); co_buf_offset := r_tail;
              r_tail_next := buf_pos_high;
              r_head_next := if size <? u64 (buf_pos_high - r_head) then u64 (buf_pos_high - size) else r_head |}
    else
      Ok {| max_len_to_read := max_len; len_to_read := max_len; co_buf_offset := buf_pos_low;
            r_tail_next := if overflow then u64 (buf_pos_low + size) else buf_pos_high;
            r_head_next := buf_pos_low |}
  else if buf_pos_low <? r_head then
    if r_head <? buf_pos_high then
      let h := if overflow then u64 (buf_pos_high - size) else buf_pos_low in
      Ok {| max_len_to_read := max_len; len_to_read := u64 (r_head - h); co_buf_offset := r_head;
            r_tail_next := r_tail; r_head_next := h |}
    else if locality then Err AssertFail
    else
      Ok {| max_len_to_read := max_len; len_to_read := max_len; co_buf_offset := buf_pos_low;
            r_tail_next := buf_pos_high;
            r_head_next := if overflow then u64 (buf_pos_high - size) else buf_pos_low |}
  else
    Ok {| max_len_to_read := max_len; len_to_read := 0; co_buf_offset := 0; r_tail_next := r_tail;
          r_head_next := r_head |}.

(** FetchInternal: the length fetched, and the buffer with the window after
    it (the caller adds [tail_inc] and [head_inc]). *)
Definition FetchInternal (s : FileStore) (f : PosixFile) (len pos : Z) : res (Z * FileStore) :=
  let d := ds_ s in
  let offset_diff := d_head_ d in
  let buf_pos_low := u64 (align_down pos + offset_diff) in
  let buf_pos_high := u64 (align_up (u64 (pos + len)) + offset_diff) in
  o ← CalcOffset (d_size_ d) (r_tail_ s) (r_head_ s) buf_pos_low buf_pos_high false;
  d ← (if len_to_read o =? 0 then Ok d
       else CopyFileToBuffer d f (co_buf_offset o) (len_to_read o) (u64 (co_buf_offset o - offset_diff)));
  Ok (max_len_to_read o, with_window (r_tail_next o) (r_head_next o) (with_ds d s)).

Definition Fetch (s : FileStore) (f : PosixFile) (len pos : Z) : res (Z * FileStore) :=
  s ← InitReadMode s;
  '(consumed, s) ← FetchInternal s f len pos;
  s ← FinReadMode s;
  Ok (consumed, s).

(** The loop of GetData: every round copies to the start of [dst]. *)
Fixpoint fetch_loop (fuel : nat) (s : FileStore) (f : PosixFile) (dst : list cell) (len fetch_pos pos : Z) :
    res (FileStore * list cell) :=
  if 0 <? len then
    match fuel with
    | O => Err OutOfFuel
    | S fuel =>
        '(consumed, s) ← FetchInternal s f len fetch_pos;
        let readsize := if len <? consumed then len else consumed in
        b ← CopyFromBuffer (ds_ s) readsize (u64 (pos + d_head_ (ds_ s)));
        dst ← blit (Some dst) 0 b;
        match dst with
        | None => Err OutOfBounds
        | Some dst => fetch_loop fuel s f dst (len - readsize) (u64 (fetch_pos + readsize)) pos
        end
    end
  else Ok (s, dst).

(** [GetData(dst, len, pos)]: the store after it and the destination. *)
Definition GetData (s : FileStore) (f : PosixFile) (dst : list cell) (len pos : Z) : res (FileStore * list cell) :=
  if ftype_ s =? kVolatile then
    b ← CopyFromBuffer (ds_ s) len (u64 (pos - written_len_ (ds_ s)));
    d ← blit (Some dst) 0 b;
    match d with None => Err OutOfBounds | Some dst => Ok (s, dst) end
  else
    s ← InitReadMode s;
    '(s, dst) ← fetch_loop (Z.to_nat len) s f dst len pos pos;
    s ← FinReadMode s;
    Ok (s, dst).

(** What PreserveCopy of [cd_internal.cc] does with a region when the domain
    preserves to disk: AddEntry writes it, then the store is flushed.  A write
    that is left waiting does not return (BufferConsumer.v). *)
Definition PreserveDisk (chunksize_threshold : Z) (s : FileStore) (f : PosixFile) (region : list cell) :
    res (Z * FileStore * PosixFile) :=
  '(offset, s, f, ps) ← Write chunksize_threshold s f region;
  match ps with
  | [] => '(d, f) ← Flush (ds_ s) f; Ok (offset, with_ds d s, f)
  | _ => Err OutOfFuel
  end.

Fixpoint preserve_all (thr : Z) (s : FileStore) (f : PosixFile) (rs : list (list cell)) :
    res (list Z * FileStore * PosixFile) :=
  match rs with
  | [] => Ok ([], s, f)
  | r :: rs =>
      '(o, s, f) ← PreserveDisk thr s f r;
      '(os, s, f) ← preserve_all thr s f rs;
      Ok (o :: os, s, f)
  end.

(** Restoring: an offset and the memory to restore, whose length is asked for. *)
Fixpoint restore_all (s : FileStore) (f : PosixFile) (qs : list (Z * list cell)) :
    res (FileStore * list (list cell)) :=
  match qs with
  | [] => Ok (s, [])
  | (pos, dst) :: qs =>
      '(s, r) ← GetData s f dst (zlen dst) pos;
      '(s, rs) ← restore_all s f qs;
      Ok (s, r :: rs)
  end.

(** [FreeData(true)] for the bytes and the file handle. *)
Definition FreeFileData (s : FileStore) (f : PosixFile) : FileStore * PosixFile :=
  (with_ds (DataStore.ReInit (ds_ s)) s, SetOffset (written_len_ (ds_ s)) f).

(** [ReInit] before the store is added to the list of the consumer. *)
Definition ReInit (s : FileStore) : FileStore :=
  with_window 0 0 (with_preserved None 0 (with_ds (DataStore.ReInit (ds_ s)) s)).

(** The part of [CD::InternalBegin] for a domain that preserves to the local
    disk and is not executed again, before the store is added to the list. *)
Definition BeginDisk (s : FileStore) (f : PosixFile) (magic : list cell) : FileStore * PosixFile :=
  let '(s, f) := if negb (ftype_ s =? kPosixFile) then InitFile s f magic else (s, f) in
  (ReInit (SetMode kBoundedMode s), f).
End FileStore.
