(* ===== verification/FileRestore.v ===== *)
(** * What a store in a file gives back

    The state of a store of FileStore.v in terms of the bytes written to it:
    the part before the head is in the file, the part from the head to the
    tail in the circular buffer, and after a flush all of it is in the file.
    Write, Flush and GetData keep that state, so what was preserved is what is
    restored. *)

From Stdlib Require Import ZArith Lia.
From stdpp Require Import base list list_numbers numbers.
From S2P Require Import Prelude Layout TableStore DataStore FileStore.

(** ** Bytes at a position *)

Definition zat {A} (l : list A) (i : Z) : option A := if 0 <=? i then l !! Z.to_nat i else None.

Section zat.
Context {A : Type}.
Implicit Types (l k : list A) (i n p : Z).

Lemma zat_nonneg l i : 0 ≤ i → zat l i = l !! Z.to_nat i.
Proof. intros. unfold zat. by rewrite (proj2 (Z.leb_le _ _)). Qed.

Lemma zat_app l k i : 0 ≤ i → zat (l ++ k) i = if decide (i < zlen l) then zat l i else zat k (i - zlen l).
Proof.
  intros. unfold zlen. case_decide.
  - rewrite !zat_nonneg by lia. apply lookup_app_l. lia.
  - rewrite !zat_nonneg by lia. rewrite lookup_app_r by lia. f_equal. lia.
Qed.

Lemma zat_take l n i : i < n → zat (take (Z.to_nat n) l) i = zat l i.
Proof. intros. unfold zat. destruct (Z.leb_spec 0 i); [|done]. rewrite lookup_take_lt by lia. done. Qed.

Lemma zat_drop l n i : 0 ≤ n → 0 ≤ i → zat (drop (Z.to_nat n) l) i = zat l (n + i).
Proof. intros. rewrite !zat_nonneg by lia. rewrite lookup_drop. f_equal. lia. Qed.

Lemma zat_is_Some l i : 0 ≤ i < zlen l → is_Some (zat l i).
Proof. unfold zlen. intros. rewrite zat_nonneg by lia. apply lookup_lt_is_Some. lia. Qed.

Lemma zat_Some l i x : zat l i = Some x → 0 ≤ i < zlen l.
Proof.
  unfold zat, zlen. destruct (Z.leb_spec 0 i); [|done]. intros ?%lookup_lt_Some. lia.
Qed.

Lemma zat_ge l i : zlen l ≤ i → zat l i = None.
Proof. unfold zlen, zat. intros. case_match; [|done]. apply lookup_ge_None. lia. Qed.

Lemma zat_eq l k : zlen l = zlen k → (∀ i, 0 ≤ i < zlen l → zat l i = zat k i) → l = k.
Proof.
  unfold zlen. intros Hl Hi. apply (list_eq_same_length l k (length k)); [done|lia|].
  intros i x y Hlt Hx Hy. specialize (Hi (Z.of_nat i) ltac:(lia)).
  rewrite !zat_nonneg, Nat2Z.id in Hi by lia. congruence.
Qed.

Lemma slice_zat l p n :
  0 ≤ p → 0 ≤ n → p + n ≤ zlen l →
  ∃ s, slice (Some l) p n = Ok s ∧ zlen s = n ∧ ∀ i, 0 ≤ i < n → zat s i = zat l (p + i).
Proof.
  intros Hp Hn Hl. unfold slice. destruct (Z.eqb_spec n 0) as [->|].
  - exists []. split_and!; [done|done|]. intros; lia.
  - rewrite (proj2 (Z.leb_le 0 p)), (proj2 (Z.leb_le 0 n)), (proj2 (Z.leb_le (p + n) _)) by done. simpl.
    eexists. split; [done|]. split.
    + rewrite zlen_take; [done|]. rewrite zlen_drop; lia.
    + intros i Hi. rewrite zat_take by lia. by rewrite zat_drop by lia.
Qed.

Lemma blit_zat l p k :
  0 ≤ p → p + zlen k ≤ zlen l →
  ∃ l', blit (Some l) p k = Ok (Some l') ∧ zlen l' = zlen l ∧
        ∀ i, zat l' i = if decide (p ≤ i < p + zlen k) then zat k (i - p) else zat l i.
Proof.
  intros Hp Hl. pose proof (zlen_nonneg k). unfold blit. destruct (Z.eqb_spec (zlen k) 0) as [He|].
  - exists l. repeat split. intros i. rewrite decide_False by lia. done.
  - rewrite (proj2 (Z.leb_le 0 p)), (proj2 (Z.leb_le (p + _) _)) by done. simpl.
    eexists. split; [done|]. split.
    + rewrite !zlen_app, zlen_take, zlen_drop by lia. lia.
    + intros i. destruct (Z.leb_spec 0 i) as [Hi|Hi];
        [|rewrite decide_False by lia; unfold zat; by rewrite (proj2 (Z.leb_gt 0 i))].
      rewrite zat_app, zlen_take by lia. case_decide as H1.
      { rewrite decide_False by lia. by apply zat_take. }
      rewrite zat_app by lia. destruct (decide (p ≤ i < p + zlen k)).
      * by rewrite decide_True by lia.
      * rewrite decide_False by lia. rewrite zat_drop by lia. f_equal. lia.
Qed.
End zat.

Lemma zat_file_write f off bs i :
  0 ≤ off →
  zat (file_write f off bs) i =
    if decide (off ≤ i < off + zlen bs) then zat bs (i - off)
    else if decide (zlen f ≤ i < off) then Some (Some 0) else zat f i.
Proof.
  intros Ho. pose proof (zlen_nonneg bs). pose proof (zlen_nonneg f).
  destruct (Z.leb_spec 0 i) as [Hi|Hi];
    [|rewrite !decide_False by lia; unfold zat; by rewrite (proj2 (Z.leb_gt 0 i))].
  assert (zlen (f ++ replicate (Z.to_nat (off - zlen f)) (Some 0)) = Z.max (zlen f) off) as Hz.
  { rewrite zlen_app. destruct (Z.leb_spec 0 (off - zlen f)).
    - rewrite zlen_replicate by done. lia.
    - replace (Z.to_nat (off - zlen f)) with 0%nat by lia. change (replicate 0 _) with ([] : list cell).
      rewrite zlen_nil. lia. }
  unfold file_write. rewrite zat_app, zlen_take by lia.
  destruct (decide (off ≤ i < off + zlen bs)).
  - rewrite decide_False by lia. rewrite zat_app by lia. by rewrite decide_True by lia.
  - case_decide as H1.
    + rewrite zat_take, zat_app by lia. destruct (decide (zlen f ≤ i < off)).
      * rewrite decide_False by lia. rewrite zat_nonneg by lia. apply lookup_replicate_2. lia.
      * by rewrite decide_True by lia.
    + rewrite zat_app by lia. rewrite decide_False by lia. rewrite decide_False by lia.
      rewrite zat_drop by lia. f_equal. lia.
Qed.

Lemma zlen_file_write f off bs : 0 ≤ off → zlen (file_write f off bs) = Z.max (zlen f) (off + zlen bs).
Proof.
  intros Ho. pose proof (zlen_nonneg bs). pose proof (zlen_nonneg f). unfold file_write.
  rewrite !zlen_app, zlen_take.
  2:{ rewrite zlen_app. destruct (Z.leb_spec 0 (off - zlen f)); [rewrite zlen_replicate by done|
      pose proof (zlen_nonneg (replicate (Z.to_nat (off - zlen f)) (Some 0 : cell)))]; lia. }
  destruct (Z.leb_spec (off + zlen bs) (zlen f)).
  - rewrite zlen_drop by lia. lia.
  - rewrite drop_ge by (unfold zlen in *; lia). rewrite zlen_nil. lia.
Qed.

(** ** Chunks *)

Section FileRestore.
Variable use_pfs : bool.
#[local] Abbreviation chunk := (CHUNK use_pfs).
#[local] Abbreviation align_up := (align_up use_pfs).
#[local] Abbreviation align_down := (align_down use_pfs).

Lemma chunk_pow : ∃ k, 0 ≤ k ≤ 20 ∧ chunk = 2 ^ k.
Proof. destruct use_pfs; [exists 20|exists 9]; split; (lia || done). Qed.

Lemma chunk_pos : 512 ≤ chunk ≤ 1048576.
Proof. destruct use_pfs; split; by vm_compute. Qed.

Lemma low_bits n : Z.land n (chunk - 1) = n mod chunk.
Proof.
  destruct chunk_pow as (k & Hk & ->). rewrite <-Z.land_ones by lia. by rewrite Z.ones_equiv, Z.sub_1_r.
Qed.

Lemma align_down_eq n : align_down n = n - n mod chunk.
Proof.
  unfold FileStore.align_down. destruct chunk_pow as (k & Hk & ->). rewrite <-Z.land_ones by lia.
  rewrite Z.sub_1_r, <-Z.ones_equiv, <-Z.ldiff_land.
  rewrite Z.sub_nocarry_ldiff; apply Z.bits_inj'; intros j Hj;
    rewrite !Z.ldiff_spec, Z.land_spec, ?Z.bits_0; by destruct (Z.testbit n j), (Z.testbit (Z.ones k) j).
Qed.

Lemma align_down_spec n : 0 ≤ n → align_down n ≤ n < align_down n + chunk ∧ 0 ≤ align_down n ∧ (chunk | align_down n).
Proof.
  intros Hn. rewrite align_down_eq. pose proof chunk_pos. pose proof (Z.mod_pos_bound n chunk ltac:(lia)).
  pose proof (Z.mod_le n chunk ltac:(lia) ltac:(lia)). split; [lia|]. split; [lia|].
  exists (n / chunk). pose proof (Z.div_mod n chunk ltac:(lia)). lia.
Qed.

Lemma align_up_spec n : 0 ≤ n < 2 ^ 63 → n ≤ align_up n < n + chunk ∧ (chunk | align_up n).
Proof.
  intros Hn. pose proof chunk_pos. pose proof (align_down_spec n ltac:(lia)) as (H1 & H2 & H3).
  unfold FileStore.align_up. change (Z.land n (Z.lnot (chunk - 1))) with (align_down n). rewrite low_bits.
  pose proof (Z.mod_pos_bound n chunk ltac:(lia)). pose proof (align_down_eq n).
  destruct (Z.ltb_spec 0 (n mod chunk)).
  - rewrite u64_small by lia. split; [lia|]. apply Z.divide_add_r; [done|apply Z.divide_refl].
  - split; [lia|done].
Qed.

(** Multiples of the chunk. *)
Lemma aligned_le a b : (chunk | a) → (chunk | b) → a < b + chunk → a ≤ b.
Proof. pose proof chunk_pos. intros [x ->] [y ->] H1. assert (x < y + 1) by nia. nia. Qed.

Lemma align_down_unique n m : 0 ≤ n → (chunk | m) → m ≤ n < m + chunk → align_down n = m.
Proof.
  intros Hn Hm H. pose proof (align_down_spec n Hn) as (H1 & H2 & H3).
  assert (align_down n ≤ m) by (apply aligned_le; [done..|lia]).
  assert (m ≤ align_down n) by (apply aligned_le; [done..|lia]). lia.
Qed.

Lemma align_down_aligned n : 0 ≤ n → (chunk | n) → align_down n = n.
Proof. pose proof chunk_pos. intros. apply align_down_unique; [done..|lia]. Qed.

Lemma align_up_aligned n : 0 ≤ n < 2 ^ 63 → (chunk | n) → align_up n = n.
Proof.
  intros Hn Ha. pose proof (align_up_spec n Hn) as (H1 & H2).
  assert (align_up n ≤ n) by (apply aligned_le; [done..|lia]). lia.
Qed.

Lemma align_up_le n m : 0 ≤ n < 2 ^ 63 → (chunk | m) → n ≤ m → align_up n ≤ m.
Proof. intros Hn Hm H. pose proof (align_up_spec n Hn) as (H1 & H2). apply aligned_le; [done..|lia]. Qed.

Lemma align_down_add n m : 0 ≤ n → 0 ≤ m → (chunk | m) → align_down (m + n) = m + align_down n.
Proof.
  intros Hn Hm Ha. pose proof (align_down_spec n Hn) as (H1 & H2 & H3).
  apply align_down_unique; [lia|by apply Z.divide_add_r|lia].
Qed.

Lemma align_up_add n m : 0 ≤ n → 0 ≤ m → m + n < 2 ^ 63 → (chunk | m) → align_up (m + n) = m + align_up n.
Proof.
  intros Hn Hm Hb Ha. pose proof (align_up_spec n ltac:(lia)) as (H1 & H2).
  pose proof (align_up_spec (m + n) ltac:(lia)) as (H3 & H4).
  assert (align_up (m + n) ≤ m + align_up n) by (apply aligned_le; [done|by apply Z.divide_add_r|lia]).
  assert (m + align_up n ≤ align_up (m + n)) by (apply aligned_le; [by apply Z.divide_add_r|done|lia]). lia.
Qed.

Lemma aligned_mod a s : 0 < s → (chunk | s) → (chunk | a) → (chunk | a mod s).
Proof.
  intros Hs Hd Ha. rewrite Z.mod_eq by lia. apply Z.divide_sub_r; [done|]. by apply Z.divide_mul_l.
Qed.

(** ** The circular buffer *)

(** Positions in the buffer follow each other as long as its end is not met. *)
Lemma mod_step t j s : 0 < s → 0 ≤ j → t mod s + j < s → (t + j) mod s = t mod s + j.
Proof.
  intros Hs Hj Hlt. pose proof (Z.mod_pos_bound t s Hs). rewrite <-Z.add_mod_idemp_l by lia.
  apply Z.mod_small. lia.
Qed.

Lemma mod_differ a b s : 0 < s → 0 < b - a < s → a mod s ≠ b mod s.
Proof.
  intros Hs Hd He. pose proof (Z.div_mod a s ltac:(lia)). pose proof (Z.div_mod b s ltac:(lia)).
  assert (b - a = s * (b / s - a / s)) as E by lia. assert (b / s - a / s < 1) by nia.
  assert (0 < b / s - a / s) by nia. lia.
Qed.

(** A copy into the buffer at the position [t]. *)
Lemma ring_blit {A} (p k : list A) s t :
  zlen p = s → 0 < s → t mod s + zlen k ≤ s →
  ∃ p', blit (Some p) (t mod s) k = Ok (Some p') ∧ zlen p' = s ∧
    (∀ i, t ≤ i < t + zlen k → zat p' (i mod s) = zat k (i - t)) ∧
    (∀ i, t + zlen k - s ≤ i < t → zat p' (i mod s) = zat p (i mod s)).
Proof.
  intros Hp Hs Hk. pose proof (Z.mod_pos_bound t s Hs). pose proof (zlen_nonneg k).
  destruct (blit_zat p (t mod s) k) as (p' & -> & Hl & Hz); [lia..|].
  exists p'. split; [done|]. split; [lia|]. split; intros i Hi; rewrite Hz.
  - assert (i mod s = t mod s + (i - t)) as ->.
    { rewrite <-mod_step by lia. f_equal. lia. }
    rewrite decide_True by lia. f_equal. lia.
  - rewrite decide_False; [done|]. intros H1.
    apply (mod_differ i (t + (i mod s - t mod s)) s); [lia..|]. rewrite mod_step; lia.
Qed.

Lemma ring_slice {A} (p : list A) s t n :
  zlen p = s → 0 < s → 0 ≤ n → t mod s + n ≤ s →
  ∃ b, slice (Some p) (t mod s) n = Ok b ∧ zlen b = n ∧ ∀ i, 0 ≤ i < n → zat b i = zat p ((t + i) mod s).
Proof.
  intros Hp Hs Hn Hk. pose proof (Z.mod_pos_bound t s Hs).
  destruct (slice_zat p (t mod s) n) as (b & -> & Hl & Hz); [lia..|].
  exists b. split; [done|]. split; [done|]. intros i Hi. rewrite Hz by done. by rewrite mod_step by lia.
Qed.

(** The bytes at the positions from [t] on. *)
Definition ring {A} (p : list A) (s t : Z) (bs : list A) : Prop :=
  ∀ i, 0 ≤ i < zlen bs → zat p ((t + i) mod s) = zat bs i.

Lemma wrap_mod t s : 0 < s → (t + (s - t mod s)) mod s = 0.
Proof.
  intros Hs. pose proof (Z.div_mod t s ltac:(lia)).
  replace (t + (s - t mod s)) with ((t / s + 1) * s) by lia. apply Z.mod_mul. lia.
Qed.

Lemma CopyToBuffer_ring d p src :
  d_ptr_ d = Some p → zlen p = d_size_ d → 0 < d_size_ d → 0 ≤ d_tail_ d → zlen src ≤ d_size_ d →
  ∃ p', CopyToBuffer d src INVALID_NUM = Ok (with_data (Some p') d) ∧ zlen p' = d_size_ d ∧
    ring p' (d_size_ d) (d_tail_ d) src ∧
    (∀ i, d_tail_ d + zlen src - d_size_ d ≤ i < d_tail_ d → zat p' (i mod d_size_ d) = zat p (i mod d_size_ d)).
Proof.
  intros Hp Hl Hs Ht Hsrc. pose proof (zlen_nonneg src). pose proof (Z.mod_pos_bound (d_tail_ d) (d_size_ d) Hs).
  unfold CopyToBuffer. destruct (Z.eqb_spec (zlen src) 0) as [Hz0|Hz0].
  { exists p. split; [by destruct d; simpl in *; subst|]. split; [done|]. split; [intros i; lia|done]. }
  unfold buf_offset. rewrite Z.eqb_refl, crem_Ok, ret_bind, Hp by lia.
  set (s := d_size_ d) in *. set (t := d_tail_ d) in *.
  destruct (Z.ltb_spec 0 (zlen src - (s - t mod s))).
  - destruct (ring_blit p (take (Z.to_nat (s - t mod s)) src) s t) as (p1 & -> & Hl1 & Hr1 & Ho1);
      [done|done|rewrite zlen_take; lia|]. rewrite ret_bind.
    destruct (ring_blit p1 (drop (Z.to_nat (s - t mod s)) src) s (t + (s - t mod s))) as (p2 & Hb2 & Hl2 & Hr2 & Ho2);
      [done|done|rewrite wrap_mod, zlen_drop; lia|].
    rewrite wrap_mod in Hb2 by done. rewrite Hb2, ret_bind.
    rewrite zlen_take in Hr1, Ho1 by lia. rewrite zlen_drop in Hr2, Ho2 by lia.
    exists p2. split; [done|]. split; [done|]. split.
    + intros i Hi. destruct (Z.ltb_spec i (s - t mod s)).
      * rewrite Ho2, Hr1 by lia. replace (t + i - t) with i by lia. by apply zat_take.
      * rewrite Hr2, zat_drop by lia. f_equal. lia.
    + intros i Hi. by rewrite Ho2, Ho1 by lia.
  - destruct (ring_blit p src s t) as (p1 & -> & Hl1 & Hr1 & Ho1); [done|done|lia|]. rewrite ret_bind.
    exists p1. split; [done|]. split; [done|]. split; [|done].
    intros i Hi. rewrite Hr1 by lia. f_equal. lia.
Qed.

Lemma CopyFromBuffer_ring d p len pos :
  d_ptr_ d = Some p → zlen p = d_size_ d → 0 < d_size_ d → 0 ≤ len ≤ d_size_ d →
  0 ≤ (if pos =? INVALID_NUM then d_head_ d else pos) →
  ∃ b, CopyFromBuffer d len pos = Ok b ∧ zlen b = len ∧
    ring p (d_size_ d) (if pos =? INVALID_NUM then d_head_ d else pos) b.
Proof.
  intros Hp Hl Hs Hlen. set (x := if pos =? INVALID_NUM then d_head_ d else pos). intros Hx.
  unfold CopyFromBuffer. destruct (Z.eqb_spec len 0) as [->|H0].
  { exists []. split; [done|]. split; [done|]. intros i Hi. unfold zlen in Hi. simpl in Hi. lia. }
  unfold buf_offset. fold x. rewrite crem_Ok, ret_bind, Hp by lia.
  set (s := d_size_ d) in *. pose proof (Z.mod_pos_bound x s Hs).
  destruct (Z.ltb_spec 0 (len - (s - x mod s))).
  - destruct (ring_slice p s x (s - x mod s)) as (a & -> & Ha & Hra); [done|done|lia..|]. rewrite ret_bind.
    destruct (ring_slice p s (x + (s - x mod s)) (len - (s - x mod s))) as (b & Hb & Hlb & Hrb);
      [done|done|lia|rewrite wrap_mod; lia|]. rewrite wrap_mod in Hb by done. rewrite Hb, ret_bind.
    exists (a ++ b). split; [done|]. split; [rewrite zlen_app; lia|].
    intros i Hi. rewrite zlen_app in Hi. rewrite zat_app by lia. case_decide.
    + by rewrite Hra by lia.
    + rewrite Hrb by lia. f_equal. f_equal. lia.
  - destruct (ring_slice p s x len) as (a & -> & Ha & Hra); [done|done|lia..|].
    exists a. split; [done|]. split; [done|]. intros i Hi. by rewrite Hra by lia.
Qed.

(** ** The store and its buffer *)

Definition shape (d : DataStore) (p : list cell) : Prop :=
  d_ptr_ d = Some p ∧ zlen p = d_size_ d ∧ (chunk | d_size_ d) ∧ 0 < d_size_ d < 2 ^ 52 ∧
  (chunk | d_head_ d) ∧ (chunk | written_len_ d) ∧ 0 ≤ d_head_ d ≤ d_tail_ d ∧ 0 ≤ written_len_ d ∧
  written_len_ d + d_tail_ d ≤ 2 ^ 52 ∧ d_tail_ d - d_head_ d ≤ d_size_ d.

Ltac shape H := destruct H as (?Hp & ?Hl & ?Hsz & ?Hs & ?Hha & ?Hwa & ?Hht & ?Hw & ?Hb & ?Hu).

(** The bytes from the head on are written to the file at [off], whole chunks. *)
Lemma CopyBufferToFile_file d p f len off :
  shape d p → 0 < len ≤ d_size_ d → 0 ≤ off → off + len ≤ 2 ^ 53 → offset_ f + len < 2 ^ 63 → 0 ≤ offset_ f →
  ∃ f', CopyBufferToFile use_pfs d f (d_head_ d) len off = Ok f' ∧ offset_ f' = offset_ f + align_down len ∧
    zlen (contents_ f') = Z.max (zlen (contents_ f)) (off + align_up len) ∧
    (∀ i, off ≤ i < off + align_up len → zat (contents_ f') i = zat p ((d_head_ d + (i - off)) mod d_size_ d)) ∧
    (∀ i, i < off ∨ off + align_up len ≤ i → i < zlen (contents_ f) → zat (contents_ f') i = zat (contents_ f) i).
Proof.
  intros H Hlen Ho Hoff Hof Hof0. shape H. set (s := d_size_ d) in *. set (h := d_head_ d) in *.
  pose proof chunk_pos. pose proof (Z.mod_pos_bound h s ltac:(lia)).
  assert (chunk | s - h mod s) as Hfa by (apply Z.divide_sub_r; [done|apply aligned_mod; [lia|done|done]]).
  pose proof (align_up_spec len ltac:(lia)) as (Hau & Hau').
  pose proof (align_down_spec len ltac:(lia)) as (Had & Had0 & Had').
  assert (align_up len ≤ s) by (apply align_up_le; [lia|done|lia]).
  unfold CopyBufferToFile. rewrite (proj2 (Z.eqb_neq len 0)) by lia. rewrite crem_Ok, ret_bind, Hp by lia.
  fold s. destruct (Z.ltb_spec (s - h mod s) len) as [Hf|Hf].
  - assert (align_up len = (s - h mod s) + align_up (len - (s - h mod s))) as Heu.
    { rewrite <-align_up_add; [f_equal; lia|lia|lia|lia|done]. }
    assert (align_down len = (s - h mod s) + align_down (len - (s - h mod s))) as Hed.
    { rewrite <-align_down_add; [f_equal; lia|lia|lia|done]. }
    pose proof (align_up_spec (len - (s - h mod s)) ltac:(lia)).
    pose proof (align_down_spec (len - (s - h mod s)) ltac:(lia)).
    destruct (ring_slice p s h (s - h mod s)) as (a & -> & Ha & Hra); [done|lia..|]. rewrite ret_bind.
    destruct (ring_slice p s (h + (s - h mod s)) (align_up (len - (s - h mod s)))) as (b & Hb' & Hlb & Hrb);
      [done|lia|lia|rewrite wrap_mod; lia|]. rewrite wrap_mod in Hb' by lia. rewrite Hb', ret_bind.
    rewrite (u64_small (off + _)) by lia.
    eexists. split; [done|]. unfold Posix_Write. cbn [offset_ contents_].
    change (0 <=? -1) with false. cbn iota. rewrite (proj2 (Z.leb_le 0 (align_down _))) by lia.
    rewrite Ha, (u64_small (offset_ f + _)), u64_small by lia. split; [lia|].
    rewrite !zlen_file_write, Ha, Hlb by lia. split; [lia|]. split; intros i Hi.
    + rewrite zat_file_write, Hlb by lia. case_decide.
      * rewrite Hrb by lia. f_equal. f_equal. lia.
      * rewrite zlen_file_write, Ha by lia. rewrite decide_False by lia.
        rewrite zat_file_write, Ha by lia. rewrite decide_True by lia. by apply Hra; lia.
    + intros Hi'. rewrite !zat_file_write, zlen_file_write, Ha, Hlb by lia. by rewrite !decide_False by lia.
  - assert (align_up len ≤ s - h mod s) by (apply align_up_le; [lia|done|lia]).
    destruct (ring_slice p s h (align_up len)) as (a & -> & Ha & Hra); [done|lia..|]. rewrite ret_bind.
    eexists. split; [done|]. unfold Posix_Write. cbn [offset_ contents_].
    rewrite (proj2 (Z.leb_le 0 (align_down _))) by lia. rewrite u64_small by lia. split; [lia|].
    rewrite zlen_file_write, Ha by lia. split; [lia|]. split; intros i Hi.
    + rewrite zat_file_write, Ha by lia. rewrite decide_True by lia. by apply Hra; lia.
    + intros Hi'. rewrite zat_file_write, Ha by lia. by rewrite !decide_False by lia.
Qed.

(** What the store holds: [bs] was written to it, the part up to the head is
    in the file and the rest in the buffer. *)
Definition file_rep (d : DataStore) (f : PosixFile) (bs : list cell) : Prop :=
  ∃ p, shape d p ∧ d_tail_ d = zlen bs ∧
    (∀ i, d_head_ d ≤ i < d_tail_ d → zat p (i mod d_size_ d) = zat bs i) ∧
    (∀ i, 0 ≤ i < d_head_ d → zat (contents_ f) (written_len_ d + i) = zat bs i) ∧
    written_len_ d + d_head_ d ≤ zlen (contents_ f).

(** The bytes [bs] lie in the file from [w] on, and its last chunk is whole. *)
Definition in_file (f : PosixFile) (w : Z) (bs : list cell) : Prop :=
  (∀ i, 0 ≤ i < zlen bs → zat (contents_ f) (w + i) = zat bs i) ∧ w + align_up (zlen bs) ≤ zlen (contents_ f).

Lemma Flush_rep d f bs :
  file_rep d f bs → 0 ≤ offset_ f ≤ 2 ^ 60 →
  ∃ d' f', Flush use_pfs d f = Ok (d', f') ∧ file_rep d' f' bs ∧ in_file f' (written_len_ d) bs ∧
    d' = with_ends (align_down (zlen bs)) (d_tail_ d) d ∧
    offset_ f' = offset_ f + (align_down (zlen bs) - d_head_ d) ∧
    zlen (contents_ f) ≤ zlen (contents_ f') ∧
    (∀ i, i < written_len_ d + d_head_ d → zat (contents_ f') i = zat (contents_ f) i).
Proof.
  intros (p & H & Ht & Hr & Hf & Hz) Hof. pose proof H as H'. shape H. pose proof chunk_pos.
  assert (Hdn : align_down (zlen bs) = d_head_ d + align_down (buf_used d)).
  { unfold buf_used. rewrite <-Ht, <-align_down_add; [f_equal; lia|lia|lia|done]. }
  assert (Hup : align_up (zlen bs) = d_head_ d + align_up (buf_used d)).
  { unfold buf_used. rewrite <-Ht, <-align_up_add; [f_equal; lia|lia|lia|lia|done]. }
  unfold Flush. destruct (Z.ltb_spec 0 (buf_used d)) as [Hlt|Hlt]; unfold buf_used in Hlt.
  - unfold WriteFile. rewrite (u64_small (d_head_ d + written_len_ d)) by lia.
    destruct (CopyBufferToFile_file d p f (buf_used d) (d_head_ d + written_len_ d)) as (f' & -> & Ho' & Hl' & Hin & Hout);
      [done|unfold buf_used; lia..|]. rewrite ret_bind.
    pose proof (align_down_spec (buf_used d) ltac:(unfold buf_used; lia)) as (Hd1 & Hd2 & Hd3).
    pose proof (align_up_spec (buf_used d) ltac:(unfold buf_used; lia)) as (Hu1 & Hu2). unfold buf_used in Hd1, Hd2, Hu1.
    fold (buf_used d) in Hd1, Hd2, Hu1.
    assert (Hnew : ∀ i, d_head_ d ≤ i < d_tail_ d → zat (contents_ f') (written_len_ d + i) = zat bs i).
    { intros i Hi. rewrite Hin by (unfold buf_used in *; lia). rewrite <-Hr by done. f_equal. f_equal. lia. }
    assert (Hold : ∀ i, 0 ≤ i < d_head_ d → zat (contents_ f') (written_len_ d + i) = zat bs i).
    { intros i Hi. rewrite Hout by lia. by apply Hf. }
    assert (Hall : ∀ i, 0 ≤ i < d_tail_ d → zat (contents_ f') (written_len_ d + i) = zat bs i).
    { intros i Hi. destruct (Z.ltb_spec i (d_head_ d)); [apply Hold|apply Hnew]; lia. }
    eexists _, f'. split; [done|]. rewrite u64_small by (unfold buf_used in *; lia).
    split_and!; [|split; [intros i Hi; apply Hall; lia|lia]|by rewrite Hdn|lia|lia|intros i Hi; destruct (Z.ltb_spec i (zlen (contents_ f)))].
    + exists p. unfold buf_used in *. split_and!; cbn; try done; try lia.
      * unfold shape; cbn. split_and!; try done; try lia. by apply Z.divide_add_r.
      * intros i Hi. apply Hr. lia.
      * intros i Hi. apply Hall. lia.
    + apply Hout; lia.
    + unfold buf_used in *. lia.
  - assert (Hdt : d_tail_ d = d_head_ d) by lia.
    assert (Hd0 : align_down (zlen bs) = d_head_ d) by (rewrite <-Ht, Hdt; apply align_down_aligned; [lia|done]).
    assert (Hu0 : align_up (zlen bs) = d_head_ d) by (rewrite <-Ht, Hdt; apply align_up_aligned; [lia|done]).
    exists d, f. split; [done|]. split_and!; [by exists p| |by rewrite Hd0; destruct d|lia|lia|done].
    split; [intros i Hi; apply Hf; lia|lia].
Qed.

(** ** Writing *)

(** A copy that stays within the chunk of the tail. *)
Lemma append_in_chunk d f bs k :
  file_rep d f bs → zlen bs mod chunk + zlen k ≤ chunk → buf_used d + zlen k ≤ d_size_ d →
  written_len_ d + zlen bs + zlen k ≤ 2 ^ 52 →
  ∃ p', blit (d_ptr_ d) (d_tail_ d mod d_size_ d) k = Ok (Some p') ∧
    file_rep (with_ends (d_head_ d) (u64 (d_tail_ d + zlen k)) (with_data (Some p') d)) f (bs ++ k).
Proof.
  intros (p & H & Ht & Hr & Hf & Hz) Hk Hroom Hmax. shape H. unfold buf_used in Hroom. pose proof chunk_pos.
  pose proof (zlen_nonneg k). pose proof (Z.mod_pos_bound (zlen bs) chunk ltac:(lia)).
  assert (d_tail_ d mod d_size_ d + zlen k ≤ d_size_ d) as Hfit.
  { pose proof (Z.mod_pos_bound (d_tail_ d) (d_size_ d) ltac:(lia)).
    pose proof (align_down_spec (d_tail_ d mod d_size_ d) ltac:(lia)) as (G1 & G2 & G3).
    assert (align_down (d_tail_ d mod d_size_ d) + chunk ≤ d_size_ d) as G4.
    { apply aligned_le; [apply Z.divide_add_r; [done|apply Z.divide_refl]|done|lia]. }
    rewrite align_down_eq, Z.mod_mod_divide, Ht in G4 by done. rewrite Ht in *. lia. }
  rewrite Hp. destruct (ring_blit p k (d_size_ d) (d_tail_ d)) as (p' & -> & Hl' & Hin & Hout); [done|lia|done|].
  exists p'. split; [done|]. rewrite u64_small by lia. exists p'.
  split; [unfold shape; cbn; split_and!; try done; lia|]. cbn. rewrite zlen_app. split; [lia|].
  split_and!; [|intros i Hi|done].
  - intros i Hi. rewrite zat_app by lia. case_decide.
    + rewrite Hout by lia. apply Hr. lia.
    + rewrite Hin by lia. f_equal. lia.
  - rewrite zat_app by lia. rewrite decide_True by lia. by apply Hf.
Qed.

Lemma WriteInternal_rep d f bs k :
  file_rep d f bs → zlen bs mod chunk + zlen k ≤ chunk → buf_used d + zlen k ≤ d_size_ d →
  written_len_ d + zlen bs + zlen k ≤ 2 ^ 52 →
  ∃ d', WriteInternal d k = Ok d' ∧ file_rep d' f (bs ++ k) ∧
    d_size_ d' = d_size_ d ∧ d_head_ d' = d_head_ d ∧ written_len_ d' = written_len_ d.
Proof.
  intros Hd Hk Hroom Hmax. destruct (append_in_chunk d f bs k) as (p' & Hb & Hd'); [done..|].
  destruct Hd as (p & H & Ht & _). shape H. pose proof (zlen_nonneg bs).
  unfold WriteInternal. rewrite crem_Ok, ret_bind, Hb, ret_bind by lia. by eexists.
Qed.

Lemma zlen_0_nil {A} (l : list A) : zlen l = 0 → l = [].
Proof. unfold zlen. destruct l; simpl; [done|lia]. Qed.

(** The pieces are chunks, the last may be shorter. *)
Lemma pieces_S fuel k :
  pieces use_pfs (S fuel) k =
  if chunk <=? zlen k then take (Z.to_nat chunk) k :: pieces use_pfs fuel (drop (Z.to_nat chunk) k)
  else if 0 <? zlen k then [k] else [].
Proof. done. Qed.

Lemma pieces_small fuel k : Forall (λ q, zlen q ≤ chunk) (pieces use_pfs fuel k).
Proof.
  pose proof chunk_pos. revert k. induction fuel as [|fuel IH]; intros k; [constructor|].
  rewrite pieces_S. destruct (Z.leb_spec chunk (zlen k)).
  - constructor; [rewrite zlen_take; lia|apply IH].
  - destruct (Z.ltb_spec 0 (zlen k)); repeat constructor. lia.
Qed.

Lemma pieces_concat fuel k : (length k < fuel)%nat → concat (pieces use_pfs fuel k) = k.
Proof.
  pose proof chunk_pos. revert k. induction fuel as [|fuel IH]; intros k Hk; [lia|].
  rewrite pieces_S. destruct (Z.leb_spec chunk (zlen k)).
  - simpl. rewrite IH; [apply take_drop|]. rewrite length_drop. unfold zlen in *. lia.
  - destruct (Z.ltb_spec 0 (zlen k)); [apply app_nil_r|]. symmetry. apply zlen_0_nil.
    pose proof (zlen_nonneg k). lia.
Qed.

(** Phases 2 and 3 never wait when there is room for everything. *)
Lemma WriteInternals_rep fuel k d f bs :
  (length k < fuel)%nat → (chunk | zlen bs) ∨ k = [] → file_rep d f bs → buf_used d + zlen k ≤ d_size_ d →
  written_len_ d + zlen bs + zlen k ≤ 2 ^ 52 →
  ∃ d', WriteInternals use_pfs d (pieces use_pfs fuel k) = Ok (d', []) ∧ file_rep d' f (bs ++ k) ∧
    d_size_ d' = d_size_ d ∧ d_head_ d' = d_head_ d ∧ written_len_ d' = written_len_ d.
Proof.
  pose proof chunk_pos. revert k d bs. induction fuel as [|fuel IH]; intros k d bs Hf Ha Hd Hroom Hmax; [lia|].
  destruct Ha as [Ha| ->].
  2:{ exists d. rewrite app_nil_r, pieces_S. rewrite (proj2 (Z.leb_gt _ _)) by (unfold zlen; simpl; lia). done. }
  pose proof Hd as (p & H1 & Ht & _). shape H1. pose proof (zlen_nonneg k).
  assert (Hmod : zlen bs mod chunk = 0) by (apply Z.mod_divide; [lia|done]).
  assert (Hnf : ∀ n, 0 < n → buf_used d + n ≤ d_size_ d → IsFull use_pfs d = false).
  { intros n Hn Hr. apply Z.ltb_ge. assert (buf_used d + chunk ≤ d_size_ d); [|lia].
    apply aligned_le; [|done|lia]. apply Z.divide_add_r; [|apply Z.divide_refl].
    unfold buf_used. rewrite Ht. by apply Z.divide_sub_r. }
  rewrite pieces_S. destruct (Z.leb_spec chunk (zlen k)) as [Hk|Hk].
  - cbn [WriteInternals]. rewrite (Hnf chunk) by lia.
    destruct (WriteInternal_rep d f bs (take (Z.to_nat chunk) k)) as (d1 & -> & Hd1 & E1 & E2 & E3);
      [done|rewrite zlen_take; lia..|]. rewrite ret_bind.
    assert (zlen (drop (Z.to_nat chunk) k) = zlen k - chunk) as Hdr by (rewrite zlen_drop; lia).
    pose proof Hd1 as (_ & _ & Ht1 & _). rewrite zlen_app, zlen_take in Ht1 by lia.
    destruct (IH (drop (Z.to_nat chunk) k) d1 (bs ++ take (Z.to_nat chunk) k)) as (d2 & -> & Hd2 & F1 & F2 & F3).
    + rewrite length_drop. unfold zlen in *. lia.
    + left. rewrite zlen_app, zlen_take by lia. apply Z.divide_add_r; [done|apply Z.divide_refl].
    + done.
    + unfold buf_used in *. lia.
    + rewrite zlen_app, zlen_take; lia.
    + rewrite <-app_assoc, take_drop in Hd2. exists d2. split_and!; [done|done|congruence..].
  - destruct (Z.ltb_spec 0 (zlen k)).
    + cbn [WriteInternals]. rewrite (Hnf (zlen k)) by lia.
      destruct (WriteInternal_rep d f bs k) as (d1 & -> & Hd1); [done|lia..|]. rewrite ret_bind. by exists d1.
    + assert (k = []) as -> by (apply zlen_0_nil; lia). exists d. by rewrite app_nil_r.
Qed.

Lemma WriteBuffer_rep d f bs k :
  file_rep d f bs → 0 < zlen k → buf_used d + zlen k ≤ d_size_ d → written_len_ d + zlen bs + zlen k ≤ 2 ^ 52 →
  ∃ d', WriteBuffer use_pfs d k = Ok (written_len_ d + zlen bs, d', []) ∧ file_rep d' f (bs ++ k) ∧
    d_size_ d' = d_size_ d ∧ d_head_ d' = d_head_ d ∧ written_len_ d' = written_len_ d.
Proof.
  intros Hd Hk Hroom Hmax. pose proof Hd as (p & H & Ht & _). shape H. pose proof chunk_pos. pose proof (zlen_nonneg bs).
  unfold WriteBuffer, WriteBuffer_start. rewrite cassert_true, ret_bind by (by rewrite Hp, (proj2 (Z.ltb_lt 0 _))).
  unfold Phase1. rewrite !crem_Ok, !ret_bind, Ht by lia.
  pose proof (Z.mod_pos_bound (zlen bs) chunk ltac:(lia)).
  set (n := if zlen k <? chunk - zlen bs mod chunk then zlen k else chunk - zlen bs mod chunk).
  assert (Hn : 0 < n ≤ zlen k ∧ n ≤ chunk - zlen bs mod chunk ∧ (n = zlen k ∨ n = chunk - zlen bs mod chunk)).
  { unfold n. destruct (Z.ltb_spec (zlen k) (chunk - zlen bs mod chunk)); lia. }
  clearbody n.
  destruct (append_in_chunk d f bs (take (Z.to_nat n) k)) as (p' & Hb' & Hd1); [done|rewrite zlen_take; lia..|].
  rewrite <-Ht, Hb', ret_bind. rewrite zlen_take in Hd1 by lia.
  assert (Hused : used d = written_len_ d + d_tail_ d) by (unfold used; rewrite u64_small; lia).
  rewrite !ret_bind, Hused.
  set (d1 := with_ends _ _ _) in *. assert (d_size_ d1 = d_size_ d ∧ d_head_ d1 = d_head_ d ∧ written_len_ d1 = written_len_ d)
    as (E1 & E2 & E3) by done. pose proof Hd1 as (_ & _ & Ht1 & _). clearbody d1. rewrite zlen_app, zlen_take in Ht1 by lia.
  destruct (WriteInternals_rep (S (length (drop (Z.to_nat n) k))) (drop (Z.to_nat n) k) d1 f (bs ++ take (Z.to_nat n) k))
    as (d2 & -> & Hd2 & F1 & F2 & F3); [lia| |done| | |].
  - destruct Hn as (? & ? & [->|Hn]); [right; by rewrite to_nat_zlen, drop_all|left].
    rewrite zlen_app, zlen_take, Hn by lia. exists (zlen bs / chunk + 1).
    pose proof (Z.div_mod (zlen bs) chunk ltac:(lia)). lia.
  - unfold buf_used in *. rewrite zlen_drop; lia.
  - rewrite zlen_app, zlen_take, zlen_drop; lia.
  - rewrite ret_bind. exists d2. rewrite <-app_assoc, take_drop in Hd2. split_and!; [done|done|congruence..].
Qed.

(** ** Reading back *)

Lemma Posix_Read_zat f len pos :
  0 < len → 0 ≤ pos → pos + len ≤ zlen (contents_ f) →
  ∃ b, Posix_Read f len pos = Ok b ∧ zlen b = len ∧ ∀ i, 0 ≤ i < len → zat b i = zat (contents_ f) (pos + i).
Proof.
  intros Hl Hp Hz. unfold Posix_Read. rewrite cassert_true, ret_bind by by apply Z.ltb_lt.
  eexists. split; [done|]. split; [rewrite zlen_take; [done|]; rewrite zlen_drop; lia|].
  intros i Hi. by rewrite zat_take, zat_drop by lia.
Qed.

Lemma CopyFileToBuffer_ring d p f x len pos :
  d_ptr_ d = Some p → zlen p = d_size_ d → 0 < d_size_ d < 2 ^ 52 → 0 < len ≤ d_size_ d → 0 ≤ x → 0 ≤ pos ≤ 2 ^ 52 →
  pos + len ≤ zlen (contents_ f) →
  ∃ p', CopyFileToBuffer d f x len pos = Ok (with_data (Some p') d) ∧ zlen p' = d_size_ d ∧
    ∀ i, 0 ≤ i < len → zat p' ((x + i) mod d_size_ d) = zat (contents_ f) (pos + i).
Proof.
  intros Hp Hl Hs Hlen Hx Hpos Hz. unfold CopyFileToBuffer. rewrite (proj2 (Z.eqb_neq len 0)) by lia.
  rewrite crem_Ok, ret_bind, Hp by lia. set (s := d_size_ d) in *. pose proof (Z.mod_pos_bound x s ltac:(lia)).
  destruct (Z.ltb_spec 0 (len - (s - x mod s))).
  - destruct (Posix_Read_zat f (s - x mod s) pos) as (a & -> & Ha & Hra); [lia..|]. rewrite ret_bind.
    destruct (ring_blit p a s x) as (p1 & -> & Hl1 & Hr1 & Ho1); [done|lia..|]. rewrite ret_bind.
    rewrite u64_small by lia.
    destruct (Posix_Read_zat f (len - (s - x mod s)) (pos + (s - x mod s))) as (b & -> & Hb & Hrb); [lia..|]. rewrite ret_bind.
    destruct (ring_blit p1 b s (x + (s - x mod s))) as (p2 & Hb2 & Hl2 & Hr2 & Ho2); [done|lia|rewrite wrap_mod; lia|].
    rewrite wrap_mod in Hb2 by lia. rewrite Hb2, ret_bind. exists p2. split; [done|]. split; [done|].
    intros i Hi. destruct (Z.ltb_spec i (s - x mod s)).
    + rewrite Ho2, Hr1, Hra by lia. f_equal. lia.
    + rewrite Hr2, Hrb by lia. f_equal. lia.
  - destruct (Posix_Read_zat f len pos) as (a & -> & Ha & Hra); [lia..|]. rewrite ret_bind.
    destruct (ring_blit p a s x) as (p1 & -> & Hl1 & Hr1 & Ho1); [done|lia..|]. rewrite ret_bind.
    exists p1. split; [done|]. split; [done|]. intros i Hi. rewrite Hr1, Hra by lia. f_equal. lia.
Qed.

(** A store outside of GetData. *)
Definition ready (s : FileStore) : Prop :=
  Z.land (mode_ s) kReadMode = 0 ∧ ftype_ s = kPosixFile ∧ tail_preserved_ s = 0.

Lemma land_self_mask m : Z.land m kReadMode = 0 →
  CHECK_FLAG m kReadMode = false ∧ CHECK_FLAG (CD_SET m kReadMode) kReadMode = true ∧
  CD_UNSET (CD_SET m kReadMode) kReadMode = m.
Proof.
  intros Hm. unfold CHECK_FLAG, CD_SET, CD_UNSET. rewrite Hm, Z.land_lor_distr_l, Hm. split; [done|]. split; [done|].
  rewrite <-Z.ldiff_land. apply Z.bits_inj'. intros j Hj. rewrite Z.ldiff_spec, Z.lor_spec.
  assert (Z.testbit (Z.land m kReadMode) j = false) as Hb by (rewrite Hm; apply Z.bits_0).
  rewrite Z.land_spec in Hb. by destruct (Z.testbit m j), (Z.testbit kReadMode j).
Qed.

(** What InitReadMode does: the rest of the buffer is put aside. *)
Lemma InitReadMode_eq s p :
  ready s → shape (ds_ s) p →
  ∃ b, zlen b = buf_used (ds_ s) ∧ ring p (d_size_ (ds_ s)) (d_head_ (ds_ s)) b ∧
    InitReadMode s = Ok {| ds_ := with_ends (d_head_ (ds_ s)) (d_head_ (ds_ s)) (ds_ s);
      mode_ := CD_SET (mode_ s) kReadMode; ftype_ := ftype_ s;
      buf_preserved_ := if 0 <? buf_used (ds_ s) then Some b else buf_preserved_ s;
      tail_preserved_ := buf_used (ds_ s); head_preserved_ := head_preserved_ s;
      r_tail_ := d_head_ (ds_ s) + written_len_ (ds_ s); r_head_ := d_head_ (ds_ s) + written_len_ (ds_ s) |}.
Proof.
  intros (Hm & Hft & Htp) H. shape H. destruct (land_self_mask _ Hm) as (Hc & _ & _).
  destruct (CopyFromBuffer_ring (ds_ s) p (buf_used (ds_ s)) INVALID_NUM) as (b & Hb' & Hlb & Hrb);
    [done|done|lia|unfold buf_used; lia|rewrite Z.eqb_refl; lia|]. rewrite Z.eqb_refl in Hrb.
  exists b. split; [done|]. split; [done|]. unfold InitReadMode. rewrite Hc. cbn [SetMode ds_].
  rewrite (u64_small (_ + _)) by lia. destruct (Z.ltb_spec 0 (buf_used (ds_ s))) as [Hlt|Hlt].
  - by rewrite Hb', !ret_bind.
  - rewrite !ret_bind. unfold with_window, SetMode; cbn. do 2 f_equal; [|unfold buf_used in *; lia].
    unfold buf_used in Hlt. destruct (ds_ s); cbn in *. unfold with_ends; cbn. f_equal. lia.
Qed.

Lemma FinReadMode_eq s p b :
  CHECK_FLAG (mode_ s) kReadMode = true → shape (ds_ s) p → d_tail_ (ds_ s) = d_head_ (ds_ s) →
  zlen b = tail_preserved_ s → zlen b ≤ d_size_ (ds_ s) → (0 < zlen b → buf_preserved_ s = Some b) →
  written_len_ (ds_ s) + d_head_ (ds_ s) + zlen b ≤ 2 ^ 52 →
  ∃ s' p', FinReadMode s = Ok s' ∧ mode_ s' = CD_UNSET (mode_ s) kReadMode ∧ ftype_ s' = ftype_ s ∧
    tail_preserved_ s' = 0 ∧ shape (ds_ s') p' ∧ ring p' (d_size_ (ds_ s)) (d_head_ (ds_ s)) b ∧
    ds_ s' = with_ends (d_head_ (ds_ s)) (d_head_ (ds_ s) + zlen b) (with_data (Some p') (ds_ s)).
Proof.
  intros Hm H Ht Hlb Hbs Hpres Hmax. pose proof H as H'. shape H. unfold FinReadMode. rewrite Hm.
  cbn [SetMode tail_preserved_ buf_preserved_ ds_]. pose proof (zlen_nonneg b). rewrite <-Hlb.
  destruct (Z.ltb_spec 0 (zlen b)) as [Hlt|Hlt].
  - rewrite Hpres by done. pose proof (slice_mid' [] b [] 0 (zlen b) eq_refl eq_refl) as Hsl.
    rewrite app_nil_r in Hsl. cbn [app] in Hsl. rewrite Hsl, ret_bind.
    destruct (CopyToBuffer_ring (ds_ s) p b) as (p' & -> & Hl' & Hr' & _); [done|done|lia|lia|done|]. rewrite !ret_bind.
    rewrite Ht in Hr'. eexists _, p'. split; [done|]. cbn. split_and!; try done.
    + unfold shape; cbn. rewrite u64_small by lia. split_and!; try done; lia.
    + by rewrite u64_small by lia.
  - rewrite ret_bind. assert (b = []) as -> by (apply zlen_0_nil; lia).
    eexists _, p. split; [done|]. cbn. split_and!; try done.
    + intros i Hi. unfold zlen in Hi. simpl in Hi. lia.
    + destruct (ds_ s); cbn in *. unfold with_ends, with_data; cbn. subst. f_equal. unfold zlen. simpl. lia.
Qed.

(** The part of the file around [pos], whole chunks, that FetchInternal reads
    when nothing is in the window yet. *)
Definition window (pos len : Z) : Z := align_up (pos + len) - align_down pos.

Lemma FetchInternal_eq s p f len pos :
  shape (ds_ s) p → r_tail_ s = d_head_ (ds_ s) + written_len_ (ds_ s) → r_head_ s = r_tail_ s →
  written_len_ (ds_ s) ≤ pos → 0 < len → pos + len ≤ 2 ^ 52 → window pos len ≤ d_size_ (ds_ s) →
  align_up (pos + len) ≤ zlen (contents_ f) →
  ∃ p', FetchInternal use_pfs s f len pos =
      Ok (window pos len, with_window (align_up (pos + len) + d_head_ (ds_ s)) (align_down pos + d_head_ (ds_ s))
                            (with_ds (with_data (Some p') (ds_ s)) s)) ∧
    zlen p' = d_size_ (ds_ s) ∧
    ∀ i, 0 ≤ i < window pos len →
      zat p' ((align_down pos + d_head_ (ds_ s) + i) mod d_size_ (ds_ s)) = zat (contents_ f) (align_down pos + i).
Proof.
  intros H Hrt Hrh Hpos Hlen Hmax Hwin Heof. shape H. pose proof chunk_pos. unfold window in *.
  pose proof (align_down_spec pos ltac:(lia)) as (Hd1 & Hd2 & Hd3).
  pose proof (align_up_spec (pos + len) ltac:(lia)) as (Hu1 & Hu2).
  assert (written_len_ (ds_ s) ≤ align_down pos) by (apply aligned_le; [done..|lia]).
  destruct (CopyFileToBuffer_ring (ds_ s) p f (align_down pos + d_head_ (ds_ s)) (align_up (pos + len) - align_down pos)
    (align_down pos)) as (p' & Hc & Hl' & Hr'); [done|done|lia..|].
  exists p'. split; [|done]. unfold FetchInternal. rewrite (u64_small (pos + len)), !(u64_small (_ + d_head_ (ds_ s))) by lia.
  unfold CalcOffset. rewrite (u64_small (align_up (pos + len) + d_head_ (ds_ s) - _)) by lia.
  rewrite (proj2 (Z.ltb_lt (r_tail_ s) _)) by lia. rewrite (proj2 (Z.ltb_ge _ (r_head_ s))) by lia.
  rewrite (proj2 (Z.ltb_ge _ (r_tail_ s))) by lia. cbn iota.
  replace (align_up (pos + len) + d_head_ (ds_ s) - (align_down pos + d_head_ (ds_ s)))
    with (align_up (pos + len) - align_down pos) by lia.
  rewrite (proj2 (Z.ltb_ge (d_size_ (ds_ s)) _)) by lia. rewrite ret_bind. cbn [len_to_read co_buf_offset r_tail_next r_head_next max_len_to_read].
  rewrite (proj2 (Z.eqb_neq (align_up _ - _) 0)) by lia.
  replace (align_down pos + d_head_ (ds_ s) - d_head_ (ds_ s)) with (align_down pos) by lia.
  rewrite u64_small by lia. by rewrite Hc, ret_bind.
Qed.

(** One round of the loop of GetData is enough when the window fits. *)
Lemma fetch_loop_once fuel s p f dst len pos :
  shape (ds_ s) p → r_tail_ s = d_head_ (ds_ s) + written_len_ (ds_ s) → r_head_ s = r_tail_ s →
  zlen dst = len → written_len_ (ds_ s) ≤ pos → 0 < len → pos + len ≤ 2 ^ 52 → window pos len ≤ d_size_ (ds_ s) →
  align_up (pos + len) ≤ zlen (contents_ f) →
  ∃ p' dst' t h, fetch_loop use_pfs (S fuel) s f dst len pos pos =
      Ok (with_window t h (with_ds (with_data (Some p') (ds_ s)) s), dst') ∧
    zlen p' = d_size_ (ds_ s) ∧ zlen dst' = len ∧ ∀ i, 0 ≤ i < len → zat dst' i = zat (contents_ f) (pos + i).
Proof.
  intros H Hrt Hrh Hdst Hpos Hlen Hmax Hwin Heof.
  destruct (FetchInternal_eq s p f len pos) as (p1 & Hfetch & Hl1 & Hr1); [done..|].
  shape H. cbn [fetch_loop]. rewrite (proj2 (Z.ltb_lt 0 len)) by done.
  rewrite Hfetch, ret_bind. cbn [ds_ with_window with_ds with_data d_head_ d_size_].
  pose proof (align_down_spec pos ltac:(lia)) as (Hd1 & Hd2 & _).
  pose proof (align_up_spec (pos + len) ltac:(lia)) as (Hu1 & _).
  assert (Hrs : (if len <? window pos len then len else window pos len) = len).
  { unfold window. destruct (Z.ltb_spec len (align_up (pos + len) - align_down pos)); lia. }
  rewrite Hrs, (u64_small (pos + d_head_ (ds_ s))) by lia. change (d_head_ (with_data _ _)) with (d_head_ (ds_ s)).
  match goal with |- context [CopyFromBuffer ?D _ _] => set (d1 := D) end.
  assert ((pos + d_head_ (ds_ s) =? INVALID_NUM) = false) as Hinv by (apply Z.eqb_neq; unfold INVALID_NUM; lia).
  destruct (CopyFromBuffer_ring d1 p1 len (pos + d_head_ (ds_ s))) as (c & -> & Hlc & Hrc);
    [done|done|cbn; lia|cbn; unfold window in *; lia|rewrite Hinv; lia|]. rewrite Hinv in Hrc. rewrite ret_bind.
  destruct (blit_zat dst 0 c) as (dst' & -> & Hld & Hzd); [lia|lia|]. rewrite ret_bind, Z.sub_diag.
  match goal with |- context [fetch_loop use_pfs fuel ?a ?b ?c 0 ?e ?g] =>
    assert (fetch_loop use_pfs fuel a b c 0 e g = Ok (a, c)) as -> by by destruct fuel end.
  exists p1, dst'. do 2 eexists. split; [done|]. split; [done|]. split; [lia|].
  intros i Hi. rewrite Hzd, decide_True, Z.sub_0_r, <-Hrc by lia.
  replace (pos + d_head_ (ds_ s) + i) with (align_down pos + d_head_ (ds_ s) + (pos - align_down pos + i)) by lia.
  change (d_size_ d1) with (d_size_ (ds_ s)). rewrite Hr1 by (unfold window; lia). f_equal. lia.
Qed.

(** GetData copies from the file, whatever the buffer holds, and leaves the
    store as it was. *)
Lemma GetData_file s p f dst len pos :
  ready s → shape (ds_ s) p → zlen dst = len → 0 < len →
  written_len_ (ds_ s) ≤ pos → pos + len ≤ 2 ^ 52 → window pos len ≤ d_size_ (ds_ s) →
  align_up (pos + len) ≤ zlen (contents_ f) →
  ∃ s' p' dst', GetData use_pfs s f dst len pos = Ok (s', dst') ∧ zlen dst' = len ∧
    (∀ i, 0 ≤ i < len → zat dst' i = zat (contents_ f) (pos + i)) ∧
    ready s' ∧ mode_ s' = mode_ s ∧ shape (ds_ s') p' ∧ ds_ s' = with_data (Some p') (ds_ s) ∧
    (∀ i, d_head_ (ds_ s) ≤ i < d_tail_ (ds_ s) →
       zat p' (i mod d_size_ (ds_ s)) = zat p (i mod d_size_ (ds_ s))).
Proof.
  intros Hs H Hdst Hlen Hpos Hmax Hwin Heof. pose proof Hs as (Hm & Hft & Htp).
  destruct (InitReadMode_eq s p) as (b & Hlb & Hrb & Hinit); [done|done|].
  destruct (land_self_mask _ Hm) as (_ & Hset & Hunset). pose proof H as H'. shape H.
  unfold GetData. rewrite Hft. change (kPosixFile =? kVolatile) with false. cbn iota. rewrite Hinit, ret_bind.
  set (s1 := {| ds_ := _ |}).
  assert (shape (ds_ s1) p) as Hs1 by (unfold shape; cbn; split_and!; try done; lia).
  destruct (Z.to_nat len) as [|fuel] eqn:Hfuel; [lia|].
  destruct (fetch_loop_once fuel s1 p f dst len pos) as (p1 & dst' & t & h & -> & Hl1 & Hld & Hz); [done..|].
  change (d_size_ (ds_ s1)) with (d_size_ (ds_ s)) in Hl1.
  rewrite ret_bind. match goal with |- context [FinReadMode ?S] => set (s2 := S) end.
  assert (shape (ds_ s2) p1) as Hs2 by (unfold shape; cbn; split_and!; try done; lia).
  destruct (FinReadMode_eq s2 p1 b) as (s' & p' & -> & Em & Ef & Et & Hsh & Hring & Eds);
    [exact Hset|exact Hs2|done|done|cbn; unfold buf_used in *; lia| |cbn; unfold buf_used in *; lia|].
  { intros Hb0. cbn. rewrite <-Hlb. by rewrite (proj2 (Z.ltb_lt 0 _)). }
  rewrite ret_bind. exists s', p', dst'. split; [done|]. split; [lia|]. split; [done|].
  assert (mode_ s' = mode_ s) as Hmode by (rewrite Em; exact Hunset).
  split; [unfold ready; rewrite Hmode, Ef; done|]. split; [done|]. split; [done|]. split.
  - rewrite Eds. destruct (ds_ s) eqn:Ed; unfold with_ends, with_data, s2, s1; cbn in *. f_equal.
    rewrite Hlb. unfold buf_used. cbn. lia.
  - intros i Hi. replace i with (d_head_ (ds_ s) + (i - d_head_ (ds_ s))) by lia.
    change (d_head_ (ds_ s2)) with (d_head_ (ds_ s)) in Hring. change (d_size_ (ds_ s2)) with (d_size_ (ds_ s)) in Hring.
    rewrite Hring, Hrb by (unfold buf_used in *; lia). done.
Qed.

(** ** Preserving and restoring *)

(** A store between two calls of the runtime. *)
Definition stored (s : FileStore) (f : PosixFile) (bs : list cell) : Prop :=
  ready s ∧ CHECK_FLAG (mode_ s) kBoundedMode = true ∧ file_rep (ds_ s) f bs ∧
  in_file f (written_len_ (ds_ s)) bs ∧ buf_used (ds_ s) < chunk ∧
  offset_ f = written_len_ (ds_ s) + d_head_ (ds_ s).

(** The bytes in the last, unfinished chunk. *)
Lemma stored_rest s f bs : stored s f bs → buf_used (ds_ s) = zlen bs mod chunk ∧ d_head_ (ds_ s) = align_down (zlen bs).
Proof.
  intros (_ & _ & (p & Hsh & Ht & _) & _ & Hu & _). shape Hsh. unfold buf_used in *.
  assert (align_down (zlen bs) = d_head_ (ds_ s)) as E by (apply align_down_unique; [lia|done|lia]).
  rewrite E. rewrite align_down_eq in E. lia.
Qed.

Lemma PreserveDisk_rep thr s f bs r :
  ready s → CHECK_FLAG (mode_ s) kBoundedMode = true → file_rep (ds_ s) f bs → 0 ≤ offset_ f ≤ 2 ^ 60 →
  0 < zlen r → buf_used (ds_ s) + zlen r ≤ d_size_ (ds_ s) → written_len_ (ds_ s) + zlen bs + zlen r ≤ 2 ^ 52 →
  ∃ d' f', PreserveDisk use_pfs thr s f r = Ok (written_len_ (ds_ s) + zlen bs, with_ds d' s, f') ∧
    file_rep d' f' (bs ++ r) ∧ in_file f' (written_len_ (ds_ s)) (bs ++ r) ∧ buf_used d' < chunk ∧
    written_len_ d' = written_len_ (ds_ s) ∧ d_size_ d' = d_size_ (ds_ s) ∧
    offset_ f' = offset_ f + (d_head_ d' - d_head_ (ds_ s)) ∧ zlen (contents_ f) ≤ zlen (contents_ f').
Proof.
  intros Hrdy Hmode Hrep Hoff Hr Hfit Hmax. pose proof chunk_pos. pose proof Hrep as (q & Hshq & _).
  unfold PreserveDisk, Write. rewrite Hmode. unfold WriteBufferMode.
  rewrite (proj2 (Z.ltb_ge _ _)), ret_bind by (unfold buf_used in *; shape Hshq; lia).
  destruct (WriteBuffer_rep (ds_ s) f bs r) as (d1 & -> & Hd1 & E1 & E2 & E3); [done|lia|lia|lia|]. rewrite !ret_bind.
  pose proof Hd1 as (p & Hsh & Ht & _). shape Hsh. cbn [ds_ with_ds].
  destruct (Flush_rep d1 f (bs ++ r)) as (d2 & f2 & -> & Hd2 & Hin2 & Ed2 & Ho2 & Hz2 & _); [done|lia|]. rewrite ret_bind.
  exists d2, f2. split; [done|]. rewrite Ed2 in Hd2 |- *. cbn.
  pose proof (align_down_spec (zlen (bs ++ r)) (zlen_nonneg _)) as (Had & _). rewrite E3 in Hin2.
  unfold buf_used; cbn. split_and!; try done; lia.
Qed.

Lemma PreserveDisk_stored thr s f bs r :
  stored s f bs → 0 < zlen r → zlen bs mod chunk + zlen r ≤ d_size_ (ds_ s) →
  written_len_ (ds_ s) + zlen bs + zlen r ≤ 2 ^ 52 →
  ∃ s' f', PreserveDisk use_pfs thr s f r = Ok (written_len_ (ds_ s) + zlen bs, s', f') ∧ stored s' f' (bs ++ r) ∧
    written_len_ (ds_ s') = written_len_ (ds_ s) ∧ d_size_ (ds_ s') = d_size_ (ds_ s) ∧ mode_ s' = mode_ s.
Proof.
  intros Hs Hr Hfit Hmax. destruct (stored_rest _ _ _ Hs) as (Hu & _). rewrite <-Hu in Hfit.
  destruct Hs as (Hrdy & Hmode & Hrep & Hin & _ & Hoff). pose proof Hrep as (q & Hshq & _). shape Hshq.
  destruct (PreserveDisk_rep thr s f bs r) as (d' & f' & -> & Hd' & Hin' & Hu' & Ew & Es & Ho & _); [done|done|done|lia|done..|].
  exists (with_ds d' s), f'. split; [done|]. split; [|done]. unfold stored; cbn. rewrite Ew. split_and!; try done. lia.
Qed.

(** A region that was written without waiting is read through one window. *)
Lemma window_fits w n l len :
  0 ≤ w → (chunk | w) → 0 ≤ l → 0 < len → (chunk | n) → l mod chunk + len ≤ n → w + l + len ≤ 2 ^ 52 →
  window (w + l) len ≤ n.
Proof.
  intros Hw Hwa Hl Hlen Hn Hfit Hm. pose proof chunk_pos. unfold window.
  pose proof (Z.mod_pos_bound l chunk ltac:(lia)). pose proof (align_down_spec l ltac:(lia)) as (H1 & H2 & H3).
  rewrite <-Z.add_assoc, align_up_add, align_down_add by (done || lia).
  replace (l + len) with (align_down l + (l mod chunk + len)) by (rewrite align_down_eq; lia).
  rewrite align_up_add by (done || rewrite ?align_down_eq; lia).
  pose proof (align_up_le (l mod chunk + len) n ltac:(lia) Hn Hfit). lia.
Qed.

Lemma GetData_stored s f l r z dst :
  stored s f (l ++ r ++ z) → zlen dst = zlen r → 0 < zlen r → zlen l mod chunk + zlen r ≤ d_size_ (ds_ s) →
  ∃ s', GetData use_pfs s f dst (zlen r) (written_len_ (ds_ s) + zlen l) = Ok (s', r) ∧ stored s' f (l ++ r ++ z) ∧
    written_len_ (ds_ s') = written_len_ (ds_ s) ∧ d_size_ (ds_ s') = d_size_ (ds_ s).
Proof.
  intros (Hrdy & Hmode & (p & Hsh & Ht & Hr & Hf & Hz) & Hin & Hu & Hoff) Hdst Hr0 Hfit. pose proof Hsh as Hsh'. shape Hsh.
  pose proof chunk_pos. pose proof (zlen_nonneg l). pose proof (zlen_nonneg z).
  pose proof (zlen_app l (r ++ z)) as Hlen. rewrite (zlen_app r z) in Hlen. pose proof Hin as (Hbytes & Heof).
  destruct (GetData_file s p f dst (zlen r) (written_len_ (ds_ s) + zlen l)) as (s' & p' & dst' & -> & Hld & Hzd & Hrdy' & Em & Hsh2 & Eds & Hring);
    [done|done|done|done|lia|lia|apply window_fits; (done || lia)| |].
  { etrans; [|exact Heof]. rewrite <-align_up_add by (done || lia).
    pose proof (align_up_spec (written_len_ (ds_ s) + zlen (l ++ r ++ z)) ltac:(lia)) as (G1 & G2).
    apply align_up_le; [lia|done|lia]. }
  assert (dst' = r) as ->.
  { apply zat_eq; [done|]. intros i Hi. rewrite Hzd, <-Z.add_assoc, Hbytes by lia.
    rewrite zat_app, decide_False by lia. rewrite zat_app, decide_True by lia. f_equal. lia. }
  exists s'. split; [done|]. rewrite Eds. split; [|done]. unfold stored. rewrite Em, Eds.
  split_and!; try done. rewrite Eds in Hsh2. exists p'. split; [done|]. split; [done|]. split; [|done].
  intros i Hi. cbn in *. rewrite Hring by done. by apply Hr.
Qed.

(** Every region fits in the buffer behind what is left of the one before. *)
Definition fits (n : Z) (bs : list cell) (rs : list (list cell)) : Prop :=
  ∀ (j : nat) r, rs !! j = Some r → 0 < zlen r ∧ zlen (bs ++ concat (take j rs)) mod chunk + zlen r ≤ n.

Lemma fits_cons n bs r rs : fits n bs (r :: rs) → 0 < zlen r ∧ zlen bs mod chunk + zlen r ≤ n ∧ fits n (bs ++ r) rs.
Proof.
  intros Hf. destruct (Hf O r eq_refl) as (H1 & H2). cbn in H2. rewrite app_nil_r in H2. split_and!; [done|done|].
  intros j r' Hj. rewrite <-app_assoc. by apply (Hf (S j) r').
Qed.

Lemma preserve_all_rep thr rs s f bs :
  stored s f bs → fits (d_size_ (ds_ s)) bs rs → written_len_ (ds_ s) + zlen bs + zlen (concat rs) ≤ 2 ^ 52 →
  ∃ os s' f', preserve_all use_pfs thr s f rs = Ok (os, s', f') ∧ stored s' f' (bs ++ concat rs) ∧
    written_len_ (ds_ s') = written_len_ (ds_ s) ∧ d_size_ (ds_ s') = d_size_ (ds_ s) ∧
    (∀ (j : nat) r, rs !! j = Some r → os !! j = Some (written_len_ (ds_ s) + zlen (bs ++ concat (take j rs)))).
Proof.
  revert s f bs. induction rs as [|r rs IH]; intros s f bs Hs Hrs Hmax.
  { exists [], s, f. simpl. rewrite app_nil_r. by split_and!. }
  apply fits_cons in Hrs as (Hr & Hfit & Hrs). cbn [concat] in Hmax. rewrite zlen_app in Hmax. pose proof (zlen_nonneg (concat rs)).
  cbn [preserve_all]. destruct (PreserveDisk_stored thr s f bs r) as (s1 & f1 & -> & Hs1 & Ew & Es & _); [done|done|done|lia|].
  rewrite ret_bind. destruct (IH s1 f1 (bs ++ r)) as (os & s2 & f2 & -> & Hs2 & Ew2 & Es2 & Hos);
    [done|by rewrite Es|rewrite zlen_app, Ew; lia|].
  rewrite ret_bind. exists (written_len_ (ds_ s) + zlen bs :: os), s2, f2. cbn [concat]. rewrite app_assoc.
  split_and!; [done|done|congruence|congruence|]. intros [|j] r' Hj.
  - cbn. by rewrite app_nil_r.
  - cbn. rewrite app_assoc, <-Ew. by apply (Hos j r').
Qed.

Lemma restore_all_rep s f rs (js : list (nat * list cell)) (pos : nat → Z) :
  stored s f (concat rs) → fits (d_size_ (ds_ s)) [] rs →
  (∀ (j : nat) r, rs !! j = Some r → pos j = written_len_ (ds_ s) + zlen (concat (take j rs))) →
  Forall (λ q, ∃ r, rs !! q.1 = Some r ∧ zlen q.2 = zlen r) js →
  ∃ s', restore_all use_pfs s f ((λ q, (pos q.1, q.2)) <$> js) = Ok (s', (λ q, rs !!! q.1) <$> js) ∧ stored s' f (concat rs).
Proof.
  revert s. induction js as [|[j dst] js IH]; intros s Hs Hrs Hpos Hjs; [by exists s|].
  apply Forall_cons_1 in Hjs as ((r & Hj & Hdst) & Hjs). cbn [fst snd] in *. cbn [fmap list_fmap restore_all fst snd].
  assert (concat rs = concat (take j rs) ++ r ++ concat (drop (S j) rs)) as Hcat.
  { rewrite <-(take_drop_middle rs j r) at 1 by done. by rewrite concat_app. }
  rewrite Hdst, (Hpos j r Hj). rewrite Hcat in Hs. destruct (Hrs j r Hj) as (Hr & Hfit).
  destruct (GetData_stored s f (concat (take j rs)) r (concat (drop (S j) rs)) dst) as (s1 & -> & Hs1 & Ew & Es); [done..|].
  rewrite ret_bind. rewrite <-Hcat in Hs1.
  destruct (IH s1) as (s2 & Hres & Hs2); [done|by rewrite Es|by rewrite Ew|done|].
  change (list_fmap _ _ ?g js) with (g <$> js). rewrite Hres, ret_bind. exists s2. split; [|done]. do 3 f_equal.
  symmetry. by apply list_lookup_total_correct.
Qed.

(** The store of the first domain that preserves to disk. *)
Lemma BeginDisk_stored n ft s magic :
  FileStore_new n ft = Ok s → ft ≠ kPosixFile → (chunk | n) → 0 < n < 2 ^ 52 → zlen magic = chunk →
  ∃ s' f', BeginDisk use_pfs s {| contents_ := []; offset_ := 0 |} magic = (s', f') ∧ stored s' f' [] ∧
    written_len_ (ds_ s') = chunk ∧ d_size_ (ds_ s') = n ∧ mode_ s' = kBoundedMode.
Proof.
  intros Hnew Hft Hn Hn2 Hmagic. pose proof chunk_pos. apply bind_Ok in Hnew as (d & Hd & [= <-]).
  unfold DataStore_new in Hd. rewrite new_array_Ok, ret_bind in Hd by lia. injection Hd as <-.
  unfold BeginDisk. cbn [ftype_]. rewrite (proj2 (Z.eqb_neq ft kPosixFile)) by done. cbn [negb].
  unfold InitFile, GetFileSize. cbn [offset_]. rewrite (proj2 (Z.ltb_lt 0 chunk)) by lia.
  eexists _, _. split; [done|].
  assert (E : Posix_Write {| contents_ := []; offset_ := 0 |} 0 magic (-1) = {| contents_ := magic; offset_ := chunk |}).
  { unfold Posix_Write, file_write. cbn [contents_ offset_]. change (0 <=? -1) with false. cbn iota.
    rewrite Hmagic, drop_nil, u64_small by lia. cbn. by rewrite app_nil_r. }
  rewrite E. cbn. split; [|done]. unfold stored, ready, file_rep, in_file, buf_used; cbn.
  split_and!; try done; try lia.
  - exists (replicate (Z.to_nat n) None). unfold shape; cbn. rewrite zlen_replicate by lia.
    split_and!; try done; try lia; try (apply Z.divide_0_r || apply Z.divide_refl). all: intros; lia.
  - intros i Hi. unfold zlen in Hi. simpl in Hi. lia.
  - change (zlen []) with 0. rewrite align_up_aligned; [lia|lia|apply Z.divide_0_r].
Qed.

Lemma disk_restores_sim thr n ft s0 magic rs :
  FileStore_new n ft = Ok s0 → ft ≠ kPosixFile → (chunk | n) → 0 < n < 2 ^ 52 → zlen magic = chunk →
  fits n [] rs → chunk + zlen (concat rs) ≤ 2 ^ 52 →
  let '(s1, f1) := BeginDisk use_pfs s0 {| contents_ := []; offset_ := 0 |} magic in
  ∃ os s2 f2, preserve_all use_pfs thr s1 f1 rs = Ok (os, s2, f2) ∧
    ∀ js : list (nat * list cell), Forall (λ q, ∃ r, rs !! q.1 = Some r ∧ zlen q.2 = zlen r) js →
      ∃ s3, restore_all use_pfs s2 f2 ((λ q, (os !!! q.1, q.2)) <$> js) = Ok (s3, (λ q, rs !!! q.1) <$> js).
Proof.
  intros Hnew Hft Hn Hn2 Hmagic Hfits Hmax.
  destruct (BeginDisk_stored n ft s0 magic) as (s1 & f1 & -> & Hs1 & Ew & Es & _); [done..|].
  destruct (preserve_all_rep thr rs s1 f1 []) as (os & s2 & f2 & -> & Hs2 & Ew2 & Es2 & Hos);
    [done|by rewrite Es|rewrite Ew; change (zlen []) with 0; lia|].
  exists os, s2, f2. split; [done|]. intros js Hjs.
  destruct (restore_all_rep s2 f2 rs js (λ j, os !!! j)) as (s3 & Hres & _); [done|by rewrite Es2, Es| |done|by exists s3].
  intros j r Hj. apply list_lookup_total_correct. rewrite (Hos j r Hj), Ew2. done.
Qed.
End FileRestore.

(** ** Theorem *)

(** C12: what the first domain of a task preserves to the local disk is what it
    restores, as long as no other domain writes to the file: from its Begin on an
    empty file on, any regions that fit in the buffer behind the rest of the last
    chunk are preserved without waiting, and restoring them, in any order and any
    number of times, gives back the bytes of each.  (A child that begins writes
    over the last chunk, see [child_overwrites_parent].) *)
Theorem disk_restores (use_pfs : bool) (thr n ft : Z) (s0 : FileStore) (magic : list cell) (rs : list (list cell)) :
  FileStore_new n ft = Ok s0 → ft ≠ kPosixFile → (CHUNK use_pfs | n) → 0 < n < 2 ^ 52 → zlen magic = CHUNK use_pfs →
  fits use_pfs n [] rs → CHUNK use_pfs + zlen (concat rs) ≤ 2 ^ 52 →
  let '(s1, f1) := BeginDisk use_pfs s0 {| contents_ := []; offset_ := 0 |} magic in
  ∃ os s2 f2, preserve_all use_pfs thr s1 f1 rs = Ok (os, s2, f2) ∧
    ∀ js : list (nat * list cell), Forall (λ q, ∃ r, rs !! q.1 = Some r ∧ zlen q.2 = zlen r) js →
      ∃ s3, restore_all use_pfs s2 f2 ((λ q, (os !!! q.1, q.2)) <$> js) = Ok (s3, (λ q, rs !!! q.1) <$> js).
Proof. apply disk_restores_sim. Qed.

(** Chunks of 512 bytes and a buffer of two; three regions over three chunks. *)
Lemma disk_restores_witness :
  let rs := [replicate 100 (Some 7); replicate 700 (Some 8); replicate 300 (Some 9)] in
  ∃ s0, FileStore_new 1024 kMPIFile = Ok s0 ∧
    let '(s1, f1) := BeginDisk false s0 {| contents_ := []; offset_ := 0 |} (replicate 512 None) in
    ∃ os s2 f2, preserve_all false 0 s1 f1 rs = Ok (os, s2, f2) ∧
      ∀ js : list (nat * list cell), Forall (λ q, ∃ r, rs !! q.1 = Some r ∧ zlen q.2 = zlen r) js →
        ∃ s3, restore_all false s2 f2 ((λ q, (os !!! q.1, q.2)) <$> js) = Ok (s3, (λ q, rs !!! q.1) <$> js).
Proof.
  cbv zeta. destruct (FileStore_new 1024 kMPIFile) as [s0|] eqn:E; [|discriminate]. exists s0. split; [done|].
  apply (disk_restores false 0 1024 kMPIFile); [done|done|by exists 2|lia|done| |by vm_compute].
  intros [|[|[|j]]] r Hr; try done; injection Hr as <-; by vm_compute.
Defined.
