(* ===== verification/BufferConsumer.v ===== *)
(** * The stores of a task, and the thread that writes them to the file

    [src/src/persistence/buffer_consumer.cc] and the parts of [data_store.cc]
    that wait and signal.  The stores of a task share the file, the list of
    the consumer and [active_buffer]; the application's thread writes to the
    stores, the thread of ConsumeBuffer moves whole chunks to the file.

    A step of the system is what one thread does between taking the mutex and
    giving it back or waiting; [pthread_cond_signal] wakes the thread that
    waits, and a wait may end without a signal, as POSIX allows. *)

From Stdlib Require Import ZArith Lia.
From stdpp Require Import base list list_numbers numbers relations.
From S2P Require Import Prelude Layout TableStore DataStore FileStore FileRestore.

(** ** State *)

(** [active_buffer_] is [id_] with [state_]; [None] is the null pointer. *)
Record Packer := {
  stores_ : list FileStore;
  file_ : PosixFile;
  buf_list_ : list nat;
  active_buffer_ : option (nat * Z);
}.

Definition with_store (k : nat) (s : FileStore) (y : Packer) : Packer :=
  {| stores_ := <[k := s]> (stores_ y); file_ := file_ y; buf_list_ := buf_list_ y; active_buffer_ := active_buffer_ y |}.
Definition with_file (f : PosixFile) (y : Packer) : Packer :=
  {| stores_ := stores_ y; file_ := f; buf_list_ := buf_list_ y; active_buffer_ := active_buffer_ y |}.
Definition with_list (l : list nat) (y : Packer) : Packer :=
  {| stores_ := stores_ y; file_ := file_ y; buf_list_ := l; active_buffer_ := active_buffer_ y |}.
Definition with_active (a : option (nat * Z)) (y : Packer) : Packer :=
  {| stores_ := stores_ y; file_ := file_ y; buf_list_ := buf_list_ y; active_buffer_ := a |}.

Definition store (y : Packer) (k : nat) : res FileStore :=
  match stores_ y !! k with Some s => Ok s | None => Err OutOfBounds end.

Section BufferConsumer.
Variable use_pfs : bool.
#[local] Abbreviation chunk := (CHUNK use_pfs).

(** ** The list of the consumer *)

Definition InsertBuffer (y : Packer) (ds : nat) : res Packer :=
  y ← (match last (buf_list_ y) with
       | Some b =>
           s ← store y b;
           let '(offset, d) := PadZeros use_pfs (ds_ s) 0 in
           Ok (with_file (SetOffset offset (file_ y)) (with_store b (with_ds d s) y))
       | None => Ok y
       end);
  Ok (with_list (buf_list_ y ++ [ds]) y).

(** The first occurrence. *)
Fixpoint erase (ds : nat) (l : list nat) : option (list nat) :=
  match l with
  | [] => None
  | b :: l => if Nat.eqb b ds then Some l else cons b <$> erase ds l
  end.

Definition RemoveBuffer (y : Packer) (ds : nat) : res Packer :=
  match erase ds (buf_list_ y) with Some l => Ok (with_list l y) | None => Err AssertFail end.

(** The part of Begin that prepares a store on the local disk. *)
Definition Begin_disk (y : Packer) (k : nat) (magic : list cell) : res Packer :=
  s ← store y k;
  let '(s, f) := BeginDisk use_pfs s (file_ y) magic in
  InsertBuffer (with_file f (with_store k s y)) k.

(** [FreeData(true)], at the end of a domain. *)
Definition FreeData (y : Packer) (k : nat) : res Packer :=
  s ← store y k;
  let '(s, f) := FreeFileData s (file_ y) in
  let y := with_file f (with_store k s y) in
  if ftype_ s =? kVolatile then Ok y else RemoveBuffer y k.

(** Preserving and restoring one region in the store [k]. *)
Definition preserve_disk (thr : Z) (y : Packer) (k : nat) (region : list cell) : res (Z * Packer) :=
  s ← store y k;
  '(o, s, f) ← PreserveDisk use_pfs thr s (file_ y) region;
  Ok (o, with_file f (with_store k s y)).

Definition restore_disk (y : Packer) (k : nat) (dst : list cell) (pos : Z) : res (Packer * list cell) :=
  s ← store y k;
  '(s, dst) ← GetData use_pfs s (file_ y) dst (zlen dst) pos;
  Ok (with_store k s y, dst).

Fixpoint first_eager (y : Packer) (l : list nat) : option nat :=
  match l with
  | [] => None
  | b :: l =>
      match stores_ y !! b with
      | Some s => if negb (IsEmpty use_pfs (ds_ s)) && CHECK_FLAG (mode_ s) kEagerWriting then Some b else first_eager y l
      | None => first_eager y l
      end
  end.

Definition GetBuffer (y : Packer) : option nat :=
  match active_buffer_ y with
  | Some (id, state) => if CHECK_FLAG state kEagerWriting then Some id else None
  | None => first_eager y (buf_list_ y)
  end.

(** The body of ConsumeBuffer after the wait.  When a rest of less than a
    chunk is written too, [buffer] is null where FileSync is called. *)
Definition ConsumeBuffer (y : Packer) : res Packer :=
  match GetBuffer y with
  | None => Err OutOfBounds
  | Some b =>
      s ← store y b;
      '(d, f) ← WriteFile use_pfs (ds_ s) (file_ y) chunk;
      let rest := buf_used d in
      if (0 <? rest) && (rest <? chunk) then
        '(d, f) ← WriteFile use_pfs d f rest;
        Err OutOfBounds
      else if rest <? 0 then Err AssertFail
      else Ok (with_file f (with_store b (with_ds d s) y))
  end.

(** ** The two threads *)

(** The application's thread: outside of the store, or in WriteBuffer of the
    store [k] with the copies [ps] to make before it returns [ret]: about to
    lock, waiting for [full], or woken. *)
Inductive producer :=
  | PRun
  | PWrite (k : nat) (ret : Z) (ps : list (list cell))
  | PWaitFull (k : nat) (ret : Z) (ps : list (list cell))
  | PWakeFull (k : nat) (ret : Z) (ps : list (list cell)).

(** The consumer: about to lock, waiting for [empty], or woken. *)
Inductive consumer := CLock | CWaitEmpty | CWakeEmpty.

Record Sys := { pk_ : Packer; prod_ : producer; cons_ : consumer }.

Definition signal_empty (c : consumer) : consumer := match c with CWaitEmpty => CWakeEmpty | c => c end.
Definition signal_full (p : producer) : producer := match p with PWaitFull k r ps => PWakeFull k r ps | p => p end.

(** Write in bounded mode, up to the first lock. *)
Definition Write_call (y : Sys) (k : nat) (src : list cell) : res Sys :=
  s ← store (pk_ y) k;
  '(ret, d, ps) ← WriteBufferMode_start use_pfs (ds_ s) src;
  Ok {| pk_ := with_active (Some (k, mode_ s)) (with_store k (with_ds d s) (pk_ y));
        prod_ := PWrite k ret ps; cons_ := cons_ y |}.

(** What the application's thread does to the stores outside of a bounded
    write: a domain begins or ends, a store in memory is written, a store is
    flushed or read. *)
Inductive app_step (thr : Z) : Packer → Packer → Prop :=
  | app_begin y k magic y' : Begin_disk y k magic = Ok y' → app_step thr y y'
  | app_end y k y' : FreeData y k = Ok y' → app_step thr y y'
  | app_write y k s src ret s' f' ps :
      stores_ y !! k = Some s → CHECK_FLAG (mode_ s) kBoundedMode = false →
      Write use_pfs thr s (file_ y) src = Ok (ret, s', f', ps) →
      app_step thr y (with_active (Some (k, mode_ s)) (with_file f' (with_store k s' y)))
  | app_flush y k s d f :
      stores_ y !! k = Some s → Flush use_pfs (ds_ s) (file_ y) = Ok (d, f) →
      app_step thr y (with_file f (with_store k (with_ds d s) y))
  | app_read y k s dst len pos s' dst' :
      stores_ y !! k = Some s → GetData use_pfs s (file_ y) dst len pos = Ok (s', dst') →
      app_step thr y (with_store k s' y).

Inductive step (thr : Z) : Sys → Sys → Prop :=
  | step_app y pk' c : app_step thr y pk' →
      step thr {| pk_ := y; prod_ := PRun; cons_ := c |} {| pk_ := pk'; prod_ := PRun; cons_ := c |}
  | step_call y k s src y' :
      prod_ y = PRun → stores_ (pk_ y) !! k = Some s → CHECK_FLAG (mode_ s) kBoundedMode = true →
      Write_call y k src = Ok y' → step thr y y'
  | step_put y k s ret q ps d p c :
      stores_ y !! k = Some s → IsFull use_pfs (ds_ s) = false → WriteInternal (ds_ s) q = Ok d →
      p = PWrite k ret (q :: ps) ∨ p = PWakeFull k ret (q :: ps) →
      step thr {| pk_ := y; prod_ := p; cons_ := c |}
        {| pk_ := with_store k (with_ds d s) y; prod_ := PWrite k ret ps; cons_ := signal_empty c |}
  | step_full y k s ret q ps c :
      stores_ y !! k = Some s → IsFull use_pfs (ds_ s) = true →
      step thr {| pk_ := y; prod_ := PWrite k ret (q :: ps); cons_ := c |}
        {| pk_ := y; prod_ := PWaitFull k ret (q :: ps); cons_ := signal_empty c |}
  | step_still_full y k s ret ps c :
      stores_ y !! k = Some s → IsFull use_pfs (ds_ s) = true →
      step thr {| pk_ := y; prod_ := PWakeFull k ret ps; cons_ := c |}
        {| pk_ := y; prod_ := PWaitFull k ret ps; cons_ := c |}
  | step_return y k s ret c :
      stores_ y !! k = Some s →
      step thr {| pk_ := y; prod_ := PWrite k ret []; cons_ := c |}
        {| pk_ := y; prod_ := PRun; cons_ := if thr <=? buf_used (ds_ s) then signal_empty c else c |}
  | step_spurious_full y k ret ps c :
      step thr {| pk_ := y; prod_ := PWaitFull k ret ps; cons_ := c |}
        {| pk_ := y; prod_ := PWakeFull k ret ps; cons_ := c |}
  | step_lock y p :
      step thr {| pk_ := y; prod_ := p; cons_ := CLock |} {| pk_ := y; prod_ := p; cons_ := CWaitEmpty |}
  | step_spurious_empty y p :
      step thr {| pk_ := y; prod_ := p; cons_ := CWaitEmpty |} {| pk_ := y; prod_ := p; cons_ := CWakeEmpty |}
  | step_none y p :
      GetBuffer y = None →
      step thr {| pk_ := y; prod_ := p; cons_ := CWakeEmpty |} {| pk_ := y; prod_ := p; cons_ := CWaitEmpty |}
  | step_consume y p y' :
      ConsumeBuffer y = Ok y' →
      step thr {| pk_ := y; prod_ := p; cons_ := CWakeEmpty |} {| pk_ := y'; prod_ := signal_full p; cons_ := CLock |}.

(** ** The consumer never has a buffer

    Nothing in the program sets [kEagerWriting]: SetActiveBuffer is called
    without high priority, and Begin sets [kBoundedMode]. *)
Definition lazy (m : Z) : Prop := Z.testbit m 2 = false.

Definition no_eager (y : Packer) : Prop :=
  (∀ k s, stores_ y !! k = Some s → lazy (mode_ s)) ∧
  match active_buffer_ y with Some (_, state) => lazy state | None => True end.

Lemma lazy_flag m : lazy m → CHECK_FLAG m kEagerWriting = false.
Proof.
  intros Hm. apply Z.eqb_neq. intros He.
  assert (Z.testbit (Z.land m kEagerWriting) 2 = true) as Hb by by rewrite He.
  rewrite Z.land_spec, Hm in Hb. done.
Qed.

Lemma no_eager_GetBuffer y : no_eager y → GetBuffer y = None.
Proof.
  intros (Hs & Ha). unfold GetBuffer. destruct (active_buffer_ y) as [[id st]|]; [by rewrite lazy_flag|].
  induction (buf_list_ y) as [|b l IH]; [done|]. cbn. destruct (stores_ y !! b) as [s|] eqn:Hb; [|done].
  by rewrite (lazy_flag (mode_ s)), andb_false_r by by eapply Hs.
Qed.

Lemma no_eager_store k s s0 y :
  no_eager y → stores_ y !! k = Some s0 → (lazy (mode_ s0) → lazy (mode_ s)) → no_eager (with_store k s y).
Proof.
  intros (Hs & Ha) Hk Hm. split; [|done]. cbn. intros j t. rewrite list_lookup_insert_Some.
  intros [(-> & <- & _)|(_ & Hj)]; [by apply Hm, (Hs j)|by eapply Hs].
Qed.

Lemma no_eager_active a y : no_eager y → match a with Some (_, st) => lazy st | None => True end → no_eager (with_active a y).
Proof. by intros (Hs & _) Ha. Qed.

Lemma store_Ok y k s : store y k = Ok s → stores_ y !! k = Some s.
Proof. unfold store. case_match; [by intros [= <-]|done]. Qed.

(** What the operations do to the mode. *)
Lemma InitReadMode_lazy s s' : InitReadMode s = Ok s' → lazy (mode_ s) → lazy (mode_ s').
Proof.
  unfold InitReadMode. case_match; [by intros [= <-]|]. intros (s1 & H1 & [= <-])%bind_Ok Hl. cbn.
  assert (mode_ s1 = CD_SET (mode_ s) kReadMode) as ->.
  { case_match; [apply bind_Ok in H1 as (b & _ & [= <-]); done|by injection H1 as <-]. }
  unfold lazy, CD_SET in *. by rewrite Z.lor_spec, Hl.
Qed.

Lemma FinReadMode_lazy s s' : FinReadMode s = Ok s' → lazy (mode_ s) → lazy (mode_ s').
Proof.
  unfold FinReadMode. case_match; [|by intros [= <-]]. intros (s1 & H1 & [= <-])%bind_Ok Hl. cbn.
  assert (mode_ s1 = CD_UNSET (mode_ s) kReadMode) as ->.
  { case_match; [|by injection H1 as <-]. apply bind_Ok in H1 as (b & _ & H1). by apply bind_Ok in H1 as (d & _ & [= <-]). }
  unfold lazy, CD_UNSET in *. by rewrite Z.land_spec, Hl.
Qed.

Lemma FetchInternal_mode s f len pos n s' : FetchInternal use_pfs s f len pos = Ok (n, s') → mode_ s' = mode_ s.
Proof. unfold FetchInternal. intros (o & _ & H)%bind_Ok. apply bind_Ok in H as (d & _ & [= _ <-]). done. Qed.

Lemma fetch_loop_mode fuel s f dst len fpos pos s' dst' :
  fetch_loop use_pfs fuel s f dst len fpos pos = Ok (s', dst') → mode_ s' = mode_ s.
Proof.
  revert s dst len fpos. induction fuel as [|fuel IH]; intros s dst len fpos; cbn; (case_match; [|by intros [= <- _]]).
  - done.
  - intros ((n & s1) & H1 & H2)%bind_Ok. apply bind_Ok in H2 as (b & _ & H2). apply bind_Ok in H2 as ([d|] & _ & H2); [|done].
    rewrite (IH _ _ _ _ H2). by eapply FetchInternal_mode.
Qed.

Lemma GetData_lazy s f dst len pos s' dst' :
  GetData use_pfs s f dst len pos = Ok (s', dst') → lazy (mode_ s) → lazy (mode_ s').
Proof.
  unfold GetData. case_match.
  - intros (b & _ & H1)%bind_Ok. apply bind_Ok in H1 as ([d|] & _ & H1); [|done]. by injection H1 as <- _.
  - intros (s1 & H1 & H2)%bind_Ok Hl. apply bind_Ok in H2 as ((s2 & d2) & H2 & H3).
    apply bind_Ok in H3 as (s3 & H3 & [= <- _]). eapply FinReadMode_lazy; [done|].
    rewrite (fetch_loop_mode _ _ _ _ _ _ _ _ _ H2). by eapply InitReadMode_lazy.
Qed.

Lemma Write_mode thr s f src ret s' f' ps : Write use_pfs thr s f src = Ok (ret, s', f', ps) → mode_ s' = mode_ s.
Proof.
  unfold Write. case_match.
  - intros (((r & d) & qs) & _ & [= _ <- _ _])%bind_Ok. done.
  - intros ((r & d) & _ & H1)%bind_Ok. apply bind_Ok in H1 as ((d' & f1) & _ & [= _ <- _ _]). done.
Qed.

Lemma BeginDisk_mode s f magic s' f' : BeginDisk use_pfs s f magic = (s', f') → mode_ s' = kBoundedMode.
Proof. unfold BeginDisk. case_match; cbn; by intros [= <- _]. Qed.

Lemma InsertBuffer_lazy y k y' : InsertBuffer y k = Ok y' → no_eager y → no_eager y'.
Proof.
  unfold InsertBuffer. intros (y1 & H1 & [= <-])%bind_Ok Hy. assert (no_eager y1) as Hy1; [|by destruct Hy1].
  destruct (last (buf_list_ y)) as [b|]; [|by injection H1 as <-]. apply bind_Ok in H1 as (s & Hs%store_Ok & [= <-]).
  change (no_eager (with_store b (with_ds (PadZeros use_pfs (ds_ s) 0).2 s) y)). by eapply no_eager_store.
Qed.

Lemma app_no_eager thr y y' : app_step thr y y' → no_eager y → no_eager y'.
Proof.
  intros H Hy. destruct H as [y k magic y' H|y k y' H|y k s src ret s' f' ps Hs Hm H|y k s d f Hs H|y k s dst len pos s' dst' Hs H].
  - unfold Begin_disk in H. apply bind_Ok in H as (s & Hs%store_Ok & H). destruct (BeginDisk _ _ _ _) as [s1 f1] eqn:Hb.
    eapply InsertBuffer_lazy; [done|]. change (no_eager (with_store k s1 y)). eapply no_eager_store; [done|done|].
    by rewrite (BeginDisk_mode _ _ _ _ _ Hb).
  - unfold FreeData in H. apply bind_Ok in H as (s & Hs%store_Ok & H). cbn in H.
    assert (no_eager (with_store k (FreeFileData s (file_ y)).1 y)) as Hy1 by by eapply no_eager_store.
    case_match; [by injection H as <-|]. unfold RemoveBuffer in H. case_match; [|done]. injection H as <-. by destruct Hy1.
  - apply no_eager_active; [|by apply Hy in Hs]. change (no_eager (with_store k s' y)). eapply no_eager_store; [done|done|].
    by rewrite (Write_mode _ _ _ _ _ _ _ _ H).
  - change (no_eager (with_store k (with_ds d s) y)). by eapply no_eager_store.
  - eapply no_eager_store; [done|done|]. by eapply GetData_lazy.
Qed.

Lemma Write_call_lazy y k src y' : Write_call y k src = Ok y' → no_eager (pk_ y) → no_eager (pk_ y').
Proof.
  unfold Write_call. intros (s & Hs%store_Ok & H)%bind_Ok Hy. apply bind_Ok in H as (((r & d) & ps) & _ & [= <-]). cbn.
  apply no_eager_active; [|by apply Hy in Hs]. by eapply no_eager_store.
Qed.

Lemma ConsumeBuffer_lazy y : no_eager y → ConsumeBuffer y = Err OutOfBounds.
Proof. intros Hy. unfold ConsumeBuffer. by rewrite no_eager_GetBuffer. Qed.

Lemma step_no_eager thr y y' : step thr y y' → no_eager (pk_ y) → no_eager (pk_ y').
Proof.
  intros H Hy. destruct H; cbn in *; try done.
  - by eapply app_no_eager.
  - by eapply Write_call_lazy.
  - by eapply no_eager_store.
  - rewrite ConsumeBuffer_lazy in H by done. done.
Qed.

(** ** A write that does not fit waits for ever *)

(** A process starts without an active buffer; no store has the flag. *)
Definition initial (y : Sys) : Prop := no_eager (pk_ y).

Definition reachable (thr : Z) (y : Sys) : Prop := ∃ y0, initial y0 ∧ rtc (step thr) y0 y.

Lemma reachable_no_eager thr y : reachable thr y → no_eager (pk_ y).
Proof.
  intros (y0 & H0 & H). induction H as [|y0 y1 y2 Hs _ IH]; [done|]. apply IH. by eapply step_no_eager.
Qed.

(** The write in the store [k] still has more to copy than the buffer takes. *)
Definition stuck (k : nat) (y : Sys) : Prop :=
  no_eager (pk_ y) ∧ ∃ ret ps s,
    (prod_ y = PWrite k ret ps ∨ prod_ y = PWaitFull k ret ps ∨ prod_ y = PWakeFull k ret ps) ∧
    stores_ (pk_ y) !! k = Some s ∧ Forall (λ q, zlen q ≤ chunk) ps ∧
    0 ≤ d_head_ (ds_ s) ≤ d_tail_ (ds_ s) ∧ d_tail_ (ds_ s) + zlen (concat ps) < 2 ^ 64 ∧
    buf_used (ds_ s) ≤ d_size_ (ds_ s) < buf_used (ds_ s) + zlen (concat ps).

Lemma WriteInternal_ends d q d' :
  WriteInternal d q = Ok d' → d_head_ d' = d_head_ d ∧ d_size_ d' = d_size_ d ∧ d_tail_ d' = u64 (d_tail_ d + zlen q).
Proof. unfold WriteInternal. intros (t & _ & H)%bind_Ok. by apply bind_Ok in H as (p & _ & [= <-]). Qed.

Lemma stuck_put k y s ret q ps d p c c' :
  stuck k {| pk_ := y; prod_ := p; cons_ := c |} → p = PWrite k ret (q :: ps) ∨ p = PWakeFull k ret (q :: ps) →
  stores_ y !! k = Some s → IsFull use_pfs (ds_ s) = false → WriteInternal (ds_ s) q = Ok d →
  stuck k {| pk_ := with_store k (with_ds d s) y; prod_ := PWrite k ret ps; cons_ := c' |}.
Proof.
  intros (Hy & r & ps' & s' & Hp' & Hs' & Hsm & Hht & Hmax & Hu) Hp Hs Hf Hw. cbn in *.
  rewrite Hs in Hs'. injection Hs' as <-.
  assert (ps' = q :: ps) as -> by (destruct Hp as [-> | ->], Hp' as [E|[E|E]]; by simplify_eq).
  apply Forall_cons_1 in Hsm as (Hq & Hsm). cbn [concat] in *. rewrite zlen_app in *.
  pose proof (zlen_nonneg q). pose proof (zlen_nonneg (concat ps)).
  apply WriteInternal_ends in Hw as (E1 & E2 & E3). rewrite u64_small in E3 by lia. apply Z.ltb_ge in Hf.
  split; [by eapply no_eager_store|]. exists ret, ps, (with_ds d s). cbn. split; [by left|].
  split; [apply list_lookup_insert_eq; by eapply lookup_lt_Some|]. split; [done|].
  unfold buf_used in *. rewrite E1, E2, E3. lia.
Qed.

Lemma stuck_producer k y s : stuck k y → stores_ (pk_ y) !! k = Some s →
  prod_ y ≠ PRun ∧ ∀ ret, prod_ y ≠ PWrite k ret [].
Proof.
  intros (Hy & r & ps & s' & Hp & Hs' & _ & _ & _ & Hu) Hs. split.
  - intros E. rewrite E in Hp. by destruct Hp as [?|[?|?]].
  - intros ret E. rewrite E in Hp. destruct Hp as [[= -> <-]|[?|?]]; [|done|done]. cbn in Hu. unfold zlen in Hu. simpl in Hu. lia.
Qed.

Lemma stuck_step thr k y y' : step thr y y' → stuck k y → stuck k y'.
Proof.
  intros H Hst. pose proof Hst as (Hy & r & ps0 & s0 & Hp & Hs0 & Hrest).
  pose proof (stuck_producer _ _ _ Hst Hs0) as (Hrun & Hnil).
  assert (∀ p c, (p = PWrite k r ps0 ∨ p = PWaitFull k r ps0 ∨ p = PWakeFull k r ps0) →
    stuck k {| pk_ := pk_ y; prod_ := p; cons_ := c |}) as Hsame by (intros; split; [done|]; by exists r, ps0, s0).
  destruct H; cbn in *; try done; try by apply Hsame.
  - assert (k0 = k ∧ ret = r) as (-> & ->) by (destruct H2 as [-> | ->], Hp as [E|[E|E]]; by simplify_eq).
    by eapply stuck_put.
  - destruct Hp as [E|[E|E]]; simplify_eq. apply Hsame. by right; left.
  - destruct Hp as [E|[E|E]]; simplify_eq. apply Hsame. by right; left.
  - destruct Hp as [E|[E|E]]; simplify_eq. by destruct (Hnil r).
  - destruct Hp as [E|[E|E]]; simplify_eq. apply Hsame. by right; right.
  - rewrite ConsumeBuffer_lazy in H by done. done.
Qed.

Lemma stuck_forever thr k y y' : rtc (step thr) y y' → stuck k y → prod_ y' ≠ PRun.
Proof.
  induction 1 as [y|y y1 y2 Hs _ IH]; intros Hst.
  - pose proof Hst as (_ & r & ps & s & _ & Hs & _). by apply (stuck_producer k y s).
  - apply IH. by eapply stuck_step.
Qed.

(** Phase 1 fits behind what a flush leaves. *)
Lemma WriteBuffer_start_rep d f bs k :
  file_rep use_pfs d f bs → buf_used d < chunk → 0 < zlen k → buf_used d + chunk ≤ d_size_ d + (zlen bs mod chunk) →
  written_len_ d + zlen bs + zlen k ≤ 2 ^ 52 →
  ∃ d' rest, WriteBuffer_start use_pfs d k = Ok (used d, d', pieces use_pfs (S (length rest)) rest) ∧
    d_head_ d' = d_head_ d ∧ d_size_ d' = d_size_ d ∧ d_tail_ d' + zlen rest = d_tail_ d + zlen k ∧
    0 ≤ zlen rest ∧ d_tail_ d ≤ d_tail_ d' ∧ buf_used d' ≤ d_size_ d.
Proof.
  intros Hd Hu Hk Hroom Hmax. pose proof Hd as (p & (Hp & Hl & Hsz & Hs & Hha & Hwa & Hht & Hw & Hb & _) & Ht & _).
  pose proof (chunk_pos use_pfs). pose proof (Z.mod_pos_bound (zlen bs) chunk ltac:(lia)).
  unfold WriteBuffer_start. rewrite cassert_true, ret_bind by (by rewrite Hp, (proj2 (Z.ltb_lt 0 _))).
  unfold Phase1. rewrite !crem_Ok, !ret_bind, Ht by lia.
  set (n := if zlen k <? chunk - zlen bs mod chunk then zlen k else chunk - zlen bs mod chunk).
  assert (Hn : 0 < n ≤ zlen k ∧ n ≤ chunk - zlen bs mod chunk).
  { unfold n. destruct (Z.ltb_spec (zlen k) (chunk - zlen bs mod chunk)); lia. }
  clearbody n. unfold buf_used in *.
  destruct (append_in_chunk use_pfs d f bs (take (Z.to_nat n) k)) as (p' & Hb' & _);
    [done|rewrite zlen_take; lia|unfold buf_used; rewrite zlen_take; lia|rewrite zlen_take; lia|].
  rewrite <-Ht, Hb', !ret_bind. eexists _, _. split; [done|]. cbn. rewrite u64_small, zlen_drop by lia.
  rewrite Ht in *. split_and!; try done; lia.
Qed.

Lemma bounded_write_never_returns_rep thr y k s bs src :
  prod_ y = PRun → no_eager (pk_ y) → stores_ (pk_ y) !! k = Some s → stored use_pfs s (file_ (pk_ y)) bs →
  0 < zlen src ≤ d_size_ (ds_ s) → d_size_ (ds_ s) < zlen bs mod chunk + zlen src →
  written_len_ (ds_ s) + zlen bs + zlen src ≤ 2 ^ 52 →
  ∃ y1, Write_call y k src = Ok y1 ∧ step thr y y1 ∧ ∀ y2, rtc (step thr) y1 y2 → prod_ y2 ≠ PRun.
Proof.
  intros Hrun Hy Hk Hst Hsrc Hbig Hmax. pose proof (stored_rest _ _ _ _ Hst) as (Hu & _).
  destruct Hst as (_ & Hmode & Hrep & _ & Hu' & _). pose proof Hrep as (p & (_ & _ & Hsz & Hs & _ & _ & Hht & Hw & _) & Ht & _).
  pose proof (chunk_pos use_pfs).
  assert (chunk ≤ d_size_ (ds_ s)) by (apply Z.divide_pos_le; [lia|done]).
  destruct (WriteBuffer_start_rep (ds_ s) (file_ (pk_ y)) bs src) as (d' & rest & Hst & E1 & E2 & E3 & E4 & E5 & E6); [done|done|lia..|].
  assert (Hcall : Write_call y k src = Ok {| pk_ := with_active (Some (k, mode_ s)) (with_store k (with_ds d' s) (pk_ y));
    prod_ := PWrite k (used (ds_ s)) (pieces use_pfs (S (length rest)) rest); cons_ := cons_ y |}).
  { unfold Write_call, store. rewrite Hk, ret_bind. unfold WriteBufferMode_start.
    rewrite (proj2 (Z.ltb_ge _ _)), ret_bind by lia. by rewrite Hst, ret_bind. }
  eexists. split; [exact Hcall|]. split; [by eapply step_call|]. intros y2 Hr. eapply stuck_forever; [exact Hr|].
  split; [by eapply Write_call_lazy|]. exists (used (ds_ s)), (pieces use_pfs (S (length rest)) rest), (with_ds d' s). cbn [pk_ prod_].
  split; [by left|]. split; [apply list_lookup_insert_eq; by eapply lookup_lt_Some|].
  split; [apply pieces_small|]. rewrite pieces_concat by lia. cbn. unfold buf_used in *. lia.
Qed.

(** ** A child's store starts inside its parent's last chunk *)

Lemma SetFileType_posix s : ftype_ s ≠ kPosixFile → negb (ftype_ s =? kPosixFile) = true.
Proof. intros H. by rewrite (proj2 (Z.eqb_neq _ _)). Qed.

(** The store of a domain that begins on a file in use. *)
Lemma BeginDisk_shared s f magic n ft :
  FileStore_new n ft = Ok s → ft ≠ kPosixFile → (chunk | n) → 0 < n < 2 ^ 50 → chunk ≤ offset_ f ≤ 2 ^ 50 →
  (chunk | offset_ f) → offset_ f ≤ zlen (contents_ f) →
  ∃ s', BeginDisk use_pfs s f magic = (s', f) ∧ ready s' ∧ CHECK_FLAG (mode_ s') kBoundedMode = true ∧
    file_rep use_pfs (ds_ s') f [] ∧ written_len_ (ds_ s') = offset_ f ∧ d_size_ (ds_ s') = n ∧ buf_used (ds_ s') = 0.
Proof.
  intros Hnew Hft Hn Hn2 Hoff Hal Hlen. apply bind_Ok in Hnew as (d & Hd & [= <-]).
  unfold DataStore_new in Hd. rewrite new_array_Ok, ret_bind in Hd by lia. injection Hd as <-.
  unfold BeginDisk. cbn [ftype_]. rewrite (proj2 (Z.eqb_neq ft kPosixFile)) by done. cbn [negb].
  unfold InitFile, GetFileSize. rewrite (proj2 (Z.ltb_ge _ chunk)) by lia.
  eexists. split; [done|]. unfold ready, buf_used; cbn. split_and!; try done.
  pose proof (chunk_pos use_pfs). exists (replicate (Z.to_nat n) None). unfold shape; cbn. rewrite zlen_replicate by lia.
  split_and!; try done; try lia; try apply Z.divide_0_r. all: intros; lia.
Qed.

(** A parent whose tail was moved to the end of its last chunk. *)
Lemma PadZeros_shape s f bs : stored use_pfs s f bs → written_len_ (ds_ s) + zlen bs ≤ 2 ^ 51 →
  ∃ p, shape use_pfs (with_ds (PadZeros use_pfs (ds_ s) 0).2 s).(ds_) p ∧
    ready (with_ds (PadZeros use_pfs (ds_ s) 0).2 s).
Proof.
  intros (Hrdy & _ & (p & (Hp & Hl & Hsz & Hs & Hha & Hwa & Hht & Hw & Hb & Hu) & Ht & _) & _ & Hu' & _) Hmax.
  pose proof (chunk_pos use_pfs). exists p. split; [|done]. unfold shape; cbn. rewrite Z.add_0_r, u64_small by lia.
  pose proof (align_up_spec use_pfs (d_tail_ (ds_ s)) ltac:(lia)) as (Ha & _).
  assert (align_up use_pfs (d_tail_ (ds_ s)) ≤ d_head_ (ds_ s) + d_size_ (ds_ s)).
  { apply align_up_le; [lia|by apply Z.divide_add_r|lia]. }
  split_and!; try done; lia.
Qed.

Lemma child_writes_at thr y kp kc s bs sc n ft magic c :
  stores_ y !! kp = Some s → stored use_pfs s (file_ y) bs → last (buf_list_ y) = Some kp →
  kp ≠ kc → stores_ y !! kc = Some sc → FileStore_new n ft = Ok sc → ft ≠ kPosixFile →
  (chunk | n) → 0 < n < 2 ^ 50 → chunk ≤ written_len_ (ds_ s) → written_len_ (ds_ s) + zlen bs + zlen c ≤ 2 ^ 50 →
  0 < zlen c ≤ n →
  ∃ y1 y2, Begin_disk y kc magic = Ok y1 ∧
    preserve_disk thr y1 kc c = Ok (written_len_ (ds_ s) + align_down use_pfs (zlen bs), y2) ∧
    stores_ y2 !! kp = Some (with_ds (PadZeros use_pfs (ds_ s) 0).2 s) ∧
    (∀ i, 0 ≤ i < zlen c →
       zat (contents_ (file_ y2)) (written_len_ (ds_ s) + align_down use_pfs (zlen bs) + i) = zat c i) ∧
    zlen (contents_ (file_ y)) ≤ zlen (contents_ (file_ y2)).
Proof.
  intros Hk Hst Hlast Hne Hkc Hnew Hft Hn Hn2 Hw Hmax Hc.
  pose proof (chunk_pos use_pfs). pose proof (stored_rest _ _ _ _ Hst) as (Hu & Hh).
  pose proof Hst as (_ & _ & (p & Hsh & Ht & _ & _ & Hz) & _ & _ & Hoff).
  pose proof Hsh as (_ & _ & Hsz & Hs & Hha & Hwa & Hht & _ & _ & Hus).
  destruct (BeginDisk_shared sc (file_ y) magic n ft) as (s1 & Hb & Hrdy1 & Hm1 & Hrep1 & Ew1 & Es1 & Eu1);
    [done|done|done|done|lia|rewrite Hoff; by apply Z.divide_add_r|lia|].
  set (s' := with_ds (PadZeros use_pfs (ds_ s) 0).2 s) in *. set (off := (PadZeros use_pfs (ds_ s) 0).1).
  set (y1 := with_list (buf_list_ y ++ [kc])
    (with_file (SetOffset off (file_ y)) (with_store kp s' (with_file (file_ y) (with_store kc s1 y))))).
  assert (Begin_disk y kc magic = Ok y1) as Hbegin.
  { unfold Begin_disk, store at 1. rewrite Hkc, ret_bind, Hb. unfold InsertBuffer. cbn [buf_list_ with_file with_store].
    rewrite Hlast. unfold store. cbn [stores_ with_file with_store]. rewrite list_lookup_insert_ne, Hk, ret_bind by done. done. }
  assert (stores_ y1 !! kc = Some s1) as Hkc1.
  { cbn. rewrite list_lookup_insert_ne by done. apply list_lookup_insert_eq. by eapply lookup_lt_Some. }
  assert (Hoff' : 0 ≤ off ≤ 2 ^ 60).
  { unfold off. cbn. pose proof (align_up_spec use_pfs (d_tail_ (ds_ s)) ltac:(lia)). rewrite u64_small by lia.
    pose proof (zlen_nonneg c). lia. }
  assert (file_rep use_pfs (ds_ s1) (SetOffset off (file_ y)) []) as Hrep1' by exact Hrep1.
  destruct (PreserveDisk_rep use_pfs thr s1 (SetOffset off (file_ y)) [] c) as (d2 & f2 & Hpres & _ & (Hin2 & _) & _ & _ & _ & _ & Hz2);
    [done|done|done|done|lia|lia|change (zlen []) with 0; lia|]. change ([] ++ c) with c in Hin2.
  change (contents_ (SetOffset off (file_ y))) with (contents_ (file_ y)) in Hz2.
  exists y1, (with_file f2 (with_store kc (with_ds d2 s1) y1)). split; [done|]. split; [|split; [|split; [|done]]].
  - unfold preserve_disk, store. rewrite Hkc1, ret_bind. change (file_ y1) with (SetOffset off (file_ y)).
    rewrite Hpres, ret_bind. change (zlen []) with 0. do 2 f_equal. lia.
  - cbn. rewrite list_lookup_insert_ne by done. apply list_lookup_insert_eq. rewrite length_insert. by eapply lookup_lt_Some.
  - intros i Hi. rewrite <-Hin2 by lia. f_equal. lia.
Qed.

Lemma child_overwrites_parent_rep thr y kp kc s bs l r z sc n ft magic c dst :
  stores_ y !! kp = Some s → stored use_pfs s (file_ y) bs → last (buf_list_ y) = Some kp →
  kp ≠ kc → stores_ y !! kc = Some sc → FileStore_new n ft = Ok sc → ft ≠ kPosixFile →
  (chunk | n) → 0 < n < 2 ^ 50 → chunk ≤ written_len_ (ds_ s) → written_len_ (ds_ s) + zlen bs + zlen c ≤ 2 ^ 50 →
  bs = l ++ r ++ z → zlen l = align_down use_pfs (zlen bs) → 0 < zlen r ≤ zlen c → zlen c ≤ n → zlen dst = zlen r →
  ∃ y1 y2 y3, Begin_disk y kc magic = Ok y1 ∧
    preserve_disk thr y1 kc c = Ok (written_len_ (ds_ s) + zlen l, y2) ∧
    restore_disk y2 kp dst (written_len_ (ds_ s) + zlen l) = Ok (y3, take (Z.to_nat (zlen r)) c).
Proof.
  intros Hk Hst Hlast Hne Hkc Hnew Hft Hn Hn2 Hw Hmax Hbs Hl Hr Hc Hdst.
  pose proof (chunk_pos use_pfs). pose proof (zlen_nonneg c). pose proof (zlen_nonneg l). pose proof (zlen_nonneg z).
  pose proof (stored_rest _ _ _ _ Hst) as (Hu & Hh).
  destruct (PadZeros_shape _ _ _ Hst ltac:(lia)) as (pp & Hpsh & Hprdy).
  pose proof Hst as (_ & _ & (p & Hsh & Ht & _ & _ & Hz) & (_ & Heof) & _ & Hoff).
  pose proof Hsh as (_ & _ & Hsz & Hs & Hha & Hwa & Hht & _ & _ & Hus).
  destruct (child_writes_at thr y kp kc s bs sc n ft magic c) as (y1 & y2 & Hbegin & Hpreserve & Hk2 & Hin2 & Hz2); [done..|lia|].
  rewrite <-Hl in Hpreserve, Hin2.
  assert (Hlb : zlen bs = zlen l + zlen r + zlen z) by (rewrite Hbs, !zlen_app; lia).
  set (s' := with_ds (PadZeros use_pfs (ds_ s) 0).2 s) in *.
  destruct (GetData_file use_pfs s' pp (file_ y2) dst (zlen r) (written_len_ (ds_ s) + zlen l)) as (s3 & p3 & dst' & Hget & Hld & Hzd & _);
    [done|done|done|lia|cbn; lia|lia| | |].
  - apply window_fits; [lia|done|lia|lia|done| |lia]. cbn. rewrite Hl at 1. unfold buf_used in *. rewrite <-Hh.
    rewrite (proj2 (Z.mod_divide (d_head_ (ds_ s)) chunk ltac:(lia)) Hha). lia.
  - etrans; [|etrans; [exact Heof|exact Hz2]]. rewrite <-align_up_add by (done || lia).
    pose proof (align_up_spec use_pfs (written_len_ (ds_ s) + zlen bs) ltac:(lia)) as (G1 & G2).
    apply align_up_le; [lia|done|lia].
  - exists y1, y2, (with_store kp s3 y2). split; [done|]. split; [done|].
    unfold restore_disk, store. rewrite Hk2, ret_bind, Hdst, Hget, ret_bind. do 2 f_equal.
    apply zat_eq; [rewrite zlen_take; lia|]. intros i Hi. rewrite Hzd, zat_take by lia. by rewrite Hin2 by lia.
Qed.

(** ** What the consumer does with a buffer *)

Lemma WriteFile_chunk d f bs :
  file_rep use_pfs d f bs → 0 ≤ offset_ f ≤ 2 ^ 60 → chunk ≤ d_size_ d →
  ∃ f', WriteFile use_pfs d f chunk = Ok (with_ends (d_head_ d + chunk) (d_tail_ d) d, f') ∧
    offset_ f' = offset_ f + chunk ∧ (chunk ≤ buf_used d → file_rep use_pfs (with_ends (d_head_ d + chunk) (d_tail_ d) d) f' bs).
Proof.
  intros (p & Hsh & Ht & Hr & Hf & Hz) Hoff Hc. pose proof Hsh as (Hp & Hl & Hsz & Hs & Hha & Hwa & Hht & Hw & Hb & Hu).
  pose proof (chunk_pos use_pfs). unfold WriteFile. rewrite (u64_small (d_head_ d + written_len_ d)) by lia.
  assert (align_up use_pfs chunk = chunk) as Eu by (apply align_up_aligned; [lia|apply Z.divide_refl]).
  assert (align_down use_pfs chunk = chunk) as Ed by (apply align_down_aligned; [lia|apply Z.divide_refl]).
  destruct (CopyBufferToFile_file use_pfs d p f chunk (d_head_ d + written_len_ d)) as (f' & -> & Ho & Hl' & Hin & Hout); [done|lia..|].
  rewrite ret_bind, Ed, u64_small by lia. exists f'. rewrite Eu in *. split; [done|]. split; [lia|]. intros Hcu. unfold buf_used in Hcu.
  exists p. split; [unfold shape; cbn; split_and!; try done; try lia; apply Z.divide_add_r; [done|apply Z.divide_refl]|].
  cbn. split; [done|]. split_and!; [intros i Hi; apply Hr; lia| |lia].
  intros i Hi. destruct (Z.ltb_spec i (d_head_ d)).
  - rewrite Hout by lia. apply Hf. lia.
  - rewrite Hin by lia. rewrite <-Hr by lia. f_equal. f_equal. lia.
Qed.

Lemma ConsumeBuffer_rep y b s bs :
  GetBuffer y = Some b → stores_ y !! b = Some s → file_rep use_pfs (ds_ s) (file_ y) bs → 0 ≤ offset_ (file_ y) ≤ 2 ^ 59 →
  let used := buf_used (ds_ s) in
  (used < chunk → ConsumeBuffer y = Err AssertFail) ∧
  (chunk < used < 2 * chunk → ConsumeBuffer y = Err OutOfBounds) ∧
  (used = chunk ∨ 2 * chunk ≤ used → ∃ d f, ConsumeBuffer y = Ok (with_file f (with_store b (with_ds d s) y)) ∧
     file_rep use_pfs d f bs ∧ d_head_ d = d_head_ (ds_ s) + chunk).
Proof.
  intros Hg Hb Hrep Hoff. pose proof Hrep as (p & (_ & _ & Hsz & Hs & _) & _). pose proof (chunk_pos use_pfs).
  assert (chunk ≤ d_size_ (ds_ s)) by (apply Z.divide_pos_le; [lia|done]).
  destruct (WriteFile_chunk _ _ _ Hrep) as (f1 & Hw & Ho & Hrep1); [lia|done|].
  unfold ConsumeBuffer, store. rewrite Hg, Hb, ret_bind, Hw, ret_bind. cbn zeta.
  assert (buf_used (with_ends (d_head_ (ds_ s) + chunk) (d_tail_ (ds_ s)) (ds_ s)) = buf_used (ds_ s) - chunk) as ->
    by (unfold buf_used; cbn; lia).
  split_and!; intros Hu.
  - rewrite (proj2 (Z.ltb_ge 0 _)), (proj2 (Z.ltb_lt _ 0)) by lia. done.
  - rewrite (proj2 (Z.ltb_lt 0 _)), (proj2 (Z.ltb_lt _ chunk)) by lia. cbn.
    destruct (Hrep1 ltac:(lia)) as (p1 & Hsh1 & _). unfold WriteFile. cbn.
    pose proof Hsh1 as (_ & _ & _ & _ & _ & _ & Hht1 & Hw1 & Hb1 & _). cbn in Hht1, Hw1, Hb1. rewrite (u64_small (_ + written_len_ _)) by lia.
    destruct (CopyBufferToFile_file use_pfs _ _ f1 (buf_used (ds_ s) - chunk) (d_head_ (ds_ s) + chunk + written_len_ (ds_ s)) Hsh1)
      as (f2 & Hc & _); [cbn; lia|lia|unfold buf_used in *; lia|lia|lia|]. cbn in Hc. rewrite Hc. done.
  - assert ((0 <? buf_used (ds_ s) - chunk) && (buf_used (ds_ s) - chunk <? chunk) = false) as ->.
    { apply andb_false_iff. rewrite !Z.ltb_ge. lia. }
    rewrite (proj2 (Z.ltb_ge _ 0)) by lia. eexists _, f1. split; [done|]. split; [apply Hrep1; lia|done].
Qed.
End BufferConsumer.

(** ** Theorems *)

(** C27: a region that the buffer can hold, but not behind the rest of the last
    chunk, is never preserved: in bounded mode the writing thread waits for the
    consumer, and in every state the program can reach the consumer has no
    buffer, because only stores with [kEagerWriting] are consumed.  Whatever
    the two threads do from then on, the write does not return. *)
Theorem bounded_write_never_returns (use_pfs : bool) (thr : Z) (y : Sys) (k : nat) (s : FileStore) (bs src : list cell) :
  reachable use_pfs thr y → prod_ y = PRun → stores_ (pk_ y) !! k = Some s → stored use_pfs s (file_ (pk_ y)) bs →
  0 < zlen src ≤ d_size_ (ds_ s) → d_size_ (ds_ s) < zlen bs mod CHUNK use_pfs + zlen src →
  written_len_ (ds_ s) + zlen bs + zlen src ≤ 2 ^ 52 →
  ∃ y1, Write_call use_pfs y k src = Ok y1 ∧ step use_pfs thr y y1 ∧
    ∀ y2, rtc (step use_pfs thr) y1 y2 → prod_ y2 ≠ PRun.
Proof.
  intros Hr Hp Hk Hs Hsrc Hbig Hmax. eapply bounded_write_never_returns_rep; [done| |done..].
  by eapply reachable_no_eager.
Qed.

(** C25: a domain that begins while its parent's last chunk is unfinished puts
    its own store on that chunk: Begin takes the position of the file before
    InsertBuffer moves it behind the parent's data.  What the child preserves
    replaces the parent's last regions, and the parent restores the child's
    bytes. *)
Theorem child_overwrites_parent (use_pfs : bool) (thr : Z) (y : Packer) (kp kc : nat) (s : FileStore)
    (bs l r z : list cell) (sc : FileStore) (n ft : Z) (magic c dst : list cell) :
  stores_ y !! kp = Some s → stored use_pfs s (file_ y) bs → last (buf_list_ y) = Some kp →
  kp ≠ kc → stores_ y !! kc = Some sc → FileStore_new n ft = Ok sc → ft ≠ kPosixFile →
  (CHUNK use_pfs | n) → 0 < n < 2 ^ 50 → CHUNK use_pfs ≤ written_len_ (ds_ s) →
  written_len_ (ds_ s) + zlen bs + zlen c ≤ 2 ^ 50 →
  bs = l ++ r ++ z → zlen l = align_down use_pfs (zlen bs) → 0 < zlen r ≤ zlen c → zlen c ≤ n → zlen dst = zlen r →
  ∃ y1 y2 y3, Begin_disk use_pfs y kc magic = Ok y1 ∧
    preserve_disk use_pfs thr y1 kc c = Ok (written_len_ (ds_ s) + zlen l, y2) ∧
    restore_disk use_pfs y2 kp dst (written_len_ (ds_ s) + zlen l) = Ok (y3, take (Z.to_nat (zlen r)) c).
Proof. apply child_overwrites_parent_rep. Qed.

(** What the consumer does when it has a buffer: exactly one chunk, or two
    and more, are moved by one chunk to the file and nothing is lost; less
    than a chunk trips the check that the rest is not negative; and a rest of
    less than a chunk is written too, after which FileSync is called through
    the pointer that was set to null. *)
Theorem ConsumeBuffer_cases (use_pfs : bool) (y : Packer) (b : nat) (s : FileStore) (bs : list cell) :
  GetBuffer use_pfs y = Some b → stores_ y !! b = Some s → file_rep use_pfs (ds_ s) (file_ y) bs →
  0 ≤ offset_ (file_ y) ≤ 2 ^ 59 →
  let used := buf_used (ds_ s) in
  (used < CHUNK use_pfs → ConsumeBuffer use_pfs y = Err AssertFail) ∧
  (CHUNK use_pfs < used < 2 * CHUNK use_pfs → ConsumeBuffer use_pfs y = Err OutOfBounds) ∧
  (used = CHUNK use_pfs ∨ 2 * CHUNK use_pfs ≤ used →
     ∃ d f, ConsumeBuffer use_pfs y = Ok (with_file f (with_store b (with_ds d s) y)) ∧
       file_rep use_pfs d f bs ∧ d_head_ d = d_head_ (ds_ s) + CHUNK use_pfs).
Proof. apply ConsumeBuffer_rep. Qed.

(** ** Witnesses *)

(** A parent with 600 bytes in a buffer of 1024, chunks of 512. *)
Lemma parent_example : ∃ s f, stored false s f (replicate 600 (Some 1)) ∧ written_len_ (ds_ s) = 512 ∧
  d_size_ (ds_ s) = 1024 ∧ mode_ s = kBoundedMode.
Proof.
  destruct (FileStore_new 1024 kMPIFile) as [s0|] eqn:E; [|discriminate].
  destruct (BeginDisk_stored false 1024 kMPIFile s0 (replicate 512 None)) as (s1 & f1 & _ & Hs1 & Ew & Es & Em);
    [done|done|by exists 2|lia|done|].
  destruct (PreserveDisk_stored false 0 s1 f1 [] (replicate 600 (Some 1))) as (s2 & f2 & _ & Hs2 & Ew2 & Es2 & Em2);
    [done|done|rewrite Es; by vm_compute|rewrite Ew; by vm_compute|].
  exists s2, f2. by rewrite Ew2, Ew, Es2, Es, Em2, Em.
Qed.

(** 950 bytes fit in the buffer, but not behind the 88 of the last chunk. *)
Lemma bounded_write_never_returns_witness :
  ∃ s f, let y := {| pk_ := {| stores_ := [s]; file_ := f; buf_list_ := [O]; active_buffer_ := None |};
                     prod_ := PRun; cons_ := CWaitEmpty |} in
  ∃ y1, Write_call false y 0 (replicate 950 (Some 2)) = Ok y1 ∧ step false 0 y y1 ∧
    ∀ y2, rtc (step false 0) y1 y2 → prod_ y2 ≠ PRun.
Proof.
  destruct parent_example as (s & f & Hs & Ew & Es & Em). exists s, f.
  apply (bounded_write_never_returns false 0 _ 0 s (replicate 600 (Some 1)));
    [|done|done|done|rewrite Es; by vm_compute..|rewrite Ew; by vm_compute].
  eexists. split; [|apply rtc_refl]. split; [|done]. cbn. intros [|k] t Hk; [|done]. injection Hk as <-. by rewrite Em.
Defined.

(** The last 88 bytes of the parent become the first 88 of the child. *)
Lemma child_overwrites_parent_witness :
  ∃ s f sc, let y := {| stores_ := [s; sc]; file_ := f; buf_list_ := [O]; active_buffer_ := None |} in
  ∃ y1 y2 y3, Begin_disk false y 1 (replicate 512 None) = Ok y1 ∧
    preserve_disk false 0 y1 1 (replicate 100 (Some 2)) = Ok (1024, y2) ∧
    restore_disk false y2 0 (replicate 88 None) 1024 = Ok (y3, replicate 88 (Some 2)).
Proof.
  destruct parent_example as (s & f & Hs & Ew & Es & Em). destruct (FileStore_new 1024 kMPIFile) as [sc|] eqn:E; [|discriminate].
  exists s, f, sc. cbv zeta.
  destruct (child_overwrites_parent false 0 {| stores_ := [s; sc]; file_ := f; buf_list_ := [O]; active_buffer_ := None |} 0 1 s
    (replicate 600 (Some 1)) (replicate 512 (Some 1)) (replicate 88 (Some 1)) [] sc 1024 kMPIFile (replicate 512 None)
    (replicate 100 (Some 2)) (replicate 88 None)) as (y1 & y2 & y3 & H1 & H2 & H3);
    [done|done|done|done|done|done|done|by exists 2|lia|rewrite Ew; by vm_compute|rewrite Ew; by vm_compute|done|done|by vm_compute|by vm_compute|done|].
  rewrite Ew in H2, H3. by exists y1, y2, y3.
Defined.

(** A store that is consumed: 600 bytes cannot be. *)
Lemma ConsumeBuffer_cases_witness :
  ∃ s f, let y := {| stores_ := [s]; file_ := f; buf_list_ := [O]; active_buffer_ := Some (O, kEagerWriting) |} in
  buf_used (ds_ s) = 88 ∧ ConsumeBuffer false y = Err AssertFail.
Proof.
  destruct parent_example as (s & f & Hs & Ew & Es & Em). exists s, f. cbv zeta.
  pose proof (stored_rest _ _ _ _ Hs) as (Hu & Hh). split; [by rewrite Hu|].
  destruct Hs as (_ & _ & Hrep & _ & _ & Hoff).
  destruct (ConsumeBuffer_cases false {| stores_ := [s]; file_ := f; buf_list_ := [O]; active_buffer_ := Some (O, kEagerWriting) |}
    0 s (replicate 600 (Some 1))) as (H1 & _); [done|done|done| |].
  - cbn. rewrite Hoff, Ew, Hh. by vm_compute.
  - apply H1. by rewrite Hu.
Defined.
