(* ===== verification/StoreType.v ===== *)
(** * The type of a preservation store

    A well-formedness invariant of [Preserve.v]'s domains: every array a domain
    has preserved lies inside of what its store holds.  The operations of a
    domain keep it, on every branch of [Preserve]. *)

From Stdlib Require Import ZArith Lia String.
From stdpp Require Import base gmap list list_numbers numbers strings.
From S2P Require Import Prelude Layout Memory CdLog TableStore DataStore Preserve.

Section store_type.
Variable env : Env.

Definition entry_ok (n : Z) (e : CDEntry) : Prop :=
  CheckAny (size_ e) karray = true → entry_size e ≠ 0 →
  CHUNK_ALIGNMENT ≤ offset_ e ∧ offset_ e + entry_size e ≤ CHUNK_ALIGNMENT + n.

Definition store_wf (t : TableStore) (d : DataStore) : Prop :=
  ∃ l bs, table_rep t l ∧ data_rep d bs ∧ zlen bs ≤ MAX_DATA ∧ Forall (entry_ok (zlen bs)) l.

(** Between Complete and Begin the table is empty. *)
Definition prv_wf (c : CDPrv) : Prop :=
  store_wf (entry_table_ c) (entry_data_ c) ∧ (exec_mode_ c = kSuspension → t_tail_ (entry_table_ c) = 0).

(** Objects that serialise themselves do it through the store they are given. *)
Definition objects_preserve : Prop :=
  ∀ data m t d name n t' d', store_wf t d → PreserveObject env data m t d name = Ok (n, t', d') → store_wf t' d'.
Hypothesis Hobjects : objects_preserve.

(** Room for one more entry of [len] bytes; an object that serialises itself
    leaves room for its entry and for the table in the data. *)
Definition has_room (c : CDPrv) (m : mem) (data len mask : Z) (my : string) : Prop :=
  t_tail_ (entry_table_ c) < MAX_ENTRIES ∧
  if CHECK_PRV_TYPE mask kSerdes then
    ∀ n t d, PreserveObject env data m (entry_table_ c) (entry_data_ c) my = Ok (n, t, d) →
      t_tail_ t < MAX_ENTRIES ∧ d_tail_ d + t_tail_ t * ENTRY_SIZE ≤ MAX_DATA
  else d_tail_ (entry_data_ c) + len mod 2 ^ 48 ≤ MAX_DATA.

(** What is preserved has an address. *)
Definition has_data (data mask : Z) : Prop := CHECK_PRV_TYPE mask kSerdes = false → data ≠ NULL.

Lemma entry_size_new id attr len off src : entry_size (CDEntry_new id attr len off src) = len mod 2 ^ 48.
Proof. apply attr_size_new. Qed.

Lemma domain_Ok path k c : domain path k = Ok c → path !! k = Some c.
Proof. unfold domain. destruct (path !! k); [|done]. congruence. Qed.

Lemma InsertEntry_wf t d e i t' :
  store_wf t d → t_tail_ t < MAX_ENTRIES → entry_ok (d_tail_ d) e → InsertEntry t e = Ok (i, t') → store_wf t' d.
Proof.
  intros (l & bs & Ht & Hd & Hmax & Hl) Hroom He Hi. pose proof Ht as (_ & Htl & _). pose proof Hd as (_ & Hdl & _).
  rewrite Htl in Hroom. rewrite Hdl in He.
  destruct (InsertEntry_sim t l e Ht Hroom) as (t1 & Hi' & Ht1 & _). rewrite Hi' in Hi. injection Hi as <- <-.
  exists (l ++ [e]), bs. split; [done|]. split; [done|]. split; [done|]. apply Forall_app. split; [done|]. by apply Forall_singleton.
Qed.

Lemma AddEntry_wf t d m src e p t' d' :
  store_wf t d → src ≠ NULL → t_tail_ t < MAX_ENTRIES → d_tail_ d + entry_size e ≤ MAX_DATA → 0 ≤ entry_size e →
  AddEntry t d m src e = Ok (p, t', d') → store_wf t' d'.
Proof.
  intros (l & bs & Ht & Hd & Hmax & Hl) Hs Hroom Hdat Hsz. pose proof Hd as (_ & Hdl & _). unfold AddEntry.
  rewrite (proj2 (Z.eqb_neq _ _) Hs). cbn [negb andb].
  destruct (Z.eqb_spec (entry_size e) 0) as [H0|H0]; cbn [negb].
  - rewrite ret_bind. intros ([i t1] & Hi & [= <- <- <-])%bind_Ok. eapply InsertEntry_wf; [by exists l, bs|done| |exact Hi].
    intros _ Hne. change (entry_size (SetOffset INVALID_NUM e)) with (entry_size e) in Hne. done.
  - destruct (Write_sim d bs (mread m src (entry_size e)) Hd) as (d1 & -> & Hd1); [rewrite zlen_mread; lia|].
    rewrite ret_bind. intros ([i t1] & Hi & [= <- <- <-])%bind_Ok. pose proof Hd1 as (_ & Hdl1 & _).
    rewrite zlen_app, zlen_mread in Hdl1 by lia.
    eapply InsertEntry_wf; [|done| |exact Hi].
    + exists l, (bs ++ mread m src (entry_size e)). split; [done|]. split; [done|].
      split; [rewrite zlen_app, zlen_mread; lia|]. eapply Forall_impl; [exact Hl|]. intros x Hx Hk Hne. destruct (Hx Hk Hne). rewrite zlen_app, zlen_mread; lia.
    + intros _ _. rewrite Hdl1. pose proof (zlen_nonneg bs). change (entry_size (SetOffset _ e)) with (entry_size e).
      cbn [offset_ SetOffset]. lia.
Qed.

Lemma serialised_not_array id attr len off src :
  attr = knested ∨ attr = Z.lor koutput knested ∨ attr = Z.lor kremote knested ∨ attr = Z.lor (Z.lor koutput kremote) knested →
  CheckAny (size_ (CDEntry_new id attr len off src)) karray = false.
Proof.
  intros Ha. unfold CheckAny, CDEntry_new. cbn [size_].
  destruct Ha as [->|[->|[->| ->]]]; by rewrite attr_bits_new by (by split).
Qed.

Lemma table_bytes_length es : zlen (es ≫= table_entry_bytes) = zlen es * ENTRY_SIZE.
Proof.
  induction es as [|e es IH]; [done|]. rewrite bind_cons, zlen_app, zlen_cons, IH.
  assert (zlen (table_entry_bytes e) = ENTRY_SIZE) as ->; [|lia].
  unfold table_entry_bytes, zlen. by rewrite !length_app, !length_le_bytes.
Qed.

Lemma AppendTable_wf t d n d' :
  store_wf t d → d_tail_ d + t_tail_ t * ENTRY_SIZE ≤ MAX_DATA → AppendTable t d = Ok (n, d') → store_wf t d'.
Proof.
  intros (l & bs & Ht & Hd & Hmax & Hl) Hroom. pose proof Hd as (_ & Hdl & _). pose proof Ht as (_ & _ & _ & _ & Hadv & _).
  unfold AppendTable. intros ([] & Hn%cassert_Ok & H)%bind_Ok. zbool.
  destruct (Z.ltb_spec 0 (t_tail_ t - t_advance_point_ t)); [|injection H as _ <-; by exists l, bs].
  apply bind_Ok in H as (i & _ & H). apply bind_Ok in H as (es & Hes%slice_zlen & Hw); [|lia].
  destruct (Write_sim d bs (es ≫= table_entry_bytes) Hd) as (d1 & Hw1 & Hd1); [rewrite table_bytes_length; unfold ENTRY_SIZE in *; lia|].
  rewrite Hw1 in Hw. injection Hw as _ <-. exists l, (bs ++ (es ≫= table_entry_bytes)). split; [done|]. split; [done|].
  rewrite zlen_app, table_bytes_length. split; [unfold ENTRY_SIZE in *; lia|].
  eapply Forall_impl; [exact Hl|]. intros x Hx Hk Hne. destruct (Hx Hk Hne). pose proof (zlen_nonneg es). unfold ENTRY_SIZE. lia.
Qed.

Lemma PreserveCopy_wf m c data len mask my id p n c' :
  prv_wf c → exec_mode_ c = kExecution → has_data data mask → has_room c m data len mask my →
  PreserveCopy env m c data len mask my id = Ok (p, n, c') → prv_wf c' ∧ exec_mode_ c' = kExecution.
Proof.
  intros [Hc _] Hm Hd [Ht Hdat]. unfold PreserveCopy, has_data in *. destruct (CHECK_PRV_TYPE mask kSerdes).
  - intros H. apply bind_Ok in H as ([[k t] d] & Hobj & H). apply bind_Ok in H as ([o d1] & Happ & H).
    apply bind_Ok in H as ([i t1] & Hins & [= <- <- <-]). destruct (Hdat _ _ _ Hobj) as [Ht1 Hd1].
    unfold prv_wf. simpl. rewrite Hm. split; [|done]. split; [|done]. apply Hobjects in Hobj; [|done].
    eapply InsertEntry_wf; [by eapply AppendTable_wf|done| |exact Hins].
    intros Hk. rewrite serialised_not_array in Hk; [done|]. repeat case_match; auto.
  - intros ([[q t] d] & Hadd & [= <- <- <-])%bind_Ok. unfold prv_wf. simpl. rewrite Hm. split; [|done]. split; [|done].
    pose proof (Z.mod_pos_bound len (2 ^ 48)).
    eapply AddEntry_wf; [exact Hc|by apply Hd|done| | |exact Hadd]; rewrite entry_size_new; lia.
Qed.

(** The domain a call is made on is executed, with room for one entry. *)
Definition executed (path : list CDPrv) (k : nat) (m : mem) (data len mask : Z) (my : string) : Prop :=
  ∀ c, path !! k = Some c → exec_mode_ c = kExecution ∧ has_room c m data len mask my.

Lemma preserve_copy_at_wf m path k data len mask my id p n path' :
  Forall prv_wf path → executed path k m data len mask my → has_data data mask →
  preserve_copy_at env m path k data len mask my id = Ok (p, n, path') →
  Forall prv_wf path'.
Proof.
  intros Hp Hk Hd. unfold preserve_copy_at.
  intros (c & Hc%domain_Ok & ([[q x] c1] & Hcp & [= <- <- <-])%bind_Ok)%bind_Ok. destruct (Hk c Hc) as [Hm Hroom].
  apply Forall_insert; [done|]. eapply (PreserveCopy_wf m c); [by eapply Forall_lookup_1 in Hp|done..|exact Hcp].
Qed.

Definition listed (path : list CDPrv) (k : nat) : Prop :=
  ∀ c, path !! k = Some c → exec_mode_ c = kExecution ∧ t_tail_ (entry_table_ c) < MAX_ENTRIES.

Lemma executed_listed path k m data len mask my : executed path k m data len mask my → listed path k.
Proof. intros He c Hc. by destruct (He c Hc) as [? [? _]]. Qed.

Lemma insert_ref_wf path k e p path' :
  Forall prv_wf path → listed path k → CheckAny (size_ e) karray = false →
  insert_ref path k e = Ok (p, path') → Forall prv_wf path'.
Proof.
  intros Hp Hk He. unfold insert_ref. intros (c & Hc%domain_Ok & ([i t] & Hi & [= <- <-])%bind_Ok)%bind_Ok.
  destruct (Hk c Hc) as [Hm Ht]. apply Forall_insert; [done|]. unfold prv_wf. simpl. rewrite Hm. split; [|done].
  eapply InsertEntry_wf; [by eapply Forall_lookup_1 in Hp as [? _]|done| |exact Hi]. intros Hkk. congruence.
Qed.

Lemma entry_ok_unset n e : entry_ok n e → entry_ok n (with_size (Attr_Unset (size_ e) koutput) e).
Proof.
  unfold entry_ok, entry_size. simpl. rewrite attr_size_unset. intros He Hk. apply He.
  revert Hk. unfold CheckAny. rewrite !negb_true_iff, !Z.eqb_neq. intros Hk H0. apply Hk.
  apply Z.bits_inj'. intros i Hi. apply (f_equal (λ x, Z.testbit x i)) in H0. revert H0.
  unfold attr_bits, Attr_Unset. rewrite !Z.land_spec, !Z.shiftr_spec, Z.ldiff_spec, Z.bits_0 by lia.
  destruct (Z.testbit karray i) eqn:Hk9; [|by rewrite !andb_false_r].
  change karray with (2 ^ 9) in Hk9. rewrite Z.pow2_bits_eqb, Z.eqb_eq in Hk9 by lia. subst i.
  change (Z.testbit (u64 (Z.shiftl koutput 48)) (9 + 48)) with false.
  by destruct (Z.testbit (size_ e) (9 + 48)).
Qed.

Lemma unset_wf t d p i e p' :
  store_wf t d → t_ptr_ t = Some p → aload p i = Ok e →
  astore p i (with_size (Attr_Unset (size_ e) koutput) e) = Ok p' → store_wf (with_entries p' t) d.
Proof.
  intros (l & bs & Ht & Hd & Hmax & Hl) Hp [Hi He]%aload_Ok [Hil ->]%astore_inv.
  destruct Ht as (Hh & Htl & Hg & Hs & Ha & Hm). rewrite Hp in Hm. destruct Hm as (Hsz & r & ->).
  set (x := with_size _ _).
  exists (<[Z.to_nat i := x]> l), bs. split; [|split; [done|split; [done|]]].
  - unfold table_rep. simpl. unfold zlen in *. rewrite !length_insert. repeat split; try done; try lia.
    destruct (decide (Z.to_nat i < length l)%nat).
    + exists r. by apply insert_app_l.
    + rewrite (list_insert_ge l) by lia. eexists. by apply insert_app_r_alt; lia.
  - destruct (decide (Z.to_nat i < length l)%nat).
    + apply Forall_insert; [done|]. apply entry_ok_unset. rewrite lookup_app_l in He by done.
      by eapply Forall_lookup_1 in Hl.
    + by rewrite list_insert_ge by lia.
Qed.

Lemma use_source_wf path j i path' :
  Forall prv_wf path → use_source path j i = Ok path' →
  Forall prv_wf path' ∧ ∀ k, listed path k → listed path' k.
Proof.
  intros Hp. unfold use_source. intros (c & Hc%domain_Ok & (e & He & Hu)%bind_Ok)%bind_Ok.
  destruct (invalid_ (size_ e)); [done|]. unfold entry_at in He.
  destruct (t_ptr_ (entry_table_ c)) as [q|] eqn:Hq; [|done].
  apply bind_Ok in Hu as (q' & Hst & [= <-]). split.
  - destruct (Forall_lookup_1 _ _ _ _ Hp Hc) as [Hs Hsus]. apply Forall_insert; [done|]. split; [|done]. simpl.
    by apply (unset_wf _ _ q i e q').
  - intros k Hk c' Hc'. destruct (decide (k = j)) as [->|].
    + rewrite list_lookup_insert_eq in Hc' by by eapply lookup_lt_Some. injection Hc' as <-. by apply (Hk c).
    + rewrite list_lookup_insert_ne in Hc' by done. by apply Hk.
Qed.

Lemma reference_not_array id attr len off src :
  attr = krefer ∨ attr = Z.lor kremote krefer ∨ attr = Z.lor krefer knested ∨ attr = Z.lor (Z.lor kremote krefer) knested →
  CheckAny (size_ (CDEntry_new id attr len off src)) karray = false.
Proof.
  intros Ha. unfold CheckAny, CDEntry_new. cbn [size_].
  destruct Ha as [->|[->|[->| ->]]]; by rewrite attr_bits_new by (by split).
Qed.

Lemma preserve_ref_wf m path k data len mask my id ref off p n path' :
  Forall prv_wf path → executed path k m data len mask my → has_data data mask →
  preserve_ref env m path k data len mask my id ref off = Ok (p, n, path') → Forall prv_wf path'.
Proof.
  intros Hp Hk Hd. pose proof (executed_listed _ _ _ _ _ _ _ Hk) as Hlk. unfold preserve_ref.
  set (attr := if CHECK_PRV_TYPE mask kCoop then _ else _). set (attr' := if CHECK_PRV_TYPE mask kSerdes then _ else attr).
  set (len' := if CHECK_PRV_TYPE mask kSerdes then _ else len).
  assert (CheckAny (size_ (CDEntry_new id attr' len' off ref)) karray = false) as He.
  { apply reference_not_array. subst attr' attr. repeat case_match; auto. }
  assert (executed path k m data len' mask my) as Hk'.
  { intros c Hc. destruct (Hk c Hc) as [H1 [H2 H3]]. split; [done|]. split; [done|]. subst len'. by destruct (CHECK_PRV_TYPE mask kSerdes). }
  destruct (CHECK_PRV_TYPE mask kIgnore).
  - intros ([q p1] & Hi & [= <- <- <-])%bind_Ok. by eapply insert_ref_wf.
  - intros ([[j i]|] & _ & H)%bind_Ok.
    + apply bind_Ok in H as (p1 & [Hp1 Hex]%use_source_wf & H); [|done].
      destruct (CHECK_PRV_TYPE mask kOutput); [by injection H as <- <- <-|].
      apply bind_Ok in H as ([q p2] & Hi & [= <- <- <-]). eapply insert_ref_wf; [exact Hp1|by apply Hex|exact He|exact Hi].
    + destruct (CHECK_PRV_TYPE mask kOutput); [by injection H as <- <- <-|].
      apply bind_Ok in H as ([[q x] p2] & Hi & [= <- <- <-]). by eapply preserve_copy_at_wf.
Qed.

Lemma with_remote_wf r c : prv_wf c → prv_wf (with_remote r c).
Proof. done. Qed.

Lemma InternalPreserve_wf m path k data len mask my ref off n path' :
  Forall prv_wf path → (∀ c, path !! k = Some c → has_room c m data len mask my) → has_data data mask →
  InternalPreserve env m path k data len mask my ref off = Ok (n, path') → Forall prv_wf path'.
Proof.
  intros Hp Hroom Hd. unfold InternalPreserve.
  intros (c & Hc%domain_Ok & ([] & Hm%cassert_Ok%bool_decide_eq_true & ([] & _ & H)%bind_Ok)%bind_Ok)%bind_Ok.
  assert (executed path k m data len mask my) as Hex by (intros c' Hc'; split; [congruence|by apply Hroom]).
  destruct (dont_preserve env); [by injection H as <- <-|]. apply bind_Ok in H as ([[p x] p1] & Hpr & H).
  assert (Forall prv_wf p1) as Hp1.
  { destruct (CHECK_ANY mask (Z.lor kCopy kOutput)).
    - apply bind_Ok in Hpr as ([[q y] p2] & Hi & [= <- <- <-]). by eapply preserve_copy_at_wf.
    - destruct (CHECK_PRV_TYPE mask kRef); [|done]. by eapply preserve_ref_wf. }
  case_match; [|by injection H as <- <-].
  apply bind_Ok in H as (c1 & Hc1%domain_Ok & [= <- <-]). apply Forall_insert; [done|].
  apply with_remote_wf. by eapply Forall_lookup_1 in Hc1.
Qed.

Lemma Preserve_wf m path k data len mask my ref off n m' path' :
  Forall prv_wf path → (∀ c, path !! k = Some c → has_room c m data len mask my) → has_data data mask →
  Preserve env m path k data len mask my ref off = Ok (n, m', path') → Forall prv_wf path'.
Proof.
  intros Hp Hroom Hd. unfold Preserve. intros (c & Hc%domain_Ok & H)%bind_Ok.
  destruct (CHECK_PRV_TYPE mask kOutput).
  - destruct (is_koutput_disabled env); [by injection H as <- <- <-|]. destruct (exec_mode_ c); [|by injection H as <- <- <-|done].
    apply bind_Ok in H as ([x p1] & Hi & [= <- <- <-]). by eapply InternalPreserve_wf.
  - destruct (exec_mode_ c) eqn:Hm; [| |done].
    + apply bind_Ok in H as ([x p1] & Hi & H). apply bind_Ok in H as (c1 & Hc1%domain_Ok & [= <- <- <-]).
      apply InternalPreserve_wf in Hi; [|done..]. apply Forall_insert; [done|]. by destruct (Forall_lookup_1 _ _ _ _ Hi Hc1).
    + apply bind_Ok in H as ([] & _ & H). case_match; [|done].
      apply bind_Ok in H as (m1 & _ & [= <- <- <-]). pose proof (Forall_lookup_1 _ _ _ _ Hp Hc) as [Hw _].
      apply Forall_insert; [done|]. split; [by case_match|]. case_match; simpl; [done|by rewrite Hm].
Qed.

(** ** The domains of a task

    What a task does with its domains: the innermost is created, or taken again
    from the domains that were destroyed, whose objects stay with what their stores
    hold; it begins when it is suspended or executed again, completes, is
    recovered, is destroyed; and Preserve is called on any of them, with any mask,
    data that has an address, and room in the store.  The table of a domain that
    is used again has less than 2^38 bytes: its unit of growth becomes twice that. *)
Inductive prv_step : list CDPrv * list CDPrv → list CDPrv * list CDPrv → Prop :=
  | prv_create path old n c : 1 ≤ n < 2 ^ 52 → CDPrv_new n = Ok c → prv_step (path, old) (c :: path, old)
  | prv_reuse path old old' c : t_size_ (entry_table_ c) < 2 ^ 38 →
      prv_step (path, old ++ c :: old') (Initialize_prv c :: path, old ++ old')
  | prv_destroy path old c : prv_step (c :: path, old) (path, c :: old)
  | prv_begin path old c : exec_mode_ c ≠ kExecution → prv_step (c :: path, old) (Begin_prv c :: path, old)
  | prv_complete path old c : prv_step (c :: path, old) (Complete_prv c :: path, old)
  | prv_recover path old w c c' : Recover w c = Ok c' → prv_step (c :: path, old) (c' :: path, old)
  | prv_preserve path old path' k m m' data len mask my ref off n :
      has_data data mask → (∀ c, path !! k = Some c → has_room c m data len mask my) →
      Preserve env m path k data len mask my ref off = Ok (n, m', path') → prv_step (path, old) (path', old).

Lemma CDPrv_new_wf n c : 1 ≤ n < 2 ^ 52 → CDPrv_new n = Ok c → prv_wf c.
Proof.
  intros Hn. unfold CDPrv_new. intros (t & Ht & (d & Hd & [= <-])%bind_Ok)%bind_Ok.
  apply TableStore_new_rep in Ht; [|unfold TABLE_ALLOC; simpl; lia]. apply DataStore_new_rep in Hd; [|done].
  split; [|intros _; by destruct Ht as (_ & ? & _)]. by exists [], [].
Qed.

Lemma empty_wf t d bs : table_rep t [] → data_rep d bs → store_wf t (ReInit d).
Proof. intros. exists [], []. split; [done|]. split; [by eapply data_ReInit_rep|]. done. Qed.

Lemma Begin_wf c : exec_mode_ c ≠ kExecution → prv_wf c → prv_wf (Begin_prv c).
Proof.
  intros Hm [(l & bs & Ht & Hd & Hmax & Hl) Hs]. unfold Begin_prv. destruct (exec_mode_ c) eqn:He; [done| |].
  - rewrite He. split; [by exists l, bs|]. congruence.
  - simpl. split; [|done]. simpl. eapply empty_wf; [|done]. pose proof Ht as (_ & Htl & _). rewrite Hs in Htl by done.
    destruct l; [done|]. rewrite zlen_cons in Htl. pose proof (zlen_nonneg l). lia.
Qed.

Lemma Complete_wf c : prv_wf c → prv_wf (Complete_prv c).
Proof.
  intros [(l & bs & Ht & Hd & _) _]. split; [|done]. unfold Complete_prv, DeleteEntryDirectory. simpl.
  eapply empty_wf; [by eapply Table_Free_rep|done].
Qed.

Lemma Recover_wf w c c' : prv_wf c → Recover w c = Ok c' → prv_wf c'.
Proof.
  intros [Hs _]. unfold Recover, RestoreAll. intros (s1 & _ & (t & _ & ([n t'] & _ & (s2 & _ & ([] & _ & [= <-])%bind_Ok)%bind_Ok)%bind_Ok)%bind_Ok)%bind_Ok.
  split; [done|]. simpl. done.
Qed.

Lemma Initialize_wf c : t_size_ (entry_table_ c) < 2 ^ 38 → prv_wf c → prv_wf (Initialize_prv c).
Proof.
  intros Hs [(l & bs & Ht & Hd & Hmax & _) _]. split; [|done]. exists [], bs. split; [|done].
  destruct Ht as (_ & _ & Hg & Hgs & _ & Hp). simpl. unfold table_rep, Table_Init. simpl. change (zlen []) with 0.
  split; [done|]. split; [done|]. unfold ENTRY_SIZE in *.
  assert (0 ≤ t_size_ (entry_table_ c)) as H0.
  { destruct (t_ptr_ (entry_table_ c)) as [p|]; [destruct Hp as [-> _]; pose proof (zlen_nonneg p); lia|lia]. }
  destruct (Z.ltb_spec 0 (t_size_ (entry_table_ c))).
  - rewrite u64_small by lia. split; [lia|]. split; [by right; lia|]. split; [lia|].
    destruct (t_ptr_ (entry_table_ c)) as [p|]; [|naive_solver]. destruct Hp as [Hp _]. split; [done|]. by exists p.
  - split; [done|]. split; [done|]. split; [lia|].
    destruct (t_ptr_ (entry_table_ c)) as [p|]; [|naive_solver]. destruct Hp as [Hp _]. split; [done|]. by exists p.
Qed.

Definition all_wf (s : list CDPrv * list CDPrv) : Prop := Forall prv_wf s.1 ∧ Forall prv_wf s.2.

Lemma prv_step_wf s s' : prv_step s s' → all_wf s → all_wf s'.
Proof.
  destruct 1 as [path old n c Hn Hc|path old old' c Hs|path old c|path old c Hm|path old c|path old c c' Hr|
      path old path' k m m' data len mask my ref off n Hd Hroom Hp];
    intros [Hp0 Ho0]; simpl in *; try apply Forall_cons in Hp0 as [Hc0 Hp0]; try (split; [apply Forall_cons; split; [|done]|done]).
  - by eapply CDPrv_new_wf.
  - apply Forall_app in Ho0 as [Ho [Hc Ho']%Forall_cons]. split; [|by apply Forall_app]. apply Forall_cons. split; [|done]. by apply Initialize_wf.
  - split; [done|]. by apply Forall_cons.
  - by apply Begin_wf.
  - by apply Complete_wf.
  - by eapply Recover_wf.
  - split; [by apply (Preserve_wf m path k data len mask my ref off n m')|done].
Qed.

Lemma wf_reads c i e :
  prv_wf c → entry_at (entry_table_ c) i = Ok e → i < t_tail_ (entry_table_ c) → CheckAny (size_ e) karray = true →
  ∃ bs, GetData (entry_data_ c) (entry_size e) (offset_ e) = Ok bs ∧ zlen bs = entry_size e.
Proof.
  intros [(l & bs & Ht & Hd & Hmax & Hl) _] He Hi Hk.
  assert (0 ≤ entry_size e) as Hsz.
  { unfold entry_size, attr_size. rewrite Z.land_ones by lia. apply Z.mod_pos_bound. lia. }
  destruct (Z.eq_dec (entry_size e) 0) as [H0|H0].
  { rewrite H0. by exists []. }
  assert (l !! Z.to_nat i = Some e) as Hle.
  { pose proof Ht as (_ & Htl & _ & _ & _ & Hm). rewrite Htl in Hi. unfold entry_at in He.
    destruct (t_ptr_ (entry_table_ c)); [|done]. destruct Hm as (_ & r & ->). apply aload_Ok in He as [? He].
    rewrite lookup_app_l in He; [done|]. unfold zlen in Hi. lia. }
  eapply Forall_lookup_1 in Hl; [|exact Hle]. destruct (Hl Hk H0) as [Ho1 Ho2].
  set (o := Z.to_nat (offset_ e - CHUNK_ALIGNMENT)). set (n := Z.to_nat (entry_size e)).
  assert (zlen (take n (drop o bs)) = entry_size e) as Hlen.
  { unfold zlen in *. rewrite length_take, length_drop. lia. }
  exists (take n (drop o bs)). split; [|done].
  replace (offset_ e) with (CHUNK_ALIGNMENT + zlen (take o bs)) by (unfold zlen in *; rewrite length_take; lia).
  rewrite <-Hlen at 1. apply (GetData_sim _ _ _ (drop n (drop o bs))); by rewrite take_drop, take_drop.
Qed.

(** C14: A well-formed store is a type of the domains.  In every state a task
    reaches by creating, beginning, completing, recovering, destroying and using
    again domains, and by calls of Preserve with any mask on data that has an
    address and fits in the store, where objects that serialise themselves keep
    the store well-formed: every entry of an array in the table of a domain can be
    read, the store gives as many bytes as the entry says, and the read stays
    inside of the buffer. *)
Theorem stores_well_typed path old c i e :
  rtc prv_step ([], []) (path, old) → c ∈ path →
  entry_at (entry_table_ c) i = Ok e → i < t_tail_ (entry_table_ c) → CheckAny (size_ e) karray = true →
  ∃ bs, GetData (entry_data_ c) (entry_size e) (offset_ e) = Ok bs ∧ zlen bs = entry_size e.
Proof.
  intros Hst Hc. assert (all_wf (path, old)) as [Hwf _].
  { apply (rtc_ind_r all_wf ([], [])) in Hst; [done|by split; constructor|]. intros y z _ H. by apply prv_step_wf. }
  apply wf_reads. rewrite Forall_forall in Hwf. by apply Hwf.
Qed.

End store_type.

(** ** A witness

    Objects that add an entry without data to the table.  A domain preserves three
    bytes and such an object, is destroyed and used again, and preserves the bytes
    again. *)
Definition object_env : Env :=
  {| cd_hash := name_code; dont_preserve := false; is_koutput_disabled := false;
     PreserveObject := λ _ _ t d name,
       if t_tail_ t <? 1000 then '(_, t) ← InsertEntry t (CDEntry_new (name_code name) knested 0 0 0); Ok (0, t, d)
       else Err OutOfBounds;
     GetTotalSize := λ _ _, 0; Deserialize := λ _ _ _ _ _, Err AssertFail |}.

Lemma object_env_preserves : objects_preserve object_env.
Proof.
  intros data m t d name n t' d' Hwf. simpl. destruct (Z.ltb_spec (t_tail_ t) 1000); [|done].
  intros ([i t1] & Hi & [= _ <- <-])%bind_Ok. eapply InsertEntry_wf; [exact Hwf|unfold MAX_ENTRIES; lia| |exact Hi].
  intros Hk. rewrite serialised_not_array in Hk; [done|by left].
Qed.

Definition preserved (c : CDPrv) (mask : Z) (my : string) : CDPrv :=
  match Preserve object_env ∅ [c] 0 16 3 mask my EmptyString 0 with Ok (_, _, [c]) => c | _ => c end.
Lemma preserved_step c mask my n :
  exec_mode_ c = kExecution → has_room object_env c ∅ 16 3 mask my →
  Preserve object_env ∅ [c] 0 16 3 mask my EmptyString 0 = Ok (n, ∅, [preserved c mask my]) →
  prv_step object_env ([c], []) ([preserved c mask my], []).
Proof.
  intros Hm Hroom Hp. apply (prv_preserve _ [c] [] _ 0 ∅ ∅ 16 3 mask my EmptyString 0 n); [done| |done]. by intros c' [= <-].
Qed.

Lemma stores_well_typed_witness :
  ∃ c0 e, CDPrv_new 4 = Ok c0 ∧
    let used := preserved (preserved (Begin_prv c0) kCopy "a") (Z.lor kCopy kSerdes) "o" in
    let c := preserved (Begin_prv (Initialize_prv (Complete_prv used))) kCopy "a" in
    rtc (prv_step object_env) ([], []) ([c], []) ∧ entry_at (entry_table_ c) 0 = Ok e ∧ CheckAny (size_ e) karray = true ∧
    ∃ bs, GetData (entry_data_ c) (entry_size e) (offset_ e) = Ok bs ∧ zlen bs = entry_size e.
Proof.
  eexists _, _. split; [reflexivity|]. intros used c.
  assert (rtc (prv_step object_env) ([], []) ([c], [])) as Hr.
  { eapply rtc_l; [by apply (prv_create _ [] [] 4); [lia|reflexivity]|]. eapply rtc_l; [by apply prv_begin|].
    eapply rtc_l; [apply (preserved_step _ kCopy "a" 3); [done|done|by vm_compute]|].
    eapply rtc_l; [apply (preserved_step _ (Z.lor kCopy kSerdes) "o" 0); [by vm_compute| |by vm_compute]|].
    { split; [by vm_compute|]. change (CHECK_PRV_TYPE _ kSerdes) with true. cbn iota. intros n t d Hp. vm_compute in Hp. by injection Hp as <- <- <-. }
    eapply rtc_l; [apply prv_complete|]. eapply rtc_l; [apply prv_destroy|].
    eapply rtc_l; [apply (prv_reuse _ [] [] []); by vm_compute|]. eapply rtc_l; [by apply prv_begin; vm_compute|].
    apply rtc_once. apply (preserved_step _ kCopy "a" 3); [by vm_compute|by split; vm_compute|by vm_compute]. }
  split; [done|]. split; [vm_compute; reflexivity|]. split; [by vm_compute|].
  apply (stores_well_typed object_env object_env_preserves [c] [] c 0 _ Hr); [set_solver|by vm_compute|by vm_compute|by vm_compute].
Defined.
