(* ===== verification/PhaseTree.v ===== *)
(** * The phase tree (phase_tree.h, phase_tree.cc)

    A phase is a place in the program where a domain begins: the domain's label
    below the phase of its parent.  The tree of phases remembers, for every
    phase, how often it was completed ([seq_end_]) and whether it is executed
    again; [failed_phase] and [failed_seqID] of cd_internal.cc name a point of
    the execution by a phase and its count, and recovery ends when that point
    is reached again.

    A pointer to a node is the number of its phase: every node is entered into
    phaseNodeCache by the code that creates it.  Nodes keep what recovery uses;
    the profile, the interval, the medium and the error vector of a node are
    left out.  Phases and completions are counted without wrap-around: a
    counter of 64 bits for completions, and one of 32 bits for the phases,
    each a structure in memory. *)

From Stdlib Require Import ZArith Lia String.
From stdpp Require Import base gmap list numbers strings.
From S2P Require Import Prelude CdLog.

#[local] Open Scope string_scope.
#[local] Open Scope Z_scope.

(** ** Data *)

(** [PhaseNode]. *)
Record PhaseNode := mkNode {
  level_ : Z;
  seq_begin_ : Z;
  seq_end_ : Z;
  seq_max_ : Z;
  seq_acc_ : Z;
  seq_acc_rb_ : Z;
  state_ : CDExecMode;
  parent_ : option Z;
  left_ : option Z;
  right_ : option Z;
  children_ : list Z;
  label_ : string;
}.

(** [cd::phaseTree], [cd::phaseNodeCache], [cd::phasePath] and
    [PhaseNode::phase_gen]. *)
Record PhaseTree := mkTree {
  root_ : option Z;
  current_ : option Z;
  phaseNodeCache : gmap Z PhaseNode;
  phasePath : gmap string Z;
  phase_gen : Z;
}.

Definition empty_tree : PhaseTree := mkTree None None ∅ ∅ 0.

Definition set_seq (b e : Z) (n : PhaseNode) : PhaseNode :=
  mkNode (level_ n) b e (seq_max_ n) (seq_acc_ n) (seq_acc_rb_ n) (state_ n) (parent_ n) (left_ n)
    (right_ n) (children_ n) (label_ n).
Definition set_state (s : CDExecMode) (n : PhaseNode) : PhaseNode :=
  mkNode (level_ n) (seq_begin_ n) (seq_end_ n) (seq_max_ n) (seq_acc_ n) (seq_acc_rb_ n) s (parent_ n)
    (left_ n) (right_ n) (children_ n) (label_ n).
Definition set_right (r : option Z) (n : PhaseNode) : PhaseNode :=
  mkNode (level_ n) (seq_begin_ n) (seq_end_ n) (seq_max_ n) (seq_acc_ n) (seq_acc_rb_ n) (state_ n)
    (parent_ n) (left_ n) r (children_ n) (label_ n).
Definition AddChild (c : Z) (n : PhaseNode) : PhaseNode :=
  mkNode (level_ n) (seq_begin_ n) (seq_end_ n) (seq_max_ n) (seq_acc_ n) (seq_acc_rb_ n) (state_ n)
    (parent_ n) (left_ n) (right_ n) (children_ n ++ [c]) (label_ n).

Definition set_current (c : option Z) (t : PhaseTree) : PhaseTree :=
  mkTree (root_ t) c (phaseNodeCache t) (phasePath t) (phase_gen t).
Definition touch (p : Z) (f : PhaseNode → PhaseNode) (t : PhaseTree) : PhaseTree :=
  mkTree (root_ t) (current_ t) (alter f p (phaseNodeCache t)) (phasePath t) (phase_gen t).

(** Reading through a pointer; a null pointer is an access out of bounds. *)
Definition deref {A} (o : option A) : res A :=
  match o with Some x => Ok x | None => Err OutOfBounds end.
Definition node (t : PhaseTree) (p : Z) : res PhaseNode := deref (phaseNodeCache t !! p).

(** ** Creation *)

(** The constructor of [PhaseNode] with [Init] and [AddChild], and the entry in
    phaseNodeCache its callers make. *)
Definition PhaseNode_new (parent : option Z) (level : Z) (label : string) (state : CDExecMode)
    (t : PhaseTree) : res (Z * PhaseTree) :=
  let p := phase_gen t in
  let add l seq t :=
    (p, mkTree (root_ t) (current_ t)
          (<[p := mkNode level seq seq 0 0 0 state parent l None [] label]> (phaseNodeCache t))
          (phasePath t) (p + 1)) in
  match parent with
  | None => Ok (add None 0 t)
  | Some q =>
      nq ← node t q;
      match last (children_ nq) with
      | None => Ok (add None 0 (touch q (AddChild p) t))
      | Some prev =>
          np ← node t prev;
          let last_seq_id := u32 (seq_end_ np) in
          Ok (add (Some prev) last_seq_id (touch q (AddChild p) (touch prev (set_right (Some p)) t)))
      end
  end.

(** ** Names of phases *)

(** [GetPhasePath()]; a parent is older than its children, so [p + 1] steps
    reach the root. *)
Fixpoint phase_path (fuel : nat) (t : PhaseTree) (p : Z) : res string :=
  match fuel with
  | O => Err OutOfFuel
  | S fuel =>
      n ← node t p;
      match parent_ n with
      | Some q => s ← phase_path fuel t q; Ok (s +:+ "_" +:+ label_ n)
      | None => Ok (label_ n)
      end
  end.
Definition GetPhasePath (t : PhaseTree) (p : Z) : res string := phase_path (S (Z.to_nat p)) t p.

(** [GetPhasePath(label)]. *)
Definition GetPhasePathOf (t : PhaseTree) (p : Z) (label : string) : res string :=
  n ← node t p;
  match parent_ n with
  | Some _ => s ← GetPhasePath t p; Ok (s +:+ "_" +:+ label)
  | None => Ok label
  end.

(** ** Beginning a phase *)

Definition enter_path (s : string) (p : Z) (t : PhaseTree) : PhaseTree :=
  mkTree (root_ t) (current_ t) (phaseNodeCache t) (<[s := p]> (phasePath t)) (phase_gen t).

(** [GetPhaseNode] of the current node, on task 0: a child phase is looked up
    by its path, or created. *)
Definition GetPhaseNode (this level : Z) (label : string) (t : PhaseTree) : res (Z * PhaseTree) :=
  phase_path ← GetPhasePathOf t this label;
  _ ← cassert (negb (String.eqb phase_path "Root_MainLoop_CalcPos"));
  n ← node t this;
  match phasePath t !! phase_path with
  | None =>
      _ ← cassert (bool_decide (state_ n = kExecution));
      '(phase, t) ← PhaseNode_new (current_ t) level label (state_ n) t;
      Ok (phase, set_current (Some phase) (enter_path phase_path phase t))
  | Some phase =>
      _ ← node t phase;
      let t := set_current (Some phase) t in
      Ok (phase, if bool_decide (state_ n = kReexecution) then touch phase (set_state kReexecution) t else t)
  end.

(** [PhaseTree::Init] and [PhaseTree::ReInit]. *)
Definition Tree_Init (level : Z) (label : string) (t : PhaseTree) : res (Z * PhaseTree) :=
  '(phase, t) ← PhaseNode_new None level label kExecution t;
  Ok (phase, mkTree (Some phase) (Some phase) (phaseNodeCache t) (phasePath t) (phase_gen t)).

Definition Tree_ReInit (t : PhaseTree) : res (Z * PhaseTree) :=
  r ← deref (root_ t);
  Ok (r, set_current (Some r) t).

(** [CD::BeginPhase]. *)
Definition BeginPhase (level : Z) (label : string) (t : PhaseTree) : res (Z * PhaseTree) :=
  match current_ t with
  | Some c => GetPhaseNode c level label t
  | None => match root_ t with None => Tree_Init level label t | Some _ => Tree_ReInit t end
  end.

(** ** Counting completions *)

(** [MarkSeqID]: its argument is not used. *)
Definition MarkSeqID (p seq_id : Z) (t : PhaseTree) : res PhaseTree :=
  n ← node t p;
  match left_ n with
  | None => Ok (touch p (set_seq 0 0) t)
  | Some l => nl ← node t l; Ok (touch p (set_seq (seq_begin_ nl) (seq_begin_ nl)) t)
  end.

Definition IncSeq (err_free_exec : bool) (n : PhaseNode) : PhaseNode :=
  let e := if err_free_exec then seq_end_ n + 1 else seq_end_ n in
  mkNode (level_ n) (seq_begin_ n) e (if seq_max_ n <? e then e else seq_max_ n)
    (if err_free_exec then seq_acc_ n + 1 else seq_acc_ n) (seq_acc_rb_ n + 1) (state_ n) (parent_ n)
    (left_ n) (right_ n) (children_ n) (label_ n).
Definition IncSeqID (p : Z) (err_free_exec : bool) (t : PhaseTree) : PhaseTree :=
  touch p (IncSeq err_free_exec) t.

Definition ResetSeq (rollback_lv : Z) (n : PhaseNode) : PhaseNode :=
  if rollback_lv <? level_ n then set_seq (seq_begin_ n) (seq_begin_ n) n else n.
Definition ResetSeqID (p rollback_lv : Z) (t : PhaseTree) : PhaseTree := touch p (ResetSeq rollback_lv) t.

(** ** The end of a recovery *)

(** [ResetToExec], on a node and all below; a child is younger than its parent. *)
Fixpoint reset_to_exec (fuel : nat) (p : Z) (t : PhaseTree) : res PhaseTree :=
  match fuel with
  | O => Err OutOfFuel
  | S fuel =>
      n ← node t p;
      foldM (reset_to_exec fuel) (children_ n) (touch p (set_state kExecution) t)
  end.
Definition ResetToExec (p : Z) (t : PhaseTree) : res PhaseTree :=
  reset_to_exec (S (Z.to_nat (phase_gen t - p))) p t.

(** [FinishRecovery]: from the topmost node that is executed again. *)
Fixpoint finish_recovery (fuel : nat) (p : Z) (t : PhaseTree) : res PhaseTree :=
  match fuel with
  | O => Err OutOfFuel
  | S fuel =>
      n ← node t p;
      _ ← cassert (bool_decide (state_ n = kReexecution));
      match parent_ n with
      | None => ResetToExec p t
      | Some q =>
          nq ← node t q;
          if bool_decide (state_ nq = kReexecution) then finish_recovery fuel q t else ResetToExec p t
      end
  end.
Definition FinishRecovery (p : Z) (t : PhaseTree) : res PhaseTree := finish_recovery (S (Z.to_nat p)) p t.
