(* ===== verification/Handle.v ===== *)
(** * The life cycle of domains, and recovery (cd_handle.cc, cd_internal.cc)

    Creating, beginning, completing and destroying domains, reporting errors,
    and the rollback and escalation of CD::Complete, CD::GetCDToRecover and
    CD::Recover, for a program of one task: [totalTaskSize] and the size of
    every domain are 1, so there is no mailbox, SyncCDs returns
    [INVALID_ROLLBACK_POINT], and the rollback point is one word.

    Handles and domains are one object each, found by the number of its
    creation in [objs]; [uniquePath] is CDPath, the outermost domain first.
    The store of a domain is the one of [Preserve].  A rollback ends in a
    longjmp to the macro CD_Begin of a domain: [Complete] returns that it
    returned, or the domain it jumped to, whose Begin is called next.  The
    logs of communication ([CdLog]) and the profile are left out; domains
    preserve in memory. *)

From Stdlib Require Import ZArith Lia String.
From stdpp Require Import base gmap list numbers strings.
From S2P Require Import Prelude CdLog TableStore DataStore Preserve PhaseTree.

#[local] Open Scope string_scope.
#[local] Open Scope Z_scope.

Definition INVALID_ROLLBACK_POINT : Z := 4294967295.
Definition HEALTHY : Z := -1.
Definition NO_LABEL : string := "".
Definition INITIAL_CDOBJ_LABEL : string := "INITIAL_CDOBJ_LABEL".
Definition DEFAULT_ROOT_LABEL : string := "CD_0_0".

(** ** Data *)

(** [CD] with its [CDHandle]; the mode, [reexecuted_] and the entry directory
    are in [prv]. *)
Record Dom := mkDom {
  level : Z;
  phase : Z;
  sequential_id : Z;
  name : string;
  label : string;
  begin_ : bool;
  reported_error_ : bool;
  num_reexecution_ : Z;
  prv : CDPrv;
}.

(** The globals of the runtime. *)
Record Rt := mkRt {
  tree : PhaseTree;
  objs : gmap Z Dom;
  uniquePath : list Z;
  access_store_ : gmap string Z;
  gen_obj : Z;
  rollback_point_ : Z;
  failed_phase : Z;
  failed_seqID : Z;
  prev_phase : Z;
  just_reexecuted : bool;
}.

Definition with_tree (t : PhaseTree) (s : Rt) : Rt :=
  mkRt t (objs s) (uniquePath s) (access_store_ s) (gen_obj s) (rollback_point_ s) (failed_phase s)
    (failed_seqID s) (prev_phase s) (just_reexecuted s).
Definition with_objs (o : gmap Z Dom) (s : Rt) : Rt :=
  mkRt (tree s) o (uniquePath s) (access_store_ s) (gen_obj s) (rollback_point_ s) (failed_phase s)
    (failed_seqID s) (prev_phase s) (just_reexecuted s).
Definition with_path (p : list Z) (s : Rt) : Rt :=
  mkRt (tree s) (objs s) p (access_store_ s) (gen_obj s) (rollback_point_ s) (failed_phase s)
    (failed_seqID s) (prev_phase s) (just_reexecuted s).
Definition with_rollback (r : Z) (s : Rt) : Rt :=
  mkRt (tree s) (objs s) (uniquePath s) (access_store_ s) (gen_obj s) r (failed_phase s)
    (failed_seqID s) (prev_phase s) (just_reexecuted s).
Definition with_failed (p q : Z) (s : Rt) : Rt :=
  mkRt (tree s) (objs s) (uniquePath s) (access_store_ s) (gen_obj s) (rollback_point_ s) p q
    (prev_phase s) (just_reexecuted s).
Definition with_prev (p : Z) (s : Rt) : Rt :=
  mkRt (tree s) (objs s) (uniquePath s) (access_store_ s) (gen_obj s) (rollback_point_ s) (failed_phase s)
    (failed_seqID s) p (just_reexecuted s).
Definition with_just (b : bool) (s : Rt) : Rt :=
  mkRt (tree s) (objs s) (uniquePath s) (access_store_ s) (gen_obj s) (rollback_point_ s) (failed_phase s)
    (failed_seqID s) (prev_phase s) b.
Definition update (h : Z) (c : Dom) (s : Rt) : Rt := with_objs (<[h := c]> (objs s)) s.

Definition with_begin (b : bool) (c : Dom) : Dom :=
  mkDom (level c) (phase c) (sequential_id c) (name c) (label c) b (reported_error_ c)
    (num_reexecution_ c) (prv c).
Definition with_phase (l : string) (p : Z) (c : Dom) : Dom :=
  mkDom (level c) p (sequential_id c) (name c) l (begin_ c) (reported_error_ c) (num_reexecution_ c) (prv c).
Definition with_seqid (q : Z) (c : Dom) : Dom :=
  mkDom (level c) (phase c) q (name c) (label c) (begin_ c) (reported_error_ c) (num_reexecution_ c) (prv c).
Definition with_reported (b : bool) (c : Dom) : Dom :=
  mkDom (level c) (phase c) (sequential_id c) (name c) (label c) (begin_ c) b (num_reexecution_ c) (prv c).
Definition with_reex (n : Z) (c : Dom) : Dom :=
  mkDom (level c) (phase c) (sequential_id c) (name c) (label c) (begin_ c) (reported_error_ c) n (prv c).
Definition with_prv (x : CDPrv) (c : Dom) : Dom :=
  mkDom (level c) (phase c) (sequential_id c) (name c) (label c) (begin_ c) (reported_error_ c)
    (num_reexecution_ c) x.

Definition obj (s : Rt) (h : Z) : res Dom := deref (objs s !! h).
Definition mode (c : Dom) : CDExecMode := exec_mode_ (prv c).

Definition IsGood (s : Rt) : bool := failed_phase s =? HEALTHY.
Definition IsFailed (s : Rt) : bool := negb (IsGood s).

(** ** The path *)

(** [CDPath::GetCurrentCD]: the last domain, or the one above it when it is not
    active. *)
Definition GetCurrentCD (s : Rt) : res (option Z) :=
  match last (uniquePath s) with
  | None => Ok None
  | Some h =>
      c ← obj s h;
      if bool_decide (mode c = kSuspension) then
        if (1 <? Z.of_nat (length (uniquePath s))) && (1 <=? level c)
        then p ← aload (uniquePath s) (level c - 1); Ok (Some p) else Ok None
      else Ok (Some h)
  end.

(** [CDPath::GetCDLevel]. *)
Definition GetCDLevel (s : Rt) (lv : Z) : res Z :=
  if lv <? Z.of_nat (length (uniquePath s)) then aload (uniquePath s) lv else Err AssertFail.

(** ** Creation *)

(** [CD::Initialize] on a domain found in access_store_, which keeps its
    cd_id_ but for the sequential number. *)
Definition Initialize (nm : string) (c : Dom) : Dom :=
  mkDom (level c) (phase c) 0 nm INITIAL_CDOBJ_LABEL false false 0 (Initialize_prv (prv c)).

Section handle.
(** CD_DATA_GROW_UNIT. *)
Variable data_grow_unit : Z.

(** The constructor of [CD], for a new domain. *)
Definition Dom_new (lv : Z) (nm : string) : res Dom :=
  x ← CDPrv_new data_grow_unit;
  Ok (mkDom lv (u32 (-1)) 0 nm INITIAL_CDOBJ_LABEL false false 0 x).

(** [CD::InitializeMailBox], which [CD::Initialize] calls: the rollback point is
    reset. *)
Definition InitializeMailBox (s : Rt) : Rt := with_rollback INVALID_ROLLBACK_POINT s.

(** [CD::InternalCreate]: a domain with the same path of phases is used again. *)
Definition InternalCreate (parent : option Dom) (nm key : string) (s : Rt) : res (Z * Rt) :=
  match access_store_ s !! key with
  | Some h =>
      c ← obj s h;
      Ok (h, InitializeMailBox (update h (Initialize nm c) s))
  | None =>
      let h := gen_obj s in
      c ← Dom_new (match parent with Some p => u32 (level p + 1) | None => 0 end) nm;
      Ok (h, mkRt (tree s) (<[h := c]> (objs s)) (uniquePath s) (<[key := h]> (access_store_ s)) (h + 1)
               (rollback_point_ s) (failed_phase s) (failed_seqID s) (prev_phase s) (just_reexecuted s))
  end.

(** [CD_Init]: the root, and the globals of cd_internal.cc. *)
Definition CD_Init : res Rt :=
  '(h, s) ← InternalCreate None DEFAULT_ROOT_LABEL DEFAULT_ROOT_LABEL
              (mkRt empty_tree ∅ [] ∅ 0 INVALID_ROLLBACK_POINT HEALTHY HEALTHY HEALTHY false);
  Ok (with_path (uniquePath s ++ [h]) s).

(** [CDHandle::Create], not collective, and [HeadCD::Create]. *)
Definition Create (h : Z) (nm : string) (s : Rt) : res (Z * Rt) :=
  c ← obj s h;
  cur ← deref (current_ (tree s));
  key ← GetPhasePathOf (tree s) cur nm;
  '(h', s) ← InternalCreate (Some c) nm key s;
  Ok (h', with_path (uniquePath s ++ [h']) s).

End handle.

(** [CDHandle::Destroy] and InternalDestroy without [need_destroy]: the path
    loses its last element. *)
Definition Destroy (s : Rt) : res Rt :=
  _ ← cassert (0 <? Z.of_nat (length (uniquePath s)));
  _ ← deref (current_ (tree s));
  Ok (with_path (removelast (uniquePath s)) s).

(** ** Errors *)

(** [CD::SetRollbackPoint] and [CD::CheckRollbackPoint]. *)
Definition SetRollbackPoint (lv : Z) (s : Rt) : Rt :=
  if negb (lv =? INVALID_ROLLBACK_POINT)
  then if lv <? rollback_point_ s then with_rollback lv s else s
  else with_rollback INVALID_ROLLBACK_POINT s.
Definition CheckRollbackPoint (s : Rt) : Z := rollback_point_ s.

(** [CDHandle::CDAssert] and [CD::Assert]. *)
Definition CDAssert (h : Z) (test : bool) (s : Rt) : res Rt :=
  c ← obj s h;
  if test then Ok s else
  cdh ← GetCurrentCD s;
  cdh ← deref cdh;
  d ← obj s cdh;
  if (level d =? level c) || (level c <? level d) then Ok (SetRollbackPoint (level c) s) else Err AssertFail.

(** [CDHandle::Detect], when the error injector finds an error that the domain
    of level [rollback_point] covers. *)
Definition Detect (rollback_point : Z) (s : Rt) : res Rt :=
  _ ← GetCDLevel s rollback_point;
  Ok (SetRollbackPoint rollback_point s).

(** ** Begin *)

Definition SyncCDs (s : Rt) : Z := INVALID_ROLLBACK_POINT.

(** The begin after another phase: the count of the phase starts anew, unless
    the last phase to begin was inside this domain. *)
Definition MarkPhase (cur ph : Z) (c : Dom) (s : Rt) (t : PhaseTree) : res PhaseTree :=
  if prev_phase s =? ph then Ok t else
  returned ← ((if prev_phase s =? HEALTHY then Ok false
               else n ← node t (prev_phase s); Ok (level c <? level_ n)) : res bool);
  if returned : bool then Ok t else
  n ← node t cur;
  MarkSeqID cur (if IsGood s then sequential_id c else seq_begin_ n) t.

(** [CD::Begin].  SyncCDs makes the branch that escalates unreachable. *)
Definition Begin (h : Z) (lab : string) (s : Rt) : res Rt :=
  c ← obj s h;
  _ ← cassert (negb (begin_ c));
  let lab := if String.eqb lab NO_LABEL then name c else lab in
  '(ph, t) ← BeginPhase (level c) lab (tree s);
  cur ← deref (current_ t);
  t ← MarkPhase cur ph c s t;
  let reex := bool_decide (mode c = kReexecution) in
  let c := with_prv (Begin_prv (prv c)) (with_phase lab ph (with_begin true c)) in
  let c := if reex then c else with_reex 0 c in
  let s := SetRollbackPoint (SyncCDs s) (with_tree t (with_prev ph s)) in
  Ok (update h c (with_just false (with_rollback INVALID_ROLLBACK_POINT s))).

(** ** Rollback *)

(** [SetFailure] and [SetHealthy]. *)
Definition SetFailure (ph : Z) (s : Rt) : res Rt :=
  if IsGood s then
    cur ← deref (current_ (tree s));
    n ← node (tree s) cur;
    Ok (with_failed ph (seq_end_ n) s)
  else Ok s.

Definition SetHealthy (s : Rt) : res Rt :=
  cur ← deref (current_ (tree s));
  t ← FinishRecovery cur (tree s);
  Ok (with_tree t (with_failed HEALTHY HEALTHY s)).

(** [CompletePhase]. *)
Definition CompletePhase (is_reexec : bool) (s : Rt) : res Rt :=
  cur ← deref (current_ (tree s));
  n ← node (tree s) cur;
  let t := IncSeqID cur (IsGood s && negb is_reexec) (tree s) in
  t ← (if IsFailed s then
         _ ← cassert (0 <=? failed_phase s);
         Ok (touch cur (set_state kReexecution) t)
       else Ok t);
  Ok (with_tree (set_current (parent_ n) t) s).

(** [UnsetBegin], with its assertion. *)
Definition UnsetBegin (h : Z) (s : Rt) : res Rt :=
  c ← obj s h;
  _ ← cassert (begin_ c);
  Ok (update h (with_begin false c) s).

(** [CD::GetCDToRecover], not collective.  At the level of the rollback point
    the code reads the rollback point again, in case a sibling has lowered it;
    one task reads the same value. *)
Fixpoint GetCDToRecover (fuel : nat) (target : Z) (s : Rt) : res (Z * Rt) :=
  match fuel with
  | O => Err OutOfFuel
  | S fuel =>
      c ← obj s target;
      cur ← deref (current_ (tree s));
      let rollback_lv := CheckRollbackPoint s in
      let s := with_tree (ResetSeqID cur rollback_lv (tree s)) s in
      if level c =? rollback_lv then
        let s := SetRollbackPoint (CheckRollbackPoint s) s in
        let s := update target (with_reported false c) s in
        s ← CompletePhase true s;
        s ← UnsetBegin target s;
        Ok (target, s)
      else if (rollback_lv <? level c) && negb (rollback_lv =? INVALID_ROLLBACK_POINT) then
        let s := SetRollbackPoint (CheckRollbackPoint s) s in
        let s := update target (with_prv (DeleteEntryDirectory (prv c)) c) s in
        s ← CompletePhase true s;
        s ← UnsetBegin target s;
        s ← Destroy s;
        next_cdh ← GetCDLevel s (level c - 1);
        GetCDToRecover fuel next_cdh s
      else Err AssertFail
  end.

(** [CD::Recover], [RecoverObject::Recover] and [CD::InternalReexecute], up to
    the longjmp. *)
Definition Recover (h : Z) (s : Rt) : res Rt :=
  c ← obj s h;
  n ← node (tree s) (phase c);
  x ← Preserve.Recover (mkPlace (label c) (level c) (seq_end_ n) (failed_seqID s)) (prv c);
  Ok (with_just true (update h (with_reex (num_reexecution_ c + 1) (with_prv x c)) s)).

(** ** Complete *)

Inductive outcome := Completed | Jump (h : Z).

(** Begin of a recovery in [CD::Complete]. *)
Definition Rollback (c : Dom) (s : Rt) : res (outcome * Rt) :=
  s ← SetFailure (phase c) s;
  leaf ← GetCurrentCD s;
  leaf ← deref leaf;
  '(h, s) ← GetCDToRecover (S (length (uniquePath s))) leaf s;
  s ← Recover h s;
  Ok (Jump h, s).

(** The check for the failure point when no error occurred. *)
Definition CheckRecovered (c : Dom) (s : Rt) : res Rt :=
  cur ← deref (current_ (tree s));
  n ← node (tree s) cur;
  if IsFailed s && (failed_phase s =? phase c) then
    if failed_seqID s =? seq_end_ n then SetHealthy s
    else if seq_end_ n <? failed_seqID s then Ok s
    else Err AssertFail
  else Ok s.

(** [CDHandle::Complete] and [CD::Complete]. *)
Definition Complete (h : Z) (s : Rt) : res (outcome * Rt) :=
  cdh ← GetCurrentCD s;
  cdh ← deref cdh;
  _ ← cassert (cdh =? h);
  c ← obj s h;
  _ ← node (tree s) (phase c);
  let new_rollback_point := CheckRollbackPoint s in
  let s := SetRollbackPoint new_rollback_point s in
  if new_rollback_point <=? level c then Rollback c s else
  s ← CheckRecovered c s;
  let c := with_prv (Complete_prv (prv c)) (with_seqid (u32 (sequential_id c + 1)) (with_reported false c)) in
  let s := update h c s in
  s ← CompletePhase false s;
  s ← UnsetBegin h s;
  Ok (Completed, s).
