(* ===== verification/Phases.v ===== *)
(** * Phases have unique paths

    [PhaseTree] looks a phase up by a string, the labels on the way to it
    joined by underscores, and two phases can have the same string: c in b, and
    b_c.  Where the string of a label is that of a child of the current phase, or
    of no phase ([key_ok]), BeginPhase finds the child with that label, or adds
    it; labels without underscores are always of this kind ([plain_key_ok]).  The
    file holds the invariant of the tree, its preservation by every operation, and
    the specifications of the operations. *)

From Stdlib Require Import ZArith Lia String Ascii.
From stdpp Require Import base gmap list numbers strings.
From S2P Require Import Prelude CdLog PhaseTree.

#[local] Open Scope Z_scope.

(** ** Joining labels *)

Fixpoint plain (s : string) : bool :=
  match s with EmptyString => true | String a s => negb (Ascii.eqb a "_"%char) && plain s end.

Fixpoint joined (ls : list string) : string :=
  match ls with [] => ""%string | l :: ls => "_"%string +:+ l +:+ joined ls end.

(** The key of a phase with label [l] below the phase with labels [ls]; the
    root's label [r] is not part of the keys of its children. *)
Definition keyof (r : string) (ls : list string) (l : string) : string :=
  match ls with [] => l | _ => r +:+ joined (ls ++ [l]) end.

Lemma append_inj r x y : r +:+ x = r +:+ y → x = y.
Proof. induction r as [|a r IH]; [done|]. intros H. apply IH. by injection H. Qed.

Lemma append_assoc x y z : (x +:+ y) +:+ z = x +:+ (y +:+ z).
Proof. induction x as [|a x IH]; [done|]. change (String a ((x +:+ y) +:+ z) = String a (x +:+ (y +:+ z))). by rewrite IH. Qed.

Lemma append_nil x : x +:+ ""%string = x.
Proof. induction x as [|a x IH]; [done|]. change (String a (x +:+ ""%string) = String a x). by rewrite IH. Qed.

Lemma joined_app ls ls' : joined (ls ++ ls') = joined ls +:+ joined ls'.
Proof.
  induction ls as [|l ls IH]; [done|]. change (("_"%string +:+ l +:+ joined (ls ++ ls')) = ("_"%string +:+ l +:+ joined ls) +:+ joined ls').
  by rewrite IH, !append_assoc.
Qed.

Lemma plain_append_joined l l' ls ls' :
  plain l → plain l' → l +:+ joined ls = l' +:+ joined ls' → l = l' ∧ joined ls = joined ls'.
Proof.
  revert l'. induction l as [|a l IH]; intros [|a' l'] Hl Hl' He; simpl in *.
  - done.
  - destruct ls as [|x ls]; simpl in He; [done|]. injection He as <- _.
    by destruct l'.
  - destruct ls' as [|x ls']; simpl in He; [done|]. injection He as -> _. done.
  - injection He as <- He. apply andb_prop_elim in Hl as [_ Hl]. apply andb_prop_elim in Hl' as [_ Hl'].
    destruct (IH l' Hl Hl' He) as [-> ?]. done.
Qed.

Lemma joined_inj ls ls' :
  Forall (λ l, plain l) ls → Forall (λ l, plain l) ls' → joined ls = joined ls' → ls = ls'.
Proof.
  intros Hls. revert ls'. induction Hls as [|l ls Hl Hls IH]; intros [|l' ls'] Hls' He; try done.
  apply Forall_cons_1 in Hls' as [Hl' Hls'].
  change (String "_"%char (l +:+ joined ls) = String "_"%char (l' +:+ joined ls')) in He. injection He as He.
  apply plain_append_joined in He as [-> He]; [|done|done]. by rewrite (IH ls').
Qed.

Lemma plain_no_joined l r ls : plain l → ls ≠ [] → l ≠ r +:+ joined ls.
Proof.
  intros Hl Hls ->. destruct ls as [|x ls]; [done|].
  induction r as [|a r IH]; simpl in Hl; [done|].
  apply andb_prop_elim in Hl as [_ Hl]. auto.
Qed.

Lemma keyof_inj r ls ls' l l' :
  Forall (λ l, plain l) ls → Forall (λ l, plain l) ls' → plain l → plain l' →
  keyof r ls l = keyof r ls' l' → ls = ls' ∧ l = l'.
Proof.
  intros Hls Hls' Hl Hl' He. unfold keyof in He.
  destruct ls as [|x ls], ls' as [|x' ls'].
  - done.
  - by apply plain_no_joined in He.
  - symmetry in He. by apply plain_no_joined in He.
  - apply append_inj, joined_inj in He.
    + apply app_inj_tail in He as [??]. done.
    + apply Forall_app; auto.
    + apply Forall_app; auto.
Qed.

(** Below one phase the keys differ as the labels do. *)
Lemma keyof_same r ls l l' : keyof r ls l = keyof r ls l' → l = l'.
Proof.
  unfold keyof. destruct ls as [|x ls]; [done|]. rewrite !joined_app. intros H%append_inj%append_inj.
  change (String "_"%char (l +:+ ""%string) = String "_"%char (l' +:+ ""%string)) in H. rewrite !append_nil in H. by injection H.
Qed.

(** ** The invariant of the tree *)

(** The labels from below the root to a node. *)
Inductive labels (t : PhaseTree) : Z → list string → Prop :=
  | labels_root p n : phaseNodeCache t !! p = Some n → parent_ n = None → labels t p []
  | labels_child p n q ls :
      phaseNodeCache t !! p = Some n → parent_ n = Some q → labels t q ls → labels t p (ls ++ [label_ n]).

Definition root_label (t : PhaseTree) : option string :=
  r ← root_ t; n ← phaseNodeCache t !! r; Some (label_ n).

(** The path looked up for label [l] below [q] is of a child of [q], or new. *)
Definition key_ok (t : PhaseTree) (q : Z) (l : string) : bool :=
  match GetPhasePathOf t q l with
  | Ok k =>
      match phasePath t !! k with
      | Some p => match phaseNodeCache t !! p with Some n => bool_decide (parent_ n = Some q) | None => false end
      | None => true
      end
  | Err _ => false
  end.

Record tree_wf (t : PhaseTree) : Prop := {
  tw_gen : 0 ≤ phase_gen t;
  tw_dom p n : phaseNodeCache t !! p = Some n → 0 ≤ p < phase_gen t;
  tw_parent p n q : phaseNodeCache t !! p = Some n → parent_ n = Some q →
    q < p ∧ ∃ m, phaseNodeCache t !! q = Some m ∧ level_ n = level_ m + 1;
  tw_root p n : phaseNodeCache t !! p = Some n → parent_ n = None → root_ t = Some p ∧ level_ n = 0;
  tw_rootn p : root_ t = Some p → ∃ n, phaseNodeCache t !! p = Some n ∧ parent_ n = None;
  tw_child q m c : phaseNodeCache t !! q = Some m → c ∈ children_ m → q < c ∧ is_Some (phaseNodeCache t !! c);
  tw_left p n l : phaseNodeCache t !! p = Some n → left_ n = Some l → is_Some (phaseNodeCache t !! l);
  tw_first p n : phaseNodeCache t !! p = Some n → left_ n = None → seq_begin_ n = 0;
  tw_path k p : phasePath t !! k = Some p ↔
    ∃ ls l r, labels t p (ls ++ [l]) ∧ root_label t = Some r ∧ k = keyof r ls l;
  tw_current p : current_ t = Some p → is_Some (phaseNodeCache t !! p);
}.

Lemma empty_tree_wf : tree_wf empty_tree.
Proof.
  split; simpl; try done.
  - intros k p. split; [done|]. intros (ls & l & r & _ & [=] & _).
Qed.

(** ** Labels *)

Lemma node_Some t p n : phaseNodeCache t !! p = Some n → node t p = Ok n.
Proof. unfold node. by intros ->. Qed.

Lemma node_Ok t p n : node t p = Ok n ↔ phaseNodeCache t !! p = Some n.
Proof. unfold node. destruct (phaseNodeCache t !! p); simpl; split; congruence. Qed.

Lemma deref_Ok {A} (o : option A) x : deref o = Ok x ↔ o = Some x.
Proof. destruct o; simpl; split; congruence. Qed.

Lemma labels_fun t p ls ls' : labels t p ls → labels t p ls' → ls = ls'.
Proof.
  intros H. revert ls'. induction H as [p n Hp Hn|p n q ls Hp Hn H IH]; intros ls' H'.
  - inversion H'; simplify_eq; done.
  - inversion H' as [|p' n' q' ls1 Hp' Hn' H1]; simplify_eq. by rewrite (IH ls1).
Qed.

Lemma labels_mono t t' p ls :
  (∀ p n, phaseNodeCache t !! p = Some n → ∃ n', phaseNodeCache t' !! p = Some n' ∧
     parent_ n' = parent_ n ∧ label_ n' = label_ n) →
  labels t p ls → labels t' p ls.
Proof.
  intros Hm. induction 1 as [p n Hp Hn|p n q ls Hp Hn H IH].
  - destruct (Hm p n Hp) as (n' & Hp' & ? & ?). apply (labels_root t' p n'); congruence.
  - destruct (Hm p n Hp) as (n' & Hp' & Hq & Hl). rewrite <-Hl. apply (labels_child t' p n' q); congruence.
Qed.

Section labels.
Context (t : PhaseTree) (Hwf : tree_wf t).

Lemma labels_exist p n :
  phaseNodeCache t !! p = Some n → ∃ ls, labels t p ls ∧ Z.of_nat (length ls) = level_ n.
Proof.
  assert (∀ k p n, p < Z.of_nat k → phaseNodeCache t !! p = Some n →
    ∃ ls, labels t p ls ∧ Z.of_nat (length ls) = level_ n) as Hk.
  2:{ intros Hp. pose proof (tw_dom t Hwf p n Hp). apply (Hk (S (Z.to_nat p)) p n); [lia|done]. }
  induction k as [|k IH]; intros q m Hq Hm.
  - apply (tw_dom t Hwf) in Hm. lia.
  - destruct (parent_ m) as [a|] eqn:Ha.
    + destruct (tw_parent t Hwf q m a Hm Ha) as (Hlt & b & Hb & Hlv).
      destruct (IH a b) as (ls & Hls & Hlen); [lia|done|].
      exists (ls ++ [label_ m]). split; [by apply (labels_child t q m a)|]. rewrite length_app. simpl. lia.
    + exists []. destruct (tw_root t Hwf q m Hm Ha) as [_ Hlv].
      split; [by apply (labels_root t q m)|]. simpl. lia.
Qed.

Lemma root_label_Some p n : phaseNodeCache t !! p = Some n → parent_ n = None → root_label t = Some (label_ n).
Proof.
  intros Hp Hn. destruct (tw_root t Hwf p n Hp Hn) as [Hr _]. unfold root_label. rewrite Hr. simpl.
  by rewrite Hp.
Qed.

Lemma labels_root_label p ls : labels t p ls → ∃ r, root_label t = Some r.
Proof.
  induction 1 as [p n Hp Hn|]; [|done]. exists (label_ n). by apply (root_label_Some p).
Qed.

Lemma labels_inj p p' ls : labels t p ls → labels t p' ls → p = p'.
Proof.
  intros H. destruct (labels_root_label p ls H) as [r Hr].
  destruct ls as [|l ls _] using rev_ind.
  - intros H'. inversion H as [? n Hp Hn|? n q ls' Hp Hn _ Hp0 Hls]; [|by destruct ls'].
    inversion H' as [? n' Hp' Hn'|? n' q' ls' Hp' Hn' _ Hp0 Hls]; [|by destruct ls'].
    destruct (tw_root t Hwf p n Hp Hn) as [G1 _]. destruct (tw_root t Hwf p' n' Hp' Hn') as [G2 _].
    congruence.
  - intros H'.
    assert (phasePath t !! keyof r ls l = Some p) as G1 by (apply (tw_path t Hwf); eauto 10).
    assert (phasePath t !! keyof r ls l = Some p') as G2 by (apply (tw_path t Hwf); eauto 10).
    congruence.
Qed.

Lemma phase_path_labels p ls r fuel :
  labels t p ls → root_label t = Some r → (Z.to_nat p < fuel)%nat → phase_path fuel t p = Ok (r +:+ joined ls).
Proof.
  intros H Hr. revert fuel. induction H as [p n Hp Hn|p n q ls Hp Hn H IH]; intros [|fuel] Hf; try lia; simpl.
  - unfold node. rewrite Hp. simpl. rewrite Hn. rewrite (root_label_Some p n Hp Hn) in Hr.
    injection Hr as <-. by rewrite append_nil.
  - unfold node. rewrite Hp. simpl. rewrite Hn.
    destruct (tw_parent t Hwf p n q Hp Hn) as (Hlt & m & Hm & _). apply (tw_dom t Hwf) in Hm.
    rewrite IH by lia. rewrite ret_bind, joined_app. f_equal. simpl. rewrite append_nil.
    by rewrite append_assoc.
Qed.

Lemma GetPhasePathOf_labels q ls r l :
  labels t q ls → root_label t = Some r → GetPhasePathOf t q l = Ok (keyof r ls l).
Proof.
  intros H Hr. pose proof (phase_path_labels q ls r (S (Z.to_nat q)) H Hr ltac:(lia)) as Hpp.
  unfold GetPhasePathOf, GetPhasePath. rewrite Hpp.
  destruct H as [q n Hq Hn|q n a ls Hq Hn Ha]; rewrite (node_Some t q n Hq), ret_bind, Hn, ?ret_bind; [done|].
  f_equal. unfold keyof. destruct (ls ++ [label_ n]) as [|x k] eqn:Hx; [by destruct ls|].
  rewrite joined_app, !append_assoc. simpl. by rewrite append_nil.
Qed.

(** The path looked up for a label leads to the child with that label. *)
Lemma path_child q ls r l p :
  labels t q ls → root_label t = Some r → key_ok t q l → phasePath t !! keyof r ls l = Some p →
  ∃ n, phaseNodeCache t !! p = Some n ∧ parent_ n = Some q ∧ label_ n = l.
Proof.
  intros Hq Hr Hok Hp. unfold key_ok in Hok. rewrite (GetPhasePathOf_labels q ls r l Hq Hr), Hp in Hok.
  destruct (phaseNodeCache t !! p) as [n|] eqn:Hn; [|done]. apply bool_decide_unpack in Hok as Hpar.
  exists n. split; [done|]. split; [done|]. apply (tw_path t Hwf) in Hp as (ls' & l' & r' & Hlab & Hr' & Hk).
  assert (r' = r) as -> by congruence.
  assert (labels t p (ls ++ [label_ n])) as Hlab' by by apply (labels_child t p n q).
  destruct (app_inj_tail _ _ _ _ (labels_fun t p _ _ Hlab Hlab')) as [-> ->]. by apply keyof_same in Hk.
Qed.

(** Labels without underscores are never taken for another path. *)
Lemma labels_plain p ls :
  (∀ i n q, phaseNodeCache t !! i = Some n → parent_ n = Some q → plain (label_ n)) → labels t p ls → Forall (λ l, plain l) ls.
Proof. intros Hpl. induction 1; [done|]. apply Forall_app. split; [done|]. apply Forall_singleton. by eapply Hpl. Qed.

Lemma plain_key_ok q nq l :
  (∀ i n q, phaseNodeCache t !! i = Some n → parent_ n = Some q → plain (label_ n)) →
  phaseNodeCache t !! q = Some nq → plain l → key_ok t q l.
Proof.
  intros Hpl Hq Hl. destruct (labels_exist q nq Hq) as (ls & Hls & _). destruct (labels_root_label q ls Hls) as [r Hr].
  unfold key_ok. rewrite (GetPhasePathOf_labels q ls r l Hls Hr). destruct (phasePath t !! keyof r ls l) as [p|] eqn:Hp; [|done].
  apply (tw_path t Hwf) in Hp as (ls' & l' & r' & Hlab & Hr' & Hk). assert (r' = r) as -> by congruence.
  pose proof (labels_plain p _ Hpl Hlab) as [Hpls Hpl']%Forall_app. apply Forall_cons_1 in Hpl' as [Hpl' _].
  destruct (keyof_inj r ls ls' l l') as [<- <-]; [by apply (labels_plain q)|done..|].
  inversion Hlab as [? n Hn Hpar Hp0 Hls0|? n q' ls' Hn Hpar Hq' Hp0 Hls0]; [by destruct ls|].
  apply app_inj_tail in Hls0 as [-> ?]. rewrite Hn. apply bool_decide_pack. by rewrite Hpar, (labels_inj q q' ls).
Qed.
End labels.

(** ** Operations that keep the shape of the tree *)

(** What updates of one node keep. *)
Definition like (n n' : PhaseNode) : Prop :=
  level_ n' = level_ n ∧ parent_ n' = parent_ n ∧ left_ n' = left_ n ∧ children_ n' = children_ n ∧
  label_ n' = label_ n ∧ (left_ n = None → seq_begin_ n = 0 → seq_begin_ n' = 0).

Definition same_shape (t t' : PhaseTree) : Prop :=
  root_ t' = root_ t ∧ phasePath t' = phasePath t ∧ phase_gen t' = phase_gen t ∧
  (∀ p, option_Forall2 like (phaseNodeCache t !! p) (phaseNodeCache t' !! p)).

#[export] Instance like_refl : Reflexive like.
Proof. by intros n. Qed.
#[export] Instance like_trans : Transitive like.
Proof. intros n1 n2 n3 (?&?&?&?&?&G1) (?&?&?&?&?&G2). repeat split; try congruence. intros. apply G2; [congruence|auto]. Qed.

#[export] Instance same_shape_refl : Reflexive same_shape.
Proof. intros t. repeat split. intros p. destruct (phaseNodeCache t !! p); by constructor. Qed.
#[export] Instance same_shape_trans : Transitive same_shape.
Proof.
  intros t1 t2 t3 (?&?&?&G1) (?&?&?&G2). repeat split; try congruence. intros p.
  specialize (G1 p). specialize (G2 p). inversion G1; inversion G2; try congruence; constructor.
  etrans; [done|]. congruence.
Qed.

Lemma same_shape_lookup t t' p n :
  same_shape t t' → phaseNodeCache t !! p = Some n → ∃ n', phaseNodeCache t' !! p = Some n' ∧ like n n'.
Proof. intros (_&_&_&H) Hp. specialize (H p). rewrite Hp in H. inversion H; eauto. Qed.

Lemma same_shape_lookup_r t t' p n' :
  same_shape t t' → phaseNodeCache t' !! p = Some n' → ∃ n, phaseNodeCache t !! p = Some n ∧ like n n'.
Proof. intros (_&_&_&H) Hp. specialize (H p). rewrite Hp in H. inversion H; eauto. Qed.

Lemma same_shape_labels t t' p ls : same_shape t t' → labels t p ls ↔ labels t' p ls.
Proof.
  intros Hs. split; apply labels_mono; intros q n Hq.
  - destruct (same_shape_lookup t t' q n Hs Hq) as (n' & ? & ?&?&?&?&?&?). eauto.
  - destruct (same_shape_lookup_r t t' q n Hs Hq) as (n' & ? & ?&?&?&?&?&?). eauto.
Qed.

Lemma same_shape_root_label t t' : same_shape t t' → root_label t' = root_label t.
Proof.
  intros (Hr&_&_&H). unfold root_label. rewrite Hr. destruct (root_ t) as [r|]; [|done]. simpl.
  specialize (H r). inversion H as [n n' (?&?&?&?&Hl&?)|]; simpl; congruence.
Qed.

Lemma same_shape_wf t t' :
  same_shape t t' → (∀ p, current_ t' = Some p → is_Some (phaseNodeCache t' !! p)) → tree_wf t → tree_wf t'.
Proof.
  intros Hs Hcur Hwf. pose proof Hs as (Hroot & Hpath & Hgen & _).
  assert (∀ p, is_Some (phaseNodeCache t !! p) → is_Some (phaseNodeCache t' !! p)) as HS.
  { intros p [n Hn]. destruct (same_shape_lookup t t' p n Hs Hn) as (? & ? & _). eauto. }
  split.
  - rewrite Hgen. apply (tw_gen t Hwf).
  - intros p n' Hp. rewrite Hgen. destruct (same_shape_lookup_r t t' p n' Hs Hp) as (n & Hn & _).
    by apply (tw_dom t Hwf p n).
  - intros p n' q Hp Hq. destruct (same_shape_lookup_r t t' p n' Hs Hp) as (n & Hn & Hlv & Hpar & _ & _ & Hl & _).
    rewrite Hpar in Hq. destruct (tw_parent t Hwf p n q Hn Hq) as (? & m & Hm & ?).
    destruct (same_shape_lookup t t' q m Hs Hm) as (m' & Hm' & Hlm & _).
    split; [done|]. exists m'. split; [done|]. lia.
  - intros p n' Hp Hq. destruct (same_shape_lookup_r t t' p n' Hs Hp) as (n & Hn & Hlv & Hpar & _).
    rewrite Hpar in Hq. rewrite Hroot, Hlv. by apply (tw_root t Hwf p n).
  - intros p Hp. rewrite Hroot in Hp. destruct (tw_rootn t Hwf p Hp) as (n & Hn & Hq).
    destruct (same_shape_lookup t t' p n Hs Hn) as (n' & ? & _ & ? & _). exists n'. split; [done|congruence].
  - intros q m' c Hm Hc. destruct (same_shape_lookup_r t t' q m' Hs Hm) as (m & Hm0 & _ & _ & _ & Hch & _).
    rewrite Hch in Hc. destruct (tw_child t Hwf q m c Hm0 Hc). auto.
  - intros p n' l Hp Hl. destruct (same_shape_lookup_r t t' p n' Hs Hp) as (n & Hn & _ & _ & Hleft & _).
    rewrite Hleft in Hl. apply HS. by apply (tw_left t Hwf p n l).
  - intros p n' Hp Hl. destruct (same_shape_lookup_r t t' p n' Hs Hp) as (n & Hn & _ & _ & Hleft & _ & _ & Hb).
    rewrite Hleft in Hl. apply Hb; [done|]. by apply (tw_first t Hwf p n).
  - intros k p. rewrite Hpath, (tw_path t Hwf k p), (same_shape_root_label t t' Hs).
    by setoid_rewrite (same_shape_labels t t' p _ Hs).
  - done.
Qed.

Lemma touch_shape p f t : (∀ n, phaseNodeCache t !! p = Some n → like n (f n)) → same_shape t (touch p f t).
Proof.
  intros Hf. repeat split. intros q. simpl. destruct (decide (q = p)) as [->|Hne].
  - rewrite lookup_alter_eq. destruct (phaseNodeCache t !! p) as [n|] eqn:Hn; constructor. by apply Hf.
  - rewrite lookup_alter_ne by done. destruct (phaseNodeCache t !! q); by constructor.
Qed.

Lemma set_current_shape c t : same_shape t (set_current c t).
Proof. repeat split. intros p. simpl. destruct (phaseNodeCache t !! p); by constructor. Qed.

Lemma touch_wf p f t : (∀ n, phaseNodeCache t !! p = Some n → like n (f n)) → tree_wf t → tree_wf (touch p f t).
Proof.
  intros Hf Hwf. pose proof (touch_shape p f t Hf) as Hs. apply (same_shape_wf t); [done| |done].
  intros q Hq. destruct (tw_current t Hwf q Hq) as [n Hn].
  destruct (same_shape_lookup t _ q n Hs Hn) as (? & ? & _). eauto.
Qed.

Lemma set_current_wf c t :
  (∀ p, c = Some p → is_Some (phaseNodeCache t !! p)) → tree_wf t → tree_wf (set_current c t).
Proof. intros Hc. apply same_shape_wf; [apply set_current_shape|done]. Qed.

(** ** New phases *)

(** What creating the phase [p] below [q] does to the other nodes. *)
Definition grown (q p i : Z) (n n' : PhaseNode) : Prop :=
  level_ n' = level_ n ∧ seq_begin_ n' = seq_begin_ n ∧ seq_end_ n' = seq_end_ n ∧ state_ n' = state_ n ∧
  parent_ n' = parent_ n ∧ left_ n' = left_ n ∧ label_ n' = label_ n ∧
  children_ n' = children_ n ++ (if decide (i = q) then [p] else []).

(** [t'] is [t] with a new phase below [q]; paths are entered by the caller. *)
Record added (t : PhaseTree) (q lv : Z) (l : string) (st : CDExecMode) (t' : PhaseTree) : Prop := {
  ad_root : root_ t' = root_ t;
  ad_current : current_ t' = current_ t;
  ad_path : phasePath t' = phasePath t;
  ad_gen : phase_gen t' = phase_gen t + 1;
  ad_new : ∃ left seq, (∀ x, left = Some x → is_Some (phaseNodeCache t !! x)) ∧ (left = None → seq = 0) ∧
    phaseNodeCache t' !! phase_gen t = Some (mkNode lv seq seq 0 0 0 st (Some q) left None [] l);
  ad_old i : i ≠ phase_gen t →
    option_Forall2 (grown q (phase_gen t) i) (phaseNodeCache t !! i) (phaseNodeCache t' !! i);
}.

Lemma grown_nil q p i n : i ≠ q → grown q p i n n.
Proof. intros. repeat split. rewrite decide_False by done. by rewrite app_nil_r. Qed.

Lemma PhaseNode_new_added t q nq lv l st :
  tree_wf t → phaseNodeCache t !! q = Some nq →
  ∃ t', PhaseNode_new (Some q) lv l st t = Ok (phase_gen t, t') ∧ added t q lv l st t'.
Proof.
  intros Hwf Hq. pose proof (tw_dom t Hwf q nq Hq) as Hgen.
  unfold PhaseNode_new. rewrite (node_Some t q nq Hq), ret_bind.
  destruct (last (children_ nq)) as [prev|] eqn:Hlast.
  - assert (prev ∈ children_ nq) as Hin.
    { apply last_Some in Hlast as [k ->]. apply elem_of_app. right. by left. }
    destruct (tw_child t Hwf q nq prev Hq Hin) as [Hlt [np Hnp]]. pose proof (tw_dom t Hwf prev np Hnp).
    rewrite (node_Some t prev np Hnp), ret_bind. eexists. split; [reflexivity|].
    split; simpl; [done..| |].
    + exists (Some prev), (u32 (seq_end_ np)). rewrite lookup_insert_eq. repeat split; [|done].
      intros x [= <-]. eauto.
    + intros i Hi. rewrite lookup_insert_ne by done. destruct (decide (i = q)) as [->|Hne].
      * rewrite lookup_alter_eq, lookup_alter_ne by lia. rewrite Hq. constructor. repeat split. simpl.
        by rewrite decide_True.
      * rewrite lookup_alter_ne by done. destruct (decide (i = prev)) as [->|Hnp'].
        -- rewrite lookup_alter_eq, Hnp. constructor. repeat split. simpl. rewrite decide_False by done.
           by rewrite app_nil_r.
        -- rewrite lookup_alter_ne by done. destruct (phaseNodeCache t !! i); constructor. by apply grown_nil.
  - eexists. split; [reflexivity|]. split; simpl; [done..| |].
    + exists None, 0. rewrite lookup_insert_eq. by repeat split.
    + intros i Hi. rewrite lookup_insert_ne by done. destruct (decide (i = q)) as [->|Hne].
      * rewrite lookup_alter_eq, Hq. constructor. repeat split. simpl. by rewrite decide_True.
      * rewrite lookup_alter_ne by done. destruct (phaseNodeCache t !! i); constructor. by apply grown_nil.
Qed.

Section added.
Context (t t' : PhaseTree) (q lv : Z) (l : string) (st : CDExecMode).
Context (Hwf : tree_wf t) (nq : PhaseNode) (Hq : phaseNodeCache t !! q = Some nq) (Had : added t q lv l st t').

Lemma added_lookup p n :
  phaseNodeCache t !! p = Some n → ∃ n', phaseNodeCache t' !! p = Some n' ∧ grown q (phase_gen t) p n n'.
Proof.
  intros Hp. pose proof (tw_dom t Hwf p n Hp).
  pose proof (ad_old _ _ _ _ _ _ Had p ltac:(lia)) as Ho. rewrite Hp in Ho. inversion Ho; eauto.
Qed.

Lemma added_lookup_r p n' :
  phaseNodeCache t' !! p = Some n' →
  (p = phase_gen t ∧ parent_ n' = Some q ∧ label_ n' = l ∧ level_ n' = lv) ∨
  (p ≠ phase_gen t ∧ ∃ n, phaseNodeCache t !! p = Some n ∧ grown q (phase_gen t) p n n').
Proof.
  intros Hp. destruct (decide (p = phase_gen t)) as [->|Hne].
  - left. destruct (ad_new _ _ _ _ _ _ Had) as (left & seq & _ & _ & Hn). rewrite Hn in Hp. by injection Hp as <-.
  - right. split; [done|]. pose proof (ad_old _ _ _ _ _ _ Had p Hne) as Ho. rewrite Hp in Ho. inversion Ho; eauto.
Qed.

Lemma added_old_labels p ls : labels t p ls → labels t' p ls.
Proof.
  apply labels_mono. intros a n Ha. destruct (added_lookup a n Ha) as (n' & ? & ?&?&?&?&?&?&?&?). eauto.
Qed.

Lemma added_new_labels ls : labels t q ls → labels t' (phase_gen t) (ls ++ [l]).
Proof.
  intros Hls. destruct (ad_new _ _ _ _ _ _ Had) as (left & seq & _ & _ & Hn).
  eapply (labels_child t' _ _ q) in Hn; [|done|by apply added_old_labels]. done.
Qed.

Lemma added_labels_inv p ls :
  labels t' p ls → (p = phase_gen t ∧ ∃ ls', ls = ls' ++ [l] ∧ labels t q ls') ∨ labels t p ls.
Proof.
  intros H. assert (∃ n, phaseNodeCache t' !! p = Some n) as [n Hn] by (inversion H; eauto).
  destruct (added_lookup_r p n Hn) as [(-> & _)|(_ & n0 & Hn0 & _)].
  - left. split; [done|]. destruct (labels_exist t Hwf q nq Hq) as (ls' & Hls' & _).
    exists ls'. split; [|done]. eapply labels_fun; [done|]. by apply added_new_labels.
  - right. destruct (labels_exist t Hwf p n0 Hn0) as (ls' & Hls' & _).
    by rewrite (labels_fun t' p ls ls' H (added_old_labels p ls' Hls')).
Qed.

Lemma added_root_label : root_label t' = root_label t.
Proof.
  unfold root_label. rewrite (ad_root _ _ _ _ _ _ Had). destruct (root_ t) as [r|] eqn:Hr; [|done]. simpl.
  destruct (tw_rootn t Hwf r Hr) as (n & Hn & _). rewrite Hn.
  destruct (added_lookup r n Hn) as (n' & -> & ?&?&?&?&?&?&Hl&?). simpl. by rewrite Hl.
Qed.

Lemma added_path ls r k p :
  labels t q ls → root_label t = Some r → phasePath t !! keyof r ls l = None →
  <[keyof r ls l := phase_gen t]> (phasePath t') !! k = Some p ↔
  ∃ ls' l' r', labels t' p (ls' ++ [l']) ∧ root_label t' = Some r' ∧ k = keyof r' ls' l'.
Proof.
  intros Hls Hr Hfresh. rewrite (ad_path _ _ _ _ _ _ Had), added_root_label, Hr. split.
  - destruct (decide (k = keyof r ls l)) as [->|Hne].
    + rewrite lookup_insert_eq. intros [= <-]. exists ls, l, r. split; [by apply added_new_labels|done].
    + rewrite lookup_insert_ne by done. intros Hk.
      apply (tw_path t Hwf) in Hk as (ls' & l' & r' & Hlab & Hr' & ->).
      exists ls', l', r'. split; [by apply added_old_labels|]. split; congruence.
  - intros (ls' & l' & r' & Hlab & [= <-] & ->).
    apply added_labels_inv in Hlab as [(-> & ls1 & He & Hlab)|Hlab].
    + apply app_inj_tail in He as [-> ->]. rewrite (labels_fun t q ls1 ls Hlab Hls). by rewrite lookup_insert_eq.
    + assert (phasePath t !! keyof r ls' l' = Some p) as Hp by (apply (tw_path t Hwf); eauto 10).
      rewrite lookup_insert_ne; [done|]. intros He. rewrite He in Hfresh. congruence.
Qed.

Lemma added_parent p n a :
  lv = level_ nq + 1 → phaseNodeCache t' !! p = Some n → parent_ n = Some a →
  a < p ∧ ∃ m, phaseNodeCache t' !! a = Some m ∧ level_ n = level_ m + 1.
Proof.
  intros Hlv Hp Ha. pose proof (tw_dom t Hwf q nq Hq).
  destruct (added_lookup_r p n Hp) as [(-> & Hpar & Hlab & Hlev)|(_ & n0 & Hn0 & Hgr)].
  - rewrite Hpar in Ha. injection Ha as <-. split; [lia|].
    destruct (added_lookup q nq Hq) as (nq' & Hq' & Hlvq & _). exists nq'. split; [done|]. lia.
  - destruct Hgr as (Hlev & _ & _ & _ & Hpar & _ & Hlab & _). rewrite Hpar in Ha.
    destruct (tw_parent t Hwf p n0 a Hn0 Ha) as (? & m & Hm & ?).
    destruct (added_lookup a m Hm) as (m' & Hm' & Hlm & _). split; [done|].
    exists m'. split; [done|]. lia.
Qed.

Lemma added_child a m c :
  phaseNodeCache t' !! a = Some m → c ∈ children_ m → a < c ∧ is_Some (phaseNodeCache t' !! c).
Proof.
  intros Ha Hc. pose proof (tw_dom t Hwf q nq Hq).
  destruct (ad_new _ _ _ _ _ _ Had) as (left & seq & _ & _ & Hnew).
  destruct (added_lookup_r a m Ha) as [(-> & _)|(_ & n0 & Hn0 & Hgr)].
  { rewrite Hnew in Ha. injection Ha as <-. by apply not_elem_of_nil in Hc. }
  destruct Hgr as (_ & _ & _ & _ & _ & _ & _ & Hch). rewrite Hch in Hc. apply elem_of_app in Hc as [Hc|Hc].
  - destruct (tw_child t Hwf a n0 c Hn0 Hc) as [? [x Hx]]. split; [done|].
    destruct (added_lookup c x Hx) as (? & ? & _). eauto.
  - case_decide as Haq; [|by apply not_elem_of_nil in Hc]. apply list_elem_of_singleton in Hc as ->. subst a.
    split; [lia|]. eauto.
Qed.

Lemma added_left p n x : phaseNodeCache t' !! p = Some n → left_ n = Some x → is_Some (phaseNodeCache t' !! x).
Proof.
  intros Hp Hx. destruct (ad_new _ _ _ _ _ _ Had) as (left & seq & Hleft & _ & Hnew).
  assert (is_Some (phaseNodeCache t !! x)) as [y Hy].
  { destruct (added_lookup_r p n Hp) as [(-> & _)|(_ & n0 & Hn0 & _ & _ & _ & _ & _ & Hlf & _)].
    - rewrite Hnew in Hp. injection Hp as <-. by apply Hleft.
    - apply (tw_left t Hwf p n0); congruence. }
  destruct (added_lookup x y Hy) as (? & ? & _). eauto.
Qed.

Lemma added_first p n : phaseNodeCache t' !! p = Some n → left_ n = None → seq_begin_ n = 0.
Proof.
  intros Hp Hx. destruct (ad_new _ _ _ _ _ _ Had) as (left & seq & _ & Hseq & Hnew).
  destruct (added_lookup_r p n Hp) as [(-> & _)|(_ & n0 & Hn0 & _ & Hb & _ & _ & _ & Hlf & _)].
  - rewrite Hnew in Hp. injection Hp as <-. by apply Hseq.
  - rewrite Hb. apply (tw_first t Hwf p n0); congruence.
Qed.

(** A new phase with a new path keeps the invariant. *)
Lemma added_wf ls r :
  labels t q ls → root_label t = Some r → lv = level_ nq + 1 →
  phasePath t !! keyof r ls l = None →
  tree_wf (set_current (Some (phase_gen t)) (enter_path (keyof r ls l) (phase_gen t) t')).
Proof.
  intros Hls Hr Hlv Hfresh. pose proof (tw_gen t Hwf) as Hg.
  destruct (ad_new _ _ _ _ _ _ Had) as (left & seq & _ & _ & Hnew).
  assert (∀ p ls', labels t' p ls' ↔
    labels (set_current (Some (phase_gen t)) (enter_path (keyof r ls l) (phase_gen t) t')) p ls') as Hlab.
  { intros p ls'. split; apply labels_mono; simpl; eauto. }
  split; simpl.
  - rewrite (ad_gen _ _ _ _ _ _ Had). lia.
  - intros p n Hp. rewrite (ad_gen _ _ _ _ _ _ Had).
    destruct (added_lookup_r p n Hp) as [(-> & _)|(_ & n0 & Hn0 & _)]; [lia|].
    apply (tw_dom t Hwf) in Hn0. lia.
  - intros p n a. by apply added_parent.
  - intros p n Hp Ha. destruct (added_lookup_r p n Hp) as [(-> & Hpar & _)|(_ & n0 & Hn0 & Hgr)]; [congruence|].
    destruct Hgr as (Hlev & _ & _ & _ & Hpar & _). rewrite Hlev, (ad_root _ _ _ _ _ _ Had).
    apply (tw_root t Hwf p n0); congruence.
  - intros p Hp. rewrite (ad_root _ _ _ _ _ _ Had) in Hp. destruct (tw_rootn t Hwf p Hp) as (n & Hn & Hpar).
    destruct (added_lookup p n Hn) as (n' & ? & _ & _ & _ & _ & ? & _). exists n'. split; [done|congruence].
  - apply added_child.
  - apply added_left.
  - apply added_first.
  - intros k p. rewrite (added_path ls r k p Hls Hr Hfresh). by setoid_rewrite Hlab.
  - intros p [= <-]. eauto.
Qed.
End added.

(** ** Beginning a phase *)

(** What an operation keeps of the nodes there are; a phase executed again
    stays so. *)
Definition kept (t t' : PhaseTree) : Prop :=
  ∀ p n, phaseNodeCache t !! p = Some n → ∃ n', phaseNodeCache t' !! p = Some n' ∧
    level_ n' = level_ n ∧ seq_begin_ n' = seq_begin_ n ∧ seq_end_ n' = seq_end_ n ∧
    parent_ n' = parent_ n ∧ left_ n' = left_ n ∧ label_ n' = label_ n ∧
    (state_ n = kReexecution → state_ n' = kReexecution).

#[export] Instance kept_refl : Reflexive kept.
Proof. intros t p n Hp. exists n. by repeat split. Qed.
#[export] Instance kept_trans : Transitive kept.
Proof.
  intros t1 t2 t3 G1 G2 p n Hp. destruct (G1 p n Hp) as (n' & Hp' & ?&?&?&?&?&?&?).
  destruct (G2 p n' Hp') as (n'' & Hp'' & ?&?&?&?&?&?&?). exists n''. repeat split; try congruence. auto.
Qed.

Lemma kept_labels t t' p ls : kept t t' → labels t p ls → labels t' p ls.
Proof.
  intros Hk. apply labels_mono. intros q n Hq. destruct (Hk q n Hq) as (n' & ? & ?&?&?&?&?&?&?). eauto.
Qed.

Lemma set_current_kept c t : kept t (set_current c t).
Proof. intros p n Hp. exists n. by repeat split. Qed.

Lemma touch_state_kept p t : kept t (touch p (set_state kReexecution) t).
Proof.
  intros q n Hq. simpl. destruct (decide (q = p)) as [->|Hne].
  - rewrite lookup_alter_eq, Hq. simpl. eexists. split; [done|]. by repeat split.
  - rewrite lookup_alter_ne, Hq by done. exists n. by repeat split.
Qed.

Lemma set_state_like st n : like n (set_state st n).
Proof. by repeat split. Qed.

Lemma added_kept t q lv l st t' : tree_wf t → added t q lv l st t' → kept t t'.
Proof.
  intros Hwf Had p n Hp. destruct (added_lookup t t' q lv l st Hwf Had p n Hp) as (n' & Hp' & ?&?&?&Hst&?&?&?&?).
  exists n'. repeat split; congruence.
Qed.

(** What BeginPhase gives a domain whose parent's phase is [par]. *)
Record begun (t : PhaseTree) (par : option Z) (lv : Z) (t' : PhaseTree) (p : Z) : Prop := {
  bg_wf : tree_wf t';
  bg_current : current_ t' = Some p;
  bg_node : ∃ n, phaseNodeCache t' !! p = Some n ∧ parent_ n = par ∧ level_ n = lv;
  bg_kept : kept t t';
  bg_label r : root_label t = Some r → root_label t' = Some r;
}.

Lemma kept_root_label t t' r : kept t t' → root_ t' = root_ t → root_label t = Some r → root_label t' = Some r.
Proof.
  intros Hk Hroot. unfold root_label. rewrite Hroot. destruct (root_ t) as [a|]; [|done]. simpl.
  destruct (phaseNodeCache t !! a) as [n|] eqn:Hn; [|done]. simpl.
  destruct (Hk a n Hn) as (n' & -> & ?&?&?&?&?&Hl&?). simpl. by rewrite Hl.
Qed.

Lemma BeginPhase_child t q nq l p t' :
  tree_wf t → current_ t = Some q → phaseNodeCache t !! q = Some nq → key_ok t q l →
  BeginPhase (level_ nq + 1) l t = Ok (p, t') →
  begun t (Some q) (level_ nq + 1) t' p ∧ (∃ n, phaseNodeCache t' !! p = Some n ∧ label_ n = l).
Proof.
  intros Hwf Hcur Hq Hl. unfold BeginPhase. rewrite Hcur. unfold GetPhaseNode.
  destruct (labels_exist t Hwf q nq Hq) as (ls & Hls & _).
  destruct (labels_root_label t Hwf q ls Hls) as [r Hr].
  rewrite (GetPhasePathOf_labels t Hwf q ls r l Hls Hr), ret_bind, (node_Some t q nq Hq).
  intros (_ & _ & H)%bind_Ok. rewrite ret_bind in H.
  destruct (phasePath t !! keyof r ls l) as [i|] eqn:Hi.
  - apply bind_Ok in H as (n & _ & H).
    destruct (path_child t Hwf q ls r l i Hls Hr Hl Hi) as (ni & Hni & Hpar & Hlab).
    destruct (tw_parent t Hwf i ni q Hni Hpar) as (_ & m & Hm & Hlv). assert (m = nq) as -> by congruence.
    assert (tree_wf (set_current (Some i) t)) as Hwf'.
    { apply set_current_wf; [|done]. intros x [= <-]. eauto. }
    injection H as <- <-. case_bool_decide.
    + assert (phaseNodeCache (touch i (set_state kReexecution) (set_current (Some i) t)) !! i =
        Some (set_state kReexecution ni)) as Hn' by (simpl; by rewrite lookup_alter_eq, Hni).
      split; [|eauto]. split; [|done|eauto| |].
      * by apply touch_wf; [intros; apply set_state_like|].
      * etrans; [apply set_current_kept|apply touch_state_kept].
      * intros r'. apply kept_root_label; [|done]. etrans; [apply set_current_kept|apply touch_state_kept].
    + split; [|eauto]. split; [done|done|eauto|apply set_current_kept|done].
  - apply bind_Ok in H as (_ & _ & H). rewrite Hcur in H.
    destruct (PhaseNode_new_added t q nq (level_ nq + 1) l (state_ nq) Hwf Hq) as (t1 & Ht1 & Had).
    rewrite Ht1, ret_bind in H. injection H as <- <-.
    pose proof (added_kept t q _ _ _ t1 Hwf Had) as Hk.
    destruct (ad_new _ _ _ _ _ _ Had) as (left & seq & _ & _ & Hnew).
    split; [|eauto]. split; [|done|eauto|done|].
    + by apply (added_wf t t1 q _ l _ Hwf nq Hq Had).
    + intros r'. apply kept_root_label; [done|]. simpl. apply (ad_root _ _ _ _ _ _ Had).
Qed.

Lemma root_None_empty t : tree_wf t → root_ t = None → ∀ p, phaseNodeCache t !! p = None.
Proof.
  intros Hwf Hroot p. destruct (phaseNodeCache t !! p) as [n|] eqn:Hn; [|done].
  destruct (labels_exist t Hwf p n Hn) as (ls & Hls & _).
  destruct (labels_root_label t Hwf p ls Hls) as [r Hr]. unfold root_label in Hr. by rewrite Hroot in Hr.
Qed.

Lemma Tree_Init_wf t l :
  tree_wf t → root_ t = None →
  ∃ t', Tree_Init 0 l t = Ok (phase_gen t, t') ∧ tree_wf t' ∧ current_ t' = Some (phase_gen t) ∧
    ∃ n, phaseNodeCache t' !! phase_gen t = Some n ∧ parent_ n = None ∧ level_ n = 0.
Proof.
  intros Hwf Hroot. pose proof (root_None_empty t Hwf Hroot) as Hemp. pose proof (tw_gen t Hwf).
  eexists. split; [reflexivity|]. split; [|split; [done|]; simpl; rewrite lookup_insert_eq; eauto].
  assert (∀ p n, <[phase_gen t := mkNode 0 0 0 0 0 0 kExecution None None None [] l]> (phaseNodeCache t) !! p = Some n →
    p = phase_gen t ∧ n = mkNode 0 0 0 0 0 0 kExecution None None None [] l) as Hinv.
  { intros p n [[<- <-]|[_ Hp]]%lookup_insert_Some; [done|]. by rewrite Hemp in Hp. }
  split; simpl.
  - lia.
  - intros p n [-> ->]%Hinv. lia.
  - by intros p n q [-> ->]%Hinv.
  - by intros p n [-> ->]%Hinv.
  - intros p [= <-]. rewrite lookup_insert_eq. eauto.
  - intros q m c [-> ->]%Hinv Hc. by apply not_elem_of_nil in Hc.
  - by intros p n x [-> ->]%Hinv.
  - by intros p n [-> ->]%Hinv.
  - intros k p. split.
    + intros Hk. apply (tw_path t Hwf) in Hk as (ls & x & r & Hlab & _).
      inversion Hlab as [? n Hp|? n ? ? Hp]; rewrite Hemp in Hp; done.
    + intros (ls & x & r & Hlab & _). inversion Hlab as [? n Hp Hn Hp0 Hls|? n q ls' Hp Hn _ Hp0 Hls].
      * by destruct ls.
      * simpl in Hp. apply Hinv in Hp as [-> ->]. done.
  - intros p [= <-]. rewrite lookup_insert_eq. eauto.
Qed.

Lemma BeginPhase_root t l p t' :
  tree_wf t → current_ t = None → BeginPhase 0 l t = Ok (p, t') →
  begun t None 0 t' p ∧ (root_label t' = root_label t ∨ root_label t' = Some l).
Proof.
  intros Hwf Hcur. unfold BeginPhase. rewrite Hcur. destruct (root_ t) as [a|] eqn:Hroot.
  - unfold Tree_ReInit. rewrite Hroot. simpl. intros [= <- <-].
    destruct (tw_rootn t Hwf a Hroot) as (n & Hn & Hpar). destruct (tw_root t Hwf a n Hn Hpar) as [_ Hlv].
    split; [|by left]. split; [|done|by exists n|apply set_current_kept|done].
    apply set_current_wf; [|done]. intros x [= <-]. eauto.
  - destruct (Tree_Init_wf t l Hwf Hroot) as (t1 & Ht1 & Hwf' & Hc & n & Hn & Hpar & Hlv).
    rewrite Ht1. intros [= <- <-]. split.
    2:{ right. injection Ht1 as <-. unfold root_label. simpl. by rewrite lookup_insert_eq. }
    split; [done|done|eauto| |].
    + intros q m Hq. by rewrite (root_None_empty t Hwf Hroot) in Hq.
    + unfold root_label at 1. by rewrite Hroot.
Qed.

(** ** The end of a recovery *)

(** Only states of nodes change. *)
Record restated (t t' : PhaseTree) : Prop := {
  rs_root : root_ t' = root_ t;
  rs_current : current_ t' = current_ t;
  rs_path : phasePath t' = phasePath t;
  rs_gen : phase_gen t' = phase_gen t;
  rs_node p : option_Forall2 (λ n n', ∃ st, n' = set_state st n) (phaseNodeCache t !! p) (phaseNodeCache t' !! p);
}.

Lemma set_state_id n : set_state (state_ n) n = n.
Proof. by destruct n. Qed.

#[export] Instance restated_refl : Reflexive restated.
Proof.
  intros t. split; try done. intros p. destruct (phaseNodeCache t !! p) as [n|]; constructor.
  exists (state_ n). by rewrite set_state_id.
Qed.
#[export] Instance restated_trans : Transitive restated.
Proof.
  intros t1 t2 t3 [? ? ? ? G1] [? ? ? ? G2]. split; try congruence. intros p. specialize (G1 p). specialize (G2 p).
  inversion G1 as [n1 n2 [st Hst] E1 E2|E1 E2]; inversion G2 as [n2' n3 [st' Hst'] E3 E4|E3 E4]; try congruence;
    constructor. exists st'. assert (n2' = n2) as -> by congruence. by rewrite Hst', Hst.
Qed.

Lemma touch_restated p st t : restated t (touch p (set_state st) t).
Proof.
  split; try done. intros q. simpl. destruct (decide (q = p)) as [->|Hne].
  - rewrite lookup_alter_eq. destruct (phaseNodeCache t !! p); constructor. eauto.
  - rewrite lookup_alter_ne by done. apply (rs_node _ _ (restated_refl t)).
Qed.

Lemma restated_shape t t' : restated t t' → same_shape t t'.
Proof.
  intros [? ? ? ? G]. repeat split; [done..|]. intros p. specialize (G p). inversion G as [n n' [st ->]|]; constructor.
  apply set_state_like.
Qed.

Lemma restated_wf t t' : restated t t' → tree_wf t → tree_wf t'.
Proof.
  intros Hr Hwf. apply (same_shape_wf t); [by apply restated_shape| |done].
  intros p Hp. rewrite (rs_current _ _ Hr) in Hp. destruct (tw_current t Hwf p Hp) as [n Hn].
  destruct (same_shape_lookup t t' p n) as (? & ? & _); [by apply restated_shape|done|]. eauto.
Qed.

Lemma restated_lookup t t' p n :
  restated t t' → phaseNodeCache t !! p = Some n → ∃ st, phaseNodeCache t' !! p = Some (set_state st n).
Proof.
  intros [_ _ _ _ G] Hp. specialize (G p). rewrite Hp in G. inversion G as [? ? [st ->]|]; eauto.
Qed.

Lemma reset_to_exec_returns fuel p t :
  tree_wf t → is_Some (phaseNodeCache t !! p) → phase_gen t - p < Z.of_nat fuel →
  returns (reset_to_exec fuel p t) (restated t).
Proof.
  revert p t. induction fuel as [|fuel IH]; intros p t Hwf [n Hn] Hf; simpl.
  { pose proof (tw_dom t Hwf p n Hn). lia. }
  rewrite (node_Some t p n Hn), ret_bind.
  apply (foldM_inv (λ _, restated t)); [apply touch_restated|].
  intros l1 c l2 t1 Hl Hr.
  assert (c ∈ children_ n) as Hc by (rewrite Hl; apply elem_of_app; right; by left).
  destruct (tw_child t Hwf p n c Hn Hc) as [Hlt [nc Hnc]].
  destruct (restated_lookup t t1 c nc Hr Hnc) as [st Hc1].
  eapply returns_mono; [apply IH|].
  - by apply (restated_wf t).
  - eauto.
  - rewrite (rs_gen _ _ Hr). lia.
  - intros t2. by etrans.
Qed.

Lemma ResetToExec_returns p t :
  tree_wf t → is_Some (phaseNodeCache t !! p) → returns (ResetToExec p t) (restated t).
Proof. intros Hwf Hp. apply reset_to_exec_returns; [done|done|lia]. Qed.

Lemma finish_recovery_returns fuel p n t :
  tree_wf t → phaseNodeCache t !! p = Some n → state_ n = kReexecution → p < Z.of_nat fuel →
  returns (finish_recovery fuel p t) (restated t).
Proof.
  intros Hwf. revert p n. induction fuel as [|fuel IH]; intros p n Hn Hst Hf; simpl.
  { pose proof (tw_dom t Hwf p n Hn). lia. }
  rewrite (node_Some t p n Hn), ret_bind, Hst, bool_decide_eq_true_2 by done. simpl.
  destruct (parent_ n) as [q|] eqn:Hpar; [|apply ResetToExec_returns; eauto].
  destruct (tw_parent t Hwf p n q Hn Hpar) as (Hlt & m & Hm & _).
  rewrite (node_Some t q m Hm), ret_bind. case_bool_decide.
  - apply (IH q m); [done|done|lia].
  - apply ResetToExec_returns; eauto.
Qed.

(** FinishRecovery returns from a phase that is executed again. *)
Lemma FinishRecovery_returns p n t :
  tree_wf t → phaseNodeCache t !! p = Some n → state_ n = kReexecution →
  returns (FinishRecovery p t) (restated t).
Proof.
  intros Hwf Hn Hst. pose proof (tw_dom t Hwf p n Hn). apply (finish_recovery_returns _ p n); [done..|lia].
Qed.

Lemma finish_recovery_Ok fuel p t t' : tree_wf t → finish_recovery fuel p t = Ok t' → restated t t'.
Proof.
  intros Hwf. revert p. induction fuel as [|fuel IH]; intros p; simpl; [done|].
  intros (n & Hn & H)%bind_Ok. apply node_Ok in Hn. apply bind_Ok in H as (_ & _ & H).
  assert (ResetToExec p t = Ok t' → restated t t') as HR.
  { intros Hr. pose proof (ResetToExec_returns p t Hwf ltac:(eauto)) as Hret. by rewrite Hr in Hret. }
  destruct (parent_ n) as [q|]; [|auto]. apply bind_Ok in H as (m & _ & H). case_bool_decide; eauto.
Qed.

(** ** Marking, counting and resetting *)

Lemma MarkSeqID_shape p x t t' : tree_wf t → MarkSeqID p x t = Ok t' → same_shape t t' ∧ current_ t' = current_ t.
Proof.
  intros Hwf. unfold MarkSeqID. intros (n & Hn & H)%bind_Ok. apply node_Ok in Hn.
  destruct (left_ n) as [l|] eqn:Hl.
  - apply bind_Ok in H as (nl & Hnl & H). injection H as <-. split; [|done]. apply touch_shape.
    intros n' Hn'. assert (n' = n) as -> by congruence. repeat split. congruence.
  - injection H as <-. split; [|done]. apply touch_shape. intros n' Hn'. repeat split.
Qed.

Lemma IncSeq_like b n : like n (IncSeq b n).
Proof. by repeat split. Qed.

Lemma ResetSeq_like r n : like n (ResetSeq r n).
Proof. unfold ResetSeq. destruct (_ <? _); by repeat split. Qed.
