(* ===== verification/Nesting.v ===== *)
(** * Domains nest, and their phases with them

    The invariant of the runtime of one task ([Handle]): the domains of the
    path are one below the other, all but possibly the last have begun, and
    their phases are one below the other in the tree of phases.  It holds in
    every state a program reaches that creates, begins, completes and destroys
    domains in the order of the interface, through errors and rollbacks. *)

From Stdlib Require Import ZArith Lia String.
From stdpp Require Import base gmap list numbers strings.
From S2P Require Import Prelude CdLog TableStore DataStore Preserve PhaseTree Handle Phases.

(** ** The invariant *)

Definition parent_at (phs : list Z) (i : nat) : option Z :=
  match i with O => None | S j => phs !! j end.

(** The domain at position [i] of the path, [phs] the phases of those begun. *)
Definition placed (phs : list Z) (i : nat) (c : Dom) : Prop :=
  level c = Z.of_nat i ∧ begin_ c = bool_decide (i < length phs)%nat ∧
  (∀ p, phs !! i = Some p → phase c = p ∧ mode c ≠ kSuspension).

Record nested (s : Rt) (phs : list Z) : Prop := {
  ns_wf : tree_wf (tree s);
  ns_pos : uniquePath s ≠ [];
  ns_len : length (uniquePath s) = length phs ∨ length (uniquePath s) = S (length phs);
  ns_depth : Z.of_nat (length (uniquePath s)) ≤ INVALID_ROLLBACK_POINT;
  ns_current : current_ (tree s) = last phs;
  ns_phase i p : phs !! i = Some p →
    ∃ n, phaseNodeCache (tree s) !! p = Some n ∧ level_ n = Z.of_nat i ∧ parent_ n = parent_at phs i;
  ns_dom i h : uniquePath s !! i = Some h → ∃ c, objs s !! h = Some c ∧ placed phs i c;
  ns_fresh h c : objs s !! h = Some c → h < gen_obj s;
  ns_failed : failed_phase s = HEALTHY ∨ 0 ≤ failed_phase s;
  ns_rollback : 0 ≤ rollback_point_ s;
  ns_prev : phs ≠ [] → ∃ n, phaseNodeCache (tree s) !! prev_phase s = Some n ∧
    (last phs = Some (prev_phase s) ∨ Z.of_nat (length phs) ≤ level_ n);
  ns_label i h p c n : uniquePath s !! S i = Some h → phs !! S i = Some p → objs s !! h = Some c →
    phaseNodeCache (tree s) !! p = Some n → label_ n = label c;
}.

(** ** What programs do *)

Definition active (s : Rt) (h : Z) : Prop := ∃ c, objs s !! h = Some c ∧ begin_ c = true.

(** The label with which a domain begins. *)
Definition begin_label (lab : string) (c : Dom) : string := if String.eqb lab NO_LABEL then name c else lab.

(** The runtime finds phases and domains by strings in which labels are joined by
    underscores.  The last domain may begin with a label, and a domain may be created
    with a name, when the string is not that of a phase elsewhere in the tree, or of
    a domain of another level.  The label of the root is not looked up. *)
Definition label_ok (s : Rt) (lab : string) : bool :=
  match last (uniquePath s), current_ (tree s) with
  | Some h, Some q => match objs s !! h with Some c => key_ok (tree s) q (begin_label lab c) | None => true end
  | _, _ => true
  end.

Definition name_ok (s : Rt) (nm : string) : bool :=
  match current_ (tree s) with
  | None => true
  | Some q =>
      match GetPhasePathOf (tree s) q nm with
      | Err _ => true
      | Ok key =>
          match access_store_ s !! key with
          | None => true
          | Some h => match objs s !! h with Some c => level c =? Z.of_nat (length (uniquePath s)) | None => true end
          end
      end
  end.

(** A program creates domains in the last domain of the path, once it has begun,
    begins and completes the last, and destroys the last when it has completed
    and is not the root.  Errors are reported on domains that have begun.  A
    rollback continues with the Begin of the domain it returned to.  Preserving
    changes the store of a domain. *)
Inductive step (u : Z) : Rt → Rt → Prop :=
  | step_create s h nm h' s' :
      last (uniquePath s) = Some h → active s h → name_ok s nm →
      Z.of_nat (length (uniquePath s)) < INVALID_ROLLBACK_POINT →
      Create u h nm s = Ok (h', s') → step u s s'
  | step_begin s h lab s' :
      last (uniquePath s) = Some h → label_ok s lab → Begin h lab s = Ok s' → step u s s'
  | step_complete s h o s' :
      last (uniquePath s) = Some h → active s h → Complete h s = Ok (o, s') → step u s s'
  | step_destroy s h s' :
      last (uniquePath s) = Some h → ¬ active s h → (1 < length (uniquePath s))%nat →
      Destroy s = Ok s' → step u s s'
  | step_assert s h test s' :
      h ∈ uniquePath s → active s h → CDAssert h test s = Ok s' → step u s s'
  | step_detect s (r : nat) h s' :
      uniquePath s !! r = Some h → active s h → Detect (Z.of_nat r) s = Ok s' → step u s s'
  | step_preserve s h c x :
      objs s !! h = Some c → exec_mode_ x = mode c → step u s (update h (with_prv x c) s).

Inductive reachable (u : Z) : Rt → Prop :=
  | reach_init s : CD_Init u = Ok s → reachable u s
  | reach_step s s' : reachable u s → step u s s' → reachable u s'.

(** ** Preservation by changes of one kind *)

(** Levels determine positions. *)
Lemma path_inj s phs i j h : nested s phs → uniquePath s !! i = Some h → uniquePath s !! j = Some h → i = j.
Proof.
  intros Hn Hi Hj. destruct (ns_dom s phs Hn i h Hi) as (c & Hc & Hl & _).
  destruct (ns_dom s phs Hn j h Hj) as (c' & Hc' & Hl' & _). assert (c' = c) as -> by congruence. lia.
Qed.

Lemma leaf_dom s phs h :
  nested s phs → last (uniquePath s) = Some h →
  ∃ c, objs s !! h = Some c ∧ placed phs (pred (length (uniquePath s))) c.
Proof. rewrite last_lookup. intros Hn. apply (ns_dom s phs Hn). Qed.

Lemma active_length s phs h :
  nested s phs → last (uniquePath s) = Some h → active s h → length phs = length (uniquePath s).
Proof.
  intros Hn Hh (c & Hc & Hb). destruct (leaf_dom s phs h Hn Hh) as (c' & Hc' & _ & Hb' & _).
  assert (c' = c) as -> by congruence. rewrite Hb in Hb'. symmetry in Hb'. apply bool_decide_eq_true in Hb'.
  destruct (ns_len s phs Hn); lia.
Qed.

Lemma inactive_length s phs h :
  nested s phs → last (uniquePath s) = Some h → ¬ active s h → length (uniquePath s) = S (length phs).
Proof.
  intros Hn Hh Ha. destruct (leaf_dom s phs h Hn Hh) as (c & Hc & _ & Hb & _).
  destruct (ns_len s phs Hn) as [Hl|Hl]; [|done]. destruct Ha. exists c. split; [done|]. rewrite Hb.
  apply bool_decide_eq_true. pose proof (ns_pos s phs Hn). destruct (uniquePath s); [done|]. simpl in *. lia.
Qed.

Lemma nested_globals s s' phs :
  nested s phs → tree s' = tree s → objs s' = objs s → uniquePath s' = uniquePath s →
  gen_obj s' = gen_obj s → prev_phase s' = prev_phase s →
  (failed_phase s' = HEALTHY ∨ 0 ≤ failed_phase s') → 0 ≤ rollback_point_ s' → nested s' phs.
Proof. intros [] Ht Ho Hp Hg Hpr Hf Hr. split; rewrite ?Ht, ?Ho, ?Hp, ?Hg, ?Hpr; done. Qed.

Lemma nested_tree s phs t :
  nested s phs → same_shape (tree s) t → current_ t = current_ (tree s) → nested (with_tree t s) phs.
Proof.
  intros Hn Hs Hc. destruct Hn. split; simpl; try done.
  - apply (same_shape_wf (tree s)); [done| |done]. intros p Hp. rewrite Hc in Hp.
    destruct (tw_current _ ns_wf0 p Hp) as [n Hnp]. destruct (same_shape_lookup _ _ p n Hs Hnp) as (? & ? & _). eauto.
  - by rewrite Hc.
  - intros i p Hp. destruct (ns_phase0 i p Hp) as (n & Hnp & Hl & Hq).
    destruct (same_shape_lookup _ _ p n Hs Hnp) as (n' & ? & Hl' & Hq' & _). exists n'. split; [done|].
    split; congruence.
  - intros Hne. destruct (ns_prev0 Hne) as (n & Hnp & Hor).
    destruct (same_shape_lookup _ _ _ n Hs Hnp) as (n' & ? & Hl' & _). exists n'. by rewrite Hl'.
  - intros i h p c n' Hi Hp Hcc Hn'. destruct (same_shape_lookup_r _ _ p n' Hs Hn') as (n & Hnp & _&_&_&_&Hlab&_).
    rewrite Hlab. by apply (ns_label0 i h p).
Qed.

(** A domain keeps its place when its level, phase, label and status stay. *)
Lemma nested_update s phs h c c' :
  nested s phs → objs s !! h = Some c → level c' = level c → begin_ c' = begin_ c →
  phase c' = phase c → label c' = label c → (mode c ≠ kSuspension → mode c' ≠ kSuspension) →
  nested (update h c' s) phs.
Proof.
  intros Hn Hc Hl Hb Hp Hlab Hm. destruct Hn. split; simpl; try done.
  - intros i h' Hi. destruct (ns_dom0 i h' Hi) as (d & Hd & Hl' & Hb' & Hp'). destruct (decide (h' = h)) as [->|Hne].
    + assert (d = c) as -> by congruence. rewrite lookup_insert_eq. exists c'. split; [done|].
      split; [congruence|]. split; [congruence|]. intros p Hip.
      destruct (Hp' p Hip). split; [congruence|auto].
    + rewrite lookup_insert_ne by done. exists d. by repeat (split; [done|]).
  - intros h' d [[<- <-]|[_ Hd]]%lookup_insert_Some; eauto.
  - intros i h' p d n Hi Hip [[<- <-]|[_ Hd]]%lookup_insert_Some Hpn; [rewrite Hlab|]; eauto.
Qed.

Lemma parent_at_prefix (phs : list Z) p i : (i < length phs)%nat → parent_at (phs ++ [p]) i = parent_at phs i.
Proof. destruct i as [|i]; [done|]. intros. simpl. by rewrite lookup_app_l by lia. Qed.

Lemma parent_at_last (phs : list Z) p : parent_at (phs ++ [p]) (length phs) = last phs.
Proof.
  destruct phs as [|a phs _] using rev_ind; [done|]. rewrite last_snoc, length_app, Nat.add_1_r. simpl.
  rewrite lookup_app_l by (rewrite length_app; simpl; lia). by apply list_lookup_middle.
Qed.

(** The last domain is no longer active. *)
Lemma nested_retire s phs p h c c' t :
  nested s (phs ++ [p]) → last (uniquePath s) = Some h → length (uniquePath s) = S (length phs) →
  objs s !! h = Some c → level c' = level c → begin_ c' = false →
  same_shape (tree s) t → current_ t = last phs → nested (with_tree t (update h c' s)) phs.
Proof.
  intros Hn Hh Hlen Hc Hl Hb Hs Hcur.
  assert (∀ i h', uniquePath s !! i = Some h' → h' = h ↔ i = length phs) as Hpos.
  { rewrite last_lookup, Hlen in Hh. simpl in Hh. intros i h' Hi. split; [|intros ->; congruence].
    intros ->. apply (path_inj s _ _ _ h Hn Hi Hh). }
  destruct Hn. split; simpl; try done.
  - apply (same_shape_wf (tree s)); [done| |done]. intros q Hq. rewrite Hcur in Hq.
    rewrite last_lookup in Hq. pose proof Hq as Hlt. apply lookup_lt_Some in Hlt.
    destruct (ns_phase0 (pred (length phs)) q) as (n & Hnq & _); [by rewrite lookup_app_l|].
    destruct (same_shape_lookup _ _ q n Hs Hnq) as (? & ? & _). eauto.
  - lia.
  - intros i q Hq. pose proof Hq as Hlt. apply lookup_lt_Some in Hlt.
    destruct (ns_phase0 i q) as (n & Hnq & Hlv & Hpar); [by rewrite lookup_app_l|].
    destruct (same_shape_lookup _ _ q n Hs Hnq) as (n' & ? & Hl' & Hq' & _). exists n'. split; [done|].
    rewrite parent_at_prefix in Hpar by done. rewrite Hl', Hq'. done.
  - intros i h' Hi. destruct (ns_dom0 i h' Hi) as (d & Hd & Hl' & Hb' & Hp').
    rewrite length_app in Hb'. simpl in Hb'. destruct (decide (h' = h)) as [->|Hne].
    + assert (i = length phs) as -> by (by apply (Hpos i h)). assert (d = c) as -> by congruence.
      rewrite lookup_insert_eq. exists c'. split; [done|]. split; [congruence|].
      split; [rewrite Hb; symmetry; apply bool_decide_eq_false; lia|].
      intros q Hq%lookup_lt_Some. lia.
    + rewrite lookup_insert_ne by done. exists d. split; [done|]. split; [done|].
      assert (i < length phs)%nat as Hlt.
      { pose proof (lookup_lt_Some _ _ _ Hi). destruct (decide (i = length phs)); [|lia]. destruct Hne. by apply (Hpos i h'). }
      split; [rewrite Hb'; apply bool_decide_ext; lia|].
      intros q Hq. apply Hp'. by rewrite lookup_app_l.
  - intros h' d [[<- <-]|[_ Hd]]%lookup_insert_Some; eauto.
  - intros _. destruct ns_prev0 as (n & Hnp & Hor); [by destruct phs|].
    destruct (same_shape_lookup _ _ _ n Hs Hnp) as (n' & ? & Hl' & _). exists n'. split; [done|]. right.
    rewrite length_app in Hor. simpl in Hor. rewrite Hl'. destruct Hor as [Hlast|Hge]; [|lia].
    rewrite last_snoc in Hlast. injection Hlast as Hpp. rewrite <-Hpp in Hnp.
    destruct (ns_phase0 (length phs) p) as (n0 & Hn0 & Hl0 & _); [by apply list_lookup_middle|].
    assert (n0 = n) as -> by congruence. lia.
  - intros i h' q d n Hi Hq Hd Hnq. pose proof (lookup_lt_Some _ _ _ Hq) as Hlt.
    destruct (same_shape_lookup_r _ _ q n Hs Hnq) as (n0 & Hn0 & _&_&_&_&Hlab&_). rewrite Hlab.
    apply (ns_label0 i h' q); [done|by rewrite lookup_app_l| |done].
    apply lookup_insert_Some in Hd as [[<- <-]|[_ Hd]]; [|done].
    assert (S i = length phs) by (by apply (Hpos (S i) h)). lia.
Qed.

(** The last domain leaves the path. *)
Lemma nested_destroy s phs :
  nested s phs → length (uniquePath s) = S (length phs) → (1 < length (uniquePath s))%nat →
  nested (with_path (removelast (uniquePath s)) s) phs.
Proof.
  intros Hn Hlen Hlt. destruct Hn.
  destruct (uniquePath s) as [|x P _] using rev_ind; [done|]. rewrite length_app in *. simpl in *.
  split; simpl; rewrite ?removelast_last; try done.
  - destruct P; [simpl in *; lia|done].
  - lia.
  - lia.
  - intros i h Hi. apply ns_dom0. by rewrite lookup_app_l by (by eapply lookup_lt_Some).
  - intros i h p c n Hi. apply ns_label0. by rewrite lookup_app_l by (by eapply lookup_lt_Some).
Qed.

(** ** Begin *)

Lemma MarkPhase_shape cur ph c s t t' :
  tree_wf t → MarkPhase cur ph c s t = Ok t' → same_shape t t' ∧ current_ t' = current_ t.
Proof.
  intros Hwf. unfold MarkPhase. case_match; [intros [= <-]; done|].
  intros (b & _ & Hb)%bind_Ok. destruct b; [injection Hb as <-; done|].
  apply bind_Ok in Hb as (n & _ & Hb). by apply MarkSeqID_shape in Hb.
Qed.

Lemma kept_phase t t' phs i p :
  kept t t' → (∃ n, phaseNodeCache t !! p = Some n ∧ level_ n = Z.of_nat i ∧ parent_ n = parent_at phs i) →
  ∃ n, phaseNodeCache t' !! p = Some n ∧ level_ n = Z.of_nat i ∧ parent_ n = parent_at phs i.
Proof.
  intros Hk (n & Hp & Hl & Hq). destruct (Hk p n Hp) as (n' & Hp' & ?&?&?&?&?&?&?). exists n'.
  split; [done|]. split; congruence.
Qed.

Lemma nested_begin s phs p h c c' t :
  nested s phs → last (uniquePath s) = Some h → length (uniquePath s) = S (length phs) →
  objs s !! h = Some c → level c' = level c → begin_ c' = true → phase c' = p →
  mode c' ≠ kSuspension →
  begun (tree s) (last phs) (Z.of_nat (length phs)) t p →
  (phs ≠ [] → ∃ n, phaseNodeCache t !! p = Some n ∧ label_ n = label c') →
  nested (with_tree t (update h c' (with_prev p s))) (phs ++ [p]).
Proof.
  intros Hn Hh Hlen Hc Hl Hb Hp Hm Hbg Hlabel.
  assert (∀ i h', uniquePath s !! i = Some h' → h' = h ↔ i = length phs) as Hpos.
  { rewrite last_lookup, Hlen in Hh. simpl in Hh. intros i h' Hi. split; [|intros ->; congruence].
    intros ->. apply (path_inj s _ _ _ h Hn Hi Hh). }
  destruct Hn. destruct Hbg as [Hwf Hcur Hnode Hkept Hlab].
  split; simpl; try done.
  - left. rewrite length_app. simpl. lia.
  - by rewrite last_snoc.
  - intros i q Hq. destruct (decide (i = length phs)) as [->|Hne].
    + rewrite list_lookup_middle in Hq by done. injection Hq as <-.
      destruct Hnode as (n & Hpn & Hpar & Hlv). exists n. by rewrite parent_at_last.
    + pose proof (lookup_lt_Some _ _ _ Hq) as Hlt. rewrite length_app in Hlt. simpl in Hlt.
      rewrite lookup_app_l in Hq by lia. rewrite parent_at_prefix by lia.
      apply (kept_phase (tree s)); [done|]. by apply ns_phase0.
  - intros i h' Hi. destruct (ns_dom0 i h' Hi) as (d & Hd & Hl' & Hb' & Hp').
    pose proof (lookup_lt_Some _ _ _ Hi). unfold placed. rewrite length_app. simpl.
    destruct (decide (h' = h)) as [->|Hne].
    + assert (i = length phs) as -> by (by apply (Hpos i h)). assert (d = c) as -> by congruence.
      rewrite lookup_insert_eq. exists c'. split; [done|]. split; [congruence|].
      split; [rewrite Hb; symmetry; apply bool_decide_eq_true; lia|].
      intros q Hq. rewrite list_lookup_middle in Hq by done. injection Hq as <-. done.
    + assert (i < length phs)%nat as Hlt.
      { destruct (decide (i = length phs)); [|lia]. destruct Hne. by apply (Hpos i h'). }
      rewrite lookup_insert_ne by done. exists d. split; [done|]. split; [done|].
      split; [rewrite Hb'; apply bool_decide_ext; lia|].
      intros q Hq. rewrite lookup_app_l in Hq by done. auto.
  - intros h' d [[<- <-]|[_ Hd]]%lookup_insert_Some; eauto.
  - intros _. destruct Hnode as (n & Hpn & _). exists n. split; [done|]. left. by rewrite last_snoc.
  - intros i h' q d n Hi Hq Hd Hnq. destruct (decide (S i = length phs)) as [He'|Hne].
    + rewrite He' in Hq. rewrite list_lookup_middle in Hq by done. injection Hq as <-.
      destruct Hlabel as (n' & Hn' & Hlab'); [by destruct phs|]. assert (n' = n) as -> by congruence.
      assert (h' = h) as -> by (by apply (Hpos (S i) h')). rewrite lookup_insert_eq in Hd. congruence.
    + pose proof (lookup_lt_Some _ _ _ Hq) as Hlt. rewrite length_app in Hlt. simpl in Hlt.
      rewrite lookup_app_l in Hq by lia.
      destruct (ns_phase0 (S i) q Hq) as (n0 & Hn0 & _). destruct (Hkept q n0 Hn0) as (n1 & Hn1 & ?&?&?&?&?&Hlb1&?).
      assert (n1 = n) as -> by congruence. rewrite Hlb1. apply (ns_label0 i h' q); [done|done| |done].
      apply lookup_insert_Some in Hd as [[<- <-]|[_ Hd]]; [|done].
      assert (S i = length phs) by (by apply (Hpos (S i) h)). lia.
Qed.

Lemma Begin_prv_mode x : exec_mode_ (Begin_prv x) ≠ kSuspension.
Proof. unfold Begin_prv. by destruct (exec_mode_ x) eqn:E; simpl; rewrite ?E. Qed.

Lemma BeginPhase_nested s phs c lab p t :
  nested s phs → length (uniquePath s) = S (length phs) → level c = Z.of_nat (length phs) →
  (∀ q, current_ (tree s) = Some q → key_ok (tree s) q lab) →
  BeginPhase (level c) lab (tree s) = Ok (p, t) →
  begun (tree s) (last phs) (Z.of_nat (length phs)) t p ∧
  (phs ≠ [] → ∃ n, phaseNodeCache t !! p = Some n ∧ label_ n = lab).
Proof.
  intros Hn Hlen Hl Hlab Hbp. rewrite Hl in Hbp. destruct phs as [|q phs' _] using rev_ind; simpl in *.
  - split; [|done].
    by destruct (BeginPhase_root (tree s) lab p t (ns_wf s _ Hn) (ns_current s _ Hn) Hbp) as [Hb _].
  - rewrite last_snoc. pose proof (ns_current s _ Hn) as Hcur. rewrite last_snoc in Hcur.
    destruct (ns_phase s _ Hn (length phs') q) as (nq & Hq & Hlq & _); [by apply list_lookup_middle|].
    assert (Z.of_nat (length (phs' ++ [q])) = level_ nq + 1) as Hlv by (rewrite length_app; simpl; lia).
    rewrite Hlv in Hbp |- *.
    by destruct (BeginPhase_child (tree s) q nq lab p t (ns_wf s _ Hn) Hcur Hq (Hlab q Hcur) Hbp) as [Hb Hlb].
Qed.

Lemma obj_Ok s h c : obj s h = Ok c ↔ objs s !! h = Some c.
Proof. apply deref_Ok. Qed.

Lemma obj_Some s h c : objs s !! h = Some c → obj s h = Ok c.
Proof. by intros ?%obj_Ok. Qed.

(** The domain after Begin. *)
Definition begun_dom (lab : string) (ph : Z) (c : Dom) : Dom :=
  let c' := with_prv (Begin_prv (prv c)) (with_phase lab ph (with_begin true c)) in
  if bool_decide (mode c = kReexecution) then c' else with_reex 0 c'.

Lemma begun_dom_fields lab ph c :
  level (begun_dom lab ph c) = level c ∧ name (begun_dom lab ph c) = name c ∧
  begin_ (begun_dom lab ph c) = true ∧ phase (begun_dom lab ph c) = ph ∧
  label (begun_dom lab ph c) = lab ∧ prv (begun_dom lab ph c) = Begin_prv (prv c).
Proof. unfold begun_dom. by case_bool_decide. Qed.

Lemma Begin_Ok h lab s s' :
  Begin h lab s = Ok s' → ∃ c ph t cur t',
    objs s !! h = Some c ∧ begin_ c = false ∧ BeginPhase (level c) (begin_label lab c) (tree s) = Ok (ph, t) ∧
    current_ t = Some cur ∧ MarkPhase cur ph c s t = Ok t' ∧
    s' = update h (begun_dom (begin_label lab c) ph c)
           (with_just false (with_rollback INVALID_ROLLBACK_POINT (with_tree t' (with_prev ph s)))).
Proof.
  unfold Begin. intros (c & Hc%obj_Ok & H)%bind_Ok. apply bind_Ok in H as (u & Hb%cassert_Ok & H).
  apply bind_Ok in H as ([ph t] & Hbp & H). apply bind_Ok in H as (cur & Hcur%deref_Ok & H).
  apply bind_Ok in H as (t' & Ht' & H). injection H as <-.
  exists c, ph, t, cur, t'. split; [done|]. split; [by destruct (begin_ c)|]. split; [done|].
  split; [done|]. split; [done|]. by destruct s.
Qed.

(** The phase that Begin of the last domain begins. *)
Lemma Begin_phase s phs h lab c ph t :
  nested s phs → last (uniquePath s) = Some h → label_ok s lab → objs s !! h = Some c → begin_ c = false →
  BeginPhase (level c) (begin_label lab c) (tree s) = Ok (ph, t) →
  length (uniquePath s) = S (length phs) ∧ begun (tree s) (last phs) (Z.of_nat (length phs)) t ph ∧
  (phs ≠ [] → ∃ n, phaseNodeCache t !! ph = Some n ∧ label_ n = begin_label lab c).
Proof.
  intros Hn Hh Hlab Hc Hb Hbp.
  assert (¬ active s h) as Ha by (intros (c' & Hc' & Hb'); congruence).
  pose proof (inactive_length s phs h Hn Hh Ha) as Hlen. split; [done|].
  destruct (leaf_dom s phs h Hn Hh) as (c' & Hc' & Hpl). assert (c' = c) as -> by congruence.
  rewrite Hlen in Hpl. simpl in Hpl. destruct Hpl as (Hl & _).
  apply (BeginPhase_nested s phs c); [done..| |done].
  intros q Hq. unfold label_ok in Hlab. by rewrite Hh, Hq, Hc in Hlab.
Qed.

Lemma Begin_nested s phs h lab s' :
  nested s phs → last (uniquePath s) = Some h → label_ok s lab → Begin h lab s = Ok s' →
  ∃ c ph, objs s !! h = Some c ∧ objs s' = <[h := begun_dom (begin_label lab c) ph c]> (objs s) ∧
    nested s' (phs ++ [ph]).
Proof.
  intros Hn Hh Hlab (c & ph & t & cur & t' & Hc & Hb & Hbp & Hcur & Hm & ->)%Begin_Ok.
  destruct (Begin_phase s phs h lab c ph t Hn Hh Hlab Hc Hb Hbp) as (Hlen & Hbg & Hlabel).
  destruct (begun_dom_fields (begin_label lab c) ph c) as (Fl & Fn & Fb & Fp & Flab & Fprv).
  exists c, ph. split; [done|]. split; [done|].
  apply (nested_globals (with_tree t' (update h (begun_dom (begin_label lab c) ph c) (with_prev ph s))));
    [|done|done|done|done|done|apply (ns_failed s phs Hn)|done].
  destruct (MarkPhase_shape cur ph c s t t') as [Hs Hc2]; [apply (bg_wf _ _ _ _ _ Hbg)|done|].
  change (nested (with_tree t' (with_tree t (update h (begun_dom (begin_label lab c) ph c) (with_prev ph s)))) (phs ++ [ph])).
  apply nested_tree; [|done|done].
  apply (nested_begin s phs ph h c); [done..|unfold mode; rewrite Fprv; apply Begin_prv_mode|done|by rewrite Flab].
Qed.

(** ** Programs as lists of calls

    Executable programs, whose states are reachable. *)
Inductive call := CCreate (nm : string) | CBegin (lab : string) | CComplete | CDestroy | CAssert (h : Z) | CDetect (r : nat).

Definition activeb (s : Rt) (h : Z) : bool :=
  match objs s !! h with Some c => begin_ c | None => false end.

Definition call_ok (c : call) (h : Z) (s : Rt) : bool :=
  match c with
  | CCreate nm => activeb s h && name_ok s nm && (Z.of_nat (length (uniquePath s)) <? INVALID_ROLLBACK_POINT)
  | CBegin lab => label_ok s lab
  | CComplete => activeb s h
  | CDestroy => negb (activeb s h) && (1 <? Z.of_nat (length (uniquePath s)))
  | CAssert h' => bool_decide (h' ∈ uniquePath s) && activeb s h'
  | CDetect r => match uniquePath s !! r with Some h' => activeb s h' | None => false end
  end.

Definition exec (u : Z) (c : call) (s : Rt) : res Rt :=
  h ← deref (last (uniquePath s));
  _ ← cassert (call_ok c h s);
  match c with
  | CCreate nm => '(_, s) ← Create u h nm s; Ok s
  | CBegin lab => Begin h lab s
  | CComplete => '(_, s) ← Complete h s; Ok s
  | CDestroy => Destroy s
  | CAssert h' => CDAssert h' false s
  | CDetect r => Detect (Z.of_nat r) s
  end.

Definition run (u : Z) (l : list call) : res Rt := s ← CD_Init u; foldM (exec u) l s.

Lemma activeb_true s h : activeb s h = true ↔ active s h.
Proof.
  unfold activeb, active. split.
  - destruct (objs s !! h) as [c|]; [|done]. eauto.
  - by intros (c & -> & ?).
Qed.

Lemma exec_step u c s s' : exec u c s = Ok s' → step u s s'.
Proof.
  unfold exec. intros (h & Hh%deref_Ok & H)%bind_Ok. apply bind_Ok in H as (v & Hok%cassert_Ok & H).
  destruct c as [nm|lab| | |h'|r]; simpl in Hok.
  - apply andb_true_iff in Hok as [Hok Hd%Z.ltb_lt]. apply andb_true_iff in Hok as [Ha%activeb_true Hnm].
    apply bind_Ok in H as ([h' s1] & HC & H). injection H as <-.
    apply (step_create u s h nm h'); try done. by apply Is_true_true.
  - apply (step_begin u s h lab); try done. by apply Is_true_true.
  - apply activeb_true in Hok. apply bind_Ok in H as ([o s1] & HC & H). injection H as <-.
    by apply (step_complete u s h o).
  - apply andb_true_iff in Hok as [Ha%negb_true_iff Hd%Z.ltb_lt].
    apply (step_destroy u s h); [done| |lia|done]. rewrite <-activeb_true. by rewrite Ha.
  - apply andb_true_iff in Hok as [Hin%bool_decide_eq_true Ha%activeb_true]. by apply (step_assert u s h' false).
  - destruct (uniquePath s !! r) as [h'|] eqn:Hr; [|done]. apply activeb_true in Hok.
    by apply (step_detect u s r h').
Qed.

Lemma run_reachable u l s : run u l = Ok s → reachable u s.
Proof.
  unfold run. intros (s0 & H0 & Hl)%bind_Ok. apply reach_init in H0. revert s0 H0 Hl.
  induction l as [|c l IH]; intros s0 H0; simpl; [by intros [= <-]|].
  intros (s1 & H1 & Hl)%bind_Ok. apply (IH s1); [|done]. apply (reach_step u s0); [done|]. by apply (exec_step u c).
Qed.

Definition rt0 : Rt := mkRt empty_tree ∅ [] ∅ 0 INVALID_ROLLBACK_POINT HEALTHY HEALTHY HEALTHY false.

(** The state after a program known to return. *)
Definition after (l : list call) : Rt := get rt0 (run 1024 l).

Lemma after_reachable l : (if run 1024 l then true else false) = true → reachable 1024 (after l).
Proof. intros H. apply (run_reachable 1024 l). by apply get_Ok. Qed.

(** ** Labels with underscores *)

(** A program with domains A, b in A, c in b, then a second domain [nm] in A,
    and an error for A found inside it. *)
Definition second_child (nm : string) : res (outcome * Rt) :=
  s ← CD_Init 1024;
  s ← Begin 0 NO_LABEL s;
  '(a, s) ← Create 1024 0 "A" s;
  s ← Begin a NO_LABEL s;
  '(b, s) ← Create 1024 a "b" s;
  s ← Begin b NO_LABEL s;
  '(c, s) ← Create 1024 b "c" s;
  s ← Begin c NO_LABEL s;
  '(_, s) ← Complete c s;
  s ← Destroy s;
  '(_, s) ← Complete b s;
  s ← Destroy s;
  '(d, s) ← Create 1024 a nm s;
  s ← Begin d NO_LABEL s;
  s ← Detect 1 s;
  Complete d s.

(** A label with an underscore can be taken for another domain.  The path of
    phases of b_c in A is that of c in b in A: creating b_c finds the domain
    and the phase of c, one level too deep, and an error of A inside it stops
    the program, where it rolls back to A when the second domain is named bc.
    [name_ok] and [label_ok] do not allow this name; other names with underscores
    they do. *)
Theorem phase_paths_collide :
  second_child "b_c" = Err AssertFail ∧ ∃ s, second_child "bc" = Ok (Jump 1, s).
Proof.
  split; [vm_compute; reflexivity|]. exists (get (Completed, rt0) (second_child "bc")).2. vm_compute. reflexivity.
Qed.

(** The domains of CoSP2, whose labels have underscores, with an error in a pass. *)
Definition sp2_calls : list call :=
  [CBegin "Root_CD"; CCreate "sp2Loop"; CBegin "whileloop_sp2"; CCreate "sp2Loop_while"; CBegin "sp2Loop_while"; CComplete;
   CBegin "sp2Loop_while"; CAssert 2; CComplete; CBegin "sp2Loop_while"; CDetect 1; CComplete; CBegin "whileloop_sp2";
   CCreate "sp2Loop_while"; CBegin "sp2Loop_while"].

Example underscores_allowed : reachable 1024 (after sp2_calls) ∧ uniquePath (after sp2_calls) = [0; 1; 2].
Proof. split; [apply after_reachable|]; by vm_compute. Qed.
