(* ===== verification/Escalation.v ===== *)
(** * Rollback and escalation

    What [GetCDToRecover] does in a state where domains nest ([Nesting]): it
    retires the domains below the rollback point, one after the other, and
    stops at the domain of the rollback point.  The file has the lemmas on one
    retired domain, the explicit result of a whole rollback, and that every
    operation keeps domains nested. *)

From Stdlib Require Import ZArith Lia String.
From stdpp Require Import base gmap list numbers strings.
From S2P Require Import Prelude CdLog TableStore DataStore Preserve PhaseTree Handle Phases Nesting.

(** ** One domain *)

(** The tree after CompletePhase of the current phase [p], [par] its parent. *)
Definition closed_tree (good inc : bool) (p : Z) (par : option Z) (t : PhaseTree) : PhaseTree :=
  let t := IncSeqID p inc t in
  set_current par (if good then t else touch p (set_state kReexecution) t).

Lemma closed_tree_shape good inc p par t : same_shape t (closed_tree good inc p par t).
Proof.
  unfold closed_tree. etrans; [|apply set_current_shape]. etrans; [apply touch_shape; intros; apply IncSeq_like|].
  destruct good; [done|]. apply touch_shape. intros. apply set_state_like.
Qed.

(** The phase of the innermost active domain. *)
Lemma current_phase s phs p :
  nested s (phs ++ [p]) → current_ (tree s) = Some p ∧
  ∃ n, phaseNodeCache (tree s) !! p = Some n ∧ level_ n = Z.of_nat (length phs) ∧ parent_ n = last phs.
Proof.
  intros Hn. rewrite (ns_current s _ Hn), last_snoc. split; [done|].
  destruct (ns_phase s _ Hn (length phs) p) as (n & Hp & Hl & Hpar); [by apply list_lookup_middle|].
  exists n. by rewrite parent_at_last in Hpar.
Qed.

Lemma CompletePhase_nested b s phs p :
  nested s (phs ++ [p]) →
  CompletePhase b s = Ok (with_tree (closed_tree (IsGood s) (IsGood s && negb b) p (last phs) (tree s)) s).
Proof.
  intros Hn. destruct (current_phase s phs p Hn) as (Hcur & n & Hp & _ & Hpar).
  unfold CompletePhase, closed_tree. rewrite Hcur. simpl. rewrite (node_Some _ p n Hp), ret_bind.
  unfold IsFailed. destruct (IsGood s) eqn:Hg; simpl; [by rewrite Hpar|].
  destruct (ns_failed s _ Hn) as [Hf|Hf]; [by unfold IsGood in Hg; rewrite Hf in Hg|].
  rewrite (proj2 (Z.leb_le _ _)) by done. simpl. by rewrite Hpar.
Qed.

Lemma SetRollbackPoint_same s : SetRollbackPoint (CheckRollbackPoint s) s = s.
Proof.
  unfold SetRollbackPoint, CheckRollbackPoint. destruct (Z.eqb_spec (rollback_point_ s) INVALID_ROLLBACK_POINT) as [He|He]; simpl.
  - rewrite <-He. by destruct s.
  - by rewrite Z.ltb_irrefl.
Qed.

(** The state after the last domain [h] was retired as [c']. *)
Definition retired (b : bool) (p : Z) (par : option Z) (h : Z) (c' : Dom) (s : Rt) : Rt :=
  with_tree (closed_tree (IsGood s) (IsGood s && negb b) p par (tree s)) (update h c' s).

Lemma retire b s phs p h c c' :
  nested s (phs ++ [p]) → last (uniquePath s) = Some h → length (uniquePath s) = S (length phs) →
  objs s !! h = Some c → level c' = level c → begin_ c' = true →
  (s ← CompletePhase b (update h c' s); UnsetBegin h s) = Ok (retired b p (last phs) h (with_begin false c') s) ∧
  nested (retired b p (last phs) h (with_begin false c') s) phs.
Proof.
  intros Hn Hh Hlen Hc Hl Hb. split.
  - destruct (current_phase s phs p Hn) as (Hcur & n & Hp & _ & Hpar).
    unfold CompletePhase, retired, closed_tree. simpl. rewrite Hcur. simpl. rewrite (node_Some _ p n Hp), ret_bind.
    change (IsGood (update h c' s)) with (IsGood s). change (IsFailed (update h c' s)) with (IsFailed s).
    assert (∀ t, UnsetBegin h (with_tree t (update h c' s)) = Ok (with_tree t (update h (with_begin false c') s))) as Hu.
    { intros t. unfold UnsetBegin, obj. simpl. rewrite lookup_insert_eq. simpl. rewrite Hb. simpl.
      unfold update. simpl. by rewrite insert_insert_eq. }
    unfold IsFailed. destruct (IsGood s) eqn:Hg; simpl; [by rewrite Hu, Hpar|].
    destruct (ns_failed s _ Hn) as [Hf|Hf]; [by unfold IsGood in Hg; rewrite Hf in Hg|].
    rewrite (proj2 (Z.leb_le _ _)) by done. simpl. by rewrite Hu, Hpar.
  - apply (nested_retire s phs p h c); try done. apply closed_tree_shape.
Qed.

(** ** A whole rollback *)

(** A phase and a domain after a rollback to level [r]. *)
Definition rolled_node (r : Z) (n : PhaseNode) : PhaseNode :=
  if r <=? level_ n then set_state kReexecution (IncSeq false (ResetSeq r n)) else n.
Definition rolled_dom (r : Z) (c : Dom) : Dom :=
  if level c =? r then with_begin false (with_reported false c)
  else if r <? level c then with_begin false (with_prv (DeleteEntryDirectory (prv c)) c)
  else c.

(** [s'] is [s] after GetCDToRecover to level [r]. *)
Record rolled (s : Rt) (phs : list Z) (r : nat) (s' : Rt) : Prop := {
  rl_nested : nested s' (take r phs);
  rl_path : uniquePath s' = take (S r) (uniquePath s);
  rl_objs h : objs s' !! h =
    (λ c, if decide (h ∈ uniquePath s) then rolled_dom (Z.of_nat r) c else c) <$> objs s !! h;
  rl_node p : phaseNodeCache (tree s') !! p =
    (λ n, if decide (p ∈ phs) then rolled_node (Z.of_nat r) n else n) <$> phaseNodeCache (tree s) !! p;
  rl_shape : same_shape (tree s) (tree s');
  rl_rest : access_store_ s' = access_store_ s ∧ gen_obj s' = gen_obj s ∧
    rollback_point_ s' = rollback_point_ s ∧ failed_phase s' = failed_phase s ∧
    failed_seqID s' = failed_seqID s ∧ prev_phase s' = prev_phase s;
}.

Lemma phase_inj s phs i j p : nested s phs → phs !! i = Some p → phs !! j = Some p → i = j.
Proof.
  intros Hn Hi Hj. destruct (ns_phase s phs Hn i p Hi) as (n & Hp & Hl & _).
  destruct (ns_phase s phs Hn j p Hj) as (n' & Hp' & Hl' & _). assert (n' = n) as -> by congruence. lia.
Qed.

(** The states of the runtime that the loop goes through. *)
Definition reset_tree (s : Rt) (p r : Z) : Rt := with_tree (ResetSeqID p r (tree s)) s.

Lemma reset_nested s phs p r : nested s phs → nested (reset_tree s p r) phs.
Proof.
  intros Hn. apply nested_tree; [done| |done]. apply touch_shape. intros. apply ResetSeq_like.
Qed.

Lemma reset_closed_lookup p r par t q :
  phaseNodeCache (closed_tree false false p par (ResetSeqID p r t)) !! q =
  (λ n, if decide (q = p) then set_state kReexecution (IncSeq false (ResetSeq r n)) else n) <$> phaseNodeCache t !! q.
Proof.
  simpl. destruct (decide (q = p)) as [->|Hne].
  - rewrite !lookup_alter_eq, <-!option_fmap_compose. done.
  - rewrite !lookup_alter_ne by done. by destruct (phaseNodeCache t !! q).
Qed.

(** At the rollback point. *)
Lemma rolled_last s phs p h c r :
  nested s (phs ++ [p]) → last (uniquePath s) = Some h → length (uniquePath s) = S (length phs) →
  objs s !! h = Some c → IsGood s = false → r = length phs →
  rolled s (phs ++ [p]) r (retired true p (last phs) h (with_begin false (with_reported false c)) (reset_tree s p (Z.of_nat r))).
Proof.
  intros Hn Hh Hlen Hc Hg ->. destruct (leaf_dom s _ h Hn Hh) as (c' & Hc' & Hl & Hb & _).
  assert (c' = c) as -> by congruence. rewrite Hlen in Hl, Hb. simpl in Hl, Hb.
  rewrite length_app in Hb. simpl in Hb. rewrite bool_decide_eq_true_2 in Hb by lia.
  destruct (current_phase s phs p Hn) as (_ & n & Hp & Hlv & _).
  split.
  - rewrite take_app_length.
    apply (retire true (reset_tree s p (Z.of_nat (length phs))) phs p h c (with_reported false c)); try done.
    by apply reset_nested.
  - simpl. by rewrite take_ge by lia.
  - intros h'. simpl. destruct (decide (h' = h)) as [->|Hne].
    + rewrite lookup_insert_eq, Hc. simpl. rewrite decide_True by (by apply last_Some_elem_of).
      unfold rolled_dom. by rewrite (proj2 (Z.eqb_eq _ _)) by done.
    + rewrite lookup_insert_ne by done. destruct (objs s !! h') as [d|] eqn:Hd; [|done]. simpl. f_equal.
      case_decide as Hin; [|done]. apply list_elem_of_lookup_1 in Hin as [i Hi].
      destruct (ns_dom s _ Hn i h' Hi) as (d' & Hd' & Hl' & _). assert (d' = d) as -> by congruence.
      pose proof (lookup_lt_Some _ _ _ Hi). assert (i ≠ length phs).
      { intros ->. rewrite last_lookup, Hlen in Hh. simpl in Hh. congruence. }
      unfold rolled_dom. rewrite (proj2 (Z.eqb_neq _ _)), (proj2 (Z.ltb_ge _ _)) by lia. done.
  - intros q. unfold retired. simpl tree. change (IsGood (reset_tree s p (Z.of_nat (length phs)))) with (IsGood s).
    rewrite Hg. simpl andb. rewrite reset_closed_lookup.
    destruct (phaseNodeCache (tree s) !! q) as [m|] eqn:Hm; [|done]. simpl. f_equal.
    destruct (decide (q = p)) as [->|Hne].
    + rewrite decide_True by set_solver. assert (m = n) as -> by congruence. unfold rolled_node.
      by rewrite (proj2 (Z.leb_le _ _)) by lia.
    + case_decide as Hin; [|done]. apply elem_of_app in Hin as [Hin|Hin]; [|by apply list_elem_of_singleton in Hin].
      apply list_elem_of_lookup_1 in Hin as [i Hi]. pose proof (lookup_lt_Some _ _ _ Hi).
      destruct (ns_phase s _ Hn i q) as (m' & Hm' & Hl' & _); [by rewrite lookup_app_l|].
      assert (m' = m) as -> by congruence. unfold rolled_node. by rewrite (proj2 (Z.leb_gt _ _)) by lia.
  - unfold retired. simpl. etrans; [|apply closed_tree_shape]. apply touch_shape. intros. apply ResetSeq_like.
  - done.
Qed.

(** Above the rollback point: retire one domain, then the rest. *)
Lemma rolled_step s phs p h c r s' :
  nested s (phs ++ [p]) → last (uniquePath s) = Some h → length (uniquePath s) = S (length phs) →
  objs s !! h = Some c → IsGood s = false → (r < length phs)%nat →
  let s1 := retired true p (last phs) h (with_begin false (with_prv (DeleteEntryDirectory (prv c)) c))
              (reset_tree s p (Z.of_nat r)) in
  rolled (with_path (removelast (uniquePath s)) s1) phs r s' → rolled s (phs ++ [p]) r s'.
Proof.
  intros Hn Hh Hlen Hc Hg Hr s1. destruct (proj1 (last_Some _ _) Hh) as [P Hsnoc].
  assert (removelast (uniquePath s) = P) as -> by (rewrite Hsnoc; apply removelast_last).
  intros [Hnest Hpath Hobjs Hnode Hshape Hrest].
  destruct (leaf_dom s _ h Hn Hh) as (c' & Hc' & Hl & _). assert (c' = c) as -> by congruence.
  rewrite Hlen in Hl. simpl in Hl. destruct (current_phase s phs p Hn) as (_ & n & Hp & Hlv & _).
  pose proof (last_Some_elem_of _ _ Hh) as Hin.
  assert (h ∉ P) as Hnotin.
  { intros Hx. apply list_elem_of_lookup_1 in Hx as [i Hi]. pose proof (lookup_lt_Some _ _ _ Hi) as Hlt.
    assert (i = length P) as ->; [|lia].
    apply (path_inj s _ _ _ h Hn); rewrite Hsnoc; [by rewrite lookup_app_l|by apply list_lookup_middle]. }
  assert (p ∉ phs) as Hpn.
  { intros Hx. apply list_elem_of_lookup_1 in Hx as [i Hi]. pose proof (lookup_lt_Some _ _ _ Hi) as Hlt.
    assert (i = length phs) as ->; [|lia].
    apply (phase_inj s _ _ _ p Hn); [by rewrite lookup_app_l|by apply list_lookup_middle]. }
  split.
  - by rewrite take_app_le by lia.
  - rewrite Hpath. simpl. rewrite Hsnoc, take_app_le; [done|].
    rewrite Hsnoc, length_app in Hlen. simpl in Hlen. lia.
  - intros h'. rewrite Hobjs. simpl. destruct (decide (h' = h)) as [->|Hne].
    + rewrite lookup_insert_eq, Hc. simpl. rewrite decide_False, decide_True by done. f_equal.
      unfold rolled_dom. by rewrite (proj2 (Z.eqb_neq _ _)), (proj2 (Z.ltb_lt _ _)) by lia.
    + rewrite lookup_insert_ne by done. destruct (objs s !! h') as [d|]; [|done]. simpl. f_equal.
      apply decide_ext. rewrite Hsnoc. set_solver.
  - intros q. rewrite Hnode. unfold s1, retired. simpl tree.
    change (IsGood (reset_tree s p (Z.of_nat r))) with (IsGood s). rewrite Hg. simpl andb.
    rewrite reset_closed_lookup. destruct (phaseNodeCache (tree s) !! q) as [m|] eqn:Hm; [|done]. simpl. f_equal.
    destruct (decide (q = p)) as [->|Hne].
    + rewrite decide_False, decide_True by set_solver. assert (m = n) as -> by congruence. unfold rolled_node.
      by rewrite (proj2 (Z.leb_le _ _)) by lia.
    + apply decide_ext. set_solver.
  - etrans; [|done]. unfold s1, retired. simpl. etrans; [|apply closed_tree_shape]. apply touch_shape.
    intros. apply ResetSeq_like.
  - done.
Qed.

Lemma GetCDLevel_last s P h :
  uniquePath s = P ++ [h] → GetCDLevel s (Z.of_nat (length P)) = Ok h.
Proof.
  intros HP. unfold GetCDLevel. rewrite HP, length_app. simpl. rewrite (proj2 (Z.ltb_lt _ _)) by lia.
  apply aload_Ok. split; [lia|]. rewrite Nat2Z.id. by apply list_lookup_middle.
Qed.

(** GetCDToRecover returns the domain of the rollback point, whatever the
    depth of the failed domain. *)
Lemma GetCDToRecover_rolled d fuel s phs h r :
  nested s phs → length (uniquePath s) = length phs → last (uniquePath s) = Some h → IsGood s = false →
  rollback_point_ s = Z.of_nat r → length phs = S (r + d) → (d < fuel)%nat →
  ∃ hr s', uniquePath s !! r = Some hr ∧ GetCDToRecover fuel h s = Ok (hr, s') ∧ rolled s phs r s'.
Proof.
  revert fuel s phs h. induction d as [|d IH]; intros [|fuel] s phs h Hn Hlen Hh Hg Hr Hd Hf; try lia;
    (destruct phs as [|p phs _] using rev_ind; [done|]);
    rewrite length_app in Hlen, Hd; simpl in Hlen, Hd;
    assert (length (uniquePath s) = S (length phs)) as Hlen' by lia;
    destruct (leaf_dom s _ h Hn Hh) as (c & Hc & Hl & Hb & _);
    rewrite Hlen' in Hl, Hb; simpl in Hl, Hb; rewrite length_app in Hb; simpl in Hb;
    rewrite bool_decide_eq_true_2 in Hb by lia;
    destruct (current_phase s phs p Hn) as (Hcur & n & Hp & Hlv & _);
    pose proof (ns_depth s _ Hn) as Hdep;
    pose proof (reset_nested s _ p (Z.of_nat r) Hn) as Hn0;
    cbn [GetCDToRecover]; rewrite (obj_Some s h c Hc), ret_bind, Hcur; cbn [deref]; rewrite ret_bind;
    assert (CheckRollbackPoint s = Z.of_nat r) as -> by done; cbv zeta; rewrite Hl.
  - assert (length phs = r) as Hlr by lia. rewrite Hlr, Z.eqb_refl.
    change (with_tree (ResetSeqID p (Z.of_nat r) (tree s)) s) with (reset_tree s p (Z.of_nat r)).
    rewrite SetRollbackPoint_same.
    destruct (retire true _ phs p h c (with_reported false c) Hn0) as [Hret _]; try done.
    apply bind_Ok in Hret as (s1 & H1 & H2). rewrite H1, ret_bind, H2, ret_bind.
    eexists h, _. split; [rewrite <-Hh, last_lookup; f_equal; lia|]. split; [done|].
    by apply rolled_last.
  - rewrite (proj2 (Z.eqb_neq _ _)), (proj2 (Z.ltb_lt _ _)) by lia.
    rewrite (proj2 (Z.eqb_neq (Z.of_nat r) INVALID_ROLLBACK_POINT)) by lia. cbn [andb negb].
    change (with_tree (ResetSeqID p (Z.of_nat r) (tree s)) s) with (reset_tree s p (Z.of_nat r)).
    rewrite SetRollbackPoint_same.
    destruct (retire true _ phs p h c (with_prv (DeleteEntryDirectory (prv c)) c) Hn0) as [Hret Hn1]; try done.
    apply bind_Ok in Hret as (s1 & H1 & H2). rewrite H1, ret_bind, H2, ret_bind. clear H1 H2 s1.
    set (s1 := retired _ _ _ _ _ _) in *.
    destruct (proj1 (last_Some _ _) Hh) as [P HP].
    assert (removelast (uniquePath s) = P) as HrP by (rewrite HP; apply removelast_last).
    assert (length P = length phs) as HlP by (rewrite HP, length_app in Hlen'; simpl in Hlen'; lia).
    assert (uniquePath s1 = uniquePath s) as Hp1 by done.
    destruct (proj2 (last_is_Some P)) as [h1 Hh1]; [by destruct P; simpl in *; [lia|]|].
    destruct (proj1 (last_Some _ _) Hh1) as [P' HP'].
    assert (Destroy s1 = Ok (with_path P s1)) as ->.
    { unfold Destroy. rewrite Hp1, Hlen'. rewrite (proj2 (Z.ltb_lt _ _)) by lia. cbn [cassert].
      rewrite ret_bind. rewrite (ns_current s1 phs Hn1).
      destruct (proj2 (last_is_Some phs)) as [x ->]; [by destruct phs; simpl in *; [lia|]|]. simpl.
      by rewrite HrP. }
    rewrite ret_bind. assert (nested (with_path P s1) phs) as Hn2.
    { rewrite <-HrP, <-Hp1. apply nested_destroy; [done|rewrite Hp1; lia|rewrite Hp1; lia]. }
    replace (Z.of_nat (length phs) - 1) with (Z.of_nat (length P')) by (rewrite <-HlP, HP', length_app; simpl; lia).
    rewrite (GetCDLevel_last (with_path P s1) P' h1 HP'), ret_bind.
    destruct (IH fuel (with_path P s1) phs h1) as (hr & s' & Hhr & Hget & Hrl); [done..|lia|lia|].
    exists hr, s'. split; [rewrite HP; by apply lookup_app_l_Some|]. split; [done|].
    apply (rolled_step s phs p h c r s'); try done; [lia|]. by rewrite HrP.
Qed.

(** ** Complete *)

(** What is known about the last domain while it is active. *)
Record at_leaf (s : Rt) (phs : list Z) (h : Z) (p : Z) (c : Dom) (n : PhaseNode) : Prop := {
  al_nested : nested s (phs ++ [p]);
  al_len : length (uniquePath s) = S (length phs);
  al_last : last (uniquePath s) = Some h;
  al_dom : objs s !! h = Some c;
  al_level : level c = Z.of_nat (length phs);
  al_begin : begin_ c = true;
  al_phase : phase c = p;
  al_mode : mode c ≠ kSuspension;
  al_current : current_ (tree s) = Some p;
  al_node : phaseNodeCache (tree s) !! p = Some n;
  al_nlevel : level_ n = Z.of_nat (length phs);
  al_parent : parent_ n = last phs;
}.

Lemma at_leaf_intro s phs h :
  nested s phs → last (uniquePath s) = Some h → active s h → ∃ phs' p c n, phs = phs' ++ [p] ∧ at_leaf s phs' h p c n.
Proof.
  intros Hn Hh Ha. pose proof (active_length s phs h Hn Hh Ha) as Hlen. pose proof (ns_pos s phs Hn) as Hpos.
  destruct phs as [|p phs _] using rev_ind; [by destruct (uniquePath s)|].
  rewrite length_app in Hlen. simpl in Hlen. assert (length (uniquePath s) = S (length phs)) as Hlen' by lia.
  destruct (leaf_dom s _ h Hn Hh) as (c & Hc & Hl & Hb & Hp). rewrite Hlen' in Hl, Hb, Hp. simpl in Hl, Hb, Hp.
  destruct (Hp p) as [Hph Hm]; [by apply list_lookup_middle|].
  destruct (current_phase s phs p Hn) as (Hcur & n & Hpn & Hlv & Hpar).
  exists phs, p, c, n. split; [done|]. split; try done.
  rewrite Hb. apply bool_decide_eq_true. rewrite length_app. simpl. lia.
Qed.

Section leaf.
Context (s : Rt) (phs : list Z) (h p : Z) (c : Dom) (n : PhaseNode) (Hl : at_leaf s phs h p c n).

Lemma leaf_current : GetCurrentCD s = Ok (Some h).
Proof.
  unfold GetCurrentCD. rewrite (al_last _ _ _ _ _ _ Hl), (obj_Some s h c (al_dom _ _ _ _ _ _ Hl)), ret_bind.
  by rewrite bool_decide_eq_false_2 by apply (al_mode _ _ _ _ _ _ Hl).
Qed.

(** SetFailure remembers where the failure was, unless a recovery goes on. *)
Definition failing : Rt := if IsGood s then with_failed p (seq_end_ n) s else s.

Lemma SetFailure_failing : SetFailure (phase c) s = Ok failing.
Proof.
  unfold SetFailure, failing. destruct (IsGood s); [|done].
  rewrite (al_current _ _ _ _ _ _ Hl). simpl. rewrite (node_Some _ p n (al_node _ _ _ _ _ _ Hl)). simpl.
  by rewrite (al_phase _ _ _ _ _ _ Hl).
Qed.

Lemma failing_nested : nested failing (phs ++ [p]).
Proof.
  pose proof (al_nested _ _ _ _ _ _ Hl) as Hn. unfold failing. destruct (IsGood s); [|done].
  apply (nested_globals s); try done; [|by apply (ns_rollback s _ Hn)]. right. simpl.
  apply (tw_dom _ (ns_wf s _ Hn) p n), (al_node _ _ _ _ _ _ Hl).
Qed.

Lemma failing_failed : IsGood failing = false.
Proof.
  unfold failing. destruct (IsGood s) eqn:Hg; [|done]. unfold IsGood. simpl. apply Z.eqb_neq.
  pose proof (tw_dom _ (ns_wf s _ (al_nested _ _ _ _ _ _ Hl)) p n (al_node _ _ _ _ _ _ Hl)). unfold HEALTHY. lia.
Qed.

Lemma failing_fields :
  tree failing = tree s ∧ objs failing = objs s ∧ uniquePath failing = uniquePath s ∧
  rollback_point_ failing = rollback_point_ s.
Proof. unfold failing. by destruct (IsGood s). Qed.

(** A failed Complete rolls back to the domain of the rollback point. *)
Lemma Rollback_rolled r :
  rollback_point_ s = Z.of_nat r → (r ≤ length phs)%nat →
  ∃ hr s1, uniquePath s !! r = Some hr ∧ rolled failing (phs ++ [p]) r s1 ∧
    Complete h s = (s' ← Recover hr s1; Ok (Jump hr, s')).
Proof.
  intros Hr Hle. destruct failing_fields as (Ft & Fo & Fp & Fr).
  destruct (GetCDToRecover_rolled (length phs - r) (S (length (uniquePath failing))) failing (phs ++ [p]) h r)
    as (hr & s1 & Hhr & Hget & Hrl).
  - apply failing_nested.
  - rewrite Fp, (al_len _ _ _ _ _ _ Hl), length_app. simpl. lia.
  - rewrite Fp. apply (al_last _ _ _ _ _ _ Hl).
  - apply failing_failed.
  - by rewrite Fr.
  - rewrite length_app. simpl. lia.
  - rewrite Fp, (al_len _ _ _ _ _ _ Hl). lia.
  - exists hr, s1. rewrite Fp in Hhr. split; [done|]. split; [done|].
    unfold Complete. rewrite leaf_current, ret_bind. cbn [deref]. rewrite ret_bind, Z.eqb_refl. cbn [cassert].
    rewrite ret_bind, (obj_Some s h c (al_dom _ _ _ _ _ _ Hl)), ret_bind, (al_phase _ _ _ _ _ _ Hl).
    rewrite (node_Some _ p n (al_node _ _ _ _ _ _ Hl)), ret_bind, SetRollbackPoint_same.
    unfold CheckRollbackPoint. rewrite Hr, (al_level _ _ _ _ _ _ Hl), (proj2 (Z.leb_le _ _)) by lia.
    unfold Rollback. rewrite SetFailure_failing, ret_bind.
    assert (GetCurrentCD failing = Ok (Some h)) as ->.
    { pose proof leaf_current as Hc. unfold GetCurrentCD, obj in *. by rewrite Fo, Fp. }
    rewrite ret_bind. cbn [deref]. by rewrite ret_bind, Hget, ret_bind.
Qed.

(** The domain after a Complete without an error. *)
Definition completed_dom : Dom :=
  with_prv (Complete_prv (prv c)) (with_seqid (u32 (sequential_id c + 1)) (with_reported false c)).

Lemma Complete_no_error :
  level c < rollback_point_ s →
  Complete h s = (s1 ← CheckRecovered c s; s2 ← CompletePhase false (update h completed_dom s1);
                  s3 ← UnsetBegin h s2; Ok (Completed, s3)).
Proof.
  intros Hlt. unfold Complete. rewrite leaf_current, ret_bind. cbn [deref].
  rewrite ret_bind, Z.eqb_refl. cbn [cassert].
  rewrite ret_bind, (obj_Some s h c (al_dom _ _ _ _ _ _ Hl)), ret_bind, (al_phase _ _ _ _ _ _ Hl).
  rewrite (node_Some _ p n (al_node _ _ _ _ _ _ Hl)), ret_bind, SetRollbackPoint_same.
  unfold CheckRollbackPoint. by rewrite (proj2 (Z.leb_gt _ _)) by lia.
Qed.
End leaf.

(** ** Every operation keeps domains nested *)

(** The check for the failure point either changes nothing, or ends the
    recovery at the phase and count where it began. *)
Lemma CheckRecovered_Ok s phs h p c n s1 :
  at_leaf s phs h p c n → CheckRecovered c s = Ok s1 →
  (s1 = s ∧ ¬ (IsGood s = false ∧ failed_phase s = p ∧ failed_seqID s = seq_end_ n)) ∨
  (IsGood s = false ∧ failed_phase s = p ∧ failed_seqID s = seq_end_ n ∧
   ∃ t, restated (tree s) t ∧ s1 = with_tree t (with_failed HEALTHY HEALTHY s)).
Proof.
  intros Hl. pose proof (ns_wf s _ (al_nested _ _ _ _ _ _ Hl)) as Hwf. unfold CheckRecovered, SetHealthy.
  rewrite (al_current _ _ _ _ _ _ Hl). simpl. rewrite (node_Some _ p n (al_node _ _ _ _ _ _ Hl)). simpl.
  rewrite (al_phase _ _ _ _ _ _ Hl). unfold IsFailed. destruct (IsGood s) eqn:Hg; simpl.
  { intros [= <-]. left. split; [done|]. by intros [? _]. }
  destruct (Z.eqb_spec (failed_phase s) p) as [Hf|Hf]; simpl.
  2:{ intros [= <-]. left. split; [done|]. by intros (_ & ? & _). }
  destruct (Z.eqb_spec (failed_seqID s) (seq_end_ n)) as [Hq|Hq].
  - intros (t & Ht & [= <-])%bind_Ok. right. repeat (split; [done|]). exists t. split; [|done].
    by apply (finish_recovery_Ok (S (Z.to_nat p)) p).
  - destruct (seq_end_ n <? failed_seqID s); [|done]. intros [= <-]. left. split; [done|]. by intros (_ & _ & ?).
Qed.

Lemma healed_nested s phs t :
  nested s phs → restated (tree s) t → nested (with_tree t (with_failed HEALTHY HEALTHY s)) phs.
Proof.
  intros Hn Hr. apply (nested_tree (with_failed HEALTHY HEALTHY s)).
  - apply (nested_globals s); try done; [by left|by apply (ns_rollback s phs Hn)].
  - by apply restated_shape.
  - apply (rs_current _ _ Hr).
Qed.

Lemma Complete_no_error_nested s phs h p c n s1 o s' :
  at_leaf s phs h p c n → level c < rollback_point_ s → CheckRecovered c s = Ok s1 → Complete h s = Ok (o, s') →
  o = Completed ∧ s' = retired false p (last phs) h (with_begin false (completed_dom c)) s1 ∧ nested s' phs.
Proof.
  intros Hl Hlt H1. rewrite (Complete_no_error s phs h p c n Hl Hlt), H1, ret_bind. intros HC.
  apply (CheckRecovered_Ok s phs h p c n s1 Hl) in H1.
  assert (nested s1 (phs ++ [p]) ∧ uniquePath s1 = uniquePath s ∧ objs s1 = objs s) as (Hn1 & Hp1 & Ho1).
  { destruct H1 as [[-> _]|(_ & _ & _ & t & Ht & ->)]; [split; [apply (al_nested _ _ _ _ _ _ Hl)|done]|].
    split; [|done]. apply healed_nested; [apply (al_nested _ _ _ _ _ _ Hl)|done]. }
  destruct (retire false s1 phs p h c (completed_dom c)) as [Hr Hn2]; try done.
  - rewrite Hp1. apply (al_last _ _ _ _ _ _ Hl).
  - rewrite Hp1. apply (al_len _ _ _ _ _ _ Hl).
  - rewrite Ho1. apply (al_dom _ _ _ _ _ _ Hl).
  - apply (al_begin _ _ _ _ _ _ Hl).
  - apply bind_Ok in HC as (s2 & H2 & HC). rewrite H2, ret_bind in Hr. rewrite Hr in HC. injection HC as <- <-. done.
Qed.

Lemma Recover_Ok hr s s' :
  Recover hr s = Ok s' → ∃ c x, objs s !! hr = Some c ∧ (∃ w, Preserve.Recover w (prv c) = Ok x) ∧
    exec_mode_ x = kReexecution ∧ s' = with_just true (update hr (with_reex (num_reexecution_ c + 1) (with_prv x c)) s).
Proof.
  unfold Recover. intros (c & Hc%obj_Ok & H)%bind_Ok. apply bind_Ok in H as (n & _ & H).
  apply bind_Ok in H as (x & Hx & H). injection H as <-.
  exists c, x. split; [done|]. split; [by eexists|]. split; [|reflexivity].
  unfold Preserve.Recover, RestoreAll in Hx. apply bind_Ok in Hx as (l1 & _ & Hx). apply bind_Ok in Hx as (t & _ & Hx).
  apply bind_Ok in Hx as ([num objs1] & _ & Hx). apply bind_Ok in Hx as (l2 & _ & Hx).
  apply bind_Ok in Hx as ([] & _ & Hx). by injection Hx as <-.
Qed.

Lemma Recover_nested hr s phs s' : nested s phs → Recover hr s = Ok s' → nested s' phs.
Proof.
  intros Hn (c & x & Hc & _ & Hx & ->)%Recover_Ok.
  apply (nested_globals (update hr (with_reex (num_reexecution_ c + 1) (with_prv x c)) s)); try done.
  - apply (nested_update s phs hr c); try done. intros _. unfold mode. simpl. by rewrite Hx.
  - apply (ns_failed s phs Hn).
  - apply (ns_rollback s phs Hn).
Qed.

Lemma Complete_cases s phs h p c n o s' :
  at_leaf s phs h p c n → Complete h s = Ok (o, s') →
  (level c < rollback_point_ s ∧ o = Completed ∧ nested s' phs ∧ ∃ s1, CheckRecovered c s = Ok s1 ∧
     s' = retired false p (last phs) h (with_begin false (completed_dom c)) s1) ∨
  (∃ r hr s1, rollback_point_ s = Z.of_nat r ∧ (r ≤ length phs)%nat ∧ uniquePath s !! r = Some hr ∧
     rolled (failing s p n) (phs ++ [p]) r s1 ∧ Recover hr s1 = Ok s' ∧ o = Jump hr ∧ nested s' (take r phs)).
Proof.
  intros Hl HC. destruct (Z_lt_le_dec (level c) (rollback_point_ s)) as [Hlt|Hle].
  - left. split; [done|]. pose proof HC as HC'. rewrite (Complete_no_error s phs h p c n Hl Hlt) in HC'.
    apply bind_Ok in HC' as (s1 & H1 & _).
    destruct (Complete_no_error_nested s phs h p c n s1 o s' Hl Hlt H1 HC) as (-> & Hs & Hn). eauto.
  - right. pose proof (ns_rollback s _ (al_nested _ _ _ _ _ _ Hl)) as Hr0. rewrite (al_level _ _ _ _ _ _ Hl) in Hle.
    assert (rollback_point_ s = Z.of_nat (Z.to_nat (rollback_point_ s))) as Hr by lia.
    assert (Z.to_nat (rollback_point_ s) ≤ length phs)%nat as Hle' by lia.
    destruct (Rollback_rolled s phs h p c n Hl _ Hr Hle') as (hr & s1 & Hhr & Hrl & Heq).
    rewrite Heq in HC. apply bind_Ok in HC as (s2 & H2 & HC). injection HC as <- <-.
    eexists _, hr, s1. repeat (split; [done|]). apply (Recover_nested hr s1); [|done].
    pose proof (rl_nested _ _ _ _ Hrl) as Hn. by rewrite take_app_le in Hn by done.
Qed.

(** A domain created below the last one. *)
Lemma nested_push s s' phs h' c' :
  nested s phs → length (uniquePath s) = length phs → Z.of_nat (length (uniquePath s)) < INVALID_ROLLBACK_POINT →
  tree s' = tree s → uniquePath s' = uniquePath s ++ [h'] → objs s' = <[h' := c']> (objs s) →
  placed phs (length phs) c' → (∀ c, objs s !! h' = Some c → level c = level c') →
  h' < gen_obj s' → gen_obj s ≤ gen_obj s' →
  failed_phase s' = failed_phase s → 0 ≤ rollback_point_ s' → prev_phase s' = prev_phase s →
  nested s' phs.
Proof.
  intros Hn Hlen Hdep Ht Hp Ho Hpl Hsame Hgen Hgen' Hf Hr Hpv.
  destruct Hn as [Nw Np Nl Nd Nc Nph Ndom Nfr Nf Nrb Npv Nlb].
  split; rewrite ?Ht, ?Hp, ?Ho, ?Hf, ?Hpv; try done.
  - by destruct (uniquePath s).
  - right. rewrite length_app. simpl. lia.
  - rewrite length_app. simpl. lia.
  - intros i h0 Hi. apply lookup_app_Some in Hi as [Hi|[Hge Hi]].
    + destruct (Ndom i h0 Hi) as (d & Hd & Hpd). pose proof (lookup_lt_Some _ _ _ Hi).
      rewrite lookup_insert_ne; [by exists d|]. intros ->. pose proof (Hsame d Hd) as Hl.
      destruct Hpd as (Hl' & _). destruct Hpl as (Hl'' & _). lia.
    + apply list_lookup_singleton_Some in Hi as [Hi ->]. assert (i = length phs) as -> by lia.
      rewrite lookup_insert_eq. by exists c'.
  - intros h0 d [[<- <-]|[_ Hd]]%lookup_insert_Some; [done|]. apply Nfr in Hd. lia.
  - intros i h0 q d n Hi Hq Hd. pose proof (lookup_lt_Some _ _ _ Hq).
    rewrite lookup_app_l in Hi by lia. destruct (Ndom (S i) h0 Hi) as (e & He & Hle & _).
    apply (Nlb i h0 q); [done|done|]. apply lookup_insert_Some in Hd as [[<- <-]|[_ Hd]]; [|done].
    pose proof (Hsame e He) as Hl'. destruct Hpl as (Hl'' & _). lia.
Qed.

Lemma Create_nested u s phs h nm h' s' :
  nested s phs → last (uniquePath s) = Some h → active s h → name_ok s nm →
  Z.of_nat (length (uniquePath s)) < INVALID_ROLLBACK_POINT → Create u h nm s = Ok (h', s') → nested s' phs.
Proof.
  intros Hn Hh Ha Hnm Hdep HC. destruct (at_leaf_intro s phs h Hn Hh Ha) as (phs' & p & c & n & -> & Hl).
  pose proof (ns_wf s _ Hn) as Hwf. pose proof (al_len _ _ _ _ _ _ Hl) as Hlen.
  unfold Create in HC. rewrite (obj_Some s h c (al_dom _ _ _ _ _ _ Hl)), ret_bind in HC.
  unfold name_ok in Hnm. rewrite (al_current _ _ _ _ _ _ Hl) in HC, Hnm. cbn [deref] in HC. rewrite ret_bind in HC.
  destruct (GetPhasePathOf (tree s) p nm) as [key|]; [|done]. rewrite ret_bind in HC.
  apply bind_Ok in HC as ([h1 s1] & HI & HC). injection HC as <- <-.
  assert (∀ d, level d = Z.of_nat (length phs') + 1 → begin_ d = false → placed (phs' ++ [p]) (length (phs' ++ [p])) d) as Hplaced.
  { intros d Hld Hbd. unfold placed. rewrite Hld, Hbd, length_app. simpl.
    split; [lia|]. split; [symmetry; apply bool_decide_eq_false; lia|].
    intros q Hq%lookup_lt_Some. rewrite length_app in Hq. simpl in Hq. lia. }
  assert (length (uniquePath s) = length (phs' ++ [p])) as Hlen' by (rewrite length_app; simpl; lia).
  unfold InternalCreate in HI. destruct (access_store_ s !! key) as [a|].
  - apply bind_Ok in HI as (d & Hd%obj_Ok & HI). injection HI as <- <-. rewrite Hd in Hnm. apply Is_true_true, Z.eqb_eq in Hnm.
    assert (level d = Z.of_nat (length phs') + 1) as Hld by lia.
    apply (nested_push s _ (phs' ++ [p]) a (Initialize nm d)); try done.
    + by apply Hplaced.
    + intros d0 Hd0. by assert (d0 = d) as -> by congruence.
    + by apply (ns_fresh s _ Hn a d).
  - apply bind_Ok in HI as (d & Hd & HI). injection HI as <- <-. unfold Dom_new in Hd.
    apply bind_Ok in Hd as (x & _ & Hd). injection Hd as <-. rewrite (al_level _ _ _ _ _ _ Hl).
    rewrite u32_small by (unfold INVALID_ROLLBACK_POINT in Hdep; lia).
    eapply (nested_push s _ (phs' ++ [p]) (gen_obj s)); try done; try exact (ns_rollback s _ Hn).
    + by apply Hplaced.
    + intros d0 Hd0. apply (ns_fresh s _ Hn) in Hd0. lia.
    + simpl. lia.
    + simpl. lia.
Qed.

Lemma CD_Init_nested u s : CD_Init u = Ok s → nested s [].
Proof.
  unfold CD_Init, InternalCreate. simpl. rewrite lookup_empty.
  intros ([h s1] & Hd & HC)%bind_Ok. injection HC as <-. apply bind_Ok in Hd as (d & Hd & HI). injection HI as <- <-.
  unfold Dom_new in Hd. apply bind_Ok in Hd as (x & _ & Hd). injection Hd as <-.
  split; simpl; try done.
  - apply empty_tree_wf.
  - by right.
  - intros [|i] h Hi; [|done]. injection Hi as <-. eexists. split; [by rewrite lookup_insert_eq|]. by repeat split.
  - intros h d [[<- <-]|[_ Hd]]%lookup_insert_Some; lia || done.
  - by left.
Qed.

Lemma SetRollbackPoint_nested s phs lv : nested s phs → 0 ≤ lv → nested (SetRollbackPoint lv s) phs.
Proof.
  intros Hn Hlv. unfold SetRollbackPoint. destruct (negb _).
  - destruct (lv <? rollback_point_ s); [|done]. by apply (nested_globals s); try done; apply (ns_failed s phs Hn).
  - by apply (nested_globals s); try done; apply (ns_failed s phs Hn).
Qed.

Lemma level_nonneg s phs h c : nested s phs → h ∈ uniquePath s → objs s !! h = Some c → 0 ≤ level c.
Proof.
  intros Hn Hin Hc. apply list_elem_of_lookup_1 in Hin as [i Hi].
  destruct (ns_dom s phs Hn i h Hi) as (d & Hd & Hl & _). assert (d = c) as -> by congruence. lia.
Qed.

Lemma CDAssert_Ok h b s s' :
  CDAssert h b s = Ok s' → s' = s ∨ ∃ c, objs s !! h = Some c ∧ s' = SetRollbackPoint (level c) s.
Proof.
  unfold CDAssert. intros (c & Hc%obj_Ok & H)%bind_Ok. destruct b; [injection H as <-; by left|].
  apply bind_Ok in H as (o & _ & H). apply bind_Ok in H as (d & _ & H). apply bind_Ok in H as (e & _ & H).
  destruct (_ || _); [|done]. injection H as <-. right. by exists c.
Qed.

Lemma step_nested u s phs s' : nested s phs → step u s s' → ∃ phs', nested s' phs'.
Proof.
  intros Hn Hst. destruct Hst as [s h nm h' s' Hh Ha Hnm Hd HC|s h lab s' Hh Hlab HB|s h o s' Hh Ha HC
    |s h s' Hh Ha Hlen HD|s h b s' Hin Ha HA|s r h s' Hr Ha HD|s h c x Hc Hx].
  - exists phs. by apply (Create_nested u s phs h nm h').
  - destruct (Begin_nested s phs h lab s') as (c & p & _ & _ & Hp); [done..|]. eauto.
  - destruct (at_leaf_intro s phs h Hn Hh Ha) as (phs' & p & c & n & -> & Hl).
    destruct (Complete_cases s phs' h p c n o s' Hl HC) as [(_ & _ & Hn' & _)|(r & hr & s1 & _ & _ & _ & _ & _ & _ & Hn')];
      eauto.
  - exists phs. unfold Destroy in HD. apply bind_Ok in HD as (v & _ & HD). apply bind_Ok in HD as (w & _ & HD).
    injection HD as <-. apply nested_destroy; [done| |done]. by apply (inactive_length s phs h).
  - exists phs. apply CDAssert_Ok in HA as [->|(c & Hc & ->)]; [done|].
    apply SetRollbackPoint_nested; [done|]. by apply (level_nonneg s phs h).
  - exists phs. unfold Detect in HD. apply bind_Ok in HD as (v & _ & HD). injection HD as <-.
    apply SetRollbackPoint_nested; [done|lia].
  - exists phs. apply (nested_update s phs h c); try done. unfold mode. simpl. by rewrite Hx.
Qed.

Lemma reachable_nested u s : reachable u s → ∃ phs, nested s phs.
Proof.
  induction 1 as [s HI|s s' _ [phs IH] Hst]; [|by apply (step_nested u s phs)].
  exists []. by apply (CD_Init_nested u).
Qed.

(** ** Nesting and escalation *)

(** C10: in every state that a program reaches through the interface, errors and
    rollbacks included, with labels whose paths are not those of other phases or
    domains ([label_ok], [name_ok]; without this, see [phase_paths_collide]),
    domains nest: position and level of a domain agree,
    all domains of the path but possibly the last have begun, the phase of each
    lies below the phase of the one before in the tree of phases, and the
    current phase is that of the innermost domain that has begun. *)
Theorem domains_nest u s : reachable u s → ∃ phs, nested s phs.
Proof. apply reachable_nested. Qed.

(** The domain at position [j] after an escalation to position [r], where the
    store of the domain at [r] becomes [x]. *)
Definition escalated_dom (r j : nat) (x : CDPrv) (c : Dom) : Dom :=
  if (j <? r)%nat then c
  else if (j =? r)%nat then with_reex (num_reexecution_ c + 1) (with_prv x (with_begin false (with_reported false c)))
  else with_begin false (with_prv (DeleteEntryDirectory (prv c)) c).

Lemma rolled_dom_at s phs r j h c :
  nested s phs → uniquePath s !! j = Some h → objs s !! h = Some c →
  rolled_dom (Z.of_nat r) c =
    if (j <? r)%nat then c else if (j =? r)%nat then with_begin false (with_reported false c)
    else with_begin false (with_prv (DeleteEntryDirectory (prv c)) c).
Proof.
  intros Hn Hj Hc. destruct (ns_dom s phs Hn j h Hj) as (d & Hd & Hl & _). assert (d = c) as -> by congruence.
  unfold rolled_dom. rewrite Hl. destruct (Nat.ltb_spec j r), (Nat.eqb_spec j r), (Z.eqb_spec (Z.of_nat j) (Z.of_nat r)),
    (Z.ltb_spec (Z.of_nat r) (Z.of_nat j)); done || lia.
Qed.

(** A root with a domain A in it, both active, which has been executed twice
    and is executed for the third time. *)
Definition third_A : list call :=
  [CBegin NO_LABEL; CCreate "A"; CBegin NO_LABEL; CComplete; CBegin NO_LABEL; CComplete; CBegin NO_LABEL].

Lemma domains_nest_witness : reachable 1024 (after third_A) ∧ ∃ phs, nested (after third_A) phs.
Proof.
  assert (reachable 1024 (after third_A)) as H by (apply after_reachable; vm_compute; reflexivity).
  split; [exact H|]. exact (domains_nest 1024 _ H).
Defined.

(** The failure that a Complete of [c] after an error remembers, and what the
    recovery of [cr] then prints. *)
Definition phase_count (s : Rt) (p : Z) : Z :=
  match phaseNodeCache (tree s) !! p with Some n => seq_end_ n | None => 0 end.
Definition failure_point (c : Dom) (s : Rt) : Z * Z :=
  if IsGood s then (phase c, phase_count s (phase c)) else (failed_phase s, failed_seqID s).
Definition recovery_place (c cr : Dom) (s : Rt) : Place :=
  mkPlace (label cr) (level cr) (phase_count s (phase cr)) (failure_point c s).2.

(** The recovery finds the phase of its domain with the count it had. *)
Lemma Recover_place s phs h p c n r hr cr s1 :
  at_leaf s phs h p c n → rolled (failing s p n) (phs ++ [p]) r s1 → (r ≤ length phs)%nat →
  uniquePath s !! r = Some hr → objs s !! hr = Some cr → objs s1 !! hr = Some (rolled_dom (Z.of_nat r) cr) →
  (failed_phase s1, failed_seqID s1) = failure_point c s ∧
  Recover hr s1 = (x ← Preserve.Recover (recovery_place c cr s) (prv cr);
    Ok (with_just true (update hr (with_reex (num_reexecution_ cr + 1)
      (with_prv x (with_begin false (with_reported false cr)))) s1))).
Proof.
  intros Hl Hrl Hle Hhr Hcr Hd. pose proof (al_nested _ _ _ _ _ _ Hl) as Hn.
  destruct (failing_fields s p n) as (Ft & Fo & Fp & _). pose proof (rl_node _ _ _ _ Hrl (phase cr)) as Hnode.
  destruct (rl_rest _ _ _ _ Hrl) as (_ & _ & _ & Rf & Rq & _).
  assert ((failed_phase s1, failed_seqID s1) = failure_point c s) as Hfp.
  { rewrite Rf, Rq. unfold failure_point, failing, phase_count. destruct (IsGood s); [|done]. simpl.
    by rewrite (al_phase _ _ _ _ _ _ Hl), (al_node _ _ _ _ _ _ Hl). }
  split; [done|]. apply (f_equal snd) in Hfp. simpl in Hfp.
  destruct (lookup_lt_is_Some_2 (phs ++ [p]) r) as [q Hq]; [rewrite length_app; simpl; lia|].
  destruct (ns_dom s _ Hn r hr Hhr) as (d & Hd' & Hlv & _ & Hp). assert (d = cr) as -> by congruence.
  destruct (Hp q Hq) as [Hph _]. destruct (ns_phase s _ Hn r q Hq) as (m & Hm & Hml & _).
  rewrite Ft, Hph, Hm in Hnode. simpl in Hnode. rewrite decide_True in Hnode by (by eapply list_elem_of_lookup_2).
  unfold Recover. rewrite (obj_Some s1 hr _ Hd), ret_bind.
  rewrite (rolled_dom_at s _ r r hr cr Hn Hhr Hcr), Nat.ltb_irrefl, Nat.eqb_refl.
  cbn [phase with_begin with_reported label level prv num_reexecution_]. rewrite Hph, (node_Some _ q _ Hnode), ret_bind.
  assert (seq_end_ (rolled_node (Z.of_nat r) m) = phase_count s (phase cr)) as ->.
  { unfold phase_count, rolled_node, ResetSeq. rewrite Hph, Hm, Hml, Z.leb_refl, Z.ltb_irrefl. done. }
  by rewrite Hfp.
Qed.

(** A Complete after an error reported at or above the last domain jumps to the
    domain of the rollback point. *)
Lemma Complete_jumps u s h c r hr cr x :
  reachable u s → last (uniquePath s) = Some h → active s h → objs s !! h = Some c →
  rollback_point_ s = Z.of_nat r → Z.of_nat r ≤ level c →
  uniquePath s !! r = Some hr → objs s !! hr = Some cr → Preserve.Recover (recovery_place c cr s) (prv cr) = Ok x →
  ∃ s', Complete h s = Ok (Jump hr, s') ∧ uniquePath s' = take (S r) (uniquePath s) ∧
    (∀ j hj cj, uniquePath s !! j = Some hj → objs s !! hj = Some cj →
       objs s' !! hj = Some (escalated_dom r j x cj)) ∧
    current_ (tree s') = (match r with O => None | S q => hq ← uniquePath s !! q; phase <$> objs s !! hq end) ∧
    (failed_phase s', failed_seqID s') = failure_point c s ∧
    rollback_point_ s' = Z.of_nat r.
Proof.
  intros Hreach Hh Ha Hc Hr Hle Hhr Hcr Hx. destruct (reachable_nested u s Hreach) as [phs0 Hn0].
  destruct (at_leaf_intro s phs0 h Hn0 Hh Ha) as (phs & p & c' & n & -> & Hl).
  pose proof (al_dom _ _ _ _ _ _ Hl) as Hc'. assert (c' = c) as -> by congruence.
  rewrite (al_level _ _ _ _ _ _ Hl) in Hle.
  destruct (Rollback_rolled s phs h p c n Hl r Hr) as (hr' & s1 & Hhr' & Hrl & ->); [lia|].
  assert (hr' = hr) as -> by congruence.
  destruct (failing_fields s p n) as (Ft & Fo & Fp & Fr).
  pose proof (failing_nested s phs h p c n Hl) as Hnf.
  pose proof Hrl as Hrl0. destruct Hrl as [Rn Rp Ro Rt Rs (Ra & Rg & Rr & _)]. rewrite Fo, Fp in Ro. rewrite Fp in Rp.
  assert (∀ j hj cj, uniquePath s !! j = Some hj → objs s !! hj = Some cj →
    objs s1 !! hj = Some (rolled_dom (Z.of_nat r) cj)) as Hroll.
  { intros j hj cj Hj Hcj. rewrite Ro, Hcj. simpl. rewrite decide_True; [done|]. by eapply list_elem_of_lookup_2. }
  destruct (Recover_place s phs h p c n r hr cr s1 Hl Hrl0) as [Hfp ->]; [lia|done|done|by apply (Hroll r)|].
  rewrite Hx, !ret_bind. eexists. split; [reflexivity|]. simpl. split; [done|]. split; [|split; [|split]].
  - intros j hj cj Hj Hcj. unfold escalated_dom. destruct (decide (hj = hr)) as [->|Hne].
    + rewrite lookup_insert_eq. assert (j = r) as -> by (by apply (path_inj s _ _ _ hr Hn0)).
      rewrite Nat.ltb_irrefl, Nat.eqb_refl. by assert (cj = cr) as -> by congruence.
    + rewrite lookup_insert_ne by done. rewrite (Hroll j hj cj Hj Hcj), (rolled_dom_at s _ r j hj cj Hn0 Hj Hcj).
      destruct (Nat.ltb_spec j r); [done|]. destruct (Nat.eqb_spec j r) as [->|]; [|done]. congruence.
  - rewrite (ns_current s1 _ Rn). rewrite take_app_le by lia. destruct r as [|q]; [done|].
    destruct (lookup_lt_is_Some_2 (uniquePath s) q) as [hq Hq]; [rewrite (al_len _ _ _ _ _ _ Hl); lia|].
    destruct (ns_dom s _ Hn0 q hq Hq) as (d & Hd & _ & _ & Hp). rewrite Hq. simpl. rewrite Hd. simpl.
    rewrite last_lookup, length_take_le by lia. simpl. rewrite lookup_take_lt by lia.
    destruct (lookup_lt_is_Some_2 phs q) as [pq Hpq]; [lia|]. rewrite Hpq.
    destruct (Hp pq) as [-> _]; [by apply lookup_app_l_Some|done].
  - exact Hfp.
  - by rewrite Rr, Fr.
Qed.

(** C7: a Complete after an error that was reported for the level of the domain
    at position [r], at or above the last one, returns to the Begin of that
    domain, if what that domain preserved can be read back ([Preserve.Recover]
    returns; it does not for regions of more than 200 bytes or labels of more than
    45 characters), in a program whose labels are not taken for other phases or
    domains.  The path ends there; the domains below are no longer active and
    their stores are empty; that domain is to be executed again, with its store;
    the domains above are as they were.  The current phase is the one above,
    and the first failure since the last recovery is remembered. *)
Theorem Complete_escalates u s h c r hr cr x :
  reachable u s → last (uniquePath s) = Some h → active s h → objs s !! h = Some c →
  rollback_point_ s = Z.of_nat r → Z.of_nat r ≤ level c →
  uniquePath s !! r = Some hr → objs s !! hr = Some cr → Preserve.Recover (recovery_place c cr s) (prv cr) = Ok x →
  ∃ s', Complete h s = Ok (Jump hr, s') ∧ uniquePath s' = take (S r) (uniquePath s) ∧
    (∀ j hj cj, uniquePath s !! j = Some hj → objs s !! hj = Some cj →
       objs s' !! hj = Some (escalated_dom r j x cj)) ∧
    current_ (tree s') = (match r with O => None | S q => hq ← uniquePath s !! q; phase <$> objs s !! hq end) ∧
    (failed_phase s', failed_seqID s') = failure_point c s ∧
    rollback_point_ s' = Z.of_nat r.
Proof. apply Complete_jumps. Qed.

Lemma Complete_escalates_witness :
  reachable 1024 (after (third_A ++ [CDetect 0])) ∧
  ∃ s', Complete 1 (after (third_A ++ [CDetect 0])) = Ok (Jump 0, s') ∧ uniquePath s' = [0].
Proof.
  assert (reachable 1024 (after (third_A ++ [CDetect 0]))) as H by (apply after_reachable; vm_compute; reflexivity).
  split; [exact H|].
  edestruct Complete_escalates with (u := 1024) (s := after (third_A ++ [CDetect 0])) (h := 1) (r := O) (hr := 0)
    as (s' & Hs & Hp & _);
    [exact H|vm_compute; reflexivity|apply activeb_true; vm_compute; reflexivity|vm_compute; reflexivity
    |vm_compute; reflexivity|vm_compute; discriminate|vm_compute; reflexivity|vm_compute; reflexivity
    |vm_compute; reflexivity|].
  exists s'. split; [exact Hs|]. rewrite Hp. vm_compute. reflexivity.
Defined.
