(* ===== verification/FailurePoint.v ===== *)
(** * The end of a recovery

    A task that fails remembers the phase and the count of the failed domain,
    and is in recovery until a Complete without error of that phase has that
    count ([CheckRecovered]).  Executed again from its own beginning the failed
    domain gets there.  After an escalation the counts of the phases below the
    rollback point are reset, and during a recovery no count increases: when the
    failed domain was not the first execution of its phase, the recovery never
    ends. *)

From Stdlib Require Import ZArith Lia String.
From stdpp Require Import base gmap list numbers strings relations.
From S2P Require Import Prelude CdLog TableStore DataStore Preserve PhaseTree Handle Phases Nesting Escalation.

(** ** What happens to counts during a recovery *)

(** The counts of a phase stay, the completions are reset, or both are set to
    the start of the phase on the left. *)
Definition recount (t : PhaseTree) (n n' : PhaseNode) : Prop :=
  left_ n' = left_ n ∧
  ((seq_begin_ n' = seq_begin_ n ∧ (seq_end_ n' = seq_end_ n ∨ seq_end_ n' = seq_begin_ n)) ∨
   (seq_begin_ n' = seq_end_ n' ∧
    ((left_ n = None ∧ seq_begin_ n' = 0) ∨
     ∃ l nl, left_ n = Some l ∧ phaseNodeCache t !! l = Some nl ∧ seq_begin_ n' = seq_begin_ nl))).

Definition recounted (t t' : PhaseTree) : Prop :=
  ∀ q n, phaseNodeCache t !! q = Some n → ∃ n', phaseNodeCache t' !! q = Some n' ∧ recount t n n'.

Lemma recount_same t n n' :
  left_ n' = left_ n → seq_begin_ n' = seq_begin_ n → seq_end_ n' = seq_end_ n → recount t n n'.
Proof. intros. split; [done|]. left. split; [done|]. by left. Qed.

Lemma recounted_refl t : recounted t t.
Proof. intros q n Hq. exists n. split; [done|]. by apply recount_same. Qed.

Lemma rolled_recounted s phs r s' : rolled s phs r s' → recounted (tree s) (tree s').
Proof.
  intros Hrl q n Hq. rewrite (rl_node _ _ _ _ Hrl q), Hq. simpl. eexists. split; [done|].
  case_decide; [|by apply recount_same]. unfold rolled_node. destruct (_ <=? _); [|by apply recount_same].
  unfold IncSeq, ResetSeq. destruct (_ <? _); simpl; [|by apply recount_same].
  split; [done|]. left. split; [done|]. by right.
Qed.

Lemma closed_recounted p par t : recounted t (closed_tree false false p par t).
Proof.
  intros q n Hq. simpl. destruct (decide (q = p)) as [->|Hne].
  - rewrite !lookup_alter_eq, Hq. simpl. eexists. split; [done|]. by apply recount_same.
  - rewrite !lookup_alter_ne, Hq by done. exists n. split; [done|]. by apply recount_same.
Qed.

Lemma MarkSeqID_recounted p x t0 t t' :
  kept t0 t → tree_wf t0 → MarkSeqID p x t = Ok t' → recounted t0 t'.
Proof.
  intros Hk Hwf. unfold MarkSeqID. intros (n & Hn & H)%bind_Ok q m Hm. apply node_Ok in Hn.
  destruct (Hk q m Hm) as (m1 & Hm1 & _ & Hb & He & _ & Hleft & _).
  assert (∀ f, t' = touch p f t → q ≠ p → ∃ n', phaseNodeCache t' !! q = Some n' ∧ recount t0 m n') as Hother.
  { intros f -> Hne. simpl. rewrite lookup_alter_ne, Hm1 by done. exists m1. split; [done|]. by apply recount_same. }
  destruct (left_ n) as [l|] eqn:Hl.
  - apply bind_Ok in H as (nl & Hnl & H). injection H as <-. apply node_Ok in Hnl.
    destruct (decide (q = p)) as [->|Hne]; [|by eapply Hother]. assert (m1 = n) as -> by congruence.
    simpl. rewrite lookup_alter_eq, Hn. simpl. eexists. split; [done|]. split; [done|]. right. split; [done|]. right.
    destruct (tw_left _ Hwf p m l Hm) as [nl0 Hnl0]; [congruence|]. exists l, nl0. split; [congruence|].
    split; [done|]. destruct (Hk l nl0 Hnl0) as (nl1 & Hnl1 & _ & Hb1 & _). simpl. congruence.
  - injection H as <-. destruct (decide (q = p)) as [->|Hne]; [|by eapply Hother].
    assert (m1 = n) as -> by congruence. simpl. rewrite lookup_alter_eq, Hn. simpl. eexists. split; [done|].
    split; [done|]. right. split; [done|]. left. split; [congruence|done].
Qed.

Lemma kept_recounted t t' : kept t t' → recounted t t'.
Proof.
  intros Hk q n Hq. destruct (Hk q n Hq) as (n' & Hq' & _ & ? & ? & _ & ? & _). exists n'. split; [done|].
  by apply recount_same.
Qed.

Lemma MarkPhase_recounted cur ph c s t0 t t' :
  kept t0 t → tree_wf t0 → MarkPhase cur ph c s t = Ok t' → recounted t0 t'.
Proof.
  intros Hk Hwf. unfold MarkPhase. destruct (_ =? _); [intros [= <-]; by apply kept_recounted|].
  intros (b & _ & Hb)%bind_Ok. destruct b; [injection Hb as <-; by apply kept_recounted|].
  apply bind_Ok in Hb as (n & _ & Hb). by eapply MarkSeqID_recounted.
Qed.

Lemma SetRollbackPoint_fields lv s :
  tree (SetRollbackPoint lv s) = tree s ∧ objs (SetRollbackPoint lv s) = objs s ∧
  uniquePath (SetRollbackPoint lv s) = uniquePath s ∧
  failed_phase (SetRollbackPoint lv s) = failed_phase s ∧ failed_seqID (SetRollbackPoint lv s) = failed_seqID s.
Proof. unfold SetRollbackPoint. destruct (negb _); [|done]. by destruct (_ <? _). Qed.

(** Creating, destroying and reporting do not touch the tree. *)
Lemma Create_fields u h nm s h' s' :
  Create u h nm s = Ok (h', s') → tree s' = tree s ∧ uniquePath s' = uniquePath s ++ [h'] ∧
    failed_phase s' = failed_phase s ∧ failed_seqID s' = failed_seqID s ∧
    (∀ a, a ≠ h' → objs s' !! a = objs s !! a) ∧ (∀ c, objs s' !! h' = Some c → begin_ c = false).
Proof.
  intros HC. unfold Create in HC. apply bind_Ok in HC as (c & _ & HC). apply bind_Ok in HC as (cur & _ & HC).
  apply bind_Ok in HC as (key & _ & HC). apply bind_Ok in HC as ([h1 s1] & HI & HC). injection HC as <- <-.
  unfold InternalCreate in HI. destruct (access_store_ s !! key).
  - apply bind_Ok in HI as (d & _ & HI). injection HI as <- <-. simpl. repeat (split; [done|]). split.
    + intros a Ha. by rewrite lookup_insert_ne by done.
    + intros x. rewrite lookup_insert_eq. by intros [= <-].
  - apply bind_Ok in HI as (d & Hd & HI). injection HI as <- <-. unfold Dom_new in Hd.
    apply bind_Ok in Hd as (x & _ & Hd). injection Hd as <-. simpl. repeat (split; [done|]). split.
    + intros a Ha. by rewrite lookup_insert_ne by done.
    + intros y. rewrite lookup_insert_eq. by intros [= <-].
Qed.

Lemma Recover_fields hr s s' :
  Recover hr s = Ok s' → tree s' = tree s ∧ uniquePath s' = uniquePath s ∧ failed_phase s' = failed_phase s ∧
    failed_seqID s' = failed_seqID s ∧ (∀ a, a ≠ hr → objs s' !! a = objs s !! a).
Proof.
  intros (c & x & Hc & _ & _ & ->)%Recover_Ok. simpl. repeat (split; [done|]).
  intros a Ha. by rewrite lookup_insert_ne by done.
Qed.

(** A step during a recovery only recounts and the failure point stays, unless
    the failed phase has the count of the failure. *)
Lemma step_recounted u s phs s' :
  nested s phs → IsGood s = false → step u s s' →
  (recounted (tree s) (tree s') ∧ failed_phase s' = failed_phase s ∧ failed_seqID s' = failed_seqID s) ∨
  ∃ n, phaseNodeCache (tree s) !! failed_phase s = Some n ∧ seq_end_ n = failed_seqID s.
Proof.
  intros Hn Hg Hst. destruct Hst as [s h nm h' s' Hh Ha Hnm Hd HC|s h lab s' Hh Hlab HB|s h o s' Hh Ha HC
    |s h s' Hh Ha Hlen HD|s h b s' Hin Ha HA|s r h s' Hr Ha HD|s h c x Hc Hx].
  - left. apply Create_fields in HC as (-> & _ & -> & -> & _). split; [apply recounted_refl|done].
  - left. pose proof HB as (c & ph & t & cur & t' & Hc & Hb & Hbp & Hcur & Hm & ->)%Begin_Ok. split; [|done].
    destruct (Begin_phase s phs h lab c ph t Hn Hh Hlab Hc Hb Hbp) as (_ & Hbg & _).
    simpl. eapply MarkPhase_recounted; [|apply (ns_wf s phs Hn)|done]. apply (bg_kept _ _ _ _ _ Hbg).
  - destruct (at_leaf_intro s phs h Hn Hh Ha) as (phs' & p & c & n & -> & Hl).
    destruct (Complete_cases s phs' h p c n o s' Hl HC)
      as [(_ & _ & _ & s1 & H1 & ->)|(r & hr & s1 & _ & _ & _ & Hrl & HR & _)].
    + apply (CheckRecovered_Ok s phs' h p c n s1 Hl) in H1 as [[-> _]|(_ & Hf & Hq & t & Ht & ->)].
      * left. simpl. rewrite Hg. split; [apply closed_recounted|done].
      * right. exists n. rewrite Hf. split; [apply (al_node _ _ _ _ _ _ Hl)|done].
    + left. apply Recover_fields in HR as (-> & _ & -> & -> & _). unfold failing in Hrl. rewrite Hg in Hrl.
      split; [by apply (rolled_recounted s (phs' ++ [p]) r)|]. by destruct Hrl as [_ _ _ _ _ (_ & _ & _ & ? & ? & _)].
  - left. unfold Destroy in HD. apply bind_Ok in HD as (v & _ & HD). apply bind_Ok in HD as (w & _ & HD).
    injection HD as <-. split; [apply recounted_refl|done].
  - left. apply CDAssert_Ok in HA as [->|(c & _ & ->)]; [split; [apply recounted_refl|done]|].
    destruct (SetRollbackPoint_fields (level c) s) as (-> & _ & _ & -> & ->). split; [apply recounted_refl|done].
  - left. unfold Detect in HD. apply bind_Ok in HD as (v & _ & HD). injection HD as <-.
    destruct (SetRollbackPoint_fields (Z.of_nat r) s) as (-> & _ & _ & -> & ->). split; [apply recounted_refl|done].
  - left. split; [apply recounted_refl|done].
Qed.

(** ** A recovery that does not end *)

(** The failure point [(f, k)] is out of reach: neither the phase [f] nor one
    to its left can get the count [k]. *)
Definition unreachable_point (s : Rt) : Prop :=
  IsGood s = false ∧ ∃ X : Z → Prop, X (failed_phase s) ∧
    (∀ n, phaseNodeCache (tree s) !! failed_phase s = Some n → seq_end_ n < failed_seqID s) ∧
    (∀ q, X q → ∃ n, phaseNodeCache (tree s) !! q = Some n ∧ seq_begin_ n < failed_seqID s ∧
       ∀ l, left_ n = Some l → X l).

Lemma unreachable_step u s phs s' :
  nested s phs → unreachable_point s → step u s s' → unreachable_point s'.
Proof.
  intros Hn (Hg & X & Hf & He & HX) Hst.
  destruct (step_recounted u s phs s' Hn Hg Hst) as [(Hre & Hfp & Hfq)|(n & Hfn & Hen)].
  2:{ specialize (He n Hfn). lia. }
  unfold unreachable_point. rewrite Hfp, Hfq. split; [unfold IsGood; by rewrite Hfp|].
  assert (∀ q, X q → ∃ n n', phaseNodeCache (tree s) !! q = Some n ∧ phaseNodeCache (tree s') !! q = Some n' ∧
    recount (tree s) n n' ∧ seq_begin_ n' < failed_seqID s) as HX'.
  { intros q Hq. destruct (HX q Hq) as (n & Hnq & Hb & Hl). destruct (Hre q n Hnq) as (n' & Hn' & Hr).
    exists n, n'. repeat (split; [done|]). destruct Hr as [_ [[-> _]|[_ [[Hno ->]|(l & nl & Hln & Hnl & ->)]]]]; [done| |].
    { by rewrite (tw_first _ (ns_wf s phs Hn) q n Hnq Hno) in Hb. }
    destruct (HX l (Hl l Hln)) as (nl' & Hnl' & Hbl & _). congruence. }
  exists X. split; [done|]. split.
  - intros n' Hn'. destruct (HX' _ Hf) as (n & m & Hnq & Hm & Hr & Hb). assert (m = n') as -> by congruence.
    specialize (He n Hnq). destruct (HX _ Hf) as (n0 & Hn0 & Hb0 & _). assert (n0 = n) as -> by congruence.
    destruct Hr as [_ [[_ [->| ->]]|[<- _]]]; lia.
  - intros q Hq. destruct (HX' q Hq) as (n & n' & Hnq & Hn' & Hr & Hb). exists n'. split; [done|]. split; [done|].
    intros l Hl. destruct (HX q Hq) as (n0 & Hn0 & _ & Hleft). assert (n0 = n) as -> by congruence.
    apply Hleft. destruct Hr as [<- _]. done.
Qed.

Lemma unreachable_rtc u s phs s' :
  nested s phs → unreachable_point s → rtc (step u) s s' → unreachable_point s'.
Proof.
  intros Hn Hu Hst. revert phs Hn Hu. induction Hst as [s|s s1 s' Hst _ IH]; [done|]. intros phs Hn Hu.
  destruct (step_nested u s phs s1 Hn Hst) as [phs1 Hn1]. apply (IH phs1 Hn1).
  by apply (unreachable_step u s phs).
Qed.

Definition left_of (t : PhaseTree) (q l : Z) : Prop := ∃ n, phaseNodeCache t !! q = Some n ∧ left_ n = Some l.

Lemma left_of_exists t q q' :
  tree_wf t → rtc (left_of t) q q' → is_Some (phaseNodeCache t !! q) → is_Some (phaseNodeCache t !! q').
Proof.
  intros Hwf. induction 1 as [q|q l q' (n & Hn & Hl) _ IH]; [done|]. intros _. apply IH. by apply (tw_left t Hwf q n).
Qed.

Lemma rolled_node_kept r n : left_ (rolled_node r n) = left_ n ∧ seq_begin_ (rolled_node r n) = seq_begin_ n.
Proof. unfold rolled_node. destruct (_ <=? _); [|done]. unfold ResetSeq. by destruct (_ <? _). Qed.

(** An escalation puts the failure point out of reach, when the failed phase had
    been completed since it and the phases to its left were marked. *)
Lemma escalated_unreachable s phs h p c n r hr s1 s' :
  at_leaf s phs h p c n → IsGood s = true → (r < length phs)%nat → rolled (failing s p n) (phs ++ [p]) r s1 →
  Recover hr s1 = Ok s' →
  (∀ q m, rtc (left_of (tree s)) p q → phaseNodeCache (tree s) !! q = Some m → seq_begin_ m < seq_end_ n) →
  unreachable_point s'.
Proof.
  intros Hl Hg Hr Hrl HR Hleft. pose proof (ns_wf s _ (al_nested _ _ _ _ _ _ Hl)) as Hwf.
  pose proof (al_node _ _ _ _ _ _ Hl) as Hpn. apply Recover_fields in HR as (Ht & _ & Hf & Hq & _).
  pose proof (rl_node _ _ _ _ Hrl) as Hnode. destruct Hrl as [_ _ _ _ _ (_ & _ & _ & Rf & Rq & _)].
  unfold failing in Hnode, Rf, Rq. rewrite Hg in Hnode, Rf, Rq. simpl in Hnode, Rf, Rq.
  unfold unreachable_point. rewrite Ht, Hf, Hq, Rf, Rq.
  split; [unfold IsGood; rewrite Hf, Rf; apply Z.eqb_neq; pose proof (tw_dom _ Hwf p n Hpn); unfold HEALTHY; lia|].
  exists (rtc (left_of (tree s)) p). split; [done|]. split.
  - intros m. rewrite Hnode, Hpn. simpl. rewrite decide_True by set_solver. intros [= <-].
    unfold rolled_node. rewrite (al_nlevel _ _ _ _ _ _ Hl), (proj2 (Z.leb_le _ _)) by lia. simpl.
    unfold ResetSeq. rewrite (al_nlevel _ _ _ _ _ _ Hl), (proj2 (Z.ltb_lt _ _)) by lia. simpl.
    by apply (Hleft p n).
  - intros q Hpq. destruct (left_of_exists _ p q Hwf Hpq) as [m Hm]; [eauto|].
    rewrite Hnode, Hm. simpl. eexists. split; [done|]. pose proof (Hleft q m Hpq Hm).
    destruct (rolled_node_kept (Z.of_nat r) m) as [Hrl Hrb]. case_decide; rewrite ?Hrl, ?Hrb; (split; [done|]);
      intros l Hml; (eapply rtc_r; [done|by exists m]).
Qed.

(** C22: an error that is escalated to a level above begins a recovery that never
    ends, when the phase of the domain was completed since its count was last
    marked: when the count at which the phase began ([seq_begin_], set by
    MarkSeqID), and that of every phase to its left, is below its count at the
    failure.  In every continuation of the program, whatever it does, the task
    stays in recovery.  (The counts of the phases below the rollback point are
    reset to where they began, no count increases during a recovery, and the
    recovery would end when the phase has the count of the failure.) *)
Theorem escalated_recovery_never_ends u s h c n o s1 s2 :
  reachable u s → IsGood s = true → last (uniquePath s) = Some h → active s h → objs s !! h = Some c →
  phaseNodeCache (tree s) !! phase c = Some n → rollback_point_ s < level c →
  (∀ q m, rtc (left_of (tree s)) (phase c) q → phaseNodeCache (tree s) !! q = Some m → seq_begin_ m < seq_end_ n) →
  Complete h s = Ok (o, s1) → rtc (step u) s1 s2 → IsGood s2 = false.
Proof.
  intros Hreach Hg Hh Ha Hc Hn Hr Hleft HC Hst. destruct (reachable_nested u s Hreach) as [phs0 Hn0].
  destruct (at_leaf_intro s phs0 h Hn0 Hh Ha) as (phs & p & c' & n' & -> & Hl).
  pose proof (al_dom _ _ _ _ _ _ Hl) as Hc'. assert (c' = c) as -> by congruence.
  pose proof (al_node _ _ _ _ _ _ Hl) as Hn'. rewrite (al_phase _ _ _ _ _ _ Hl) in Hn, Hleft.
  assert (n' = n) as -> by congruence. rewrite (al_level _ _ _ _ _ _ Hl) in Hr.
  destruct (Complete_cases s phs h p c n o s1 Hl HC) as [(Hlt & _)|(r & hr & s0 & Hrr & _ & _ & Hrl & HR & _ & Hn1)].
  { rewrite (al_level _ _ _ _ _ _ Hl) in Hlt. lia. }
  assert (unreachable_point s1) as Hu.
  { apply (escalated_unreachable s phs h p c n r hr s0 s1); try done. lia. }
  by destruct (unreachable_rtc u s1 _ s2 Hn1 Hu Hst) as [? _].
Qed.

Lemma exec_rtc u l s s' : foldM (exec u) l s = Ok s' → rtc (step u) s s'.
Proof.
  revert s. induction l as [|c l IH]; intros s; simpl; [by intros [= <-]|].
  intros (s1 & H1%exec_step & Hl)%bind_Ok. eapply rtc_l; eauto.
Qed.

Lemma leftmost t p q n : phaseNodeCache t !! p = Some n → left_ n = None → rtc (left_of t) p q → q = p.
Proof. intros Hn Hl. induction 1 as [|p l q (n' & Hn' & Hl') _ _]; [done|]. congruence. Qed.

(** The third execution of A fails and is escalated to the root, which is
    executed again, with three executions of A: the recovery goes on, and the
    phase B, which the program then begins for the first time, fails the
    assertion of GetPhaseNode. *)
Definition fails_in_third_A : Rt := after (third_A ++ [CDetect 0]).
Definition escalated : outcome * Rt := get (Completed, rt0) (Complete 1 fails_in_third_A).
Definition again : list call :=
  [CBegin NO_LABEL; CCreate "A"; CBegin NO_LABEL; CComplete; CBegin NO_LABEL; CComplete; CBegin NO_LABEL; CComplete].

Lemma escalated_recovery_never_ends_witness :
  IsGood (get rt0 (foldM (exec 1024) again (escalated.2))) = false ∧
  foldM (exec 1024) (again ++ [CDestroy; CCreate "B"; CBegin NO_LABEL]) (escalated.2) = Err AssertFail.
Proof.
  split; [|vm_compute; reflexivity].
  eapply (escalated_recovery_never_ends 1024 fails_in_third_A 1) with (o := escalated.1) (s1 := escalated.2).
  - apply after_reachable. vm_compute. reflexivity.
  - vm_compute. reflexivity.
  - vm_compute. reflexivity.
  - apply activeb_true. vm_compute. reflexivity.
  - vm_compute. reflexivity.
  - vm_compute. reflexivity.
  - vm_compute. reflexivity.
  - intros q m Hq. assert (q = 1) as ->.
    { eapply (leftmost (tree fails_in_third_A) 1); [vm_compute; reflexivity|vm_compute; reflexivity|exact Hq]. }
    intros Hm. vm_compute in Hm. injection Hm as <-. vm_compute. reflexivity.
  - vm_compute. reflexivity.
  - apply (exec_rtc 1024 again). vm_compute. reflexivity.
Defined.

(** ** A recovery that ends *)

(** The execution again of the domain [h] at level [L], with phase [p], whose
    failure at count [k] is the failure point. *)
Definition recovering (h p k : Z) (L : nat) (s : Rt) : Prop :=
  IsGood s = false ∧ failed_phase s = p ∧ failed_seqID s = k ∧
  (∃ n, phaseNodeCache (tree s) !! p = Some n ∧ seq_end_ n = k ∧ state_ n = kReexecution) ∧
  ∃ phs, nested s phs ∧ uniquePath s !! L = Some h ∧ phs !! L = Some p.

(** What the program does inside the domain [h]. *)
Definition body (u h : Z) (s s' : Rt) : Prop := step u s s' ∧ active s h ∧ active s' h.

Lemma MarkPhase_other cur ph c s t t' q :
  MarkPhase cur ph c s t = Ok t' → q ≠ cur → phaseNodeCache t' !! q = phaseNodeCache t !! q.
Proof.
  intros Hm Hne. unfold MarkPhase in Hm. destruct (_ =? _); [by injection Hm as <-|].
  apply bind_Ok in Hm as (b & _ & Hb). destruct b; [by injection Hb as <-|].
  apply bind_Ok in Hb as (n & _ & Hb). unfold MarkSeqID in Hb. apply bind_Ok in Hb as (m & _ & Hb).
  destruct (left_ m) as [l|].
  - apply bind_Ok in Hb as (nl & _ & Hb). injection Hb as <-. simpl. by rewrite lookup_alter_ne.
  - injection Hb as <-. simpl. by rewrite lookup_alter_ne.
Qed.

Lemma body_begin h p k L s phs h0 lab s' :
  recovering h p k L s → nested s phs → uniquePath s !! L = Some h → phs !! L = Some p →
  last (uniquePath s) = Some h0 → label_ok s lab → Begin h0 lab s = Ok s' → recovering h p k L s'.
Proof.
  intros (Hg & Hf & Hq & (n & Hp & Hk & Hst) & _) Hn HL HpL Hh Hlab HB.
  destruct (Begin_nested s phs h0 lab s' Hn Hh Hlab HB) as (c0 & ph0 & Hc0 & _ & Hn').
  pose proof HB as (c & ph & t & cur & t' & Hc & Hb & Hbp & Hcur & Hm & ->)%Begin_Ok.
  destruct (Begin_phase s phs h0 lab c ph t Hn Hh Hlab Hc Hb Hbp) as (_ & Hbg & _).
  destruct (bg_kept _ _ _ _ _ Hbg p n Hp) as (n' & Hp' & _ & _ & He & _ & _ & _ & Hst').
  assert (ph0 = ph) as ->.
  { pose proof (current_phase _ phs ph0 Hn') as [Hcur' _]. simpl in Hcur'.
    destruct (MarkPhase_shape cur ph c s t t') as [_ Hc2]; [apply (bg_wf _ _ _ _ _ Hbg)|done|].
    rewrite Hc2, (bg_current _ _ _ _ _ Hbg) in Hcur'. congruence. }
  assert (cur = ph) as -> by (pose proof (bg_current _ _ _ _ _ Hbg); congruence).
  pose proof (lookup_lt_Some _ _ _ HpL) as HLlt.
  assert (p ≠ ph) as Hne.
  { intros ->. assert (L = length phs); [|lia].
    apply (phase_inj _ _ _ _ ph Hn'); [by apply lookup_app_l_Some|by apply list_lookup_middle]. }
  split; [done|]. split; [done|]. split; [done|]. split.
  - exists n'. simpl. rewrite (MarkPhase_other ph ph c s t t' p Hm Hne). split; [done|]. split; [congruence|auto].
  - exists (phs ++ [ph]). split; [done|]. split; [done|]. by apply lookup_app_l_Some.
Qed.

(** What a Complete leaves of the other domains. *)
Lemma retired_inactive b p par h c' s : begin_ c' = false → ¬ active (retired b p par h c' s) h.
Proof. intros Hb (d & Hd & Hd'). unfold retired in Hd. simpl in Hd. rewrite lookup_insert_eq in Hd. congruence. Qed.

Lemma rolled_inactive s phs r s1 hr s' j h :
  nested s phs → rolled s phs r s1 → Recover hr s1 = Ok s' → uniquePath s !! j = Some h → (r ≤ j)%nat → ¬ active s' h.
Proof.
  intros Hn Hrl (c & x & Hc & _ & _ & ->)%Recover_Ok Hj Hle (d & Hd & Hb). simpl in Hd.
  destruct (ns_dom s phs Hn j h Hj) as (e & He & Hle' & _).
  pose proof (rl_objs _ _ _ _ Hrl h) as Ho. rewrite He in Ho. simpl in Ho.
  rewrite decide_True in Ho by (by eapply list_elem_of_lookup_2).
  assert (begin_ (rolled_dom (Z.of_nat r) e) = false) as Hb'.
  { unfold rolled_dom. destruct (Z.eqb_spec (level e) (Z.of_nat r)); [done|].
    destruct (Z.ltb_spec (Z.of_nat r) (level e)); [done|lia]. }
  apply lookup_insert_Some in Hd as [[<- <-]|[_ Hd]]; [|congruence]. simpl in Hb. congruence.
Qed.

Lemma body_complete h p k L s phs h0 o s' :
  recovering h p k L s → nested s phs → uniquePath s !! L = Some h → phs !! L = Some p →
  last (uniquePath s) = Some h0 → active s h0 → Complete h0 s = Ok (o, s') → active s' h → recovering h p k L s'.
Proof.
  intros (Hg & Hf & Hq & (n & Hp & Hk & Hst) & _) Hn HL HpL Hh Ha HC Hact.
  destruct (at_leaf_intro s phs h0 Hn Hh Ha) as (phs' & p0 & c & n0 & -> & Hl).
  pose proof (lookup_lt_Some _ _ _ HpL) as HLlt. rewrite length_app in HLlt. simpl in HLlt.
  assert (L < length phs' → p ≠ p0)%nat as Hne.
  { intros Hlt ->. assert (L = length phs'); [|lia]. apply (phase_inj s _ _ _ p0 Hn HpL). by apply list_lookup_middle. }
  destruct (Complete_cases s phs' h0 p0 c n0 o s' Hl HC)
    as [(_ & _ & Hn' & s1 & H1 & ->)|(r & hr & s1 & _ & Hr & _ & Hrl & HR & _ & Hn')].
  - destruct (decide (L = length phs')) as [->|HneL].
    { rewrite last_lookup, (al_len _ _ _ _ _ _ Hl) in Hh. simpl in Hh. assert (h0 = h) as -> by congruence.
      by apply retired_inactive in Hact. }
    assert (L < length phs')%nat as Hlt by lia. specialize (Hne Hlt).
    apply (CheckRecovered_Ok s phs' h0 p0 c n0 s1 Hl) in H1 as [[-> _]|(_ & Hfp & _)]; [|congruence].
    split; [done|]. split; [done|]. split; [done|]. split.
    + exists n. unfold retired. rewrite Hg. simpl. by rewrite !lookup_alter_ne by done.
    + exists phs'. split; [done|]. split; [done|]. by rewrite lookup_app_l in HpL by done.
  - unfold failing in Hrl. rewrite Hg in Hrl.
    assert (L < r)%nat as HLr.
    { destruct (Nat.lt_ge_cases L r) as [|Hge]; [done|].
      by destruct (rolled_inactive s (phs' ++ [p0]) r s1 hr s' L h Hn Hrl HR HL Hge). }
    apply Recover_fields in HR as (Ht & Hpath & Hf' & Hq' & _). pose proof (rl_node _ _ _ _ Hrl p) as Hnode.
    rewrite Hp in Hnode. simpl in Hnode. destruct (ns_phase s _ Hn L p HpL) as (n1 & Hn1 & Hlv & _).
    assert (n1 = n) as -> by congruence.
    assert (phaseNodeCache (tree s1) !! p = Some n) as Hp1.
    { rewrite Hnode. f_equal. case_decide; [|done]. unfold rolled_node. by rewrite (proj2 (Z.leb_gt _ _)) by lia. }
    rewrite lookup_app_l in HpL by lia.
    pose proof (rl_path _ _ _ _ Hrl) as Hpt. destruct Hrl as [_ _ _ _ _ (_ & _ & _ & Rf & Rq & _)].
    unfold recovering. rewrite Ht, Hpath, Hf', Hq', Rf, Rq.
    split; [unfold IsGood; by rewrite Hf', Rf|]. split; [done|]. split; [done|]. split; [by exists n|].
    exists (take r phs'). split; [done|]. split; [rewrite Hpt; by rewrite lookup_take_lt by lia|].
    by rewrite lookup_take_lt by lia.
Qed.

Lemma recovering_fields h p k L s s' :
  recovering h p k L s → tree s' = tree s → failed_phase s' = failed_phase s → failed_seqID s' = failed_seqID s →
  (∃ phs, nested s' phs ∧ uniquePath s' !! L = Some h ∧ phs !! L = Some p) → recovering h p k L s'.
Proof.
  intros (Hg & Hf & Hq & Hp & _) Ht Hf' Hq' Hphs. unfold recovering. rewrite Ht, Hf', Hq'.
  split; [unfold IsGood; by rewrite Hf'|]. done.
Qed.

(** The body of the domain keeps the failure point where it is. *)
Lemma body_recovering u h p k L s s' : recovering h p k L s → body u h s s' → recovering h p k L s'.
Proof.
  intros Hrec (Hst & Hact & Hact'). pose proof Hrec as (_ & _ & _ & _ & phs & Hn & HL & HpL).
  destruct Hst as [s h0 nm h' s' Hh Ha Hnm Hd HC|s h0 lab s' Hh Hlab HB|s h0 o s' Hh Ha HC
    |s h0 s' Hh Ha Hlen HD|s h0 b s' Hin Ha HA|s r h0 s' Hr Ha HD|s h0 c x Hc Hx].
  - pose proof (Create_nested u s phs h0 nm h' s' Hn Hh Ha Hnm Hd HC) as Hn'.
    apply Create_fields in HC as (Ht & Hp & Hf & Hq & _). apply (recovering_fields h p k L s); [done..|].
    exists phs. split; [done|]. split; [|done]. rewrite Hp. by apply lookup_app_l_Some.
  - by apply (body_begin h p k L s phs h0 lab).
  - by apply (body_complete h p k L s phs h0 o).
  - unfold Destroy in HD. apply bind_Ok in HD as (v & _ & HD). apply bind_Ok in HD as (w & _ & HD). injection HD as <-.
    pose proof (inactive_length s phs h0 Hn Hh Ha) as Hlen'.
    apply (recovering_fields h p k L s); [done..|]. exists phs. split; [by apply nested_destroy|]. split; [|done].
    destruct (proj1 (last_Some _ _) Hh) as [P HP]. simpl. rewrite HP in HL, Hlen' |- *. rewrite removelast_last.
    rewrite length_app in Hlen'. simpl in Hlen'. apply lookup_lt_Some in HpL. by rewrite lookup_app_l in HL by lia.
  - apply CDAssert_Ok in HA as [->|(c & Hc & ->)]; [done|].
    destruct (SetRollbackPoint_fields (level c) s) as (Ht & _ & Hp & Hf & Hq).
    apply (recovering_fields h p k L s); [done..|]. exists phs. split; [|by rewrite Hp].
    apply SetRollbackPoint_nested; [done|]. by apply (level_nonneg s phs h0).
  - unfold Detect in HD. apply bind_Ok in HD as (v & _ & HD). injection HD as <-.
    destruct (SetRollbackPoint_fields (Z.of_nat r) s) as (Ht & _ & Hp & Hf & Hq).
    apply (recovering_fields h p k L s); [done..|]. exists phs. split; [|by rewrite Hp].
    apply SetRollbackPoint_nested; [done|lia].
  - apply (recovering_fields h p k L s); [done..|]. exists phs. split; [|done].
    apply (nested_update s phs h0 c); try done. unfold mode. simpl. by rewrite Hx.
Qed.

(** Two children of a phase with the same label are the same phase. *)
Lemma same_phase t q p p' n n' :
  tree_wf t → phaseNodeCache t !! p = Some n → phaseNodeCache t !! p' = Some n' →
  parent_ n = Some q → parent_ n' = Some q → label_ n = label_ n' → p = p'.
Proof.
  intros Hwf Hp Hp' Hq Hq' Hlab. destruct (tw_parent t Hwf p n q Hp Hq) as (_ & m & Hm & _).
  destruct (labels_exist t Hwf q m Hm) as (ls & Hls & _).
  apply (labels_inj t Hwf p p' (ls ++ [label_ n])).
  - by apply (labels_child t p n q).
  - rewrite Hlab. by apply (labels_child t p' n' q).
Qed.

(** Begin with the label of before finds the phase of before. *)
Lemma rebegin_phase s phs h c p n lab s' :
  nested s phs → last (uniquePath s) = Some h → label_ok s lab → objs s !! h = Some c →
  phaseNodeCache (tree s) !! p = Some n → parent_ n = last phs → label_ n = begin_label lab c ∨ phs = [] →
  (∃ m, phaseNodeCache (tree s) !! prev_phase s = Some m ∧ (prev_phase s = p ∨ level c < level_ m)) →
  Begin h lab s = Ok s' →
  nested s' (phs ++ [p]) ∧ kept (tree s) (tree s') ∧ uniquePath s' = uniquePath s ∧
  failed_phase s' = failed_phase s ∧ failed_seqID s' = failed_seqID s.
Proof.
  intros Hn Hh Hlab Hc Hp Hpar Hl (m & Hm & Hprev) HB.
  destruct (Begin_nested s phs h lab s' Hn Hh Hlab HB) as (c0 & ph0 & Hc0 & _ & Hn').
  pose proof HB as (c1 & ph & t & cur & t' & Hc1 & Hb & Hbp & Hcur & Hmk & ->)%Begin_Ok.
  assert (c1 = c) as -> by congruence.
  destruct (Begin_phase s phs h lab c ph t Hn Hh Hlab Hc Hb Hbp) as (_ & Hbg & Hlabel).
  pose proof (bg_kept _ _ _ _ _ Hbg) as Hk.
  destruct (Hk p n Hp) as (n' & Hp' & Hlv & _ & _ & Hpar' & _ & Hlb' & _).
  destruct (bg_node _ _ _ _ _ Hbg) as (nb & Hnb & Hparb & Hlvb).
  assert (ph = p) as ->.
  { destruct phs as [|q phs' _] using rev_ind; simpl in *.
    - destruct (tw_root t (bg_wf _ _ _ _ _ Hbg) ph nb Hnb Hparb) as [Hr1 _].
      destruct (tw_root t (bg_wf _ _ _ _ _ Hbg) p n' Hp') as [Hr2 _]; congruence.
    - rewrite last_snoc in Hpar, Hparb. destruct Hl as [Hl|Hl]; [|by destruct phs'].
      destruct Hlabel as (nl & Hnl & Hll); [by destruct phs'|]. assert (nl = nb) as -> by congruence.
      apply (same_phase t q ph p nb n'); [apply (bg_wf _ _ _ _ _ Hbg)|done|done|done|congruence|congruence]. }
  assert (t' = t) as ->.
  { unfold MarkPhase in Hmk. destruct (Z.eqb_spec (prev_phase s) p) as [|Hne]; [by injection Hmk as <-|].
    destruct Hprev as [|Hprev]; [done|]. destruct (Hk _ m Hm) as (m' & Hm' & Hlm & _).
    destruct (Z.eqb_spec (prev_phase s) HEALTHY) as [He|_].
    { pose proof (tw_dom _ (ns_wf s phs Hn) _ m Hm). unfold HEALTHY in He. lia. }
    rewrite (node_Some t _ m' Hm'), !ret_bind, Hlm, (proj2 (Z.ltb_lt _ _)) in Hmk by done. by injection Hmk as <-. }
  assert (ph0 = p) as ->.
  { pose proof (current_phase _ phs ph0 Hn') as [Hcur' _]. simpl in Hcur'.
    rewrite (bg_current _ _ _ _ _ Hbg) in Hcur'. congruence. }
  done.
Qed.

(** A rollback to the Begin of the failed domain itself. *)
Lemma own_rollback s phs h p c n o s1 :
  at_leaf s phs h p c n → IsGood s = true → rollback_point_ s = level c → Complete h s = Ok (o, s1) →
  nested s1 phs ∧ uniquePath s1 = uniquePath s ∧ failed_phase s1 = p ∧ failed_seqID s1 = seq_end_ n ∧
  (∃ c1, objs s1 !! h = Some c1 ∧ level c1 = level c ∧ name c1 = name c) ∧
  (∃ n1, phaseNodeCache (tree s1) !! p = Some n1 ∧ seq_end_ n1 = seq_end_ n ∧ state_ n1 = kReexecution ∧
     parent_ n1 = last phs ∧ label_ n1 = label_ n) ∧
  (∃ m, phaseNodeCache (tree s1) !! prev_phase s1 = Some m ∧ (prev_phase s1 = p ∨ level c < level_ m)).
Proof.
  intros Hl Hg Hr HC. pose proof (al_nested _ _ _ _ _ _ Hl) as Hn. pose proof (al_len _ _ _ _ _ _ Hl) as Hlen.
  pose proof (al_last _ _ _ _ _ _ Hl) as Hh.
  destruct (Complete_cases s phs h p c n o s1 Hl HC) as [(Hlt & _)|(r & hr & s0 & Hrr & _ & Hhr & Hrl & HR & _ & Hn1)];
    [lia|].
  rewrite Hr, (al_level _ _ _ _ _ _ Hl) in Hrr. assert (r = length phs) as -> by lia.
  assert (hr = h) as -> by (rewrite last_lookup, Hlen in Hh; simpl in Hh; congruence).
  destruct (failing_fields s p n) as (Ft & Fo & Fp & Fr).
  destruct Hrl as [_ Rp Ro Rn _ (_ & _ & _ & Rf & Rq & Rv)]. rewrite Fp, take_ge in Rp by lia.
  rewrite Fp, Fo in Ro. rewrite Ft in Rn. rewrite take_ge in Hn1 by lia.
  unfold failing in Rf, Rq, Rv. rewrite Hg in Rf, Rq, Rv. simpl in Rf, Rq, Rv.
  apply Recover_Ok in HR as (c' & x & Hc' & _ & _ & ->). rewrite Ro, (al_dom _ _ _ _ _ _ Hl) in Hc'. simpl in Hc'.
  rewrite decide_True in Hc' by (by apply last_Some_elem_of). injection Hc' as <-.
  unfold rolled_dom in Hn1 |- *. rewrite (al_level _ _ _ _ _ _ Hl), Z.eqb_refl in Hn1 |- *.
  split; [done|]. split; [done|]. split; [done|]. split; [done|]. split; [|split]; simpl.
  - rewrite lookup_insert_eq. eexists. split; [done|]. simpl. by rewrite (al_level _ _ _ _ _ _ Hl).
  - rewrite Rn, (al_node _ _ _ _ _ _ Hl). simpl. rewrite decide_True by set_solver. eexists. split; [done|].
    unfold rolled_node, ResetSeq. rewrite (al_nlevel _ _ _ _ _ _ Hl), Z.leb_refl, Z.ltb_irrefl. simpl.
    by rewrite (al_parent _ _ _ _ _ _ Hl).
  - destruct (ns_prev s _ Hn) as (m & Hm & Hor); [by destruct phs|]. rewrite Rv, Rn, Hm. simpl.
    eexists. split; [done|]. rewrite last_snoc, length_app in Hor. simpl in Hor.
    destruct Hor as [Hor|Hor]; [left; congruence|right].
    case_decide; [|lia]. unfold rolled_node, ResetSeq. destruct (_ <=? _); [|lia]. destruct (_ <? _); simpl; lia.
Qed.

(** After the rollback of a domain to its own Begin, and that Begin, the domain
    is executed again. *)
Lemma rollback_recovering s phs h p c n o s1 lab s2 :
  at_leaf s phs h p c n → IsGood s = true → rollback_point_ s = level c → Complete h s = Ok (o, s1) →
  label_ok s1 lab → begin_label lab c = label c → Begin h lab s1 = Ok s2 →
  recovering h p (seq_end_ n) (length phs) s2.
Proof.
  intros Hl Hg Hr HC Hlab Hbl HB. pose proof (al_nested _ _ _ _ _ _ Hl) as Hn.
  pose proof (al_len _ _ _ _ _ _ Hl) as Hlen. pose proof (al_last _ _ _ _ _ _ Hl) as Hh.
  destruct (own_rollback s phs h p c n o s1 Hl Hg Hr HC)
    as (Hn1 & Hp1 & Hf1 & Hq1 & (c1 & Hc1 & Hlc & Hnc) & (n1 & Hpn & He & Hst & Hpar & Hlb) & (m & Hm & Hprev)).
  destruct (rebegin_phase s1 phs h c1 p n1 lab s2) as (Hn2 & Hk & Hp2 & Hf2 & Hq2); try done.
  - by rewrite Hp1.
  - destruct phs as [|q phs' _] using rev_ind; [by right|left]. rewrite Hlb. unfold begin_label. rewrite Hnc.
    change (label_ n = begin_label lab c). rewrite Hbl. rewrite length_app in Hlen. simpl in Hlen.
    apply (ns_label s _ Hn (length phs') h p c n); [| |apply (al_dom _ _ _ _ _ _ Hl)|apply (al_node _ _ _ _ _ _ Hl)].
    + rewrite <-Hh, last_lookup, Hlen. f_equal. simpl. lia.
    + apply list_lookup_middle. rewrite length_app. simpl. lia.
  - exists m. by rewrite Hlc.
  - destruct (Hk p n1 Hpn) as (n2 & Hp2n & _ & _ & He2 & _ & _ & _ & Hst2).
    split; [|split; [congruence|split; [congruence|split]]].
    + unfold IsGood. rewrite Hf2, Hf1. apply Z.eqb_neq.
      pose proof (tw_dom _ (ns_wf s _ Hn) p n (al_node _ _ _ _ _ _ Hl)). unfold HEALTHY. lia.
    + exists n2. split; [done|]. split; [congruence|auto].
    + exists (phs ++ [p]). split; [done|]. rewrite Hp2, Hp1. split; [|by apply list_lookup_middle].
      rewrite <-Hh, last_lookup, Hlen. done.
Qed.

(** A Complete of the domain, without another error, ends the recovery. *)
Lemma recovering_ends h p k L s c :
  recovering h p k L s → last (uniquePath s) = Some h → active s h → objs s !! h = Some c → level c < rollback_point_ s →
  ∃ s', Complete h s = Ok (Completed, s') ∧ IsGood s' = true.
Proof.
  intros (Hg & Hf & Hq & (n & Hp & Hk & Hst) & phs0 & Hn & HL & HpL) Hh Ha Hc Hlt.
  destruct (at_leaf_intro s phs0 h Hn Hh Ha) as (phs & p' & c' & n' & -> & Hl).
  pose proof (al_dom _ _ _ _ _ _ Hl) as Hc'. assert (c' = c) as -> by congruence.
  pose proof Hh as Hlast. rewrite last_lookup, (al_len _ _ _ _ _ _ Hl) in Hlast. simpl in Hlast.
  assert (L = length phs) as -> by (by apply (path_inj s _ _ _ h Hn)).
  rewrite list_lookup_middle in HpL by done. injection HpL as ->.
  pose proof (al_node _ _ _ _ _ _ Hl) as Hp'. assert (n' = n) as -> by congruence.
  assert (∃ s1, CheckRecovered c s = Ok s1 ∧ IsGood s1 = true ∧ nested s1 (phs ++ [p]) ∧ uniquePath s1 = uniquePath s ∧
    objs s1 = objs s) as (s1 & H1 & Hg1 & Hn1 & Hp1 & Ho1).
  { pose proof (FinishRecovery_returns p n (tree s) (ns_wf s _ Hn) Hp Hst) as Hfin.
    destruct (FinishRecovery p (tree s)) as [t|] eqn:Ht; [|done]. simpl in Hfin.
    exists (with_tree t (with_failed HEALTHY HEALTHY s)). split; [|split; [done|split; [by apply healed_nested|done]]].
    unfold CheckRecovered, SetHealthy, IsFailed. rewrite (al_current _ _ _ _ _ _ Hl). cbn [deref].
    rewrite ret_bind, (node_Some _ p n Hp), ret_bind, Hg, (al_phase _ _ _ _ _ _ Hl), Hf, Z.eqb_refl, Hq, Hk, Z.eqb_refl.
    cbn [negb andb]. by rewrite ret_bind, Ht, ret_bind. }
  rewrite (Complete_no_error s phs h p c n Hl Hlt), H1, ret_bind.
  destruct (retire false s1 phs p h c (completed_dom c)) as [Hret _]; try done.
  - by rewrite Hp1.
  - rewrite Hp1. apply (al_len _ _ _ _ _ _ Hl).
  - by rewrite Ho1.
  - apply (al_begin _ _ _ _ _ _ Hl).
  - apply bind_Ok in Hret as (s2 & H2 & H3). rewrite H2, ret_bind, H3, ret_bind. eexists. split; [done|]. done.
Qed.

(** C6: an error of a domain that is not escalated is recovered, when the task was
    not in recovery before: after the rollback to its Begin, the Begin with the same
    label, and a body that does anything inside the domain, failures and rollbacks
    of domains below included, its Complete returns when no further error was
    reported for it, and the task is no longer in recovery.  As in all theorems on
    reachable states, the path of a label is not that of another phase ([label_ok],
    [name_ok]). *)
Theorem own_rollback_recovers u s h c o s1 lab s2 s3 c3 :
  reachable u s → IsGood s = true → last (uniquePath s) = Some h → active s h → objs s !! h = Some c →
  rollback_point_ s = level c → Complete h s = Ok (o, s1) →
  label_ok s1 lab → begin_label lab c = label c → Begin h lab s1 = Ok s2 →
  rtc (body u h) s2 s3 → last (uniquePath s3) = Some h → active s3 h → objs s3 !! h = Some c3 →
  level c3 < rollback_point_ s3 →
  ∃ s4, Complete h s3 = Ok (Completed, s4) ∧ IsGood s4 = true.
Proof.
  intros Hreach Hg Hh Ha Hc Hr HC Hlab Hbl HB Hbody Hh3 Ha3 Hc3 Hlt.
  destruct (reachable_nested u s Hreach) as [phs0 Hn0].
  destruct (at_leaf_intro s phs0 h Hn0 Hh Ha) as (phs & p & c' & n & -> & Hl).
  pose proof (al_dom _ _ _ _ _ _ Hl) as Hc'. assert (c' = c) as -> by congruence.
  pose proof (rollback_recovering s phs h p c n o s1 lab s2 Hl Hg Hr HC Hlab Hbl HB) as Hrec.
  assert (recovering h p (seq_end_ n) (length phs) s3) as Hrec3.
  { clear -Hrec Hbody. induction Hbody as [s|s s' s3 Hb _ IH]; [done|]. apply IH. by apply (body_recovering u h p _ _ s). }
  by apply (recovering_ends h p (seq_end_ n) (length phs) s3 c3).
Qed.

(** Programs inside the domain [h], executable. *)
Definition exec_in (u h : Z) (c : call) (s : Rt) : res Rt :=
  _ ← cassert (activeb s h);
  s' ← exec u c s;
  _ ← cassert (activeb s' h);
  Ok s'.

Lemma exec_in_rtc u h l s s' : foldM (exec_in u h) l s = Ok s' → rtc (body u h) s s'.
Proof.
  revert s. induction l as [|c l IH]; intros s; simpl; [by intros [= <-]|].
  intros (s1 & H1 & Hl)%bind_Ok. unfold exec_in in H1. apply bind_Ok in H1 as (v & Ha%cassert_Ok & H1).
  apply bind_Ok in H1 as (s1' & He & H1). apply bind_Ok in H1 as (w & Ha'%cassert_Ok & H1). injection H1 as <-.
  eapply rtc_l; [|by apply IH]. split; [by apply (exec_step u c)|]. by split; apply activeb_true.
Qed.

(** A with a child B; A fails after B, and is executed again. *)
Definition A_with_B : list call :=
  [CBegin NO_LABEL; CCreate "A"; CBegin NO_LABEL; CCreate "B"; CBegin NO_LABEL; CComplete; CDestroy].
Definition A_fails : Rt := after (A_with_B ++ [CDetect 1]).
Definition A_back : outcome * Rt := get (Completed, rt0) (Complete 1 A_fails).
Definition A_again : Rt := get rt0 (Begin 1 NO_LABEL A_back.2).
Definition A_done : Rt := get rt0 (foldM (exec_in 1024 1) [CCreate "B"; CBegin NO_LABEL; CComplete; CDestroy] A_again).

Lemma own_rollback_recovers_witness : ∃ s4, Complete 1 A_done = Ok (Completed, s4) ∧ IsGood s4 = true.
Proof.
  eapply (own_rollback_recovers 1024 A_fails 1)
    with (o := A_back.1) (s1 := A_back.2) (lab := NO_LABEL) (s2 := A_again) (s3 := A_done).
  - apply after_reachable. vm_compute. reflexivity.
  - vm_compute. reflexivity.
  - vm_compute. reflexivity.
  - apply activeb_true. vm_compute. reflexivity.
  - vm_compute. reflexivity.
  - vm_compute. reflexivity.
  - vm_compute. reflexivity.
  - vm_compute. exact I.
  - vm_compute. reflexivity.
  - vm_compute. reflexivity.
  - apply (exec_in_rtc 1024 1 [CCreate "B"; CBegin NO_LABEL; CComplete; CDestroy]). vm_compute. reflexivity.
  - vm_compute. reflexivity.
  - apply activeb_true. vm_compute. reflexivity.
  - vm_compute. reflexivity.
  - vm_compute. reflexivity.
Defined.

(** ** Errors that are forgotten *)

(** A step in which no error is reported. *)
Definition quiet (u : Z) (s s' : Rt) : Prop := step u s s' ∧ rollback_point_ s' = rollback_point_ s.

(** A domain that begins forgets every error reported before, for whatever
    level: SyncCDs of a domain of one task returns no rollback point, and Begin
    writes it over the one there was.  Without a later report no Complete rolls
    back, that of the domain with the error included. *)
Theorem Begin_forgets_errors u s h lab s1 s2 h2 o s3 :
  reachable u s → last (uniquePath s) = Some h → label_ok s lab → Begin h lab s = Ok s1 →
  rtc (quiet u) s1 s2 → last (uniquePath s2) = Some h2 → active s2 h2 → Complete h2 s2 = Ok (o, s3) →
  o = Completed.
Proof.
  intros Hreach Hh Hlab HB Hq Hh2 Ha2 HC.
  assert (reachable u s1) as Hreach1 by (eapply reach_step; [exact Hreach|by eapply step_begin]).
  assert (rollback_point_ s1 = INVALID_ROLLBACK_POINT) as Hr.
  { by apply Begin_Ok in HB as (c & ph & t & cur & t' & _ & _ & _ & _ & _ & ->). }
  assert (reachable u s2 ∧ rollback_point_ s2 = INVALID_ROLLBACK_POINT) as [Hreach2 Hr2].
  { clear -Hreach1 Hr Hq. induction Hq as [s|s s' s2 [Hst Heq] _ IH]; [done|].
    apply IH; [by eapply reach_step|congruence]. }
  destruct (reachable_nested u s2 Hreach2) as [phs0 Hn].
  destruct (at_leaf_intro s2 phs0 h2 Hn Hh2 Ha2) as (phs & p & c & n & -> & Hl).
  destruct (Complete_cases s2 phs h2 p c n o s3 Hl HC) as [(_ & -> & _)|(r & hr & s0 & Hrr & Hle & _)]; [done|].
  pose proof (ns_depth s2 _ Hn). rewrite (al_len _ _ _ _ _ _ Hl) in *. lia.
Qed.

(** A reports an error for itself, and then begins and completes its child B:
    its Complete returns as if there had been no error. *)
Definition A_reports : Rt :=
  after [CBegin NO_LABEL; CCreate "A"; CBegin NO_LABEL; CAssert 1; CCreate "B"].
Definition B_begun : Rt := get rt0 (Begin 2 NO_LABEL A_reports).
Definition B_completed : outcome * Rt := get (Jump 0, rt0) (Complete 2 B_begun).
Definition B_gone : Rt := get rt0 (Destroy B_completed.2).
Definition A_completed : outcome * Rt := get (Jump 0, rt0) (Complete 1 B_gone).

Lemma Begin_forgets_errors_witness :
  rollback_point_ A_reports = 1 ∧ Complete 1 B_gone = Ok A_completed ∧ A_completed.1 = Completed.
Proof.
  split; [vm_compute; reflexivity|]. split; [vm_compute; reflexivity|].
  apply (Begin_forgets_errors 1024 A_reports 2 NO_LABEL B_begun B_gone 1 (A_completed.1) (A_completed.2)).
  - apply after_reachable. vm_compute. reflexivity.
  - vm_compute. reflexivity.
  - vm_compute. exact I.
  - vm_compute. reflexivity.
  - apply (rtc_l _ _ B_completed.2).
    { split; [|vm_compute; reflexivity]. apply (exec_step 1024 CComplete). vm_compute. reflexivity. }
    apply (rtc_l _ _ B_gone); [|apply rtc_refl].
    split; [|vm_compute; reflexivity]. apply (exec_step 1024 CDestroy). vm_compute. reflexivity.
  - vm_compute. reflexivity.
  - apply activeb_true. vm_compute. reflexivity.
  - vm_compute. reflexivity.
Defined.
