(* ===== verification/Mailbox.v ===== *)
(** * Mailboxes and events between the tasks of a domain (cd_comm_internal.cc, event_handler.cc)

    Every task has a counter of pending events and a rollback point; every
    domain of several tasks has a mailbox: at its head one word per task, at the
    others one word, whose bits are events.  A task sets a bit in the mailbox of
    another and increments its counter through one-sided MPI; the owner looks at
    its mailboxes in CheckMailBox, queues a handler per event and runs them.

    A world is the memory of all tasks.  An operation is executed by one task,
    with access to the words of the others; it is one step, so tasks interleave
    between operations and not within.  Locks are left out: every access between
    a lock and its unlock is a part of one operation.

    A task's path has the domains that are active, the root first.  The handlers
    of the entry events, which exchange preserved entries, are parameters. *)

From Stdlib Require Import ZArith Lia.
From stdpp Require Import base gmap list numbers sets.
From S2P Require Import Prelude PhaseTree Handle.

#[local] Open Scope Z_scope.

(** ** Data *)

(** [CDEventT]. *)
Definition kNoEvent : Z := 0.
Definition kAllPause : Z := 1.
Definition kAllResume : Z := 2.
Definition kAllReexecute : Z := 4.
Definition kEntrySend : Z := 16.
Definition kEntrySearch : Z := 64.
Definition kErrorOccurred : Z := 128.

Definition CHECK_EVENT (x y : Z) : bool := Z.land x y =? y.
Definition CHECK_NO_EVENT (x : Z) : bool := x =? 0.

(** The classes of event_handler.h, with [task_id_]. *)
Inductive Handler :=
  | HandleAllPause | HandleAllReexecute | HandleEntrySend
  | HandleErrorOccurred (task_id_ : nat) | HandleEntrySearch (task_id_ : nat) | HandleAllResume.

(** A domain: its level, the global ranks of its tasks by their rank in the
    domain, and the rank of the head. *)
Record Domain := mkDomain { d_level : Z; d_group : list nat; d_head : nat }.

(** The memory of a task: the two words in windows, and by domain the queue of
    events and the flag of the head. *)
Record Task := mkTask {
  path : list nat;
  pendingFlag_ : Z;
  rollback_word : Z;
  handled_event_count : Z;
  cd_event_ : gmap nat (list Handler);
  error_occurred : gset nat;
}.

(** The mailbox of a task in a domain, by domain and rank in it. *)
Record World := mkWorld { tasks : list Task; event_flag_ : gmap (nat * nat) (list Z) }.

Definition with_pending (x : Z) (t : Task) : Task :=
  mkTask (path t) x (rollback_word t) (handled_event_count t) (cd_event_ t) (error_occurred t).
Definition with_word (x : Z) (t : Task) : Task :=
  mkTask (path t) (pendingFlag_ t) x (handled_event_count t) (cd_event_ t) (error_occurred t).
Definition with_handled (x : Z) (t : Task) : Task :=
  mkTask (path t) (pendingFlag_ t) (rollback_word t) x (cd_event_ t) (error_occurred t).
(** [cd_event_] and [error_occurred] of a domain. *)
Definition with_queue (d : nat) (q : list Handler) (t : Task) : Task :=
  mkTask (path t) (pendingFlag_ t) (rollback_word t) (handled_event_count t) (<[d := q]> (cd_event_ t))
    (error_occurred t).
Definition with_error (d : nat) (b : bool) (t : Task) : Task :=
  mkTask (path t) (pendingFlag_ t) (rollback_word t) (handled_event_count t) (cd_event_ t)
    (if b then {[d]} ∪ error_occurred t else error_occurred t ∖ {[d]}).

Definition queue (t : Task) (d : nat) : list Handler := default [] (cd_event_ t !! d).

Definition on_task (t : nat) (f : Task → Task) (w : World) : World :=
  mkWorld (alter f t (tasks w)) (event_flag_ w).
Definition task (w : World) (t : nat) : res Task := deref (tasks w !! t).

(** The words of a mailbox. *)
Definition flags (w : World) (d k : nat) : res (list Z) := deref (event_flag_ w !! (d, k)).
Definition on_flag (d k i : nat) (f : Z → Z) (w : World) : res World :=
  l ← flags w d k;
  x ← aload l (Z.of_nat i);
  l ← astore l (Z.of_nat i) (f x);
  Ok (mkWorld (tasks w) (<[(d, k) := l]> (event_flag_ w))).
Definition SetEventFlag (d k i : nat) (event : Z) : World → res World := on_flag d k i (λ x, Z.lor x event).
Definition UnsetEventFlag (d k i : nat) (event : Z) : World → res World := on_flag d k i (λ x, Z.ldiff x event).

Section mailbox.
Context (doms : nat → Domain).
(** [HandleEntrySend::HandleEvent] and [HandleEntrySearch::HandleEvent]. *)
Context (HandleEntry : Handler → nat → nat → World → res World).

Definition task_size (d : nat) : nat := length (d_group (doms d)).
Definition level (d : nat) : Z := d_level (doms d).
Definition head_of (d : nat) : nat := d_head (doms d).

(** [task_in_color], and the translation of a rank to the root's group. *)
Definition task_in_color (d t : nat) : res nat :=
  deref (fst <$> list_find (λ g, g = t) (d_group (doms d))).
Definition global_rank (d k : nat) : res nat := deref (d_group (doms d) !! k).

Definition IsHead (d t : nat) : res bool := k ← task_in_color d t; Ok (bool_decide (k = head_of d)).

(** The domains from [d] up to the root: [GetParentCD], repeatedly. *)
Definition upwards (x : Task) (d : nat) : list nat := rev (take (S (Z.to_nat (level d))) (path x)).

(** [GetCoarseCD]: the domains from the first one of several tasks, or from the
    root. *)
Fixpoint coarse (l : list nat) : list nat :=
  match l with
  | [] => []
  | d :: l' => match l' with [] => [d] | _ => if (task_size d =? 1)%nat then coarse l' else d :: l' end
  end.
Definition GetCoarseCD (x : Task) (d : nat) : res nat := deref (head (coarse (upwards x d))).

Definition GetCurrentCD (x : Task) : res nat := deref (last (path x)).

(** A domain of one task has no window of its own. *)
Definition is_window_reused_ (d : nat) : bool := (task_size d =? 1)%nat.

(** ** Counters and rollback points *)

Definition IncPendingCounter (t : nat) (w : World) : World :=
  on_task t (λ x, with_pending (u32 (pendingFlag_ x + 1)) x) w.
Definition DecPendingCounter (t : nat) (w : World) : World :=
  on_task t (λ x, with_handled 0 (with_pending (u32 (pendingFlag_ x - handled_event_count x)) x)) w.
Definition IncHandledEventCounter (t : nat) (w : World) : res World :=
  x ← task w t;
  n ← int32 (handled_event_count x + 1);
  Ok (on_task t (with_handled n) w).

Definition lower (lv : Z) (x : Task) : Task := with_word (if lv <? rollback_word x then lv else rollback_word x) x.

(** [CD::SetRollbackPoint] with [remote] false: it writes the word of the task
    whatever the domain. *)
Definition SetRollbackPoint (t : nat) (lv : Z) (w : World) : World :=
  if negb (lv =? INVALID_ROLLBACK_POINT) then on_task t (lower lv) w
  else on_task t (with_word INVALID_ROLLBACK_POINT) w.

(** [CD::CheckRollbackPoint] with [remote] false. *)
Definition CheckRollbackPoint (t : nat) (w : World) : res Z := x ← task w t; Ok (rollback_word x).

(** [CD::InitializeMailBox] and [CD::FinalizeMailBox] of task [t] in domain [d]. *)
Definition InitializeMailBox (t d : nat) (w : World) : res World :=
  let w := on_task t (λ x, with_word INVALID_ROLLBACK_POINT (with_pending 0 x)) w in
  if is_window_reused_ d then Ok w else
  k ← task_in_color d t;
  h ← IsHead d t;
  if h : bool then
    foldM (λ i w, on_flag d k i (λ _, 0) w) (seq 0 (task_size d)) w
  else on_flag d k 0 (λ _, 0) w.

(** The events that [FinalizeMailBox] counts as handled. *)
Definition events : list Z := [kErrorOccurred; kAllReexecute; kEntrySearch; kEntrySend; kAllPause; kAllResume].

Definition finalize_flag (t d k i : nat) (w : World) : res World :=
  l ← flags w d k;
  event ← aload l (Z.of_nat i);
  w ← foldM (λ e w, if CHECK_EVENT event e then IncHandledEventCounter t w else Ok w) events w;
  on_flag d k i (λ _, 0) w.

Definition FinalizeMailBox (t d : nat) (w : World) : res World :=
  if (1 <? task_size d)%nat && negb (is_window_reused_ d) then
    k ← task_in_color d t;
    h ← IsHead d t;
    w ← (if h : bool then foldM (finalize_flag t d k) (seq 0 (task_size d)) w
         else finalize_flag t d k 0 w);
    Ok (DecPendingCounter t w)
  else Ok w.

(** ** Sending events *)

Definition push (t d : nat) (h : Handler) : World → World := on_task t (λ x, with_queue d (queue x d ++ [h]) x).

(** [HeadCD::LocalSetMailBox]. *)
Definition LocalSetMailBox (d t : nat) (event : Z) (w : World) : res World :=
  h ← IsHead d t;
  cassert h;;
  if CHECK_NO_EVENT event then Ok w else
  if (event =? kAllResume) || (event =? kAllPause) || (event =? kEntrySearch) then Err AssertFail else
  k ← task_in_color d t;
  w ← (if CHECK_EVENT event kErrorOccurred then
         let w := push t d (HandleErrorOccurred 0) (IncPendingCounter t w) in
         w ← UnsetEventFlag d k k kErrorOccurred w;
         Ok (on_task t (with_error d true) w)
       else Ok w);
  w ← (if CHECK_EVENT event kAllReexecute then
         let w := push t d HandleAllReexecute (IncPendingCounter t w) in
         UnsetEventFlag d k k kAllReexecute w
       else Ok w);
  if CHECK_EVENT event kEntrySend then Err AssertFail else Ok w.

(** [CD::RemoteSetMailBox]. *)
Definition RemoteSetMailBox (d t : nat) (event : Z) (w : World) : res World :=
  g ← global_rank d (head_of d);
  let w := IncPendingCounter g w in
  k ← task_in_color d t;
  if (head_of d =? k)%nat then SetEventFlag d k 0 event w else SetEventFlag d (head_of d) k event w.

(** [CD::SetMailBox]. *)
Definition SetMailBox (d t : nat) (event : Z) (w : World) : res World :=
  if CHECK_NO_EVENT event then Ok w else
  x ← task w t;
  c ← GetCoarseCD x d;
  h ← IsHead c t;
  if h : bool then LocalSetMailBox c t event w else RemoteSetMailBox c t event w.

(** [HeadCD::SetMailBox]. *)
Definition Head_SetMailBox (d t : nat) (event : Z) (task_id : nat) (w : World) : res World :=
  if (event =? kErrorOccurred) || (event =? kEntrySearch) then Err AssertFail else
  if (task_size d =? 1)%nat then Err AssertFail else
  if event =? kNoEvent then Ok w else
  k ← task_in_color d t;
  if negb (task_id =? k)%nat then
    g ← global_rank d task_id;
    if negb (g =? t)%nat then SetEventFlag d task_id 0 event (IncPendingCounter g w) else Err AssertFail
  else cassert (1 <? task_size d)%nat;; LocalSetMailBox d t event w.

(** ** Reading a mailbox *)

(** [GetEventFlag] and [UnsetEventFlag], of a window of the domain. *)
Definition GetEventFlag (d k : nat) (w : World) : res (list Z) :=
  cassert (negb (is_window_reused_ d));; flags w d k.
Definition UnsetMailBox (d k i : nat) (event : Z) (w : World) : res World :=
  cassert (negb (is_window_reused_ d));; UnsetEventFlag d k i event w.

(** [CD::ReadMailBox], for [event] a copy of the flag. *)
Definition ReadMailBox (d t k : nat) (event : Z) (w : World) : res World :=
  if CHECK_NO_EVENT event then Ok w else
  w ← (if CHECK_EVENT event kEntrySearch then UnsetMailBox d k 0 kEntrySearch w else Ok w);
  w ← (if CHECK_EVENT event kErrorOccurred then UnsetMailBox d k 0 kErrorOccurred w else Ok w);
  w ← (if CHECK_EVENT event kEntrySend then UnsetMailBox d k 0 kEntrySend (push t d HandleEntrySend w) else Ok w);
  w ← (if CHECK_EVENT event kAllPause then UnsetMailBox d k 0 kAllPause (push t d HandleAllPause w) else Ok w);
  if CHECK_EVENT event kAllReexecute then UnsetMailBox d k 0 kAllReexecute (push t d HandleAllReexecute w) else Ok w.

(** [HeadCD::ReadMailBox], of the flag of the task [idx]: a report is queued
    once, and counts as handled after that. *)
Definition Head_ReadMailBox (d t k : nat) (event : Z) (idx : nat) (w : World) : res World :=
  (if (idx =? head_of d)%nat then cassert (head_of d =? k)%nat else Ok ());;
  if CHECK_NO_EVENT event then Ok w else
  w ← (if CHECK_EVENT event kErrorOccurred then
         cassert (1 <? task_size d)%nat;;
         x ← task w t;
         w ← (if bool_decide (d ∈ error_occurred x) then IncHandledEventCounter t w
              else Ok (on_task t (with_error d true) (push t d (HandleErrorOccurred idx) w)));
         UnsetMailBox d k idx kErrorOccurred w
       else Ok w);
  w ← (if CHECK_EVENT event kEntrySearch
       then UnsetEventFlag d k idx kEntrySearch (push t d (HandleEntrySearch idx) w) else Ok w);
  w ← (if CHECK_EVENT event kAllResume
       then UnsetEventFlag d k idx kAllResume (push t d HandleAllResume w) else Ok w);
  w ← (if CHECK_EVENT event kAllReexecute
       then UnsetEventFlag d k idx kAllReexecute (push t d HandleAllReexecute w) else Ok w);
  if CHECK_EVENT event kEntrySend || CHECK_EVENT event kAllPause then Err AssertFail else Ok w.

(** [InternalCheckMailBox], of [CD] and of [HeadCD]. *)
Definition InternalCheckMailBox (t d : nat) (w : World) : res World :=
  k ← task_in_color d t;
  event ← GetEventFlag d k w;
  h ← IsHead d t;
  if h : bool then
    foldM (λ i w, e ← aload event (Z.of_nat i); Head_ReadMailBox d t k e i w) (seq 0 (task_size d)) w
  else e ← aload event 0; ReadMailBox d t k e w.

(** ** Handling events *)

(** [HandleErrorOccurred::HandleEvent]. *)
Definition HandleError (d t : nat) (w : World) : res World :=
  if (task_size d =? 1)%nat then Ok w else
  x ← task w t;
  cur ← GetCurrentCD x;
  w ← (if level d <=? level cur then
         foldM (λ i w, Head_SetMailBox d t kAllReexecute i w) (seq 0 (task_size d)) w
       else Ok (SetRollbackPoint t (level d) w));
  w ← IncHandledEventCounter t w;
  Ok (on_task t (with_error d false) w).

(** [HandleAllReexecute::HandleEvent]. *)
Definition HandleReexecute (d t : nat) (w : World) : res World :=
  cassert (negb (task_size d =? 1)%nat);;
  x ← task w t;
  cur ← GetCurrentCD x;
  w ← (if level d =? level cur then Ok (SetRollbackPoint t (level d) w)
       else if level d <? level cur then Ok w else Err AssertFail);
  IncHandledEventCounter t w.

Definition HandleEvent (h : Handler) (d t : nat) (w : World) : res World :=
  match h with
  | HandleAllPause => IncHandledEventCounter t w
  | HandleAllReexecute => HandleReexecute d t w
  | HandleErrorOccurred _ => HandleError d t w
  | HandleAllResume => if (task_size d =? 1)%nat then Ok w else IncHandledEventCounter t w
  | HandleEntrySend | HandleEntrySearch _ => HandleEntry h d t w
  end.

(** [CD::InvokeErrorHandler], with a bound on its iterations. *)
Fixpoint InvokeErrorHandler (fuel : nat) (t d : nat) (w : World) : res World :=
  x ← task w t;
  match queue x d with
  | [] => Ok w
  | h :: _ =>
      match fuel with
      | O => Err OutOfFuel
      | S fuel =>
          w ← HandleEvent h d t w;
          InvokeErrorHandler fuel t d (on_task t (λ x, with_queue d (tail (queue x d)) x) w)
      end
  end.

(** [CD::InvokeAllErrorHandler]: a report of a queue adds one event to it. *)
Definition InvokeAllErrorHandler (t : nat) (w : World) : res World :=
  x ← task w t;
  cur ← GetCurrentCD x;
  foldM (λ d w, x ← task w t; InvokeErrorHandler (2 * length (queue x d)) t d w) (coarse (upwards x cur)) w.

Definition tot_events (x : Task) (l : list nat) : nat := sum_list_with (λ d, length (queue x d)) l.

(** [CD::CheckMailBox], of a task whatever the domain it is called for. *)
Definition CheckMailBox (t : nat) (w : World) : res World :=
  x ← task w t;
  let event_count := pendingFlag_ x in
  cassert (handled_event_count x =? 0);;
  cur ← GetCurrentCD x;
  if event_count =? 0 then
    if (0 <? tot_events x (coarse (upwards x cur)))%nat then InvokeAllErrorHandler t w else Ok w
  else
    let several := filter (λ d, (1 < task_size d)%nat) (upwards x cur) in
    w ← foldM (λ d w, InternalCheckMailBox t d w) several w;
    x ← task w t;
    if (0 <? tot_events x several)%nat
    then w ← InvokeAllErrorHandler t w; Ok (DecPendingCounter t w)
    else Ok w.

(** [CD::Assert] of the domain [d] by task [t]. *)
Definition Assert (t d : nat) (test : bool) (w : World) : res World :=
  x ← task w t;
  cur ← GetCurrentCD x;
  w ← (if test then Ok w
       else if level cur =? level d then
         if (1 <? task_size d)%nat then
           h ← IsHead d t;
           if h : bool then Ok (SetRollbackPoint t (level d) w) else SetMailBox d t kErrorOccurred w
         else Ok (SetRollbackPoint t (level d) w)
       else if level d <? level cur then
         if (1 <? task_size d)%nat then
           w ← SetMailBox d t kErrorOccurred w; Ok (SetRollbackPoint t (level d) w)
         else Ok (SetRollbackPoint t (level d) w)
       else Err AssertFail);
  CheckMailBox t w.

(** [CD::SyncCDs], before and after its fence, for a domain of several tasks;
    the result is what the task gives to the reduction. *)
Definition SyncCDs_enter (t : nat) (w : World) : res World := w ← CheckMailBox t w; CheckMailBox t w.
Definition SyncCDs_leave (t : nat) (w : World) : res (Z * World) :=
  w ← CheckMailBox t w;
  r ← CheckRollbackPoint t w;
  Ok (r, w).

End mailbox.
