(* ===== verification/Events.v ===== *)
(** * Events in mailboxes: invariants and CheckMailBox (cd_comm_internal.cc, event_handler.cc, cd_internal.cc)

    The operations of Mailbox.v on worlds that satisfy the invariant [Inv]: the
    pending counter of a task is at least the number of its events, which are
    the words that are set in its mailboxes and the handlers in its queues, so
    the counter is not 0 while there is an event; counters do not wrap.
    [CheckMailBox_checks] and [Assert_checks] say what these operations do; the
    protocol of a domain is in Coordination.v.  Entry events are left out. *)

From Stdlib Require Import ZArith Lia.
From stdpp Require Import base gmap list numbers sets.
From S2P Require Import Prelude PhaseTree Handle Mailbox.

#[local] Open Scope Z_scope.

(** The paths of tasks agree with the groups of domains: the tasks of a domain
    have it in their path at its level. *)
Record topology (doms : nat → Domain) (ps : list (list nat)) : Prop := mkTop {
  tp_nonempty : ∀ t p, ps !! t = Some p → p ≠ [];
  tp_level : ∀ t p i d, ps !! t = Some p → p !! i = Some d → d_level (doms d) = Z.of_nat i;
  tp_depth : ∀ t p, ps !! t = Some p → Z.of_nat (length p) < INVALID_ROLLBACK_POINT;
  tp_group : ∀ t d, t ∈ d_group (doms d) ↔ ∃ p, ps !! t = Some p ∧ d ∈ p;
  tp_NoDup : ∀ d, NoDup (d_group (doms d));
  tp_head : ∀ d t, t ∈ d_group (doms d) → (d_head (doms d) < length (d_group (doms d)))%nat;
}.

Definition no_task : Task := mkTask [] 0 INVALID_ROLLBACK_POINT 0 ∅ ∅.
Definition tk (w : World) (t : nat) : Task := default no_task (tasks w !! t).

(** ** Sums *)

Lemma sum_list_same {A} (f g : A → nat) (l : list A) :
  (∀ y, y ∈ l → f y = g y) → sum_list_with f l = sum_list_with g l.
Proof. induction l as [|z l IH]; intros Hf; simpl; [done|]. rewrite Hf, IH by set_solver. done. Qed.

Lemma sum_list_change {A} (f g : A → nat) (l : list A) (x : A) (a b : nat) :
  NoDup l → x ∈ l → (∀ y, y ∈ l → y ≠ x → f y = g y) → (f x + a = g x + b)%nat →
  (sum_list_with f l + a = sum_list_with g l + b)%nat.
Proof.
  induction 1 as [|y l Hy Hl IH]; [by intros ?%elem_of_nil|]. intros Hx Hne Hxx; simpl.
  apply elem_of_cons in Hx as [->|Hx].
  - rewrite (sum_list_same f g l); [lia|]. intros z Hz. apply Hne; [by right|congruence].
  - rewrite (Hne y); [|set_solver..].
    assert (sum_list_with f l + a = sum_list_with g l + b)%nat; [|lia].
    apply IH; [done| |done]. intros; apply Hne; set_solver.
Qed.

Lemma sum_list_ge {A} (f : A → nat) (l : list A) (y : A) : y ∈ l → (f y ≤ sum_list_with f l)%nat.
Proof. induction 1; simpl; lia. Qed.

Lemma sum_list_insert {A} (f : A → nat) (l : list A) i (z y : A) :
  l !! i = Some z → (sum_list_with f (<[i := y]> l) + f z = sum_list_with f l + f y)%nat.
Proof.
  intros Hz. rewrite insert_take_drop by (by eapply lookup_lt_Some).
  rewrite <-(take_drop_middle l i z Hz) at 3. rewrite !sum_list_with_app. simpl. lia.
Qed.

Lemma alter_twice {A} (F G : A → A) (l : list A) (i : nat) : alter G i (alter F i l) = alter (λ x, G (F x)) i l.
Proof.
  apply list_eq. intros j. destruct (decide (i = j)) as [->|Hn].
  - rewrite !list_lookup_alter_eq. by destruct (l !! j).
  - by rewrite !list_lookup_alter_ne.
Qed.

Lemma bind_bind {A B C} (m : res A) (f : A → res B) (g : B → res C) : (m ≫= f) ≫= g = m ≫= (λ x, f x ≫= g).
Proof. by destruct m. Qed.

Section events.
Context (doms : nat → Domain) (HandleEntry : Handler → nat → nat → World → res World).
Context (ps : list (list nat)) (top : topology doms ps).
Implicit Types (w : World) (t d k i : nat).

#[local] Abbreviation size := (task_size doms).
#[local] Abbreviation lv := (level doms).
#[local] Abbreviation grp d := (d_group (doms d)).
#[local] Abbreviation hd d := (head_of doms d).

Definition pth (t : nat) : list nat := default [] (ps !! t).
Definition rank (d t : nat) : nat := default O (fst <$> list_find (λ g, g = t) (grp d)).
Definition cur (t : nat) : nat := default O (last (pth t)).

Definition paths_ok (w : World) : Prop := path <$> tasks w = ps.

(** ** Ranks and paths *)

Lemma in_group t d : t ∈ grp d ↔ d ∈ pth t.
Proof.
  rewrite (tp_group _ _ top). unfold pth. split.
  - intros (p & Hp & Hd). by rewrite Hp.
  - destruct (ps !! t) as [p|] eqn:Hp; simpl; [eauto|]. by intros ?%elem_of_nil.
Qed.

Lemma rank_lookup d t : t ∈ grp d → grp d !! rank d t = Some t.
Proof.
  intros Ht. unfold rank. destruct (list_find (λ g, g = t) (grp d)) as [[i g]|] eqn:Hf; simpl.
  - apply list_find_Some in Hf as (? & -> & _). done.
  - apply list_find_None in Hf. rewrite Forall_forall in Hf. by destruct (Hf _ Ht).
Qed.

Lemma task_in_color_rank d t : t ∈ grp d → task_in_color doms d t = Ok (rank d t).
Proof.
  intros Ht. unfold task_in_color, rank.
  destruct (list_find (λ g, g = t) (grp d)) as [[i g]|] eqn:Hf; [done|].
  apply list_find_None in Hf. rewrite Forall_forall in Hf. by destruct (Hf _ Ht).
Qed.

Lemma rank_lt d t : t ∈ grp d → (rank d t < size d)%nat.
Proof. intros Ht%rank_lookup. by apply lookup_lt_Some in Ht. Qed.

Lemma rank_inj d t t' : t ∈ grp d → t' ∈ grp d → rank d t = rank d t' → t = t'.
Proof. intros H%rank_lookup H'%rank_lookup He. rewrite He in H. congruence. Qed.

Lemma rank_of d k t : grp d !! k = Some t → rank d t = k.
Proof.
  intros Hk. eapply NoDup_lookup; [apply (tp_NoDup _ _ top d)| |exact Hk].
  apply rank_lookup. by eapply list_elem_of_lookup_2.
Qed.

Lemma IsHead_rank d t : t ∈ grp d → IsHead doms d t = Ok (bool_decide (rank d t = hd d)).
Proof. intros Ht. unfold IsHead. by rewrite task_in_color_rank. Qed.

Lemma pth_lookup t d : t ∈ grp d → ∃ i, pth t !! i = Some d ∧ lv d = Z.of_nat i.
Proof.
  intros Hd%in_group. apply list_elem_of_lookup_1 in Hd as [i Hi]. exists i. split; [done|].
  unfold pth in Hi. destruct (ps !! t) as [p|] eqn:Hp; [|done]. eapply (tp_level _ _ top); eauto.
Qed.

Lemma NoDup_pth t : NoDup (pth t).
Proof.
  apply NoDup_alt. intros i j d Hi Hj. unfold pth in *.
  destruct (ps !! t) as [p|] eqn:Hp; [|done]. simpl in *.
  pose proof (tp_level _ _ top _ _ _ _ Hp Hi). pose proof (tp_level _ _ top _ _ _ _ Hp Hj). lia.
Qed.

Lemma upwards_pth w t d :
  paths_ok w → t ∈ grp d → ∃ l1 l2, pth t = l1 ++ d :: l2 ∧ upwards doms (tk w t) d = d :: rev l1.
Proof.
  intros Hw Ht. destruct (pth_lookup t d Ht) as (i & Hi & Hl).
  assert (path (tk w t) = pth t) as Hp.
  { unfold tk, pth. rewrite <-Hw, list_lookup_fmap. by destruct (tasks w !! t). }
  unfold upwards. rewrite Hp, Hl, Nat2Z.id. exists (take i (pth t)), (drop (S i) (pth t)).
  split; [by rewrite take_drop_middle|].
  rewrite (take_S_r _ _ _ Hi), rev_app_distr. done.
Qed.

Lemma in_group_lt t d : t ∈ grp d → (t < length ps)%nat.
Proof. intros (p & Hp & _)%(tp_group _ _ top). by eapply lookup_lt_Some. Qed.

(** ** The memory of a task *)

Lemma task_tk w t : paths_ok w → (t < length ps)%nat → task w t = Ok (tk w t).
Proof.
  intros Hw Ht. unfold task, tk. destruct (tasks w !! t) eqn:He; [done|].
  apply lookup_ge_None_1 in He. rewrite <-Hw, length_fmap in Ht. lia.
Qed.

Lemma path_tk w t : paths_ok w → path (tk w t) = pth t.
Proof. intros Hw. unfold tk, pth. rewrite <-Hw, list_lookup_fmap. by destruct (tasks w !! t). Qed.

Lemma tk_on_task w t t' f :
  paths_ok w → (t < length ps)%nat →
  tk (on_task t f w) t' = if decide (t' = t) then f (tk w t) else tk w t'.
Proof.
  intros Hw Ht. unfold tk. simpl. case_decide as He.
  - subst t'. rewrite list_lookup_alter_eq. rewrite <-Hw, length_fmap in Ht.
    apply lookup_lt_is_Some_2 in Ht as [x ->]. done.
  - by rewrite list_lookup_alter_ne by done.
Qed.

Lemma paths_on_task w t f : (∀ x, path (f x) = path x) → paths_ok w → paths_ok (on_task t f w).
Proof.
  intros Hf Hw. unfold paths_ok in *. rewrite <-Hw. apply list_eq. intros i. simpl.
  rewrite !list_lookup_fmap. destruct (decide (t = i)) as [->|Hn].
  - rewrite list_lookup_alter_eq. destruct (tasks w !! i); simpl; [by rewrite Hf|done].
  - by rewrite list_lookup_alter_ne.
Qed.

(** The words of the mailbox of [t] in [d]. *)
Definition box (w : World) (t d : nat) : list Z := default [] (event_flag_ w !! (d, rank d t)).

(** ** Counting events

    A measure weighs the words of mailboxes and the queued handlers. *)
Record measure := mkM { of_flag : Z → nat; of_handler : Handler → nat }.

Definition slot (m : measure) (w : World) (t d : nat) : nat :=
  sum_list_with (of_flag m) (box w t d) + sum_list_with (of_handler m) (queue (tk w t) d).
Definition held (m : measure) (w : World) (t : nat) : nat := sum_list_with (slot m w t) (pth t).
Definition total (m : measure) (w : World) : nat := sum_list_with (held m w) (seq 0 (length ps)).

(** From [w] to [w'], only the events of [t] in [d] change, by [b - a]. *)
Definition changes (m : measure) (w w' : World) (t d : nat) (a b : nat) : Prop :=
  (∀ t' d', t' ∈ grp d' → (t', d') ≠ (t, d) → slot m w' t' d' = slot m w t' d') ∧
  (slot m w' t d + a = slot m w t d + b)%nat.

Lemma changes_held m w w' t d a b :
  t ∈ grp d → changes m w w' t d a b → (held m w' t + a = held m w t + b)%nat.
Proof.
  intros Ht [Ho Hs]. apply (sum_list_change _ _ _ d); [apply NoDup_pth|by apply in_group| |done].
  intros d' Hd' Hn. apply Ho; [by apply in_group|congruence].
Qed.

Lemma changes_held_ne m w w' t t' d a b :
  t' ≠ t → changes m w w' t d a b → held m w' t' = held m w t'.
Proof.
  intros Hn [Ho _]. apply sum_list_same. intros d' Hd'. apply Ho; [by apply in_group|congruence].
Qed.

Lemma changes_total m w w' t d a b :
  t ∈ grp d → changes m w w' t d a b → (total m w' + a = total m w + b)%nat.
Proof.
  intros Ht Hc. apply (sum_list_change _ _ _ t).
  - apply NoDup_seq.
  - apply elem_of_seq. apply in_group_lt in Ht. lia.
  - intros t' _ Hn. by eapply changes_held_ne.
  - by eapply changes_held.
Qed.

Lemma changes_trans m w1 w2 w3 t d a b a' b' :
  changes m w1 w2 t d a b → changes m w2 w3 t d a' b' → changes m w1 w3 t d (a + a') (b + b').
Proof.
  intros [H1 H1'] [H2 H2']. split; [|lia].
  intros t' d' Ht Hn. by rewrite H2, H1.
Qed.

Lemma changes_le m w w' t d a b a' b' :
  changes m w w' t d a b → (a + b' = a' + b)%nat → changes m w w' t d a' b'.
Proof. intros [H1 H2] ?. split; [done|lia]. Qed.

(** A change of a task and of its mailbox in one domain. *)
Definition put (t d : nat) (F : Task → Task) (l : list Z) (w : World) : World :=
  mkWorld (alter F t (tasks w)) (<[(d, rank d t) := l]> (event_flag_ w)).

Definition count (m : measure) (l : list Z) (q : list Handler) : nat :=
  sum_list_with (of_flag m) l + sum_list_with (of_handler m) q.

Lemma slot_count m w t d : slot m w t d = count m (box w t d) (queue (tk w t) d).
Proof. done. Qed.

Lemma queue_with d d' q (x : Task) :
  queue (with_queue d q x) d' = if decide (d' = d) then q else queue x d'.
Proof.
  unfold queue, with_queue. simpl. case_decide; [subst; by rewrite lookup_insert_eq|].
  by rewrite lookup_insert_ne by congruence.
Qed.

Lemma put_on_task w t d F : box w t d ≠ [] → on_task t F w = put t d F (box w t d) w.
Proof.
  unfold box, on_task, put. destruct (event_flag_ w !! (d, rank d t)) as [l|] eqn:Hl; [|done].
  intros _. by rewrite insert_id.
Qed.

Lemma put_put w t d F G l l' : put t d G l' (put t d F l w) = put t d (λ x, G (F x)) l' w.
Proof. unfold put. simpl. f_equal; [by rewrite alter_twice|by rewrite insert_insert_eq]. Qed.

Lemma on_task_put w t d F G l : on_task t G (put t d F l w) = put t d (λ x, G (F x)) l w.
Proof. unfold on_task, put. simpl. by rewrite alter_twice. Qed.

Lemma tk_put w t d F l t' :
  paths_ok w → (t < length ps)%nat → tk (put t d F l w) t' = if decide (t' = t) then F (tk w t) else tk w t'.
Proof. intros. by rewrite <-tk_on_task. Qed.

Lemma box_put w t d F l t' d' :
  t ∈ grp d → t' ∈ grp d' →
  box (put t d F l w) t' d' = if decide (t' = t ∧ d' = d) then l else box w t' d'.
Proof.
  intros Ht Ht'. unfold box, put. simpl. case_decide as Hd.
  - destruct Hd as [-> ->]. by rewrite lookup_insert_eq.
  - rewrite lookup_insert_ne; [done|]. intros [= -> Hr]. apply Hd. split; [|done].
    symmetry. by eapply rank_inj.
Qed.

Lemma paths_put w t d F l : (∀ x, path (F x) = path x) → paths_ok w → paths_ok (put t d F l w).
Proof. intros HF Hw. by apply (paths_on_task w t F). Qed.

Lemma changes_put m w t d F l :
  paths_ok w → t ∈ grp d → (∀ d', d' ≠ d → queue (F (tk w t)) d' = queue (tk w t) d') →
  changes m w (put t d F l w) t d (slot m w t d) (count m l (queue (F (tk w t)) d)).
Proof.
  intros Hw Ht HF. pose proof (in_group_lt _ _ Ht) as Hlt. split.
  - intros t' d' Ht' Hn. unfold slot. rewrite tk_put, box_put by done.
    rewrite (decide_False (P := t' = t ∧ d' = d)) by naive_solver. case_decide; [subst|done].
    rewrite HF; [done|congruence].
  - unfold slot at 1. rewrite tk_put, box_put, !decide_True by done. unfold count. lia.
Qed.

Lemma on_flag_total w t d i f z :
  t ∈ grp d → box w t d !! i = Some z →
  on_flag d (rank d t) i f w = Ok (put t d id (<[i := f z]> (box w t d)) w).
Proof.
  intros Ht Hz. unfold on_flag, flags. unfold box in *.
  destruct (event_flag_ w !! (d, rank d t)) as [l|] eqn:Hl; simpl in *; [|done].
  rewrite (aload_lookup l (Z.of_nat i) z) by (rewrite ?Nat2Z.id; first [lia|done]). simpl.
  rewrite astore_Ok by (apply lookup_lt_Some in Hz; lia). simpl. rewrite Nat2Z.id. unfold put. by rewrite list_alter_id by done.
Qed.

(** ** The invariant *)

(** The pending events, and the reported errors among them. *)
Definition pending : measure := mkM (λ z, if z =? 0 then O else 1%nat) (λ _, 1%nat).
Definition errors : measure :=
  mkM (λ z, if z =? kErrorOccurred then 1%nat else O) (λ h, match h with HandleErrorOccurred _ => 1%nat | _ => O end).

(** The event a word of the mailbox of [t] in [d] can have. *)
Definition event_of (t d : nat) : Z := if decide (rank d t = hd d) then kErrorOccurred else kAllReexecute.
Definition words (t d : nat) : nat := if decide (rank d t = hd d) then size d else 1%nat.

Lemma event_head t d : rank d t = hd d → event_of t d = kErrorOccurred ∧ words t d = size d.
Proof. intros. unfold event_of, words. by rewrite !decide_True. Qed.

Lemma event_task t d : rank d t ≠ hd d → event_of t d = kAllReexecute ∧ words t d = 1%nat.
Proof. intros. unfold event_of, words. by rewrite !decide_False. Qed.

Record shape (t d : nat) (l : list Z) (x : Task) : Prop := mkShape {
  sh_len : length l = words t d;
  sh_val : ∀ i z, l !! i = Some z → z = 0 ∨ z = event_of t d;
  sh_queue : ∀ h, h ∈ queue x d → h = HandleAllReexecute ∨ rank d t = hd d ∧ ∃ i, h = HandleErrorOccurred i;
  sh_error : d ∈ error_occurred x → ∃ i, HandleErrorOccurred i ∈ queue x d;
}.

(** The invariant while task [act] executes an operation: it may have handled
    events not subtracted yet.  [b] bounds the counters. *)
Record Inv (act : option nat) (b : nat → Z) (w : World) : Prop := mkInv {
  iv_paths : paths_ok w;
  iv_shape : ∀ t d, t ∈ grp d → (1 < size d)%nat → shape t d (box w t d) (tk w t);
  iv_single : ∀ t d, t ∈ grp d → (size d ≤ 1)%nat → queue (tk w t) d = [] ∧ sum_list_with (of_flag pending) (box w t d) = O;
  iv_handled : ∀ t, (t < length ps)%nat → 0 ≤ handled_event_count (tk w t) ∧ (act ≠ Some t → handled_event_count (tk w t) = 0);
  iv_pending : ∀ t, (t < length ps)%nat → handled_event_count (tk w t) + Z.of_nat (held pending w t) ≤ pendingFlag_ (tk w t);
  iv_bound : ∀ t, (t < length ps)%nat → pendingFlag_ (tk w t) + Z.of_nat (total errors w) ≤ b t;
  iv_word : ∀ t, (t < length ps)%nat → 0 ≤ rollback_word (tk w t) ≤ INVALID_ROLLBACK_POINT;
}.

Lemma words_pos t d : t ∈ grp d → (0 < words t d)%nat.
Proof. intros Ht%rank_lt. unfold words. case_decide; lia. Qed.

Lemma shape_box t d l x : t ∈ grp d → shape t d l x → l ≠ [].
Proof. intros Ht [Hl _ _ _] ->. pose proof (words_pos t d Ht). simpl in Hl. lia. Qed.

Lemma Inv_put act b b' w t d F l :
  Inv act b w → t ∈ grp d → (1 < size d)%nat →
  (∀ x, path (F x) = path x) → (∀ d', d' ≠ d → queue (F (tk w t)) d' = queue (tk w t) d') →
  (∀ d', d' ≠ d → d' ∈ error_occurred (F (tk w t)) → d' ∈ error_occurred (tk w t)) →
  shape t d l (F (tk w t)) →
  0 ≤ handled_event_count (F (tk w t)) → (act ≠ Some t → handled_event_count (F (tk w t)) = 0) →
  0 ≤ rollback_word (F (tk w t)) ≤ INVALID_ROLLBACK_POINT →
  handled_event_count (F (tk w t)) + Z.of_nat (count pending l (queue (F (tk w t)) d)) - pendingFlag_ (F (tk w t)) ≤
    handled_event_count (tk w t) + Z.of_nat (slot pending w t d) - pendingFlag_ (tk w t) →
  (∀ t', (if decide (t' = t) then pendingFlag_ (F (tk w t)) - pendingFlag_ (tk w t) else 0) +
         Z.of_nat (count errors l (queue (F (tk w t)) d)) - Z.of_nat (slot errors w t d) ≤ b' t' - b t') →
  Inv act b' (put t d F l w).
Proof.
  intros [Hp Hsh Hsg Hh Hpe Hb Hw] Ht Hd HFp HFq HFe Hl Hh1 Hh2 Hw' HP HE.
  pose proof (in_group_lt _ _ Ht) as Hlt.
  pose proof (changes_put pending w t d F l Hp Ht HFq) as HcP.
  pose proof (changes_put errors w t d F l Hp Ht HFq) as HcE.
  split.
  - by apply paths_put.
  - intros t' d' Ht' Hd'. rewrite box_put, tk_put by done. case_decide as Hq.
    { destruct Hq as [-> ->]. by rewrite decide_True. }
    case_decide; [subst|by apply Hsh]. assert (d' ≠ d) by naive_solver.
    destruct (Hsh t d' Ht' Hd') as [H1 H2 H3 H4]. split; [done|done|by rewrite HFq|].
    rewrite HFq by done. intros He. apply H4. by apply HFe.
  - intros t' d' Ht' Hd'. rewrite box_put, tk_put by done.
    rewrite (decide_False (P := t' = t ∧ d' = d)) by (intros [-> ->]; lia).
    destruct (Hsg t' d' Ht' Hd') as [H1 H2]. split; [|done]. case_decide; [subst|done].
    rewrite HFq; [done|intros ->; lia].
  - intros t' Ht'. rewrite tk_put by done. case_decide; [by subst|by apply Hh].
  - intros t' Ht'. rewrite tk_put by done. case_decide as He.
    + subst t'. pose proof (changes_held _ _ _ _ _ _ _ Ht HcP). specialize (Hpe t Hlt). lia.
    + rewrite (changes_held_ne _ _ _ _ _ _ _ _ He HcP). by apply Hpe.
  - intros t' Ht'. rewrite tk_put by done. pose proof (changes_total _ _ _ _ _ _ _ Ht HcE).
    specialize (HE t'). specialize (Hb t' Ht'). case_decide; [subst t'|]; lia.
  - intros t' Ht'. rewrite tk_put by done. case_decide; [by subst|by apply Hw].
Qed.

(** ** The effect of handling events

    What a task [t] that handles its events does to the others: it sends
    requests for events that it had; its rollback point becomes the level of its
    current domain if it had events of it, which are then handled. *)
#[local] Abbreviation has w t d := (0 < slot pending w t d)%nat.

Record effect (t : nat) (w w' : World) : Prop := mkEffect {
  ef_words : ∀ t', t' ≠ t → rollback_word (tk w' t') = rollback_word (tk w t');
  ef_heads : ∀ t' d, t' ≠ t → t' ∈ grp d → rank d t' = hd d → slot pending w' t' d = slot pending w t' d;
  ef_sent : ∀ t' d, t' ≠ t → t' ∈ grp d → has w' t' d → has w t' d ∨ t ∈ grp d ∧ has w t d;
  ef_own : ∀ d, t ∈ grp d → has w' t d → has w t d;
  ef_word :
    rollback_word (tk w' t) = rollback_word (tk w t) ∧ (has w t (cur t) → has w' t (cur t)) ∨
    rollback_word (tk w' t) = rollback_word (tk w t) `min` lv (cur t) ∧ has w t (cur t);
}.

Lemma effect_refl t w : effect t w w.
Proof. split; try done; eauto. Qed.

Lemma effect_trans t w1 w2 w3 : t ∈ grp (cur t) → effect t w1 w2 → effect t w2 w3 → effect t w1 w3.
Proof.
  intros Hcur [A1 A2 A3 A4 A5] [B1 B2 B3 B4 B5]. split.
  - intros t' Hn. by rewrite B1, A1.
  - intros t' d Hn Ht Hr. by rewrite B2, A2.
  - intros t' d Hn Ht [H|[H1 H2]]%B3; [by apply A3|right; split; [done|by apply A4]|done|done].
  - intros d Ht H. apply A4; [done|]. by apply B4.
  - destruct A5 as [[Ha1 Ha2]|[Ha1 Ha2]], B5 as [[Hb1 Hb2]|[Hb1 Hb2]].
    + left. split; [congruence|eauto].
    + right. split; [congruence|by apply A4].
    + right. split; [congruence|done].
    + right. split; [|done]. rewrite Hb1, Ha1. lia.
Qed.

Lemma effect_put t d F l w :
  paths_ok w → t ∈ grp d → (∀ d', d' ≠ d → queue (F (tk w t)) d' = queue (tk w t) d') →
  ((0 < count pending l (queue (F (tk w t)) d))%nat → has w t d) →
  (rollback_word (F (tk w t)) = rollback_word (tk w t) ∧
     (d = cur t → has w t d → (0 < count pending l (queue (F (tk w t)) d))%nat) ∨
   rollback_word (F (tk w t)) = rollback_word (tk w t) `min` lv d ∧ d = cur t ∧ has w t d) →
  effect t w (put t d F l w).
Proof.
  intros Hw Ht HF Hc He. pose proof (in_group_lt _ _ Ht) as Hlt.
  destruct (changes_put pending w t d F l Hw Ht HF) as [Ho Hs].
  assert (slot pending (put t d F l w) t d = count pending l (queue (F (tk w t)) d)) as Hs' by lia.
  split.
  - intros t' Hn. by rewrite tk_put, decide_False.
  - intros t' d' Hn Ht' _. apply Ho; [done|congruence].
  - intros t' d' Hn Ht'. rewrite Ho by (done || congruence). by left.
  - intros d' Ht'. destruct (decide (d' = d)) as [->|]; [by rewrite Hs'|]. rewrite Ho by (done || congruence). done.
  - rewrite tk_put, decide_True by done. destruct He as [[H1 H2]|[H1 [<- H3]]]; [left|by right].
    split; [done|]. destruct (decide (d = cur t)) as [->|Hn]; [rewrite Hs'; by apply H2|].
    destruct (decide (t ∈ grp (cur t))) as [Hg|Hg]; [by rewrite Ho by (done || congruence)|].
    unfold slot. rewrite tk_put, decide_True, HF by done. unfold box, put. simpl.
    by rewrite lookup_insert_ne by congruence.
Qed.

Lemma effect_send t g d F l w :
  paths_ok w → g ≠ t → g ∈ grp d → t ∈ grp d → has w t d → rank d g ≠ hd d →
  (∀ d', d' ≠ d → queue (F (tk w g)) d' = queue (tk w g) d') →
  rollback_word (F (tk w g)) = rollback_word (tk w g) →
  effect t w (put g d F l w).
Proof.
  intros Hw Hg Hgd Ht Hh Hr HF Hrb. pose proof (in_group_lt _ _ Hgd) as Hlt.
  destruct (changes_put pending w g d F l Hw Hgd HF) as [Ho _].
  assert (∀ d', t ∈ grp d' → slot pending (put g d F l w) t d' = slot pending w t d') as Hs.
  { intros d' Ht'. apply Ho; [done|congruence]. }
  split.
  - intros t' _. rewrite tk_put by done. case_decide; [by subst|done].
  - intros t' d' Hn Ht' Hr'. apply Ho; [done|]. intros [= -> ->]. done.
  - intros t' d' Hn Ht'. destruct (decide ((t', d') = (g, d))) as [[= -> ->]|]; [by right|].
    rewrite Ho by done. by left.
  - intros d' Ht'. by rewrite Hs.
  - left. rewrite tk_put, decide_False by done. split; [done|].
    unfold slot. rewrite tk_put, decide_False by done. unfold box, put. simpl.
    destruct (decide (cur t = d)) as [->|]; [|by rewrite lookup_insert_ne by congruence].
    rewrite lookup_insert_ne; [done|]. intros [= Hrr]. apply Hg. by eapply rank_inj.
Qed.

(** ** Reading a mailbox *)

Lemma put_after w t d F G l : put t d G l (on_task t F w) = put t d (λ x, G (F x)) l w.
Proof. unfold put, on_task. simpl. by rewrite alter_twice. Qed.

Lemma count_insert m l q i z y :
  l !! i = Some z → (count m (<[i := y]> l) q + of_flag m z = count m l q + of_flag m y)%nat.
Proof. intros Hz. pose proof (sum_list_insert (of_flag m) l i z y Hz). unfold count. lia. Qed.

Lemma count_snoc m l q h : count m l (q ++ [h]) = (count m l q + of_handler m h)%nat.
Proof. unfold count. rewrite sum_list_with_app. simpl. lia. Qed.

Lemma slot_held m w t d : t ∈ grp d → (slot m w t d ≤ held m w t)%nat.
Proof. intros Ht. apply (sum_list_ge (slot m w t) (pth t) d). by apply in_group. Qed.

Lemma count_flag m l q i z : l !! i = Some z → (of_flag m z ≤ count m l q)%nat.
Proof.
  intros Hz. unfold count. pose proof (sum_list_ge (of_flag m) l z) as H.
  specialize (H (list_elem_of_lookup_2 _ _ _ Hz)). lia.
Qed.

Lemma several_not_reused d : (1 < size d)%nat → negb (is_window_reused_ doms d) = true.
Proof. intros Hd. unfold is_window_reused_. apply negb_true_iff, Nat.eqb_neq. lia. Qed.

(** What reading a mailbox does: the word is cleared, and its event is queued or
    counts as handled with one in the queue. *)
Record reads (t d i : nat) (b : nat → Z) (w w' : World) : Prop := mkReads {
  rd_inv : Inv (Some t) b w';
  rd_effect : effect t w w';
  rd_box : box w' t d = <[i := 0]> (box w t d);
  rd_boxes : ∀ d', t ∈ grp d' → d' ≠ d → box w' t d' = box w t d';
  rd_handled : handled_event_count (tk w' t) = handled_event_count (tk w t) ∨ queue (tk w' t) d ≠ [];
  rd_queue : ∀ d', queue (tk w t) d' ≠ [] → queue (tk w' t) d' ≠ [];
}.

Lemma reads_put t d i z F b w :
  Inv (Some t) b w → t ∈ grp d → (1 < size d)%nat → box w t d !! i = Some z →
  let x := tk w t in let y := F x in
  (∀ x, path (F x) = path x) → (∀ d', d' ≠ d → queue y d' = queue x d') →
  (∀ d', d' ≠ d → d' ∈ error_occurred y → d' ∈ error_occurred x) →
  shape t d (<[i := 0]> (box w t d)) y →
  pendingFlag_ y = pendingFlag_ x → rollback_word y = rollback_word x →
  (handled_event_count y = handled_event_count x + 1 ∧ queue y d = queue x d ∧ queue x d ≠ [] ∨
   handled_event_count y = handled_event_count x ∧ ∃ h, queue y d = queue x d ++ [h] ∧ (of_handler errors h ≤ of_flag errors z)%nat) →
  z ≠ 0 → reads t d i b w (put t d F (<[i := 0]> (box w t d)) w).
Proof.
  intros Hinv Ht Hd Hz x y. subst x y. intros HFp HFq HFe Hsh Hp Hr Hq Hz0.
  pose proof (in_group_lt _ _ Ht) as Hlt. pose proof (iv_paths _ _ _ Hinv) as Hw.
  assert (of_flag pending z = 1%nat) as Hz1 by (simpl; by rewrite (proj2 (Z.eqb_neq z 0))).
  pose proof (λ q, count_insert pending (box w t d) q i z 0 Hz) as Hcp.
  pose proof (λ q, count_insert errors (box w t d) q i z 0 Hz) as Hce.
  assert (has w t d) as Hhas.
  { rewrite slot_count. pose proof (count_flag pending _ (queue (tk w t) d) _ _ Hz). lia. }
  assert (handled_event_count (F (tk w t)) + Z.of_nat (count pending (<[i := 0]> (box w t d)) (queue (F (tk w t)) d)) =
          handled_event_count (tk w t) + Z.of_nat (slot pending w t d)) as HP.
  { rewrite slot_count. destruct Hq as [(-> & -> & _)|(-> & h & -> & _)].
    - specialize (Hcp (queue (tk w t) d)). simpl in *. lia.
    - specialize (Hcp (queue (tk w t) d)). rewrite count_snoc. simpl in *. lia. }
  assert ((count errors (<[i := 0%Z]> (box w t d)) (queue (F (tk w t)) d) ≤ slot errors w t d)%nat) as HE.
  { rewrite slot_count. destruct Hq as [(_ & -> & _)|(_ & h & -> & Hh)].
    - specialize (Hce (queue (tk w t) d)). simpl in *. lia.
    - specialize (Hce (queue (tk w t) d)). rewrite count_snoc. simpl in *. lia. }
  destruct (iv_handled _ _ _ Hinv t Hlt) as [Hh _].
  split.
  - eapply Inv_put; try done.
    + destruct Hq as [(-> & _)|(-> & _)]; lia.
    + rewrite Hr. by apply (iv_word _ _ _ Hinv).
    + rewrite Hp. lia.
    + intros t'. case_decide; lia.
  - apply effect_put; try done. left. split; [done|]. intros _ _.
    destruct Hq as [(_ & -> & Hq)|(_ & h & -> & _)].
    + unfold count. destruct (queue (tk w t) d); [done|]. simpl. lia.
    + rewrite count_snoc. simpl. lia.
  - by rewrite box_put, decide_True.
  - intros d' Ht' Hn. rewrite box_put, decide_False by naive_solver. done.
  - rewrite tk_put, decide_True by done.
    destruct Hq as [(_ & -> & Hq)|(-> & _)]; [by right|by left].
  - intros d' Hd'. rewrite tk_put, decide_True by done.
    destruct (decide (d' = d)) as [->|]; [|by rewrite HFq].
    destruct Hq as [(_ & -> & _)|(_ & h & -> & _)]; [done|]. by destruct (queue (tk w t) d).
Qed.

Lemma reads_refl t d i b w : Inv (Some t) b w → t ∈ grp d → box w t d !! i = Some 0 → reads t d i b w w.
Proof.
  intros Hinv Ht Hz. split; try done; [apply effect_refl|by rewrite list_insert_id|by left].
Qed.

Lemma has_flag w t d i z : box w t d !! i = Some z → z ≠ 0 → has w t d.
Proof.
  intros Hz Hn. rewrite slot_count. pose proof (count_flag pending _ (queue (tk w t) d) _ _ Hz) as H.
  simpl in H. rewrite (proj2 (Z.eqb_neq z 0) Hn) in H. lia.
Qed.

Lemma handled_lt act b w t d :
  Inv act b w → t ∈ grp d → has w t d → b t ≤ INT_MAX →
  0 ≤ handled_event_count (tk w t) < INT_MAX.
Proof.
  intros Hinv Ht Hhas Hb. pose proof (in_group_lt _ _ Ht) as Hlt.
  pose proof (iv_handled _ _ _ Hinv t Hlt). pose proof (iv_pending _ _ _ Hinv t Hlt).
  pose proof (iv_bound _ _ _ Hinv t Hlt). pose proof (slot_held pending w t d Ht). lia.
Qed.

Lemma IncHandled_Ok w t : paths_ok w → (t < length ps)%nat → 0 ≤ handled_event_count (tk w t) < INT_MAX →
  IncHandledEventCounter t w = Ok (on_task t (with_handled (handled_event_count (tk w t) + 1)) w).
Proof.
  intros Hw Ht Hh. unfold IncHandledEventCounter. rewrite task_tk by done. simpl.
  rewrite int32_Ok; [done|unfold INT_MIN, INT_MAX in *; lia].
Qed.

Lemma Unset_Ok w t d i e z F :
  t ∈ grp d → box w t d !! i = Some z →
  UnsetEventFlag d (rank d t) i e (on_task t F w) = Ok (put t d F (<[i := Z.ldiff z e]> (box w t d)) w).
Proof.
  intros Ht Hz. unfold UnsetEventFlag. rewrite (on_flag_total (on_task t F w) t d i _ z) by done.
  by rewrite put_after.
Qed.

Lemma Head_ReadMailBox_reads t d i z b w :
  Inv (Some t) b w → t ∈ grp d → (1 < size d)%nat → rank d t = hd d → b t ≤ INT_MAX →
  box w t d !! i = Some z → returns (Head_ReadMailBox doms d t (rank d t) z i w) (reads t d i b w).
Proof.
  intros Hinv Ht Hd Hr Hb Hz. pose proof (iv_paths _ _ _ Hinv) as Hw. pose proof (in_group_lt _ _ Ht) as Hlt.
  destruct (iv_shape _ _ _ Hinv t d Ht Hd) as [H1 H2 H3 H4]. unfold Head_ReadMailBox.
  rewrite Hr, Nat.eqb_refl, (proj2 (Nat.ltb_lt 1 _) Hd). replace (if (i =? hd d)%nat then _ else _) with (Ok ()) by (by case_match).
  rewrite ret_bind. destruct (H2 i z Hz) as [->| ->].
  { simpl. by apply reads_refl. }
  unfold event_of in Hz |- *. rewrite decide_True in Hz |- * by done. 
  change (CHECK_NO_EVENT kErrorOccurred) with false. change (CHECK_EVENT kErrorOccurred kErrorOccurred) with true.
  change (CHECK_EVENT kErrorOccurred kEntrySearch) with false.
  change (CHECK_EVENT kErrorOccurred kAllResume) with false. change (CHECK_EVENT kErrorOccurred kAllReexecute) with false.
  change (CHECK_EVENT kErrorOccurred kEntrySend || CHECK_EVENT kErrorOccurred kAllPause) with false.
  cbn [cassert]. rewrite ret_bind, task_tk, ret_bind by done.
  unfold UnsetMailBox. rewrite several_not_reused by done. case_bool_decide as He.
  - destruct (H4 He) as [j Hj]. assert (queue (tk w t) d ≠ []) as Hq by (intros Hq; rewrite Hq in Hj; by apply elem_of_nil in Hj).
    rewrite IncHandled_Ok; [|done..|by eapply handled_lt; eauto using has_flag].
    rewrite !ret_bind, <-Hr. rewrite (Unset_Ok w t d i _ kErrorOccurred) by done. simpl.
    apply (reads_put t d i kErrorOccurred); try done; [|by left].
    split; [by rewrite length_insert| |done|done].
    intros i' z' [[-> [<- _]]|[_ Hz']]%list_lookup_insert_Some; [by left|by eapply H2].
  - rewrite !ret_bind, <-Hr. unfold push.
    assert (∀ F G, on_task t F (on_task t G w) = on_task t (λ x, F (G x)) w) as Hoo.
    { intros. unfold on_task. simpl. by rewrite alter_twice. }
    rewrite Hoo, (Unset_Ok w t d i _ kErrorOccurred) by done. simpl.
    apply (reads_put t d i kErrorOccurred); try done.
    + intros d' Hn. change (queue (with_queue d (queue (tk w t) d ++ [HandleErrorOccurred i]) (tk w t)) d' = queue (tk w t) d').
      by rewrite queue_with, decide_False.
    + simpl. set_solver.
    + split; [by rewrite length_insert| | |].
      * intros i' z' [[-> [<- _]]|[_ Hz']]%list_lookup_insert_Some; [by left|by eapply H2].
      * change (∀ h, h ∈ queue (with_queue d (queue (tk w t) d ++ [HandleErrorOccurred i]) (tk w t)) d →
          h = HandleAllReexecute ∨ rank d t = hd d ∧ ∃ i, h = HandleErrorOccurred i).
        rewrite queue_with, decide_True by done. intros h [Hh| ->%list_elem_of_singleton]%elem_of_app; [by apply H3|eauto].
      * intros _. exists i. change (HandleErrorOccurred i ∈ queue (with_queue d (queue (tk w t) d ++ [HandleErrorOccurred i]) (tk w t)) d).
        rewrite queue_with, decide_True by done. set_solver.
    + right. split; [done|]. exists (HandleErrorOccurred i). split; [|done].
      change (queue (with_queue d (queue (tk w t) d ++ [HandleErrorOccurred i]) (tk w t)) d = queue (tk w t) d ++ [HandleErrorOccurred i]).
      by rewrite queue_with, decide_True.
Qed.

Lemma queue_push d h d' (x : Task) :
  queue (with_queue d (queue x d ++ [h]) x) d' = if decide (d' = d) then queue x d ++ [h] else queue x d'.
Proof. apply queue_with. Qed.

Lemma shape_clear t d l i h (x y : Task) :
  shape t d l x → queue y d = queue x d ++ [h] → (d ∈ error_occurred y → d ∈ error_occurred x) →
  h = HandleAllReexecute → shape t d (<[i := 0]> l) y.
Proof.
  intros [H1 H2 H3 H4] Hq He ->. split; [by rewrite length_insert| | |].
  - intros i' z' [[-> [<- _]]|[_ Hz']]%list_lookup_insert_Some; [by left|by eapply H2].
  - rewrite Hq. intros h [Hh| ->%list_elem_of_singleton]%elem_of_app; [by apply H3|by left].
  - intros [j Hj]%He%H4. exists j. rewrite Hq. set_solver.
Qed.

Lemma ReadMailBox_reads t d z b w :
  Inv (Some t) b w → t ∈ grp d → (1 < size d)%nat → rank d t ≠ hd d →
  box w t d !! O = Some z → returns (ReadMailBox doms d t (rank d t) z w) (reads t d O b w).
Proof.
  intros Hinv Ht Hd Hr Hz. pose proof (iv_paths _ _ _ Hinv) as Hw.
  pose proof (iv_shape _ _ _ Hinv t d Ht Hd) as Hsh. unfold ReadMailBox.
  destruct (sh_val _ _ _ _ Hsh O z Hz) as [->| ->].
  { simpl. by apply reads_refl. }
  unfold event_of in Hz |- *. rewrite decide_False in Hz |- * by done.
  change (CHECK_NO_EVENT kAllReexecute) with false. change (CHECK_EVENT kAllReexecute kErrorOccurred) with false.
  change (CHECK_EVENT kAllReexecute kEntrySearch) with false. change (CHECK_EVENT kAllReexecute kEntrySend) with false.
  change (CHECK_EVENT kAllReexecute kAllPause) with false. change (CHECK_EVENT kAllReexecute kAllReexecute) with true.
  unfold UnsetMailBox. rewrite several_not_reused by done. unfold push. cbn -[UnsetEventFlag on_task].
  rewrite (Unset_Ok w t d O _ kAllReexecute) by done. simpl.
  apply (reads_put t d O kAllReexecute); try done.
  - intros d' Hn. by rewrite queue_push, decide_False.
  - eapply shape_clear; [exact Hsh|by rewrite queue_push, decide_True|done|done].
  - right. split; [done|]. exists HandleAllReexecute. split; [by rewrite queue_push, decide_True|simpl; lia].
Qed.

(** What [InternalCheckMailBox] does: the mailbox is empty. *)
Record checked (t d : nat) (b : nat → Z) (w w' : World) : Prop := mkChecked {
  ch_inv : Inv (Some t) b w';
  ch_effect : effect t w w';
  ch_box : ∀ i z, box w' t d !! i = Some z → z = 0;
  ch_boxes : ∀ d', t ∈ grp d' → d' ≠ d → box w' t d' = box w t d';
  ch_handled : handled_event_count (tk w' t) = handled_event_count (tk w t) ∨ queue (tk w' t) d ≠ [];
  ch_queue : ∀ d', queue (tk w t) d' ≠ [] → queue (tk w' t) d' ≠ [];
}.

Lemma cur_in t : (t < length ps)%nat → t ∈ grp (cur t).
Proof.
  intros Ht. apply in_group. unfold cur, pth.
  destruct (lookup_lt_is_Some_2 ps t Ht) as [p Hp]. rewrite Hp. simpl.
  pose proof (tp_nonempty _ _ top _ _ Hp). destruct (last p) as [d|] eqn:Hl; simpl.
  - by apply last_Some_elem_of.
  - by apply last_None in Hl.
Qed.

Lemma GetEventFlag_box w t d b act :
  Inv act b w → t ∈ grp d → (1 < size d)%nat → GetEventFlag doms d (rank d t) w = Ok (box w t d).
Proof.
  intros Hinv Ht Hd. unfold GetEventFlag. rewrite several_not_reused by done. simpl.
  pose proof (shape_box _ _ _ _ Ht (iv_shape _ _ _ Hinv t d Ht Hd)) as Hne.
  unfold flags, box in *. by destruct (event_flag_ w !! (d, rank d t)).
Qed.

Lemma InternalCheckMailBox_checked t d b w :
  Inv (Some t) b w → t ∈ grp d → (1 < size d)%nat → b t ≤ INT_MAX →
  returns (InternalCheckMailBox doms t d w) (checked t d b w).
Proof.
  intros Hinv Ht Hd Hb. pose proof (in_group_lt _ _ Ht) as Hlt. unfold InternalCheckMailBox.
  rewrite task_in_color_rank, ret_bind by done. rewrite (GetEventFlag_box w t d b (Some t)), ret_bind by done.
  rewrite IsHead_rank, ret_bind by done. pose proof (iv_shape _ _ _ Hinv t d Ht Hd) as Hsh.
  pose proof (sh_len _ _ _ _ Hsh) as Hlen. unfold words in Hlen. case_decide as Hr.
  - rewrite bool_decide_true by done.
    eapply returns_mono; [apply (foldM_inv (λ l1 w', Inv (Some t) b w' ∧ effect t w w' ∧
      box w' t d = replicate (length l1) 0 ++ drop (length l1) (box w t d) ∧
      (∀ d', t ∈ grp d' → d' ≠ d → box w' t d' = box w t d') ∧
      (handled_event_count (tk w' t) = handled_event_count (tk w t) ∨ queue (tk w' t) d ≠ []) ∧
      (∀ d', queue (tk w t) d' ≠ [] → queue (tk w' t) d' ≠ [])))|].
    + split_and!; try done; [apply effect_refl|by left].
    + intros l1 i l2 w1 Hl (Hi & He & Hbx & Hbs & Hh & Hq).
      assert (i = length l1 ∧ (i < size d)%nat) as [Hil Hi'].
      { assert (seq 0 (size d) !! length l1 = Some i) as [Hs Hs']%lookup_seq by (rewrite Hl; by apply list_lookup_middle). lia. }
      destruct (lookup_lt_is_Some_2 (box w t d) i) as [z Hz]; [lia|].
      rewrite (aload_lookup _ _ z), ret_bind by (rewrite ?Nat2Z.id; first [lia|done]).
      assert (box w1 t d !! i = Some z) as Hz1.
      { rewrite Hbx, lookup_app_r by (rewrite length_replicate; lia).
        rewrite length_replicate, lookup_drop, <-Hil. by replace (i + (i - i))%nat with i by lia. }
      eapply returns_mono; [by apply Head_ReadMailBox_reads|].
      intros w2 [R1 R2 R3 R4 R5 R6]. split_and!; [done|by eapply effect_trans; [by apply cur_in|..]| | | |].
      * rewrite R3, Hbx, length_app, Hil. simpl. rewrite Nat.add_1_r, replicate_S_end, <-app_assoc.
        rewrite insert_app_r_alt by (rewrite length_replicate; lia). f_equal.
        rewrite length_replicate, Nat.sub_diag, <-Hil. by rewrite (drop_S _ z) by done.
      * intros d' ? ?. rewrite R4 by done. by apply Hbs.
      * destruct R5 as [->|]; [|by right]. destruct Hh as [->|Hh]; [by left|]. right. by apply R6.
      * eauto.
    + intros w' (Hi & He & Hbx & Hbs & Hh & Hq). split; try done. rewrite Hbx, length_seq.
      rewrite drop_ge, app_nil_r by lia. intros i z. rewrite lookup_replicate. tauto.
  - rewrite bool_decide_false by done.
    destruct (lookup_lt_is_Some_2 (box w t d) O) as [z Hz]; [lia|].
    rewrite (aload_lookup _ _ z), ret_bind by done.
    eapply returns_mono; [by apply ReadMailBox_reads|]. intros w' [R1 R2 R3 R4 R5 R6]. split; try done.
    rewrite R3. destruct (box w t d) as [|? [|]]; simpl in *; try lia.
    intros [|i] z'; simpl; [congruence|done].
Qed.

(** ** Handling an event *)

(** What the handler at the front of a queue does, with its removal: the queue
    becomes [q]. *)
Record handles (t d : nat) (q : list Handler) (b : nat → Z) (w w' : World) : Prop := mkHandles {
  hs_inv : Inv (Some t) b w';
  hs_effect : effect t w w';
  hs_queue : queue (tk w' t) d = q;
  hs_queues : ∀ d', d' ≠ d → queue (tk w' t) d' = queue (tk w t) d';
  hs_boxes : ∀ d', t ∈ grp d' → box w' t d' = box w t d';
}.

Lemma pop_handles t d h q F b b' w :
  Inv (Some t) b' w → t ∈ grp d → (1 < size d)%nat → queue (tk w t) d = h :: q →
  let x := tk w t in let y := F x in
  (∀ x, path (F x) = path x) → (∀ d', d' ≠ d → queue y d' = queue x d') → queue y d = q →
  error_occurred y ⊆ error_occurred x → (d ∈ error_occurred y → of_handler errors h = O) →
  pendingFlag_ y = pendingFlag_ x → handled_event_count y = handled_event_count x + 1 →
  (rollback_word y = rollback_word x ∧ (d = cur t → q ≠ []) ∨
   rollback_word y = rollback_word x `min` lv d ∧ d = cur t) →
  (∀ t', b' t' ≤ b t' + Z.of_nat (of_handler errors h)) →
  handles t d q b w (on_task t F w).
Proof.
  intros Hinv Ht Hd Hq x y. subst x y. intros HFp HFq HFd HFe HFh Hp Hh Hr Hb.
  pose proof (in_group_lt _ _ Ht) as Hlt. pose proof (iv_paths _ _ _ Hinv) as Hw.
  pose proof (iv_shape _ _ _ Hinv t d Ht Hd) as Hsh. pose proof (shape_box _ _ _ _ Ht Hsh) as Hne.
  assert (∀ m, count m (box w t d) q + of_handler m h = slot m w t d)%nat as Hc.
  { intros m. rewrite slot_count, Hq. unfold count. simpl. lia. }
  assert (has w t d) as Hhas by (rewrite <-Hc; simpl; lia).
  pose proof (iv_handled _ _ _ Hinv t Hlt) as [Hh0 _]. pose proof (iv_word _ _ _ Hinv t Hlt) as Hwd.
  assert (0 ≤ lv d) as Hlv by (destruct (pth_lookup t d Ht) as (i & _ & ->); lia).
  rewrite (put_on_task w t d F Hne). split.
  - eapply Inv_put; try done.
    + intros d' _. apply HFe.
    + destruct Hsh as [H1 H2 H3 H4]. split; [done|done| |].
      * intros h' Hh'. apply H3. rewrite Hq. right. by rewrite <-HFd.
      * intros He. destruct (H4 (HFe _ He)) as [i Hi]. exists i. rewrite Hq in Hi. rewrite HFd.
        apply elem_of_cons in Hi as [<-|Hi]; [by specialize (HFh He)|done].
    + lia.
    + destruct Hr as [[-> _]|[-> _]]; lia.
    + rewrite HFd, Hp, <-(Hc pending), Hh. simpl. lia.
    + intros t'. rewrite HFd, <-(Hc errors). specialize (Hb t'). case_decide; lia.
  - apply effect_put; try done. destruct Hr as [[Hr Hn]|[Hr Hn]]; [left|right; done].
    split; [done|]. intros He _. rewrite HFd. unfold count. specialize (Hn He).
    destruct q; [done|]. simpl. lia.
  - by rewrite tk_put, decide_True.
  - intros d' Hn. rewrite tk_put, decide_True by done. by apply HFq.
  - intros d' Ht'. rewrite box_put by done. case_decide as Hx; [by destruct Hx as [_ ->]|done].
Qed.

Lemma GetCurrentCD_cur w t : paths_ok w → (t < length ps)%nat → GetCurrentCD (tk w t) = Ok (cur t).
Proof.
  intros Hw Ht. unfold GetCurrentCD, cur. rewrite path_tk by done. unfold pth.
  destruct (lookup_lt_is_Some_2 ps t Ht) as [p Hp]. rewrite Hp. simpl.
  pose proof (tp_nonempty _ _ top _ _ Hp). destruct (last p) eqn:Hl; [done|by apply last_None in Hl].
Qed.

Lemma lv_cur t d : t ∈ grp d → lv d ≤ lv (cur t) ∧ (lv d = lv (cur t) ↔ d = cur t) ∧ lv d ≠ INVALID_ROLLBACK_POINT ∧ 0 ≤ lv d.
Proof.
  intros Ht. pose proof (in_group_lt _ _ Ht) as Hlt.
  destruct (pth_lookup t d Ht) as (i & Hi & Hl).
  destruct (pth_lookup t (cur t) (cur_in t Hlt)) as (j & Hj & Hl').
  destruct (lookup_lt_is_Some_2 ps t Hlt) as [p Hp].
  assert (pth t = p) as He by (unfold pth; by rewrite Hp).
  pose proof (tp_depth _ _ top _ _ Hp) as Hdep. rewrite He in *.
  assert (p !! pred (length p) = Some (cur t)) as Hlast.
  { rewrite <-last_lookup. unfold cur. rewrite He. destruct (last p) eqn:Hq; [done|].
    apply last_None in Hq. rewrite Hq in Hi. done. }
  assert (NoDup p) as Hnd by (rewrite <-He; apply NoDup_pth).
  assert (j = pred (length p)) as -> by (by eapply (NoDup_lookup p)).
  apply lookup_lt_Some in Hi as Hi'. unfold INVALID_ROLLBACK_POINT in *.
  split; [lia|]. split; [|lia]. split; [|by intros ->].
  intros Hx. assert (i = pred (length p)) as -> by lia. congruence.
Qed.

Lemma queue_several act b w t d :
  Inv act b w → t ∈ grp d → queue (tk w t) d ≠ [] → (1 < size d)%nat.
Proof.
  intros Hinv Ht Hq. destruct (decide (1 < size d)%nat); [done|].
  by destruct (iv_single _ _ _ Hinv t d Ht ltac:(lia)) as [? _].
Qed.

Definition pop (t d : nat) (w : World) : World := on_task t (λ x, with_queue d (tail (queue x d)) x) w.

Lemma on_task_twice t F G w : on_task t G (on_task t F w) = on_task t (λ x, G (F x)) w.
Proof. unfold on_task. simpl. by rewrite alter_twice. Qed.

Lemma not_single d : (1 < size d)%nat → (size d =? 1)%nat = false.
Proof. intros. apply Nat.eqb_neq. lia. Qed.

Lemma HandleReexecute_handles t d q b w :
  Inv (Some t) b w → t ∈ grp d → queue (tk w t) d = HandleAllReexecute :: q → b t ≤ INT_MAX →
  returns (w ← HandleReexecute doms d t w; Ok (pop t d w)) (handles t d q b w).
Proof.
  intros Hinv Ht Hq Hb. pose proof (iv_paths _ _ _ Hinv) as Hw. pose proof (in_group_lt _ _ Ht) as Hlt.
  assert (1 < size d)%nat as Hd by (eapply queue_several; eauto; by rewrite Hq).
  destruct (lv_cur t d Ht) as (Hle & Heq & Hinvd & _).
  assert (has w t d) as Hhas by (rewrite slot_count, Hq; unfold count; simpl; lia).
  unfold HandleReexecute. rewrite not_single by done. simpl. rewrite task_tk, ret_bind by done.
  rewrite GetCurrentCD_cur, ret_bind by done. pose proof (handled_lt _ _ _ _ _ Hinv Ht Hhas Hb) as Hh.
  destruct (Z.eqb_spec (lv d) (lv (cur t))) as [He|He].
  - rewrite ret_bind. unfold SetRollbackPoint. rewrite (proj2 (Z.eqb_neq _ _) Hinvd). simpl.
    rewrite IncHandled_Ok; [|by apply paths_on_task|done|by rewrite tk_on_task, decide_True].
    rewrite ret_bind. unfold pop. rewrite !on_task_twice, tk_on_task, decide_True by done. simpl.
    apply (pop_handles t d HandleAllReexecute q _ b b); try done.
    + intros d' Hn. by rewrite queue_with, decide_False.
    + rewrite queue_with, decide_True by done. change (tail (queue (tk w t) d) = q). by rewrite Hq.
    + right. split; [|by apply Heq]. simpl. destruct (Z.ltb_spec (lv d) (rollback_word (tk w t))); lia.
    + intros t'. simpl. lia.
  - rewrite (proj2 (Z.ltb_lt _ _)) by lia. rewrite ret_bind, IncHandled_Ok, ret_bind by done.
    unfold pop. rewrite on_task_twice.
    apply (pop_handles t d HandleAllReexecute q _ b b); try done.
    + intros d' Hn. by rewrite queue_with, decide_False.
    + rewrite queue_with, decide_True by done. change (tail (queue (tk w t) d) = q). by rewrite Hq.
    + left. split; [done|]. by intros ->.
    + intros t'. simpl. lia.
Qed.

(** ** Requests of the head *)

Definition plus (b : nat → Z) (P : nat → Prop) `{∀ t, Decision (P t)} (t : nat) : Z := b t + if decide (P t) then 1 else 0.

Record sends (t d : nat) (new : list Handler) (b : nat → Z) (w w' : World) : Prop := mkSends {
  sn_inv : Inv (Some t) b w';
  sn_effect : effect t w w';
  sn_queue : queue (tk w' t) d = queue (tk w t) d ++ new;
  sn_queues : ∀ d', d' ≠ d → queue (tk w' t) d' = queue (tk w t) d';
  sn_boxes : ∀ d', t ∈ grp d' → box w' t d' = box w t d';
  sn_handled : handled_event_count (tk w' t) = handled_event_count (tk w t);
}.

Lemma u32_pending act b w t : Inv act b w → (t < length ps)%nat → b t < INT_MAX →
  u32 (pendingFlag_ (tk w t) + 1) = pendingFlag_ (tk w t) + 1.
Proof.
  intros Hinv Ht Hb. pose proof (iv_bound _ _ _ Hinv t Ht). pose proof (iv_pending _ _ _ Hinv t Ht).
  pose proof (iv_handled _ _ _ Hinv t Ht). apply u32_small. unfold INT_MAX in *. lia.
Qed.

Lemma global_rank_Ok d i g : grp d !! i = Some g → global_rank doms d i = Ok g.
Proof. unfold global_rank. by intros ->. Qed.

Lemma send_remote t g d b w :
  Inv (Some t) b w → t ∈ grp d → g ∈ grp d → (1 < size d)%nat → rank d t = hd d → g ≠ t → has w t d →
  b g < INT_MAX →
  returns (SetEventFlag d (rank d g) 0 kAllReexecute (IncPendingCounter g w))
    (sends t d [] (plus b (λ t', t' = g)) w).
Proof.
  intros Hinv Ht Hg Hd Hr Hn Hhas Hb. pose proof (iv_paths _ _ _ Hinv) as Hw.
  pose proof (in_group_lt _ _ Ht) as Hlt. pose proof (in_group_lt _ _ Hg) as Hgl.
  assert (rank d g ≠ hd d) as Hrg by (intros Hx; apply Hn; eapply rank_inj; eauto; congruence).
  destruct (iv_shape _ _ _ Hinv g d Hg Hd) as [H1 H2 H3 H4].
  destruct (event_task g d Hrg) as [Hev Hwo]. rewrite Hwo in H1. rewrite Hev in H2.
  destruct (lookup_lt_is_Some_2 (box w g d) O) as [z Hz]; [lia|].
  unfold SetEventFlag, IncPendingCounter. rewrite (on_flag_total _ _ _ _ _ z) by done. rewrite put_after. simpl.
  change (box (on_task g _ w) g d) with (box w g d).
  assert (Z.lor z kAllReexecute = kAllReexecute) as -> by (by destruct (H2 O z Hz) as [->| ->]).
  pose proof (count_insert pending (box w g d) (queue (tk w g) d) O z kAllReexecute Hz) as Hcp.
  pose proof (count_insert errors (box w g d) (queue (tk w g) d) O z kAllReexecute Hz) as Hce.
  pose proof (u32_pending _ _ _ _ Hinv Hgl Hb) as Hu.
  split.
  - eapply Inv_put; try done; simpl.
    + split; simpl; [by rewrite length_insert, Hwo| |done|done]. rewrite Hev.
      intros i' z' [[<- [<- _]]|[_ Hz']]%list_lookup_insert_Some; [by right|by eapply H2].
    + by apply (iv_handled _ _ _ Hinv).
    + by apply (iv_handled _ _ _ Hinv).
    + by apply (iv_word _ _ _ Hinv).
    + rewrite slot_count, Hu. change (queue (with_pending _ (tk w g)) d) with (queue (tk w g) d). simpl in Hcp. lia.
    + intros t'. rewrite slot_count, Hu. change (queue (with_pending _ (tk w g)) d) with (queue (tk w g) d).
      simpl in Hce. unfold plus. repeat case_decide; lia.
  - by apply effect_send.
  - rewrite tk_put, decide_False by done. by rewrite app_nil_r.
  - intros d' _. by rewrite tk_put, decide_False.
  - intros d' Ht'. rewrite box_put, decide_False by naive_solver. done.
  - by rewrite tk_put, decide_False.
Qed.

Lemma send_local t d b w :
  Inv (Some t) b w → t ∈ grp d → (1 < size d)%nat → rank d t = hd d → has w t d → b t < INT_MAX →
  returns (LocalSetMailBox doms d t kAllReexecute w) (sends t d [HandleAllReexecute] (plus b (λ t', t' = t)) w).
Proof.
  intros Hinv Ht Hd Hr Hhas Hb. pose proof (iv_paths _ _ _ Hinv) as Hw. pose proof (in_group_lt _ _ Ht) as Hlt.
  destruct (iv_shape _ _ _ Hinv t d Ht Hd) as [H1 H2 H3 H4].
  destruct (event_head t d Hr) as [Hev Hwo]. rewrite Hwo in H1. rewrite Hev in H2.
  destruct (lookup_lt_is_Some_2 (box w t d) (rank d t)) as [z Hz]; [rewrite H1; by apply rank_lt|].
  unfold LocalSetMailBox. rewrite IsHead_rank, bool_decide_true by done. simpl.
  rewrite task_in_color_rank by done. simpl. unfold push, IncPendingCounter.
  rewrite on_task_twice, (Unset_Ok w t d _ _ z) by done. simpl.
  assert (Z.ldiff z kAllReexecute = z) as -> by (by destruct (H2 _ z Hz) as [->| ->]).
  rewrite list_insert_id by done. pose proof (u32_pending _ _ _ _ Hinv Hlt Hb) as Hu.
  set (F := λ x : Task, _). assert (F (tk w t) = with_queue d (queue (tk w t) d ++ [HandleAllReexecute]) (with_pending (pendingFlag_ (tk w t) + 1) (tk w t))) as HF.
  { unfold F. by rewrite Hu. }
  assert (∀ d', d' ≠ d → queue (F (tk w t)) d' = queue (tk w t) d') as Hne.
  { intros d' Hn. by rewrite HF, queue_with, decide_False. }
  assert (queue (F (tk w t)) d = queue (tk w t) d ++ [HandleAllReexecute]) as Heq by (by rewrite HF, queue_with, decide_True).
  split.
  - eapply Inv_put; try done.
    + split; [by rewrite Hwo|by rewrite Hev| |].
      * rewrite Heq. intros h [Hh| ->%list_elem_of_singleton]%elem_of_app; [by apply H3|by left].
      * rewrite HF. intros [i Hi]%H4. exists i. rewrite queue_with, decide_True by done. set_solver.
    + rewrite HF. by apply (iv_handled _ _ _ Hinv).
    + rewrite HF. by apply (iv_word _ _ _ Hinv).
    + rewrite Heq, count_snoc, HF, slot_count. simpl. lia.
    + intros t'. rewrite Heq, count_snoc, HF, slot_count. simpl. unfold plus. repeat case_decide; lia.
  - apply effect_put; try done. left. rewrite HF. split; [done|]. intros _ _. rewrite <-HF, Heq, count_snoc. simpl. lia.
  - by rewrite tk_put, decide_True.
  - intros d' Hn. rewrite tk_put, decide_True by done. by apply Hne.
  - intros d' Ht'. rewrite box_put by done. case_decide as Hx; [by destruct Hx as [_ ->]|done].
  - rewrite tk_put, decide_True by done. by rewrite HF.
Qed.

Lemma Inv_mono act b b' w : Inv act b w → (∀ t, b t ≤ b' t) → Inv act b' w.
Proof. intros [H1 H2 H3 H4 H5 H6 H7] Hb. split; try done. intros t Ht. specialize (H6 t Ht). specialize (Hb t). lia. Qed.

Lemma has_queue w t d h : h ∈ queue (tk w t) d → has w t d.
Proof.
  intros Hh. rewrite slot_count. unfold count.
  pose proof (sum_list_ge (of_handler pending) _ _ Hh). simpl in *. lia.
Qed.

Lemma sends_trans t d n1 n2 b1 b2 b3 w1 w2 w3 :
  (t < length ps)%nat → sends t d n1 b1 w1 w2 → sends t d n2 b2 w2 w3 → (∀ t, b2 t ≤ b3 t) → sends t d (n1 ++ n2) b3 w1 w3.
Proof.
  intros Ht [A1 A2 A3 A4 A5 A6] [B1 B2 B3 B4 B5 B6] Hb. split.
  - by eapply Inv_mono.
  - eapply effect_trans; [by apply cur_in|done..].
  - by rewrite B3, A3, app_assoc.
  - intros d' Hn. by rewrite B4, A4.
  - intros d' Ht'. by rewrite B5, A5.
  - by rewrite B6, A6.
Qed.

Lemma send_one t d i g h0 q b w :
  Inv (Some t) b w → t ∈ grp d → (1 < size d)%nat → rank d t = hd d → queue (tk w t) d = h0 :: q →
  grp d !! i = Some g → b g < INT_MAX →
  returns (Head_SetMailBox doms d t kAllReexecute i w)
    (sends t d (if decide (g = t) then [HandleAllReexecute] else []) (plus b (λ t', t' = g)) w).
Proof.
  intros Hinv Ht Hd Hr Hq Hg Hb. pose proof (rank_of d i g Hg) as Hrg.
  assert (g ∈ grp d) as Hgd by (by eapply list_elem_of_lookup_2).
  assert (has w t d) as Hhas by (apply (has_queue w t d h0); rewrite Hq; by left).
  unfold Head_SetMailBox. rewrite not_single, task_in_color_rank by done. simpl.
  case_decide as He.
  - subst g. rewrite Hrg, Nat.eqb_refl. simpl. rewrite (proj2 (Nat.ltb_lt 1 _) Hd). simpl. by apply send_local.
  - assert (i ≠ rank d t) as Hi by (intros ->; rewrite rank_lookup in Hg by done; congruence).
    rewrite (proj2 (Nat.eqb_neq _ _) Hi). simpl. rewrite (global_rank_Ok _ _ _ Hg). simpl.
    rewrite (proj2 (Nat.eqb_neq _ _) He). simpl. rewrite <-Hrg. by apply send_remote.
Qed.

Lemma send_all t d h0 q b w :
  Inv (Some t) b w → t ∈ grp d → (1 < size d)%nat → rank d t = hd d → queue (tk w t) d = h0 :: q →
  (∀ t', b t' < INT_MAX) →
  returns (foldM (λ i w, Head_SetMailBox doms d t kAllReexecute i w) (seq 0 (size d)) w)
    (sends t d [HandleAllReexecute] (λ t', b t' + 1) w).
Proof.
  intros Hinv Ht Hd Hr Hq Hb. pose proof (in_group_lt _ _ Ht) as Hlt.
  eapply returns_mono; [apply (foldM_inv (λ l1 w', sends t d (if decide (rank d t < length l1)%nat then [HandleAllReexecute] else [])
    (plus b (λ t', t' ∈ grp d ∧ rank d t' < length l1)%nat) w w'))|].
  - simpl. split; try done; [|by apply effect_refl|by rewrite app_nil_r].
    eapply Inv_mono; [done|]. intros t'. unfold plus. case_decide; lia.
  - intros l1 i l2 w1 Hl Hs.
    assert (i = length l1 ∧ (i < size d)%nat) as [Hil Hi'].
    { assert (seq 0 (size d) !! length l1 = Some i) as [Hs1 Hs2]%lookup_seq by (rewrite Hl; by apply list_lookup_middle). lia. }
    destruct (lookup_lt_is_Some_2 (grp d) i Hi') as [g Hg]. pose proof (rank_of d i g Hg) as Hrg.
    assert (g ∈ grp d) as Hgd by (by eapply list_elem_of_lookup_2).
    destruct (queue (tk w1 t) d) as [|h1 q1] eqn:Hq1.
    { pose proof (sn_queue _ _ _ _ _ _ Hs) as Hx. rewrite Hq1, Hq in Hx. by destruct (decide _). }
    assert (plus b (λ t', t' ∈ grp d ∧ rank d t' < length l1)%nat g < INT_MAX) as Hbg.
    { unfold plus. rewrite decide_False by lia. specialize (Hb g). lia. }
    eapply returns_mono; [by eapply (send_one t d i g); try done; apply Hs|].
    + intros w2 Hs2. pose proof (sends_trans _ _ _ _ _ _ (plus b (λ t', t' ∈ grp d ∧ rank d t' < length (l1 ++ [i]))%nat) _ _ _ Hlt Hs Hs2) as Hst.
      rewrite length_app in *. simpl in *.
      replace (if decide (rank d t < length l1 + 1)%nat then [HandleAllReexecute] else [])
        with ((if decide (rank d t < length l1)%nat then [HandleAllReexecute] else []) ++ (if decide (g = t) then [HandleAllReexecute] else [])).
      * apply Hst. intros t'. unfold plus. repeat case_decide; try lia; subst; naive_solver lia.
      * destruct (decide (g = t)) as [->|Hn].
        -- rewrite (decide_False (P := (rank d t < length l1)%nat)), (decide_True (P := (rank d t < length l1 + 1)%nat)) by lia. done.
        -- rewrite app_nil_r. assert (rank d t ≠ i) as Hx.
           { intros Hx. apply Hn. rewrite <-Hx, rank_lookup in Hg by done. congruence. }
           repeat case_decide; (done || lia).
  - intros w'. rewrite length_seq, decide_True by (by apply rank_lt). intros [S1 S2 S3 S4 S5 S6]. split; try done.
    eapply Inv_mono; [done|]. intros t'. unfold plus. case_decide; lia.
Qed.

Lemma HandleError_handles t d i q b w :
  Inv (Some t) b w → t ∈ grp d → queue (tk w t) d = HandleErrorOccurred i :: q → (∀ t', b t' < INT_MAX) →
  returns (w ← HandleError doms d t w; Ok (pop t d w)) (handles t d (q ++ [HandleAllReexecute]) b w).
Proof.
  intros Hinv Ht Hq Hb. pose proof (iv_paths _ _ _ Hinv) as Hw. pose proof (in_group_lt _ _ Ht) as Hlt.
  assert (1 < size d)%nat as Hd by (eapply queue_several; eauto; by rewrite Hq).
  destruct (lv_cur t d Ht) as (Hle & _ & _ & _).
  assert (rank d t = hd d) as Hr.
  { destruct (sh_queue _ _ _ _ (iv_shape _ _ _ Hinv t d Ht Hd) (HandleErrorOccurred i)) as [|[? _]]; [rewrite Hq; by left|done..]. }
  unfold HandleError. rewrite not_single, task_tk by done. rewrite ret_bind, GetCurrentCD_cur by done.
  rewrite ret_bind, (proj2 (Z.leb_le _ _) Hle). rewrite !bind_bind.
  eapply returns_bind; [by eapply send_all|]. intros w1 Hs. destruct Hs as [S1 S2 S3 S4 S5 S6].
  pose proof (iv_paths _ _ _ S1) as Hw1. rewrite Hq in S3. simpl in S3.
  assert (has w1 t d) as Hhas by (apply (has_queue w1 t d (HandleErrorOccurred i)); rewrite S3; by left).
  pose proof (handled_lt _ _ _ _ _ S1 Ht Hhas ltac:(specialize (Hb t); simpl; lia)) as Hh.
  rewrite IncHandled_Ok by done. rewrite !ret_bind. unfold pop. rewrite !on_task_twice.
  assert (handles t d (q ++ [HandleAllReexecute]) b w1 (on_task t (λ x, with_queue d (tail (queue x d))
    (with_error d false (with_handled (handled_event_count (tk w1 t) + 1) x))) w1)) as Hh1.
  { apply (pop_handles t d (HandleErrorOccurred i) (q ++ [HandleAllReexecute]) _ b (λ t', b t' + 1)); try done.
    - intros d' Hn. by rewrite queue_with, decide_False.
    - rewrite queue_with, decide_True by done. change (tail (queue (tk w1 t) d) = q ++ [HandleAllReexecute]). by rewrite S3.
    - simpl. set_solver.
    - simpl. set_solver.
    - left. split; [done|]. intros _. by destruct q. }
  destruct Hh1 as [A1 A2 A3 A4 A5]. split; try done.
  - eapply effect_trans; [by apply cur_in|done..].
  - intros d' Hn. by rewrite A4, S4.
Qed.

(** ** Emptying the queues *)

Lemma handles_trans t d q1 q2 b w1 w2 w3 :
  (t < length ps)%nat → handles t d q1 b w1 w2 → handles t d q2 b w2 w3 → handles t d q2 b w1 w3.
Proof.
  intros Ht [A1 A2 A3 A4 A5] [B1 B2 B3 B4 B5]. split; try done.
  - eapply effect_trans; [by apply cur_in|done..].
  - intros d' Hn. by rewrite B4, A4.
  - intros d' Ht'. by rewrite B5, A5.
Qed.

Definition iterations (q : list Handler) : nat := (length q + sum_list_with (of_handler errors) q)%nat.

Lemma iterations_le q : (iterations q ≤ 2 * length q)%nat.
Proof. unfold iterations. induction q as [|[]]; simpl in *; lia. Qed.

Lemma InvokeErrorHandler_handles fuel t d b w :
  Inv (Some t) b w → t ∈ grp d → (∀ t', b t' < INT_MAX) → (iterations (queue (tk w t) d) ≤ fuel)%nat →
  returns (InvokeErrorHandler doms HandleEntry fuel t d w) (handles t d [] b w).
Proof.
  revert w. induction fuel as [|fuel IH]; intros w Hinv Ht Hb Hf;
    pose proof (iv_paths _ _ _ Hinv) as Hw; pose proof (in_group_lt _ _ Ht) as Hlt; simpl;
    rewrite task_tk by done; simpl; destruct (queue (tk w t) d) as [|h q] eqn:Hq.
  1, 3: simpl; split; try done; apply effect_refl.
  - unfold iterations in Hf. simpl in Hf. lia.
  - assert (1 < size d)%nat as Hd by (eapply queue_several; eauto; by rewrite Hq).
    assert (returns (w ← HandleEvent doms HandleEntry h d t w; Ok (pop t d w))
      (λ w', ∃ q', handles t d q' b w w' ∧ (iterations q' < iterations (h :: q))%nat)) as Hstep.
    { destruct (sh_queue _ _ _ _ (iv_shape _ _ _ Hinv t d Ht Hd) h) as [->|[_ [i ->]]]; [rewrite Hq; by left|..]; simpl.
      - eapply returns_mono; [apply HandleReexecute_handles; try done; specialize (Hb t); lia|].
        intros w' Hw'. exists q. split; [done|]. unfold iterations. simpl. lia.
      - eapply returns_mono; [by eapply HandleError_handles|].
        intros w' Hw'. eexists. split; [done|]. unfold iterations. rewrite length_app, sum_list_with_app. simpl. lia. }
    apply returns_Ok in Hstep as (w1 & Hw1 & q' & Hh & Hit).
    apply bind_Ok in Hw1 as (w0 & Hw0 & [= <-]). rewrite Hw0. simpl.
    change (on_task t _ w0) with (pop t d w0). pose proof (hs_queue _ _ _ _ _ _ Hh) as Hq'.
    eapply returns_mono; [apply IH; [by apply Hh|done|done|rewrite Hq'; lia]|].
    intros w' Hw'. by eapply handles_trans.
Qed.

(** What [InvokeAllErrorHandler] does: all queues of the task are empty. *)
Record invokes (t : nat) (b : nat → Z) (l : list nat) (w w' : World) : Prop := mkInvokes {
  ik_inv : Inv (Some t) b w';
  ik_effect : effect t w w';
  ik_queues : ∀ d, t ∈ grp d → queue (tk w' t) d = if decide (d ∈ l) then [] else queue (tk w t) d;
  ik_boxes : ∀ d, t ∈ grp d → box w' t d = box w t d;
}.

Lemma coarse_spec l d : (d ∈ coarse doms l → d ∈ l) ∧ (d ∈ l → (1 < size d)%nat → d ∈ coarse doms l).
Proof.
  induction l as [|e l IH]; [done|]. simpl. destruct l as [|e' l']; [done|].
  destruct (Nat.eqb_spec (size e) 1) as [He|He]; [|done]. destruct IH as [I1 I2]. split.
  - intros Hd%I1. by right.
  - intros [->|Hd]%elem_of_cons Hs; [lia|by apply I2].
Qed.

Lemma upwards_cur w t : paths_ok w → (t < length ps)%nat → ∀ d, d ∈ upwards doms (tk w t) (cur t) ↔ t ∈ grp d.
Proof.
  intros Hw Ht d. destruct (upwards_pth w t (cur t) Hw (cur_in t Ht)) as (l1 & l2 & Hp & ->).
  assert (l2 = []) as ->.
  { destruct l2 as [|e l2]; [done|]. assert (cur t ∈ e :: l2) as Hin.
    { unfold cur at 1. rewrite Hp, last_app_cons, last_cons_cons.
      destruct (last (e :: l2)) eqn:Hl; [by apply last_Some_elem_of|by apply last_None in Hl]. }
    pose proof (NoDup_pth t) as Hnd. rewrite Hp in Hnd. apply NoDup_app in Hnd as (_ & _ & Hnd).
    apply NoDup_cons in Hnd as [Hnd _]. done. }
  rewrite in_group, Hp, elem_of_app, elem_of_cons, list_elem_of_singleton.
  assert (d ∈ rev l1 ↔ d ∈ l1) as -> by (by rewrite !list_elem_of_In, <-in_rev). tauto.
Qed.

Lemma InvokeAllErrorHandler_invokes t b w :
  Inv (Some t) b w → (t < length ps)%nat → (∀ t', b t' < INT_MAX) →
  returns (InvokeAllErrorHandler doms HandleEntry t w) (λ w', invokes t b (coarse doms (upwards doms (tk w t) (cur t))) w w').
Proof.
  intros Hinv Hlt Hb. pose proof (iv_paths _ _ _ Hinv) as Hw. unfold InvokeAllErrorHandler.
  rewrite task_tk, ret_bind, GetCurrentCD_cur, ret_bind by done.
  set (L := coarse doms _). assert (∀ d, d ∈ L → t ∈ grp d) as HL.
  { intros d Hd%(proj1 (coarse_spec _ _)). by apply (upwards_cur w t). }
  apply (foldM_inv (λ l1 w', invokes t b l1 w w')).
  - split; try done. apply effect_refl.
  - intros l1 d l2 w1 Hl [I1 I2 I3 I4]. pose proof (iv_paths _ _ _ I1) as Hw1.
    assert (t ∈ grp d) as Ht by (apply HL; rewrite Hl; set_solver).
    rewrite task_tk, ret_bind by done.
    eapply returns_mono; [apply InvokeErrorHandler_handles; try done; apply iterations_le|].
    intros w2 [A1 A2 A3 A4 A5]. split; [done|eapply effect_trans; [by apply cur_in|done..]| |].
    + intros d' Ht'. destruct (decide (d' = d)) as [->|Hn].
      * rewrite decide_True by set_solver. done.
      * rewrite A4, I3 by done. repeat case_decide; set_solver.
    + intros d' Ht'. by rewrite A5, I4.
Qed.

Lemma slot_on_task m w t F t' d' :
  (∀ x, cd_event_ (F x) = cd_event_ x) → paths_ok w → (t < length ps)%nat →
  slot m (on_task t F w) t' d' = slot m w t' d'.
Proof.
  intros HF Hw Ht. unfold slot, queue. rewrite tk_on_task by done. case_decide; [subst; by rewrite HF|done].
Qed.

Lemma Inv_idle act b w t :
  Inv act b w → (t < length ps)%nat → (∀ t', t' ≠ t → act ≠ Some t') → handled_event_count (tk w t) = 0 → Inv None b w.
Proof.
  intros [H1 H2 H3 H4 H5 H6 H7] Ht Ha Hh. split; try done. intros t' Ht'. destruct (H4 t' Ht') as [H8 H9].
  split; [done|]. intros _. destruct (decide (t' = t)) as [->|Hn]; [done|]. by apply H9, Ha.
Qed.

Lemma Inv_busy b w t : Inv None b w → Inv (Some t) b w.
Proof. intros [H1 H2 H3 H4 H5 H6 H7]. split; try done. intros t' Ht'. destruct (H4 t' Ht'). split; [done|]. naive_solver. Qed.

Lemma DecPendingCounter_Inv b w t :
  Inv (Some t) b w → (t < length ps)%nat → b t < INT_MAX →
  Inv None b (DecPendingCounter t w) ∧ effect t w (DecPendingCounter t w) ∧
  ∀ m t' d, slot m (DecPendingCounter t w) t' d = slot m w t' d.
Proof.
  intros Hinv Ht Hb. pose proof (iv_paths _ _ _ Hinv) as Hw.
  assert (∀ m t' d, slot m (DecPendingCounter t w) t' d = slot m w t' d) as Hs by (intros; by apply slot_on_task).
  assert (∀ m t', held m (DecPendingCounter t w) t' = held m w t') as Hh by (intros; apply sum_list_same; intros; apply Hs).
  assert (total errors (DecPendingCounter t w) = total errors w) as Htot by (apply sum_list_same; intros; apply Hh).
  assert (∀ t', tk (DecPendingCounter t w) t' = if decide (t' = t) then
    with_handled 0 (with_pending (u32 (pendingFlag_ (tk w t) - handled_event_count (tk w t))) (tk w t)) else tk w t') as Htk.
  { intros t'. unfold DecPendingCounter. by rewrite tk_on_task. }
  destruct Hinv as [H1 H2 H3 H4 H5 H6 H7]. pose proof (H4 t Ht) as [Hh0 _]. pose proof (H5 t Ht) as Hp. pose proof (H6 t Ht) as Hbt.
  assert (u32 (pendingFlag_ (tk w t) - handled_event_count (tk w t)) = pendingFlag_ (tk w t) - handled_event_count (tk w t)) as Hu.
  { apply u32_small. unfold INT_MAX in *. lia. }
  split; [|split; [|done]].
  - split.
    + by apply paths_on_task.
    + intros t' d Ht' Hd. rewrite Htk. destruct (H2 t' d Ht' Hd). case_decide; [subst|done]. by split.
    + intros t' d Ht' Hd. rewrite Htk. destruct (H3 t' d Ht' Hd). case_decide; [subst|done]. by split.
    + intros t' Ht'. rewrite Htk. destruct (H4 t' Ht') as [H8 H9]. case_decide; simpl; [lia|]. split; [done|]. intros _. apply H9. congruence.
    + intros t' Ht'. rewrite Hh, Htk. specialize (H5 t' Ht'). case_decide; simpl; [subst; lia|done].
    + intros t' Ht'. rewrite Htot, Htk. specialize (H6 t' Ht'). case_decide; simpl; [subst; lia|done].
    + intros t' Ht'. rewrite Htk. specialize (H7 t' Ht'). by case_decide; simpl; [subst|].
  - split; try (intros; by rewrite Hs in * ); try (by intros; rewrite Hs in *; left).
    + intros t' Hn. by rewrite Htk, decide_False.
    + left. rewrite Htk, decide_True by done. by rewrite Hs.
Qed.

Lemma held_empty m w t : (∀ d, t ∈ grp d → slot m w t d = O) → held m w t = O.
Proof. intros Hs. unfold held. rewrite (sum_list_same _ (λ _, O)); [by induction (pth t)|]. intros d Hd. by apply Hs, in_group. Qed.

Lemma count_empty l : (∀ i z, l !! i = Some z → z = 0) → count pending l [] = O.
Proof.
  unfold count. simpl. rewrite Nat.add_0_r. induction l as [|z l IH]; intros Hz; simpl; [done|].
  rewrite (Hz O z) by done. apply IH. intros i z' Hi. by apply (Hz (S i)).
Qed.

Definition several_of (w : World) (t : nat) : list nat := filter (λ d, (1 < size d)%nat) (upwards doms (tk w t) (cur t)).

Lemma in_several w t d : paths_ok w → (t < length ps)%nat → d ∈ several_of w t ↔ t ∈ grp d ∧ (1 < size d)%nat.
Proof. intros Hw Ht. unfold several_of. rewrite list_elem_of_filter, upwards_cur by done. tauto. Qed.

Lemma tot_events_0 (x : Task) l : (tot_events x l = 0)%nat → ∀ d, d ∈ l → queue x d = [].
Proof.
  intros Ht d Hd. pose proof (sum_list_ge (λ d, length (queue x d)) l d Hd) as H. cbv beta in H. unfold tot_events in Ht.
  apply nil_length_inv. lia.
Qed.

(** The invariant after the mailboxes of [l] are read. *)
Lemma read_boxes t b w l :
  Inv None b w → (t < length ps)%nat → (∀ t', b t' < INT_MAX) → (∀ d, d ∈ l → t ∈ grp d ∧ (1 < size d)%nat) →
  returns (foldM (λ d w, InternalCheckMailBox doms t d w) l w) (λ w', Inv (Some t) b w' ∧ effect t w w' ∧
    (∀ d, d ∈ l → ∀ i z, box w' t d !! i = Some z → z = 0) ∧
    (handled_event_count (tk w' t) = 0 ∨ ∃ d, d ∈ l ∧ queue (tk w' t) d ≠ [])).
Proof.
  intros Hinv Hlt Hb Hl.
  eapply returns_mono; [apply (foldM_inv (λ l1 w', Inv (Some t) b w' ∧ effect t w w' ∧
    (∀ d, d ∈ l1 → ∀ i z, box w' t d !! i = Some z → z = 0) ∧
    (handled_event_count (tk w' t) = 0 ∨ ∃ d, d ∈ l ∧ queue (tk w' t) d ≠ []))); [|]|done].
  - split_and!; [by apply Inv_busy|apply effect_refl|set_solver|].
    left. by apply (iv_handled _ _ _ Hinv).
  - intros l1 d l2 w1 Heq (I1 & I2 & I3 & I4). destruct (Hl d) as [Ht Hd]; [rewrite Heq; set_solver|].
    eapply returns_mono; [apply InternalCheckMailBox_checked; try done; specialize (Hb t); lia|].
    intros w2 [C1 C2 C3 C4 C5 C6]. split_and!; [done|eapply effect_trans; [by apply cur_in|done..]| |].
    + intros d' Hd'. destruct (decide (d' = d)) as [->|Hn]; [done|].
      apply elem_of_app in Hd' as [Hd'| ->%list_elem_of_singleton]; [|done].
      rewrite C4; [by apply I3|apply Hl; rewrite Heq; set_solver|done].
    + destruct C5 as [->|C5]; [|right; exists d; split; [rewrite Heq; set_solver|done]].
      destruct I4 as [->|(d' & Hd' & Hq)]; [by left|]. right. exists d'. eauto.
Qed.

(** ** CheckMailBox *)

(** [CheckMailBox] returns, handles all events of the task, and restores the
    invariant. *)
Record checks (t : nat) (b : nat → Z) (w w' : World) : Prop := mkChecks {
  ck_inv : Inv None b w';
  ck_effect : effect t w w';
  ck_none : ∀ d, t ∈ grp d → slot pending w' t d = O;
}.

Lemma slot_empty b w t d :
  Inv (Some t) b w → t ∈ grp d → queue (tk w t) d = [] → ((1 < size d)%nat → ∀ i z, box w t d !! i = Some z → z = 0) →
  slot pending w t d = O.
Proof.
  intros Hinv Ht Hq Hz. rewrite slot_count, Hq. destruct (decide (1 < size d)%nat) as [Hd|Hd].
  - by apply count_empty, Hz.
  - unfold count. destruct (iv_single _ _ _ Hinv t d Ht ltac:(lia)) as [_ ->]. done.
Qed.

Lemma CheckMailBox_checks t b w :
  Inv None b w → (t < length ps)%nat → (∀ t', b t' < INT_MAX) →
  returns (CheckMailBox doms HandleEntry t w) (checks t b w).
Proof.
  intros Hinv Hlt Hb. pose proof (iv_paths _ _ _ Hinv) as Hw. unfold CheckMailBox.
  rewrite task_tk, ret_bind by done. destruct (iv_handled _ _ _ Hinv t Hlt) as [_ Hh]. specialize (Hh ltac:(done)).
  rewrite Hh. simpl. rewrite GetCurrentCD_cur by done. simpl.
  destruct (Z.eqb_spec (pendingFlag_ (tk w t)) 0) as [He|He].
  - assert (∀ d, t ∈ grp d → slot pending w t d = O) as Hs.
    { intros d Ht. pose proof (iv_pending _ _ _ Hinv t Hlt). pose proof (slot_held pending w t d Ht). lia. }
    assert (tot_events (tk w t) (coarse doms (upwards doms (tk w t) (cur t))) = O) as ->.
    { unfold tot_events. rewrite (sum_list_same _ (λ _, O)); [by induction (coarse _ _)|].
      intros d Hd%(proj1 (coarse_spec _ _)). rewrite upwards_cur in Hd by done. specialize (Hs d Hd).
      rewrite slot_count in Hs. unfold count in Hs. destruct (queue (tk w t) d); [done|]. simpl in Hs. lia. }
    split; [done|apply effect_refl|done].
  - change (filter _ _) with (several_of w t).
    eapply returns_bind; [apply read_boxes; try done; intros d Hd; by apply in_several in Hd|].
    intros w1 (I1 & I2 & I3 & I4). pose proof (iv_paths _ _ _ I1) as Hw1.
    assert (∀ d, t ∈ grp d → (1 < size d)%nat → ∀ i z, box w1 t d !! i = Some z → z = 0) as Hz.
    { intros d Ht Hd. apply I3. by apply in_several. }
    rewrite task_tk, ret_bind by done. destruct (Nat.ltb_spec 0 (tot_events (tk w1 t) (several_of w t))) as [Htot|Htot].
    + eapply returns_bind; [by apply InvokeAllErrorHandler_invokes|]. intros w2 [K1 K2 K3 K4].
      destruct (DecPendingCounter_Inv b w2 t K1 Hlt (Hb t)) as (D1 & D2 & D3).
      split; [done|eapply effect_trans; [by apply cur_in| |done]; eapply effect_trans; [by apply cur_in|done..]|].
      intros d Ht. rewrite D3. apply (slot_empty b); try done.
      * rewrite K3 by done. case_decide as Hc; [done|].
        destruct (queue (tk w1 t) d) as [|h q] eqn:Hq; [done|]. exfalso. apply Hc, coarse_spec; [by apply upwards_cur|].
        eapply queue_several; [exact I1|done|by rewrite Hq].
      * intros Hd. rewrite K4 by done. by apply Hz.
    + assert (∀ d, d ∈ several_of w t → queue (tk w1 t) d = []) as Hq by (apply tot_events_0; lia).
      assert (handled_event_count (tk w1 t) = 0) as Hh1.
      { destruct I4 as [|(d & Hd & Hn)]; [done|]. by destruct (Hn (Hq d Hd)). }
      split; [eapply Inv_idle; [exact I1|done|congruence|done]|done|].
      intros d Ht. apply (slot_empty b); try done; [|by apply Hz].
      destruct (decide (1 < size d)%nat) as [Hd|Hd]; [by apply Hq, in_several|].
      by destruct (iv_single _ _ _ I1 t d Ht ltac:(lia)).
Qed.

(** The rollback point after [CheckMailBox]: the level of the current domain, if
    it had an event. *)
Lemma checks_word t b w w' :
  (t < length ps)%nat → checks t b w w' →
  rollback_word (tk w' t) = if decide (has w t (cur t)) then rollback_word (tk w t) `min` lv (cur t) else rollback_word (tk w t).
Proof.
  intros Hlt [C1 C2 C3]. pose proof (C3 (cur t) (cur_in t Hlt)) as Hs.
  destruct (ef_word _ _ _ C2) as [[Hw Hn]|[Hw Hh]]; case_decide as Hc; [|done|done|done].
  specialize (Hn Hc). lia.
Qed.

(** ** Reports *)

(** What a report of an error of [e] by task [t] does before it looks at its
    mailboxes: its rollback point is at most the level of [e], or [e] is its
    current domain and the head has an event of it. *)
Record reported (t e : nat) (b : nat → Z) (w w' : World) : Prop := mkReported {
  rp_inv : Inv None b w';
  rp_words : ∀ t', t' ≠ t → rollback_word (tk w' t') = rollback_word (tk w t');
  rp_word : rollback_word (tk w' t) = rollback_word (tk w t) ∨ rollback_word (tk w' t) = rollback_word (tk w t) `min` lv e;
  rp_new : ∀ t' d, t' ∈ grp d → has w' t' d → has w t' d ∨ d = e;
  rp_old : ∀ t' d, t' ∈ grp d → has w t' d → has w' t' d;
  rp_done : rollback_word (tk w' t) ≤ lv e ∨ e = cur t ∧ ∃ g, g ∈ grp e ∧ rank e g = hd e ∧ has w' g e;
}.

Lemma GetCoarseCD_self w t d : paths_ok w → t ∈ grp d → (1 < size d)%nat → GetCoarseCD doms (tk w t) d = Ok d.
Proof.
  intros Hw Ht Hd. destruct (upwards_pth w t d Hw Ht) as (l1 & l2 & _ & Hu).
  unfold GetCoarseCD. rewrite Hu. simpl. destruct (rev l1); [done|]. by rewrite not_single.
Qed.

(** A new event of the head [g] of [d]. *)
Lemma report_put g d F l b w :
  Inv None b w → g ∈ grp d → (1 < size d)%nat → rank d g = hd d →
  let x := tk w g in let y := F x in
  (∀ x, path (F x) = path x) → (∀ d', d' ≠ d → queue y d' = queue x d') →
  (∀ d', d' ≠ d → d' ∈ error_occurred y → d' ∈ error_occurred x) → shape g d l y →
  handled_event_count y = handled_event_count x → rollback_word y = rollback_word x → pendingFlag_ y = pendingFlag_ x + 1 →
  (0 < count pending l (queue y d) ≤ slot pending w g d + 1)%nat → (count errors l (queue y d) ≤ slot errors w g d + 1)%nat →
  let w' := put g d F l w in
  Inv None (λ t, b t + 2) w' ∧ (∀ t', rollback_word (tk w' t') = rollback_word (tk w t')) ∧
  (∀ t' d', t' ∈ grp d' → has w' t' d' → has w t' d' ∨ d' = d) ∧ (∀ t' d', t' ∈ grp d' → has w t' d' → has w' t' d') ∧ has w' g d.
Proof.
  intros Hinv Hg Hd Hr x y. subst x y. intros HFp HFq HFe Hsh Hh Hrb Hp Hc He w'.
  pose proof (iv_paths _ _ _ Hinv) as Hw. pose proof (in_group_lt _ _ Hg) as Hlt.
  destruct (changes_put pending w g d F l Hw Hg HFq) as [Ho Hs].
  assert (has w' g d) as Hhas by (unfold w'; lia).
  split_and!; [| | | |done].
  - eapply Inv_put; try done.
    + rewrite Hh. by apply (iv_handled _ _ _ Hinv).
    + rewrite Hh. by apply (iv_handled _ _ _ Hinv).
    + rewrite Hrb. by apply (iv_word _ _ _ Hinv).
    + rewrite Hh, Hp. lia.
    + intros t'. rewrite Hp. case_decide; lia.
  - intros t'. unfold w'. rewrite tk_put by done. case_decide; [by subst|done].
  - intros t' d' Ht'. destruct (decide ((t', d') = (g, d))) as [[= -> ->]|Hn]; [by right|].
    unfold w'. rewrite Ho by done. by left.
  - intros t' d' Ht'. destruct (decide ((t', d') = (g, d))) as [[= -> ->]|Hn]; [done|].
    unfold w'. by rewrite Ho.
Qed.

Lemma head_exists t d : t ∈ grp d → ∃ g, g ∈ grp d ∧ rank d g = hd d ∧ grp d !! hd d = Some g.
Proof.
  intros Ht. pose proof (tp_head _ _ top d t Ht) as Hh. destruct (lookup_lt_is_Some_2 _ _ Hh) as [g Hg].
  exists g. split; [by eapply list_elem_of_lookup_2|]. split; [by apply rank_of|done].
Qed.

Lemma SetMailBox_error t d b w :
  Inv None b w → t ∈ grp d → (1 < size d)%nat → (∀ t', b t' < INT_MAX) →
  returns (SetMailBox doms d t kErrorOccurred w) (λ w', Inv None (λ t', b t' + 2) w' ∧
    (∀ t', rollback_word (tk w' t') = rollback_word (tk w t')) ∧
    (∀ t' d', t' ∈ grp d' → has w' t' d' → has w t' d' ∨ d' = d) ∧ (∀ t' d', t' ∈ grp d' → has w t' d' → has w' t' d') ∧
    ∃ g, g ∈ grp d ∧ rank d g = hd d ∧ has w' g d).
Proof.
  intros Hinv Ht Hd Hb. pose proof (iv_paths _ _ _ Hinv) as Hw. pose proof (in_group_lt _ _ Ht) as Hlt.
  destruct (head_exists t d Ht) as (g & Hg & Hrg & Hgl). pose proof (in_group_lt _ _ Hg) as Hlg.
  destruct (iv_shape _ _ _ Hinv g d Hg Hd) as [H1 H2 H3 H4].
  destruct (event_head g d Hrg) as [Hev Hwo]. rewrite Hwo in H1. rewrite Hev in H2.
  pose proof (u32_pending _ _ _ _ Hinv Hlg (Hb g)) as Hu.
  destruct (lookup_lt_is_Some_2 (box w g d) (rank d t)) as [z Hz]; [rewrite H1; by apply rank_lt|].
  unfold SetMailBox. change (CHECK_NO_EVENT kErrorOccurred) with false. cbn match.
  rewrite task_tk, ret_bind, GetCoarseCD_self, ret_bind, IsHead_rank, ret_bind by done.
  case_bool_decide as Hr.
  - assert (g = t) as -> by (eapply rank_inj; eauto; congruence).
    unfold LocalSetMailBox. rewrite IsHead_rank, bool_decide_true by done. simpl.
    rewrite task_in_color_rank by done. simpl. unfold push, IncPendingCounter.
    rewrite on_task_twice, (Unset_Ok w t d _ _ z) by done. simpl. rewrite on_task_put.
    assert (Z.ldiff z kErrorOccurred = 0) as -> by (by destruct (H2 _ z Hz) as [->| ->]).
    set (F := λ x : Task, _).
    assert (F (tk w t) = with_error d true (with_queue d (queue (tk w t) d ++ [HandleErrorOccurred 0]) (with_pending (pendingFlag_ (tk w t) + 1) (tk w t)))) as HF.
    { unfold F. by rewrite Hu. }
    assert (∀ d', queue (F (tk w t)) d' = if decide (d' = d) then queue (tk w t) d ++ [HandleErrorOccurred 0] else queue (tk w t) d') as Hq.
    { intros d'. rewrite HF. change (queue (with_error d true ?x) d') with (queue x d'). by rewrite queue_with. }
    pose proof (λ q, count_insert pending (box w t d) q _ z 0 Hz) as Hcp.
    pose proof (λ q, count_insert errors (box w t d) q _ z 0 Hz) as Hce.
    apply (report_put t d F (<[rank d t := 0]> (box w t d)) b w) in Hinv as (R1 & R2 & R3 & R4 & R5); try done.
    + split_and!; try done. by exists t.
    + intros d' Hn. by rewrite Hq, decide_False.
    + intros d' Hn. rewrite HF. simpl. set_solver.
    + split; [by rewrite length_insert, Hwo| | |].
      * rewrite Hev. intros i' z' [[<- [<- _]]|[_ Hz']]%list_lookup_insert_Some; [by left|by eapply H2].
      * rewrite Hq, decide_True by done. intros h [Hh| ->%list_elem_of_singleton]%elem_of_app; [by apply H3|eauto].
      * intros _. exists O. rewrite Hq, decide_True by done. set_solver.
    + rewrite Hq, decide_True, count_snoc, slot_count by done. specialize (Hcp (queue (tk w t) d)). simpl in *.
      destruct (z =? 0); lia.
    + rewrite Hq, decide_True, count_snoc, slot_count by done. specialize (Hce (queue (tk w t) d)). simpl in *. lia.
  - unfold RemoteSetMailBox. rewrite (global_rank_Ok _ _ _ Hgl), ret_bind, task_in_color_rank, ret_bind by done.
    rewrite (proj2 (Nat.eqb_neq _ _)) by congruence. rewrite <-Hrg.
    unfold SetEventFlag, IncPendingCounter. rewrite (on_flag_total _ _ _ _ _ z) by done. rewrite put_after. simpl.
    change (box (on_task g _ w) g d) with (box w g d).
    assert (Z.lor z kErrorOccurred = kErrorOccurred) as -> by (by destruct (H2 _ z Hz) as [->| ->]).
    pose proof (count_insert pending (box w g d) (queue (tk w g) d) _ z kErrorOccurred Hz) as Hcp.
    pose proof (count_insert errors (box w g d) (queue (tk w g) d) _ z kErrorOccurred Hz) as Hce.
    apply (report_put g d (λ x, with_pending (u32 (pendingFlag_ x + 1)) x) (<[rank d t := kErrorOccurred]> (box w g d)) b w) in Hinv as (R1 & R2 & R3 & R4 & R5); try done.
    + split_and!; try done. by exists g.
    + split; simpl; [by rewrite length_insert, Hwo| |done|done]. rewrite Hev.
      intros i' z' [[<- [<- _]]|[_ Hz']]%list_lookup_insert_Some; [by right|by eapply H2].
    + change (queue (with_pending _ (tk w g)) d) with (queue (tk w g) d). rewrite slot_count. pose proof (count_flag pending _ (queue (tk w g) d) _ _ Hz) as Hcf. simpl in Hcp, Hcf. destruct (z =? 0); lia.
    + change (queue (with_pending _ (tk w g)) d) with (queue (tk w g) d). rewrite slot_count. simpl in Hce. lia.
Qed.

Lemma SetRollback_reported t e b w :
  Inv None b w → t ∈ grp e →
  let w' := SetRollbackPoint t (lv e) w in
  Inv None b w' ∧ (∀ t', t' ≠ t → rollback_word (tk w' t') = rollback_word (tk w t')) ∧
  rollback_word (tk w' t) = rollback_word (tk w t) `min` lv e ∧ ∀ m t' d, slot m w' t' d = slot m w t' d.
Proof.
  intros Hinv Ht w'. pose proof (iv_paths _ _ _ Hinv) as Hw. pose proof (in_group_lt _ _ Ht) as Hlt.
  destruct (lv_cur t e Ht) as (_ & _ & Hne & Hge). unfold w', SetRollbackPoint.
  rewrite (proj2 (Z.eqb_neq _ _) Hne). simpl. clear w'.
  assert (∀ m t' d, slot m (on_task t (lower (lv e)) w) t' d = slot m w t' d) as Hs by (intros; by apply slot_on_task).
  assert (∀ t', tk (on_task t (lower (lv e)) w) t' = if decide (t' = t) then lower (lv e) (tk w t) else tk w t') as Htk.
  { intros t'. by rewrite tk_on_task. }
  assert (rollback_word (lower (lv e) (tk w t)) = rollback_word (tk w t) `min` lv e) as Hlow.
  { simpl. destruct (Z.ltb_spec (lv e) (rollback_word (tk w t))); lia. }
  split; [|split; [|split; [|done]]].
  - destruct Hinv as [H1 H2 H3 H4 H5 H6 H7]. split.
    + by apply paths_on_task.
    + intros t' d Ht' Hd. rewrite Htk. destruct (H2 t' d Ht' Hd). case_decide; [subst|done]. by split.
    + intros t' d Ht' Hd. rewrite Htk. destruct (H3 t' d Ht' Hd). case_decide; [subst|done]. by split.
    + intros t' Ht'. rewrite Htk. specialize (H4 t' Ht'). case_decide; [by subst|done].
    + intros t' Ht'. unfold held. rewrite (sum_list_same _ (slot pending w t')) by (intros; apply Hs).
      rewrite Htk. specialize (H5 t' Ht'). case_decide; [by subst|done].
    + intros t' Ht'. unfold total, held.
      rewrite (sum_list_same _ (held errors w)) by (intros; apply sum_list_same; intros; apply Hs).
      rewrite Htk. specialize (H6 t' Ht'). case_decide; [by subst|done].
    + intros t' Ht'. rewrite Htk. specialize (H7 t' Ht'). case_decide; [subst|done]. rewrite Hlow. lia.
  - intros t' Hn. by rewrite Htk, decide_False.
  - by rewrite Htk, decide_True.
Qed.

Lemma Assert_checks t e test b w :
  Inv None b w → t ∈ grp e → (∀ t', b t' + 2 < INT_MAX) →
  returns (Assert doms HandleEntry t e test w) (λ w', ∃ w1,
    (if test then w1 = w else reported t e (λ t', b t' + 2) w w1) ∧
    checks t (if test then b else λ t', b t' + 2) w1 w').
Proof.
  intros Hinv Ht Hb. pose proof (iv_paths _ _ _ Hinv) as Hw. pose proof (in_group_lt _ _ Ht) as Hlt.
  destruct (lv_cur t e Ht) as (Hle & Heq & _ & _). unfold Assert.
  rewrite task_tk, ret_bind, GetCurrentCD_cur, ret_bind by done.
  eapply (returns_bind _ _ (λ w1, if test then w1 = w else reported t e (λ t', b t' + 2) w w1)).
  2: { intros w1 Hw1. assert (Inv None (if test then b else λ t', b t' + 2) w1) as Hi by (destruct test; [by subst|by destruct Hw1]).
       eapply returns_mono; [apply CheckMailBox_checks; try done; intros t'; specialize (Hb t'); destruct test; lia|]. eauto. }
  destruct test; [done|].
  assert (reported t e (λ t', b t' + 2) w (SetRollbackPoint t (lv e) w)) as Hlocal.
  { destruct (SetRollback_reported t e b w Hinv Ht) as (R1 & R2 & R3 & R4). split; try done.
    - eapply Inv_mono; [done|]. intros; lia.
    - by right.
    - intros t' d _. rewrite R4. by left.
    - intros t' d _. by rewrite R4.
    - left. rewrite R3. lia. }
  assert (∀ w1, Inv None (λ t', b t' + 2) w1 ∧ (∀ t', rollback_word (tk w1 t') = rollback_word (tk w t')) ∧
    (∀ t' d', t' ∈ grp d' → has w1 t' d' → has w t' d' ∨ d' = e) ∧ (∀ t' d', t' ∈ grp d' → has w t' d' → has w1 t' d') ∧
    (∃ g, g ∈ grp e ∧ rank e g = hd e ∧ has w1 g e) →
    reported t e (λ t', b t' + 2) w (SetRollbackPoint t (lv e) w1)) as Hescal.
  { intros w1 (S1 & S2 & S3 & S4 & S5). destruct (SetRollback_reported t e _ w1 S1 Ht) as (R1 & R2 & R3 & R4). split; try done.
    - intros t' Hn. by rewrite R2.
    - right. by rewrite R3, S2.
    - intros t' d Ht'. rewrite R4. by apply S3.
    - intros t' d Ht'. rewrite R4. by apply S4.
    - left. rewrite R3. lia. }
  destruct (Z.eqb_spec (lv (cur t)) (lv e)) as [He|He]; [|rewrite (proj2 (Z.ltb_lt _ _)) by lia];
    (destruct (Nat.ltb_spec 1 (size e)) as [Hs|Hs]; [|done]).
  - rewrite IsHead_rank, ret_bind by done. case_bool_decide as Hr; [done|].
    eapply returns_mono; [by apply (SetMailBox_error t e b w Hinv); try done; intros t'; specialize (Hb t'); lia|].
    intros w1 (S1 & S2 & S3 & S4 & S5). split; try done; [by left; rewrite S2|]. right. split; [by apply Heq|done].
  - eapply returns_bind; [by apply (SetMailBox_error t e b w Hinv); try done; intros t'; specialize (Hb t'); lia|].
    intros w1 Hw1. by apply Hescal.
Qed.

End events.
