(* ===== verification/Coordination.v ===== *)
(** * Agreement of the tasks of a domain on a rollback point (cd_internal.cc)

    The tasks of a domain run: they report errors of the domain or of those
    above and look at their mailboxes, in any order.  Each then enters SyncCDs,
    waits at its fence for all tasks of the domain, looks at its mailboxes and
    gives its rollback point to a reduction.  Tasks outside the domain run all
    the time.  A step is one operation of one task. *)

From Stdlib Require Import ZArith Lia.
From stdpp Require Import base gmap list numbers sets functions relations.
From S2P Require Import Prelude PhaseTree Handle Mailbox Events.

#[local] Open Scope Z_scope.

(** Where a task is: before SyncCDs, at its fence, or done with a result. *)
Inductive place := Running | AtFence | Done (r : Z).

#[export] Instance place_eq_dec : EqDecision place.
Proof. solve_decision. Defined.

(** The state of the tasks: the words in memory, the places of the tasks of the
    domain, the levels that they reported, and the number of all reports. *)
Record Sync := mkSync { sy_world : World; sy_place : nat → place; sy_reported : list Z; sy_reports : Z }.

(** The rollback point of reports at these levels. *)
Definition least (l : list Z) : Z := foldr Z.min INVALID_ROLLBACK_POINT l.

Section sync.
Context (doms : nat → Domain) (HandleEntry : Handler → nat → nat → World → res World).
Context (ps : list (list nat)) (top : topology doms ps) (d : nat).
Implicit Types (s : Sync) (t e : nat) (w : World).

#[local] Abbreviation G := (d_group (doms d)).
#[local] Abbreviation lv := (level doms).
#[local] Abbreviation has w t e := (0 < slot doms pending w t e)%nat.

Definition is_running s t : Prop := t ∉ G ∨ sy_place s t = Running.

Definition report (s : Sync) (t e : nat) (test : bool) (w : World) : Sync :=
  mkSync w (sy_place s)
    (if test then sy_reported s else if decide (t ∈ G) then lv e :: sy_reported s else sy_reported s)
    (if test then sy_reports s else sy_reports s + 1).

Definition at_place (s : Sync) (t : nat) (p : place) (w : World) : Sync :=
  mkSync w (<[t := p]> (sy_place s)) (sy_reported s) (sy_reports s).

(** A step of a task: CD::Assert of a domain of its path, CD::CheckMailBox, and
    for the tasks of the domain the two parts of SyncCDs. *)
Inductive step : Sync → Sync → Prop :=
  | step_assert s t e test w' :
      is_running s t → t ∈ d_group (doms e) → Assert doms HandleEntry t e test (sy_world s) = Ok w' →
      step s (report s t e test w')
  | step_check s t w' :
      is_running s t → (t < length ps)%nat → CheckMailBox doms HandleEntry t (sy_world s) = Ok w' →
      step s (mkSync w' (sy_place s) (sy_reported s) (sy_reports s))
  | step_enter s t w' :
      t ∈ G → sy_place s t = Running → SyncCDs_enter doms HandleEntry t (sy_world s) = Ok w' →
      step s (at_place s t AtFence w')
  | step_leave s t r w' :
      t ∈ G → sy_place s t = AtFence → (∀ t', t' ∈ G → sy_place s t' ≠ Running) →
      SyncCDs_leave doms HandleEntry t (sy_world s) = Ok (r, w') →
      step s (at_place s t (Done r) w').



(** The domain begins: its tasks have no rollback point and no event of it. *)
Record begins (b : Z) (s : Sync) : Prop := mkBegins {
  bg_inv : Inv doms ps None (λ _, b) (sy_world s);
  bg_word : ∀ t, t ∈ G → rollback_word (tk (sy_world s) t) = INVALID_ROLLBACK_POINT;
  bg_slot : ∀ t, t ∈ G → slot doms pending (sy_world s) t d = O;
  bg_place : ∀ t, sy_place s t = Running;
  bg_reported : sy_reported s = [];
  bg_reports : sy_reports s = 0;
}.

(** All tasks of the domain run in it, and it has several. *)
Definition current : Prop := (1 < task_size doms d)%nat ∧ ∀ t, t ∈ G → cur ps t = d.

(** ** The invariant of the protocol *)

(** Of a world and the levels reported by tasks of the domain: no rollback point
    is below the least level; the reports are in a rollback point or, for the
    level of the domain, in an event of the head. *)
Record Core (F : list Z) (w : World) : Prop := mkCore {
  co_above : ∀ t, t ∈ G → least F ≤ rollback_word (tk w t);
  co_event : ∀ t, t ∈ G → has w t d → least F ≤ lv d;
  co_below : ∀ l, l ∈ F → (∃ t, t ∈ G ∧ rollback_word (tk w t) ≤ l) ∨
    l = lv d ∧ ∃ h, h ∈ G ∧ rank doms d h = head_of doms d ∧ has w h d;
}.

Record Agree (b : Z) (s : Sync) : Prop := mkAgree {
  ag_inv : Inv doms ps None (λ _, b + 2 * sy_reports s) (sy_world s);
  ag_core : Core (sy_reported s) (sy_world s);
  ag_result : ∀ t r, t ∈ G → sy_place s t = Done r → r = rollback_word (tk (sy_world s) t);
  ag_head : ∀ t r, t ∈ G → sy_place s t = Done r → rank doms d t = head_of doms d → ¬ has (sy_world s) t d;
  ag_fence : ∀ t r, t ∈ G → sy_place s t = Done r → ∀ t', t' ∈ G → sy_place s t' ≠ Running;
}.

Hypothesis Hcur : current.

Lemma current_lt t : t ∈ G → (t < length ps)%nat.
Proof. by apply in_group_lt. Qed.

Lemma Core_report F t e b w w' :
  Core F w → t ∈ d_group (doms e) → reported doms ps t e b w w' →
  Core (if decide (t ∈ G) then lv e :: F else F) w' ∧
  (t ∉ G → (∀ t', t' ∈ G → rollback_word (tk w' t') = rollback_word (tk w t')) ∧ ∀ t', t' ∈ G → has w' t' d → has w t' d).
Proof.
  intros [C1 C2 C3] Ht [R1 R2 R3 R4 R5 R6]. split.
  - case_decide as Hg.
    + split.
      * intros t' Ht'. simpl. specialize (C1 t' Ht'). destruct (decide (t' = t)) as [->|Hn]; [|rewrite R2 by done; lia].
        destruct R3 as [->| ->]; lia.
      * intros t' Ht' Hh. simpl. apply R4 in Hh as [Hh| <-]; [specialize (C2 t' Ht' Hh)| |done]; lia.
      * intros l [->|Hl]%elem_of_cons.
        -- destruct R6 as [R6|(He & g & Hgg & Hr & Hh)]; [by left; exists t|]. right.
           destruct Hcur as [_ Hc]. rewrite Hc in He by done. subst e. eauto.
        -- destruct (C3 l Hl) as [(t' & Ht' & Hw')|(-> & h & Hh & Hr & Hhas)]; [left|right; eauto 10].
           exists t'. split; [done|]. destruct (decide (t' = t)) as [->|Hn]; [|by rewrite R2].
           destruct R3 as [->| ->]; lia.
    + split.
      * intros t' Ht'. rewrite R2; [by apply C1|congruence].
      * intros t' Ht' Hh. apply R4 in Hh as [Hh| <-]; [by eapply C2|done|done].
      * intros l Hl. destruct (C3 l Hl) as [(t' & Ht' & Hw')|(-> & h & Hh & Hr & Hhas)]; [left|right; eauto 10].
        exists t'. split; [done|]. rewrite R2; [done|congruence].
  - intros Hg. split.
    + intros t' Ht'. apply R2. congruence.
    + intros t' Ht' Hh. apply R4 in Hh as [Hh| <-]; done.
Qed.

Lemma Core_check F t b w w' :
  (t < length ps)%nat → Core F w → checks doms ps t b w w' →
  Core F w' ∧ (∀ t', t' ∈ G → t' ≠ t → rollback_word (tk w' t') = rollback_word (tk w t')) ∧
  (∀ t', t' ∈ G → t' ≠ t → rank doms d t' = head_of doms d → slot doms pending w' t' d = slot doms pending w t' d) ∧
  (t ∈ G → slot doms pending w' t d = O).
Proof.
  intros Hlt [C1 C2 C3] Hck. pose proof (checks_word doms ps top t b w w' Hlt Hck) as Hword.
  destruct Hck as [K1 [E1 E2 E3 E4 _] K3].
  assert (t ∈ G → cur ps t = d) as Hc by apply Hcur.
  assert (∀ t', t' ∈ G → rollback_word (tk w' t') ≤ rollback_word (tk w t')) as Hle.
  { intros t' Ht'. destruct (decide (t' = t)) as [->|Hn]; [|by rewrite E1]. rewrite Hword. case_decide; lia. }
  split; [split|split; [|split]].
  - intros t' Ht'. destruct (decide (t' = t)) as [->|Hn]; [|rewrite E1 by done; by apply C1].
    rewrite Hword. specialize (C1 t Ht'). rewrite (Hc Ht') in *. case_decide as Hh; [specialize (C2 t Ht' Hh)|]; lia.
  - intros t' Ht' Hh. destruct (decide (t' = t)) as [->|Hn]; [by eapply C2, E4|].
    apply E3 in Hh as [Hh|[Hg Hh]]; eauto.
  - intros l Hl. destruct (C3 l Hl) as [(t' & Ht' & Hw')|(-> & h & Hh & Hr & Hhas)].
    + left. exists t'. split; [done|]. specialize (Hle t' Ht'). lia.
    + destruct (decide (h = t)) as [->|Hn].
      * left. exists t. split; [done|]. rewrite Hword, (Hc Hh), decide_True by done. lia.
      * right. split; [done|]. exists h. by rewrite E2.
  - intros t' _ Hn. by apply E1.
  - intros t' Ht' Hn. by apply E2.
  - intros Ht. by apply K3.
Qed.

(** Outside SyncCDs a task may do anything: no task of its domain is done. *)
Lemma Agree_running b s t w' F R :
  Agree b s → is_running s t → Inv doms ps None (λ _, b + 2 * R) w' → Core F w' →
  (t ∉ G → (∀ t', t' ∈ G → rollback_word (tk w' t') = rollback_word (tk (sy_world s) t')) ∧
           ∀ t', t' ∈ G → has w' t' d → has (sy_world s) t' d) →
  Agree b (mkSync w' (sy_place s) F R).
Proof.
  intros [A1 A2 A3 A4 A5] Hrun HI HC Hout. destruct (decide (t ∈ G)) as [Hg|Hg].
  - destruct Hrun as [?|Hrun]; [done|]. split; try done; simpl.
    + intros t' r Ht' Hd. by destruct (A5 t' r Ht' Hd t Hg).
    + intros t' r Ht' Hd. by destruct (A5 t' r Ht' Hd t Hg).
  - destruct (Hout Hg) as [H1 H2]. split; try done; simpl.
    + intros t' r Ht' Hd. rewrite H1 by done. by apply A3.
    + intros t' r Ht' Hd Hr Hh. eapply A4; eauto.
Qed.

Lemma Core_outside t b w w' :
  (t < length ps)%nat → checks doms ps t b w w' → t ∉ G →
  (∀ t', t' ∈ G → rollback_word (tk w' t') = rollback_word (tk w t')) ∧ ∀ t', t' ∈ G → has w' t' d → has w t' d.
Proof.
  intros Hlt [_ [E1 _ E3 _ _] _] Hg. split; intros t' Ht'.
  - apply E1. congruence.
  - intros Hh. apply E3 in Hh as [Hh|[? _]]; [done|done|congruence|done].
Qed.

Lemma bound_ok b s : b + 2 * sy_reports s + 2 < INT_MAX → ∀ t : nat, (λ _, b + 2 * sy_reports s) t + 2 < INT_MAX.
Proof. done. Qed.

Lemma checks_run t B w w' :
  Inv doms ps None (λ _, B) w → (t < length ps)%nat → B < INT_MAX →
  CheckMailBox doms HandleEntry t w = Ok w' → checks doms ps t (λ _, B) w w'.
Proof.
  intros HI Hlt HB Hop. pose proof (CheckMailBox_checks doms HandleEntry ps top t (λ _, B) w HI Hlt (λ _, HB)) as H.
  by rewrite Hop in H.
Qed.

Lemma Agree_assert b s t e test w' :
  Agree b s → is_running s t → t ∈ d_group (doms e) → b + 2 * sy_reports s + 2 < INT_MAX →
  Assert doms HandleEntry t e test (sy_world s) = Ok w' → Agree b (report s t e test w').
Proof.
  intros HA Hrun Ht Hb Hop. pose proof HA as [A1 A2 A3 A4 A5]. pose proof (in_group_lt doms ps top t e Ht) as Hlt.
  pose proof (Assert_checks doms HandleEntry ps top t e test _ _ A1 Ht (bound_ok b s Hb)) as H.
  rewrite Hop in H. destruct H as (w1 & H1 & H2). unfold report. destruct test.
  - subst w1. destruct (Core_check _ t _ _ _ Hlt A2 H2) as (C1 & _). eapply Agree_running; try done; [by destruct H2|].
    by eapply Core_outside.
  - destruct (Core_report _ t e _ _ _ A2 Ht H1) as [C1 C2]. destruct (Core_check _ t _ _ _ Hlt C1 H2) as (C3 & _).
    eapply Agree_running; try done.
    + eapply Inv_mono; [by destruct H2|]. intros; simpl; lia.
    + intros Hg. destruct (C2 Hg) as [D1 D2]. destruct (Core_outside t _ _ _ Hlt H2 Hg) as [D3 D4].
      split; intros t' Ht'; [by rewrite D3, D1|eauto].
Qed.

(** One task of the domain goes to another place. *)
Lemma Agree_step b s s' : step s s' → Agree b s → b + 2 * sy_reports s' + 2 < INT_MAX → Agree b s'.
Proof.
  intros Hst HA Hb. destruct Hst as [s t e test w' Hrun Ht Hop|s t w' Hrun Hlt Hop|s t w' Ht Hp Hop|s t r w' Ht Hp Hall Hop]; simpl in Hb.
  - apply Agree_assert; try done. destruct test; lia.
  - pose proof HA as [A1 A2 A3 A4 A5]. pose proof (checks_run t _ _ _ A1 Hlt ltac:(lia) Hop) as H.
    destruct (Core_check _ t _ _ _ Hlt A2 H) as (C1 & _). eapply Agree_running; try done; [by destruct H|].
    by eapply Core_outside.
  - pose proof HA as [A1 A2 A3 A4 A5]. pose proof (current_lt t Ht) as Hlt.
    apply bind_Ok in Hop as (w1 & H1 & H2). pose proof (checks_run t _ _ _ A1 Hlt ltac:(lia) H1) as K1.
    assert (Inv doms ps None (λ _, b + 2 * sy_reports s) w1) as I1 by (by destruct K1).
    pose proof (checks_run t _ _ _ I1 Hlt ltac:(lia) H2) as K2.
    destruct (Core_check _ t _ _ _ Hlt A2 K1) as (C1 & _). destruct (Core_check _ t _ _ _ Hlt C1 K2) as (C2 & _).
    assert (∀ t' r, t' ∈ G → <[t:=AtFence]> (sy_place s) t' = Done r → False) as Hno.
    { intros t' r Ht'. destruct (decide (t' = t)) as [->|Hn]; [by rewrite fn_lookup_insert|].
      rewrite fn_lookup_insert_ne by done. intros Hd. by destruct (A5 t' r Ht' Hd t Ht). }
    split; simpl; try done; [by destruct K2|..]; intros t' r Ht' Hd; by destruct (Hno t' r Ht' Hd).
  - pose proof HA as [A1 A2 A3 A4 A5]. pose proof (current_lt t Ht) as Hlt.
    apply bind_Ok in Hop as (w1 & H1 & H2). pose proof (checks_run t _ _ _ A1 Hlt ltac:(lia) H1) as K1.
    assert (Inv doms ps None (λ _, b + 2 * sy_reports s) w1) as I1 by (by destruct K1).
    unfold CheckRollbackPoint in H2. rewrite task_tk with (ps := ps) in H2; [|by destruct I1|done].
    simpl in H2. injection H2 as Hr Hw1. subst w1 r.
    destruct (Core_check _ t _ _ _ Hlt A2 K1) as (C1 & C2 & C3 & C4).
    split; simpl; try done.
    + intros t' r Ht'. destruct (decide (t' = t)) as [->|Hn]; [rewrite fn_lookup_insert; by intros [= <-]|].
      rewrite fn_lookup_insert_ne by done. intros Hd. rewrite C2 by done. by apply A3.
    + intros t' r Ht'. destruct (decide (t' = t)) as [->|Hn]; [intros _ _; rewrite C4 by done; lia|].
      rewrite fn_lookup_insert_ne by done. intros Hd Hr. rewrite C3 by done. by eapply A4.
    + intros t1 r _ _ t' Ht'. destruct (decide (t' = t)) as [->|Hn]; [by rewrite fn_lookup_insert|].
      rewrite fn_lookup_insert_ne by done. by apply Hall.
Qed.

Lemma step_reports s s' : step s s' → sy_reports s ≤ sy_reports s'.
Proof. destruct 1; simpl; try lia. destruct test; lia. Qed.

Lemma Agree_begins b s : begins b s → Agree b s.
Proof.
  intros [B1 B2 B3 B4 B5 B6]. split.
  - rewrite B6. eapply Inv_mono; [done|]. intros; simpl; lia.
  - rewrite B5. split.
    + intros t Ht. by rewrite B2.
    + intros t Ht. rewrite B3 by done. lia.
    + intros l Hl. by apply elem_of_nil in Hl.
  - intros t r _. by rewrite B4.
  - intros t r _. by rewrite B4.
  - intros t r _. by rewrite B4.
Qed.

Lemma Agree_reachable b s0 s : begins b s0 → rtc step s0 s → b + 2 * sy_reports s + 2 < INT_MAX → Agree b s.
Proof.
  intros Hb. apply (rtc_ind_r (λ s, b + 2 * sy_reports s + 2 < INT_MAX → Agree b s)); [by intros; apply Agree_begins|].
  intros s1 s2 _ Hst IH Hs. pose proof (step_reports _ _ Hst). eapply Agree_step; [done| |done]. apply IH. lia.
Qed.

Lemma least_le F l : l ∈ F → least F ≤ l.
Proof. induction F as [|x F IH]; [by intros ?%elem_of_nil|]. intros [->|Hl]%elem_of_cons; simpl; [|specialize (IH Hl)]; lia. Qed.

Lemma least_in F : least F = INVALID_ROLLBACK_POINT ∨ least F ∈ F.
Proof.
  induction F as [|x F IH]; [by left|]. simpl. destruct (Z.min_spec x (least F)) as [[_ ->]|[_ ->]].
  - right. by left.
  - destruct IH; [by left|right; by right].
Qed.

(** Once all tasks are done, the least of their rollback points is that of the
    reports. *)
Lemma Agree_least b s :
  Agree b s → (∀ t, t ∈ G → ∃ r, sy_place s t = Done r) → G ≠ [] →
  (∀ t, t ∈ G → least (sy_reported s) ≤ rollback_word (tk (sy_world s) t)) ∧
  ∃ t, t ∈ G ∧ rollback_word (tk (sy_world s) t) = least (sy_reported s).
Proof.
  intros [A1 [C1 C2 C3] A3 A4 A5] Hall Hne. split; [done|].
  destruct (least_in (sy_reported s)) as [Hl|Hl].
  - destruct G as [|t g] eqn:Hg; [done|]. exists t. split; [by left|]. specialize (C1 t ltac:(by left)).
    assert (t ∈ d_group (doms d)) as Ht by (rewrite Hg; by left).
    pose proof (iv_word _ _ _ _ _ A1 t (current_lt t Ht)). lia.
  - destruct (C3 _ Hl) as [(t & Ht & Hw)|(_ & h & Hh & Hr & Hhas)].
    + exists t. split; [done|]. specialize (C1 t Ht). lia.
    + destruct (Hall h Hh) as [r Hd]. by destruct (A4 h r Hh Hd Hr).
Qed.

(** ** Progress *)

Lemma not_done_dec (l : list nat) s :
  (∀ t, t ∈ l → ∃ r, sy_place s t = Done r) ∨ ∃ t, t ∈ l ∧ ∀ r, sy_place s t ≠ Done r.
Proof.
  induction l as [|t l IH]; [left; by intros t ?%elem_of_nil|].
  destruct (sy_place s t) as [| |r] eqn:Ht; [right; exists t; split; [by left|congruence]..|].
  destruct IH as [IH|(t' & Ht' & Hn)]; [left|right; exists t'; split; [by right|done]].
  intros t' [->|Ht']%elem_of_cons; eauto.
Qed.

Lemma enter_returns b s t : Agree b s → t ∈ G → b + 2 * sy_reports s + 2 < INT_MAX →
  ∃ w', SyncCDs_enter doms HandleEntry t (sy_world s) = Ok w'.
Proof.
  intros [A1 _ _ _ _] Ht Hb. pose proof (current_lt t Ht) as Hlt.
  pose proof (CheckMailBox_checks doms HandleEntry ps top t _ _ A1 Hlt ltac:(intros; simpl; lia)) as H.
  apply returns_Ok in H as (w1 & H1 & [K1 _ _]).
  pose proof (CheckMailBox_checks doms HandleEntry ps top t _ _ K1 Hlt ltac:(intros; simpl; lia)) as H.
  apply returns_Ok in H as (w2 & H2 & _). exists w2. unfold SyncCDs_enter. by rewrite H1.
Qed.

Lemma leave_returns b s t : Agree b s → t ∈ G → b + 2 * sy_reports s + 2 < INT_MAX →
  ∃ r w', SyncCDs_leave doms HandleEntry t (sy_world s) = Ok (r, w').
Proof.
  intros [A1 _ _ _ _] Ht Hb. pose proof (current_lt t Ht) as Hlt.
  pose proof (CheckMailBox_checks doms HandleEntry ps top t _ _ A1 Hlt ltac:(intros; simpl; lia)) as H.
  apply returns_Ok in H as (w1 & H1 & [K1 _ _]). exists (rollback_word (tk w1 t)), w1.
  unfold SyncCDs_leave, CheckRollbackPoint. rewrite H1. simpl. rewrite task_tk with (ps := ps); [done|by destruct K1|done].
Qed.

(** From a state the tasks of a list can go to the fence, or past it. *)
Lemma all_enter b (l : list nat) s :
  Agree b s → (∀ t, t ∈ l → t ∈ G) → b + 2 * sy_reports s + 2 < INT_MAX →
  ∃ s', rtc step s s' ∧ Agree b s' ∧ sy_reports s' = sy_reports s ∧ (∀ t, t ∈ l → sy_place s' t ≠ Running) ∧
    ∀ t, sy_place s t ≠ Running → sy_place s' t = sy_place s t.
Proof.
  revert s. induction l as [|t l IH]; intros s HA Hl Hb.
  { exists s. split_and!; try done. by intros t ?%elem_of_nil. }
  destruct (IH s HA) as (s1 & H1 & H2 & H3 & H4 & H5); [intros; apply Hl; by right|done|].
  destruct (decide (sy_place s1 t = Running)) as [Hp|Hp].
  - destruct (enter_returns b s1 t H2) as [w' Hw']; [apply Hl; by left|by rewrite H3|].
    assert (step s1 (at_place s1 t AtFence w')) as Hst by (apply step_enter; [apply Hl; by left|done..]).
    exists (at_place s1 t AtFence w'). split_and!.
    + eapply rtc_r; done.
    + eapply Agree_step; [done..|]. simpl. by rewrite H3.
    + done.
    + intros t'. simpl. destruct (decide (t' = t)) as [->|Hn]; [by rewrite fn_lookup_insert|].
      rewrite fn_lookup_insert_ne by done. intros [?|?]%elem_of_cons; [done|by apply H4].
    + intros t' Ht'. simpl. rewrite fn_lookup_insert_ne; [by apply H5|]. intros ->. rewrite H5 in Hp; done.
  - exists s1. split_and!; try done. intros t' [->|Ht']%elem_of_cons; [done|by apply H4].
Qed.

Lemma all_leave b (l : list nat) s :
  Agree b s → (∀ t, t ∈ l → t ∈ G) → (∀ t, t ∈ G → sy_place s t ≠ Running) → b + 2 * sy_reports s + 2 < INT_MAX →
  ∃ s', rtc step s s' ∧ Agree b s' ∧ sy_reports s' = sy_reports s ∧ (∀ t, t ∈ G → sy_place s' t ≠ Running) ∧
    ∀ t, t ∈ l → ∃ r, sy_place s' t = Done r.
Proof.
  revert s. induction l as [|t l IH]; intros s HA Hl Hrun Hb.
  { exists s. split_and!; try done. by intros t ?%elem_of_nil. }
  destruct (IH s HA) as (s1 & H1 & H2 & H3 & H4 & H5); [intros; apply Hl; by right|done..|].
  assert (t ∈ G) as Ht by (apply Hl; by left). destruct (sy_place s1 t) as [| |r] eqn:Hp; [by destruct (H4 t Ht)| |].
  - destruct (leave_returns b s1 t H2 Ht) as (r & w' & Hw'); [by rewrite H3|].
    assert (step s1 (at_place s1 t (Done r) w')) as Hst by (by apply step_leave).
    exists (at_place s1 t (Done r) w'). split_and!.
    + eapply rtc_r; done.
    + eapply Agree_step; [done..|]. simpl. by rewrite H3.
    + done.
    + intros t' Ht'. simpl. destruct (decide (t' = t)) as [->|Hn]; [by rewrite fn_lookup_insert|].
      rewrite fn_lookup_insert_ne by done. by apply H4.
    + intros t'. simpl. destruct (decide (t' = t)) as [->|Hn]; [rewrite fn_lookup_insert; eauto|].
      rewrite fn_lookup_insert_ne by done. intros [?|?]%elem_of_cons; [done|by apply H5].
  - exists s1. split_and!; try done. intros t' [->|Ht']%elem_of_cons; [eauto|by apply H5].
Qed.

Lemma all_done (l : list nat) s :
  (∀ t, t ∈ l → ∃ r, sy_place s t = Done r) ↔ ∃ rs, Forall2 (λ t r, sy_place s t = Done r) l rs.
Proof.
  split.
  - induction l as [|t l IH]; intros Hl; [by exists []|].
    destruct (Hl t) as [r Hr]; [by left|]. destruct IH as [rs Hrs]; [intros; apply Hl; by right|].
    exists (r :: rs). by constructor.
  - intros [rs Hrs] t Ht. apply list_elem_of_lookup_1 in Ht as [i Hi].
    destruct (Forall2_lookup_l _ _ _ _ _ Hrs Hi) as (r & _ & Hr). eauto.
Qed.

End sync.

(** ** Empty mailboxes *)

(** The start: no event, no rollback point, and mailboxes of words that are 0. *)
Definition start (ps : list (list nat)) (boxes : gmap (nat * nat) (list Z)) : World :=
  mkWorld ((λ p, mkTask p 0 INVALID_ROLLBACK_POINT 0 ∅ ∅) <$> ps) boxes.

Definition empty_boxes (doms : nat → Domain) (boxes : gmap (nat * nat) (list Z)) : Prop :=
  ∀ t d, t ∈ d_group (doms d) →
    boxes !! (d, rank doms d t) =
      if decide (1 < task_size doms d)%nat then Some (replicate (words doms t d) 0) else None.

Lemma start_begins doms ps d boxes :
  topology doms ps → empty_boxes doms boxes → begins doms ps d 0 (mkSync (start ps boxes) (λ _, Running) [] 0).
Proof.
  intros Htop Hbx.
  assert (∀ t, ∃ p, tk (start ps boxes) t = mkTask p 0 INVALID_ROLLBACK_POINT 0 ∅ ∅) as Htk.
  { intros t. unfold tk, start. simpl. rewrite list_lookup_fmap. destruct (ps !! t); simpl; eauto. }
  assert (∀ t d, queue (tk (start ps boxes) t) d = []) as Hq by (intros t d'; by destruct (Htk t) as [p ->]).
  assert (∀ t d i z, t ∈ d_group (doms d) → box doms (start ps boxes) t d !! i = Some z → z = 0) as Hz.
  { intros t d' i z Ht. unfold box. simpl. rewrite Hbx by done. case_decide; simpl; [|done].
    rewrite lookup_replicate. tauto. }
  assert (∀ m t d, of_flag m 0 = O → t ∈ d_group (doms d) → slot doms m (start ps boxes) t d = O) as Hs.
  { intros m t d' Hm Ht. unfold slot. rewrite Hq. simpl. rewrite Nat.add_0_r. specialize (Hz t d').
    induction (box doms (start ps boxes) t d') as [|z l IH]; simpl; [done|].
    rewrite (Hz O z), Hm by done. apply IH. intros i z' Ht' Hi. by apply (Hz (S i)). }
  assert (∀ m t, of_flag m 0 = O → held doms ps m (start ps boxes) t = O) as Hh.
  { intros m t Hm. apply (held_empty doms ps Htop). intros d' Hd'. by apply Hs. }
  split; try done; simpl; [|by intros t _; destruct (Htk t) as [p ->]|intros; by apply Hs].
  split.
  - unfold paths_ok, start. simpl. rewrite <-list_fmap_compose. by apply list_fmap_id.
  - intros t d' Ht Hd. split.
    + unfold box. simpl. rewrite Hbx, decide_True by done. simpl. by rewrite length_replicate.
    + intros i z Hi. left. by eapply Hz.
    + intros h. rewrite Hq. by intros ?%elem_of_nil.
    + destruct (Htk t) as [p ->]. set_solver.
  - intros t d' Ht Hd. split; [done|]. unfold box. simpl. rewrite Hbx, decide_False by (done || lia). done.
  - intros t _. by destruct (Htk t) as [p ->].
  - intros t _. rewrite Hh by done. destruct (Htk t) as [p ->]. simpl. lia.
  - intros t _. unfold total. rewrite (sum_list_same _ (λ _, O)); [|intros; by apply Hh].
    assert (∀ l : list nat, sum_list_with (λ _, O) l = O) as -> by (by induction l). destruct (Htk t) as [p ->]. simpl. lia.
  - intros t _. destruct (Htk t) as [p ->]. simpl. unfold INVALID_ROLLBACK_POINT. lia.
Qed.

(** ** Properties *)

(** C3: However the reports of errors, the checks of mailboxes and the entries
    to SyncCDs of the tasks are interleaved, the reduction of SyncCDs gives every
    task of the domain the same rollback point: the least level that a task of
    the domain reported since it began, or none if there was no report. *)
Theorem tasks_agree doms HandleEntry ps d (PMPI_Allreduce : list Z → Z) b s0 s rs :
  topology doms ps → current doms ps d →
  (∀ l, l ≠ [] → PMPI_Allreduce l ∈ l ∧ ∀ x, x ∈ l → PMPI_Allreduce l ≤ x) →
  begins doms ps d b s0 → rtc (step doms HandleEntry ps d) s0 s → b + 2 * sy_reports s + 2 < INT_MAX →
  Forall2 (λ t r, sy_place s t = Done r) (d_group (doms d)) rs →
  PMPI_Allreduce rs = least (sy_reported s).
Proof.
  intros Htop Hcur Hmin Hbeg Hst Hb Hrs.
  pose proof (Agree_reachable doms HandleEntry ps Htop d Hcur b s0 s Hbeg Hst Hb) as HA.
  assert (d_group (doms d) ≠ []) as Hne.
  { destruct Hcur as [Hd _]. unfold task_size in Hd. destruct (d_group (doms d)); simpl in Hd; [lia|done]. }
  assert (∀ t, t ∈ d_group (doms d) → ∃ r, sy_place s t = Done r) as Hall by (apply all_done; eauto).
  destruct (Agree_least doms ps Htop d b s HA Hall Hne) as [Hle (t & Ht & Heq)].
  assert (∀ r, r ∈ rs → ∃ t, t ∈ d_group (doms d) ∧ r = rollback_word (tk (sy_world s) t)) as Hr.
  { intros r [i Hi]%list_elem_of_lookup_1. destruct (Forall2_lookup_r _ _ _ _ _ Hrs Hi) as (t' & Ht' & Hd).
    apply list_elem_of_lookup_2 in Ht'. exists t'. split; [done|]. by eapply ag_result. }
  assert (rs ≠ []) as Hrn by (intros ->; by apply Forall2_nil_inv_r in Hrs).
  destruct (Hmin rs Hrn) as [Hin Hleast]. apply list_elem_of_lookup_1 in Ht as [i Hi].
  destruct (Forall2_lookup_l _ _ _ _ _ Hrs Hi) as (r & Hri & Hd). apply list_elem_of_lookup_2 in Hi, Hri.
  pose proof (ag_result _ _ _ _ _ HA t r Hi Hd) as ->. specialize (Hleast _ Hri).
  destruct (Hr _ Hin) as (t' & Ht' & Hq). specialize (Hle t' Ht'). lia.
Qed.


(** C5: SyncCDs can always end: from every state that the tasks reach, the
    remaining tasks can go to the fence and past it, until all have a result. *)
Theorem SyncCDs_completes doms HandleEntry ps d b s0 s :
  topology doms ps → current doms ps d → begins doms ps d b s0 →
  rtc (step doms HandleEntry ps d) s0 s → b + 2 * sy_reports s + 2 < INT_MAX →
  ∃ s' rs, rtc (step doms HandleEntry ps d) s s' ∧ sy_reports s' = sy_reports s ∧
    Forall2 (λ t r, sy_place s' t = Done r) (d_group (doms d)) rs.
Proof.
  intros Htop Hcur Hbeg Hst Hb.
  pose proof (Agree_reachable doms HandleEntry ps Htop d Hcur b s0 s Hbeg Hst Hb) as HA.
  destruct (all_enter doms HandleEntry ps Htop d Hcur b (d_group (doms d)) s HA) as (s1 & H1 & H2 & H3 & H4 & _); [done..|].
  destruct (all_leave doms HandleEntry ps Htop d Hcur b (d_group (doms d)) s1 H2) as (s2 & K1 & _ & K3 & _ & K5); [done..|by rewrite H3|].
  apply all_done in K5 as [rs Hrs]. exists s2, rs. split_and!; [by etrans|congruence|done].
Qed.

(** A request to execute again a domain above, which the head of that domain
    sends, is taken from the mailbox and forgotten: a task that has no event of
    its current domain keeps its rollback point. *)
Theorem outer_requests_ignored doms HandleEntry ps t b w :
  topology doms ps → Inv doms ps None b w → (t < length ps)%nat → (∀ t', b t' < INT_MAX) →
  slot doms pending w t (cur ps t) = O →
  returns (CheckMailBox doms HandleEntry t w) (λ w',
    rollback_word (tk w' t) = rollback_word (tk w t) ∧ ∀ e, t ∈ d_group (doms e) → slot doms pending w' t e = O).
Proof.
  intros Htop HI Ht Hb Hs. eapply returns_mono; [by apply (CheckMailBox_checks doms HandleEntry ps Htop t b w HI Ht)|].
  intros w' Hc. split; [|by apply Hc].
  by rewrite (checks_word doms ps Htop t b w w' Ht Hc), decide_False by (rewrite Hs; lia).
Qed.

(** The mailbox of a domain is cleared word by word. *)
Lemma clear_box doms ps w t d :
  topology doms ps → paths_ok ps w → t ∈ d_group (doms d) → length (box doms w t d) = words doms t d →
  returns (foldM (λ i w, on_flag d (rank doms d t) i (λ _, 0) w) (seq 0 (words doms t d)) w) (λ w',
    tasks w' = tasks w ∧ ∀ e, t ∈ d_group (doms e) → e ≠ d → box doms w' t e = box doms w t e).
Proof.
  intros Htop Hw Ht Hlen.
  eapply returns_mono; [apply (foldM_inv (λ l1 w', tasks w' = tasks w ∧ length (box doms w' t d) = words doms t d ∧
    ∀ e, t ∈ d_group (doms e) → e ≠ d → box doms w' t e = box doms w t e))|naive_solver].
  - done.
  - intros l1 i l2 w1 Hl (H1 & H2 & H3).
    assert (i < words doms t d)%nat as Hi.
    { assert (i ∈ seq 0 (words doms t d)) as Hin%elem_of_seq by (rewrite Hl; set_solver). lia. }
    destruct (lookup_lt_is_Some_2 (box doms w1 t d) i) as [z Hz]; [lia|].
    rewrite (on_flag_total doms w1 t d i _ z) by done. unfold put. simpl.
    rewrite list_alter_id by done. split_and!; [done| |].
    + unfold box. simpl. rewrite lookup_insert_eq. simpl. by rewrite length_insert.
    + intros e He Hn. rewrite <-(H3 e He Hn). unfold box. simpl. by rewrite lookup_insert_ne by congruence.
Qed.

(** A domain that is used again hides events: InitializeMailBox resets the
    counter of pending events, which all domains of the task share, and
    CheckMailBox then leaves the mailboxes of the other domains unread. *)
Theorem reuse_hides_events doms HandleEntry ps b w t d :
  topology doms ps → Inv doms ps None b w → t ∈ d_group (doms d) → (1 < task_size doms d)%nat →
  (∀ e, t ∈ d_group (doms e) → queue (tk w t) e = []) →
  returns (InitializeMailBox doms t d w) (λ w',
    (∀ e, t ∈ d_group (doms e) → e ≠ d → box doms w' t e = box doms w t e) ∧
    CheckMailBox doms HandleEntry t w' = Ok w').
Proof.
  intros Htop HI Ht Hd Hq. pose proof (in_group_lt _ _ Htop _ _ Ht) as Hlt. pose proof (iv_paths _ _ _ _ _ HI) as Hw.
  pose proof (sh_len _ _ _ _ _ (iv_shape _ _ _ _ _ HI t d Ht Hd)) as Hlen.
  destruct (iv_handled _ _ _ _ _ HI t Hlt) as [_ Hh]. specialize (Hh ltac:(done)).
  unfold InitializeMailBox. set (w1 := on_task t _ w). unfold is_window_reused_. rewrite not_single by done.
  assert (paths_ok ps w1) as Hw1 by (by apply paths_on_task).
  assert (tk w1 t = with_word INVALID_ROLLBACK_POINT (with_pending 0 (tk w t))) as Htk1 by (unfold w1; by rewrite (tk_on_task ps), decide_True).
  eapply (returns_mono _ (λ w', tasks w' = tasks w1 ∧ ∀ e, t ∈ d_group (doms e) → e ≠ d → box doms w' t e = box doms w1 t e)).
  - rewrite (task_in_color_rank doms d t Ht), ret_bind, (IsHead_rank doms d t Ht), ret_bind.
    pose proof (clear_box doms ps w1 t d Htop Hw1 Ht Hlen) as Hc. unfold words in Hc.
    case_bool_decide as Hr; [by rewrite decide_True in Hc by done|]. rewrite decide_False in Hc by done. simpl in Hc.
    by destruct (on_flag d (rank doms d t) 0 (λ _, 0) w1).
  - intros w2 [Htasks Hbox]. split; [done|].
    assert (tk w2 t = tk w1 t) as Htk by (unfold tk; by rewrite Htasks).
    assert (paths_ok ps w2) as Hw2 by (unfold paths_ok; by rewrite Htasks).
    unfold CheckMailBox. rewrite (task_tk ps), ret_bind by done. rewrite Htk, Htk1. simpl. rewrite Hh. simpl.
    rewrite <-Htk1, <-Htk, (GetCurrentCD_cur doms ps Htop) by done. simpl.
    replace (tot_events _ _) with O; [done|]. symmetry. unfold tot_events.
    rewrite (sum_list_same _ (λ _, O)); [by induction (coarse _ _)|].
    intros e He%(proj1 (coarse_spec doms _ _)). apply (upwards_cur doms ps Htop) in He; [|done..].
    rewrite Htk, Htk1. change (length (queue (tk w t) e) = 0%nat). by rewrite Hq.
Qed.

(** ** Examples *)

(** A root of three tasks, and a domain of two of them below it. *)
Definition example_doms (d : nat) : Domain :=
  match d with 0%nat => mkDomain 0 [0; 1; 2]%nat 0 | 1%nat => mkDomain 1 [1; 2]%nat 0 | _ => mkDomain 2 [] 0 end.
Definition example_paths : list (list nat) := [[0]; [0; 1]; [0; 1]]%nat.
Definition example_boxes : gmap (nat * nat) (list Z) :=
  {[ (0, 0)%nat := [0; 0; 0]; (0, 1)%nat := [0]; (0, 2)%nat := [0]; (1, 0)%nat := [0; 0]; (1, 1)%nat := [0] ]}.
Definition no_entries (h : Handler) (d t : nat) (w : World) : res World := Err AssertFail.

Lemma example_topology : topology example_doms example_paths.
Proof.
  split.
  - intros [|[|[|t]]] p; simpl; intros [= <-]; done.
  - intros [|[|[|t]]] p [|[|i]] d; simpl; intros [= <-] [= <-]; done.
  - intros [|[|[|t]]] p; simpl; intros [= <-]; done.
  - intros t [|[|d]]; simpl; (split; [intros Ht|intros (p & Hp & Hd)]).
    + apply elem_of_cons in Ht as [->|Ht]; [exists [0%nat]; split; [done|set_solver]|].
      apply elem_of_cons in Ht as [->|Ht]; [exists [0%nat; 1%nat]; split; [done|set_solver]|].
      apply list_elem_of_singleton in Ht as ->. exists [0%nat; 1%nat]. split; [done|set_solver].
    + destruct t as [|[|[|t]]]; simpl in Hp; simplify_eq; set_solver.
    + apply elem_of_cons in Ht as [->|Ht]; [exists [0%nat; 1%nat]; split; [done|set_solver]|].
      apply list_elem_of_singleton in Ht as ->. exists [0%nat; 1%nat]. split; [done|set_solver].
    + destruct t as [|[|[|t]]]; simpl in Hp; simplify_eq; set_solver.
    + by apply elem_of_nil in Ht.
    + destruct t as [|[|[|t]]]; simpl in Hp; simplify_eq; set_solver.
  - intros [|[|d]]; simpl; apply (bool_decide_unpack _); by vm_compute.
  - intros [|[|d]] t; simpl; [lia|lia|by intros ?%elem_of_nil].
Qed.

Lemma example_empty : empty_boxes example_doms example_boxes.
Proof.
  intros t [|[|d]]; simpl; [| |by intros ?%elem_of_nil].
  - rewrite !elem_of_cons. intros [->|[->|[->|?%elem_of_nil]]]; done.
  - rewrite !elem_of_cons. intros [->|[->|?%elem_of_nil]]; done.
Qed.

(** Task 1, the head of the domain 1, enters SyncCDs; task 2 reports an error,
    enters and leaves before the head has handled the report; then the head
    leaves. *)
#[local] Abbreviation xstart := (start example_paths example_boxes).
#[local] Abbreviation xget := (get xstart).
Definition run_1 : World := xget (SyncCDs_enter example_doms no_entries 1 xstart).
Definition run_2 : World := xget (Assert example_doms no_entries 2 1 false run_1).
Definition run_3 : World := xget (SyncCDs_enter example_doms no_entries 2 run_2).
Definition run_4 : World := snd (get (0, xstart) (SyncCDs_leave example_doms no_entries 2 run_3)).
Definition run_5 : World := snd (get (0, xstart) (SyncCDs_leave example_doms no_entries 1 run_4)).

Definition at_start : Sync := mkSync xstart (λ _, Running) [] 0.
Definition xreport : Sync := mkSync run_2 (<[1%nat := AtFence]> (λ _, Running)) [1] 1.
Definition at_end : Sync :=
  at_place (at_place (at_place xreport 2 AtFence run_3) 2 (Done INVALID_ROLLBACK_POINT) run_4) 1 (Done 1) run_5.

Lemma example_current : current example_doms example_paths 1.
Proof. split; [unfold task_size; simpl; lia|]. intros t. simpl. rewrite !elem_of_cons. intros [->|[->|?%elem_of_nil]]; done. Qed.

Lemma at_start_begins d : begins example_doms example_paths d 0 at_start.
Proof. apply start_begins; [apply example_topology|apply example_empty]. Qed.

Lemma reaches_report : rtc (step example_doms no_entries example_paths 1) at_start xreport.
Proof.
  eapply rtc_l; [apply (step_enter _ _ _ _ at_start 1 run_1); [simpl; set_solver|done|by vm_compute]|].
  eapply rtc_l; [apply (step_assert _ _ _ _ (at_place at_start 1 AtFence run_1) 2 1 false run_2);
    [right; done|simpl; set_solver|by vm_compute]|].
  apply rtc_refl.
Qed.

Lemma reaches_end : rtc (step example_doms no_entries example_paths 1) at_start at_end.
Proof.
  etrans; [apply reaches_report|].
  eapply rtc_l; [apply (step_enter _ _ _ _ xreport 2 run_3); [simpl; set_solver|done|by vm_compute]|].
  eapply rtc_l; [apply (step_leave _ _ _ _ _ 2 INVALID_ROLLBACK_POINT run_4); [simpl; set_solver|done| |by vm_compute]|].
  { intros t. simpl. rewrite !elem_of_cons. intros [->|[->|?%elem_of_nil]]; done. }
  eapply rtc_l; [apply (step_leave _ _ _ _ _ 1 1 run_5); [simpl; set_solver|done| |by vm_compute]|apply rtc_refl].
  intros t. simpl. rewrite !elem_of_cons. intros [->|[->|?%elem_of_nil]]; done.
Qed.

(** MPI_MIN of a list that is not empty. *)
Definition mpi_min (l : list Z) : Z := match l with [] => 0 | x :: l => foldr Z.min x l end.

Lemma mpi_min_spec l : l ≠ [] → mpi_min l ∈ l ∧ ∀ x, x ∈ l → mpi_min l ≤ x.
Proof.
  destruct l as [|a l]; [done|]. intros _. simpl. induction l as [|y l [IH1 IH2]]; simpl.
  - split; [by left|]. intros x ->%list_elem_of_singleton. lia.
  - split.
    + destruct (Z.min_spec y (foldr Z.min a l)) as [[_ ->]|[_ ->]]; set_solver.
    + intros x [->|[->|Hx]%elem_of_cons]%elem_of_cons; [|lia|].
      * specialize (IH2 a ltac:(by left)). lia.
      * specialize (IH2 x ltac:(by right)). lia.
Qed.

Lemma tasks_agree_witness : mpi_min [1; INVALID_ROLLBACK_POINT] = least [1].
Proof.
  apply (tasks_agree example_doms no_entries example_paths 1 mpi_min 0 at_start at_end).
  - apply example_topology.
  - apply example_current.
  - apply mpi_min_spec.
  - apply at_start_begins.
  - apply reaches_end.
  - by vm_compute.
  - repeat constructor.
Defined.


Lemma SyncCDs_completes_witness :
  ∃ s' rs, rtc (step example_doms no_entries example_paths 1) xreport s' ∧ sy_reports s' = 1 ∧
    Forall2 (λ t r, sy_place s' t = Done r) [1; 2]%nat rs.
Proof.
  apply (SyncCDs_completes example_doms no_entries example_paths 1 0 at_start xreport).
  - apply example_topology.
  - apply example_current.
  - apply at_start_begins.
  - apply reaches_report.
  - by vm_compute.
Defined.

(** Task 2 reports an error of the root, whose head sends a request to task 1;
    both tasks are in the domain 1. *)
Definition outer_1 : World := xget (Assert example_doms no_entries 2 0 false xstart).
Definition outer_2 : World := xget (CheckMailBox example_doms no_entries 0 outer_1).

Lemma outer_Inv : Inv example_doms example_paths None (λ _, 2) outer_2.
Proof.
  set (s := mkSync outer_2 (λ _, Running) [0] 1).
  apply (ag_inv example_doms example_paths 1 0 s).
  apply (Agree_reachable example_doms no_entries example_paths example_topology 1 example_current 0 at_start); [apply at_start_begins| |by vm_compute].
  eapply rtc_l; [apply (step_assert _ _ _ _ at_start 2 0 false outer_1); [right; done|simpl; set_solver|by vm_compute]|].
  eapply rtc_l; [|apply rtc_refl].
  apply (step_check _ _ _ _ (report example_doms 1 at_start 2 0 false outer_1) 0 outer_2); [right; done|simpl; lia|by vm_compute].
Qed.

Lemma outer_requests_ignored_witness :
  slot example_doms pending outer_2 1 0 = 1%nat ∧
  returns (CheckMailBox example_doms no_entries 1 outer_2) (λ w',
    rollback_word (tk w' 1) = rollback_word (tk outer_2 1) ∧
    ∀ e, 1%nat ∈ d_group (example_doms e) → slot example_doms pending w' 1 e = O).
Proof.
  split; [by vm_compute|].
  apply (outer_requests_ignored example_doms no_entries example_paths 1 (λ _, 2) outer_2).
  - apply example_topology.
  - apply outer_Inv.
  - simpl. lia.
  - intros t'. by vm_compute.
  - by vm_compute.
Defined.

Lemma reuse_hides_events_witness :
  returns (InitializeMailBox example_doms 1 1 outer_2) (λ w',
    (∀ e, 1%nat ∈ d_group (example_doms e) → e ≠ 1%nat → box example_doms w' 1 e = box example_doms outer_2 1 e) ∧
    CheckMailBox example_doms no_entries 1 w' = Ok w') ∧ box example_doms outer_2 1 0 = [kAllReexecute].
Proof.
  split; [|by vm_compute].
  apply (reuse_hides_events example_doms no_entries example_paths (λ _, 2) outer_2 1 1).
  - apply example_topology.
  - apply outer_Inv.
  - simpl. set_solver.
  - unfold task_size. simpl. lia.
  - intros [|[|e]] He; [by vm_compute..|]. by apply elem_of_nil in He.
Defined.
