(* ===== verification/Float64.v ===== *)
(** * Float64: the [double] arithmetic of the C code

    [real_t] is [double] (mytype.h, built without SINGLE). A double is a value
    of the Standard Library's executable IEEE-754 specification at precision 53
    and maximal exponent 1024, so every operation below rounds exactly as the
    C operation does (round to nearest, ties to even), NaN payloads apart. The
    file also has the conversions between [int] and [double], [floor], [ceil],
    decimal literals, and the order lemmas the components use. *)

From Stdlib Require Import ZArith Lia SpecFloat.
From stdpp Require Import base list numbers sets.
From S2P Require Import Prelude.

Definition real_t : Type := spec_float.
Abbreviation real3 := (vec3 real_t).

#[export] Instance real_t_eq_dec : EqDecision real_t.
Proof.
  unfold real_t, EqDecision, Decision. decide equality;
    first [apply Bool.bool_dec | apply Z.eq_dec | apply Pos.eq_dec].
Defined.
#[export] Instance real_t_inhabited : Inhabited real_t := populate (S754_zero false).

Declare Scope real_scope.
Delimit Scope real_scope with R.
Bind Scope real_scope with real_t.

Definition fadd : real_t → real_t → real_t := SFadd 53 1024.
Definition fsub : real_t → real_t → real_t := SFsub 53 1024.
Definition fmul : real_t → real_t → real_t := SFmul 53 1024.
Definition fdiv : real_t → real_t → real_t := SFdiv 53 1024.
Definition fsqrt : real_t → real_t := SFsqrt 53 1024.
Definition fopp : real_t → real_t := SFopp.
Definition fabs : real_t → real_t := SFabs.
Definition fltb : real_t → real_t → bool := SFltb.
Definition fleb : real_t → real_t → bool := SFleb.
Definition feqb : real_t → real_t → bool := SFeqb.

Notation "x + y" := (fadd x y) : real_scope.
Notation "x - y" := (fsub x y) : real_scope.
Notation "x * y" := (fmul x y) : real_scope.
Notation "x / y" := (fdiv x y) : real_scope.
Notation "- x" := (fopp x) : real_scope.
Notation "x <? y" := (fltb x y) : real_scope.
Notation "x <=? y" := (fleb x y) : real_scope.
Notation "x =? y" := (feqb x y) : real_scope.

(** [(double) z]. *)
Definition f64 (z : Z) : real_t := binary_normalize 53 1024 z 0 false.

(** The literal [n / d], correctly rounded. *)
Definition flit (n d : Z) : real_t :=
  match n with
  | Zpos _ =>
      let '(mz, ez, lz) := SFdiv_core_binary 53 1024 n 0 d 0 in
      binary_round_aux 53 1024 false mz ez lz
  | _ => S754_zero false
  end.

Definition fzero : real_t := S754_zero false.
Definition fone : real_t := f64 1.
Definition ftwo : real_t := f64 2.
Definition fhalf : real_t := flit 1 2.
Definition zero3 : real3 := V3 fzero fzero fzero.

(** The integer below a finite double. *)
Definition floorZ (x : real_t) : option Z :=
  match x with
  | S754_zero _ => Some 0
  | S754_finite s m e =>
      Some (if 0 <=? e then cond_Zopp s (Zpos m) * 2 ^ e
            else cond_Zopp s (Zpos m) / 2 ^ (- e))
  | _ => None
  end.

Definition ceilZ (x : real_t) : option Z := Z.opp <$> floorZ (fopp x).

(** Truncation towards zero. *)
Definition truncZ (x : real_t) : option Z :=
  match x with
  | S754_zero _ => Some 0
  | S754_finite s m e =>
      Some (if 0 <=? e then cond_Zopp s (Zpos m) * 2 ^ e
            else Z.quot (cond_Zopp s (Zpos m)) (2 ^ (- e)))
  | _ => None
  end.

(** [(int) x]: outside the range of [int] (or for a NaN) the conversion is
    undefined. *)
Definition int_of_optZ (o : option Z) : res Z :=
  match o with Some z => int32 z | None => Err IntOverflow end.
Definition int_of_f64 (x : real_t) : res Z := int_of_optZ (truncZ x).

(** [(int) floor(x)] and [(int) ceil(x)]: [floor] and [ceil] are exact. *)
Definition int_floor (x : real_t) : res Z := int_of_optZ (floorZ x).
Definition int_ceil (x : real_t) : res Z := int_of_optZ (ceilZ x).

(** [floor(x)] as a double. *)
Definition ffloor (x : real_t) : real_t :=
  match x with
  | S754_finite s m e =>
      if 0 <=? e then x
      else binary_normalize 53 1024 (cond_Zopp s (Zpos m) / 2 ^ (- e)) 0 s
  | _ => x
  end.

(** ** Order *)

(** A double that is not a NaN, as a key of a lexicographic order. *)
Definition fkey (x : real_t) : option (Z * Z * Z) :=
  match x with
  | S754_nan => None
  | S754_zero _ => Some (0, 0, 0)
  | S754_infinity s => Some (if s then -2 else 2, 0, 0)
  | S754_finite s m e =>
      Some (if s then (-1, - e, Zneg m) else (1, e, Zpos m))
  end.

Definition key_lt (k1 k2 : Z * Z * Z) : Prop :=
  let '(a1, b1, c1) := k1 in
  let '(a2, b2, c2) := k2 in
  a1 < a2 ∨ (a1 = a2 ∧ (b1 < b2 ∨ (b1 = b2 ∧ c1 < c2))).

Lemma pos_cmp m1 m2 : Pos.compare_cont Eq m1 m2 = Z.compare (Zpos m1) (Zpos m2).
Proof. done. Qed.

Lemma fltb_key x y :
  fltb x y = true ↔ ∃ k1 k2, fkey x = Some k1 ∧ fkey y = Some k2 ∧ key_lt k1 k2.
Proof.
  unfold fltb, SFltb, SFcompare, key_lt.
  destruct x as [sx|[]| |[] mx ex], y as [sy|[]| |[] my ey]; simpl;
    rewrite ?pos_cmp;
    try (destruct (Z.compare_spec ex ey));
    try (destruct (Z.compare_spec (Zpos mx) (Zpos my))); simpl;
    (split; [first [done|intros; do 2 eexists; split; [done|]; split; [done|]; simpl; lia]|
             intros ([[??]?]&[[??]?]&?&?&?); simplify_eq/=; first [done|lia]]).
Qed.

Lemma fltb_trans x y z : fltb x y = true → fltb y z = true → fltb x z = true.
Proof.
  rewrite !fltb_key. intros (k1&k2&?&?&H1) (k2'&k3&?&?&H2); simplify_eq.
  exists k1, k3. split_and!; [done..|].
  destruct k1 as [[??]?], k2 as [[??]?], k3 as [[??]?]; simpl in *. lia.
Qed.

Lemma fltb_asym x y : fltb x y = true → fltb y x = false.
Proof.
  intros Hxy. destruct (fltb y x) eqn:Hyx; [|done].
  rewrite fltb_key in Hxy, Hyx.
  destruct Hxy as (k1&k2&?&?&H1), Hyx as (k1'&k2'&?&?&H2); simplify_eq.
  destruct k1 as [[??]?], k2 as [[??]?]; simpl in *. lia.
Qed.

Lemma fltb_irrefl x : fltb x x = false.
Proof. destruct (fltb x x) eqn:H; [|done]. by rewrite (fltb_asym _ _ H) in H. Qed.

(** [x] is a number (not a NaN). *)
Definition is_num (x : real_t) : bool := match x with S754_nan => false | _ => true end.

(** On numbers, [<] is total up to the two zeros: incomparable numbers compare
    alike with every third one. *)
Lemma fltb_num_trans x y z :
  is_num x = true → is_num y = true →
  fltb x y = false → fltb x z = true → fltb y z = true.
Proof.
  intros Hx Hy Hxy Hxz. apply fltb_key. apply fltb_key in Hxz as (k1&k3&Hk1&Hk3&Hlt).
  destruct (fkey y) as [k2|] eqn:Hk2; [|by destruct y].
  exists k2, k3. split_and!; [done..|].
  assert (¬ key_lt k1 k2) as Hn.
  { intros H. assert (fltb x y = true) by (apply fltb_key; eauto). congruence. }
  destruct k1 as [[??]?], k2 as [[??]?], k3 as [[??]?]; simpl in *. lia.
Qed.

(** ** Conversions *)

Lemma int_of_optZ_Ok o z :
  int_of_optZ o = Ok z ↔ o = Some z ∧ INT_MIN ≤ z ≤ INT_MAX.
Proof.
  destruct o as [z'|]; simpl; [|naive_solver].
  split; [intros [-> ?]%int32_inv; done|].
  intros [[= ->] ?]. by apply int32_Ok.
Qed.
