(* ===== verification/ErrorInjector.v ===== *)
(** * Error injection (error_injector.h, error_injector.cc)

    The injectors that make the runtime report errors.  [SystemErrorInjector]
    draws a number for every type of failure of the configuration and compares
    it with the probability to survive the time since the last draw;
    [CDErrorInjector] reports the errors a test asks for.  Numbers are those of
    drand48, as POSIX defines it; the exponential function of long doubles is a
    parameter.  Output, the injectors of memory and node failures, whose
    methods are empty, and the tables of TestErrorProb are left out. *)

From Stdlib Require Import ZArith Lia List SpecFloat.
From stdpp Require Import base gmap list numbers.
From S2P Require Import Prelude Float64.

#[local] Open Scope Z_scope.

(** ** Random numbers

    srand48 and drand48 of the C library: 48 bits, and a fraction of them. *)
Definition srand48 (seedval : Z) : Z := u32 seedval * 2 ^ 16 + 13070.
Definition drand48_next (x : Z) : Z := (25214903917 * x + 11) mod 2 ^ 48.
Definition drand48 (x : Z) : real_t * Z :=
  let x := drand48_next x in (binary_normalize 53 1024 x (-48) false, x).

(** Long doubles have 64 bits of precision; every double and float is one. *)
Definition longdouble (x : spec_float) : spec_float :=
  match x with S754_finite s m e => binary_normalize 64 16384 (cond_Zopp s (Zpos m)) e s | _ => x end.
Definition ldmul : spec_float → spec_float → spec_float := SFmul 64 16384.
Definition ldone : spec_float := binary_normalize 64 16384 1 0 false.

(** [UniformRandom::GenErrorVal]. *)
Definition GenErrorVal (x : Z) : spec_float * Z := let '(d, x) := drand48 x in (longdouble d, x).

(** [InjectError]. *)
Definition InjectError (survival_prob : spec_float) (x : Z) : Z * Z :=
  let '(rand_var, x) := GenErrorVal x in (if SFltb survival_prob rand_var then 1 else 0, x).

(** The numbers are drawn without rounding: they are below one, and zero is
    drawn only for the state 0. *)
Lemma digits_shift m : ∀ d, digits2_pos (Pos.iter xO m d) = (d + digits2_pos m)%positive.
Proof.
  intros d.
  induction d using Pos.peano_ind; [simpl; lia|].
  rewrite Pos.iter_succ. simpl. rewrite IHd. lia.
Qed.

(** Integers shorter than the precision are represented exactly. *)
Lemma normalize_exact prec emax m e d :
  Z.pos (digits2_pos m) + Z.pos d = prec → e - Z.pos d <=? emax - prec = true →
  emin prec emax <= e - Zpos d ->
  binary_normalize prec emax (Zpos m) e false = S754_finite false (Pos.iter xO m d) (e - Zpos d).
Proof.
  intros Hd He Hm. unfold binary_normalize, binary_round.
  assert (fexp prec emax (Z.pos (digits2_pos m) + e) = e - Z.pos d) as -> by (unfold fexp; lia).
  unfold shl_align. replace (e - Z.pos d - e) with (Z.neg d) by lia.
  unfold binary_round_aux, shr_fexp. cbn [Zdigits2]. rewrite digits_shift.
  assert (fexp prec emax (Z.pos (d + digits2_pos m) + (e - Z.pos d)) - (e - Z.pos d) = 0) as H by (unfold fexp; lia).
  rewrite H. cbn [shr shr_record_of_loc shr_m loc_of_shr_record round_nearest_even Zdigits2]. rewrite digits_shift, H.
  cbn [shr shr_record_of_loc shr_m]. by rewrite He.
Qed.

Lemma digits_bound m k : Z.pos m < 2 ^ k → 0 ≤ k → Z.pos (digits2_pos m) ≤ k.
Proof.
  revert k. induction m as [m IH|m IH|]; intros k Hm Hk; simpl.
  - assert (Z.pos m < 2 ^ (k - 1)) as H. { assert (k ≠ 0) by (intros ->; lia). replace (2 ^ k) with (2 * 2 ^ (k - 1)) in Hm by (rewrite <-Z.pow_succ_r by lia; f_equal; lia). lia. }
    destruct (Z_lt_le_dec (k - 1) 0); [rewrite Z.pow_neg_r in H by lia; lia|]. specialize (IH _ H). lia.
  - assert (Z.pos m < 2 ^ (k - 1)) as H. { assert (k ≠ 0) by (intros ->; lia). replace (2 ^ k) with (2 * 2 ^ (k - 1)) in Hm by (rewrite <-Z.pow_succ_r by lia; f_equal; lia). lia. }
    destruct (Z_lt_le_dec (k - 1) 0); [rewrite Z.pow_neg_r in H by lia; lia|]. specialize (IH _ H). lia.
  - destruct (Z.eq_dec k 0) as [->|]; [done|lia].
Qed.

Lemma drand48_next_range x : 0 ≤ drand48_next x < 2 ^ 48.
Proof. apply Z.mod_pos_bound. lia. Qed.

Lemma GenErrorVal_pos x p :
  drand48_next x = Z.pos p → ∃ m e, (GenErrorVal x).1 = S754_finite false m e ∧ e ≤ -64.
Proof.
  intros Hp. pose proof (drand48_next_range x) as Hr. rewrite Hp in Hr.
  pose proof (digits_bound p 48) as Hd. specialize (Hd ltac:(lia) ltac:(lia)).
  unfold GenErrorVal, drand48. rewrite Hp. cbn [fst].
  destruct (Z.pos_sub 53 (digits2_pos p)) as [|d|d] eqn:Hs; rewrite <-Pos2Z.add_pos_neg in Hs; [lia| |lia].
  rewrite (normalize_exact 53 1024 p (-48) d) by (unfold emin; first [lia|apply Z.leb_le; lia]).
  unfold longdouble, cond_Zopp.
  rewrite (normalize_exact 64 16384 _ _ 11) by (rewrite ?digits_shift; unfold emin; first [lia|apply Z.leb_le; lia]).
  eexists _, _. split; [done|]. lia.
Qed.

Lemma GenErrorVal_zero x : drand48_next x = 0 → (GenErrorVal x).1 = S754_zero false.
Proof. intros H. unfold GenErrorVal, drand48. by rewrite H. Qed.

Lemma below_one x : SFltb ldone (GenErrorVal x).1 = false.
Proof.
  pose proof (drand48_next_range x) as Hr. destruct (drand48_next x) as [|p|p] eqn:Hp; [|..|lia].
  - by rewrite GenErrorVal_zero.
  - destruct (GenErrorVal_pos x p Hp) as (m & e & -> & He).
    change ldone with (S754_finite false 9223372036854775808 (-63)). unfold SFltb, SFcompare.
    by rewrite (proj2 (Z.compare_gt_iff (-63) e)) by lia.
Qed.

Lemma above_zero s x : SFltb (S754_zero s) (GenErrorVal x).1 = negb (drand48_next x =? 0).
Proof.
  pose proof (drand48_next_range x) as Hr. destruct (drand48_next x) as [|p|p] eqn:Hp; [|..|lia].
  - by rewrite GenErrorVal_zero.
  - by destruct (GenErrorVal_pos x p Hp) as (m & e & -> & He).
Qed.

(** ** The injector of a domain *)

(** [CDErrorInjector]; the rank and the task have no value before they are
    registered, when the constructor does not set them. *)
Record CDErrorInjector := mkInjector {
  enabled_ : bool;
  error_rate_ : real_t;
  cd_to_fail_ : list Z;
  task_to_fail_ : list Z;
  rank_in_level_ : option Z;
  task_in_color_ : option Z;
  force_to_fail_ : bool;
}.

(** The constructors: without arguments, for a rate, for lists, and for lists
    with the target; those for one domain and one task make lists of them. *)
Definition Injector_default : CDErrorInjector := mkInjector false fzero [] [] None None false.
Definition Injector_rate (error_rate : real_t) : CDErrorInjector :=
  mkInjector true error_rate [] [] None None false.
Definition Injector_lists (cds tasks : list Z) (error_rate : real_t) : CDErrorInjector :=
  mkInjector true error_rate cds tasks None None true.
Definition Injector_target (cds tasks : list Z) (rank task : Z) (error_rate : real_t) : CDErrorInjector :=
  mkInjector false error_rate cds tasks (Some rank) (Some task) true.

Definition Enable (e : CDErrorInjector) : CDErrorInjector :=
  mkInjector true (error_rate_ e) (cd_to_fail_ e) (task_to_fail_ e) (rank_in_level_ e) (task_in_color_ e) (force_to_fail_ e).
Definition Disable (e : CDErrorInjector) : CDErrorInjector :=
  mkInjector false (error_rate_ e) (cd_to_fail_ e) (task_to_fail_ e) (rank_in_level_ e) (task_in_color_ e) (force_to_fail_ e).
Definition RegisterTarget (rank task : Z) (e : CDErrorInjector) : CDErrorInjector :=
  mkInjector (enabled_ e) (error_rate_ e) (cd_to_fail_ e) (task_to_fail_ e) (Some rank) (Some task) (force_to_fail_ e).

(** The search of a list for the target; reading a target without a value is
    undefined. *)
Definition listed (l : list Z) (target : option Z) : res bool :=
  match l, target with
  | [], _ => Ok false
  | _, Some z => Ok (bool_decide (z ∈ l))
  | _, None => Err OutOfBounds
  end.

(** [CDErrorInjector::Inject]. *)
Definition CDErrorInjector_Inject (e : CDErrorInjector) (x : Z) : res (Z * CDErrorInjector * Z) :=
  if negb (enabled_ e) then Ok (0, e, x)
  else if force_to_fail_ e then
    cd ← listed (cd_to_fail_ e) (rank_in_level_ e);
    if cd : bool then Ok (1, e, x) else
    task ← listed (task_to_fail_ e) (task_in_color_ e);
    Ok (if task : bool then 1 else 0, e, x)
  else
    let '(rand_var, x) := GenErrorVal x in
    Ok (if SFltb (longdouble (error_rate_ e)) rand_var then 1 else 0, Disable e, x).

(** ** The injector of the system *)

(** The part of [SystemConfig] that the injector uses: rates in the order of
    the types, and counts of errors. *)
Record SystemConfig := mkConfig { failure_rate_ : list (Z * spec_float); error_count_ : gmap Z Z }.
Record SystemErrorInjector := mkSystem { sc_ : SystemConfig; prev_clk_ : real_t }.

Section system.
(** The exponential function of long doubles. *)
Variable expl : spec_float → spec_float.

(** [GetErrorProb]. *)
Definition GetErrorProb (error_rate unit_time : spec_float) : spec_float :=
  expl (ldmul (ldmul (SFopp ldone) (longdouble error_rate)) (longdouble unit_time)).

(** The body of the loop of [SystemErrorInjector::Inject]. *)
Definition inject_type (period : real_t) (st : Z * gmap Z Z * Z) (f : Z * spec_float) : Z * gmap Z Z * Z :=
  let '(error_vec, count, x) := st in
  let '(error, x) := InjectError (GetErrorProb f.2 period) x in
  if error =? 0 then (error_vec, count, x)
  else (Z.lor error_vec (u64 f.1), <[f.1 := u32 (default 0 (count !! f.1) + 1)]> count, x).

(** [SystemErrorInjector::Inject], from the last type to the first. *)
Definition SystemErrorInjector_Inject (curr_clk : real_t) (i : SystemErrorInjector) (x : Z) :
    Z * SystemErrorInjector * Z :=
  let period := fsub curr_clk (prev_clk_ i) in
  let '(error_vec, count, x) :=
    foldl (inject_type period) (0, error_count_ (sc_ i), x) (rev (failure_rate_ (sc_ i))) in
  (error_vec, mkSystem (mkConfig (failure_rate_ (sc_ i)) count) curr_clk, x).

(** ** Which errors are injected *)

(** The number drawn for the [k]-th type, and whether it is above the survival
    probability of the type. *)
Definition drawn (x : Z) (k : nat) : spec_float := (GenErrorVal (Nat.iter k drand48_next x)).1.
Definition occurs (period : real_t) (x : Z) (k : nat) (f : Z * spec_float) : bool :=
  SFltb (GetErrorProb f.2 period) (drawn x k).

Lemma InjectError_drawn p x k :
  InjectError p (Nat.iter k drand48_next x) = (if SFltb p (drawn x k) then 1 else 0, Nat.iter (S k) drand48_next x).
Proof. reflexivity. Qed.

(** The bits of a vector that types [fs] can set. *)
Definition type_bit (period : real_t) (x : Z) (k : nat) (fs : list (Z * spec_float)) (b : Z) : Prop :=
  ∃ j f, fs !! j = Some f ∧ occurs period x (k + j) f = true ∧ Z.testbit (u64 f.1) b = true.

Lemma type_bit_cons period x k f fs b :
  type_bit period x k (f :: fs) b ↔
  (occurs period x k f = true ∧ Z.testbit (u64 f.1) b = true) ∨ type_bit period x (S k) fs b.
Proof.
  unfold type_bit. split.
  - intros ([|j] & f' & Hj & Ho & Hb).
    + injection Hj as <-. rewrite Nat.add_0_r in Ho. by left.
    + right. exists j, f'. by replace (S k + j)%nat with (k + S j)%nat by lia.
  - intros [[Ho Hb]|(j & f' & Hj & Ho & Hb)].
    + exists O, f. by rewrite Nat.add_0_r.
    + exists (S j), f'. by replace (k + S j)%nat with (S k + j)%nat by lia.
Qed.

(** How often a type of failure occurs. *)
Fixpoint occurrences (period : real_t) (x : Z) (k : nat) (fs : list (Z * spec_float)) (ty : Z) : Z :=
  match fs with
  | [] => 0
  | f :: fs => (if occurs period x k f && (f.1 =? ty) then 1 else 0) + occurrences period x (S k) fs ty
  end.

Lemma occurrences_nonneg period x k fs ty : 0 ≤ occurrences period x k fs ty.
Proof. revert k. induction fs as [|f fs IH]; intros k; simpl; [done|]. specialize (IH (S k)). destruct (_ && _); lia. Qed.

Lemma inject_types period x fs : ∀ k vec count vec' count' x',
  foldl (inject_type period) (vec, count, Nat.iter k drand48_next x) fs = (vec', count', x') →
  x' = Nat.iter (k + length fs) drand48_next x ∧
  (∀ b, 0 ≤ b → Z.testbit vec' b = true ↔ Z.testbit vec b = true ∨ type_bit period x k fs b) ∧
  (∀ ty, 0 ≤ default 0 (count !! ty) →
     default 0 (count !! ty) + occurrences period x k fs ty < 2 ^ 32 →
     default 0 (count' !! ty) = default 0 (count !! ty) + occurrences period x k fs ty).
Proof.
  induction fs as [|f fs IH]; intros k vec count vec' count' x'; cbn [foldl].
  - intros [= <- <- <-]. rewrite Nat.add_0_r. split; [done|]. split; [|simpl; intros; lia].
    intros b Hb. split; [by left|]. intros [?|(j & f & Hj & _)]; done.
  - change (inject_type period (vec, count, Nat.iter k drand48_next x) f) with (let '(error, x) := InjectError (GetErrorProb f.2 period) (Nat.iter k drand48_next x) in if error =? 0 then (vec, count, x) else (Z.lor vec (u64 f.1), <[f.1 := u32 (default 0 (count !! f.1) + 1)]> count, x)). rewrite InjectError_drawn. fold (occurs period x k f).
    assert (∀ b, Z.testbit vec b = true ∨ type_bit period x k (f :: fs) b ↔
      (Z.testbit vec b = true ∨ (occurs period x k f = true ∧ Z.testbit (u64 f.1) b = true)) ∨
      type_bit period x (S k) fs b) as Hbits by (intros b; rewrite type_bit_cons; tauto).
    destruct (occurs period x k f) eqn:Ho; simpl Z.eqb; cbn match; intros Hf;
      apply (IH (S k)) in Hf as (-> & Hv & Hc).
    + split; [f_equal; simpl; lia|]. split.
      * intros b Hb. rewrite Hbits, (Hv b Hb), Z.lor_spec, orb_true_iff by done. tauto.
      * intros ty H0 Hlt. simpl in Hlt |- *. rewrite Ho in Hlt |- *. simpl in Hlt |- *.
        specialize (Hc ty). pose proof (occurrences_nonneg period x (S k) fs ty).
        destruct (Z.eqb_spec f.1 ty) as [He|Hne].
        -- rewrite He, lookup_insert_eq in Hc. simpl in Hc. rewrite u32_small in Hc by lia.
           rewrite Hc by lia. lia.
        -- rewrite lookup_insert_ne in Hc by done. rewrite Hc by lia. lia.
    + split; [f_equal; simpl; lia|]. split.
      * intros b Hb. rewrite Hbits, (Hv b Hb). naive_solver.
      * intros ty H0 Hlt. simpl in Hlt |- *. rewrite Ho in Hlt |- *. simpl in Hlt |- *. apply Hc; lia.
Qed.

(** One call draws a number for every type, from the last type to the first;
    the vector has the bits of the types whose number is above their
    probability to survive since the last call, and these are counted. *)
Theorem Inject_vector clk i x vec i' x' :
  SystemErrorInjector_Inject clk i x = (vec, i', x') →
  let period := fsub clk (prev_clk_ i) in
  let fs := rev (failure_rate_ (sc_ i)) in
  x' = Nat.iter (length fs) drand48_next x ∧ prev_clk_ i' = clk ∧ failure_rate_ (sc_ i') = failure_rate_ (sc_ i) ∧
  (∀ b, 0 ≤ b → Z.testbit vec b = true ↔ type_bit period x 0 fs b) ∧
  (∀ ty, 0 ≤ default 0 (error_count_ (sc_ i) !! ty) →
     default 0 (error_count_ (sc_ i) !! ty) + occurrences period x 0 fs ty < 2 ^ 32 →
     default 0 (error_count_ (sc_ i') !! ty) = default 0 (error_count_ (sc_ i) !! ty) + occurrences period x 0 fs ty).
Proof.
  unfold SystemErrorInjector_Inject. intros H. cbv zeta.
  destruct (foldl _ _ _) as [[vec1 count1] x1] eqn:Hf. injection H as <- <- <-.
  apply (inject_types _ x _ O) in Hf as (-> & Hv & Hc). split; [done|]. split; [done|]. split; [done|].
  split; [|exact Hc]. intros b Hb. rewrite (Hv b Hb), Z.bits_0. naive_solver.
Qed.

(** Vectors have 64 bits. *)
Lemma inject_type_range period fs : ∀ st,
  0 ≤ st.1.1 < 2 ^ 64 → 0 ≤ (foldl (inject_type period) st fs).1.1 < 2 ^ 64.
Proof.
  induction fs as [|f fs IH]; intros [[vec count] x]; [done|]. intros Hr. cbn [foldl]. apply IH. unfold inject_type.
  destruct (InjectError (GetErrorProb f.2 period) x) as [err x']. destruct (err =? 0); [done|]. simpl in *.
  pose proof (u64_range f.1) as Hu.
  assert (0 ≤ Z.lor vec (u64 f.1)) by (apply Z.lor_nonneg; lia). split; [done|].
  destruct (Z.eq_dec (Z.lor vec (u64 f.1)) 0) as [->|Hne]; [done|].
  apply Z.log2_lt_pow2; [lia|]. rewrite Z.log2_lor by lia.
  apply Z.max_lub_lt.
  - destruct (Z.eq_dec vec 0) as [->|]; [done|]. apply Z.log2_lt_pow2; lia.
  - destruct (Z.eq_dec (u64 f.1) 0) as [->|]; [done|]. apply Z.log2_lt_pow2; lia.
Qed.

Lemma Inject_range clk i x : 0 ≤ (SystemErrorInjector_Inject clk i x).1.1 < 2 ^ 64.
Proof.
  unfold SystemErrorInjector_Inject. pose proof (inject_type_range (fsub clk (prev_clk_ i))
    (rev (failure_rate_ (sc_ i))) (0, error_count_ (sc_ i), x)) as H.
  destruct (foldl _ _ _) as [[vec count] x']. apply H. simpl. lia.
Qed.

(** Without failures, or without time since the last call, no error is
    injected: an event with probability 1 to survive does not occur. *)
Lemma occurs_never period x k f : GetErrorProb f.2 period = ldone → occurs period x k f = false.
Proof. intros H. unfold occurs, drawn. rewrite H. apply below_one. Qed.

Context (expl_zero : ∀ s, expl (S754_zero s) = ldone).

Definition finite (x : spec_float) : bool := match x with S754_zero _ | S754_finite _ _ _ => true | _ => false end.
Definition is_zero (x : spec_float) : bool := match x with S754_zero _ => true | _ => false end.

Lemma GetErrorProb_zero rate period :
  is_zero rate = true → finite (longdouble period) = true → GetErrorProb rate period = ldone.
Proof.
  intros Hr Hp. unfold GetErrorProb. destruct rate; try done.
  destruct (longdouble period); try done; apply expl_zero.
Qed.

(** With rates 0 no call reports an error or counts one. *)
Theorem zero_rates_no_error clk i x :
  Forall (λ f, is_zero f.2 = true) (failure_rate_ (sc_ i)) → finite (longdouble (fsub clk (prev_clk_ i))) = true →
  SystemErrorInjector_Inject clk i x =
    (0, mkSystem (sc_ i) clk, Nat.iter (length (failure_rate_ (sc_ i))) drand48_next x).
Proof.
  intros Hz Hp. unfold SystemErrorInjector_Inject.
  assert (∀ fs x count, Forall (λ f, is_zero f.2 = true) fs →
    foldl (inject_type (fsub clk (prev_clk_ i))) (0, count, x) fs = (0, count, Nat.iter (length fs) drand48_next x)) as Hall.
  { clear x Hz. intros fs x. revert x. induction fs as [|f fs IH]; intros x count Hz; [done|].
    apply Forall_cons_1 in Hz as [Hf Hz]. cbn [foldl].
    replace (inject_type (fsub clk (prev_clk_ i)) (0, count, x) f) with (0, count, drand48_next x).
    - rewrite IH by done. f_equal. cbn [length]. by rewrite Nat.iter_succ_r.
    - unfold inject_type. change (InjectError (GetErrorProb f.2 (fsub clk (prev_clk_ i))) x) with
        (if SFltb (GetErrorProb f.2 (fsub clk (prev_clk_ i))) (GenErrorVal x).1 then 1 else 0, drand48_next x).
      by rewrite (GetErrorProb_zero f.2 _ Hf Hp), below_one. }
  rewrite Hall by (by apply List.Forall_rev).
  rewrite length_rev. by destruct i as [[rates count] prev].
Qed.
End system.

(** ** What a forced injector reports *)

Lemma listed_Some l z : listed l (Some z) = Ok (bool_decide (z ∈ l)).
Proof. destruct l; [by rewrite bool_decide_eq_false_2 by apply not_elem_of_nil|done]. Qed.

(** A forced injector with a target reports an error exactly when it is
    enabled and the target is in one of the lists, and does not change: it
    reports it again when it is asked again. *)
Theorem forced_Inject e rank task x :
  force_to_fail_ e = true → rank_in_level_ e = Some rank → task_in_color_ e = Some task →
  CDErrorInjector_Inject e x =
    Ok (if enabled_ e && (bool_decide (rank ∈ cd_to_fail_ e) || bool_decide (task ∈ task_to_fail_ e)) then 1 else 0, e, x).
Proof.
  intros Hf Hr Ht. unfold CDErrorInjector_Inject. destruct (enabled_ e); [|done]. simpl negb. cbn match.
  rewrite Hf, Hr, Ht, !listed_Some, ret_bind. case_bool_decide; [done|]. rewrite ret_bind. done.
Qed.

Lemma forced_Inject_witness :
  CDErrorInjector_Inject (RegisterTarget 0 3 (Injector_lists [] [3; 4] fzero)) 0 =
    Ok (1, RegisterTarget 0 3 (Injector_lists [] [3; 4] fzero), 0).
Proof.
  rewrite (forced_Inject (RegisterTarget 0 3 (Injector_lists [] [3; 4] fzero)) 0 3 0) by reflexivity.
  reflexivity.
Defined.

(** An injector with a rate takes it for the probability to survive: with rate
    1 it never reports an error, with rate 0 it does unless the number drawn is
    0.  It draws once, and is disabled then. *)
Theorem rate_is_survival x :
  CDErrorInjector_Inject (Injector_rate fone) x = Ok (0, Disable (Injector_rate fone), drand48_next x) ∧
  CDErrorInjector_Inject (Injector_rate fzero) x =
    Ok (if drand48_next x =? 0 then 0 else 1, Disable (Injector_rate fzero), drand48_next x) ∧
  ∀ rate y, CDErrorInjector_Inject (Disable (Injector_rate rate)) y = Ok (0, Disable (Injector_rate rate), y).
Proof.
  unfold CDErrorInjector_Inject. simpl enabled_. simpl force_to_fail_. cbn match.
  change (GenErrorVal x) with ((GenErrorVal x).1, drand48_next x). cbn match. simpl error_rate_.
  change (longdouble fone) with ldone. change (longdouble fzero) with (S754_zero false).
  rewrite below_one, above_zero. split; [done|]. split; [|done]. by destruct (_ =? 0).
Qed.

(** An injector made with the target never reports an error: this constructor
    leaves it disabled. *)
Theorem target_never_fires cds tasks rank task rate x :
  CDErrorInjector_Inject (Injector_target cds tasks rank task rate) x =
    Ok (0, Injector_target cds tasks rank task rate, x).
Proof. reflexivity. Qed.
