(* ===== verification/Config.v ===== *)
(** * The configuration file (sys_err_t.h, sys_err_t.cc, phase_tree.cc)

    [SystemConfig::LoadConfig] reads the tree of phases, with the interval, the
    vector of errors and the medium of each, and the rates of failures;
    [PhaseNode::PrintInputYAML] writes such a file for the tree of an
    execution.  libyaml, which turns the text into events, is a parameter, of
    which the theorems need what YAML says about block sequences of mappings.
    A phase is a node of PhaseTree.v with a record of what that file leaves
    out.  Output to the terminal and the file of tuning are left out. *)

From Stdlib Require Import ZArith Lia String Ascii SpecFloat.
From stdpp Require Import base gmap list numbers strings.
From S2P Require Import Prelude Float64 CdLog PhaseTree Phases ErrorInjector.

#[local] Open Scope string_scope.
#[local] Open Scope Z_scope.

(** ** Numbers in text

    strtol and atol of the C library, and the conversions of printf. *)
Definition LONG_MAX : Z := 9223372036854775807.
Definition LONG_MIN : Z := -9223372036854775808.

Definition digit_of (a : ascii) : option Z :=
  let n := Z.of_nat (nat_of_ascii a) in
  if (48 <=? n) && (n <=? 57) then Some (n - 48)
  else if (65 <=? n) && (n <=? 70) then Some (n - 55)
  else if (97 <=? n) && (n <=? 102) then Some (n - 87) else None.

Fixpoint digits (base acc : Z) (s : string) : Z :=
  match s with
  | EmptyString => acc
  | String a s =>
      match digit_of a with
      | Some d => if d <? base then digits base (acc * base + d) s else acc
      | None => acc
      end
  end.

Definition is_space (a : ascii) : bool :=
  let n := Z.of_nat (nat_of_ascii a) in (n =? 32) || ((9 <=? n) && (n <=? 13)).
Fixpoint skip_spaces (s : string) : string :=
  match s with String a s' => if is_space a then skip_spaces s' else s | EmptyString => s end.
Definition skip_prefix (base : Z) (s : string) : string :=
  match s with
  | String "0" (String "x" s') | String "0" (String "X" s') => if base =? 16 then s' else s
  | _ => s
  end.

Definition strtol (s : string) (base : Z) : Z :=
  let v := match skip_spaces s with
           | String "-" s => - digits base 0 (skip_prefix base s)
           | String "+" s => digits base 0 (skip_prefix base s)
           | s => digits base 0 (skip_prefix base s)
           end in
  Z.max LONG_MIN (Z.min LONG_MAX v).
Definition atol (s : string) : Z := strtol s 10.
Definition atoi (s : string) : Z :=
  let u := u32 (atol s) in if u <? 2 ^ 31 then u else u - 2 ^ 32.

Definition digit_char (d : Z) : ascii := ascii_of_nat (Z.to_nat (if d <? 10 then 48 + d else 55 + d)).

(** The digits of a number before a text; 64 digits are enough for 64 bits. *)
Fixpoint print_digits (fuel : nat) (base z : Z) (acc : string) : string :=
  match fuel with
  | O => acc
  | S fuel =>
      let acc := String (digit_char (z mod base)) acc in
      if z / base =? 0 then acc else print_digits fuel base (z / base) acc
  end.
Definition print_u (base z : Z) : string := print_digits 64 base z "".
Definition print_d (z : Z) : string := if z <? 0 then "-" +:+ print_u 10 (- z) else print_u 10 z.

(** strtok with the delimiter _: the pieces of the text that are not empty. *)
Fixpoint split (s : string) : list string :=
  match s with
  | EmptyString => [""]
  | String a s =>
      if Ascii.eqb a "_" then "" :: split s
      else match split s with [] => [String a ""] | p :: ps => String a p :: ps end
  end.
Definition tokens (s : string) : list string := base.filter (λ p, p ≠ "") (split s).

(** ** Data *)

(** PrvMediumT. *)
Definition kUndefined : Z := 0.
Definition kLocalMemory : Z := 4.
Definition kRemoteMemory : Z := 8.
Definition kLocalDisk : Z := 16.
Definition kGlobalDisk : Z := 32.

(** [GetMedium] of a name, and of a medium. *)
Definition GetMedium (key : string) : res Z :=
  if (key =? "LocalMemory")%string || (key =? "Local Memory")%string then Ok kLocalMemory
  else if (key =? "RemoteMemory")%string || (key =? "Remote Memory")%string then Ok kRemoteMemory
  else if (key =? "LocalDisk")%string || (key =? "Local Disk")%string then Ok kLocalDisk
  else if (key =? "GlobalDisk")%string || (key =? "Global Disk")%string then Ok kGlobalDisk
  else Err AssertFail.
Definition medium_name (medium : Z) : res string :=
  if medium =? kLocalMemory then Ok "LocalMemory"
  else if medium =? kRemoteMemory then Ok "RemoteMemory"
  else if medium =? kLocalDisk then Ok "LocalDisk"
  else if medium =? kGlobalDisk then Ok "GlobalDisk"
  else Err AssertFail.

(** What PhaseTree.v leaves out of a [PhaseNode]. *)
Record PhaseInfo := mkInfo { interval_ : Z; errortype_ : Z; medium_ : Z }.
Definition new_info : PhaseInfo := mkInfo (-1) (-1) kUndefined.

(** tuned::phaseTree with tuned::phaseNodeCache, the configuration, and the
    globals of sys_err_t.cc; [mapping_] by level and phase. *)
Record Config := mkCfg {
  tree : PhaseTree;
  info : gmap Z PhaseInfo;
  mapping_ : gmap (Z * Z) PhaseInfo;
  sys : SystemConfig;
  failure_rate_record_ : list (Z * spec_float);
  is_error_free : bool;
  ftype_name : string;
  g_errortype : Z;
  g_level : Z;
  g_phase : Z;
  g_prv : option ascii;
}.

Definition empty_config : Config :=
  mkCfg empty_tree ∅ ∅ (mkConfig [] ∅) [] false "NoNamed" (-1) (-1) (-1) None.

Definition with_phases (t : PhaseTree) (i : gmap Z PhaseInfo) (c : Config) : Config :=
  mkCfg t i (mapping_ c) (sys c) (failure_rate_record_ c) (is_error_free c) (ftype_name c)
    (g_errortype c) (g_level c) (g_phase c) (g_prv c).
Definition with_mapping (m : gmap (Z * Z) PhaseInfo) (c : Config) : Config :=
  mkCfg (tree c) (info c) m (sys c) (failure_rate_record_ c) (is_error_free c) (ftype_name c)
    (g_errortype c) (g_level c) (g_phase c) (g_prv c).
Definition with_rates (s : SystemConfig) (r : list (Z * spec_float)) (free : bool) (c : Config) : Config :=
  mkCfg (tree c) (info c) (mapping_ c) s r free (ftype_name c) (g_errortype c) (g_level c) (g_phase c) (g_prv c).
Definition with_ftype (n : string) (c : Config) : Config :=
  mkCfg (tree c) (info c) (mapping_ c) (sys c) (failure_rate_record_ c) (is_error_free c) n
    (g_errortype c) (g_level c) (g_phase c) (g_prv c).
Definition with_errortype (e : Z) (c : Config) : Config :=
  mkCfg (tree c) (info c) (mapping_ c) (sys c) (failure_rate_record_ c) (is_error_free c) (ftype_name c)
    e (g_level c) (g_phase c) (g_prv c).
Definition with_place (l p : Z) (c : Config) : Config :=
  mkCfg (tree c) (info c) (mapping_ c) (sys c) (failure_rate_record_ c) (is_error_free c) (ftype_name c)
    (g_errortype c) l p (g_prv c).
Definition with_key (a : option ascii) (c : Config) : Config :=
  mkCfg (tree c) (info c) (mapping_ c) (sys c) (failure_rate_record_ c) (is_error_free c) (ftype_name c)
    (g_errortype c) (g_level c) (g_phase c) a.

Definition set_label (l : string) (n : PhaseNode) : PhaseNode :=
  mkNode (level_ n) (seq_begin_ n) (seq_end_ n) (seq_max_ n) (seq_acc_ n) (seq_acc_rb_ n) (state_ n)
    (parent_ n) (left_ n) (right_ n) (children_ n) l.
Definition set_interval (z : Z) (i : PhaseInfo) : PhaseInfo := mkInfo z (errortype_ i) (medium_ i).
Definition set_errortype (z : Z) (i : PhaseInfo) : PhaseInfo := mkInfo (interval_ i) z (medium_ i).
Definition set_medium (z : Z) (i : PhaseInfo) : PhaseInfo := mkInfo (interval_ i) (errortype_ i) z.

(** An assignment through operator[] of a std::map. *)
Fixpoint assign {A} (k : Z) (x : A) (l : list (Z * A)) : list (Z * A) :=
  match l with
  | [] => [(k, x)]
  | (k', x') :: l' =>
      if k <? k' then (k, x) :: l else if k =? k' then (k, x) :: l' else (k', x') :: assign k x l'
  end.

(** A conversion to float. *)
Definition f32 (x : spec_float) : spec_float :=
  match x with S754_finite s m e => binary_normalize 24 128 (cond_Zopp s (Zpos m)) e s | _ => x end.

(** ** Reading *)

(** The events of libyaml; of the others LoadConfig only takes notice. *)
Inductive yaml_event := Scalar (s : string) | SequenceStart | SequenceEnd | OtherEvent.

(** [UpdateSwitchParams]: the level and the phase of a key CD_level_phase; a
    missing part is a null pointer for atol. *)
Definition UpdateSwitchParams (key : string) : res (Z * Z) :=
  match tokens key with
  | _ :: l :: p :: _ => Ok (atol l, atol p)
  | _ => Err OutOfBounds
  end.

Section load.
(** atof, the number of tasks, and the environment variable
    KEEP_TOTAL_FAILURE_RATE_SAME. *)
Context (atof : string → real_t) (totalTaskSize : Z) (keep : option string).

(** A rate, in [ParseParam]. *)
Definition ParseRate (key : string) (c : Config) : res Config :=
  let e := g_errortype c in
  let record := assign e (f32 (atof key)) (failure_rate_record_ c) in
  let count := <[e := 0]> (error_count_ (sys c)) in
  let set frate record free :=
    Ok (with_rates (mkConfig (assign e frate (failure_rate_ (sys c))) count) record free c) in
  let num_tasks := match keep with Some k => atoi k | None => 1 end in
  let failure_div_factor := match keep with Some k => f32 (atof k) | None => fone end in
  if 1 <? num_tasks then
    let frate := f32 (if 2 <? e then fdiv (atof key) (f64 totalTaskSize) else fdiv (atof key) failure_div_factor) in
    set frate (assign e frate record) (is_error_free c)
  else if num_tasks =? 1 then set (f32 (fdiv (atof key) (f64 totalTaskSize))) record (is_error_free c)
  else if num_tasks =? 0 then set (S754_zero false) record true
  else Err AssertFail.

(** A value, in [ParseParam]: for the key before it. *)
Definition ParseValue (key : string) (c : Config) : res Config :=
  match g_prv c with
  | Some "F"%char => ParseRate key c
  | Some "l"%char =>
      cur ← deref (current_ (tree c));
      Ok (with_phases (touch cur (set_label key) (tree c)) (info c) c)
  | Some "i"%char =>
      cur ← deref (current_ (tree c));
      Ok (with_phases (tree c) (alter (set_interval (atol key)) cur (info c)) c)
  | Some "e"%char =>
      cur ← deref (current_ (tree c));
      let e := strtol key 16 in
      let at_ := (u64 (g_level c), u64 (g_phase c)) in
      Ok (with_errortype e (with_mapping (<[at_ := set_errortype e (default new_info (mapping_ c !! at_))]> (mapping_ c))
            (with_phases (tree c) (alter (set_errortype e) cur (info c)) c)))
  | Some "m"%char =>
      medium ← GetMedium key;
      cur ← deref (current_ (tree c));
      let at_ := (u64 (g_level c), u64 (g_phase c)) in
      Ok (with_mapping (<[at_ := set_medium medium (default new_info (mapping_ c !! at_))]> (mapping_ c))
            (with_phases (tree c) (alter (set_medium medium) cur (info c)) c))
  | _ => Ok c
  end.

(** A key of a phase, in [ParseParam]: the constructor of [PhaseNode] for the
    tuned tree asserts that phases are numbered in the order of the file. *)
Definition ParsePhase (key : string) (c : Config) : res Config :=
  '(l, p) ← UpdateSwitchParams key;
  let c := with_place l p (with_key (Some "C"%char) c) in
  let t := tree c in
  _ ← cassert (u32 p =? phase_gen t);
  '(ph, t) ← PhaseNode_new (current_ t) (u32 l) "Undefined" kExecution t;
  let r := match root_ t with None => Some ph | Some r => Some r end in
  Ok (with_phases (mkTree r (Some ph) (phaseNodeCache t) (phasePath t) (phase_gen t)) (<[ph := new_info]> (info c)) c).

(** A type of failure, in [ParseParam], whose name is copied into 32
    characters. *)
Definition ParseFailure (key : string) (c : Config) : res Config :=
  if 32 <=? Z.of_nat (String.length key) then Err OutOfBounds else
  let c := match tokens key with
           | "FAILURE" :: n :: _ => with_ftype n c
           | _ => c
           end in
  Ok (with_errortype (atol (match key with String _ s => s | EmptyString => "" end)) (with_key (Some "F"%char) c)).

(** [ParseParam]. *)
Definition starts_CD (key : string) : bool :=
  match key with String "C" (String "D" _) => true | _ => false end.
Definition starts_F (key : string) : bool := match key with String "F" _ => true | _ => false end.

Definition ParseParam (key : string) (c : Config) : res Config :=
  if starts_CD key && negb (bool_decide (g_prv c = Some "l"%char)) then ParsePhase key c
  else if (key =? "label")%string then Ok (with_key (Some "l"%char) c)
  else if (key =? "interval")%string then Ok (with_key (Some "i"%char) c)
  else if (key =? "errortype")%string then Ok (with_key (Some "e"%char) c)
  else if (key =? "medium")%string then Ok (with_key (Some "m"%char) c)
  else if starts_F key then ParseFailure key c
  else ParseValue key c.

(** [ParseFailureParam], which is not called. *)
Definition ParseFailureParam (key : string) (c : Config) : Config :=
  match key with
  | String "F" s => with_errortype (atol s) (with_key (Some "F"%char) c)
  | _ =>
      if bool_decide (g_prv c = Some "F"%char) then
        with_rates (mkConfig (assign (g_errortype c) (f32 (atof key)) (failure_rate_ (sys c))) (error_count_ (sys c)))
          (failure_rate_record_ c) (is_error_free c) c
      else c
  end.

(** The loop of [LoadConfig], and its end, which counts phases anew for the
    execution. *)
Definition LoadEvent (e : yaml_event) (c : Config) : res Config :=
  match e with
  | Scalar s => ParseParam s c
  | SequenceEnd =>
      match current_ (tree c) with
      | Some q => n ← node (tree c) q; Ok (with_phases (set_current (parent_ n) (tree c)) (info c) c)
      | None => Ok c
      end
  | _ => Ok c
  end.

Definition LoadConfig (evs : list yaml_event) (c : Config) : res Config :=
  c ← foldM LoadEvent evs c;
  let t := tree c in
  Ok (with_phases (mkTree (root_ t) (root_ t) (phaseNodeCache t) (phasePath t) 0) (info c) c).

(** [SystemConfig::Init], and what [CD_Init] does with the configuration: the
    environment variable CD_NO_ERROR sets [dont_error]. *)
Definition Config_Init (c : Config) : Config :=
  with_mapping ((λ _, new_info) <$> mapping_ c)
    (with_rates (mkConfig (map (λ v, (v.1, S754_zero false)) (failure_rate_ (sys c))) ((λ _, 0) <$> error_count_ (sys c)))
       (failure_rate_record_ c) (is_error_free c) c).
Definition CD_Init_config (dont_error : bool) (evs : list yaml_event) (c : Config) : res Config :=
  c ← LoadConfig evs c;
  Ok (if dont_error then let c := Config_Init c in with_rates (sys c) (failure_rate_record_ c) true c else c).
End load.

(** ** Writing *)

Fixpoint spaces (n : nat) : string := match n with O => "" | S n => String " " (spaces n) end.

(** [PrintInputYAML], as lines; a child is younger than its parent. *)
Fixpoint print_yaml (fuel : nat) (t : PhaseTree) (i : gmap Z PhaseInfo) (p : Z) : res (list string) :=
  match fuel with
  | O => Err OutOfFuel
  | S fuel =>
      n ← node t p;
      x ← deref (i !! p);
      m ← medium_name (medium_ x);
      let indent k := spaces (Z.to_nat ((level_ n + k) * 2)) in
      rest ← foldM (λ q acc, l ← print_yaml fuel t i q; Ok (acc ++ l)%list) (children_ n) [];
      Ok (([indent 0 +:+ "- CD_" +:+ print_u 10 (level_ n) +:+ "_" +:+ print_u 10 p +:+ " :";
           indent 1 +:+ "- label    : " +:+ label_ n;
           indent 2 +:+ "interval : " +:+ print_d (interval_ x);
           indent 2 +:+ "errortype: 0x" +:+ print_u 16 (u64 (errortype_ x));
           indent 2 +:+ "medium: " +:+ m] ++ rest)%list)
  end.
Definition PrintInputYAML (t : PhaseTree) (i : gmap Z PhaseInfo) : res (list string) :=
  r ← deref (root_ t);
  print_yaml (S (Z.to_nat (phase_gen t - r))) t i r.

(** ** YAML

    The documents that are written: sequences of mappings, either with several
    plain values or with one sequence; their text, with blanks between a key
    and its colon, and their events. *)
Inductive item := Item (fields : list (string * nat * string)) | Node (key : string) (sub : list item).

Definition field (f : string * nat * string) : string := f.1.1 +:+ spaces f.1.2 +:+ ": " +:+ f.2.

Fixpoint render (n : nat) (x : item) : list string :=
  match x with
  | Item [] => []
  | Item (f :: fs) => (spaces n +:+ "- " +:+ field f) :: map (λ f, spaces (n + 2) +:+ field f) fs
  | Node k sub => (spaces n +:+ "- " +:+ k +:+ " :") :: List.concat (map (render (n + 2)) sub)
  end.

Fixpoint item_events (x : item) : list yaml_event :=
  match x with
  | Item fs => OtherEvent :: List.concat (map (λ f, [Scalar f.1.1; Scalar f.2]) fs) ++ [OtherEvent]
  | Node k sub => [OtherEvent; Scalar k; SequenceStart] ++ List.concat (map item_events sub) ++ [SequenceEnd; OtherEvent]
  end%list.

(** Begin and end of the stream, the document and its sequence. *)
Definition document (l : list yaml_event) : list yaml_event :=
  ([OtherEvent; OtherEvent; SequenceStart] ++ l ++ [SequenceEnd; OtherEvent; OtherEvent])%list.

(** ** Numbers are read as they are written *)

Lemma digit_cases d (P : Z → Prop) :
  0 ≤ d < 16 → P 0 → P 1 → P 2 → P 3 → P 4 → P 5 → P 6 → P 7 → P 8 → P 9 → P 10 → P 11 → P 12 → P 13 → P 14 → P 15 → P d.
Proof.
  intros Hd. intros.
  assert (d = 0 ∨ d = 1 ∨ d = 2 ∨ d = 3 ∨ d = 4 ∨ d = 5 ∨ d = 6 ∨ d = 7 ∨ d = 8 ∨ d = 9 ∨ d = 10 ∨ d = 11 ∨ d = 12 ∨
    d = 13 ∨ d = 14 ∨ d = 15) as Hc by lia.
  repeat destruct Hc as [->|Hc]; try done. by subst d.
Qed.

Lemma digit_of_char d : 0 ≤ d < 16 → digit_of (digit_char d) = Some d.
Proof. intros Hd. by apply (digit_cases d (λ d, digit_of (digit_char d) = Some d)). Qed.

Lemma digits_one base a z acc :
  2 ≤ base ≤ 16 → digits base a (String (digit_char (z mod base)) acc) = digits base (a * base + z mod base) acc.
Proof.
  intros Hb. pose proof (Z.mod_pos_bound z base ltac:(lia)).
  change (digits base a (String (digit_char (z mod base)) acc)) with
    (match digit_of (digit_char (z mod base)) with
     | Some d => if d <? base then digits base (a * base + d) acc else a | None => a end).
  rewrite digit_of_char by lia. by rewrite (proj2 (Z.ltb_lt _ _)) by lia.
Qed.

Lemma digits_print base fuel : ∀ z acc a, 2 ≤ base ≤ 16 → 0 ≤ z < base ^ Z.of_nat (S fuel) →
  ∃ k : nat, digits base a (print_digits (S fuel) base z acc) = digits base (a * base ^ Z.of_nat k + z) acc.
Proof.
  induction fuel as [|fuel IH]; intros z acc a Hb Hz;
    change (print_digits (S ?f) base z acc) with
      (if z / base =? 0 then String (digit_char (z mod base)) acc
       else print_digits f base (z / base) (String (digit_char (z mod base)) acc));
    pose proof (Z.div_mod z base ltac:(lia)) as Hdm.
  - assert (z / base = 0) as H0 by (apply Z.div_small; simpl in Hz; lia). rewrite H0. simpl Z.eqb. cbn match.
    rewrite digits_one by done. exists 1%nat. f_equal. simpl. lia.
  - destruct (Z.eqb_spec (z / base) 0) as [H0|Hne].
    + rewrite digits_one by done. exists 1%nat. f_equal. simpl. lia.
    + destruct (IH (z / base) (String (digit_char (z mod base)) acc) a Hb) as [k Hk].
      { split; [apply Z.div_pos; lia|]. apply Z.div_lt_upper_bound; [lia|].
        rewrite (Nat2Z.inj_succ (S fuel)), Z.pow_succ_r in Hz by lia. lia. }
      rewrite Hk, digits_one by done. exists (S k). f_equal. rewrite Nat2Z.inj_succ, Z.pow_succ_r by lia. lia.
Qed.

(** The first digit, and that no character is an underscore. *)
Lemma print_digits_head base fuel z acc :
  2 ≤ base ≤ 16 → ∃ d rest, 0 ≤ d < base ∧ print_digits (S fuel) base z acc = String (digit_char d) rest.
Proof.
  intros Hb. revert z acc. induction fuel as [|fuel IH]; intros z acc;
    change (print_digits (S ?f) base z acc) with
      (if z / base =? 0 then String (digit_char (z mod base)) acc
       else print_digits f base (z / base) (String (digit_char (z mod base)) acc));
    pose proof (Z.mod_pos_bound z base ltac:(lia)); destruct (_ =? 0); [..|apply IH]; exists (z mod base), acc;
    (split; [lia|done]).
Qed.

Lemma print_digits_plain base fuel z acc : 2 ≤ base ≤ 16 → plain acc → plain (print_digits fuel base z acc).
Proof.
  intros Hb. revert z acc. induction fuel as [|fuel IH]; intros z acc Ha; [done|].
  assert (plain (String (digit_char (z mod base)) acc)) as Hp.
  { pose proof (Z.mod_pos_bound z base ltac:(lia)). change (negb (Ascii.eqb (digit_char (z mod base)) "_") && plain acc).
    apply andb_prop_intro. split; [|done].
    apply (digit_cases (z mod base) (λ d, negb (Ascii.eqb (digit_char d) "_"))); [lia|done..]. }
  change (print_digits (S fuel) base z acc) with
    (if z / base =? 0 then String (digit_char (z mod base)) acc
     else print_digits fuel base (z / base) (String (digit_char (z mod base)) acc)).
  destruct (_ =? 0); [done|by apply IH].
Qed.

(** What strtol takes from the beginning of a text that starts with a digit. *)
Lemma strtol_digit d rest base :
  0 ≤ d < 16 → strtol (String (digit_char d) rest) base =
    Z.max LONG_MIN (Z.min LONG_MAX (digits base 0 (skip_prefix base (String (digit_char d) rest)))).
Proof. intros Hd. by apply (digit_cases d (λ d, strtol (String (digit_char d) rest) base = Z.max LONG_MIN (Z.min LONG_MAX (digits base 0 (skip_prefix base (String (digit_char d) rest)))))). Qed.

Lemma skip_prefix_10 s : skip_prefix 10 s = s.
Proof.
  destruct s as [|a s]; [done|]. unfold skip_prefix. change (10 =? 16) with false.
  destruct a as [[] [] [] [] [] [] [] []]; try done. destruct s as [|b s]; [done|].
  by destruct b as [[] [] [] [] [] [] [] []].
Qed.

Lemma digits_print_u base z : 2 ≤ base ≤ 16 → 0 ≤ z < 2 ^ 64 → digits base 0 (print_u base z) = z.
Proof.
  intros Hb Hz. destruct (digits_print base 63 z "" 0 Hb) as [k Hk].
  { split; [lia|]. assert (2 ^ 64 ≤ base ^ 64) by (apply Z.pow_le_mono_l; lia). change (Z.of_nat 64) with 64. lia. }
  unfold print_u. by rewrite Hk.
Qed.

Lemma atol_print z : 0 ≤ z < 2 ^ 63 → atol (print_u 10 z) = z.
Proof.
  intros Hz. unfold atol. destruct (print_digits_head 10 63 z "" ltac:(lia)) as (d & rest & Hd & He).
  change (print_u 10 z) with (print_digits 64 10 z "") at 1. rewrite He, strtol_digit, skip_prefix_10, <-He by lia.
  change (print_digits 64 10 z "") with (print_u 10 z). rewrite digits_print_u by lia. unfold LONG_MAX, LONG_MIN. lia.
Qed.

Lemma atol_print_d z : LONG_MIN ≤ z ≤ LONG_MAX → atol (print_d z) = z.
Proof.
  intros Hz. unfold print_d. destruct (Z.ltb_spec z 0); [|apply atol_print; unfold LONG_MAX in Hz; lia].
  change ("-" +:+ print_u 10 (- z)) with (String "-" (print_u 10 (- z))). unfold atol, strtol.
  change (skip_spaces (String "-" (print_u 10 (- z)))) with (String "-" (print_u 10 (- z))). cbn match.
  rewrite skip_prefix_10, digits_print_u by (unfold LONG_MIN in Hz; lia). unfold LONG_MAX, LONG_MIN in *. lia.
Qed.

(** A vector with the highest bit is not: strtol saturates. *)
Lemma strtol_print_hex z : 0 ≤ z < 2 ^ 64 → strtol ("0x" +:+ print_u 16 z) 16 = Z.min LONG_MAX z.
Proof.
  intros Hz. change (strtol ("0x" +:+ print_u 16 z) 16) with
    (Z.max LONG_MIN (Z.min LONG_MAX (digits 16 0 (print_u 16 z)))).
  rewrite digits_print_u by lia. unfold LONG_MAX, LONG_MIN. lia.
Qed.

(** The key of a phase. *)
Lemma split_plain s r : plain s → split (s +:+ String "_" r) = s :: split r.
Proof.
  induction s as [|a s IH]; [done|]. intros [Ha Hs]%andb_prop_elim.
  change (split (String a s +:+ String "_" r)) with
    (if Ascii.eqb a "_" then "" :: split (s +:+ String "_" r)
     else match split (s +:+ String "_" r) with [] => [String a ""] | p :: ps => String a p :: ps end).
  destruct (Ascii.eqb a "_"); [done|]. by rewrite IH.
Qed.

Lemma split_plain_last s : plain s → split s = [s].
Proof.
  induction s as [|a s IH]; [done|]. intros [Ha Hs]%andb_prop_elim.
  change (split (String a s)) with
    (if Ascii.eqb a "_" then "" :: split s else match split s with [] => [String a ""] | p :: ps => String a p :: ps end).
  destruct (Ascii.eqb a "_"); [done|]. by rewrite IH.
Qed.

Lemma print_u_pos base z : 2 ≤ base ≤ 16 → print_u base z ≠ "".
Proof. intros Hb. destruct (print_digits_head base 63 z "" Hb) as (d & r & _ & He). unfold print_u. by rewrite He. Qed.

Definition phase_key (lv p : Z) : string := "CD_" +:+ print_u 10 lv +:+ "_" +:+ print_u 10 p.

Lemma UpdateSwitchParams_key lv p :
  0 ≤ lv < 2 ^ 63 → 0 ≤ p < 2 ^ 63 → UpdateSwitchParams (phase_key lv p) = Ok (lv, p).
Proof.
  intros Hl Hp. unfold UpdateSwitchParams, tokens.
  assert (split (phase_key lv p) = ["CD"; print_u 10 lv; print_u 10 p]) as ->.
  { change (split (phase_key lv p)) with ("CD" :: split (print_u 10 lv +:+ String "_" (print_u 10 p))).
    rewrite split_plain, split_plain_last by (by apply print_digits_plain). done. }
  rewrite !filter_cons_True by (by first [done|apply print_u_pos]). by rewrite !atol_print.
Qed.

(** ** Trees of phases

    A tree as data, and the states of the runtime that hold it. *)
Inductive ptree := PT (p lv : Z) (lab : string) (x : PhaseInfo) (sub : list ptree).

Definition pid (t : ptree) : Z := match t with PT p _ _ _ _ => p end.

Section ptree_ind.
Context (P : ptree → Prop) (HP : ∀ p lv lab x sub, Forall P sub → P (PT p lv lab x sub)).
Fixpoint ptree_ind' (t : ptree) : P t :=
  match t with
  | PT p lv lab x sub =>
      HP p lv lab x sub ((fix go l : Forall P l := match l with
        | [] => @List.Forall_nil _ P
        | s :: l => @List.Forall_cons _ P s l (ptree_ind' s) (go l) end) sub)
  end.
End ptree_ind.

Fixpoint psize (t : ptree) : Z :=
  match t with PT _ _ _ _ sub => 1 + foldr (λ s n, psize s + n) 0 sub end.
Definition psizes (l : list ptree) : Z := foldr (λ s n, psize s + n) 0 l.

(** Phases are numbered in the order in which a file lists them, and a child is
    one level below its parent. *)
Fixpoint numbered (n lv : Z) (t : ptree) : Prop :=
  match t with
  | PT p l _ _ sub =>
      p = n ∧ l = lv ∧
      (fix go (n : Z) (sub : list ptree) : Prop :=
         match sub with [] => True | s :: sub => numbered n (lv + 1) s ∧ go (n + psize s) sub end) (n + 1) sub
  end.
Fixpoint numbered_list (n lv : Z) (l : list ptree) : Prop :=
  match l with [] => True | s :: l => numbered n lv s ∧ numbered_list (n + psize s) lv l end.

(** What can be written and read back: labels that are not taken for a key or
    for a type of failure, intervals of 64 bits, the four media. *)
Definition reserved (lab : string) : bool :=
  (lab =? "label")%string || (lab =? "interval")%string || (lab =? "errortype")%string || (lab =? "medium")%string || starts_F lab.
Definition printable_phase (lv p : Z) (lab : string) (x : PhaseInfo) : Prop :=
  0 ≤ lv < 2 ^ 32 ∧ 0 ≤ p < 2 ^ 32 ∧ reserved lab = false ∧ LONG_MIN ≤ interval_ x ≤ LONG_MAX ∧
  medium_ x ∈ [kLocalMemory; kRemoteMemory; kLocalDisk; kGlobalDisk].
#[export] Instance printable_phase_dec lv p lab x : Decision (printable_phase lv p lab x).
Proof. unfold printable_phase. apply _. Defined.
Fixpoint printable (t : ptree) : Prop :=
  match t with PT p lv lab x sub => printable_phase lv p lab x ∧ foldr (λ s P, printable s ∧ P) True sub end.

(** What is read for a phase: strtol saturates at a vector with the highest bit,
    such as the -1 of the root. *)
Definition read_back (x : PhaseInfo) : PhaseInfo := set_errortype (Z.min LONG_MAX (u64 (errortype_ x))) x.
Fixpoint tree_read_back (t : ptree) : ptree :=
  match t with PT p lv lab x sub => PT p lv lab (read_back x) (map tree_read_back sub) end.

(** The tree is below phase [par] in a tree of phases. *)
Fixpoint represents (t : PhaseTree) (i : gmap Z PhaseInfo) (par : option Z) (pt : ptree) : Prop :=
  match pt with
  | PT p lv lab x sub =>
      (∃ n, phaseNodeCache t !! p = Some n ∧ level_ n = lv ∧ label_ n = lab ∧ parent_ n = par ∧ children_ n = pid <$> sub) ∧
      i !! p = Some x ∧ foldr (λ s P, represents t i (Some p) s ∧ P) True sub
  end.

Lemma foldr_Forall {A} (P : A → Prop) (l : list A) : foldr (λ s Q, P s ∧ Q) True l ↔ Forall P l.
Proof. induction l as [|a l IH]; simpl; [by split|]. by rewrite IH, Forall_cons. Qed.

Lemma numbered_list_eq n lv l :
  (fix go (n : Z) (sub : list ptree) : Prop :=
     match sub with [] => True | s :: sub => numbered n lv s ∧ go (n + psize s) sub end) n l ↔ numbered_list n lv l.
Proof. revert n. induction l as [|s l IH]; intros n; [done|]. simpl. by rewrite IH. Qed.

Lemma numbered_PT n lv p l lab x sub :
  numbered n lv (PT p l lab x sub) ↔ p = n ∧ l = lv ∧ numbered_list (n + 1) (lv + 1) sub.
Proof. simpl. by rewrite numbered_list_eq. Qed.

Lemma psize_pos t : 1 ≤ psize t.
Proof.
  induction t as [p lv lab x sub IH] using ptree_ind'. simpl.
  assert (0 ≤ foldr (λ s n, psize s + n) 0 sub) as H; [|lia]. induction IH as [|s l Hs _ IHl]; cbn [foldr]; [done|lia].
Qed.
Lemma psizes_nonneg l : 0 ≤ psizes l.
Proof. induction l as [|s l IH]; [done|]. pose proof (psize_pos s). change (0 ≤ psize s + psizes l). lia. Qed.

(** The document that is written for a tree. *)
Definition info_fields (lab : string) (x : PhaseInfo) : list (string * nat * string) :=
  [("label", 4%nat, lab); ("interval", 1%nat, print_d (interval_ x));
   ("errortype", O, "0x" +:+ print_u 16 (u64 (errortype_ x))); ("medium", O, get "" (medium_name (medium_ x)))].
Fixpoint doc (pt : ptree) : item :=
  match pt with PT p lv lab x sub => Node (phase_key lv p) (Item (info_fields lab x) :: map doc sub) end.

(** ** Writing gives the document *)

Lemma append_assoc' (x y z : string) : (x +:+ y) +:+ z = x +:+ (y +:+ z).
Proof. apply append_assoc. Qed.

Lemma print_yaml_doc t i pt : ∀ par lv fuel,
  represents t i par pt → numbered (pid pt) lv pt → printable pt → (Z.to_nat (psize pt) ≤ fuel)%nat →
  print_yaml fuel t i (pid pt) = Ok (render (Z.to_nat (lv * 2)) (doc pt)).
Proof.
  induction pt as [p l lab x sub IH] using ptree_ind'. intros par lv fuel [(n & Hn & Hl & Hlab & _ & Hch) [Hx Hsub]] Hnum Hpr Hf.
  apply numbered_PT in Hnum as (_ & -> & Hnum). cbn [pid] in Hnum. destruct Hpr as [(Hlv & Hp & _ & _ & Hm) Hprs].
  pose proof (psize_pos (PT p lv lab x sub)). destruct fuel as [|fuel]; [lia|]. cbn [pid print_yaml].
  rewrite (node_Some t p n Hn), ret_bind, Hx. cbn [deref]. rewrite ret_bind.
  assert (medium_name (medium_ x) = Ok (get "" (medium_name (medium_ x)))) as Hmed.
  { rewrite !elem_of_cons in Hm. destruct Hm as [E|[E|[E|[E|E]]]]; [rewrite E; reflexivity..|]. by apply not_elem_of_nil in E. }
  rewrite Hmed, ret_bind, Hch, Hl, Hlab.
  assert (foldM (λ q acc, l ← print_yaml fuel t i q; Ok (acc ++ l)%list) (pid <$> sub) [] =
    Ok (List.concat (map (render (Z.to_nat (lv * 2) + 2)) (map doc sub)))) as Hrest.
  { change (List.concat (map (render (Z.to_nat (lv * 2) + 2)) (map doc sub))) with
      ([] ++ List.concat (map (render (Z.to_nat (lv * 2) + 2)) (map doc sub)))%list.
    generalize (@nil string) as acc. assert (Z.to_nat (psizes sub) ≤ fuel)%nat as Hfs.
    { simpl in Hf. fold (psizes sub) in Hf. pose proof (psizes_nonneg sub). lia. }
    revert Hnum. generalize (p + 1) as k. apply foldr_Forall in Hsub, Hprs.
    revert Hsub Hprs Hfs. clear Hf Hch H. induction IH as [|s sub Hs _ IHs]; intros Hsub Hprs Hfs k Hnum acc.
    - simpl. by rewrite app_nil_r.
    - apply Forall_cons_1 in Hsub as [Hs1 Hsub]. apply Forall_cons_1 in Hprs as [Hp1 Hprs].
      simpl in Hfs. fold (psizes sub) in Hfs. pose proof (psizes_nonneg sub). pose proof (psize_pos s).
      destruct Hnum as [Hn1 Hnum]. assert (pid s = k) as Hk by (destruct s; exact (proj1 Hn1)).
      cbn [fmap list_fmap foldM]. rewrite (Hs (Some p) (lv + 1) fuel) by (rewrite ?Hk; first [done|lia]).
      rewrite !ret_bind. rewrite (IHs Hsub Hprs ltac:(lia) (k + psize s) Hnum).
      replace (Z.to_nat ((lv + 1) * 2)) with (Z.to_nat (lv * 2) + 2)%nat by lia. simpl. by rewrite app_assoc. }
  rewrite Hrest, ret_bind. f_equal. cbn [doc render map List.concat info_fields].
  replace (Z.to_nat ((lv + 0) * 2)) with (Z.to_nat (lv * 2)) by lia.
  replace (Z.to_nat ((lv + 1) * 2)) with (Z.to_nat (lv * 2) + 2)%nat by lia.
  replace (Z.to_nat ((lv + 2) * 2)) with (Z.to_nat (lv * 2) + 2 + 2)%nat by lia.
  unfold phase_key, field. cbn [fst snd spaces app].
  rewrite !append_assoc'. done.
Qed.

(** ** Reading the document *)

(** Nodes keep what a tree of phases shows of them, but [q0] gets the children
    [new]. *)
Record ext (q0 : option Z) (new : list Z) (t : PhaseTree) (i : gmap Z PhaseInfo) (t' : PhaseTree)
    (i' : gmap Z PhaseInfo) : Prop := mkExt {
  ex_node q n : phaseNodeCache t !! q = Some n → ∃ n', phaseNodeCache t' !! q = Some n' ∧ level_ n' = level_ n ∧
    label_ n' = label_ n ∧ parent_ n' = parent_ n ∧
    children_ n' = (children_ n ++ (if decide (q0 = Some q) then new else []))%list;
  ex_info q : is_Some (phaseNodeCache t !! q) → i' !! q = i !! q;
}.

Lemma ext_trans q0 l l' t i t1 i1 t2 i2 :
  ext q0 l t i t1 i1 → ext q0 l' t1 i1 t2 i2 → ext q0 (l ++ l')%list t i t2 i2.
Proof.
  intros [N1 I1] [N2 I2]. split.
  - intros q n Hn. destruct (N1 q n Hn) as (n1 & Hn1 & L1 & B1 & P1 & C1).
    destruct (N2 q n1 Hn1) as (n2 & Hn2 & L2 & B2 & P2 & C2). exists n2. split; [done|]. repeat (split; [congruence|]).
    rewrite C2, C1. case_decide; by rewrite <-?app_assoc, ?app_nil_r.
  - intros q [n Hn]. destruct (N1 q n Hn) as (n1 & Hn1 & _). rewrite I2; eauto.
Qed.

Lemma represents_ext pt : ∀ q0 new n lv par t i t' i',
  numbered n lv pt → (∀ q, q0 = Some q → q < n) → represents t i par pt → ext q0 new t i t' i' →
  represents t' i' par pt.
Proof.
  induction pt as [p l lab x sub IH] using ptree_ind'. intros q0 new n lv par t i t' i' Hnum Hq [(m & Hm & Hl & Hlab & Hpar & Hch) [Hx Hsub]] He.
  apply numbered_PT in Hnum as (-> & -> & Hnum). split; [|split].
  - destruct (ex_node _ _ _ _ _ _ He n m Hm) as (m' & Hm' & ? & ? & ? & Hch'). exists m'. split; [done|].
    rewrite decide_False in Hch' by (intros ->; specialize (Hq n eq_refl); lia). rewrite app_nil_r in Hch'. repeat split; congruence.
  - rewrite (ex_info _ _ _ _ _ _ He); eauto.
  - apply foldr_Forall. apply foldr_Forall in Hsub. revert Hnum. assert (∀ q, q0 = Some q → q < n + 1) as Hq1 by (intros q ->; specialize (Hq q eq_refl); lia).
    clear Hq Hch. revert Hsub Hq1. generalize (n + 1) as k. induction IH as [|s sub Hs _ IHs]; intros k Hsub Hq1 Hnum; [done|].
    apply Forall_cons_1 in Hsub as [Hs1 Hsub]. destruct Hnum as [Hn1 Hnum]. constructor.
    + by apply (Hs q0 new k (lv + 1) (Some n) t i).
    + apply (IHs (k + psize s)); [done| |done]. intros q Hq. specialize (Hq1 q Hq). pose proof (psize_pos s). lia.
Qed.

Lemma represents_cache t t' pt : ∀ i par,
  represents t i par pt → phaseNodeCache t' = phaseNodeCache t → represents t' i par pt.
Proof.
  induction pt as [p l lab x sub IH] using ptree_ind'. intros i par [Hn [Hx Hsub]] Ht. split; [by rewrite Ht|]. split; [done|].
  apply foldr_Forall. apply foldr_Forall in Hsub. clear Hn. induction IH as [|s sub Hs _ IHs]; [done|].
  apply Forall_cons_1 in Hsub as [Hs1 Hsub]. constructor; [by apply Hs|by apply IHs].
Qed.

(** Phases are below the number of the next one, and children are phases. *)
Record cache_ok (t : PhaseTree) : Prop := {
  co_dom q n : phaseNodeCache t !! q = Some n → q < phase_gen t;
  co_child q n x : phaseNodeCache t !! q = Some n → x ∈ children_ n → is_Some (phaseNodeCache t !! x);
}.

Record state_ok (c : Config) (par : option Z) : Prop := {
  so_cache : cache_ok (tree c);
  so_current : current_ (tree c) = par;
  so_parent q : par = Some q → is_Some (phaseNodeCache (tree c) !! q);
  so_key : g_prv c ≠ Some "l"%char;
}.

Lemma PhaseNode_new_ext t i par lv lab st :
  cache_ok t → (∀ q, par = Some q → is_Some (phaseNodeCache t !! q)) →
  ∃ t', PhaseNode_new par lv lab st t = Ok (phase_gen t, t') ∧ root_ t' = root_ t ∧ phase_gen t' = phase_gen t + 1 ∧
    cache_ok t' ∧ ext par [phase_gen t] t i t' i ∧
    ∃ n, phaseNodeCache t' !! phase_gen t = Some n ∧ level_ n = lv ∧ label_ n = lab ∧ parent_ n = par ∧ children_ n = [].
Proof.
  intros [Hdom Hchild] Hpar. set (p := phase_gen t).
  assert (phaseNodeCache t !! p = None) as Hp.
  { destruct (phaseNodeCache t !! p) as [n|] eqn:E; [|done]. apply Hdom in E. lia. }
  (* the cache with the new node, when the others are changed by [f] *)
  assert (∀ m l seq, (∀ q, option_Forall2 (λ n n', level_ n' = level_ n ∧ label_ n' = label_ n ∧ parent_ n' = parent_ n ∧
      children_ n' = (children_ n ++ (if decide (par = Some q) then [p] else []))%list) (phaseNodeCache t !! q) (m !! q)) →
    let t' := mkTree (root_ t) (current_ t) (<[p := mkNode lv seq seq 0 0 0 st par l None [] lab]> m) (phasePath t) (p + 1) in
    cache_ok t' ∧ ext par [p] t i t' i ∧
    ∃ n, phaseNodeCache t' !! p = Some n ∧ level_ n = lv ∧ label_ n = lab ∧ parent_ n = par ∧ children_ n = []) as Hnew.
  { intros m l seq Hm. cbv zeta. split; [split; simpl|split; [split; simpl|]].
    - intros q n [[<- _]|[_ Hq]]%lookup_insert_Some; [lia|]. specialize (Hm q). rewrite Hq in Hm.
      inversion Hm as [n0 ? ? Hn0|]. symmetry in Hn0. apply Hdom in Hn0. fold p in Hn0. lia.
    - intros q n x [[<- <-]|[_ Hq]]%lookup_insert_Some Hx; [by apply not_elem_of_nil in Hx|].
      pose proof (Hm q) as Hmq. rewrite Hq in Hmq. destruct (phaseNodeCache t !! q) as [n0|] eqn:Hn0; [|by inversion Hmq].
      assert (children_ n = (children_ n0 ++ (if decide (par = Some q) then [p] else []))%list) as Hch by (inversion Hmq; naive_solver).
      destruct (decide (x = p)) as [->|Hne]; [rewrite lookup_insert_eq; eauto|]. rewrite lookup_insert_ne by done.
      rewrite Hch in Hx. apply elem_of_app in Hx as [Hx|Hx].
      + destruct (Hchild q n0 x Hn0 Hx) as [nx Hnx]. specialize (Hm x). rewrite Hnx in Hm. inversion Hm. eauto.
      + case_decide; [|by apply not_elem_of_nil in Hx]. by apply list_elem_of_singleton in Hx.
    - intros q n Hq. assert (q ≠ p) by (intros ->; congruence). rewrite lookup_insert_ne by done.
      specialize (Hm q). rewrite Hq in Hm. inversion Hm. eauto.
    - done.
    - exists (mkNode lv seq seq 0 0 0 st par l None [] lab). simpl. rewrite lookup_insert_eq. by repeat split. }
  destruct par as [q|]; unfold PhaseNode_new.
  - destruct (Hpar q eq_refl) as [nq Hnq]. rewrite (node_Some t q nq Hnq), ret_bind.
    assert (∀ m : gmap Z PhaseNode, (∀ x, option_Forall2 (λ n n', level_ n' = level_ n ∧ label_ n' = label_ n ∧ parent_ n' = parent_ n ∧
      children_ n' = children_ n) (phaseNodeCache t !! x) (m !! x)) →
      ∀ x, option_Forall2 (λ n n', level_ n' = level_ n ∧ label_ n' = label_ n ∧ parent_ n' = parent_ n ∧
      children_ n' = (children_ n ++ (if decide (Some q = Some x) then [p] else []))%list)
      (phaseNodeCache t !! x) (alter (AddChild p) q m !! x)) as Hadd.
    { intros m Hm x. specialize (Hm x). destruct (decide (x = q)) as [->|Hne].
      - rewrite lookup_alter_eq. inversion Hm as [n n' (?&?&?&Hch)|]; simpl; constructor. rewrite decide_True by done.
        simpl. by rewrite Hch.
      - rewrite lookup_alter_ne by done. inversion Hm as [n n' (?&?&?&Hch)|]; constructor.
        rewrite decide_False by congruence. by rewrite app_nil_r. }
    destruct (last (children_ nq)) as [prev|] eqn:Hlast.
    + destruct (Hchild q nq prev Hnq) as [np Hnp].
      { rewrite last_lookup in Hlast. by eapply list_elem_of_lookup_2. }
      rewrite (node_Some t prev np Hnp), ret_bind. eexists. split; [reflexivity|]. split; [done|]. split; [done|].
      apply Hnew. apply Hadd. intros x. simpl. destruct (decide (x = prev)) as [->|Hne].
      * rewrite lookup_alter_eq. destruct (phaseNodeCache t !! prev); by constructor.
      * rewrite lookup_alter_ne by done. destruct (phaseNodeCache t !! x); by constructor.
    + eexists. split; [reflexivity|]. split; [done|]. split; [done|]. apply Hnew. apply Hadd. intros x.
      destruct (phaseNodeCache t !! x); by constructor.
  - eexists. split; [reflexivity|]. split; [done|]. split; [done|]. apply Hnew. intros x.
    destruct (phaseNodeCache t !! x); constructor. by rewrite decide_False, app_nil_r.
Qed.

Lemma psize_read_back pt : psize (tree_read_back pt) = psize pt.
Proof.
  induction pt as [p lv lab x sub IH] using ptree_ind'. cbn [tree_read_back psize]. f_equal.
  induction IH as [|s sub Hs _ IHs]; [done|]. cbn [map foldr]. by rewrite Hs, IHs.
Qed.
Lemma pid_read_back pt : pid (tree_read_back pt) = pid pt.
Proof. by destruct pt. Qed.
Lemma numbered_read_back pt : ∀ n lv, numbered n lv pt → numbered n lv (tree_read_back pt).
Proof.
  induction pt as [p l lab x sub IH] using ptree_ind'. intros n lv (-> & -> & Hnum)%numbered_PT.
  cbn [tree_read_back]. apply numbered_PT. split; [done|]. split; [done|].
  revert Hnum. generalize (n + 1) as k. induction IH as [|s sub Hs _ IHs]; intros k Hnum; [done|].
  destruct Hnum as [Hn Hnum]. split; [by apply Hs|]. rewrite psize_read_back. by apply IHs.
Qed.

Section reading.
Context (atof : string → real_t) (totalTaskSize : Z) (keep : option string).
#[local] Abbreviation load := (foldM (LoadEvent atof totalTaskSize keep)).

(** What the phases of a file leave alone. *)
Definition rates_of (c : Config) : SystemConfig * bool := (sys c, is_error_free c).

Lemma ParsePhase_ok c par lv :
  state_ok c par → 0 ≤ lv < 2 ^ 32 → 0 ≤ phase_gen (tree c) < 2 ^ 32 →
  let p := phase_gen (tree c) in
  ∃ c', ParsePhase (phase_key lv p) c = Ok c' ∧ state_ok c' (Some p) ∧ phase_gen (tree c') = p + 1 ∧
    ext par [p] (tree c) (info c) (tree c') (info c') ∧ info c' !! p = Some new_info ∧
    root_ (tree c') = Some (default p (root_ (tree c))) ∧ rates_of c' = rates_of c ∧
    ∃ n, phaseNodeCache (tree c') !! p = Some n ∧ level_ n = lv ∧ parent_ n = par ∧ children_ n = [].
Proof.
  intros [Hc Hcur Hpar Hkey] Hlv Hp. cbv zeta. unfold ParsePhase.
  rewrite UpdateSwitchParams_key by lia. rewrite ret_bind. cbn [tree with_place with_key].
  rewrite (u32_small (phase_gen (tree c))), Z.eqb_refl by lia. cbn [cassert]. rewrite ret_bind, u32_small, Hcur by lia.
  destruct (PhaseNode_new_ext (tree c) (info c) par lv "Undefined" kExecution Hc Hpar)
    as (t' & -> & Hr & Hg & Hc' & He & n & Hn & Hl & _ & Hpn & Hch).
  rewrite ret_bind. eexists. split; [reflexivity|]. simpl. split; [|split; [done|split; [|split; [|split; [|split]]]]].
  - split; simpl; [by destruct Hc'|done| |done]. intros q [= <-]. eauto.
  - destruct He as [N I]. split; simpl; [done|]. intros q Hq. rewrite lookup_insert_ne; [by apply I|].
    intros <-. destruct Hq as [m Hm]. apply (co_dom _ Hc) in Hm. lia.
  - apply lookup_insert_eq.
  - rewrite Hr. by destruct (root_ (tree c)).
  - done.
  - eauto.
Qed.

Lemma load_node key sub c :
  load (item_events (Node key sub)) c =
    (c ← ParseParam atof totalTaskSize keep key c; load (List.concat (map item_events sub) ++ [SequenceEnd; OtherEvent])%list c).
Proof. reflexivity. Qed.

(** A number that is not the next one. *)
Lemma ParsePhase_order c lv p :
  0 ≤ lv < 2 ^ 32 → 0 ≤ p < 2 ^ 32 → p ≠ phase_gen (tree c) → ParsePhase (phase_key lv p) c = Err AssertFail.
Proof.
  intros Hlv Hp Hne. unfold ParsePhase. rewrite UpdateSwitchParams_key by lia. rewrite ret_bind.
  cbn [tree with_place with_key]. rewrite (u32_small p) by lia. by rewrite (proj2 (Z.eqb_neq p (phase_gen (tree c))) Hne).
Qed.

Lemma ParseParam_key c lv p :
  g_prv c ≠ Some "l"%char → ParseParam atof totalTaskSize keep (phase_key lv p) c = ParsePhase (phase_key lv p) c.
Proof.
  intros Hk. unfold ParseParam. change (starts_CD (phase_key lv p)) with true. by rewrite bool_decide_eq_false_2.
Qed.

(** A value that starts with a digit or a minus sign is not taken for a key. *)
Definition is_value (s : string) : bool :=
  match s with
  | String a _ => (45 <=? Z.of_nat (nat_of_ascii a)) && (Z.of_nat (nat_of_ascii a) <=? 57)
  | EmptyString => false
  end.

Lemma ParseParam_value s c : is_value s → ParseParam atof totalTaskSize keep s c = ParseValue atof totalTaskSize keep s c.
Proof.
  intros Hs. destruct s as [|a s]; [done|]. unfold ParseParam.
  destruct a as [[] [] [] [] [] [] [] []]; try (exfalso; exact Hs); reflexivity.
Qed.

Lemma is_value_print_u z : is_value (print_u 10 z).
Proof.
  unfold print_u. destruct (print_digits_head 10 63 z "" ltac:(lia)) as (d & r & Hd & ->).
  assert (∀ d, 0 ≤ d < 16 → d < 10 → is_value (String (digit_char d) r)) as H; [|apply H; lia].
  intros e He. apply (digit_cases e (λ d, d < 10 → is_value (String (digit_char d) r))); try done; lia.
Qed.

Lemma is_value_print_d z : is_value (print_d z).
Proof. unfold print_d. destruct (z <? 0); [done|apply is_value_print_u]. Qed.

Lemma set_all x p (m : gmap Z PhaseInfo) :
  m !! p = Some new_info →
  alter (set_medium (medium_ x)) p (alter (set_errortype (errortype_ x)) p (alter (set_interval (interval_ x)) p m)) =
  <[p := x]> m.
Proof.
  intros Hm. apply map_eq. intros q. destruct (decide (q = p)) as [->|Hne].
  - rewrite !lookup_alter_eq, Hm, lookup_insert_eq. by destruct x.
  - by rewrite !lookup_alter_ne, lookup_insert_ne.
Qed.

Lemma load_fields c p lab x :
  state_ok c (Some p) → info c !! p = Some new_info → printable_phase 0 0 lab x →
  ∃ c', load (item_events (Item (info_fields lab x))) c = Ok c' ∧ tree c' = touch p (set_label lab) (tree c) ∧
    info c' = <[p := read_back x]> (info c) ∧ g_prv c' ≠ Some "l"%char ∧ rates_of c' = rates_of c.
Proof.
  intros [_ Hcur _ _] Hx (_ & _ & Hres & Hint & Hm). unfold info_fields.
  assert (GetMedium (get "" (medium_name (medium_ x))) = Ok (medium_ x) ∧
    ∀ c, ParseParam atof totalTaskSize keep (get "" (medium_name (medium_ x))) c =
         ParseValue atof totalTaskSize keep (get "" (medium_name (medium_ x))) c) as [Hm1 Hm2].
  { rewrite !elem_of_cons in Hm. destruct Hm as [E|[E|[E|[E|E]]]]; [rewrite E; split; reflexivity..|]. by apply not_elem_of_nil in E. }
  assert (strtol ("0x" +:+ print_u 16 (u64 (errortype_ x))) 16 = errortype_ (read_back x)) as He by apply strtol_print_hex, u64_range.
  cbn [item_events map List.concat fst snd app foldM LoadEvent]. rewrite ret_bind.
  (* label *)
  change (ParseParam atof totalTaskSize keep "label" c) with (Ok (with_key (Some "l"%char) c)). rewrite ret_bind.
  assert (ParseParam atof totalTaskSize keep lab (with_key (Some "l"%char) c) =
    Ok (with_phases (touch p (set_label lab) (tree c)) (info c) (with_key (Some "l"%char) c))) as ->.
  { unfold ParseParam. cbn [g_prv with_key]. rewrite bool_decide_eq_true_2 by done. rewrite andb_false_r.
    unfold reserved in Hres. rewrite !orb_false_iff in Hres. destruct Hres as [[[[-> ->] ->] ->] ->].
    unfold ParseValue. cbn [g_prv with_key tree]. rewrite Hcur. cbn [deref]. by rewrite ret_bind. }
  rewrite ret_bind. set (c1 := with_phases _ _ _).
  change (ParseParam atof totalTaskSize keep "interval" c1) with (Ok (with_key (Some "i"%char) c1)). rewrite ret_bind.
  rewrite ParseParam_value by apply is_value_print_d. unfold ParseValue at 1. cbn [g_prv with_key].
  rewrite atol_print_d by done. change (current_ (tree (with_key (Some "i"%char) c1))) with (current_ (tree c)).
  rewrite Hcur. cbn [deref]. rewrite !ret_bind. set (c2 := with_phases _ _ _).
  change (ParseParam atof totalTaskSize keep "errortype" c2) with (Ok (with_key (Some "e"%char) c2)). rewrite ret_bind.
  rewrite ParseParam_value by exact I. unfold ParseValue at 1. cbn [g_prv with_key].
  change (current_ (tree (with_key (Some "e"%char) c2))) with (current_ (tree c)). rewrite Hcur. cbn [deref].
  rewrite ret_bind. cbv zeta. rewrite He, ret_bind. set (c3 := with_errortype _ _).
  change (ParseParam atof totalTaskSize keep "medium" c3) with (Ok (with_key (Some "m"%char) c3)). rewrite ret_bind.
  rewrite Hm2. unfold ParseValue at 1. cbn [g_prv with_key]. rewrite Hm1, ret_bind.
  change (current_ (tree (with_key (Some "m"%char) c3))) with (current_ (tree c)). rewrite Hcur. cbn [deref].
  rewrite !ret_bind. eexists. split; [reflexivity|]. split; [reflexivity|]. split; [|split; [discriminate|reflexivity]].
  exact (set_all (read_back x) p (info c) Hx).
Qed.

(** The fields leave a new phase without children. *)
Lemma fields_ok c0 c c' p par lab x :
  state_ok c (Some p) → phaseNodeCache (tree c0) !! p = None → ext par [p] (tree c0) (info c0) (tree c) (info c) →
  tree c' = touch p (set_label lab) (tree c) → info c' = <[p := x]> (info c) → g_prv c' ≠ Some "l"%char →
  state_ok c' (Some p) ∧ ext par [p] (tree c0) (info c0) (tree c') (info c').
Proof.
  intros [[Hd Hch] Hcur Hpar _] Hp [N I] Ht Hi Hk. rewrite Ht, Hi. split.
  - assert (∀ q, is_Some (phaseNodeCache (touch p (set_label lab) (tree c)) !! q) ↔ is_Some (phaseNodeCache (tree c) !! q)) as Hs.
    { intros q. simpl. by rewrite lookup_alter_is_Some. }
    split; [rewrite Ht; split|by rewrite Ht| |done].
    + intros q n Hq. destruct (proj1 (Hs q) (ex_intro _ n Hq)) as [m Hm]. exact (Hd q m Hm).
    + intros q n y Hq Hy. apply Hs. simpl in Hq. rewrite lookup_alter_Some in Hq.
      destruct Hq as [(-> & m & Hm & ->)|[_ Hq]]; eauto.
    + intros q Hq. rewrite Ht. apply Hs. eauto.
  - split.
    + intros q n Hq. assert (q ≠ p) by congruence. simpl. rewrite lookup_alter_ne by done. eauto.
    + intros q Hq. assert (q ≠ p) by (intros ->; destruct Hq; congruence). rewrite lookup_insert_ne by done. eauto.
Qed.

Lemma ext_below par p l t i t1 i1 t2 i2 :
  phaseNodeCache t !! p = None → ext par [p] t i t1 i1 → ext (Some p) l t1 i1 t2 i2 → ext par [p] t i t2 i2.
Proof.
  intros Hp [N1 I1] [N2 I2]. split.
  - intros q n Hq. assert (q ≠ p) by congruence. destruct (N1 q n Hq) as (n1 & Hn1 & L1 & B1 & P1 & C1).
    destruct (N2 q n1 Hn1) as (n2 & Hn2 & L2 & B2 & P2 & C2). exists n2. split; [done|]. repeat (split; [congruence|]).
    rewrite C2, decide_False, app_nil_r by congruence. done.
  - intros q [n Hq]. destruct (N1 q n Hq) as (n1 & Hn1 & _). rewrite I2; eauto.
Qed.

Definition loads (pt : ptree) : Prop := ∀ c par lv,
  state_ok c par → numbered (phase_gen (tree c)) lv pt → printable pt →
  ∃ c', load (item_events (doc pt)) c = Ok c' ∧ state_ok c' par ∧ phase_gen (tree c') = phase_gen (tree c) + psize pt ∧
    ext par [phase_gen (tree c)] (tree c) (info c) (tree c') (info c') ∧ represents (tree c') (info c') par (tree_read_back pt) ∧
    root_ (tree c') = Some (default (phase_gen (tree c)) (root_ (tree c))) ∧ rates_of c' = rates_of c.

Lemma load_list sub : Forall loads sub → ∀ c p lv,
  state_ok c (Some p) → p < phase_gen (tree c) → numbered_list (phase_gen (tree c)) lv sub → Forall printable sub →
  is_Some (root_ (tree c)) →
  ∃ c', load (List.concat (map item_events (map doc sub))) c = Ok c' ∧ state_ok c' (Some p) ∧
    phase_gen (tree c') = phase_gen (tree c) + psizes sub ∧
    ext (Some p) (pid <$> sub) (tree c) (info c) (tree c') (info c') ∧
    Forall (represents (tree c') (info c') (Some p)) (map tree_read_back sub) ∧ root_ (tree c') = root_ (tree c) ∧
    rates_of c' = rates_of c.
Proof.
  induction 1 as [|s sub Hs _ IH]; intros c p lv Hc Hp Hnum Hpr Hr.
  - exists c. simpl. rewrite Z.add_0_r. split; [done|]. split; [done|]. split; [done|]. split; [|done].
    split; [|done]. intros q n Hn. exists n. repeat (split; [done|]). case_decide; by rewrite app_nil_r.
  - destruct Hnum as [Hn Hnum]. apply Forall_cons_1 in Hpr as [Hps Hpr].
    destruct (Hs c (Some p) lv Hc Hn Hps) as (c1 & H1 & Hc1 & Hg1 & He1 & Hr1 & Hroot1 & Hs1).
    assert (root_ (tree c1) = root_ (tree c)) as Hroot by (rewrite Hroot1; by destruct Hr as [r ->]).
    pose proof (psize_pos s). rewrite <-Hg1 in Hnum.
    destruct (IH c1 p lv Hc1 ltac:(lia) Hnum Hpr ltac:(by rewrite Hroot)) as (c2 & H2 & Hc2 & Hg2 & He2 & Hr2 & Hroot2 & Hs2).
    assert (pid s = phase_gen (tree c)) as Hpid by (destruct s; exact (proj1 Hn)).
    exists c2. cbn [map List.concat]. rewrite foldM_app, H1, ret_bind. split; [done|]. split; [done|]. split; [|split; [|split; [|split]]].
    + rewrite Hg2, Hg1. change (psizes (s :: sub)) with (psize s + psizes sub). lia.
    + cbn [fmap list_fmap]. rewrite Hpid. exact (ext_trans _ [_] _ _ _ _ _ _ _ He1 He2).
    + constructor; [|done]. apply (represents_ext (tree_read_back s) (Some p) (pid <$> sub) (phase_gen (tree c)) lv (Some p) (tree c1) (info c1));
        [by apply numbered_read_back| |done|done]. by intros q [= <-].
    + congruence.
    + congruence.
Qed.

Lemma load_tree pt : loads pt.
Proof.
  induction pt as [p l lab x sub IH] using ptree_ind'. intros c par lv Hc Hnum Hpr.
  apply numbered_PT in Hnum as (-> & -> & Hnum). destruct Hpr as [Hpp Hprs]. apply foldr_Forall in Hprs.
  pose proof Hpp as (Hlv & Hp & _). set (p := phase_gen (tree c)) in *.
  destruct (ParsePhase_ok c par lv Hc Hlv Hp) as (c1 & H1 & Hc1 & Hg1 & He1 & Hx1 & Hr1 & Hs1 & n1 & Hn1 & Hl1 & Hp1 & Hch1).
  fold p in H1, Hg1, He1, Hx1, Hr1, Hn1, Hc1.
  assert (phaseNodeCache (tree c) !! p = None) as Hfresh.
  { destruct (phaseNodeCache (tree c) !! p) as [m|] eqn:E; [|done]. apply (co_dom _ (so_cache _ _ Hc)) in E. unfold p in E. lia. }
  assert (printable_phase 0 0 lab x) as Hpp0 by (destruct Hpp as (_ & _ & Hrest); repeat (split; [done|]); exact Hrest).
  destruct (load_fields c1 p lab x Hc1 Hx1 Hpp0) as (c2 & H2 & Ht2 & Hi2 & Hk2 & Hs2).
  destruct (fields_ok c c1 c2 p par lab (read_back x) Hc1 Hfresh He1 Ht2 Hi2 Hk2) as [Hc2 He2].
  destruct (load_list sub IH c2 p (lv + 1) Hc2) as (c3 & H3 & Hc3 & Hg3 & He3 & Hr3 & Hroot3 & Hs3).
  { rewrite Ht2. simpl. rewrite Hg1. lia. }
  { rewrite Ht2. simpl. by rewrite Hg1. }
  { done. }
  { rewrite Ht2. simpl. rewrite Hr1. eauto. }
  destruct (ex_node _ _ _ _ _ _ He3 p (set_label lab n1)) as (n3 & Hn3 & Hl3 & Hb3 & Hp3 & Hch3).
  { rewrite Ht2. simpl. by rewrite lookup_alter_eq, Hn1. }
  cbn [level_ label_ parent_ children_ set_label] in Hl3, Hb3, Hp3, Hch3.
  rewrite decide_True, Hch1, app_nil_l in Hch3 by done.
  exists (with_phases (set_current par (tree c3)) (info c3) c3).
  pose proof (ext_below par p (pid <$> sub) _ _ _ _ _ _ Hfresh He2 He3) as He.
  assert (load (item_events (doc (PT p lv lab x sub))) c = Ok (with_phases (set_current par (tree c3)) (info c3) c3)) as Hload.
  { cbn [doc]. rewrite load_node, (ParseParam_key c lv p (so_key _ _ Hc)), H1, ret_bind. cbn [map List.concat].
    rewrite !foldM_app, H2, ret_bind, H3, ret_bind. cbn [foldM LoadEvent].
    rewrite (so_current _ _ Hc3), (node_Some _ _ _ Hn3), !ret_bind, Hp3, Hp1. done. }
  split; [exact Hload|]. cbn [tree info with_phases]. split; [|split; [|split; [|split; [|split]]]].
  - split; [by destruct (so_cache _ _ Hc3)|done| |apply Hc3]. intros q Hq. cbn [tree with_phases].
    destruct (so_parent _ _ Hc q Hq) as [m Hm]. destruct (ex_node _ _ _ _ _ _ He q m Hm) as (m' & Hm' & _). eauto.
  - cbn [phase_gen set_current]. rewrite Hg3, Ht2. cbn [phase_gen touch]. rewrite Hg1.
    change (psize (PT p lv lab x sub)) with (1 + psizes sub). fold p. lia.
  - destruct He as [N I]. by split.
  - split; [|split].
    + exists n3. cbn [phaseNodeCache set_current]. split; [done|]. split; [congruence|]. split; [congruence|].
      split; [congruence|]. rewrite Hch3. clear. induction sub as [|s sub IH]; [done|]. cbn [map fmap list_fmap].
      by rewrite pid_read_back, IH.
    + rewrite (ex_info _ _ _ _ _ _ He3), Hi2; [apply lookup_insert_eq|]. rewrite Ht2. simpl. rewrite lookup_alter_eq, Hn1. eauto.
    + apply foldr_Forall. eapply Forall_impl; [exact Hr3|]. intros s Hs. exact (represents_cache _ (set_current par (tree c3)) s _ _ Hs eq_refl).
  - cbn [root_ set_current]. rewrite Hroot3, Ht2. exact Hr1.
  - change (rates_of c3 = rates_of c). congruence.
Qed.

(** ** Rates of failures *)

Definition rates_doc (rates : list (Z * string)) : item :=
  Node "FAILURE" (map (λ nr, Item [("F" +:+ print_u 10 nr.1, 1%nat, nr.2)]) rates).

(** A rate that is read, with the environment variable unset. *)
Definition read_rate (nr : Z * string) (s : SystemConfig) : SystemConfig :=
  mkConfig (assign nr.1 (f32 (fdiv (atof nr.2) (f64 totalTaskSize))) (failure_rate_ s)) (<[nr.1 := 0]> (error_count_ s)).

Lemma print_digits_length base fuel k : ∀ z acc, 2 ≤ base ≤ 16 → 0 ≤ z < base ^ Z.of_nat (S k) →
  (String.length (print_digits fuel base z acc) ≤ S k + String.length acc)%nat.
Proof.
  revert k. induction fuel as [|fuel IH]; intros k z acc Hb Hz; [simpl; lia|].
  change (print_digits (S fuel) base z acc) with
    (if z / base =? 0 then String (digit_char (z mod base)) acc
     else print_digits fuel base (z / base) (String (digit_char (z mod base)) acc)).
  destruct (Z.eqb_spec (z / base) 0) as [|Hne]; [cbn [String.length]; lia|]. destruct k as [|k].
  - exfalso. apply Hne, Z.div_small. change (base ^ Z.of_nat 1) with (base ^ 1) in Hz. lia.
  - pose proof (IH k (z / base) (String (digit_char (z mod base)) acc) Hb) as Hlen. cbn [String.length] in Hlen.
    enough (0 ≤ z / base < base ^ Z.of_nat (S k)) as Hd by (specialize (Hlen Hd); lia).
    split; [apply Z.div_pos; lia|]. apply Z.div_lt_upper_bound; [lia|].
    rewrite (Nat2Z.inj_succ (S k)), Z.pow_succ_r in Hz by lia. lia.
Qed.

Lemma ftype_single s c :
  match s :: base.filter (λ p, p ≠ "") [] with "FAILURE" :: n :: _ => with_ftype n c | _ => c end = c.
Proof. cbn. repeat case_match; reflexivity. Qed.

Lemma ParseFailure_type n c :
  0 ≤ n < 2 ^ 63 → ParseFailure ("F" +:+ print_u 10 n) c = Ok (with_errortype n (with_key (Some "F"%char) c)).
Proof.
  intros Hn. unfold ParseFailure. assert (String.length (print_u 10 n) ≤ 19)%nat as Hlen.
  { pose proof (print_digits_length 10 64 18 n "" ltac:(lia)) as H. change (String.length "") with O in H.
    change (10 ^ Z.of_nat 19) with 10000000000000000000 in H. change (print_digits 64 10 n "") with (print_u 10 n) in H. lia. }
  change (String.length ("F" +:+ print_u 10 n)) with (S (String.length (print_u 10 n))).
  rewrite (proj2 (Z.leb_gt _ _)) by lia. unfold tokens. rewrite split_plain_last.
  - rewrite filter_cons_True by done. cbn match. change (match "F" +:+ print_u 10 n with String _ s => s | EmptyString => "" end) with (print_u 10 n).
    rewrite atol_print by done. by rewrite (ftype_single ("F" +:+ print_u 10 n) c).
  - by apply (print_digits_plain 10 64 n "").
Qed.

Lemma load_rates rates : ∀ c,
  keep = None → Forall (λ nr, 0 ≤ nr.1 < 2 ^ 63 ∧ is_value nr.2) rates →
  ∃ c', load (List.concat (map item_events (map (λ nr, Item [("F" +:+ print_u 10 nr.1, 1%nat, nr.2)]) rates))) c = Ok c' ∧
    tree c' = tree c ∧ info c' = info c ∧ is_error_free c' = is_error_free c ∧
    sys c' = foldl (λ s nr, read_rate nr s) (sys c) rates.
Proof.
  intros c Hkeep Hrates. revert c. induction Hrates as [|[n r] rates [Hn Hr] _ IH]; intros c; [by exists c|].
  cbn [fst snd] in Hn, Hr. destruct (IH (with_rates (read_rate (n, r) (sys c)) (assign n (f32 (atof r)) (failure_rate_record_ c))
    (is_error_free c) (with_errortype n (with_key (Some "F"%char) c)))) as (c' & H & Ht & Hi & Hf & Hs).
  exists c'. split; [|done]. cbn [map List.concat item_events fst snd app]. rewrite <-H.
  generalize (List.concat (map item_events (map (λ nr, Item [("F" +:+ print_u 10 nr.1, 1%nat, nr.2)]) rates))). intros es.
  change (load (OtherEvent :: Scalar ("F" +:+ print_u 10 n) :: Scalar r :: OtherEvent :: es) c) with
    (c1 ← ParseParam atof totalTaskSize keep ("F" +:+ print_u 10 n) c;
     c2 ← ParseParam atof totalTaskSize keep r c1; load es c2).
  change (ParseParam atof totalTaskSize keep ("F" +:+ print_u 10 n) c) with (ParseFailure ("F" +:+ print_u 10 n) c).
  rewrite ParseFailure_type, ret_bind, ParseParam_value by done. unfold ParseValue. cbn [g_prv with_errortype with_key].
  unfold ParseRate. rewrite Hkeep. cbn [g_errortype with_errortype with_key]. change (1 <? 1) with false. change (1 =? 1) with true.
  cbn match. rewrite ret_bind. reflexivity.
Qed.
End reading.

Lemma state_ok_empty : state_ok empty_config None.
Proof.
  split; [|done..|discriminate]. split; simpl; intros q n; [|intros x]; by rewrite lookup_empty.
Qed.

(** The document of one list of phases or of rates that leaves no phase open. *)
Lemma LoadConfig_document atof size keep es c c' :
  foldM (LoadEvent atof size keep) es c = Ok c' → current_ (tree c') = None →
  LoadConfig atof size keep (document es) c =
    Ok (with_phases (mkTree (root_ (tree c')) (root_ (tree c')) (phaseNodeCache (tree c')) (phasePath (tree c')) 0) (info c') c').
Proof.
  intros Hc Hcur. unfold LoadConfig, document. rewrite foldM_app.
  change (foldM (LoadEvent atof size keep) [OtherEvent; OtherEvent; SequenceStart] c) with (@Ok Config c).
  rewrite ret_bind, foldM_app, Hc, ret_bind. cbn [foldM LoadEvent]. rewrite Hcur. done.
Qed.

(** C24: The file of configuration that [PrintInputYAML] writes for the phases of
    an execution that first met them in the order of the tree ([numbered]: a parent
    before its children, all of a phase before the next sibling), with levels that
    count from 0, labels that are not a key and do not begin with F, and one of the
    four media for each ([printable]), is the block sequence of mappings [doc], whose events, with the
    rates of failures that a user adds to the file, [LoadConfig] reads into a
    tree with the same phases, levels, labels, intervals and media; each type of
    failure gets its rate for the number of tasks; and the first phase is the
    current one, with the numbering of phases at 0 for the execution to come.
    Only the vectors of errors may differ: those with the highest bit, such as
    the root's, become 2^63 - 1. *)
Theorem config_roundtrip atof totalTaskSize t i pt rates :
  root_ t = Some 0 → phase_gen t = psize pt → represents t i None pt → numbered 0 0 pt → printable pt →
  Forall (λ nr, 0 ≤ nr.1 < 2 ^ 63 ∧ is_value nr.2) rates →
  PrintInputYAML t i = Ok (render 0 (doc pt)) ∧
  ∃ c, LoadConfig atof totalTaskSize None (document (item_events (doc pt) ++ item_events (rates_doc rates))) empty_config = Ok c ∧
    represents (tree c) (info c) None (tree_read_back pt) ∧ root_ (tree c) = Some 0 ∧ current_ (tree c) = Some 0 ∧
    phase_gen (tree c) = 0 ∧ is_error_free c = false ∧
    sys c = foldl (λ s nr, read_rate atof totalTaskSize nr s) (mkConfig [] ∅) rates.
Proof.
  intros Hroot Hgen Hrep Hnum Hpr Hrates. assert (pid pt = 0) as Hpid by (destruct pt; exact (proj1 Hnum)).
  pose proof (psize_pos pt). split.
  - unfold PrintInputYAML. rewrite Hroot. cbn [deref]. rewrite ret_bind, Hgen. rewrite <-Hpid at 2.
    change 0%nat with (Z.to_nat (0 * 2)). apply (print_yaml_doc t i pt None); [done|by rewrite Hpid|done|lia].
  - destruct (load_tree atof totalTaskSize None pt empty_config None 0 state_ok_empty Hnum Hpr)
      as (c & Hc & Hok & Hg & _ & Hr & Hroot' & Hrt).
    destruct (load_rates atof totalTaskSize None rates
      (with_errortype 0 (with_key (Some "F"%char) c)) eq_refl Hrates) as (c' & Hc' & Ht & Hi & Hf & Hs).
    change (tree c' = tree c) in Ht. change (info c' = info c) in Hi.
    change (rates_of c = (mkConfig [] ∅, false)) in Hrt. injection Hrt as Hsys Hfree.
    change (is_error_free c' = is_error_free c) in Hf. cbn [sys with_errortype with_key] in Hs. rewrite Hsys in Hs.
    pose proof (so_current _ _ Hok) as Hcur. eexists. split.
    + apply LoadConfig_document with (c' := c'); [|by rewrite Ht]. rewrite foldM_app, Hc, ret_bind.
      unfold rates_doc. rewrite load_node. change (ParseParam atof totalTaskSize None "FAILURE" c) with
        (@Ok Config (with_errortype 0 (with_key (Some "F"%char) c))).
      rewrite ret_bind, foldM_app, Hc', ret_bind. cbn [foldM LoadEvent]. by rewrite Ht, Hcur.
    + cbn [tree info sys is_error_free with_phases root_ current_ phase_gen]. rewrite Hi, Ht, Hroot', Hf, Hfree.
      split; [|by repeat split]. by apply (represents_cache (tree c)).
Qed.

(** An execution of two phases in the first, the first of which has a third,
    which the runtime meets before or after the second. *)
Definition root_info : PhaseInfo := mkInfo (-1) (-1) kGlobalDisk.
Definition some_info : gmap Z PhaseInfo :=
  {[ 0 := root_info; 1 := mkInfo 10 255 kLocalMemory; 2 := mkInfo (-1) 3 kLocalDisk; 3 := mkInfo 2 15 kRemoteMemory ]}.
Definition leave (t : PhaseTree) : PhaseTree :=
  match current_ t with
  | Some q => match phaseNodeCache t !! q with Some n => set_current (parent_ n) t | None => t end
  | None => t
  end.
Definition early_child : res PhaseTree :=
  '(_, t) ← BeginPhase 0 "main" empty_tree;
  '(_, t) ← BeginPhase 1 "step" t;
  '(_, t) ← BeginPhase 2 "rebuild" t;
  '(_, t) ← BeginPhase 1 "output" (leave (leave t));
  Ok (leave (leave t)).
Definition late_child : res PhaseTree :=
  '(_, t) ← BeginPhase 0 "main" empty_tree;
  '(_, t) ← BeginPhase 1 "step" t;
  '(_, t) ← BeginPhase 1 "output" (leave t);
  '(_, t) ← BeginPhase 1 "step" (leave t);
  '(_, t) ← BeginPhase 2 "rebuild" t;
  Ok (leave (leave (leave t))).
Definition some_ptree (rebuild output : Z) : ptree :=
  let x p := default new_info (some_info !! p) in
  PT 0 0 "main" (x 0) [PT 1 1 "step" (x 1) [PT rebuild 2 "rebuild" (x rebuild) []]; PT output 1 "output" (x output) []].

Lemma some_numbered : numbered 0 0 (some_ptree 2 3).
Proof. vm_compute. repeat split. Qed.
Lemma some_printable : printable (some_ptree 2 3).
Proof.
  cbn [printable some_ptree foldr]. repeat (exact I || (apply (bool_decide_unpack _); vm_compute; exact I) || split).
Qed.

Lemma config_roundtrip_witness :
  let t := get empty_tree early_child in let pt := some_ptree 2 3 in
  PrintInputYAML t some_info = Ok (render 0 (doc pt)) ∧
  ∃ c, LoadConfig (λ _, fone) 4 None (document (item_events (doc pt) ++ item_events (rates_doc [(1, "0.001"); (32, "0.06")])))
      empty_config = Ok c ∧
    represents (tree c) (info c) None (tree_read_back pt) ∧ root_ (tree c) = Some 0 ∧ current_ (tree c) = Some 0 ∧
    phase_gen (tree c) = 0 ∧ is_error_free c = false ∧
    sys c = foldl (λ s nr, read_rate (λ _, fone) 4 nr s) (mkConfig [] ∅) [(1, "0.001"); (32, "0.06")].
Proof.
  cbv zeta. apply (config_roundtrip (λ _, fone) 4); [reflexivity|reflexivity| | | |].
  - vm_compute. repeat (first [exact I|reflexivity|eexists|split]).
  - exact some_numbered.
  - exact some_printable.
  - apply (bool_decide_unpack _); vm_compute; exact I.
Defined.

(** A phase that the runtime first meets after a later sibling of its parent
    gets a number that its place in the file does not have: the file that is
    written for the execution is refused when it is read, since the constructor
    of a node takes numbers to be given in the order of the file. *)
Theorem late_phase_unreadable atof totalTaskSize :
  ∃ t, late_child = Ok t ∧ represents t some_info None (some_ptree 3 2) ∧
    PrintInputYAML t some_info = Ok (render 0 (doc (some_ptree 3 2))) ∧
    LoadConfig atof totalTaskSize None (document (item_events (doc (some_ptree 3 2)))) empty_config = Err AssertFail.
Proof.
  exists (get empty_tree late_child). split; [vm_compute; reflexivity|]. split; [|split].
  - vm_compute. repeat (first [exact I|reflexivity|eexists|split]).
  - vm_compute. reflexivity.
  - vm_compute. reflexivity.
Qed.

(** The file is opened for appending: that of two executions has the phases
    of both, and is refused at the first phase of the second. *)
Theorem appended_unreadable atof totalTaskSize keep pt pt' :
  numbered 0 0 pt → printable pt → numbered 0 0 pt' → printable pt' →
  LoadConfig atof totalTaskSize keep (document (item_events (doc pt) ++ item_events (doc pt'))) empty_config = Err AssertFail.
Proof.
  intros Hnum Hpr Hnum' Hpr'.
  destruct (load_tree atof totalTaskSize keep pt empty_config None 0 state_ok_empty Hnum Hpr)
    as (c & Hc & Hok & Hg & _). change (phase_gen (tree empty_config)) with 0 in Hg. pose proof (psize_pos pt).
  unfold LoadConfig, document. rewrite !foldM_app.
  change (foldM (LoadEvent atof totalTaskSize keep) [OtherEvent; OtherEvent; SequenceStart] empty_config) with
    (@Ok Config empty_config).
  rewrite ret_bind, !foldM_app, Hc, ret_bind. destruct pt' as [p lv lab x sub].
  destruct Hnum' as (-> & -> & _). cbn [doc]. rewrite load_node, ParseParam_key by apply Hok.
  by rewrite ParsePhase_order by lia.
Qed.

Lemma appended_unreadable_witness :
  LoadConfig (λ _, fone) 4 None (document (item_events (doc (some_ptree 2 3)) ++ item_events (doc (some_ptree 2 3))))
    empty_config = Err AssertFail.
Proof. apply appended_unreadable; first [exact some_numbered|exact some_printable]. Defined.

(** The root's vector of all errors loses its highest bit. *)
Lemma root_vector_read_back : u64 (errortype_ root_info) = 2 ^ 64 - 1 ∧ errortype_ (read_back root_info) = 2 ^ 63 - 1.
Proof. split; reflexivity. Qed.

(** A label with an F in front is taken for a type of failure, here 0: the phase
    keeps the label of the constructor. *)
Lemma F_label_lost atof totalTaskSize :
  match LoadConfig atof totalTaskSize None (document (item_events (doc (PT 0 0 "Forces" root_info [])))) empty_config with
  | Ok c => option_map label_ (phaseNodeCache (tree c) !! 0) = Some "Undefined" ∧ g_errortype c = LONG_MAX
  | _ => False
  end.
Proof. vm_compute. by split. Qed.

(** The name of a type of failure with its 31 characters and the end fills the
    array that it is copied into; one more is written behind it. *)
Lemma long_failure_overflows atof totalTaskSize c :
  ParseParam atof totalTaskSize None "FAILURE_of_the_memory_or_the_node" c = Err OutOfBounds.
Proof. reflexivity. Qed.

(** ** Runs without errors *)

Section no_error.
(** The exponential function of long doubles at a zero. *)
Context (expl : spec_float → spec_float) (expl_zero : ∀ s, expl (S754_zero s) = ldone).

(** With CD_NO_ERROR, no error is ever injected, whatever the file says. *)
Theorem no_error_run atof totalTaskSize keep evs c0 c clk prev x :
  CD_Init_config atof totalTaskSize keep true evs c0 = Ok c → finite (longdouble (fsub clk prev)) = true →
  is_error_free c = true ∧
  SystemErrorInjector_Inject expl clk (mkSystem (sys c) prev) x =
    (0, mkSystem (sys c) clk, Nat.iter (length (failure_rate_ (sys c))) drand48_next x).
Proof using expl_zero.
  intros (c1 & _ & [= <-])%bind_Ok Hp. split; [done|].
  rewrite (zero_rates_no_error expl expl_zero clk (mkSystem _ prev) x); [done| |done].
  apply Forall_forall. intros f (v & -> & _)%list_elem_of_fmap. done.
Qed.
End no_error.
