(* ===== verification/Detection.v ===== *)
(** * Errors that the runtime finds (cd_handle.cc, cd_internal.cc, phase_tree.cc)

    [CDHandle::Detect] asks the injector of the system for errors and looks for
    the domain that recovers from them: the innermost one whose vector of errors
    has all that occurred.  The file holds the vectors of domains and phases,
    the runtime of Handle.v with them, its steps, and the theorems: the root
    recovers from every error, the search finds the innermost domain, and
    Complete jumps to it.  The last section is about CDAssert with an injector
    that a test registered.  As in Handle.v there is one task, and the runtime
    is built without tuning. *)

From Stdlib Require Import ZArith Lia String SpecFloat.
From stdpp Require Import base gmap list numbers strings.
From S2P Require Import Prelude Float64 CdLog TableStore DataStore Preserve PhaseTree Handle Phases Nesting Escalation.
From S2P Require Import FailurePoint ErrorInjector.

#[local] Open Scope Z_scope.

(** ** State *)

(** All errors: ROOT_SYS_DETECT_VEC, and the value of [-1] in 64 bits. *)
Definition ROOT_SYS_DETECT_VEC : Z := 18446744073709551615.

(** The runtime with the vectors of phases and domains, the injector and the
    state of the random numbers. *)
Record InjRt := mkInj {
  rt : Rt;
  errortype_ : gmap Z Z;
  sys_detect_bit_vector_ : gmap Z Z;
  system_error_injector_ : SystemErrorInjector;
  rand_state : Z;
}.

Definition with_rt (r : Rt) (s : InjRt) : InjRt :=
  mkInj r (errortype_ s) (sys_detect_bit_vector_ s) (system_error_injector_ s) (rand_state s).
Definition with_vectors (r : Rt) (et bits : gmap Z Z) (s : InjRt) : InjRt :=
  mkInj r et bits (system_error_injector_ s) (rand_state s).
Definition with_injector (i : SystemErrorInjector) (x : Z) (s : InjRt) : InjRt :=
  mkInj (rt s) (errortype_ s) (sys_detect_bit_vector_ s) i x.

Definition bits_of (s : InjRt) (h : Z) : Z := default 0 (sys_detect_bit_vector_ s !! h).

(** CHECK_SYS_ERR_VEC. *)
Definition CHECK_SYS_ERR_VEC (x y : Z) : bool := Z.land x y =? x.

Section runtime.
(** CD_DATA_GROW_UNIT, the exponential function, and the phases of the
    configuration file with their labels and vectors, in the order of
    tuned::phaseNodeCache. *)
Context (data_grow_unit : Z) (expl : spec_float → spec_float) (config : list (string * Z)).

(** ** Creation and Begin *)

(** [CD_Init] with [InitErrorInjection] and the injector of the system. *)
Definition inj_Init (seed : Z) (sc : SystemConfig) (clk : real_t) : res InjRt :=
  r ← CD_Init data_grow_unit;
  Ok (mkInj r ∅ (match last (uniquePath r) with Some h => {[h := ROOT_SYS_DETECT_VEC]} | None => ∅ end)
        (mkSystem sc clk) (srand48 seed)).

(** [SetSystemBitVector]. *)
Definition SetSystemBitVector (error_name_mask error_loc_mask : Z) : Z := Z.lor error_name_mask error_loc_mask.

(** [CDHandle::Create]. *)
Definition inj_Create (h : Z) (nm : string) (error_name_mask error_loc_mask : Z) (s : InjRt) : res (Z * InjRt) :=
  let sys_bit_vec := SetSystemBitVector error_name_mask error_loc_mask in
  '(h', r) ← Create data_grow_unit h nm (rt s);
  Ok (h', with_vectors r (errortype_ s) (<[h' := sys_bit_vec]> (sys_detect_bit_vector_ s)) s).

(** The end of [GetPhaseNode]: the vector of the first phase of the
    configuration with the label, or the one of the domain. *)
Definition config_vector (label : string) (error_vec_from_api : Z) : Z :=
  match list_find (λ e, e.1 = label) config with Some (_, e) => e.2 | None => error_vec_from_api end.

(** The vectors of phases after [BeginPhase] of [s], which began phase [cur]. *)
Definition BeginVector (s : InjRt) (cur : Z) (label : string) (api : Z) : gmap Z Z :=
  match current_ (tree (rt s)), root_ (tree (rt s)) with
  | Some _, _ => <[cur := config_vector label api]> (errortype_ s)
  | None, None => <[cur := ROOT_SYS_DETECT_VEC]> (errortype_ s)
  | None, Some _ => errortype_ s
  end.

(** [CDHandle::Begin] and [CD::Begin]: the vector of the domain is that of its
    phase. *)
Definition inj_Begin (h : Z) (lab : string) (sys_error_vec : Z) (s : InjRt) : res InjRt :=
  let bits := if sys_error_vec =? 0 then sys_detect_bit_vector_ s
              else <[h := sys_error_vec]> (sys_detect_bit_vector_ s) in
  c ← obj (rt s) h;
  r ← Begin h lab (rt s);
  cur ← deref (current_ (tree r));
  let et := BeginVector s cur (begin_label lab c) (default 0 (bits !! h)) in
  Ok (with_vectors r et (<[h := default ROOT_SYS_DETECT_VEC (et !! cur)]> bits) s).

(** ** Detection *)

(** [CDPath::GetParentCD]. *)
Definition GetParentCD (r : Rt) (current_level : Z) : res (option Z) :=
  if (1 <? Z.of_nat (length (uniquePath r))) && (1 <=? current_level)
  then p ← aload (uniquePath r) (current_level - 1); Ok (Some p) else Ok None.

(** The loop of [CheckErrorOccurred]; every step is one level up. *)
Fixpoint find_cover (fuel : nat) (s : InjRt) (sys_err_vec : Z) (cdh : option Z) : res (option Z) :=
  match fuel, cdh with
  | _, None => Ok None
  | O, _ => Err OutOfFuel
  | S fuel, Some h =>
      c ← obj (rt s) h;
      if CHECK_SYS_ERR_VEC sys_err_vec (bits_of s h) then Ok (Some h)
      else p ← GetParentCD (rt s) (level c); find_cover fuel s sys_err_vec p
  end.

(** [CDHandle::CheckErrorOccurred]: whether an error is reported, and the
    level to roll back to, which [CD::Detect] has set to [-1].  The messages
    read the current phase. *)
Definition CheckErrorOccurred (h : Z) (clk : real_t) (s : InjRt) : res (bool * Z * InjRt) :=
  c ← obj (rt s) h;
  let '(sys_err_vec, i, x) := SystemErrorInjector_Inject expl clk (system_error_injector_ s) (rand_state s) in
  let s := with_injector i x s in
  if sys_err_vec =? 0 then Ok (false, u32 (-1), s) else
  found ← find_cover (S (length (uniquePath (rt s)))) s sys_err_vec (Some h);
  rollback_point ← (match found with Some h' => c' ← obj (rt s) h'; Ok (level c') | None => Ok (u32 (-1)) end : res Z);
  _ ← (if rollback_point <=? level c then _ ← deref (current_ (tree (rt s))); Ok tt else Ok tt);
  _ ← cassert (match found with Some _ => true | None => false end);
  Ok (true, rollback_point, s).

(** [CDHandle::Detect]. *)
Definition inj_Detect (h : Z) (clk : real_t) (s : InjRt) : res (bool * InjRt) :=
  '(err, rollback_point, s) ← CheckErrorOccurred h clk s;
  if err : bool then r ← Detect rollback_point (rt s); Ok (true, with_rt r s) else Ok (false, s).

(** ** Steps *)

(** The steps of Nesting.v, with vectors, and Detect as the runtime does it. *)
Inductive inj_step : InjRt → InjRt → Prop :=
  | ij_create s h nm nmask lmask h' s' :
      last (uniquePath (rt s)) = Some h → active (rt s) h → name_ok (rt s) nm →
      Z.of_nat (length (uniquePath (rt s))) < INVALID_ROLLBACK_POINT →
      inj_Create h nm nmask lmask s = Ok (h', s') → inj_step s s'
  | ij_begin s h lab vec s' :
      last (uniquePath (rt s)) = Some h → label_ok (rt s) lab → inj_Begin h lab vec s = Ok s' → inj_step s s'
  | ij_complete s h o r :
      last (uniquePath (rt s)) = Some h → active (rt s) h → Complete h (rt s) = Ok (o, r) → inj_step s (with_rt r s)
  | ij_destroy s h r :
      last (uniquePath (rt s)) = Some h → ¬ active (rt s) h → (1 < length (uniquePath (rt s)))%nat →
      Destroy (rt s) = Ok r → inj_step s (with_rt r s)
  | ij_assert s h test r :
      h ∈ uniquePath (rt s) → active (rt s) h → CDAssert h test (rt s) = Ok r → inj_step s (with_rt r s)
  | ij_detect s h clk err s' :
      h ∈ uniquePath (rt s) → active (rt s) h → inj_Detect h clk s = Ok (err, s') → inj_step s s'
  | ij_preserve s h c x :
      objs (rt s) !! h = Some c → exec_mode_ x = mode c → inj_step s (with_rt (update h (with_prv x c) (rt s)) s).

Inductive inj_reachable : InjRt → Prop :=
  | ij_init seed sc clk s : inj_Init seed sc clk = Ok s → inj_reachable s
  | ij_step s s' : inj_reachable s → inj_step s s' → inj_reachable s'.

(** ** The root recovers from every error *)

(** The root of the tree of phases is the phase of the first domain. *)
Lemma root_phase r phs p0 : nested r phs → phs !! O = Some p0 → root_ (tree r) = Some p0.
Proof.
  intros Hn H0. destruct (ns_phase r phs Hn O p0 H0) as (n & Hp & _ & Hpar).
  by destruct (tw_root _ (ns_wf r phs Hn) p0 n Hp Hpar).
Qed.

Record vectors_ok (s : InjRt) (phs : list Z) : Prop := {
  vo_nested : nested (rt s) phs;
  vo_root h : head (uniquePath (rt s)) = Some h → phs ≠ [] → sys_detect_bit_vector_ s !! h = Some ROOT_SYS_DETECT_VEC;
  vo_phase p : root_ (tree (rt s)) = Some p → errortype_ s !! p = Some ROOT_SYS_DETECT_VEC;
}.

Lemma active_phases r phs h : nested r phs → last (uniquePath r) = Some h → active r h → phs ≠ [].
Proof.
  intros Hn Hh Ha ->. apply (active_length r [] h Hn Hh) in Ha. by apply (ns_pos r [] Hn), length_zero_iff_nil.
Qed.

(** Steps of the runtime that change no vector. *)
Lemma vectors_kept s r phs phs' :
  vectors_ok s phs → nested r phs' → (phs' ≠ [] → phs ≠ []) → head (uniquePath r) = head (uniquePath (rt s)) →
  root_ (tree r) = root_ (tree (rt s)) → vectors_ok (with_rt r s) phs'.
Proof.
  intros [Hn Hr Hp] Hn' Hphs Hh Ht. split; simpl; [done| |].
  - intros h. rewrite Hh. auto.
  - intros p. rewrite Ht. apply Hp.
Qed.

Lemma Complete_path r phs h o r' :
  nested r phs → last (uniquePath r) = Some h → active r h → Complete h r = Ok (o, r') →
  head (uniquePath r') = head (uniquePath r) ∧ root_ (tree r') = root_ (tree r) ∧ ∃ phs', nested r' phs'.
Proof.
  intros Hn Hh Ha HC. destruct (at_leaf_intro r phs h Hn Hh Ha) as (phs0 & p & c & n & -> & Hl).
  destruct (Complete_cases r phs0 h p c n o r' Hl HC)
    as [(_ & _ & Hn' & s1 & H1 & ->)|(k & hr & s1 & _ & _ & _ & Hrl & HR & _ & Hn')].
  - destruct (CheckRecovered_Ok r phs0 h p c n s1 Hl H1) as [[-> _]|(_ & _ & _ & t & Ht & ->)].
    + split; [done|]. split; [|eauto]. apply (closed_tree_shape _ _ p (last phs0) (tree r)).
    + split; [done|]. split; [|eauto]. etrans; [apply (closed_tree_shape _ _ p (last phs0) t)|]. apply (rs_root _ _ Ht).
  - apply Recover_Ok in HR as (c1 & x & _ & _ & _ & ->). destruct (failing_fields r p n) as (Ft & _ & Fp & _).
    simpl. rewrite (rl_path _ _ _ _ Hrl), Fp. split; [by destruct (uniquePath r)|].
    split; [|eauto]. etrans; [apply (rl_shape _ _ _ _ Hrl)|]. by rewrite Ft.
Qed.

Lemma vectors_rollback s phs lv : vectors_ok s phs → 0 ≤ lv → vectors_ok (with_rt (SetRollbackPoint lv (rt s)) s) phs.
Proof.
  intros Hv Hlv. destruct (SetRollbackPoint_fields lv (rt s)) as (Ht & _ & Hp & _).
  apply (vectors_kept s _ phs); [done| |done|by rewrite Hp|by rewrite Ht].
  apply SetRollbackPoint_nested; [apply (vo_nested _ _ Hv)|done].
Qed.

Lemma vectors_create s phs h nm nmask lmask h' s' :
  vectors_ok s phs → last (uniquePath (rt s)) = Some h → active (rt s) h → name_ok (rt s) nm →
  Z.of_nat (length (uniquePath (rt s))) < INVALID_ROLLBACK_POINT →
  inj_Create h nm nmask lmask s = Ok (h', s') →
  Create data_grow_unit h nm (rt s) = Ok (h', rt s') ∧ vectors_ok s' phs.
Proof.
  intros [Hn Hr Hp] Hh Ha Hnm Hd HC. unfold inj_Create in HC. apply bind_Ok in HC as ([h1 r] & HC & [= <- <-]).
  split; [done|]. destruct (Create_fields data_grow_unit h nm (rt s) h1 r HC) as (Ht & Hpath & _).
  pose proof (Create_nested data_grow_unit (rt s) phs h nm h1 r Hn Hh Ha Hnm Hd HC) as Hn'.
  split; simpl; [done| |by rewrite Ht].
  intros h0 Hh0 Hphs. rewrite Hpath in Hh0. pose proof (ns_pos _ _ Hn) as Hpos.
  destruct (uniquePath (rt s)) as [|x l] eqn:Hl; [done|]. simpl in Hh0. injection Hh0 as ->.
  rewrite lookup_insert_ne; [by apply Hr|]. intros ->.
  assert (O = S (length l)) as H; [|done]. apply (path_inj r phs O (S (length l)) h0 Hn'); rewrite Hpath.
  - done.
  - simpl. by apply list_lookup_middle.
Qed.

Lemma vectors_begin s phs h lab vec s' :
  vectors_ok s phs → last (uniquePath (rt s)) = Some h → label_ok (rt s) lab → inj_Begin h lab vec s = Ok s' →
  Begin h lab (rt s) = Ok (rt s') ∧ ∃ ph, vectors_ok s' (phs ++ [ph]).
Proof.
  intros [Hn Hr Hp] Hh Hlab HB. unfold inj_Begin in HB. apply bind_Ok in HB as (c & Hc%obj_Ok & HB).
  apply bind_Ok in HB as (r & HBr & HB). apply bind_Ok in HB as (cur & Hcur%deref_Ok & [= <-]).
  split; [done|]. destruct (Begin_nested (rt s) phs h lab r Hn Hh Hlab HBr) as (c1 & ph & Hc1 & Ho & Hn').
  exists ph. pose proof (Begin_Ok h lab (rt s) r HBr) as (c2 & ph2 & t & cur2 & t' & Hc2 & Hb2 & Hbp & Hcur2 & Hm & ->).
  assert (c1 = c) as -> by congruence. assert (c2 = c) as -> by congruence.
  destruct (Begin_phase (rt s) phs h lab c ph2 t Hn Hh Hlab Hc Hb2 Hbp) as (Hlen & Hbg & _).
  destruct (MarkPhase_shape cur2 ph2 c (rt s) t t' (bg_wf _ _ _ _ _ Hbg) Hm) as [Hsh Hct].
  simpl in Hcur. rewrite Hct in Hcur.
  assert (cur = ph2) as -> by (pose proof (bg_current _ _ _ _ _ Hbg); congruence).
  assert (ph2 = ph) as -> by (pose proof (ns_current _ _ Hn') as Hl; simpl in Hl; rewrite last_snoc, Hct in Hl; congruence).
  set (bits := if vec =? 0 then sys_detect_bit_vector_ s else <[h := vec]> (sys_detect_bit_vector_ s)).
  destruct phs as [|p0 phs0].
  - (* the root begins *)
    assert (BeginVector s ph (begin_label lab c) (default 0 (bits !! h)) !! ph = Some ROOT_SYS_DETECT_VEC) as Hv.
    { unfold BeginVector. rewrite (ns_current _ _ Hn). simpl. destruct (root_ (tree (rt s))) as [q|] eqn:Hq.
      - assert (q = ph) as ->; [|by apply Hp]. unfold BeginPhase in Hbp.
        rewrite (ns_current _ _ Hn), Hq in Hbp. simpl in Hbp. unfold Tree_ReInit in Hbp. rewrite Hq in Hbp.
        simpl in Hbp. congruence.
      - apply lookup_insert_eq. }
    split; simpl; [done| |].
    + intros h0 Hh0 _. rewrite Hv. simpl. destruct (uniquePath (rt s)) as [|x [|y l]]; try done.
      injection Hh0 as ->. injection Hh as ->. apply lookup_insert_eq.
    + intros q Hq. rewrite (root_phase _ _ ph Hn' eq_refl : root_ t' = Some ph) in Hq. by injection Hq as <-.
  - (* another domain begins *)
    pose proof (root_phase _ _ p0 Hn eq_refl) as Hroot.
    pose proof (root_phase _ _ p0 Hn' eq_refl) as Hroot'.
    assert (p0 ≠ ph) as Hne.
    { intros ->. destruct (ns_phase _ _ Hn' O ph eq_refl) as (n & Hnp & Hlv & _).
      destruct (ns_phase _ _ Hn' (S (length phs0)) ph) as (n' & Hnp' & Hlv' & _); [by apply list_lookup_middle|].
      assert (n' = n) as -> by congruence. lia. }
    split; simpl; [done| |].
    + intros h0 Hh0 _. assert (h0 ≠ h) as Hh0h.
      { intros ->. rewrite last_lookup, Hlen in Hh. simpl in Hh.
        assert (O = S (length phs0)) as H; [|done]. eapply (path_inj (rt s) _ _ _ h Hn); [|exact Hh].
        by destruct (uniquePath (rt s)). }
      rewrite lookup_insert_ne by done. subst bits. specialize (Hr h0 Hh0 ltac:(done)).
      destruct (vec =? 0); [done|]. by rewrite lookup_insert_ne.
    + intros q Hq. simpl in Hroot'. rewrite Hroot' in Hq. injection Hq as <-. unfold BeginVector.
      rewrite (ns_current _ _ Hn). destruct (last (p0 :: phs0)) eqn:Hl; [|by apply last_None in Hl].
      rewrite lookup_insert_ne by done. by apply Hp.
Qed.

(** ** Detection *)

(** The domain at position [l] recovers from the errors, and none between it
    and position [i] does. *)
Definition recovers (s : InjRt) (sys_err_vec : Z) (l : nat) : bool :=
  match uniquePath (rt s) !! l with Some h => CHECK_SYS_ERR_VEC sys_err_vec (bits_of s h) | None => false end.
Definition innermost (s : InjRt) (sys_err_vec : Z) (i l : nat) : Prop :=
  (l ≤ i)%nat ∧ recovers s sys_err_vec l = true ∧ ∀ j, (l < j ≤ i)%nat → recovers s sys_err_vec j = false.

Lemma GetParentCD_path r i h : uniquePath r !! S i = Some h →
  ∃ h', uniquePath r !! i = Some h' ∧ GetParentCD r (Z.of_nat (S i)) = Ok (Some h').
Proof.
  intros Hi. pose proof (lookup_lt_Some _ _ _ Hi). destruct (lookup_lt_is_Some_2 (uniquePath r) i) as [h' Hh']; [lia|].
  exists h'. split; [done|]. unfold GetParentCD.
  rewrite (proj2 (Z.ltb_lt _ _)), (proj2 (Z.leb_le _ _)) by lia. simpl.
  rewrite (aload_lookup _ _ h'); [done|lia|]. by replace (Z.to_nat (Z.of_nat (S i) - 1)) with i by lia.
Qed.

Lemma find_cover_innermost s phs vec i : ∀ h fuel,
  nested (rt s) phs → uniquePath (rt s) !! i = Some h → (i < fuel)%nat →
  (∃ l hl, find_cover fuel s vec (Some h) = Ok (Some hl) ∧ uniquePath (rt s) !! l = Some hl ∧ innermost s vec i l) ∨
  find_cover fuel s vec (Some h) = Ok None ∧ ∀ j, (j ≤ i)%nat → recovers s vec j = false.
Proof.
  induction i as [|i IH]; intros h [|fuel] Hn Hi Hf; try lia; cbn [find_cover];
    destruct (ns_dom _ _ Hn _ h Hi) as (c & Hc & Hl & _); rewrite (obj_Some _ h c Hc), ret_bind;
    destruct (CHECK_SYS_ERR_VEC vec (bits_of s h)) eqn:Hck.
  - left. exists O, h. split; [done|]. split; [done|]. split; [done|]. unfold recovers. rewrite Hi. split; [done|lia].
  - right. rewrite Hl. unfold GetParentCD. rewrite andb_false_r, ret_bind. split; [by destruct fuel|].
    intros j Hj. assert (j = O) as -> by lia. unfold recovers. by rewrite Hi.
  - left. exists (S i), h. split; [done|]. split; [done|]. split; [done|]. unfold recovers. rewrite Hi. split; [done|lia].
  - rewrite Hl. destruct (GetParentCD_path (rt s) i h Hi) as (h' & Hh' & ->). rewrite ret_bind.
    assert (recovers s vec (S i) = false) as Hlast by (unfold recovers; by rewrite Hi).
    destruct (IH h' fuel Hn Hh') as [(l & hl & Hf' & Hhl & Hle & Hok & Hno)|[Hf' Hno]]; [lia|left|right].
    + exists l, hl. split; [done|]. split; [done|]. split; [lia|]. split; [done|]. intros j Hj.
      destruct (decide (j = S i)) as [->|]; [done|apply Hno; lia].
    + split; [done|]. intros j Hj. destruct (decide (j = S i)) as [->|]; [done|apply Hno; lia].
Qed.

Lemma root_recovers s phs clk : vectors_ok s phs → phs ≠ [] →
  recovers s (SystemErrorInjector_Inject expl clk (system_error_injector_ s) (rand_state s)).1.1 O = true.
Proof.
  intros Hv Hphs. unfold recovers. pose proof (ns_pos _ _ (vo_nested _ _ Hv)) as Hpos.
  destruct (uniquePath (rt s)) as [|h l] eqn:Hl; [done|]. simpl. unfold bits_of.
  rewrite (vo_root _ _ Hv h) by (rewrite ?Hl; done). simpl. unfold CHECK_SYS_ERR_VEC. apply Z.eqb_eq.
  change ROOT_SYS_DETECT_VEC with (Z.ones 64). rewrite Z.land_ones by lia. apply Z.mod_small. apply Inject_range.
Qed.

Lemma begun_position r phs i h : nested r phs → uniquePath r !! i = Some h → active r h ↔ (i < length phs)%nat.
Proof.
  intros Hn Hi. destruct (ns_dom _ _ Hn i h Hi) as (c & Hc & _ & Hb & _). split.
  - intros (c' & Hc' & Hb'). assert (c' = c) as -> by congruence. rewrite Hb in Hb'. by apply bool_decide_eq_true in Hb'.
  - intros Hlt. exists c. split; [done|]. rewrite Hb. by apply bool_decide_eq_true.
Qed.

(** The vector of the errors that Detect finds. *)
Definition found_errors (clk : real_t) (s : InjRt) : Z * SystemErrorInjector * Z :=
  SystemErrorInjector_Inject expl clk (system_error_injector_ s) (rand_state s).

Lemma Detect_innermost s phs i h clk :
  vectors_ok s phs → uniquePath (rt s) !! i = Some h → active (rt s) h →
  let '(vec, inj, x) := found_errors clk s in
  (vec = 0 → inj_Detect h clk s = Ok (false, with_injector inj x s)) ∧
  (vec ≠ 0 → ∃ l, innermost s vec i l ∧ Z.of_nat l < INVALID_ROLLBACK_POINT ∧
     Detect (Z.of_nat l) (rt s) = Ok (SetRollbackPoint (Z.of_nat l) (rt s)) ∧
     inj_Detect h clk s = Ok (true, with_rt (SetRollbackPoint (Z.of_nat l) (rt s)) (with_injector inj x s))).
Proof.
  intros Hv Hi Ha. pose proof (vo_nested _ _ Hv) as Hn. pose proof (proj1 (begun_position _ phs i h Hn Hi) Ha) as Hlt.
  assert (phs ≠ []) as Hphs by (intros ->; simpl in Hlt; lia).
  pose proof (root_recovers s phs clk Hv Hphs) as Hroot. destruct (ns_dom _ _ Hn i h Hi) as (c & Hc & Hl & _).
  unfold inj_Detect, CheckErrorOccurred. rewrite (obj_Some _ h c Hc), ret_bind. fold (found_errors clk s) in Hroot |- *.
  destruct (found_errors clk s) as [[vec inj] x]. simpl in Hroot.
  split; [by intros ->|]. intros Hne. rewrite (proj2 (Z.eqb_neq _ _) Hne).
  pose proof (lookup_lt_Some _ _ _ Hi) as Hlen. pose proof (ns_depth _ _ Hn).
  set (s1 := with_injector inj x s).
  destruct (find_cover_innermost s1 phs vec i h (S (length (uniquePath (rt s1)))) Hn Hi) as
    [(l & hl & Hf & Hhl & Hin)|[_ Hno]]; [simpl; lia| |].
  2:{ specialize (Hno O ltac:(lia)). change (recovers s vec O = false) in Hno. congruence. }
  exists l. split; [done|]. pose proof (lookup_lt_Some _ _ _ Hhl) as Hll. simpl in Hll. split; [lia|].
  assert (Detect (Z.of_nat l) (rt s) = Ok (SetRollbackPoint (Z.of_nat l) (rt s))) as HD.
  { unfold Detect, GetCDLevel. rewrite (proj2 (Z.ltb_lt _ _)) by lia.
    rewrite (aload_lookup _ _ hl); [done|lia|by rewrite Nat2Z.id]. }
  split; [done|]. rewrite Hf, ret_bind. destruct (ns_dom _ _ Hn l hl Hhl) as (d & Hd & Hdl & _).
  change (objs (rt s1)) with (objs (rt s)) in *. rewrite (obj_Some (rt s1) hl d Hd), !ret_bind, Hdl, Hl.
  destruct Hin as [Hle _]. rewrite (proj2 (Z.leb_le _ _)) by lia.
  change (tree (rt s1)) with (tree (rt s)). rewrite (ns_current _ _ Hn).
  destruct (last phs) eqn:Hlast; [|by apply last_None in Hlast].
  cbn [deref cassert]. rewrite !ret_bind. change (rt s1) with (rt s). by rewrite HD, ret_bind.
Qed.

(** ** Steps with injection are steps without *)

Lemma inj_step_ok s phs s' :
  vectors_ok s phs → inj_step s s' →
  (rt s' = rt s ∨ step data_grow_unit (rt s) (rt s')) ∧ ∃ phs', vectors_ok s' phs'.
Proof.
  intros Hv Hst. pose proof (vo_nested _ _ Hv) as Hn.
  destruct Hst as [s h nm nmask lmask h' s' Hh Ha Hnm Hd HC|s h lab vec s' Hh Hlab HB|s h o r Hh Ha HC
    |s h r Hh Ha Hlen HD|s h test r Hin Ha HA|s h clk err s' Hin Ha HD|s h c x Hc Hx].
  - destruct (vectors_create s phs h nm nmask lmask h' s' Hv Hh Ha Hnm Hd HC) as [HC' Hv'].
    split; [right|eauto]. by apply (step_create _ _ h nm h').
  - destruct (vectors_begin s phs h lab vec s' Hv Hh Hlab HB) as [HB' [ph Hv']].
    split; [right|eauto]. by apply (step_begin _ _ h lab).
  - split; [right; by apply (step_complete _ _ h o)|].
    destruct (Complete_path (rt s) phs h o r Hn Hh Ha HC) as (Hp & Ht & phs' & Hn').
    exists phs'. apply (vectors_kept s r phs); try done. intros _. by apply (active_phases (rt s) phs h).
  - split; [right; by apply (step_destroy _ _ h)|]. exists phs. unfold Destroy in HD.
    apply bind_Ok in HD as (v & _ & HD). apply bind_Ok in HD as (w & _ & HD). injection HD as <-.
    apply (vectors_kept s _ phs); try done.
    + apply nested_destroy; [done| |done]. by apply (inactive_length (rt s) phs h).
    + simpl. destruct (uniquePath (rt s)) as [|a [|b l]]; simpl in *; try lia. done.
  - split; [right; by apply (step_assert _ _ h test)|]. exists phs.
    apply CDAssert_Ok in HA as [->|(c & Hc & ->)]; [by destruct s|].
    apply vectors_rollback; [done|]. by apply (level_nonneg (rt s) phs h).
  - apply list_elem_of_lookup_1 in Hin as [i Hi]. pose proof (Detect_innermost s phs i h clk Hv Hi Ha) as H.
    destruct (found_errors clk s) as [[vec inj] x] eqn:Hf. destruct H as [H0 H1].
    assert (vectors_ok (with_injector inj x s) phs) as Hv' by (by destruct Hv).
    destruct (decide (vec = 0)) as [->|Hne].
    + rewrite (H0 eq_refl) in HD. injection HD as <- <-. split; [by left|eauto].
    + destruct (H1 Hne) as (l & (Hle & Hrec & _) & _ & HD' & Heq). rewrite Heq in HD. injection HD as <- <-. split.
      * right. unfold recovers in Hrec. destruct (uniquePath (rt s) !! l) as [hl|] eqn:Hhl; [|done].
        apply (step_detect _ _ l hl); [done| |done]. apply (begun_position _ phs l hl Hn Hhl).
        pose proof (proj1 (begun_position _ phs i h Hn Hi) Ha). lia.
      * exists phs. apply (vectors_rollback (with_injector inj x s)); [done|lia].
  - split; [right; by apply (step_preserve _ _ h c)|]. exists phs. apply (vectors_kept s _ phs); try done.
    apply (nested_update (rt s) phs h c); try done. unfold mode. simpl. by rewrite Hx.
Qed.

Lemma inj_reachable_ok s :
  inj_reachable s → reachable data_grow_unit (rt s) ∧ ∃ phs, vectors_ok s phs.
Proof.
  induction 1 as [seed sc clk s HI|s s' _ [IHr [phs Hv]] Hst].
  - unfold inj_Init in HI. apply bind_Ok in HI as (r & Hr & [= <-]). split; [by apply reach_init|].
    exists []. split; simpl; [by apply (CD_Init_nested data_grow_unit)|done|].
    intros p Hp. unfold CD_Init, InternalCreate in Hr. simpl in Hr. rewrite lookup_empty in Hr.
    apply bind_Ok in Hr as ([h s1] & Hd & [= <-]). apply bind_Ok in Hd as (d & _ & [= <- <-]). done.
  - destruct (inj_step_ok s phs s' Hv Hst) as [[->|Hs] Hv']; [done|]. split; [|done]. by apply (reach_step _ (rt s)).
Qed.

(** The innermost domain that recovers is determined. *)
Lemma innermost_unique s vec i l l' : innermost s vec i l → innermost s vec i l' → l = l'.
Proof.
  intros (Hl & Hr & Hno) (Hl' & Hr' & Hno'). destruct (lt_eq_lt_dec l l') as [[Hlt| ->]|Hlt]; [|done|].
  - rewrite Hno in Hr' by lia. done.
  - rewrite Hno' in Hr by lia. done.
Qed.

(** C8: Detect of a domain that has begun, in every state that a program
    reaches with injected errors and labels that are not taken for other phases or
    domains ([label_ok], [name_ok]: where the path of a label leads to a phase or a
    domain, it is the one the program means): it returns, no assertion fails;
    without an error nothing changes but the injector; with errors it sets the
    rollback point, and to the level of the innermost domain of the path whose
    vector has every error that occurred. *)
Theorem Detect_finds_domain s i h clk vec inj x :
  inj_reachable s → uniquePath (rt s) !! i = Some h → active (rt s) h → found_errors clk s = (vec, inj, x) →
  (vec = 0 → inj_Detect h clk s = Ok (false, with_injector inj x s)) ∧
  (vec ≠ 0 → ∃ l s', innermost s vec i l ∧ inj_Detect h clk s = Ok (true, s') ∧
     rt s' = SetRollbackPoint (Z.of_nat l) (rt s) ∧
     rollback_point_ (rt s') = Z.min (rollback_point_ (rt s)) (Z.of_nat l)).
Proof.
  intros Hreach Hi Ha Hf. destruct (inj_reachable_ok s Hreach) as [_ [phs Hv]].
  pose proof (Detect_innermost s phs i h clk Hv Hi Ha) as H. rewrite Hf in H. destruct H as [H0 H1].
  split; [done|]. intros Hne. destruct (H1 Hne) as (l & Hin & Hl & _ & Heq). eexists l, _.
  split; [done|]. split; [exact Heq|]. split; [done|]. simpl. unfold SetRollbackPoint.
  rewrite (proj2 (Z.eqb_neq _ _)) by lia. simpl. destruct (Z.ltb_spec (Z.of_nat l) (rollback_point_ (rt s))); simpl; lia.
Qed.

(** Reporting an error changes none of what the recovery prints. *)
Lemma recovery_place_report lv c cr s : recovery_place c cr (SetRollbackPoint lv s) = recovery_place c cr s.
Proof. unfold SetRollbackPoint, recovery_place. by destruct (_ =? _), (_ <? _). Qed.

(** C9: from an injected error to the recovery: when no error that was reported
    before is pending, and what the recovering domain preserved can be read back
    ([Preserve.Recover] returns; it does not for regions of more than 200 bytes
    or labels of more than 45 characters),
    Detect in the last domain and its Complete jump to the Begin of the innermost
    domain that recovers from all errors found, which ends the path and is to be
    executed again with what it preserved.  Labels are as in [Detect_finds_domain]. *)
Theorem found_error_recovered s i h c clk vec inj x l hr cr xr :
  inj_reachable s → last (uniquePath (rt s)) = Some h → uniquePath (rt s) !! i = Some h → active (rt s) h →
  objs (rt s) !! h = Some c →
  rollback_point_ (rt s) = INVALID_ROLLBACK_POINT → found_errors clk s = (vec, inj, x) → vec ≠ 0 →
  innermost s vec i l → uniquePath (rt s) !! l = Some hr → objs (rt s) !! hr = Some cr →
  Preserve.Recover (recovery_place c cr (rt s)) (prv cr) = Ok xr →
  ∃ s' r, inj_Detect h clk s = Ok (true, s') ∧ Complete h (rt s') = Ok (Jump hr, r) ∧
    uniquePath r = take (S l) (uniquePath (rt s)) ∧ objs r !! hr = Some (escalated_dom l l xr cr) ∧
    rollback_point_ r = Z.of_nat l.
Proof.
  intros Hreach Hlast Hi Ha Hc Hrb Hf Hne Hin Hhr Hcr Hx. destruct (inj_reachable_ok s Hreach) as [Hr [phs Hv]].
  pose proof (Detect_innermost s phs i h clk Hv Hi Ha) as H. rewrite Hf in H. destruct H as [_ H].
  destruct (H Hne) as (l' & Hin' & Hl & HD & Heq).
  assert (l' = l) as -> by (by eapply innermost_unique). clear H.
  pose proof (vo_nested _ _ Hv) as Hn. destruct (SetRollbackPoint_fields (Z.of_nat l) (rt s)) as (Ht & Ho & Hp & _).
  assert (reachable data_grow_unit (SetRollbackPoint (Z.of_nat l) (rt s))) as Hr'.
  { apply (reach_step _ (rt s)); [done|]. apply (step_detect _ _ l hr); [done| |done].
    apply (begun_position _ phs l hr Hn Hhr). destruct Hin as [Hle _].
    pose proof (proj1 (begun_position _ phs i h Hn Hi) Ha). lia. }
  destruct (ns_dom _ _ Hn i h Hi) as (d & Hd & Hlv & _). assert (d = c) as -> by congruence.
  destruct (Complete_jumps data_grow_unit (SetRollbackPoint (Z.of_nat l) (rt s)) h c l hr cr xr)
    as (r & HC & Hpath & Hobjs & _ & _ & Hrbk); rewrite ?Hp, ?Ho; try done.
  - destruct Ha as (c' & Hc' & Hb). exists c'. by rewrite Ho.
  - unfold SetRollbackPoint. rewrite (proj2 (Z.eqb_neq _ _)), Hrb, (proj2 (Z.ltb_lt _ _)) by lia. done.
  - destruct Hin as [Hle _]. lia.
  - by rewrite recovery_place_report.
  - eexists _, r. split; [exact Heq|]. split; [exact HC|]. split; [by rewrite Hpath, Hp|]. split; [|done].
    apply (Hobjs l hr cr); by rewrite ?Hp, ?Ho.
Qed.

(** ** Programs *)

Inductive inj_call := JCreate (nm : string) | JBegin (lab : string) (vec : Z) | JDetect (clk : real_t).

Definition inj_exec (c : inj_call) (s : InjRt) : res InjRt :=
  h ← deref (last (uniquePath (rt s)));
  match c with
  | JCreate nm =>
      _ ← cassert (activeb (rt s) h && name_ok (rt s) nm && (Z.of_nat (length (uniquePath (rt s))) <? INVALID_ROLLBACK_POINT));
      '(_, s) ← inj_Create h nm 0 0 s; Ok s
  | JBegin lab vec => _ ← cassert (label_ok (rt s) lab); inj_Begin h lab vec s
  | JDetect clk => _ ← cassert (activeb (rt s) h); '(_, s) ← inj_Detect h clk s; Ok s
  end.

Definition inj_run (seed : Z) (sc : SystemConfig) (clk : real_t) (l : list inj_call) : res InjRt :=
  s ← inj_Init seed sc clk; foldM inj_exec l s.

Lemma inj_exec_step c s s' : inj_exec c s = Ok s' → inj_step s s'.
Proof.
  unfold inj_exec. intros (h & Hh%deref_Ok & H)%bind_Ok. destruct c as [nm|lab vec|clk].
  - apply bind_Ok in H as (v & Hok%cassert_Ok & H). apply bind_Ok in H as ([h' s1] & HC & [= <-]).
    apply andb_true_iff in Hok as [Hok Hd%Z.ltb_lt]. apply andb_true_iff in Hok as [Ha%activeb_true Hnm].
    apply (ij_create s h nm 0 0 h'); try done. by apply Is_true_true.
  - apply bind_Ok in H as (v & Hok%cassert_Ok & H). apply (ij_begin s h lab vec); [done|by apply Is_true_true|done].
  - apply bind_Ok in H as (v & Ha%cassert_Ok%activeb_true & H). apply bind_Ok in H as ([err s1] & HD & [= <-]).
    apply (ij_detect s h clk err); [|done|done]. rewrite last_lookup in Hh. by eapply list_elem_of_lookup_2.
Qed.

Lemma inj_run_reachable seed sc clk l s : inj_run seed sc clk l = Ok s → inj_reachable s.
Proof.
  unfold inj_run. intros (s0 & H0%ij_init & Hl)%bind_Ok. revert s0 H0 Hl.
  induction l as [|c l IH]; intros s0 H0; simpl; [by intros [= <-]|].
  intros (s1 & H1%inj_exec_step & Hl)%bind_Ok. apply (IH s1); [|done]. by apply (ij_step s0).
Qed.
End runtime.

(** ** Errors that a test asks for *)

(** [CDHandle::RegisterErrorInjector], with the flags of the domain. *)
Definition RegisterErrorInjector (cur : option CDErrorInjector) (recreated reexecuted : bool) (rank task : Z)
    (e : CDErrorInjector) : option CDErrorInjector :=
  match cur with
  | None => if negb recreated && negb reexecuted then Some (RegisterTarget rank task e) else None
  | Some e' => Some e'
  end.

(** [CDHandle::CDAssert] with the injector of the domain; whether it returns
    kAppError.  [CD::Assert] always returns kOK. *)
Definition inj_CDAssert (h : Z) (test : bool) (e : option CDErrorInjector) (x : Z) (s : Rt) :
    res (bool * option CDErrorInjector * Z * Rt) :=
  '(test, err, e, x) ← (match e with
     | None => Ok (test, false, None, x)
     | Some e =>
         '(v, e, x) ← CDErrorInjector_Inject e x;
         Ok (if v =? 0 then test else false, negb (v =? 0), Some e, x)
     end : res (bool * bool * option CDErrorInjector * Z));
  s ← CDAssert h test s;
  Ok (err, e, x, s).

(** A test that fails without an injected error is not reported to the caller. *)
Theorem CDAssert_returns_kOK h test x s err e x' s' :
  inj_CDAssert h test None x s = Ok (err, e, x', s') → err = false ∧ CDAssert h test s = Ok s'.
Proof. unfold inj_CDAssert. rewrite ret_bind. intros (s1 & Hs & [= <- <- <- <-])%bind_Ok. done. Qed.

(** C23: a test that asks for an error of its domain asks for it in every
    execution: CDAssert in the last domain reports the error whatever its
    condition, Complete then never completes the domain but rolls back, and the
    injector is as before, enabled for the next execution. *)
Theorem forced_error_repeats u s h c e rank task test x :
  reachable u s → last (uniquePath s) = Some h → active s h → objs s !! h = Some c →
  enabled_ e = true → force_to_fail_ e = true → rank_in_level_ e = Some rank → task_in_color_ e = Some task →
  rank ∈ cd_to_fail_ e ∨ task ∈ task_to_fail_ e →
  ∃ s', inj_CDAssert h test (Some e) x s = Ok (true, Some e, x, s') ∧ reachable u s' ∧
    ∀ o s'', Complete h s' = Ok (o, s'') → ∃ hr, o = Jump hr.
Proof.
  intros Hreach Hh Ha Hc He Hf Hr Ht Hin. destruct (reachable_nested u s Hreach) as [phs0 Hn0].
  destruct (at_leaf_intro s phs0 h Hn0 Hh Ha) as (phs & p & c' & n & -> & Hl).
  assert (c' = c) as -> by (pose proof (al_dom _ _ _ _ _ _ Hl); congruence).
  assert (CDAssert h false s = Ok (SetRollbackPoint (level c) s)) as HA.
  { unfold CDAssert. rewrite (obj_Some s h c Hc), ret_bind, (leaf_current s phs h p c n Hl), ret_bind.
    cbn [deref]. rewrite ret_bind, (obj_Some s h c Hc), ret_bind, Z.eqb_refl. done. }
  assert (CDErrorInjector_Inject e x = Ok (1, e, x)) as Hinj.
  { unfold CDErrorInjector_Inject. rewrite He. cbn [negb]. rewrite Hf, Hr, Ht, !listed_Some, ret_bind.
    case_bool_decide; [done|]. rewrite ret_bind. destruct Hin; [done|]. by rewrite bool_decide_eq_true_2. }
  exists (SetRollbackPoint (level c) s). split; [|split].
  - unfold inj_CDAssert. rewrite Hinj, !ret_bind. change (1 =? 0) with false. cbn match. by rewrite HA, ret_bind.
  - apply (reach_step u s); [done|]. apply (step_assert u s h false); [|done|done].
    rewrite last_lookup in Hh. by eapply list_elem_of_lookup_2.
  - intros o s'' HC. destruct (SetRollbackPoint_fields (level c) s) as (_ & Ho & Hp & _).
    pose proof (al_level _ _ _ _ _ _ Hl) as Hlv. pose proof (ns_depth _ _ Hn0) as Hd. pose proof (al_len _ _ _ _ _ _ Hl) as Hlen.
    destruct (at_leaf_intro (SetRollbackPoint (level c) s) (phs ++ [p]) h) as (phs1 & p1 & c1 & n1 & _ & Hl1).
    + apply SetRollbackPoint_nested; [done|lia].
    + by rewrite Hp.
    + exists c. by rewrite Ho, (al_begin _ _ _ _ _ _ Hl).
    + assert (c1 = c) as -> by (pose proof (al_dom _ _ _ _ _ _ Hl1) as H1; rewrite Ho in H1; congruence).
      destruct (Complete_cases _ phs1 h p1 c n1 o s'' Hl1 HC) as [(Hlt & _)|(r & hr & s1 & _ & _ & _ & _ & _ & -> & _)];
        [|eauto]. exfalso. revert Hlt. unfold SetRollbackPoint. rewrite (proj2 (Z.eqb_neq _ _)) by lia. simpl.
      destruct (Z.ltb_spec (level c) (rollback_point_ s)); simpl; lia.
Qed.

(** ** Concrete runs *)

(** Reliability 0, but with rate or time 0: the rates below are that high. *)
Definition expl0 (x : spec_float) : spec_float := if is_zero x then ldone else S754_zero false.
Definition rates : SystemConfig := mkConfig [(1, fone); (2, fone)] ∅.

(** A domain A that recovers from both types of failures, and one in it that
    recovers from the first only. *)
Definition in_B : InjRt :=
  get (mkInj rt0 ∅ ∅ (mkSystem rates fzero) 0)
    (inj_run 1024 expl0 [] 17 rates fzero [JBegin "" 0; JCreate "A"; JBegin "" 3; JCreate "B"; JBegin "" 1]).

Lemma in_B_reachable : inj_reachable 1024 expl0 [] in_B.
Proof.
  apply (inj_run_reachable 1024 expl0 [] 17 rates fzero
    [JBegin "" 0; JCreate "A"; JBegin "" 3; JCreate "B"; JBegin "" 1]).
  apply get_Ok. vm_compute. reflexivity.
Qed.

Lemma in_B_innermost : innermost in_B 3 2 1.
Proof.
  split; [lia|]. split; [vm_compute; reflexivity|]. intros j Hj. assert (j = 2%nat) as -> by lia. vm_compute. reflexivity.
Qed.

Lemma Detect_finds_domain_witness :
  ∃ s', inj_Detect expl0 2 fone in_B = Ok (true, s') ∧ rollback_point_ (rt s') = 1.
Proof.
  destruct (Detect_finds_domain 1024 expl0 [] in_B 2 2 fone
    (found_errors expl0 fone in_B).1.1 (found_errors expl0 fone in_B).1.2 (found_errors expl0 fone in_B).2)
    as [_ H]; [apply in_B_reachable|vm_compute; reflexivity|apply activeb_true; vm_compute; reflexivity|vm_compute; reflexivity|].
  destruct H as (l & s' & Hin & HD & Hrt & Hrb); [vm_compute; discriminate|].
  assert (l = 1%nat) as Hl by (apply (innermost_unique in_B 3 2); [exact Hin|exact in_B_innermost]).
  exists s'. split; [exact HD|]. rewrite Hrb, Hl. vm_compute. reflexivity.
Defined.

Lemma found_error_recovered_witness :
  ∃ s' r, inj_Detect expl0 2 fone in_B = Ok (true, s') ∧ Complete 2 (rt s') = Ok (Jump 1, r) ∧ uniquePath r = [0; 1].
Proof.
  edestruct found_error_recovered with (data_grow_unit := 1024) (expl := expl0) (config := @nil (string * Z)) (s := in_B) (i := 2%nat) (h := 2)
    (clk := fone) (vec := 3) (l := 1%nat) (hr := 1) as (s' & r & HD & HC & Hp & _);
    [exact in_B_reachable|vm_compute; reflexivity|vm_compute; reflexivity|apply activeb_true; vm_compute; reflexivity
    |vm_compute; reflexivity|vm_compute; reflexivity|vm_compute; reflexivity|discriminate|exact in_B_innermost|vm_compute; reflexivity
    |vm_compute; reflexivity|vm_compute; reflexivity|].
  exists s', r. split; [exact HD|]. split; [exact HC|]. rewrite Hp. vm_compute. reflexivity.
Defined.

Lemma forced_error_repeats_witness :
  let e := RegisterTarget 0 3 (Injector_lists [] [3; 4] fzero) in
  ∃ s', inj_CDAssert 1 true (Some e) 0 (after third_A) = Ok (true, Some e, 0, s') ∧
    ∀ o s'', Complete 1 s' = Ok (o, s'') → ∃ hr, o = Jump hr.
Proof.
  edestruct forced_error_repeats with (u := 1024) (s := after third_A) (h := 1)
    (e := RegisterTarget 0 3 (Injector_lists [] [3; 4] fzero)) (rank := 0) (task := 3) (test := true) (x := 0)
    as (s' & HA & _ & HC);
    [apply after_reachable; vm_compute; reflexivity|vm_compute; reflexivity|apply activeb_true; vm_compute; reflexivity
    |vm_compute; reflexivity|reflexivity|reflexivity|reflexivity|reflexivity|right; apply list_elem_of_here|].
  exists s'. split; [exact HA|exact HC].
Defined.

(** Two failures at once that only the root recovers from together, though A
    and B recover from one each, roll back to the root. *)
Definition in_B' : InjRt :=
  get in_B (inj_run 1024 expl0 [] 17 rates fzero [JBegin "" 0; JCreate "A"; JBegin "" 2; JCreate "B"; JBegin "" 1]).

Theorem joint_errors_escalate :
  inj_reachable 1024 expl0 [] in_B' ∧ innermost in_B' 1 2 2 ∧ innermost in_B' 2 2 1 ∧ innermost in_B' 3 2 0 ∧
  ∃ s', inj_Detect expl0 2 fone in_B' = Ok (true, s') ∧ rollback_point_ (rt s') = 0.
Proof.
  assert (inj_reachable 1024 expl0 [] in_B') as Hr.
  { apply (inj_run_reachable 1024 expl0 [] 17 rates fzero [JBegin "" 0; JCreate "A"; JBegin "" 2; JCreate "B"; JBegin "" 1]).
    apply get_Ok. vm_compute. reflexivity. }
  assert (∀ vec l, (l ≤ 2)%nat → recovers in_B' vec l = true →
    (forallb (λ j, negb (recovers in_B' vec j)) (seq (S l) (2 - l)) = true) → innermost in_B' vec 2 l) as Hin.
  { intros vec l Hl Hrec Hno. split; [done|]. split; [done|]. intros j Hj.
    rewrite forallb_forall in Hno. apply negb_true_iff, Hno. apply in_seq. lia. }
  split; [exact Hr|]. split; [apply Hin; [lia|vm_compute; reflexivity..]|]. split; [apply Hin; [lia|vm_compute; reflexivity..]|].
  split; [apply Hin; [lia|vm_compute; reflexivity..]|].
  exists (get (false, in_B') (inj_Detect expl0 2 fone in_B')).2. split; vm_compute; reflexivity.
Qed.
