(* ===== verification/Parallel.v ===== *)
(** * Parallel: the communication interface of CoMD (parallel.h, parallel.c)

    [Parallel] is what parallel.h promises to the rest of the program: the
    number of ranks, the local rank, the collective reductions and the paired
    send and receive. The components that communicate are written and proved
    against this interface. Built without DO_MPI the functions are the [#else]
    branches of parallel.c, which are the instance [serial]; built with DO_MPI
    they are MPI's, which is not part of this program. *)

From Stdlib Require Import ZArith Lia.
From stdpp Require Import base list numbers sets.
From S2P Require Import Prelude Float64.

(** A buffer to receive into has a capacity, in messages. *)
Class Parallel := {
  getNRanks : Z;
  getMyRank : Z;
  sendReceiveParallel : ∀ {M : Type},
    list M → Z (* dest *) → Z (* capacity *) → Z (* source *) → res (list M);
  addIntParallel : list Z → list Z;
  maxIntParallel : list Z → list Z;
  addRealParallel : list real_t → list real_t;
}.

(** What the ranks rely on: the local rank is one of the ranks. *)
Class ParallelLaws `{Parallel} : Prop := {
  nranks_pos : 0 < getNRanks;
  myrank_range : 0 ≤ getMyRank < getNRanks;
}.

(** [printRank]: output comes from rank 0. *)
Definition printRank `{Parallel} : Z := if getMyRank =? 0 then 1 else 0.

Module Serial.
(** [int myRank = 0; int nRanks = 1;] and the branches without DO_MPI. *)
Definition nRanks : Z := 1.
Definition myRank : Z := 0.

(** [assert(source == dest); memcpy(recvBuf, sendBuf, sendLen);] *)
Definition sendReceive {M : Type}
    (sendBuf : list M) (dest recvLen source : Z) : res (list M) :=
  _ ← cassert (source =? dest);
  if Z.of_nat (length sendBuf) <=? recvLen then Ok sendBuf else Err OutOfBounds.

(** [for (ii < count) recvBuf[ii] = sendBuf[ii];] *)
Definition addInt (sendBuf : list Z) : list Z := sendBuf.
Definition maxInt (sendBuf : list Z) : list Z := sendBuf.
Definition addReal (sendBuf : list real_t) : list real_t := sendBuf.
End Serial.

#[export] Instance serial : Parallel := {|
  getNRanks := Serial.nRanks;
  getMyRank := Serial.myRank;
  sendReceiveParallel := @Serial.sendReceive;
  addIntParallel := Serial.addInt;
  maxIntParallel := Serial.maxInt;
  addRealParallel := Serial.addReal;
|}.

#[export] Instance serial_laws : ParallelLaws.
Proof. split; simpl; unfold Serial.nRanks, Serial.myRank; lia. Qed.
