(* ===== verification/Decomposition.v ===== *)
(** * Decomposition: the Cartesian domain decomposition of CoMD
    (decomposition.c, decomposition.h)

    [Domain], [initDecomposition] and [processorNum], with the bijection
    between ranks and processor coordinates and the symmetry of the neighbour
    relation the halo exchange relies on. *)

From Stdlib Require Import ZArith Lia.
From stdpp Require Import base list numbers sets.
From S2P Require Import Prelude Float64 Parallel.

Record Domain := mkDomain {
  procGrid : vec3 Z;
  procCoord : vec3 Z;
  globalMin : real3;
  globalMax : real3;
  globalExtent : real3;
  dLocalMin : real3;
  dLocalMax : real3;
  dLocalExtent : real3;
}.

Section decomposition.
Context `{Par : Parallel}.

Definition initDecomposition (xproc yproc zproc : Z) (extent : real3) : res Domain :=
  n ← int32 (xproc * yproc * zproc);
  _ ← cassert (n =? getNRanks);
  let myRank := getMyRank in
  c0 ← crem myRank xproc;
  myRank ← cdiv myRank xproc;
  c1 ← crem myRank yproc;
  c2 ← cdiv myRank yproc;
  let grid := V3 xproc yproc zproc in
  let coord := V3 c0 c1 c2 in
  let gMin := V3 (f64 0) (f64 0) (f64 0) in
  let gMax := extent in
  let gExtent := vmap2 fsub gMax gMin in
  let lExtent := vmap2 (λ e n, (e / f64 n)%R) gExtent grid in
  let lMin := vmap2 fadd gMin (vmap2 (λ c e, (f64 c * e)%R) coord lExtent) in
  let lMax := vmap2 fadd gMin (vmap2 (λ c e, (f64 (c + 1) * e)%R) coord lExtent) in
  Ok (mkDomain grid coord gMin gMax gExtent lMin lMax lExtent).
End decomposition.

Definition processorNum (domain : Domain) (dix diy diz : Z) : res Z :=
  let c := procCoord domain in
  let g := procGrid domain in
  ix ← crem (v0 c + dix + v0 g) (v0 g);
  iy ← crem (v1 c + diy + v1 g) (v1 g);
  iz ← crem (v2 c + diz + v2 g) (v2 g);
  int32 (ix + v0 g * (iy + v1 g * iz)).

(** ** Well-formed domains *)

(** The processor grid is not empty, its size is an [int], and the local
    coordinates are inside it. *)
Definition domain_wf (d : Domain) : Prop :=
  0 < v0 (procGrid d) ∧ 0 < v1 (procGrid d) ∧ 0 < v2 (procGrid d) ∧
  v0 (procGrid d) * v1 (procGrid d) * v2 (procGrid d) ≤ INT_MAX ∧
  0 ≤ v0 (procCoord d) < v0 (procGrid d) ∧
  0 ≤ v1 (procCoord d) < v1 (procGrid d) ∧
  0 ≤ v2 (procCoord d) < v2 (procGrid d).

(** The rank at given coordinates of a grid, and its coordinates. *)
Definition rank_of (g c : vec3 Z) : Z := v0 c + v0 g * (v1 c + v1 g * v2 c).
Definition coord_of (g : vec3 Z) (k : Z) : vec3 Z :=
  V3 (k mod v0 g) ((k / v0 g) mod v1 g) (k / v0 g / v1 g).

(** Moving by [d] on a periodic axis of [n] processors. *)
Definition shift (n c d : Z) : Z := (c + d) mod n.

Lemma coord_of_rank_of g c :
  0 ≤ v0 c < v0 g → 0 ≤ v1 c < v1 g → 0 ≤ v2 c →
  coord_of g (rank_of g c) = c.
Proof.
  destruct g as [g0 g1 g2], c as [c0 c1 c2]. unfold coord_of, rank_of; simpl. intros H0 H1 H2.
  rewrite (Z.mul_comm g0), Z.mod_add, Z.mod_small by lia.
  rewrite Z.div_add, (Z.div_small c0) by lia.
  rewrite Z.add_0_l, (Z.mul_comm g1), Z.mod_add, Z.mod_small by lia.
  by rewrite Z.div_add, (Z.div_small c1) by lia.
Qed.

Lemma rank_of_range g c :
  0 ≤ v0 c < v0 g → 0 ≤ v1 c < v1 g → 0 ≤ v2 c < v2 g →
  0 ≤ rank_of g c < v0 g * v1 g * v2 g.
Proof.
  destruct g as [g0 g1 g2], c as [c0 c1 c2]. unfold rank_of; simpl. intros.
  assert (0 ≤ c1 + g1 * c2 < g1 * g2) by nia. nia.
Qed.

Lemma Z_lt_le_incl_range a b c : 0 ≤ a < b → b ≤ c → 0 ≤ a ≤ c.
Proof. lia. Qed.

Lemma rank_of_coord_of g k :
  0 < v0 g → 0 < v1 g → rank_of g (coord_of g k) = k.
Proof.
  destruct g as [g0 g1 g2]. unfold rank_of, coord_of; simpl. intros.
  pose proof (Z.div_mod k g0 ltac:(lia)).
  pose proof (Z.div_mod (k / g0) g1 ltac:(lia)). lia.
Qed.

Lemma shift_range n c d : 0 < n → 0 ≤ shift n c d < n.
Proof. intros. apply Z.mod_pos_bound. lia. Qed.

Lemma shift_back n c d : 0 ≤ c < n → shift n (shift n c d) (- d) = c.
Proof.
  intros. unfold shift. rewrite Zplus_mod_idemp_l.
  replace (c + d + - d) with c by lia. by apply Z.mod_small.
Qed.

(** [processorNum] for the deltas its comment allows: none below minus the
    grid size. *)
Lemma processorNum_eq d dx dy dz :
  domain_wf d →
  - v0 (procGrid d) ≤ dx → - v1 (procGrid d) ≤ dy → - v2 (procGrid d) ≤ dz →
  processorNum d dx dy dz =
    Ok (rank_of (procGrid d)
         (V3 (shift (v0 (procGrid d)) (v0 (procCoord d)) dx)
             (shift (v1 (procGrid d)) (v1 (procCoord d)) dy)
             (shift (v2 (procGrid d)) (v2 (procCoord d)) dz))).
Proof.
  intros (?&?&?&Hmax&?&?&?) ???. unfold processorNum.
  rewrite !crem_Ok by lia. simpl.
  assert (∀ n c x, 0 < n → (c + x + n) mod n = shift n c x) as Hs.
  { intros n c x ?. unfold shift. rewrite <-(Z.mul_1_l n) at 1. by rewrite Z.mod_add by lia. }
  rewrite !Hs by lia. unfold rank_of; simpl. apply int32_Ok.
  assert (0 ≤ rank_of (procGrid d)
    (V3 (shift (v0 (procGrid d)) (v0 (procCoord d)) dx)
        (shift (v1 (procGrid d)) (v1 (procCoord d)) dy)
        (shift (v2 (procGrid d)) (v2 (procCoord d)) dz)) ≤ INT_MAX) as Hr.
  { eapply Z_lt_le_incl_range; [apply rank_of_range; simpl; by apply shift_range|lia]. }
  unfold rank_of, INT_MIN in *; simpl in *. lia.
Qed.

(** Every rank of the grid computes a well-formed domain whose coordinates are
    those of its rank. *)
Lemma initDecomposition_spec `{Par : Parallel, !ParallelLaws} xp yp zp ext d :
  0 < xp → 0 < yp → 0 < zp →
  initDecomposition xp yp zp ext = Ok d →
  domain_wf d ∧ procGrid d = V3 xp yp zp ∧ rank_of (procGrid d) (procCoord d) = getMyRank ∧
  xp * yp * zp = getNRanks.
Proof.
  intros Hx Hy Hz Hi. unfold initDecomposition in Hi.
  pose proof myrank_range as Hr. pose proof nranks_pos.
  res_inv. zbool.
  repeat match goal with
  | H : crem _ _ = Ok _ |- _ =>
      rewrite crem_Ok in H by (try apply Z.div_pos; lia); injection H as <-
  | H : cdiv _ _ = Ok _ |- _ =>
      rewrite cdiv_Ok in H by (try apply Z.div_pos; lia); injection H as <-
  end.
  unfold domain_wf; simpl.
  pose proof (rank_of_coord_of (V3 xp yp zp) getMyRank Hx Hy) as Hk.
  unfold rank_of, coord_of in *; simpl in *.
  split_and!; try done; try lia; try (apply Z.mod_pos_bound; lia).
  - apply Z.div_pos; [apply Z.div_pos|]; lia.
  - apply Z.div_lt_upper_bound; [lia|]. apply Z.div_lt_upper_bound; lia.
Qed.

(** ** Properties *)

(** On every rank of an [xp * yp * zp] grid, [processorNum] never divides by
    zero for deltas not below minus the grid size, its result is an [int], and it
    names a rank of the run. *)
Theorem processorNum_in_range `{Par : Parallel, !ParallelLaws} xp yp zp ext d dx dy dz :
  0 < xp → 0 < yp → 0 < zp →
  initDecomposition xp yp zp ext = Ok d →
  - xp ≤ dx → - yp ≤ dy → - zp ≤ dz →
  returns (processorNum d dx dy dz) (λ k, 0 ≤ k < getNRanks).
Proof.
  intros ??? (Hwf & Hg & _ & Hn)%initDecomposition_spec ???; [|done..].
  rewrite processorNum_eq by (rewrite ?Hg; done). rewrite Hg. simpl. rewrite <-Hn.
  apply (rank_of_range (V3 xp yp zp)); simpl; apply shift_range; lia.
Qed.

(** Rank [r] of a run of two ranks that exchange nothing. *)
Definition two_ranks (r : Z) : Parallel := {|
  getNRanks := 2; getMyRank := r;
  sendReceiveParallel := @Serial.sendReceive;
  addIntParallel := Serial.addInt; maxIntParallel := Serial.maxInt;
  addRealParallel := Serial.addReal;
|}.

Lemma two_ranks_laws r : 0 ≤ r < 2 → @ParallelLaws (two_ranks r).
Proof. by split. Qed.

Definition ex_domain (r : Z) : Domain :=
  match @initDecomposition (two_ranks r) 2 1 1 (V3 (f64 4) (f64 2) (f64 2)) with
  | Ok d => d
  | Err _ => mkDomain (V3 0 0 0) (V3 0 0 0) zero3 zero3 zero3 zero3 zero3 zero3
  end.

Lemma processorNum_in_range_witness :
  returns (processorNum (ex_domain 1) 1 0 (-1)) (λ k, 0 ≤ k < 2).
Proof.
  apply (@processorNum_in_range (two_ranks 1) (two_ranks_laws 1 ltac:(lia)) 2 1 1
    (V3 (f64 4) (f64 2) (f64 2)) (ex_domain 1) 1 0 (-1)); try lia; vm_compute; reflexivity.
Defined.

(** The neighbour relation of the decomposition is symmetric: if rank [b] is
    the neighbour of rank [a] at offset [(dx, dy, dz)], then rank [a] is the
    neighbour of rank [b] at the opposite offset. The message a rank sends across
    a face therefore comes from the rank that expects it across the opposite
    face. *)
Theorem processorNum_symmetric (Pa Pb : Parallel) xp yp zp ext da db dx dy dz :
  @ParallelLaws Pa → @ParallelLaws Pb →
  0 < xp → 0 < yp → 0 < zp →
  @initDecomposition Pa xp yp zp ext = Ok da →
  @initDecomposition Pb xp yp zp ext = Ok db →
  - xp ≤ dx ≤ xp → - yp ≤ dy ≤ yp → - zp ≤ dz ≤ zp →
  processorNum da dx dy dz = Ok (@getMyRank Pb) →
  processorNum db (- dx) (- dy) (- dz) = Ok (@getMyRank Pa).
Proof.
  intros La Lb ??? (Ha & Hga & Hra & _)%(@initDecomposition_spec Pa); [|done..].
  intros (Hb & Hgb & Hrb & _)%(@initDecomposition_spec Pb); [|done..].
  intros ???. rewrite !processorNum_eq by (rewrite ?Hga, ?Hgb; simpl; try done; lia).
  intros [= Hab]. f_equal. rewrite <-Hra, Hga, Hgb. rewrite Hga, <-Hrb, Hgb in Hab.
  unfold domain_wf in Ha, Hb. rewrite Hga in Ha. rewrite Hgb in Hb. simpl in *.
  apply (f_equal (coord_of (V3 xp yp zp))) in Hab.
  rewrite !coord_of_rank_of in Hab by (simpl; try apply shift_range; lia).
  rewrite <-Hab; simpl. rewrite !shift_back by lia. by destruct (procCoord da).
Qed.

Lemma processorNum_symmetric_witness :
  processorNum (ex_domain 0) 1 0 0 = Ok 1 ∧ processorNum (ex_domain 1) (-1) 0 0 = Ok 0.
Proof.
  split; [vm_compute; reflexivity|].
  apply (processorNum_symmetric (two_ranks 0) (two_ranks 1) 2 1 1 (V3 (f64 4) (f64 2) (f64 2))
    (ex_domain 0) (ex_domain 1) 1 0 0 (two_ranks_laws 0 ltac:(lia)) (two_ranks_laws 1 ltac:(lia)));
    try lia; vm_compute; reflexivity.
Defined.
