(* ===== verification/LinkCells.v ===== *)
(** * LinkCells: the geometry of CoMD's link cells (linkCells.c, linkCells.h)

    [LinkCell], its construction, the two index maps between grid coordinates
    and box numbers ([getBoxFromTuple], [getTuple]), the neighbour lists and
    the assignment of a position to a box. The operations that move atoms
    between boxes are in Atoms. *)

From Stdlib Require Import ZArith Lia.
From stdpp Require Import base list numbers sets.
From S2P Require Import Prelude Float64 Parallel Decomposition.

Definition MAXATOMS : Z := 64.

Record LinkCell := mkLinkCell {
  gridSize : vec3 Z;
  nLocalBoxes : Z;
  nHaloBoxes : Z;
  nTotalBoxes : Z;
  localMin : real3;
  localMax : real3;
  boxSize : real3;
  invBoxSize : real3;
  nAtoms : list Z;
}.

Definition set_nAtoms (b : LinkCell) (n : list Z) : LinkCell :=
  mkLinkCell (gridSize b) (nLocalBoxes b) (nHaloBoxes b) (nTotalBoxes b)
    (localMin b) (localMax b) (boxSize b) (invBoxSize b) n.

(** The number of boxes on one axis: [domain->localExtent[i] / cutoff],
    truncated into an [int]. *)
Definition initLinkCells (domain : Domain) (cutoff : real_t) : res LinkCell :=
  let ext := dLocalExtent domain in
  g0 ← int_of_f64 (v0 ext / cutoff)%R;
  g1 ← int_of_f64 (v1 ext / cutoff)%R;
  g2 ← int_of_f64 (v2 ext / cutoff)%R;
  let grid := V3 g0 g1 g2 in
  let size := vmap2 (λ e g, (e / f64 g)%R) ext grid in
  let inv := vmap (λ b, (fone / b)%R) size in
  nLocal ← int32 (g0 * g1 * g2);
  nHalo ← int32 (2 * ((g0 + 2) * (g1 + g2 + 2) + g1 * g2));
  nTotal ← int32 (nLocal + nHalo);
  let counts := replicate (Z.to_nat nTotal) 0 in
  _ ← cassert ((2 <=? g0) && (2 <=? g1) && (2 <=? g2));
  Ok (mkLinkCell grid nLocal nHalo nTotal
        (dLocalMin domain) (dLocalMax domain) size inv counts).

Definition getBoxFromTuple (boxes : LinkCell) (ix iy iz : Z) : res Z :=
  let gx := v0 (gridSize boxes) in
  let gy := v1 (gridSize boxes) in
  let gz := v2 (gridSize boxes) in
  let nl := nLocalBoxes boxes in
  iBox ← int32 (
    (* Halo in Z+ *)
    if iz =? gz then
      nl + 2 * gz * gy + 2 * gz * (gx + 2) + (gx + 2) * (gy + 2) + (gx + 2) * (iy + 1) + (ix + 1)
    (* Halo in Z- *)
    else if iz =? -1 then
      nl + 2 * gz * gy + 2 * gz * (gx + 2) + (gx + 2) * (iy + 1) + (ix + 1)
    (* Halo in Y+ *)
    else if iy =? gy then
      nl + 2 * gz * gy + gz * (gx + 2) + (gx + 2) * iz + (ix + 1)
    (* Halo in Y- *)
    else if iy =? -1 then
      nl + 2 * gz * gy + iz * (gx + 2) + (ix + 1)
    (* Halo in X+ *)
    else if ix =? gx then
      nl + gy * gz + iz * gy + iy
    (* Halo in X- *)
    else if ix =? -1 then
      nl + iz * gy + iy
    (* local link cell *)
    else ix + gx * iy + gx * gy * iz);
  _ ← cassert (0 <=? iBox);
  _ ← cassert (iBox <? nTotalBoxes boxes);
  Ok iBox.

Definition getTuple (boxes : LinkCell) (iBox : Z) : res (vec3 Z) :=
  let gx := v0 (gridSize boxes) in
  let gy := v1 (gridSize boxes) in
  let gz := v2 (gridSize boxes) in
  (* If a local box *)
  if iBox <? nLocalBoxes boxes then
    ix ← crem iBox gx;
    iBox ← cdiv iBox gx;
    iy ← crem iBox gy;
    iz ← cdiv iBox gy;
    Ok (V3 ix iy iz)
  (* It's a halo box *)
  else
    let ink := iBox - nLocalBoxes boxes in
    '(V3 ix iy iz) ←
      (if ink <? 2 * gy * gz then
         let '(ix, ink) :=
           if ink <? gy * gz then (0, ink) else (gx + 1, ink - gy * gz) in
         m ← crem ink gy;
         q ← cdiv ink gy;
         Ok (V3 ix (1 + m) (1 + q))
       else if ink <? 2 * gz * (gy + gx + 2) then
         let ink := ink - 2 * gz * gy in
         let '(iy, ink) :=
           if ink <? (gx + 2) * gz then (0, ink) else (gy + 1, ink - (gx + 2) * gz) in
         m ← crem ink (gx + 2);
         q ← cdiv ink (gx + 2);
         Ok (V3 m iy (1 + q))
       else
         let ink := ink - 2 * gz * (gy + gx + 2) in
         let '(iz, ink) :=
           if ink <? (gx + 2) * (gy + 2) then (0, ink) else (gz + 1, ink - (gx + 2) * (gy + 2)) in
         m ← crem ink (gx + 2);
         q ← cdiv ink (gx + 2);
         Ok (V3 m q iz));
    (* Calculated as off by 1 *)
    Ok (V3 (ix - 1) (iy - 1) (iz - 1)).

(** The coordinates [x0 <= ix < x1], [y0 <= iy < y1], [z0 <= iz < z1], in the
    order of three nested loops. *)
Definition tuples_in (x0 x1 y0 y1 z0 z1 : Z) : list (vec3 Z) :=
  ix ← seqZ x0 (x1 - x0); iy ← seqZ y0 (y1 - y0); iz ← seqZ z0 (z1 - z0); [V3 ix iy iz].

(** The body of such loops, [list[count++] = getBoxFromTuple(boxes, ix, iy, iz)]:
    the count is the length of the list. *)
Definition boxes_in (boxes : LinkCell) (ts : list (vec3 Z)) : res (list Z) :=
  foldM (λ t acc,
      k ← getBoxFromTuple boxes (v0 t) (v1 t) (v2 t);
      Ok (acc ++ [k])) ts [].

Definition getNeighborBoxes (boxes : LinkCell) (iBox : Z) : res (list Z) :=
  '(V3 ix iy iz) ← getTuple boxes iBox;
  boxes_in boxes
    (tuples_in (ix - 1) (ix + 1 + 1) (iy - 1) (iy + 1 + 1) (iz - 1) (iz + 1 + 1)).

(** One axis of [getBoxFromCoord]: inside the local domain a local coordinate,
    otherwise the halo coordinate. *)
Definition axis_box (g : Z) (lmax rr : real_t) (i : Z) : Z :=
  if (rr <? lmax)%R then (if i =? g then g - 1 else i) else g.

Definition getBoxFromCoord (boxes : LinkCell) (rr : real3) : res Z :=
  let lmin := localMin boxes in
  let inv := invBoxSize boxes in
  let g := gridSize boxes in
  ix ← int_floor ((v0 rr - v0 lmin) * v0 inv)%R;
  iy ← int_floor ((v1 rr - v1 lmin) * v1 inv)%R;
  iz ← int_floor ((v2 rr - v2 lmin) * v2 inv)%R;
  getBoxFromTuple boxes
    (axis_box (v0 g) (v0 (localMax boxes)) (v0 rr) ix)
    (axis_box (v1 g) (v1 (localMax boxes)) (v1 rr) iy)
    (axis_box (v2 g) (v2 (localMax boxes)) (v2 rr) iz).

(** [emptyHaloCells]. *)
Definition emptyHaloCells (boxes : LinkCell) : res LinkCell :=
  for_range (nLocalBoxes boxes) (nTotalBoxes boxes)
    (λ ii b, n ← astore (nAtoms b) ii 0; Ok (set_nAtoms b n)) boxes.

(** [maxOccupancy]. *)
Definition maxOccupancy `{Parallel} (boxes : LinkCell) : res Z :=
  m ← for_range 0 (nLocalBoxes boxes)
        (λ ii m, n ← aload (nAtoms boxes) ii; Ok (if m >? n then m else n)) 0;
  aload (maxIntParallel [m]) 0.

(** ** Well-formed link cells *)

(** What [initLinkCells] establishes, with the bound [initAtoms] adds: the
    storage for all boxes is indexed by an [int]. *)
Record lc_wf (b : LinkCell) : Prop := {
  wf_gx : 2 ≤ v0 (gridSize b);
  wf_gy : 2 ≤ v1 (gridSize b);
  wf_gz : 2 ≤ v2 (gridSize b);
  wf_local : nLocalBoxes b = v0 (gridSize b) * v1 (gridSize b) * v2 (gridSize b);
  wf_halo : nHaloBoxes b =
    2 * ((v0 (gridSize b) + 2) * (v1 (gridSize b) + v2 (gridSize b) + 2) +
         v1 (gridSize b) * v2 (gridSize b));
  wf_total : nTotalBoxes b = nLocalBoxes b + nHaloBoxes b;
  wf_int : nTotalBoxes b * MAXATOMS ≤ INT_MAX;
  wf_nAtoms : length (nAtoms b) = Z.to_nat (nTotalBoxes b);
}.

(** The coordinates of all boxes, and of the local ones. *)
Definition valid_tuple (b : LinkCell) (t : vec3 Z) : Prop :=
  -1 ≤ v0 t ≤ v0 (gridSize b) ∧ -1 ≤ v1 t ≤ v1 (gridSize b) ∧ -1 ≤ v2 t ≤ v2 (gridSize b).
Definition local_tuple (b : LinkCell) (t : vec3 Z) : Prop :=
  0 ≤ v0 t < v0 (gridSize b) ∧ 0 ≤ v1 t < v1 (gridSize b) ∧ 0 ≤ v2 t < v2 (gridSize b).

Lemma initLinkCells_spec d cutoff b :
  initLinkCells d cutoff = Ok b →
  nTotalBoxes b * MAXATOMS ≤ INT_MAX →
  lc_wf b ∧ nAtoms b = replicate (Z.to_nat (nTotalBoxes b)) 0 ∧
  localMin b = dLocalMin d ∧ localMax b = dLocalMax d.
Proof.
  intros H Hint. unfold initLinkCells in H. res_inv. zbool.
  split_and!; [|done..]. split; simpl in *; try lia. by rewrite length_replicate.
Qed.

Lemma divmod_lin q m g : 0 ≤ m < g → (q * g + m) / g = q ∧ (q * g + m) mod g = m.
Proof.
  intros. rewrite (Z.add_comm (q * g)). split.
  - rewrite Z.div_add by lia. rewrite Z.div_small by lia. lia.
  - rewrite Z.mod_add by lia. apply Z.mod_small. lia.
Qed.

Lemma cdivrem_lin q m g :
  0 ≤ q → 0 ≤ m < g →
  cdiv (q * g + m) g = Ok q ∧ crem (q * g + m) g = Ok m.
Proof.
  intros. destruct (divmod_lin q m g) as [Hd Hm]; [lia|].
  rewrite cdiv_Ok, crem_Ok by nia. by rewrite Hd, Hm.
Qed.

Section geometry.
Context (b : LinkCell) (Hwf : lc_wf b).
Abbreviation gx := (v0 (gridSize b)).
Abbreviation gy := (v1 (gridSize b)).
Abbreviation gz := (v2 (gridSize b)).

Lemma total_boxes : nTotalBoxes b = (gx + 2) * (gy + 2) * (gz + 2).
Proof. destruct Hwf. lia. Qed.

(** The closed form of [getBoxFromTuple]. *)
Definition box_index (t : vec3 Z) : Z :=
  let '(V3 ix iy iz) := t in
  let nl := nLocalBoxes b in
  if iz =? gz then
    nl + 2 * gz * gy + 2 * gz * (gx + 2) + (gx + 2) * (gy + 2) + (gx + 2) * (iy + 1) + (ix + 1)
  else if iz =? -1 then
    nl + 2 * gz * gy + 2 * gz * (gx + 2) + (gx + 2) * (iy + 1) + (ix + 1)
  else if iy =? gy then
    nl + 2 * gz * gy + gz * (gx + 2) + (gx + 2) * iz + (ix + 1)
  else if iy =? -1 then
    nl + 2 * gz * gy + iz * (gx + 2) + (ix + 1)
  else if ix =? gx then nl + gy * gz + iz * gy + iy
  else if ix =? -1 then nl + iz * gy + iy
  else ix + gx * iy + gx * gy * iz.

Lemma box_index_range t :
  valid_tuple b t →
  0 ≤ box_index t < nTotalBoxes b ∧ (box_index t < nLocalBoxes b ↔ local_tuple b t).
Proof.
  destruct t as [ix iy iz]. unfold valid_tuple, local_tuple, box_index; simpl.
  intros (Hx & Hy & Hz). destruct Hwf as [Gx Gy Gz Hl Hh Ht _ _].
  rewrite Ht, Hh, Hl. clear Ht Hh Hl.
  repeat (zcase; [split; [split; nia|split; [intros; exfalso; nia|lia]]|]).
  assert (0 ≤ gx * iy ≤ gx * (gy - 1)) by nia.
  assert (0 ≤ gx * gy * iz ≤ gx * gy * (gz - 1)) by nia.
  split; [split; nia|]. split; [lia|nia].
Qed.

Lemma getBoxFromTuple_eq ix iy iz :
  valid_tuple b (V3 ix iy iz) →
  getBoxFromTuple b ix iy iz = Ok (box_index (V3 ix iy iz)).
Proof.
  intros Hv. destruct (box_index_range _ Hv) as [Hr _].
  unfold getBoxFromTuple. fold (box_index (V3 ix iy iz)).
  pose proof (wf_int b Hwf). unfold MAXATOMS in *.
  revert Hr. generalize (box_index (V3 ix iy iz)). intros k Hr.
  rewrite int32_Ok by (unfold INT_MAX, INT_MIN in *; lia). simpl.
  by rewrite (cassert_true (0 <=? k)), (cassert_true (k <? nTotalBoxes b)) by lia.
Qed.
End geometry.

(** Resolves the first comparison in the goal, by non-linear arithmetic. *)
Ltac ltb_true :=
  match goal with |- context [ (?x <? ?y) ] => rewrite (proj2 (Z.ltb_lt x y)) by nia end.
Ltac ltb_false :=
  match goal with |- context [ (?x <? ?y) ] => rewrite (proj2 (Z.ltb_ge x y)) by nia end.

Lemma split_index k w h :
  0 < w → 0 ≤ k < w * h → ∃ q m, k = q * w + m ∧ 0 ≤ q < h ∧ 0 ≤ m < w.
Proof.
  intros Hw Hk. exists (k / w), (k mod w).
  pose proof (Z.div_mod k w ltac:(lia)). pose proof (Z.mod_pos_bound k w Hw).
  split_and!; try lia.
  - apply Z.div_pos; lia.
  - apply Z.div_lt_upper_bound; lia.
Qed.

(** Gives the coordinates of a box number. *)
Ltac find_box t :=
  exists t; unfold valid_tuple, box_index; cbn [v0 v1 v2];
  split; [split_and!; lia|]; repeat (zcase; try lia).

(** Rewrites a box number into the form of a region's lemma. *)
Ltac by_region lem :=
  let H := fresh in
  pose proof lem as H; rewrite ?Z.add_simpl_r in H; rewrite <-H by lia; f_equal; lia.

Section tuples.
Context (b : LinkCell) (Hwf : lc_wf b).
Abbreviation gx := (v0 (gridSize b)).
Abbreviation gy := (v1 (gridSize b)).
Abbreviation gz := (v2 (gridSize b)).

(** [getTuple] on each region of the halo: the index within the region is
    [q * width + m] on the first or the second plane. *)
Lemma getTuple_z (c : bool) q m :
  0 ≤ q < gy + 2 → 0 ≤ m < gx + 2 →
  getTuple b (nLocalBoxes b + (2 * gz * (gy + gx + 2) +
    ((if c then (gx + 2) * (gy + 2) else 0) + (q * (gx + 2) + m)))) =
  Ok (V3 (m - 1) (q - 1) (if c then gz else -1)).
Proof.
  intros Hq Hm. destruct Hwf as [Gx Gy Gz _ _ _ _ _]. unfold getTuple.
  assert (0 ≤ q * (gx + 2) + m < (gx + 2) * (gy + 2)) as Hk by nia.
  assert (0 ≤ if c then (gx + 2) * (gy + 2) else 0) as Hc by (destruct c; nia).
  destruct (cdivrem_lin q m (gx + 2)) as [Hd Hr]; [lia..|].
  remember (q * (gx + 2) + m) as k eqn:Ek. clear Ek.
  ltb_false. rewrite Z.add_simpl_l. ltb_false. ltb_false. rewrite Z.add_simpl_l.
  destruct c.
  - ltb_false. rewrite Z.add_simpl_l, Hd, Hr. simpl. do 2 f_equal; lia.
  - rewrite Z.add_0_l. ltb_true. rewrite Hd, Hr. simpl. do 2 f_equal; lia.
Qed.

Lemma getTuple_y (c : bool) q m :
  0 ≤ q < gz → 0 ≤ m < gx + 2 →
  getTuple b (nLocalBoxes b + (2 * gz * gy +
    ((if c then (gx + 2) * gz else 0) + (q * (gx + 2) + m)))) =
  Ok (V3 (m - 1) (if c then gy else -1) q).
Proof.
  intros Hq Hm. destruct Hwf as [Gx Gy Gz _ _ _ _ _]. unfold getTuple.
  assert (0 ≤ q * (gx + 2) + m < (gx + 2) * gz) as Hk by nia.
  assert (0 ≤ if c then (gx + 2) * gz else 0) as Hc by (destruct c; nia).
  destruct (cdivrem_lin q m (gx + 2)) as [Hd Hr]; [lia..|].
  remember (q * (gx + 2) + m) as k eqn:Ek. clear Ek.
  ltb_false. rewrite Z.add_simpl_l. ltb_false.
  destruct c.
  - ltb_true. rewrite Z.add_simpl_l. ltb_false. rewrite Z.add_simpl_l, Hd, Hr.
    simpl. do 2 f_equal; lia.
  - rewrite Z.add_0_l. ltb_true. rewrite Z.add_simpl_l. ltb_true. rewrite Hd, Hr.
    simpl. do 2 f_equal; lia.
Qed.

Lemma getTuple_x (c : bool) q m :
  0 ≤ q < gz → 0 ≤ m < gy →
  getTuple b (nLocalBoxes b + ((if c then gy * gz else 0) + (q * gy + m))) =
  Ok (V3 (if c then gx else -1) m q).
Proof.
  intros Hq Hm. destruct Hwf as [Gx Gy Gz _ _ _ _ _]. unfold getTuple.
  assert (0 ≤ q * gy + m < gy * gz) as Hk by nia.
  destruct (cdivrem_lin q m gy) as [Hd Hr]; [lia..|].
  remember (q * gy + m) as k eqn:Ek. clear Ek.
  destruct c.
  - ltb_false. rewrite Z.add_simpl_l. ltb_true. ltb_false. rewrite Z.add_simpl_l, Hd, Hr.
    simpl. do 2 f_equal; lia.
  - rewrite Z.add_0_l. ltb_false. rewrite Z.add_simpl_l. ltb_true. ltb_true. rewrite Hd, Hr.
    simpl. do 2 f_equal; lia.
Qed.

Lemma getTuple_local q m k :
  0 ≤ m < gx → 0 ≤ q < gy → 0 ≤ k < gz →
  getTuple b (m + gx * q + gx * gy * k) = Ok (V3 m q k).
Proof.
  intros Hm Hq Hk. destruct Hwf as [Gx Gy Gz Hl _ _ _ _]. unfold getTuple.
  replace (m + gx * q + gx * gy * k) with ((k * gy + q) * gx + m) by lia.
  assert (0 ≤ k * gy + q < gy * gz) by nia. rewrite Hl. ltb_true.
  destruct (cdivrem_lin (k * gy + q) m gx) as [-> ->]; [lia..|]. simpl.
  by destruct (cdivrem_lin k q gy) as [-> ->]; [lia..|].
Qed.

(** [getTuple] inverts the index map. *)
Lemma getTuple_box_index t :
  valid_tuple b t → getTuple b (box_index b t) = Ok t.
Proof.
  destruct t as [ix iy iz]. unfold valid_tuple, box_index; simpl. intros (Hx & Hy & Hz).
  repeat (zcase; subst).
  - by_region (getTuple_z true (iy + 1) (ix + 1)).
  - by_region (getTuple_z false (iy + 1) (ix + 1)).
  - by_region (getTuple_y true iz (ix + 1)).
  - by_region (getTuple_y false iz (ix + 1)).
  - by_region (getTuple_x true iz iy).
  - by_region (getTuple_x false iz iy).
  - apply getTuple_local; lia.
Qed.

(** Every box number is the index of the tuple [getTuple] computes. *)
Lemma getTuple_total k :
  0 ≤ k < nTotalBoxes b →
  ∃ t, getTuple b k = Ok t ∧ valid_tuple b t ∧ box_index b t = k.
Proof.
  intros Hk. enough (∃ t, valid_tuple b t ∧ box_index b t = k) as (t & Hv & <-).
  { exists t. by rewrite getTuple_box_index. }
  pose proof Hwf as [Gx Gy Gz Hl Hh Ht _ _]. rewrite Ht, Hh, Hl in Hk.
  destruct (Z.lt_ge_cases k (gx * gy * gz)) as [Hc|Hc].
  { destruct (split_index k gx (gy * gz)) as (k' & ix & -> & ? & ?); [lia..|].
    destruct (split_index k' gy gz) as (iz & iy & -> & ? & ?); [lia..|].
    find_box (V3 ix iy iz). }
  remember (k - gx * gy * gz) as ink eqn:Ei.
  assert (k = gx * gy * gz + ink ∧ 0 ≤ ink) as [-> Hi] by lia. clear Ei Hc.
  destruct (Z.lt_ge_cases ink (gy * gz)) as [?|Hc].
  { destruct (split_index ink gy gz) as (iz & iy & -> & ? & ?); [lia..|].
    find_box (V3 (-1) iy iz). }
  destruct (Z.lt_ge_cases ink (2 * gy * gz)) as [?|Hc2].
  { destruct (split_index (ink - gy * gz) gy gz) as (iz & iy & ? & ? & ?); [lia..|].
    find_box (V3 gx iy iz). }
  destruct (Z.lt_ge_cases ink (2 * gz * gy + (gx + 2) * gz)) as [?|Hc3].
  { destruct (split_index (ink - 2 * gz * gy) (gx + 2) gz) as (iz & ix & ? & ? & ?); [lia..|].
    find_box (V3 (ix - 1) (-1) iz). }
  destruct (Z.lt_ge_cases ink (2 * gz * (gy + gx + 2))) as [?|Hc4].
  { destruct (split_index (ink - 2 * gz * gy - (gx + 2) * gz) (gx + 2) gz)
      as (iz & ix & ? & ? & ?); [lia..|].
    find_box (V3 (ix - 1) gy iz). }
  destruct (Z.lt_ge_cases ink (2 * gz * (gy + gx + 2) + (gx + 2) * (gy + 2))) as [?|Hc5].
  { destruct (split_index (ink - 2 * gz * (gy + gx + 2)) (gx + 2) (gy + 2))
      as (iy & ix & ? & ? & ?); [lia..|].
    find_box (V3 (ix - 1) (iy - 1) (-1)). }
  destruct (split_index (ink - 2 * gz * (gy + gx + 2) - (gx + 2) * (gy + 2)) (gx + 2) (gy + 2))
    as (iy & ix & ? & ? & ?); [lia..|].
  find_box (V3 (ix - 1) (iy - 1) gz).
Qed.
End tuples.

(** ** Blocks of boxes *)

Lemma elem_of_tuples_in x0 x1 y0 y1 z0 z1 t :
  t ∈ tuples_in x0 x1 y0 y1 z0 z1 ↔
  x0 ≤ v0 t < x1 ∧ y0 ≤ v1 t < y1 ∧ z0 ≤ v2 t < z1.
Proof.
  unfold tuples_in. rewrite list_elem_of_bind. setoid_rewrite list_elem_of_bind.
  setoid_rewrite list_elem_of_bind. setoid_rewrite list_elem_of_singleton.
  setoid_rewrite elem_of_seqZ. destruct t as [ix iy iz]; simpl. split.
  - intros (x & (y & (z & ? & ?) & ?) & ?). simplify_eq. lia.
  - intros (?&?&?). exists ix. split; [|lia]. exists iy. split; [|lia]. exists iz. split; [done|lia].
Qed.

Lemma NoDup_tuples_in x0 x1 y0 y1 z0 z1 : NoDup (tuples_in x0 x1 y0 y1 z0 z1).
Proof.
  assert (∀ (x1 x2 y1 y2 z1 z2 : Z), V3 x1 y1 z1 = V3 x2 y2 z2 →
    x1 = x2 ∧ y1 = y2 ∧ z1 = z2) as Hinj by (intros; simplify_eq; done).
  unfold tuples_in. apply NoDup_bind; [| |apply NoDup_seqZ].
  - intros x x' t _ _. rewrite !list_elem_of_bind.
    intros (y & (z & Hz & _)%list_elem_of_bind & _) (y' & (z' & Hz' & _)%list_elem_of_bind & _).
    apply list_elem_of_singleton in Hz as ->. apply list_elem_of_singleton in Hz'. naive_solver.
  - intros x _. apply NoDup_bind; [| |apply NoDup_seqZ].
    + intros y y' t _ _ (z & Hz & _)%list_elem_of_bind (z' & Hz' & _)%list_elem_of_bind.
      apply list_elem_of_singleton in Hz as ->. apply list_elem_of_singleton in Hz'. naive_solver.
    + intros y _. apply NoDup_bind; [| |apply NoDup_seqZ].
      * intros z z' t _ _ Hz Hz'.
        apply list_elem_of_singleton in Hz as ->. apply list_elem_of_singleton in Hz'. naive_solver.
      * intros. apply NoDup_singleton.
Qed.

Lemma length_tuples_in x0 x1 y0 y1 z0 z1 :
  length (tuples_in x0 x1 y0 y1 z0 z1) =
  (Z.to_nat (x1 - x0) * (Z.to_nat (y1 - y0) * Z.to_nat (z1 - z0)))%nat.
Proof.
  unfold tuples_in.
  rewrite (length_bind_const _ _ (Z.to_nat (y1 - y0) * Z.to_nat (z1 - z0))%nat);
    [by rewrite length_seqZ|].
  intros x _. rewrite (length_bind_const _ _ (Z.to_nat (z1 - z0))); [by rewrite length_seqZ|].
  intros y _. rewrite (length_bind_const _ _ 1%nat); [by rewrite length_seqZ, Nat.mul_1_r|done].
Qed.

Lemma boxes_in_eq b ts :
  lc_wf b → (∀ t, t ∈ ts → valid_tuple b t) → boxes_in b ts = Ok (box_index b <$> ts).
Proof.
  intros Hwf Hts. unfold boxes_in.
  rewrite (foldM_collect (λ t, getBoxFromTuple b (v0 t) (v1 t) (v2 t)) (box_index b)); [done|].
  intros [i j k] Ht. apply getBoxFromTuple_eq; [done|]. by apply Hts.
Qed.

Lemma box_index_inj b t t' :
  lc_wf b → valid_tuple b t → valid_tuple b t' → box_index b t = box_index b t' → t = t'.
Proof.
  intros Hwf Ht Ht' He. pose proof (getTuple_box_index b Hwf t Ht) as H.
  rewrite He, getTuple_box_index in H by done. by injection H.
Qed.

Lemma NoDup_boxes b ts :
  lc_wf b → (∀ t, t ∈ ts → valid_tuple b t) → NoDup ts → NoDup (box_index b <$> ts).
Proof.
  intros Hwf Hts. apply NoDup_fmap_2_strong. intros t t' ??. apply box_index_inj; auto.
Qed.

(** Distance at most one on every axis. *)
Definition adjacent (t t' : vec3 Z) : Prop :=
  Z.abs (v0 t - v0 t') ≤ 1 ∧ Z.abs (v1 t - v1 t') ≤ 1 ∧ Z.abs (v2 t - v2 t') ≤ 1.

(** The block of 27 coordinates around a box. *)
Definition around (t : vec3 Z) : list (vec3 Z) :=
  tuples_in (v0 t - 1) (v0 t + 1 + 1) (v1 t - 1) (v1 t + 1 + 1) (v2 t - 1) (v2 t + 1 + 1).

Lemma elem_of_around t t' : t' ∈ around t ↔ adjacent t t'.
Proof. unfold around, adjacent. rewrite elem_of_tuples_in. lia. Qed.

Lemma around_valid b t t' : local_tuple b t → adjacent t t' → valid_tuple b t'.
Proof. unfold local_tuple, adjacent, valid_tuple. lia. Qed.

Lemma around_centre t : around t !! 13%nat = Some t.
Proof.
  assert (∀ i, seqZ (i - 1) (i + 1 + 1 - (i - 1)) = [i - 1; i; i + 1]) as H3.
  { intros i. replace (i + 1 + 1 - (i - 1)) with 3 by lia.
    rewrite !seqZ_cons, seqZ_nil by lia. simpl. repeat f_equal; lia. }
  unfold around, tuples_in. rewrite !H3. by destruct t.
Qed.

Lemma getNeighborBoxes_eq b t :
  lc_wf b → local_tuple b t →
  getNeighborBoxes b (box_index b t) = Ok (box_index b <$> around t).
Proof.
  intros Hwf Hl. unfold getNeighborBoxes.
  rewrite getTuple_box_index; [|done|unfold local_tuple, valid_tuple in *; lia].
  destruct t as [ix iy iz]. simpl. apply boxes_in_eq; [done|].
  intros t' Ht'%(elem_of_around (V3 ix iy iz)). by eapply around_valid.
Qed.

Lemma local_box b k :
  lc_wf b → 0 ≤ k < nLocalBoxes b → ∃ t, local_tuple b t ∧ valid_tuple b t ∧ box_index b t = k.
Proof.
  intros Hwf Hk. destruct (getTuple_total b Hwf k) as (t & _ & Hv & <-).
  { pose proof (wf_total b Hwf). pose proof (wf_halo b Hwf). destruct Hwf. nia. }
  exists t. split_and!; [|done..]. apply (box_index_range b Hwf t Hv). lia.
Qed.

(** [emptyHaloCells] sets the count of every halo box to zero and leaves
    every local count, and the geometry, as it was. *)
Lemma emptyHaloCells_spec b :
  lc_wf b →
  returns (emptyHaloCells b) (λ b',
    b' = set_nAtoms b (nAtoms b') ∧ length (nAtoms b') = length (nAtoms b) ∧
    ∀ k, 0 ≤ k < nTotalBoxes b →
      nAtoms b' !! Z.to_nat k =
        if k <? nLocalBoxes b then nAtoms b !! Z.to_nat k else Some 0).
Proof.
  intros Hwf. unfold emptyHaloCells. pose proof Hwf as [Gx Gy Gz Hl Hh Ht _ Hlen].
  assert (nLocalBoxes b ≤ nTotalBoxes b) as Hle by nia.
  eapply returns_mono; [apply (for_range_inv (λ i b',
    b' = set_nAtoms b (nAtoms b') ∧ length (nAtoms b') = length (nAtoms b) ∧
    ∀ k, 0 ≤ k < nTotalBoxes b → nAtoms b' !! Z.to_nat k =
      if (k <? nLocalBoxes b) || (i <=? k) then nAtoms b !! Z.to_nat k else Some 0))|].
  - done.
  - split_and!; [by destruct b|done|]. intros k Hk.
    replace ((k <? nLocalBoxes b) || (nLocalBoxes b <=? k)) with true by lia. done.
  - intros i b' Hi (Hb & Hlen' & Hk). rewrite astore_Ok by lia. simpl. split_and!.
    + rewrite Hb. done.
    + by rewrite length_insert.
    + intros k ?. rewrite list_lookup_insert. case_decide as Hd.
      * assert (k = i) as -> by lia. by replace (_ || _) with false by lia.
      * rewrite Hk by done. by replace (i + 1 <=? k) with (i <=? k) by lia.
  - intros b' (Hb & Hlen' & Hk). split_and!; [done..|]. intros k ?. rewrite Hk by done.
    by replace (nTotalBoxes b <=? k) with false by lia; rewrite orb_false_r.
Qed.

(** ** A concrete instance: eight local boxes of unit size *)

Definition ex_local_domain : Domain :=
  mkDomain (V3 1 1 1) (V3 0 0 0) zero3 (V3 ftwo ftwo ftwo) (V3 ftwo ftwo ftwo)
    zero3 (V3 ftwo ftwo ftwo) (V3 ftwo ftwo ftwo).

Definition ex_boxes : LinkCell :=
  mkLinkCell (V3 2 2 2) 8 56 64 zero3 (V3 ftwo ftwo ftwo) (V3 fone fone fone)
    (V3 fone fone fone) (replicate 64 0).

Lemma ex_boxes_init : initLinkCells ex_local_domain fone = Ok ex_boxes.
Proof. vm_compute. reflexivity. Qed.

Lemma ex_boxes_wf : lc_wf ex_boxes.
Proof. by split. Qed.

(** ** Properties *)

(** For every well-formed set of link cells, [getBoxFromTuple] and
    [getTuple] are inverse bijections between the coordinates in
    [-1 .. gridSize] on each axis and the box numbers [0 .. nTotalBoxes - 1]:
    neither assertion of [getBoxFromTuple] fails, no division is by zero, and
    the local boxes are exactly the numbers below [nLocalBoxes]. *)
Theorem box_tuple_bijection b :
  lc_wf b →
  (∀ t, valid_tuple b t →
     ∃ k, getBoxFromTuple b (v0 t) (v1 t) (v2 t) = Ok k ∧ 0 ≤ k < nTotalBoxes b ∧
          (k < nLocalBoxes b ↔ local_tuple b t) ∧ getTuple b k = Ok t) ∧
  (∀ k, 0 ≤ k < nTotalBoxes b →
     ∃ t, getTuple b k = Ok t ∧ valid_tuple b t ∧
          getBoxFromTuple b (v0 t) (v1 t) (v2 t) = Ok k).
Proof.
  intros Hwf. split.
  - intros [ix iy iz] Hv. exists (box_index b (V3 ix iy iz)).
    destruct (box_index_range b Hwf _ Hv). simpl v0. simpl v1. simpl v2.
    rewrite getBoxFromTuple_eq, getTuple_box_index by done. done.
  - intros k Hk. destruct (getTuple_total b Hwf k Hk) as ([ix iy iz] & ? & ? & <-).
    exists (V3 ix iy iz). split_and!; [done..|]. by apply getBoxFromTuple_eq.
Qed.

Lemma box_tuple_bijection_witness :
  ∃ k, getBoxFromTuple ex_boxes (-1) 2 1 = Ok k ∧ getTuple ex_boxes k = Ok (V3 (-1) 2 1).
Proof.
  destruct (box_tuple_bijection ex_boxes ex_boxes_wf) as [Hk _].
  destruct (Hk (V3 (-1) 2 1)) as (k & ? & _ & _ & ?); [by vm_compute|]. by exists k.
Defined.

(** For a local box, [getNeighborBoxes] returns 27 distinct boxes, the box
    itself at position 13, and exactly the boxes whose coordinates differ by at
    most one on every axis. *)
Theorem getNeighborBoxes_correct b k t :
  lc_wf b → 0 ≤ k < nLocalBoxes b → getTuple b k = Ok t →
  returns (getNeighborBoxes b k) (λ l,
    length l = 27%nat ∧ NoDup l ∧ l !! 13%nat = Some k ∧
    ∀ j t', 0 ≤ j < nTotalBoxes b → getTuple b j = Ok t' → (j ∈ l ↔ adjacent t t')).
Proof.
  intros Hwf Hk Ht. destruct (local_box b k Hwf Hk) as (tk & Hl & Hv & <-).
  rewrite getTuple_box_index in Ht by done. injection Ht as <-.
  rewrite getNeighborBoxes_eq by done. simpl. split_and!.
  - rewrite length_fmap. unfold around. rewrite length_tuples_in.
    replace (v0 tk + 1 + 1 - (v0 tk - 1)) with 3 by lia.
    replace (v1 tk + 1 + 1 - (v1 tk - 1)) with 3 by lia.
    by replace (v2 tk + 1 + 1 - (v2 tk - 1)) with 3 by lia.
  - apply NoDup_boxes; [done| |apply NoDup_tuples_in].
    intros t'. rewrite elem_of_around. by apply around_valid.
  - by rewrite list_lookup_fmap, around_centre.
  - intros j t' Hj Ht'. destruct (getTuple_total b Hwf j Hj) as (t'' & Ht'' & Hv'' & <-).
    rewrite Ht' in Ht''. injection Ht'' as <-. rewrite list_elem_of_fmap.
    setoid_rewrite elem_of_around. split.
    + intros (s & He & Ha). apply box_index_inj in He as <-; [done|done|done|].
      by eapply around_valid.
    + intros Ha. by exists t'.
Qed.

Lemma getNeighborBoxes_correct_witness :
  returns (getNeighborBoxes ex_boxes 7) (λ l, length l = 27%nat ∧ NoDup l).
Proof.
  eapply returns_mono; [apply (getNeighborBoxes_correct ex_boxes 7 (V3 1 1 1) ex_boxes_wf)|].
  - by vm_compute.
  - by vm_compute.
  - by intros l (? & ? & _).
Defined.

(** What [initLinkCells] returns, when it returns, is well-formed (as long as
    the storage for its boxes can be indexed by an [int]), starts with every box
    empty, and has one box for each coordinate in [-1 .. gridSize] on each axis. *)
Theorem initLinkCells_wf d cutoff b :
  initLinkCells d cutoff = Ok b →
  nTotalBoxes b * MAXATOMS ≤ INT_MAX →
  lc_wf b ∧ (∀ n, n ∈ nAtoms b → n = 0) ∧
  nTotalBoxes b =
    (v0 (gridSize b) + 2) * (v1 (gridSize b) + 2) * (v2 (gridSize b) + 2).
Proof.
  intros Hi Hint. destruct (initLinkCells_spec _ _ _ Hi Hint) as (Hwf & Hn & _).
  split_and!; [done| |by apply total_boxes].
  intros n. rewrite Hn. by intros [-> _]%elem_of_replicate.
Qed.

Lemma initLinkCells_wf_witness : lc_wf ex_boxes ∧ nTotalBoxes ex_boxes = 64.
Proof.
  destruct (initLinkCells_wf _ _ _ ex_boxes_init) as (Hwf & _ & Ht); [by vm_compute|].
  split; [exact Hwf|exact Ht].
Defined.

(** [getBoxFromCoord] puts a position that is at most one box outside the
    local domain into a box, and into a local box exactly when, on every axis, the
    position is below the upper bound of the domain and its box coordinate is not
    negative: two ranks that share a face decide by comparing with the same
    bound. *)
Theorem getBoxFromCoord_correct b rr fx fy fz :
  lc_wf b →
  int_floor ((v0 rr - v0 (localMin b)) * v0 (invBoxSize b))%R = Ok fx →
  int_floor ((v1 rr - v1 (localMin b)) * v1 (invBoxSize b))%R = Ok fy →
  int_floor ((v2 rr - v2 (localMin b)) * v2 (invBoxSize b))%R = Ok fz →
  -1 ≤ fx ≤ v0 (gridSize b) → -1 ≤ fy ≤ v1 (gridSize b) → -1 ≤ fz ≤ v2 (gridSize b) →
  returns (getBoxFromCoord b rr) (λ k, 0 ≤ k < nTotalBoxes b ∧
    (k < nLocalBoxes b ↔
       (0 ≤ fx ∧ (v0 rr <? v0 (localMax b))%R = true) ∧
       (0 ≤ fy ∧ (v1 rr <? v1 (localMax b))%R = true) ∧
       (0 ≤ fz ∧ (v2 rr <? v2 (localMax b))%R = true))).
Proof.
  intros Hwf Hx Hy Hz Bx By Bz. unfold getBoxFromCoord. rewrite Hx, Hy, Hz. simpl.
  assert (∀ g l r i, 2 ≤ g → -1 ≤ i ≤ g →
    -1 ≤ axis_box g l r i ≤ g ∧
    (0 ≤ axis_box g l r i < g ↔ 0 ≤ i ∧ (r <? l)%R = true)) as Hax.
  { intros g l r i ??. unfold axis_box. destruct (r <? l)%R; [zcase|]; naive_solver lia. }
  pose proof Hwf as [Gx Gy Gz _ _ _ _ _].
  destruct (Hax _ (v0 (localMax b)) (v0 rr) fx Gx Bx) as [Vx Lx].
  destruct (Hax _ (v1 (localMax b)) (v1 rr) fy Gy By) as [Vy Ly].
  destruct (Hax _ (v2 (localMax b)) (v2 rr) fz Gz Bz) as [Vz Lz].
  rewrite getBoxFromTuple_eq by done.
  match goal with |- returns (Ok (box_index _ ?t)) _ =>
    destruct (box_index_range b Hwf t) as [Hr Hl]; [done|] end.
  split; [exact Hr|]. rewrite Hl. unfold local_tuple; simpl. by rewrite Lx, Ly, Lz.
Qed.

Lemma getBoxFromCoord_correct_witness :
  returns (getBoxFromCoord ex_boxes (V3 fhalf ftwo (fopp fhalf))) (λ k, 8 ≤ k < 64).
Proof.
  eapply returns_mono.
  - apply (getBoxFromCoord_correct ex_boxes (V3 fhalf ftwo (fopp fhalf)) 0 2 (-1) ex_boxes_wf);
      first [by vm_compute | done].
  - intros k [Hk Hl]. split; [|apply Hk]. apply Z.nlt_ge. intros Hlt.
    apply Hl in Hlt as (_ & (_ & ?) & _). discriminate.
Defined.
