(* ===== verification/Atoms.v ===== *)
(** * Atoms: atom storage and its movement between link cells
    (initAtoms.h, initAtoms.c, linkCells.c)

    CoMD stores atoms as six parallel arrays; box [iBox] owns the slots
    [iBox * MAXATOMS .. iBox * MAXATOMS + nAtoms[iBox] - 1]. The file models
    the operations on this storage ([initAtoms], [putAtomInBox], [copyAtom],
    [moveAtom], [updateLinkCells]) on the arrays, and relates them to an
    abstract state, the list of the boxes' contents ([cells]). *)

From Stdlib Require Import ZArith Lia.
From stdpp Require Import base list numbers sets sorting.
From S2P Require Import Prelude Float64 Parallel Decomposition LinkCells.

Record Atoms := mkAtoms {
  nLocal : Z;
  nGlobal : Z;
  gid : list Z;
  iSpecies : list Z;
  ar : list real3;
  ap : list real3;
  af : list real3;
  aU : list real_t;
}.

Definition set_nLocal (a : Atoms) (n : Z) : Atoms :=
  mkAtoms n (nGlobal a) (gid a) (iSpecies a) (ar a) (ap a) (af a) (aU a).
Definition set_nGlobal (a : Atoms) (n : Z) : Atoms :=
  mkAtoms (nLocal a) n (gid a) (iSpecies a) (ar a) (ap a) (af a) (aU a).

(** [initAtoms]: [MAXATOMS * nTotalBoxes] zeroed slots. *)
Definition initAtoms (boxes : LinkCell) : res Atoms :=
  maxTotalAtoms ← int32 (MAXATOMS * nTotalBoxes boxes);
  let n := Z.to_nat maxTotalAtoms in
  Ok (mkAtoms 0 0 (replicate n 0) (replicate n 0) (replicate n zero3)
        (replicate n zero3) (replicate n zero3) (replicate n fzero)).

(** [putAtomInBox]. *)
Definition putAtomInBox (boxes : LinkCell) (atoms : Atoms)
    (id iType : Z) (pos mom : real3) : res (LinkCell * Atoms) :=
  iBox ← getBoxFromCoord boxes pos;
  iOff ← int32 (iBox * MAXATOMS);
  n ← aload (nAtoms boxes) iBox;
  iOff ← int32 (iOff + n);
  let nl := if iBox <? nLocalBoxes boxes then nLocal atoms + 1 else nLocal atoms in
  counts ← astore (nAtoms boxes) iBox (n + 1);
  gid' ← astore (gid atoms) iOff id;
  sp' ← astore (iSpecies atoms) iOff iType;
  r' ← astore (ar atoms) iOff pos;
  p' ← astore (ap atoms) iOff mom;
  Ok (set_nAtoms boxes counts,
      mkAtoms nl (nGlobal atoms) gid' sp' r' p' (af atoms) (aU atoms)).

(** [copyAtom]. *)
Definition copyAtom (atoms : Atoms) (iAtom iBox jAtom jBox : Z) : res Atoms :=
  iOff ← int32 (MAXATOMS * iBox + iAtom);
  jOff ← int32 (MAXATOMS * jBox + jAtom);
  x ← aload (gid atoms) iOff; gid' ← astore (gid atoms) jOff x;
  x ← aload (iSpecies atoms) iOff; sp' ← astore (iSpecies atoms) jOff x;
  x ← aload (ar atoms) iOff; r' ← astore (ar atoms) jOff x;
  x ← aload (ap atoms) iOff; p' ← astore (ap atoms) jOff x;
  x ← aload (af atoms) iOff; f' ← astore (af atoms) jOff x;
  x ← aload (aU atoms) iOff; U' ← astore (aU atoms) jOff x;
  Ok (mkAtoms (nLocal atoms) (nGlobal atoms) gid' sp' r' p' f' U').

(** [moveAtom]. *)
Definition moveAtom (boxes : LinkCell) (atoms : Atoms) (iId iBox jBox : Z)
    : res (LinkCell * Atoms) :=
  nj ← aload (nAtoms boxes) jBox;
  atoms ← copyAtom atoms iId iBox nj jBox;
  counts ← astore (nAtoms boxes) jBox (nj + 1);
  n ← aload counts jBox;
  _ ← cassert (n <? MAXATOMS);
  n ← aload counts iBox;
  counts ← astore counts iBox (n - 1);
  ni ← aload counts iBox;
  atoms ← (if ni =? 0 then Ok atoms else copyAtom atoms ni iBox iId iBox);
  let atoms :=
    if jBox >? nLocalBoxes boxes then set_nLocal atoms (nLocal atoms - 1) else atoms in
  Ok (set_nAtoms boxes counts, atoms).

(** The [while] loop of [updateLinkCells]: it ends because each iteration
    advances [ii] or takes an atom out of the box. *)
Fixpoint update_cell (fuel : nat) (iBox ii : Z) (st : LinkCell * Atoms)
    : res (LinkCell * Atoms) :=
  match fuel with
  | O => Err OutOfFuel
  | S fuel =>
      let '(boxes, atoms) := st in
      n ← aload (nAtoms boxes) iBox;
      if ii <? n then
        iOff ← int32 (iBox * MAXATOMS);
        rr ← aload (ar atoms) (iOff + ii);
        jBox ← getBoxFromCoord boxes rr;
        if negb (jBox =? iBox) then
          st ← moveAtom boxes atoms ii iBox jBox;
          update_cell fuel iBox ii st
        else update_cell fuel iBox (ii + 1) st
      else Ok st
  end.

(** One more than the number of atoms of the box is enough fuel. *)
Definition updateLinkCells (boxes : LinkCell) (atoms : Atoms) : res (LinkCell * Atoms) :=
  boxes ← emptyHaloCells boxes;
  for_range 0 (nLocalBoxes boxes) (λ iBox st,
    n ← aload (nAtoms st.1) iBox;
    update_cell (S (Z.to_nat n)) iBox 0 st) (boxes, atoms).

(** ** The arrays as one array of atoms *)

Record atom := mkAtom {
  a_gid : Z; a_species : Z; a_r : real3; a_p : real3; a_f : real3; a_U : real_t;
}.

#[export] Instance atom_eq_dec : EqDecision atom.
Proof.
  intros [] []; unfold Decision; decide equality; apply _ || apply decide_rel; apply _.
Defined.

#[export] Instance atom_inhabited : Inhabited atom :=
  populate (mkAtom 0 0 zero3 zero3 zero3 fzero).

Definition slots (a : Atoms) : list atom :=
  zip_with (λ gs q, mkAtom gs.1 gs.2 q.1.1 q.1.2 q.2.1 q.2.2)
    (zip (gid a) (iSpecies a)) (zip (zip (ar a) (ap a)) (zip (af a) (aU a))).

Definition slot_count (b : LinkCell) : nat := Z.to_nat (MAXATOMS * nTotalBoxes b).

(** Every array has room for [MAXATOMS] atoms in every box. *)
Record atoms_wf (b : LinkCell) (a : Atoms) : Prop := {
  len_gid : length (gid a) = slot_count b;
  len_sp : length (iSpecies a) = slot_count b;
  len_r : length (ar a) = slot_count b;
  len_p : length (ap a) = slot_count b;
  len_f : length (af a) = slot_count b;
  len_U : length (aU a) = slot_count b;
}.

Lemma slots_lookup a k x :
  slots a !! k = Some x ↔
  gid a !! k = Some (a_gid x) ∧ iSpecies a !! k = Some (a_species x) ∧
  ar a !! k = Some (a_r x) ∧ ap a !! k = Some (a_p x) ∧
  af a !! k = Some (a_f x) ∧ aU a !! k = Some (a_U x).
Proof.
  unfold slots. rewrite lookup_zip_with_Some. split.
  - intros ([] & [[] []] & -> & Hz1 & Hz2). simpl.
    apply lookup_zip_with_Some in Hz1 as (?&?&?&?&?).
    apply lookup_zip_with_Some in Hz2 as (?&?&?&Hz3&Hz4).
    simplify_eq. apply lookup_zip_with_Some in Hz3 as (?&?&?&?&?).
    apply lookup_zip_with_Some in Hz4 as (?&?&?&?&?). simplify_eq. done.
  - intros (H1&H2&H3&H4&H5&H6).
    exists (a_gid x, a_species x), ((a_r x, a_p x), (a_f x, a_U x)).
    split; [by destruct x|].
    rewrite !lookup_zip_with, H1, H2, H3, H4, H5, H6. done.
Qed.

Lemma slots_insert a n g k x :
  slots (mkAtoms n g (<[k:=a_gid x]> (gid a)) (<[k:=a_species x]> (iSpecies a))
    (<[k:=a_r x]> (ar a)) (<[k:=a_p x]> (ap a)) (<[k:=a_f x]> (af a)) (<[k:=a_U x]> (aU a)))
  = <[k:=x]> (slots a).
Proof.
  destruct x. unfold slots; simpl. rewrite <-!(insert_zip_with pair).
  by rewrite <-(insert_zip_with (λ gs q, mkAtom gs.1 gs.2 q.1.1 q.1.2 q.2.1 q.2.2)).
Qed.

Lemma length_slots b a : atoms_wf b a → length (slots a) = slot_count b.
Proof. intros []. unfold slots. rewrite !length_zip_with. lia. Qed.

Lemma slots_set_nLocal a n : slots (set_nLocal a n) = slots a.
Proof. done. Qed.

(** ** Cells: the abstract state *)

Definition occ (b : LinkCell) (k : nat) : nat := Z.to_nat (nAtoms b !!! k).

(** The atoms of box [k]. *)
Definition cell (b : LinkCell) (a : Atoms) (k : nat) : list atom :=
  take (occ b k) (drop (64 * k) (slots a)).

Definition cells (b : LinkCell) (a : Atoms) : list (list atom) :=
  cell b a <$> seq 0 (Z.to_nat (nTotalBoxes b)).

(** The state of the link cells and their atoms is consistent. *)
Record cells_wf (b : LinkCell) (a : Atoms) : Prop := {
  cw_lc : lc_wf b;
  cw_atoms : atoms_wf b a;
  cw_occ : ∀ k n, nAtoms b !! k = Some n → 0 ≤ n ≤ MAXATOMS;
}.

(** Removal of the element at [i] as [moveAtom] does it: the last element
    takes its place. *)
Definition swap_remove {A} (i : nat) (l : list A) : list A :=
  match last l with
  | Some y => take (pred (length l)) (<[i:=y]> l)
  | None => []
  end.

Lemma swap_remove_perm {A} i (l : list A) x :
  l !! i = Some x → x :: swap_remove i l ≡ₚ l.
Proof.
  intros Hi. unfold swap_remove. destruct l as [|y l _] using rev_ind; [done|].
  rewrite last_snoc, length_app. simpl. rewrite Nat.add_1_r. simpl.
  destruct (decide (i = length l)) as [->|Hne].
  - rewrite list_lookup_middle in Hi by done. injection Hi as ->.
    rewrite insert_app_r_alt, Nat.sub_diag by lia. simpl. rewrite take_app_length.
    apply Permutation_cons_append.
  - assert (i < length l)%nat by (apply lookup_lt_Some in Hi; rewrite length_app in Hi; simpl in Hi; lia).
    rewrite insert_app_l by done. rewrite lookup_app_l in Hi by done.
    rewrite take_app_length' by (by rewrite length_insert).
    destruct (list_elem_of_split_length l i x Hi) as (l1 & l2 & -> & ->).
    rewrite insert_app_r_alt, Nat.sub_diag by lia. simpl.
    rewrite <-app_assoc; simpl. solve_Permutation.
Qed.

Lemma swap_remove_lookup {A} i (l : list A) k :
  (i < length l)%nat →
  swap_remove i l !! k =
    if decide (k < pred (length l))%nat then
      if decide (k = i) then l !! pred (length l) else l !! k
    else None.
Proof.
  intros Hi. unfold swap_remove. destruct (last l) as [y|] eqn:Hl.
  - rewrite last_lookup in Hl. case_decide.
    + rewrite lookup_take_lt by lia. case_decide; subst.
      * by rewrite list_lookup_insert_eq by lia.
      * by rewrite list_lookup_insert_ne by done.
    + apply lookup_take_ge. lia.
  - apply last_None in Hl as ->. simpl in Hi. lia.
Qed.

Lemma cell_lookup b a k m :
  cell b a k !! m = if decide (m < occ b k)%nat then slots a !! (64 * k + m)%nat else None.
Proof.
  unfold cell. case_decide.
  - by rewrite lookup_take_lt, lookup_drop by done.
  - apply lookup_take_ge. lia.
Qed.

Lemma cells_lookup b a k :
  (k < Z.to_nat (nTotalBoxes b))%nat → cells b a !! k = Some (cell b a k).
Proof. intros. unfold cells. by rewrite list_lookup_fmap, lookup_seq_lt by done. Qed.

Lemma length_cells b a : length (cells b a) = Z.to_nat (nTotalBoxes b).
Proof. unfold cells. by rewrite length_fmap, length_seq. Qed.

(** The live slots of a box, in order. *)
Lemma cell_seqZ b a k :
  lc_wf b → atoms_wf b a → 0 ≤ k < nTotalBoxes b → (occ b (Z.to_nat k) ≤ 64)%nat →
  cell b a (Z.to_nat k) =
    (λ i, slots a !!! Z.to_nat i) <$> seqZ (k * MAXATOMS) (Z.of_nat (occ b (Z.to_nat k))).
Proof.
  intros Hwf Ha Hk Ho. apply list_eq. intros m. rewrite cell_lookup, list_lookup_fmap.
  case_decide as Hm.
  - rewrite lookup_seqZ_lt by lia. simpl. unfold MAXATOMS.
    replace (Z.to_nat (k * 64 + Z.of_nat m)) with (64 * Z.to_nat k + m)%nat by lia.
    apply list_lookup_lookup_total_lt. rewrite (length_slots b a Ha).
    unfold slot_count, MAXATOMS. lia.
  - by rewrite lookup_seqZ_ge by lia.
Qed.

(** The fields of a slot. *)
Lemma slot_loads b a i :
  atoms_wf b a → 0 ≤ i < Z.of_nat (slot_count b) →
  let x := slots a !!! Z.to_nat i in
  aload (gid a) i = Ok (a_gid x) ∧ aload (iSpecies a) i = Ok (a_species x) ∧
  aload (ar a) i = Ok (a_r x) ∧ aload (ap a) i = Ok (a_p x) ∧
  aload (af a) i = Ok (a_f x) ∧ aload (aU a) i = Ok (a_U x).
Proof.
  intros Ha Hi x. assert (slots a !! Z.to_nat i = Some x) as Hx.
  { apply list_lookup_lookup_total_lt. rewrite (length_slots b a Ha). lia. }
  apply slots_lookup in Hx as (?&?&?&?&?&?). split_and!; apply aload_lookup; (lia || done).
Qed.

(** ** Copying and moving one atom *)

Lemma atoms_wf_insert b a n g k x :
  atoms_wf b a →
  atoms_wf b (mkAtoms n g (<[k:=a_gid x]> (gid a)) (<[k:=a_species x]> (iSpecies a))
    (<[k:=a_r x]> (ar a)) (<[k:=a_p x]> (ap a)) (<[k:=a_f x]> (af a)) (<[k:=a_U x]> (aU a))).
Proof. intros []. split; simpl; by rewrite length_insert. Qed.

Lemma atoms_wf_counts b c a : atoms_wf b a → atoms_wf (set_nAtoms b c) a.
Proof. intros []. by split. Qed.

Lemma slot_in_range b k m :
  lc_wf b → 0 ≤ k < nTotalBoxes b → 0 ≤ m < MAXATOMS →
  0 ≤ MAXATOMS * k + m < Z.of_nat (slot_count b) ∧ MAXATOMS * k + m ≤ INT_MAX.
Proof. intros [] ??. unfold slot_count, MAXATOMS, INT_MAX in *. lia. Qed.

Lemma copyAtom_spec b a i ki j kj x :
  lc_wf b → atoms_wf b a →
  0 ≤ ki < nTotalBoxes b → 0 ≤ i < MAXATOMS →
  0 ≤ kj < nTotalBoxes b → 0 ≤ j < MAXATOMS →
  slots a !! Z.to_nat (MAXATOMS * ki + i) = Some x →
  returns (copyAtom a i ki j kj) (λ a',
    atoms_wf b a' ∧ slots a' = <[Z.to_nat (MAXATOMS * kj + j) := x]> (slots a) ∧
    nLocal a' = nLocal a ∧ nGlobal a' = nGlobal a).
Proof.
  intros Hwf Ha Hki Hi Hkj Hj Hx. unfold copyAtom.
  destruct (slot_in_range b ki i) as [Hri Hmi]; [done..|].
  destruct (slot_in_range b kj j) as [Hrj Hmj]; [done..|].
  rewrite !int32_Ok by (unfold INT_MIN; lia). csimpl.
  apply slots_lookup in Hx as (H1&H2&H3&H4&H5&H6).
  pose proof Ha as [L1 L2 L3 L4 L5 L6].
  rewrite !(aload_lookup _ _ _ (proj1 Hri) H1). csimpl. rewrite astore_Ok by lia. csimpl.
  rewrite !(aload_lookup _ _ _ (proj1 Hri) H2). csimpl. rewrite astore_Ok by lia. csimpl.
  rewrite !(aload_lookup _ _ _ (proj1 Hri) H3). csimpl. rewrite astore_Ok by lia. csimpl.
  rewrite !(aload_lookup _ _ _ (proj1 Hri) H4). csimpl. rewrite astore_Ok by lia. csimpl.
  rewrite !(aload_lookup _ _ _ (proj1 Hri) H5). csimpl. rewrite astore_Ok by lia. csimpl.
  rewrite !(aload_lookup _ _ _ (proj1 Hri) H6). csimpl. rewrite astore_Ok by lia. csimpl.
  split_and!; [by apply atoms_wf_insert|apply slots_insert|done..].
Qed.

Lemma occ_lookup b k n : nAtoms b !! k = Some n → nAtoms b !!! k = n.
Proof. apply list_lookup_total_correct. Qed.

Lemma cells_wf_occ b a k :
  cells_wf b a → (k < Z.to_nat (nTotalBoxes b))%nat →
  nAtoms b !! k = Some (Z.of_nat (occ b k)) ∧ (occ b k ≤ 64)%nat.
Proof.
  intros [Hwf _ Ho] Hk. destruct (lookup_lt_is_Some_2 (nAtoms b) k) as [n Hn].
  { by rewrite (wf_nAtoms b Hwf). }
  destruct (Ho k n Hn). unfold occ. rewrite (occ_lookup b k n Hn).
  unfold MAXATOMS in *. split; [|lia]. rewrite Hn. f_equal. lia.
Qed.

Lemma length_cell b a k :
  cells_wf b a → (k < Z.to_nat (nTotalBoxes b))%nat → length (cell b a k) = occ b k.
Proof.
  intros Hc Hk. destruct (cells_wf_occ b a k Hc Hk) as [_ Ho]. destruct Hc as [Hwf Ha _].
  unfold cell. rewrite length_take, length_drop, (length_slots b a Ha).
  unfold slot_count, MAXATOMS. lia.
Qed.

(** Two counts changed. *)
Lemma lc_wf_counts b c : lc_wf b → length c = length (nAtoms b) → lc_wf (set_nAtoms b c).
Proof. intros [] ?. split; simpl; congruence. Qed.

(** A cell depends on its count and on its live slots. *)
Lemma cell_ext b b' a a' k :
  occ b' k = occ b k →
  (∀ q, (q < occ b k)%nat → slots a' !! (64 * k + q)%nat = slots a !! (64 * k + q)%nat) →
  cell b' a' k = cell b a k.
Proof.
  intros Ho Hs. apply list_eq. intros m. rewrite !cell_lookup, Ho. case_decide; auto.
Qed.

Lemma cell_snoc b b' a a' k x :
  cells_wf b a → (k < Z.to_nat (nTotalBoxes b))%nat → (occ b k < 64)%nat →
  occ b' k = S (occ b k) →
  (∀ q, (q < occ b' k)%nat → slots a' !! (64 * k + q)%nat =
     <[(64 * k + occ b k)%nat:=x]> (slots a) !! (64 * k + q)%nat) →
  cell b' a' k = cell b a k ++ [x].
Proof.
  intros Hc Hk H64 Ho Hs. apply list_eq. intros m. rewrite !cell_lookup.
  case_decide as Hm; rewrite ?Hs by done; rewrite Ho in Hm; destruct (decide (m < occ b k)%nat).
  - rewrite lookup_app_l by (rewrite length_cell; done).
    rewrite cell_lookup, decide_True by done. apply list_lookup_insert_ne. lia.
  - rewrite lookup_app_r by (rewrite length_cell; done || lia). rewrite length_cell by done.
    destruct (decide (m = occ b k)) as [->|].
    + rewrite Nat.sub_diag. simpl. apply list_lookup_insert_eq.
      rewrite (length_slots b a (cw_atoms _ _ Hc)). unfold slot_count, MAXATOMS. lia.
    + lia.
  - lia.
  - symmetry. apply lookup_ge_None_2. rewrite length_app, length_cell by done. simpl. lia.
Qed.

Lemma cell_swap_remove b b' a a' k m :
  cells_wf b a → (k < Z.to_nat (nTotalBoxes b))%nat → (m < occ b k)%nat →
  occ b' k = pred (occ b k) →
  (∀ q, (q < occ b' k)%nat → slots a' !! (64 * k + q)%nat =
     slots a !! (64 * k + if decide (q = m) then pred (occ b k) else q)%nat) →
  cell b' a' k = swap_remove m (cell b a k).
Proof.
  intros Hc Hk Hm Ho Hs. apply list_eq. intros q.
  rewrite swap_remove_lookup by (by rewrite length_cell). rewrite !length_cell by done.
  rewrite cell_lookup, Ho. case_decide as Hq; [|done]. rewrite Hs by lia.
  case_decide; rewrite cell_lookup, decide_True by lia; done.
Qed.

Lemma occ_set b c k : occ (set_nAtoms b c) k = Z.to_nat (c !!! k).
Proof. done. Qed.

(** The cells change pointwise. *)
Lemma cells_ext b b' a a' :
  nTotalBoxes b' = nTotalBoxes b →
  (∀ k, (k < Z.to_nat (nTotalBoxes b))%nat → cell b' a' k = cell b a k) →
  cells b' a' = cells b a.
Proof.
  intros Ht Hk. unfold cells. rewrite Ht. apply list_fmap_ext. intros ? k Hl.
  apply Hk. apply lookup_seq in Hl. lia.
Qed.

Lemma cells_update2 b b' a a' i j ci cj :
  nTotalBoxes b' = nTotalBoxes b → i ≠ j →
  (i < Z.to_nat (nTotalBoxes b))%nat → (j < Z.to_nat (nTotalBoxes b))%nat →
  cell b' a' i = ci → cell b' a' j = cj →
  (∀ k, (k < Z.to_nat (nTotalBoxes b))%nat → k ≠ i → k ≠ j → cell b' a' k = cell b a k) →
  cells b' a' = <[i:=ci]> (<[j:=cj]> (cells b a)).
Proof.
  intros Ht Hij Hi Hj <- <- Hk. apply list_eq. intros k.
  destruct (decide (k < Z.to_nat (nTotalBoxes b))%nat) as [Hlt|Hge].
  - rewrite cells_lookup by lia. destruct (decide (k = i)) as [->|].
    + by rewrite list_lookup_insert_eq by (by rewrite length_insert, length_cells).
    + rewrite list_lookup_insert_ne by done. destruct (decide (k = j)) as [->|].
      * by rewrite list_lookup_insert_eq by (by rewrite length_cells).
      * rewrite list_lookup_insert_ne by done. rewrite cells_lookup by done. by rewrite Hk.
  - rewrite !lookup_ge_None_2; [done|..]; rewrite ?length_insert, length_cells; lia.
Qed.

(** The effect of a move on the slots and the counts, as an update of two cells. *)
Lemma moved_cells b a c a' (ii i j : nat) x y :
  cells_wf b a → i ≠ j →
  (i < Z.to_nat (nTotalBoxes b))%nat → (j < Z.to_nat (nTotalBoxes b))%nat →
  (ii < occ b i)%nat → (occ b j + 1 < 64)%nat →
  c = <[i := Z.of_nat (occ b i) - 1]> (<[j := Z.of_nat (occ b j) + 1]> (nAtoms b)) →
  atoms_wf b a' →
  slots a !! (64 * i + pred (occ b i))%nat = Some y →
  slots a' = (if decide (occ b i = 1%nat) then id else <[(64 * i + ii)%nat:=y]>)
               (<[(64 * j + occ b j)%nat := x]> (slots a)) →
  cells_wf (set_nAtoms b c) a' ∧
  cells (set_nAtoms b c) a' =
    <[i := swap_remove ii (cell b a i)]> (<[j := cell b a j ++ [x]]> (cells b a)).
Proof.
  intros Hc Hij Hi Hj Hii Hcap Hcc Ha' Hy Hs. pose proof Hc as [Hwf Ha Hocc].
  destruct (cells_wf_occ b a i Hc Hi) as [Hni Hi64].
  pose proof (wf_nAtoms b Hwf) as Hlen.
  assert (occ (set_nAtoms b c) i = pred (occ b i)) as Oi.
  { rewrite occ_set, Hcc, list_lookup_total_insert_eq by (rewrite length_insert; lia). lia. }
  assert (occ (set_nAtoms b c) j = S (occ b j)) as Oj.
  { rewrite occ_set, Hcc, list_lookup_total_insert_ne, list_lookup_total_insert_eq by lia. lia. }
  assert (∀ k, k ≠ i → k ≠ j → occ (set_nAtoms b c) k = occ b k) as Ok'.
  { intros k ??. by rewrite occ_set, Hcc, !list_lookup_total_insert_ne by done. }
  assert (∀ p, (p ≠ 64 * i + ii ∨ occ b i = 1)%nat → (p ≠ 64 * j + occ b j)%nat →
    slots a' !! p = slots a !! p) as Hsame.
  { intros p Hp1 Hp2. rewrite Hs. case_decide; simpl; rewrite ?list_lookup_insert_ne; naive_solver lia. }
  split.
  - split; [apply lc_wf_counts; [done|by rewrite Hcc, !length_insert]|by apply atoms_wf_counts|].
    intros k n. simpl. rewrite Hcc. unfold MAXATOMS.
    intros [(-> & <- & _)|[_ [(-> & <- & _)|[_ Hk]]%list_lookup_insert_Some]]%list_lookup_insert_Some;
      [lia..|by apply (Hocc k)].
  - apply cells_update2; [done..| | |].
    + apply cell_swap_remove; [done..|]. intros q Hq. rewrite Oi in Hq.
      destruct (decide (q = ii)) as [->|]; [|apply Hsame; lia].
      rewrite Hs, decide_False by lia. rewrite list_lookup_insert_eq; [done|].
      rewrite length_insert, (length_slots b a Ha). unfold slot_count, MAXATOMS. lia.
    + apply cell_snoc; [done..|lia|done|]. intros q Hq. rewrite Hs. case_decide; [done|].
      apply list_lookup_insert_ne. lia.
    + intros k Hk ??. apply cell_ext; [by apply Ok'|]. intros q Hq.
      destruct (cells_wf_occ b a k Hc Hk). apply Hsame; lia.
Qed.

(** [moveAtom] on the cells. *)
Lemma moveAtom_spec b a ii i j x :
  cells_wf b a → 0 ≤ i < nTotalBoxes b → 0 ≤ j < nTotalBoxes b → i ≠ j →
  0 ≤ ii → cell b a (Z.to_nat i) !! Z.to_nat ii = Some x →
  (length (cell b a (Z.to_nat j)) + 1 < 64)%nat →
  returns (moveAtom b a ii i j) (λ st,
    cells_wf st.1 st.2 ∧ st.1 = set_nAtoms b (nAtoms st.1) ∧
    cells st.1 st.2 = <[Z.to_nat i := swap_remove (Z.to_nat ii) (cell b a (Z.to_nat i))]>
                    (<[Z.to_nat j := cell b a (Z.to_nat j) ++ [x]]> (cells b a)) ∧
    nLocal st.2 = (if j >? nLocalBoxes b then nLocal a - 1 else nLocal a)).
Proof.
  intros Hc Hi Hj Hij Hii Hx Hcap. pose proof Hc as [Hwf Ha Hocc].
  destruct (cells_wf_occ b a (Z.to_nat i) Hc) as [Hni Hi64]; [lia|].
  destruct (cells_wf_occ b a (Z.to_nat j) Hc) as [Hnj Hj64]; [lia|].
  rewrite length_cell in Hcap by (done || lia).
  rewrite cell_lookup in Hx. case_decide as Hlt; [|done].
  pose proof (wf_nAtoms b Hwf) as Hlen.
  set (ni := occ b (Z.to_nat i)) in *. set (nj := occ b (Z.to_nat j)) in *.
  set (c := <[Z.to_nat i := Z.of_nat ni - 1]> (<[Z.to_nat j := Z.of_nat nj + 1]> (nAtoms b))).
  unfold moveAtom. rewrite (aload_lookup _ _ _ (proj1 Hj) Hnj). csimpl.
  eapply returns_bind.
  { apply (copyAtom_spec b a ii i (Z.of_nat nj) j x); unfold MAXATOMS; try lia; [done..|].
    rewrite <-Hx. f_equal. lia. }
  intros a1 (Ha1 & Hs1 & Hl1 & _). rewrite astore_Ok by lia. csimpl.
  rewrite (aload_lookup _ j (Z.of_nat nj + 1)) by (lia || (apply list_lookup_insert_eq; lia)).
  csimpl. rewrite cassert_true by (unfold MAXATOMS; lia). csimpl.
  rewrite (aload_lookup _ i (Z.of_nat ni)) by (lia || (rewrite list_lookup_insert_ne by lia; done)).
  csimpl. rewrite astore_Ok by (rewrite length_insert; lia). csimpl. fold c.
  rewrite (aload_lookup c i (Z.of_nat ni - 1)) by
    (lia || (apply list_lookup_insert_eq; rewrite length_insert; lia)). csimpl.
  destruct (lookup_lt_is_Some_2 (slots a) (64 * Z.to_nat i + pred ni)) as [y Hy].
  { rewrite (length_slots b a Ha). unfold slot_count, MAXATOMS. lia. }
  eapply (returns_bind _ _ (λ a2, atoms_wf b a2 ∧ slots a2 =
    (if decide (ni = 1%nat) then id else <[(64 * Z.to_nat i + Z.to_nat ii)%nat:=y]>) (slots a1) ∧
    nLocal a2 = nLocal a)).
  { zcase; [rewrite decide_True by lia; done|]. rewrite decide_False by lia.
    eapply returns_mono; [apply (copyAtom_spec b a1 (Z.of_nat ni - 1) i ii i y)|];
      unfold MAXATOMS in *; try lia; [done..| |].
    - rewrite Hs1, list_lookup_insert_ne by lia. rewrite <-Hy. f_equal. lia.
    - intros a2 (? & -> & ? & _). split_and!; [done| |congruence]. f_equal. lia. }
  intros a2 (Ha2 & Hs2 & Hl2). csimpl.
  destruct (moved_cells b a c a2 (Z.to_nat ii) (Z.to_nat i) (Z.to_nat j) x y) as [Hc' Hcs];
    try done; try lia.
  { rewrite Hs2, Hs1. do 2 f_equal. unfold MAXATOMS. lia. }
  zcase; split_and!; simpl; try done; [|lia].
  by destruct Hc' as [? [] ?]; split; [|split|].
Qed.

(** ** [putAtomInBox] *)

(** The arrays after [putAtomInBox]: force and energy of the slot stay. *)
Lemma putAtomInBox_slots b a id iType pos mom k :
  cells_wf b a → getBoxFromCoord b pos = Ok k → 0 ≤ k < nTotalBoxes b →
  let i := (64 * Z.to_nat k + occ b (Z.to_nat k))%nat in
  (i < slot_count b)%nat →
  let x := mkAtom id iType pos mom (a_f (slots a !!! i)) (a_U (slots a !!! i)) in
  returns (putAtomInBox b a id iType pos mom) (λ st,
    st.1 = set_nAtoms b (<[Z.to_nat k := Z.of_nat (occ b (Z.to_nat k)) + 1]> (nAtoms b)) ∧
    atoms_wf b st.2 ∧ slots st.2 = <[i := x]> (slots a) ∧ nGlobal st.2 = nGlobal a ∧
    nLocal st.2 = if k <? nLocalBoxes b then nLocal a + 1 else nLocal a).
Proof.
  intros Hc Hbox Hk i Hi x. pose proof Hc as [Hwf Ha _].
  destruct (cells_wf_occ b a (Z.to_nat k) Hc) as [Hn Ho]; [lia|].
  pose proof (wf_int b Hwf) as Hint. pose proof (wf_nAtoms b Hwf) as Hlen.
  unfold putAtomInBox. rewrite Hbox, ret_bind. unfold slot_count in Hi.
  assert (Z.of_nat i = k * MAXATOMS + Z.of_nat (occ b (Z.to_nat k))) as Hiz by (unfold MAXATOMS; lia).
  rewrite int32_Ok, ret_bind by (unfold INT_MIN, MAXATOMS in *; lia).
  rewrite (aload_lookup _ k _ (proj1 Hk) Hn), ret_bind.
  rewrite int32_Ok, ret_bind by (unfold INT_MIN, MAXATOMS in *; lia).
  pose proof Ha as [L1 L2 L3 L4 L5 L6]. unfold slot_count in *.
  rewrite <-Hiz, !astore_Ok by lia. cbn [mbind res_bind returns]. rewrite Nat2Z.id.
  split; [done|]. cbn [fst snd].
  split; [split; simpl; rewrite ?length_insert; done|]. split; [|done].
  destruct (slot_loads b a (Z.of_nat i) Ha) as (_ & _ & _ & _ & Hf & HU); [unfold slot_count; lia|].
  rewrite Nat2Z.id in Hf, HU. apply aload_Ok in Hf as [_ Hf]. apply aload_Ok in HU as [_ HU].
  rewrite Nat2Z.id in Hf, HU. rewrite <-(slots_insert a (if k <? nLocalBoxes b then nLocal a + 1 else nLocal a) (nGlobal a)). simpl.
  by rewrite (list_insert_id _ _ _ Hf), (list_insert_id _ _ _ HU).
Qed.

(** In a box with room, the atom is appended to the box. *)
Lemma putAtomInBox_spec b a id iType pos mom k :
  cells_wf b a → getBoxFromCoord b pos = Ok k → 0 ≤ k < nTotalBoxes b →
  (occ b (Z.to_nat k) < 64)%nat →
  returns (putAtomInBox b a id iType pos mom) (λ st,
    cells_wf st.1 st.2 ∧ st.1 = set_nAtoms b (nAtoms st.1) ∧ nGlobal st.2 = nGlobal a ∧
    (nLocal st.2 = if k <? nLocalBoxes b then nLocal a + 1 else nLocal a) ∧
    ∃ x, a_gid x = id ∧ a_species x = iType ∧ a_r x = pos ∧ a_p x = mom ∧
      cell st.1 st.2 (Z.to_nat k) = cell b a (Z.to_nat k) ++ [x] ∧
      ∀ j, (j < Z.to_nat (nTotalBoxes b))%nat → j ≠ Z.to_nat k →
        cell st.1 st.2 j = cell b a j).
Proof.
  intros Hc Hbox Hk Ho. pose proof Hc as [Hwf Ha Hocc].
  eapply returns_mono; [apply (putAtomInBox_slots b a id iType pos mom k Hc Hbox Hk)|].
  { unfold slot_count, MAXATOMS. lia. }
  intros [b' a'] (Hb & Ha' & Hs & Hg & Hl). cbn [fst snd] in *.
  pose proof (wf_nAtoms b Hwf) as Hlen.
  assert (occ b' (Z.to_nat k) = S (occ b (Z.to_nat k))) as Ok1.
  { rewrite Hb, occ_set, list_lookup_total_insert_eq by lia. lia. }
  assert (∀ j, j ≠ Z.to_nat k → occ b' j = occ b j) as Ok2.
  { intros j ?. by rewrite Hb, occ_set, list_lookup_total_insert_ne by done. }
  split_and!; [|by rewrite Hb|done|done|].
  - rewrite Hb. split; [apply lc_wf_counts; [done|by rewrite length_insert]|by apply atoms_wf_counts|].
    simpl. intros j n. unfold MAXATOMS in *.
    intros [(<- & <- & _)|[_ Hj]]%list_lookup_insert_Some; [lia|by apply (Hocc j)].
  - eexists. split_and!; [..|eapply cell_snoc; try done; [lia|]|].
    5:{ intros q _. by rewrite Hs. }
    all: try done.
    intros j Hj Hjk. apply cell_ext; [by apply Ok2|]. intros q Hq.
    destruct (cells_wf_occ b a j Hc Hj). rewrite Hs, list_lookup_insert_ne; [done|]. lia.
Qed.

(** ** Redistribution of atoms over cells

    The abstract view of [updateLinkCells]: elements move one at a time from
    the cell they are in to the cell they belong to. *)
Section redistribution.
Context {A : Type} (G : nat → A → Prop) {G_dec : ∀ j x, Decision (G j x)}.
Context (G_fun : ∀ i j x, G i x → G j x → i = j).
Implicit Types (c : list A) (cs : list (list A)).

(** The elements of a cell that belong elsewhere, and those, wherever they
    are, that belong to cell [j]. *)
Definition strangers (j : nat) (c : list A) : nat := length (filter (λ x, ¬ G j x) c).
Definition destined (j : nat) (cs : list (list A)) : nat := length (filter (G j) (concat cs)).

(** Cell [j] has room for what it holds and for everything that belongs to it. *)
Definition has_room (cap : nat) (cs : list (list A)) : Prop :=
  ∀ j c, cs !! j = Some c → (destined j cs + strangers j c < cap)%nat.

Record redist (cs0 cs : list (list A)) : Prop := {
  rd_length : length cs = length cs0;
  rd_perm : concat cs ≡ₚ concat cs0;
  rd_strangers : ∀ j c0 c, cs0 !! j = Some c0 → cs !! j = Some c →
    (strangers j c ≤ strangers j c0)%nat;
}.

Lemma strangers_perm j c c' : c ≡ₚ c' → strangers j c = strangers j c'.
Proof. intros H. unfold strangers. by rewrite H. Qed.

Lemma destined_perm j cs cs' : concat cs ≡ₚ concat cs' → destined j cs = destined j cs'.
Proof. intros H. unfold destined. by rewrite H. Qed.

Lemma strangers_zero j c : strangers j c = 0%nat ↔ Forall (G j) c.
Proof.
  unfold strangers. rewrite length_zero_iff_nil. induction c as [|x c IH]; [done|].
  rewrite filter_cons, Forall_cons. case_decide as Hx; simpl.
  - split; [done|]. by intros [? _].
  - rewrite IH. naive_solver.
Qed.

Lemma strangers_split j c : length c = (length (filter (G j) c) + strangers j c)%nat.
Proof.
  unfold strangers. induction c as [|x c IH]; [done|].
  rewrite !filter_cons. destruct (decide (G j x)).
  - rewrite decide_False by auto. simpl. lia.
  - rewrite decide_True by done. simpl. lia.
Qed.

Lemma concat_insert_perm cs i c c' :
  cs !! i = Some c → concat (<[i:=c']> cs) ++ c ≡ₚ concat cs ++ c'.
Proof.
  intros (l1 & l2 & -> & ->)%list_elem_of_split_length.
  rewrite insert_app_r_alt, Nat.sub_diag by lia. simpl. rewrite !concat_app; simpl.
  solve_Permutation.
Qed.

(** Two cells of the list, side by side. *)
Lemma concat_two cs i j ci cj :
  i ≠ j → cs !! i = Some ci → cs !! j = Some cj → ∃ l, concat cs ≡ₚ ci ++ cj ++ l.
Proof.
  intros Hij Hi Hj. exists (concat (<[i:=[]]> (<[j:=[]]> cs))).
  pose proof (concat_insert_perm cs j cj [] Hj) as H1.
  pose proof (concat_insert_perm (<[j:=[]]> cs) i ci []) as H2.
  rewrite list_lookup_insert_ne in H2 by done. specialize (H2 Hi).
  rewrite app_nil_r in H1, H2. rewrite <-H1, <-H2. solve_Permutation.
Qed.

Context (cap : nat) (cs0 : list (list A)) (Hroom : has_room cap cs0).

Lemma redist_refl : redist cs0 cs0.
Proof using. split; [done..|]. intros. by simplify_eq. Qed.

(** A stray element can always move into the cell it belongs to. *)
Lemma redist_room cs i j ci cj ii x :
  redist cs0 cs → i ≠ j → cs !! i = Some ci → cs !! j = Some cj →
  ci !! ii = Some x → G j x → (length cj + 1 < cap)%nat.
Proof using Hroom.
  intros [Hl Hp Hs] Hij Hi Hj Hx HG.
  destruct (lookup_lt_is_Some_2 cs0 j) as [c0 Hc0]; [rewrite <-Hl; by eapply lookup_lt_Some|].
  specialize (Hroom j c0 Hc0). specialize (Hs j c0 cj Hc0 Hj).
  rewrite <-(destined_perm j cs cs0 Hp) in Hroom. rewrite (strangers_split j cj).
  destruct (concat_two cs i j ci cj) as [l Hcat]; [done..|].
  unfold destined in Hroom. rewrite Hcat, !filter_app, !length_app in Hroom.
  assert (0 < length (filter (G j) ci))%nat; [|lia].
  apply list_elem_of_lookup_2 in Hx.
  assert (x ∈ filter (G j) ci) as Hin by (by apply list_elem_of_filter).
  destruct (filter (G j) ci); [by apply not_elem_of_nil in Hin|simpl; lia].
Qed.

(** Moving it keeps every element and brings in no new stray one. *)
Lemma redist_move cs i j ci cj ii x :
  redist cs0 cs → i ≠ j → cs !! i = Some ci → cs !! j = Some cj →
  ci !! ii = Some x → G j x →
  redist cs0 (<[i:=swap_remove ii ci]> (<[j:=cj ++ [x]]> cs)).
Proof using.
  intros [Hl Hp Hs] Hij Hi Hj Hx HG.
  pose proof (swap_remove_perm _ _ _ Hx) as Hsw.
  generalize dependent (swap_remove ii ci). intros ri Hsw. split.
  - by rewrite !length_insert.
  - pose proof (concat_insert_perm cs j cj (cj ++ [x]) Hj) as H1.
    pose proof (concat_insert_perm (<[j:=cj ++ [x]]> cs) i ci ri) as H2.
    rewrite list_lookup_insert_ne in H2 by done. specialize (H2 Hi).
    apply (Permutation_app_inv_r ci). rewrite H2. apply (Permutation_app_inv_r cj).
    rewrite <-app_assoc, (Permutation_app_comm _ cj), app_assoc, H1, <-Hp, <-Hsw.
    solve_Permutation.
  - intros k c0 c Hc0.
    intros [(-> & <- & _)|[_ [(-> & <- & _)|[_ Hc]]%list_lookup_insert_Some]]%list_lookup_insert_Some.
    + etrans; [|by apply (Hs k c0 ci)]. rewrite <-(strangers_perm k _ _ Hsw).
      unfold strangers. rewrite filter_cons. case_decide; simpl; lia.
    + etrans; [|by apply (Hs k c0 cj)]. unfold strangers.
      rewrite filter_app, length_app. rewrite (filter_cons_False _ x []) by naive_solver.
      simpl. lia.
    + by apply (Hs k).
Qed.
End redistribution.

(** ** [updateLinkCells] *)

(** The box an atom belongs to. *)
Definition goes_to (b : LinkCell) (j : nat) (x : atom) : Prop :=
  getBoxFromCoord b (a_r x) = Ok (Z.of_nat j).

#[export] Instance goes_to_dec b j x : Decision (goes_to b j x).
Proof. unfold goes_to. apply _. Defined.

Lemma goes_to_fun b i j x : goes_to b i x → goes_to b j x → i = j.
Proof. unfold goes_to. intros H1 H2. rewrite H1 in H2. injection H2. lia. Qed.

Lemma getBoxFromCoord_range b rr k :
  getBoxFromCoord b rr = Ok k → 0 ≤ k < nTotalBoxes b.
Proof. unfold getBoxFromCoord, getBoxFromTuple. intros H. res_inv. lia. Qed.

(** The cells once the halo is emptied. *)
Definition local_cells (b : LinkCell) (a : Atoms) : list (list atom) :=
  take (Z.to_nat (nLocalBoxes b)) (cells b a) ++
  replicate (Z.to_nat (nTotalBoxes b) - Z.to_nat (nLocalBoxes b)) [].

Lemma length_concat_take_insert {A} m i (c c' : list A) cs :
  cs !! i = Some c →
  (length (concat (take m (<[i:=c']> cs))) + (if decide (i < m) then length c else 0) =
   length (concat (take m cs)) + (if decide (i < m) then length c' else 0))%nat.
Proof.
  intros Hi. case_decide as Hm.
  - rewrite take_insert_lt by done.
    pose proof (concat_insert_perm (take m cs) i c c') as Hp.
    rewrite lookup_take_lt in Hp by done. specialize (Hp Hi). apply Permutation_length in Hp.
    rewrite !length_app in Hp. done.
  - by rewrite take_insert_ge by lia.
Qed.

Section update.
Context (b0 : LinkCell) (a0 : Atoms).
Abbreviation L := (Z.to_nat (nLocalBoxes b0)).
Abbreviation T := (Z.to_nat (nTotalBoxes b0)).
Abbreviation G := (goes_to b0).
Abbreviation nlive cs := (length (concat (take (S L) cs))).

Context (HLT : nLocalBoxes b0 < nTotalBoxes b0).
Context (Hroom : has_room G 64 (cells b0 a0)).
Context (Hdest : ∀ x, x ∈ concat (cells b0 a0) → ∃ j, G j x).

(** The state while box [i] is treated: the boxes before it, and the halo
    boxes, hold only atoms that belong there. *)
Record upd (i : nat) (st : LinkCell * Atoms) : Prop := {
  up_wf : cells_wf st.1 st.2;
  up_geom : st.1 = set_nAtoms b0 (nAtoms st.1);
  up_redist : redist G (cells b0 a0) (cells st.1 st.2);
  up_settled : ∀ k, (k < T)%nat → (k < i ∨ L ≤ k)%nat → Forall (G k) (cell st.1 st.2 k);
  up_nLocal : nLocal st.2 - Z.of_nat (nlive (cells st.1 st.2)) =
              nLocal a0 - Z.of_nat (nlive (cells b0 a0));
}.

Lemma nlive_move (cs : list (list atom)) i j ci cj ii x :
  i ≠ j → (i < L)%nat → cs !! i = Some ci → cs !! j = Some cj → ci !! ii = Some x →
  Z.of_nat (nlive (<[i:=swap_remove ii ci]> (<[j:=cj ++ [x]]> cs))) =
  if Z.of_nat j >? nLocalBoxes b0 then Z.of_nat (nlive cs) - 1 else Z.of_nat (nlive cs).
Proof using HLT.
  intros Hij HL Hi Hj Hx. pose proof (Permutation_length (swap_remove_perm _ _ _ Hx)) as Hsw.
  simpl in Hsw. pose proof (length_concat_take_insert (S L) j cj (cj ++ [x]) cs Hj) as H1.
  pose proof (length_concat_take_insert (S L) i ci (swap_remove ii ci) (<[j:=cj ++ [x]]> cs)) as H2.
  rewrite list_lookup_insert_ne in H2 by done. specialize (H2 Hi).
  rewrite !decide_True in H2 by lia. rewrite length_app in H1. simpl in H1.
  rewrite Z.gtb_ltb. zcase; destruct (decide (j < S L)%nat); lia.
Qed.

(** One stray atom of box [i] moves to its box. *)
Lemma upd_move i ii st j x :
  upd i st → (i < L)%nat → 0 ≤ j < nTotalBoxes b0 → j ≠ Z.of_nat i → 0 ≤ ii →
  cell st.1 st.2 i !! Z.to_nat ii = Some x → G (Z.to_nat j) x →
  returns (moveAtom st.1 st.2 ii (Z.of_nat i) j) (λ st',
    upd i st' ∧ cell st'.1 st'.2 i = swap_remove (Z.to_nat ii) (cell st.1 st.2 i)).
Proof using HLT Hroom.
  destruct st as [b a]; simpl. intros [Hc Hgeo Hrd Hset Hnl] HiL Hj Hij Hii Hx HG. simpl in *.
  assert (nTotalBoxes b = nTotalBoxes b0 ∧ nLocalBoxes b = nLocalBoxes b0) as [HT HL]
    by (by rewrite Hgeo).
  assert (cells b a !! i = Some (cell b a i)) as Hci by (apply cells_lookup; lia).
  assert (cells b a !! Z.to_nat j = Some (cell b a (Z.to_nat j))) as Hcj
    by (apply cells_lookup; lia).
  eapply returns_mono.
  { apply (moveAtom_spec b a ii (Z.of_nat i) j x); rewrite ?Nat2Z.id; try done; try lia.
    eapply (redist_room G 64 _ Hroom (cells b a) i (Z.to_nat j)); try done. lia. }
  rewrite Nat2Z.id. intros [b' a'] (Hc' & Hgeo' & Hcs & Hnl'). simpl in *.
  assert (∀ k, (k < T)%nat → cells b' a' !! k = Some (cell b' a' k)) as Hk'.
  { intros k Hk. apply cells_lookup. rewrite Hgeo'. simpl. lia. }
  assert (cell b' a' i = swap_remove (Z.to_nat ii) (cell b a i)) as Hi'.
  { assert (cells b' a' !! i = Some (cell b' a' i)) as Hi' by (apply Hk'; lia).
    rewrite Hcs, list_lookup_insert_eq in Hi'; [congruence|].
    rewrite length_insert, length_cells. lia. }
  split; [|done]. split; simpl.
  - done.
  - rewrite Hgeo', Hgeo. done.
  - rewrite Hcs. apply redist_move; try done. lia.
  - intros k Hk Hor. specialize (Hk' k Hk). rewrite Hcs, list_lookup_insert_ne in Hk' by lia.
    apply list_lookup_insert_Some in Hk' as [(<- & <- & _)|[_ Hk']].
    + apply Forall_app. split; [apply Hset; lia|by apply Forall_singleton].
    + rewrite cells_lookup in Hk' by lia. injection Hk' as <-. by apply Hset.
  - rewrite Hcs, Hnl', HL. rewrite (nlive_move _ _ _ (cell b a i) (cell b a (Z.to_nat j)) _ x)
      by (done || lia).
    rewrite Z2Nat.id by lia. destruct (j >? nLocalBoxes b0); lia.
Qed.

Lemma swap_remove_take {A} i (l : list A) :
  (i < length l)%nat → take i (swap_remove i l) = take i l.
Proof using.
  intros Hi. apply list_eq. intros k. destruct (decide (k < i)%nat).
  - rewrite !lookup_take_lt, swap_remove_lookup by done.
    by rewrite decide_True, decide_False by lia.
  - by rewrite !lookup_take_ge by lia.
Qed.

Lemma take_S_r_Forall (P : atom → Prop) ii (l : list atom) x :
  l !! ii = Some x → P x → Forall P (take ii l) → Forall P (take (S ii) l).
Proof using.
  intros Hx Hp Hf. rewrite (take_S_r _ _ _ Hx). apply Forall_app. by rewrite Forall_singleton.
Qed.

(** The [while] loop on box [i] ends with every atom of the box settled. *)
Lemma update_cell_spec fuel i ii st :
  upd i st → (i < L)%nat → 0 ≤ ii →
  (length (cell st.1 st.2 i) < fuel + Z.to_nat ii)%nat →
  (Z.to_nat ii ≤ length (cell st.1 st.2 i))%nat →
  Forall (G i) (take (Z.to_nat ii) (cell st.1 st.2 i)) →
  returns (update_cell fuel (Z.of_nat i) ii st) (upd (S i)).
Proof using All.
  revert ii st. induction fuel as [|fuel IH]; intros ii [b a] Hu HiL Hii Hfuel Hle Hf;
    simpl in *; [lia|].
  pose proof Hu as [Hc Hgeo Hrd Hset Hnl]. simpl in *.
  assert (nTotalBoxes b = nTotalBoxes b0 ∧ nLocalBoxes b = nLocalBoxes b0) as [HT HL]
    by (by rewrite Hgeo).
  destruct (cells_wf_occ b a i Hc) as [Hn H64]; [lia|].
  assert (length (cell b a i) = occ b i) as Hlen by (apply length_cell; [done|lia]).
  rewrite (aload_lookup _ (Z.of_nat i) (Z.of_nat (occ b i))) by (rewrite ?Nat2Z.id; done || lia).
  csimpl. zcase.
  - destruct (lookup_lt_is_Some_2 (cell b a i) (Z.to_nat ii)) as [x Hx]; [lia|].
    pose proof Hx as Hsl. rewrite cell_lookup, decide_True in Hsl by lia.
    apply slots_lookup in Hsl as (_ & _ & Hr & _).
    destruct (slot_in_range b (Z.of_nat i) 0) as [_ Hm]; [by destruct Hc|lia|done|].
    rewrite int32_Ok by (unfold MAXATOMS, INT_MIN in *; lia). csimpl.
    rewrite (aload_lookup _ _ (a_r x)); [|unfold MAXATOMS; lia|].
    2:{ rewrite <-Hr. f_equal. unfold MAXATOMS. lia. }
    csimpl. destruct (Hdest x) as [j Hj].
    { rewrite <-(rd_perm _ _ _ Hrd). apply list_elem_of_lookup_2 in Hx.
      apply list_elem_of_concat. exists (cell b a i). split; [done|].
      eapply list_elem_of_lookup_2, cells_lookup. lia. }
    assert (getBoxFromCoord b (a_r x) = Ok (Z.of_nat j)) as Hbox by (rewrite Hgeo; exact Hj).
    pose proof (getBoxFromCoord_range _ _ _ Hbox). rewrite Hbox. csimpl.
    destruct (Z.of_nat j =? Z.of_nat i) eqn:Hji; zbool; simpl.
    + apply IH; simpl; try done; try lia. replace (Z.to_nat (ii + 1)) with (S (Z.to_nat ii)) by lia.
      apply take_S_r_Forall with x; [done| |done]. by replace i with j by lia.
    + eapply returns_bind.
      { apply (upd_move i ii (b, a) (Z.of_nat j) x); simpl; try done; try lia.
        by rewrite Nat2Z.id. }
      intros [b' a'] [Hu' Hi']. simpl in Hi'.
      pose proof (Permutation_length (swap_remove_perm _ _ _ Hx)) as Hsw. simpl in Hsw.
      apply IH; simpl; rewrite ?Hi'; try done; try lia.
      rewrite swap_remove_take by lia. done.
  - simpl. split; simpl; try done. intros k Hk Hor. destruct (decide (k = i)) as [->|].
    + by rewrite take_ge in Hf by lia.
    + apply Hset; lia.
Qed.
End update.

(** Emptying the halo, on the cells. *)
Lemma emptyHaloCells_cells b a :
  cells_wf b a →
  returns (emptyHaloCells b) (λ b',
    cells_wf b' a ∧ b' = set_nAtoms b (nAtoms b') ∧ cells b' a = local_cells b a).
Proof.
  intros Hc. pose proof Hc as [Hwf Ha Ho]. pose proof Hwf as [Gx Gy Gz Hl Hh Ht _ Hlen].
  assert (nLocalBoxes b ≤ nTotalBoxes b) as Hle by nia. assert (0 ≤ nLocalBoxes b) as H0 by nia.
  clear Gx Gy Gz Hl Hh Ht.
  eapply returns_mono; [by apply emptyHaloCells_spec|]. intros b' (Hb & Hlb & Hk).
  assert (∀ k, (k < Z.to_nat (nTotalBoxes b))%nat →
    nAtoms b' !! k = if decide (k < Z.to_nat (nLocalBoxes b))%nat then nAtoms b !! k else Some 0)
    as Hk'.
  { intros k Hlt. specialize (Hk (Z.of_nat k)). rewrite Nat2Z.id in Hk. rewrite Hk by lia.
    zcase; [rewrite decide_True by lia|rewrite decide_False by lia]; done. }
  clear Hk. split_and!.
  - rewrite Hb. split; [by apply lc_wf_counts|by apply atoms_wf_counts|]. simpl.
    intros k n Hn. assert (k < Z.to_nat (nTotalBoxes b))%nat as Hlt.
    { apply lookup_lt_Some in Hn. lia. }
    rewrite Hk' in Hn by done. case_decide; [by apply (Ho k)|]. simplify_eq. done.
  - done.
  - assert (nTotalBoxes b' = nTotalBoxes b) as HT by (by rewrite Hb).
    apply list_eq. intros k. destruct (decide (k < Z.to_nat (nTotalBoxes b))%nat) as [Hlt|].
    2:{ rewrite !lookup_ge_None_2; [done|..];
          unfold local_cells; rewrite ?length_app, ?length_replicate, ?length_take, ?length_cells; lia. }
    rewrite cells_lookup by lia. specialize (Hk' k Hlt). unfold local_cells.
    case_decide as Hd.
    + rewrite lookup_app_l, lookup_take_lt, cells_lookup
        by (rewrite ?length_take, ?length_cells; lia).
      f_equal. apply cell_ext; [|done]. unfold occ. by rewrite !list_lookup_total_alt, Hk'.
    + rewrite lookup_app_r, lookup_replicate_2 by (rewrite length_take, length_cells; lia).
      f_equal. unfold cell, occ. by rewrite list_lookup_total_alt, Hk'.
Qed.

Lemma concat_local_cells b a :
  concat (local_cells b a) = concat (take (Z.to_nat (nLocalBoxes b)) (cells b a)).
Proof.
  unfold local_cells. rewrite concat_app.
  assert (∀ n, concat (replicate n ([] : list atom)) = []) as -> by (by induction n).
  apply app_nil_r.
Qed.

(** Every local atom's position is in some box. *)
Definition has_box (b : LinkCell) (a : Atoms) : Prop :=
  ∀ x, x ∈ concat (local_cells b a) → ∃ j, goes_to b j x.

Lemma updateLinkCells_spec b a :
  cells_wf b a → has_box b a → has_room (goes_to b) 64 (local_cells b a) →
  ∃ b0, b0 = set_nAtoms b (nAtoms b0) ∧ cells b0 a = local_cells b a ∧
    returns (updateLinkCells b a) (upd b0 a (Z.to_nat (nLocalBoxes b))).
Proof.
  intros Hc Hdest Hroom. pose proof (emptyHaloCells_cells b a Hc) as He.
  unfold updateLinkCells. destruct (emptyHaloCells b) as [b0|]; [|done].
  destruct He as (Hc0 & Hgeo & Hcells). exists b0. split_and!; [done..|].
  rewrite ret_bind.
  assert (∀ j x, goes_to b j x ↔ goes_to b0 j x) as HG by (intros; by rewrite Hgeo).
  assert (nLocalBoxes b0 < nTotalBoxes b0 ∧ 0 ≤ nLocalBoxes b0) as [HLT H0].
  { destruct Hc0 as [[] _ _]. nia. }
  replace (nLocalBoxes b) with (nLocalBoxes b0) by (by rewrite Hgeo).
  assert (has_room (goes_to b0) 64 (cells b0 a)) as Hroom0.
  { rewrite Hcells, Hgeo. exact Hroom. }
  assert (∀ x, x ∈ concat (cells b0 a) → ∃ j, goes_to b0 j x) as Hdest0.
  { rewrite Hcells, Hgeo. exact Hdest. }
  apply (for_range_inv (λ i, upd b0 a (Z.to_nat i)) 0 (nLocalBoxes b0)); [lia| |].
  - split; simpl; [done|by destruct b0|apply redist_refl| |done].
    intros k Hk [?|HL]; [lia|].
    assert (local_cells b a !! k = Some (cell b0 a k)) as Hck.
    { rewrite <-Hcells. by apply cells_lookup. }
    unfold local_cells in Hck. rewrite lookup_app_r in Hck.
    + apply lookup_replicate in Hck as [-> _]. constructor.
    + rewrite length_take, length_cells. rewrite Hgeo in HL. simpl in HL. lia.
  - intros i [b1 a1] Hi Hu. pose proof Hu as [Hc1 Hg1 _ _ _]. cbn [fst snd] in *.
    assert (nTotalBoxes b1 = nTotalBoxes b0) as HT by (by rewrite Hg1).
    destruct (cells_wf_occ b1 a1 (Z.to_nat i) Hc1) as [Hn _]; [lia|].
    rewrite (aload_lookup _ i _ (proj1 Hi) Hn), ret_bind.
    replace (Z.to_nat (i + 1)) with (S (Z.to_nat i)) by lia.
    pose proof (update_cell_spec b0 a HLT Hroom0 Hdest0
      (S (Z.to_nat (Z.of_nat (occ b1 (Z.to_nat i))))) (Z.to_nat i) 0 (b1, a1)) as Hspec.
    rewrite Z2Nat.id in Hspec by lia.
    apply Hspec; try done; try lia; rewrite length_cell by (done || (simpl; lia)); simpl; lia.
Qed.

(** ** Executable checks of the hypotheses, and a concrete state *)

Lemma cells_wf_check b a :
  lc_wf b → atoms_wf b a →
  forallb (λ n, (0 <=? n) && (n <=? MAXATOMS)) (nAtoms b) = true → cells_wf b a.
Proof.
  intros ?? Hf. split; [done..|]. intros k n Hk. apply list_elem_of_lookup_2 in Hk.
  rewrite forallb_forall in Hf. specialize (Hf n ltac:(by apply list_elem_of_In)). lia.
Qed.

Lemma has_box_check b a :
  forallb (λ x, if getBoxFromCoord b (a_r x) then true else false) (concat (local_cells b a)) = true →
  has_box b a.
Proof.
  intros Hf x Hx. rewrite forallb_forall in Hf. specialize (Hf x ltac:(by apply list_elem_of_In)).
  destruct (getBoxFromCoord b (a_r x)) as [k|] eqn:Hk; [|done].
  exists (Z.to_nat k). unfold goes_to. rewrite Hk. f_equal.
  apply getBoxFromCoord_range in Hk. lia.
Qed.

Definition has_room_b (b : LinkCell) (cap : nat) (cs : list (list atom)) : bool :=
  forallb (λ jc, (destined (goes_to b) jc.1 cs + strangers (goes_to b) jc.1 jc.2 <? cap)%nat)
    (zip (seq 0 (length cs)) cs).

Lemma has_room_check b cap cs : has_room_b b cap cs = true → has_room (goes_to b) cap cs.
Proof.
  unfold has_room_b. intros Hf j c Hc. rewrite forallb_forall in Hf. specialize (Hf (j, c)). apply Nat.ltb_lt, Hf.
  apply list_elem_of_In, list_elem_of_lookup. exists j.
  rewrite lookup_zip_with, Hc, lookup_seq_lt; [done|]. by apply lookup_lt_Some in Hc.
Qed.

(** Three atoms stored in box 0: the first belongs there, the second belongs to
    box 1, the third to the first halo box. *)
Definition ex_atoms : Atoms :=
  let pad {A} (l : list A) (x : A) := l ++ replicate (4096 - length l) x in
  mkAtoms 3 3 (pad [11; 12; 13] 0) (pad [] 0)
    (pad [V3 fhalf fhalf fhalf; V3 (flit 3 2) fhalf fhalf; V3 (fopp fhalf) fhalf fhalf] zero3)
    (pad [] zero3) (pad [] zero3) (pad [] fzero).
Definition ex_cells : LinkCell := set_nAtoms ex_boxes (3 :: replicate 63 0).

Lemma ex_cells_wf : cells_wf ex_cells ex_atoms.
Proof. apply cells_wf_check; [by split|by split|done]. Qed.

(** ** Properties *)

(** C28: [updateLinkCells] always returns (no assertion fails, the loops end) when
    every local atom is at most one box outside the domain and no box has to
    hold [MAXATOMS] or more atoms on the way; no atom is lost or duplicated,
    every atom ends in the box [getBoxFromCoord] gives for its position, and the
    storage stays consistent. *)
Theorem updateLinkCells_correct b a :
  cells_wf b a → has_box b a → has_room (goes_to b) 64 (local_cells b a) →
  returns (updateLinkCells b a) (λ st,
    cells_wf st.1 st.2 ∧ st.1 = set_nAtoms b (nAtoms st.1) ∧
    concat (cells st.1 st.2) ≡ₚ concat (take (Z.to_nat (nLocalBoxes b)) (cells b a)) ∧
    ∀ k x, (k < Z.to_nat (nTotalBoxes b))%nat → x ∈ cell st.1 st.2 k →
      getBoxFromCoord b (a_r x) = Ok (Z.of_nat k)).
Proof.
  intros Hc Hdest Hroom. destruct (updateLinkCells_spec b a) as (b0 & Hg & Hcs & Hu); [done..|].
  eapply returns_mono; [exact Hu|]. intros [b' a'] [Hc' Hg' [_ Hp _] Hset _]. simpl in *.
  rewrite Hg in Hg', Hset. simpl in *. split_and!.
  - done.
  - done.
  - by rewrite Hp, Hcs, concat_local_cells.
  - intros k x Hk Hx. apply (proj1 (Forall_forall _ _) (Hset k Hk ltac:(lia)) x Hx).
Qed.

Lemma updateLinkCells_correct_witness :
  returns (updateLinkCells ex_cells ex_atoms) (λ st,
    concat (cells st.1 st.2) ≡ₚ concat (take 8 (cells ex_cells ex_atoms))).
Proof.
  eapply returns_mono; [apply (updateLinkCells_correct ex_cells ex_atoms ex_cells_wf)|].
  - apply has_box_check. vm_compute. reflexivity.
  - apply has_room_check. vm_compute. reflexivity.
  - intros st (_ & _ & Hp & _). exact Hp.
Defined.

(** [atoms->nLocal] after [updateLinkCells]. The atoms that left for halo
    boxes are subtracted, except those in the first halo box, number
    [nLocalBoxes], because [moveAtom] tests [jBox > nLocalBoxes]: [nLocal] is
    the number of atoms in the local boxes plus those in that halo box. *)
Theorem updateLinkCells_nLocal b a :
  cells_wf b a → has_box b a → has_room (goes_to b) 64 (local_cells b a) →
  nLocal a = Z.of_nat (length (concat (take (Z.to_nat (nLocalBoxes b)) (cells b a)))) →
  returns (updateLinkCells b a) (λ st,
    nLocal st.2 =
      Z.of_nat (length (concat (take (Z.to_nat (nLocalBoxes b)) (cells st.1 st.2)))) +
      Z.of_nat (length (cell st.1 st.2 (Z.to_nat (nLocalBoxes b))))).
Proof.
  intros Hc Hdest Hroom Hn. destruct (updateLinkCells_spec b a) as (b0 & Hg & Hcs & Hu); [done..|].
  eapply returns_mono; [exact Hu|]. intros [b' a'] [Hc' Hg' _ _ Hnl]. simpl in *.
  rewrite Hg in Hg', Hnl. simpl in *. rewrite Hg in Hcs.
  assert (nLocalBoxes b < nTotalBoxes b ∧ 0 ≤ nLocalBoxes b) as [HLT H0].
  { destruct Hc as [[] _ _]. nia. }
  assert (nTotalBoxes b' = nTotalBoxes b) as HT by (by rewrite Hg').
  rewrite Hcs in Hnl.
  rewrite (take_S_r _ _ (cell b' a' (Z.to_nat (nLocalBoxes b)))) in Hnl by (apply cells_lookup; lia).
  rewrite concat_app, length_app in Hnl. simpl in Hnl. rewrite app_nil_r in Hnl.
  assert (length (concat (take (S (Z.to_nat (nLocalBoxes b))) (local_cells b a))) =
          length (concat (take (Z.to_nat (nLocalBoxes b)) (cells b a)))) as He; [|lia].
  rewrite (take_S_r _ _ []).
  - unfold local_cells. rewrite take_app_length' by (rewrite length_take, length_cells; lia).
    by rewrite concat_app, app_nil_r.
  - unfold local_cells. rewrite lookup_app_r by (rewrite length_take, length_cells; lia).
    apply lookup_replicate_2. rewrite length_take, length_cells. lia.
Qed.

(** Two of the three atoms stay local, but [nLocal] remains 3. *)
Lemma updateLinkCells_nLocal_witness :
  returns (updateLinkCells ex_cells ex_atoms) (λ st,
    nLocal st.2 = 3 ∧ length (concat (take 8 (cells st.1 st.2))) = 2%nat).
Proof.
  assert (returns (updateLinkCells ex_cells ex_atoms) (λ st,
    length (concat (take 8 (cells st.1 st.2))) = 2%nat ∧
    length (cell st.1 st.2 8) = 1%nat)) as Hlen by (vm_compute; done).
  pose proof (updateLinkCells_nLocal ex_cells ex_atoms ex_cells_wf) as Hn.
  specialize (Hn ltac:(apply has_box_check; vm_compute; reflexivity)
    ltac:(apply has_room_check; vm_compute; reflexivity) ltac:(vm_compute; reflexivity)).
  destruct (updateLinkCells ex_cells ex_atoms) as [st|]; [|done].
  cbn [returns] in *. destruct Hlen as [H2 H1].
  change (Z.to_nat (nLocalBoxes ex_cells)) with 8%nat in Hn. rewrite H2, H1 in Hn.
  split; [exact Hn|exact H2].
Defined.
