(* ===== verification/CoMDTypes.v ===== *)
(** * CoMDTypes: the simulation state shared by CoMD's components (CoMDTypes.h)

    [SimFlat] is the structure every time-stepping function receives. Its
    pointers to the potential and to the halo exchange are passed as separate
    arguments where they are used; they do not change after initialisation. *)

From Stdlib Require Import ZArith String.
From stdpp Require Import base list numbers.
From S2P Require Import Prelude Float64 Parallel Decomposition LinkCells Atoms.

Record SpeciesData := mkSpecies {
  sp_name : string;
  sp_atomicNo : Z;
  sp_mass : real_t;
}.

(** The fields every potential starts with ([BasePotential]). *)
Record BasePotential := mkBase {
  cutoff : real_t;
  mass : real_t;
  lat : real_t;
  latticeType : string;
  pot_name : string;
  atomicNo : Z;
}.

Record LjPotential := mkLj {
  lj_base : BasePotential;
  sigma : real_t;
  epsilon : real_t;
}.

(** A table of [n] values: [values] points one past the start of an allocation
    of [n + 3] values, so the valid indices are [-1 .. n + 1]; [tvalues] is the
    whole allocation. *)
Record InterpolationObject := mkTable {
  tn : Z;
  tx0 : real_t;
  invDx : real_t;
  tvalues : list real_t;
}.

Record SimFlat := mkSim {
  nSteps : Z;
  printRate : Z;
  dt : real_t;
  doeam : Z;
  preserveRateLevel1 : Z;
  preserveRateLevel2 : Z;
  preserveRateLevel3 : Z;
  preserveRateLevel4 : Z;
  domain : Domain;
  boxes : LinkCell;
  atoms : Atoms;
  species : list SpeciesData;
  ePotential : real_t;
  eKinetic : real_t;
}.

Definition set_atoms (s : SimFlat) (a : Atoms) : SimFlat :=
  mkSim (nSteps s) (printRate s) (dt s) (doeam s) (preserveRateLevel1 s) (preserveRateLevel2 s)
    (preserveRateLevel3 s) (preserveRateLevel4 s) (domain s) (boxes s) a
    (species s) (ePotential s) (eKinetic s).
Definition set_boxes (s : SimFlat) (b : LinkCell) : SimFlat :=
  mkSim (nSteps s) (printRate s) (dt s) (doeam s) (preserveRateLevel1 s) (preserveRateLevel2 s)
    (preserveRateLevel3 s) (preserveRateLevel4 s) (domain s) b (atoms s)
    (species s) (ePotential s) (eKinetic s).
Definition set_cells (s : SimFlat) (ba : LinkCell * Atoms) : SimFlat :=
  set_atoms (set_boxes s ba.1) ba.2.
Definition set_energies (s : SimFlat) (ep ek : real_t) : SimFlat :=
  mkSim (nSteps s) (printRate s) (dt s) (doeam s) (preserveRateLevel1 s) (preserveRateLevel2 s)
    (preserveRateLevel3 s) (preserveRateLevel4 s) (domain s) (boxes s) (atoms s)
    (species s) ep ek.
Definition set_ePotential (s : SimFlat) (ep : real_t) : SimFlat :=
  set_energies s ep (eKinetic s).

(** The arrays of [Atoms] written one at a time. *)
Definition set_r (a : Atoms) (x : list real3) : Atoms :=
  mkAtoms (nLocal a) (nGlobal a) (gid a) (iSpecies a) x (ap a) (af a) (aU a).
Definition set_p (a : Atoms) (x : list real3) : Atoms :=
  mkAtoms (nLocal a) (nGlobal a) (gid a) (iSpecies a) (ar a) x (af a) (aU a).
Definition set_f (a : Atoms) (x : list real3) : Atoms :=
  mkAtoms (nLocal a) (nGlobal a) (gid a) (iSpecies a) (ar a) (ap a) x (aU a).
Definition set_U (a : Atoms) (x : list real_t) : Atoms :=
  mkAtoms (nLocal a) (nGlobal a) (gid a) (iSpecies a) (ar a) (ap a) (af a) x.

(** A species of unit mass, for concrete states. *)
Definition unit_species : SpeciesData := mkSpecies "Cu" 29 fone.
