(* ===== verification/HaloExchange.v ===== *)
(** * HaloExchange: exchange of halo data between ranks (haloExchange.c)

    The base class [HaloExchange] with its two sub-classes, the exchange of
    atoms (after the atoms have moved) and the exchange of the derivative of
    the embedding energy (within the EAM force). Buffers are lists of messages
    whose size in bytes is checked against the allocation of [bufCapacity]
    bytes; communication goes through the [Parallel] interface. *)

From Stdlib Require Import ZArith Lia.
From stdpp Require Import base list numbers sets sorting.
From S2P Require Import Prelude Float64 Parallel Decomposition LinkCells Atoms CoMDTypes.

#[local] Arguments Nat.mul : simpl never.

(** [enum HaloFaceOrder]. *)
Definition HALO_X_MINUS : Z := 0.
Definition HALO_X_PLUS : Z := 1.
Definition HALO_Y_MINUS : Z := 2.
Definition HALO_Y_PLUS : Z := 3.
Definition HALO_Z_MINUS : Z := 4.
Definition HALO_Z_PLUS : Z := 5.

(** Data of one atom in a buffer. *)
Record AtomMsg := mkAtomMsg { m_gid : Z; m_type : Z; m_r : real3; m_p : real3 }.

#[export] Instance AtomMsg_eq_dec : EqDecision AtomMsg.
Proof. unfold EqDecision, Decision. decide equality; apply decide_rel; apply _. Defined.

Definition sizeof_AtomMsg : Z := 56.
Definition sizeof_ForceMsg : Z := 8.

(** A send buffer of [cap] bytes being filled with messages of [size] bytes. *)
Definition push {M} (size cap : Z) (buf : list M) (m : M) : res (list M) :=
  if (Z.of_nat (length buf) + 1) * size <=? cap then Ok (buf ++ [m]) else Err OutOfBounds.

(** The base class: the virtual functions close over the sub-class [parms].
    The load function writes into a buffer of [bufCapacity] bytes. *)
Record HaloExchange (Data Msg : Type) := mkHalo {
  nbrRank : list Z;
  bufCapacity : Z;
  msgSize : Z;
  loadBuffer : Data → Z → res (list Msg);
  unloadBuffer : Data → Z → list Msg → res Data;
}.
Arguments mkHalo {_ _} _ _ _ _ _.
Arguments nbrRank {_ _} _.
Arguments bufCapacity {_ _} _.
Arguments msgSize {_ _} _.
Arguments loadBuffer {_ _} _ _ _.
Arguments unloadBuffer {_ _} _ _ _ _.

(** [initHaloExchange]: the ranks of the six neighbours. *)
Definition initHaloExchange (d : Domain) : res (list Z) :=
  xm ← processorNum d (-1) 0 0;
  xp ← processorNum d 1 0 0;
  ym ← processorNum d 0 (-1) 0;
  yp ← processorNum d 0 1 0;
  zm ← processorNum d 0 0 (-1);
  zp ← processorNum d 0 0 1;
  Ok [xm; xp; ym; yp; zm; zp].

(** ** Lists of cells *)

(** [list[count++] = ...] into [nCells] entries, then [assert(count == nCells)]. *)
Definition check_list (l : list Z) (nCells : Z) : res (list Z) :=
  _ ← (if Z.of_nat (length l) <=? nCells then Ok () else Err OutOfBounds);
  _ ← cassert (Z.of_nat (length l) =? nCells);
  Ok l.

Definition mkAtomCellList (boxes : LinkCell) (iFace nCells : Z) : res (list Z) :=
  let xBegin := -1 in
  let xEnd := v0 (gridSize boxes) + 1 in
  let yBegin := -1 in
  let yEnd := v1 (gridSize boxes) + 1 in
  let zBegin := -1 in
  let zEnd := v2 (gridSize boxes) + 1 in
  let xEnd := if iFace =? HALO_X_MINUS then xBegin + 2 else xEnd in
  let xBegin := if iFace =? HALO_X_PLUS then xEnd - 2 else xBegin in
  let yEnd := if iFace =? HALO_Y_MINUS then yBegin + 2 else yEnd in
  let yBegin := if iFace =? HALO_Y_PLUS then yEnd - 2 else yBegin in
  let zEnd := if iFace =? HALO_Z_MINUS then zBegin + 2 else zEnd in
  let zBegin := if iFace =? HALO_Z_PLUS then zEnd - 2 else zBegin in
  l ← boxes_in boxes (tuples_in xBegin xEnd yBegin yEnd zBegin zEnd);
  check_list l nCells.

Definition mkForceSendCellList (boxes : LinkCell) (face nCells : Z) : res (list Z) :=
  let nx := v0 (gridSize boxes) in
  let ny := v1 (gridSize boxes) in
  let nz := v2 (gridSize boxes) in
  ts ← (if face =? HALO_X_MINUS then Ok (tuples_in 0 1 0 ny 0 nz)
        else if face =? HALO_X_PLUS then Ok (tuples_in (nx - 1) nx 0 ny 0 nz)
        else if face =? HALO_Y_MINUS then Ok (tuples_in (-1) (nx + 1) 0 1 0 nz)
        else if face =? HALO_Y_PLUS then Ok (tuples_in (-1) (nx + 1) (ny - 1) ny 0 nz)
        else if face =? HALO_Z_MINUS then Ok (tuples_in (-1) (nx + 1) (-1) (ny + 1) 0 1)
        else if face =? HALO_Z_PLUS then Ok (tuples_in (-1) (nx + 1) (-1) (ny + 1) (nz - 1) nz)
        else Err AssertFail);
  l ← boxes_in boxes ts;
  check_list l nCells.

Definition mkForceRecvCellList (boxes : LinkCell) (face nCells : Z) : res (list Z) :=
  let nx := v0 (gridSize boxes) in
  let ny := v1 (gridSize boxes) in
  let nz := v2 (gridSize boxes) in
  ts ← (if face =? HALO_X_MINUS then Ok (tuples_in (-1) 0 0 ny 0 nz)
        else if face =? HALO_X_PLUS then Ok (tuples_in nx (nx + 1) 0 ny 0 nz)
        else if face =? HALO_Y_MINUS then Ok (tuples_in (-1) (nx + 1) (-1) 0 0 nz)
        else if face =? HALO_Y_PLUS then Ok (tuples_in (-1) (nx + 1) ny (ny + 1) 0 nz)
        else if face =? HALO_Z_MINUS then Ok (tuples_in (-1) (nx + 1) (-1) (ny + 1) (-1) 0)
        else if face =? HALO_Z_PLUS then Ok (tuples_in (-1) (nx + 1) (-1) (ny + 1) nz (nz + 1))
        else Err AssertFail);
  l ← boxes_in boxes ts;
  check_list l nCells.

(** ** The exchange of atoms *)

Record AtomExchangeParms := mkAtomParms {
  nCells : list Z;
  cellList : list (list Z);
  pbcFactor : list real3;
}.

(** [loadAtomsBuffer] into a buffer of [cap] bytes. *)
Definition loadAtomsBuffer (parms : AtomExchangeParms) (cap : Z) (s : SimFlat) (face : Z)
    : res (list AtomMsg) :=
  pbc ← aload (pbcFactor parms) face;
  let shift := vmap2 fmul pbc (globalExtent (domain s)) in
  n ← aload (nCells parms) face;
  cells ← aload (cellList parms) face;
  for_range 0 n (λ iCell buf,
    iBox ← aload cells iCell;
    iOff ← int32 (iBox * MAXATOMS);
    na ← aload (nAtoms (boxes s)) iBox;
    for_range iOff (iOff + na) (λ ii buf,
      g ← aload (gid (atoms s)) ii;
      t ← aload (iSpecies (atoms s)) ii;
      r ← aload (ar (atoms s)) ii;
      p ← aload (ap (atoms s)) ii;
      push sizeof_AtomMsg cap buf (mkAtomMsg g t (vmap2 fadd r shift) p)) buf) [].

(** [unloadAtomsBuffer]: a buffer of whole messages. *)
Definition unloadAtomsBuffer (s : SimFlat) (face : Z) (buf : list AtomMsg) : res SimFlat :=
  foldM (λ m s,
    ba ← putAtomInBox (boxes s) (atoms s) (m_gid m) (m_type m) (m_r m) (m_p m);
    Ok (set_cells s ba)) buf s.

(** [bufCapacity] is an [int]: the product, a [size_t], is converted. *)
Definition wrap32 (z : Z) : Z := (z + 2 ^ 31) mod 2 ^ 32 - 2 ^ 31.

Definition zmax (a b : Z) : Z := if a >? b then a else b.

(** The value of [maxSize] at the end: the first of the two assignments is
    overwritten by the second. *)
Definition atomMaxSize (b : LinkCell) : Z :=
  let size0 := (v1 (gridSize b) + 2) * (v2 (gridSize b) + 2) in
  let size1 := (v0 (gridSize b) + 2) * (v2 (gridSize b) + 2) in
  let size2 := (v0 (gridSize b) + 2) * (v1 (gridSize b) + 2) in
  let maxSize := zmax size0 size1 in
  let maxSize := zmax size1 size2 in
  maxSize.

Definition atomExchangeCells (b : LinkCell) : list Z :=
  let nx := 2 * (v1 (gridSize b) + 2) * (v2 (gridSize b) + 2) in
  let ny := 2 * (v0 (gridSize b) + 2) * (v2 (gridSize b) + 2) in
  let nz := 2 * (v0 (gridSize b) + 2) * (v1 (gridSize b) + 2) in
  [nx; nx; ny; ny; nz; nz].

(** The periodic shift of each face. *)
Definition mkPbcFactor (d : Domain) : list real3 :=
  let c := procCoord d in
  let g := procGrid d in
  let at_min (k : Z) := if k =? 0 then fone else fzero in
  let at_max (k n : Z) := if k =? n - 1 then fopp fone else fzero in
  [V3 (at_min (v0 c)) fzero fzero; V3 (at_max (v0 c) (v0 g)) fzero fzero;
   V3 fzero (at_min (v1 c)) fzero; V3 fzero (at_max (v1 c) (v1 g)) fzero;
   V3 fzero fzero (at_min (v2 c)); V3 fzero fzero (at_max (v2 c) (v2 g))].

(** [for (ii < 6) list[ii] = mk(ii)]. *)
Definition mk_lists (mk : Z → res (list Z)) : res (list (list Z)) :=
  for_range 0 6 (λ ii acc, l ← mk ii; Ok (acc ++ [l])) [].

Definition initAtomHaloExchange (d : Domain) (b : LinkCell)
    : res (HaloExchange SimFlat AtomMsg) :=
  ranks ← initHaloExchange d;
  c ← int32 (atomMaxSize b * 2 * MAXATOMS);
  let cap := wrap32 (c * sizeof_AtomMsg) in
  let ns := atomExchangeCells b in
  lists ← mk_lists (λ ii, n ← aload ns ii; mkAtomCellList b ii n);
  let parms := mkAtomParms ns lists (mkPbcFactor d) in
  Ok (mkHalo ranks cap sizeof_AtomMsg (loadAtomsBuffer parms cap) unloadAtomsBuffer).

(** ** The exchange of force data *)

Record ForceExchangeParms := mkForceParms {
  f_nCells : list Z;
  sendCells : list (list Z);
  recvCells : list (list Z);
}.

(** [ForceExchangeData]: the derivative of the embedding energy per slot. *)
Record ForceExchangeData := mkForceData {
  dfEmbed : list real_t;
  fd_boxes : LinkCell;
}.

Definition loadForceBuffer (parms : ForceExchangeParms) (cap : Z) (data : ForceExchangeData)
    (face : Z) : res (list real_t) :=
  n ← aload (f_nCells parms) face;
  cells ← aload (sendCells parms) face;
  for_range 0 n (λ iCell buf,
    iBox ← aload cells iCell;
    iOff ← int32 (iBox * MAXATOMS);
    na ← aload (nAtoms (fd_boxes data)) iBox;
    for_range iOff (iOff + na) (λ ii buf,
      x ← aload (dfEmbed data) ii;
      push sizeof_ForceMsg cap buf x) buf) [].

(** The state of the loop is the array and [iBuf]; the final assertion
    compares [iBuf] with the number of messages received. *)
Definition unloadForceBuffer (parms : ForceExchangeParms) (data : ForceExchangeData)
    (face : Z) (buf : list real_t) : res ForceExchangeData :=
  n ← aload (f_nCells parms) face;
  cells ← aload (recvCells parms) face;
  st ← for_range 0 n (λ iCell st,
    iBox ← aload cells iCell;
    iOff ← int32 (iBox * MAXATOMS);
    na ← aload (nAtoms (fd_boxes data)) iBox;
    for_range iOff (iOff + na) (λ ii st,
      x ← aload buf st.2;
      d ← astore st.1 ii x;
      Ok (d, st.2 + 1)) st) (dfEmbed data, 0);
  _ ← cassert (st.2 =? Z.of_nat (length buf));
  Ok (mkForceData st.1 (fd_boxes data)).

Definition forceMaxSize (b : LinkCell) : Z :=
  let size0 := v1 (gridSize b) * v2 (gridSize b) in
  let size1 := (v0 (gridSize b) + 2) * v2 (gridSize b) in
  let size2 := (v0 (gridSize b) + 2) * (v1 (gridSize b) + 2) in
  let maxSize := zmax size0 size1 in
  let maxSize := zmax size1 size2 in
  maxSize.

Definition forceExchangeCells (b : LinkCell) : list Z :=
  let nx := v1 (gridSize b) * v2 (gridSize b) in
  let ny := (v0 (gridSize b) + 2) * v2 (gridSize b) in
  let nz := (v0 (gridSize b) + 2) * (v1 (gridSize b) + 2) in
  [nx; nx; ny; ny; nz; nz].

Definition initForceHaloExchange (d : Domain) (b : LinkCell)
    : res (HaloExchange ForceExchangeData real_t) :=
  ranks ← initHaloExchange d;
  c ← int32 (forceMaxSize b * MAXATOMS);
  let cap := wrap32 (c * sizeof_ForceMsg) in
  let ns := forceExchangeCells b in
  send ← mk_lists (λ ii, n ← aload ns ii; mkForceSendCellList b ii n);
  recv ← mk_lists (λ ii, n ← aload ns ii; mkForceRecvCellList b ii n);
  let parms := mkForceParms ns send recv in
  Ok (mkHalo ranks cap sizeof_ForceMsg (loadForceBuffer parms cap) (unloadForceBuffer parms)).

(** ** The exchange *)

Section exchange.
Context `{Par : Parallel} {Data Msg : Type}.

(** [exchangeData]: both buffers are loaded before either is unloaded. *)
Definition exchangeData (h : HaloExchange Data Msg) (data : Data) (iAxis : Z) : res Data :=
  let faceM := 2 * iAxis in
  let faceP := faceM + 1 in
  sendBufM ← loadBuffer h data faceM;
  sendBufP ← loadBuffer h data faceP;
  nbrRankM ← aload (nbrRank h) faceM;
  nbrRankP ← aload (nbrRank h) faceP;
  cap ← cdiv (bufCapacity h) (msgSize h);
  recvBufP ← sendReceiveParallel sendBufM nbrRankM cap nbrRankP;
  recvBufM ← sendReceiveParallel sendBufP nbrRankP cap nbrRankM;
  data ← unloadBuffer h data faceM recvBufM;
  unloadBuffer h data faceP recvBufP.

Definition haloExchange (h : HaloExchange Data Msg) (data : Data) : res Data :=
  for_range 0 3 (λ iAxis data, exchangeData h data iAxis) data.
End exchange.

(** ** Sorting a cell *)

Definition gid_le (a b : AtomMsg) : Prop := m_gid a ≤ m_gid b.
#[export] Instance gid_le_dec a b : Decision (gid_le a b).
Proof. unfold gid_le. apply _. Defined.
#[export] Instance gid_le_total : Total gid_le.
Proof. intros a b. unfold gid_le. lia. Qed.
#[export] Instance gid_le_trans : Transitive gid_le.
Proof. intros a b c. unfold gid_le. lia. Qed.

(** [qsort] with [sortAtomsById]: the comparison asserts that the identifiers
    differ, and sorting has to compare every two neighbours of the result. *)
Definition sortById (tmp : list AtomMsg) : res (list AtomMsg) :=
  _ ← cassert (bool_decide (NoDup (m_gid <$> tmp)));
  Ok (merge_sort gid_le tmp).

Definition sortAtomsInCell (a : Atoms) (b : LinkCell) (iBox : Z) : res Atoms :=
  n ← aload (nAtoms b) iBox;
  begin ← int32 (iBox * MAXATOMS);
  let end_ := begin + n in
  tmp ← for_range begin end_ (λ ii tmp,
    g ← aload (gid a) ii;
    t ← aload (iSpecies a) ii;
    r ← aload (ar a) ii;
    p ← aload (ap a) ii;
    Ok (tmp ++ [mkAtomMsg g t r p])) [];
  tmp ← sortById tmp;
  for_range begin end_ (λ ii a,
    m ← aload tmp (ii - begin);
    g' ← astore (gid a) ii (m_gid m);
    t' ← astore (iSpecies a) ii (m_type m);
    r' ← astore (ar a) ii (m_r m);
    p' ← astore (ap a) ii (m_p m);
    Ok (mkAtoms (nLocal a) (nGlobal a) g' t' r' p' (af a) (aU a))) a.

(** ** The lists of cells *)

(** The coordinate on the axis of a face, and its number of boxes. *)
Definition axis_of (face : Z) (t : vec3 Z) : Z :=
  if face <? 2 then v0 t else if face <? 4 then v1 t else v2 t.

(** The two planes of boxes next to a face, halo included. *)
Definition two_planes (b : LinkCell) (face : Z) (t : vec3 Z) : Prop :=
  if Z.even face then axis_of face t ≤ 0 else axis_of face (gridSize b) - 1 ≤ axis_of face t.

Ltac face_cases face H :=
  let F := fresh in
  assert (face = 0 ∨ face = 1 ∨ face = 2 ∨ face = 3 ∨ face = 4 ∨ face = 5)
    as F by lia;
  destruct F as [->|[->|[->|[->|[->| ->]]]]]; clear H.

Lemma check_list_Ok l n : Z.of_nat (length l) = n → check_list l n = Ok l.
Proof.
  intros <-. unfold check_list. rewrite Z.leb_refl. csimpl. by rewrite Z.eqb_refl.
Qed.

Lemma mem_boxes b (ts : list (vec3 Z)) k t :
  lc_wf b → (∀ t, t ∈ ts → valid_tuple b t) → 0 ≤ k < nTotalBoxes b → getTuple b k = Ok t →
  k ∈ box_index b <$> ts ↔ t ∈ ts.
Proof.
  intros Hwf Hts Hk Ht. destruct (getTuple_total b Hwf k Hk) as (t' & Ht' & Hv & <-).
  rewrite Ht' in Ht. injection Ht as ->. rewrite list_elem_of_fmap. split.
  - intros (t' & He & Hin). apply box_index_inj in He as ->; auto.
  - intros. by exists t.
Qed.

Lemma mkAtomCellList_spec b face :
  lc_wf b → 0 ≤ face < 6 →
  ∃ ts, mkAtomCellList b face (atomExchangeCells b !!! Z.to_nat face) = Ok (box_index b <$> ts) ∧
    NoDup ts ∧ (∀ t, t ∈ ts ↔ valid_tuple b t ∧ two_planes b face t).
Proof.
  intros Hwf Hf. pose proof Hwf as [Gx Gy Gz _ _ _ _ _].
  face_cases face Hf; cbv [mkAtomCellList HALO_X_MINUS HALO_X_PLUS HALO_Y_MINUS
    HALO_Y_PLUS HALO_Z_MINUS HALO_Z_PLUS Z.eqb Pos.eqb];
    (match goal with |- context [tuples_in ?x0 ?x1 ?y0 ?y1 ?z0 ?z1] =>
       exists (tuples_in x0 x1 y0 y1 z0 z1) end);
    (split_and!; [|apply NoDup_tuples_in|
       intros t; rewrite elem_of_tuples_in; unfold valid_tuple, two_planes, axis_of; simpl; lia]);
    (rewrite boxes_in_eq;
      [|done|intros t; rewrite elem_of_tuples_in; unfold valid_tuple; lia]);
    (csimpl; apply check_list_Ok; rewrite length_fmap, length_tuples_in;
     unfold atomExchangeCells; simpl; lia).
Qed.

Definition vadd (t d : vec3 Z) : vec3 Z := V3 (v0 t + v0 d) (v1 t + v1 d) (v2 t + v2 d).

(** Moving by a whole domain across a face: the coordinates, on the neighbour
    across [face], of a box of this rank. *)
Definition offset (b : LinkCell) (face : Z) : vec3 Z :=
  let s := if Z.even face then 1 else -1 in
  if face <? 2 then V3 (s * v0 (gridSize b)) 0 0
  else if face <? 4 then V3 0 (s * v1 (gridSize b)) 0
  else V3 0 0 (s * v2 (gridSize b)).
Definition across (b : LinkCell) (face : Z) (t : vec3 Z) : vec3 Z := vadd t (offset b face).

(** The face of the neighbour that faces [face]. *)
Definition opposite (face : Z) : Z := if Z.even face then face + 1 else face - 1.

Lemma tuples_in_shift x0 x1 y0 y1 z0 z1 d :
  tuples_in (x0 + v0 d) (x1 + v0 d) (y0 + v1 d) (y1 + v1 d) (z0 + v2 d) (z1 + v2 d) =
  (λ t, vadd t d) <$> tuples_in x0 x1 y0 y1 z0 z1.
Proof.
  assert (∀ lo hi k, seqZ (lo + k) (hi + k - (lo + k)) = (λ x, x + k) <$> seqZ lo (hi - lo)) as Hs.
  { intros lo hi k. replace (hi + k - (lo + k)) with (hi - lo) by lia.
    rewrite (Z.add_comm lo k), <-fmap_add_seqZ. apply list_fmap_ext. intros; simpl; lia. }
  unfold tuples_in. rewrite !Hs, fmap_list_bind, list_fmap_bind.
  apply list_bind_ext; [|done]. intros x. unfold compose. rewrite fmap_list_bind, list_fmap_bind.
  apply list_bind_ext; [|done]. intros y. unfold compose. rewrite fmap_list_bind, list_fmap_bind.
  done.
Qed.

Lemma tuples_in_across x0 x1 y0 y1 z0 z1 d X0 X1 Y0 Y1 Z0 Z1 :
  X0 = x0 + v0 d → X1 = x1 + v0 d → Y0 = y0 + v1 d → Y1 = y1 + v1 d →
  Z0 = z0 + v2 d → Z1 = z1 + v2 d →
  tuples_in X0 X1 Y0 Y1 Z0 Z1 = (λ t, vadd t d) <$> tuples_in x0 x1 y0 y1 z0 z1.
Proof. intros -> -> -> -> -> ->. apply tuples_in_shift. Qed.

Lemma force_lists_spec b face :
  lc_wf b → 0 ≤ face < 6 →
  let n := forceExchangeCells b !!! Z.to_nat face in
  ∃ ts, mkForceSendCellList b face n = Ok (box_index b <$> ts) ∧
    mkForceRecvCellList b (opposite face) n = Ok (box_index b <$> (across b face <$> ts)) ∧
    NoDup ts ∧ Z.of_nat (length ts) = n ∧
    (∀ t, t ∈ ts → valid_tuple b t ∧ valid_tuple b (across b face t)).
Proof.
  intros Hwf Hf n. pose proof Hwf as [Gx Gy Gz _ _ _ _ _].
  set (ts := match Z.to_nat face with
    | 0%nat => tuples_in 0 1 0 (v1 (gridSize b)) 0 (v2 (gridSize b))
    | 1%nat => tuples_in (v0 (gridSize b) - 1) (v0 (gridSize b)) 0 (v1 (gridSize b)) 0 (v2 (gridSize b))
    | 2%nat => tuples_in (-1) (v0 (gridSize b) + 1) 0 1 0 (v2 (gridSize b))
    | 3%nat => tuples_in (-1) (v0 (gridSize b) + 1) (v1 (gridSize b) - 1) (v1 (gridSize b)) 0 (v2 (gridSize b))
    | 4%nat => tuples_in (-1) (v0 (gridSize b) + 1) (-1) (v1 (gridSize b) + 1) 0 1
    | _ => tuples_in (-1) (v0 (gridSize b) + 1) (-1) (v1 (gridSize b) + 1) (v2 (gridSize b) - 1) (v2 (gridSize b))
    end).
  assert (∀ t, t ∈ ts → valid_tuple b t ∧ valid_tuple b (across b face t)) as Hv.
  { subst ts n. intros t. face_cases face Hf; simpl; rewrite elem_of_tuples_in;
      unfold valid_tuple, across, vadd, offset; simpl; lia. }
  assert (Z.of_nat (length ts) = n) as Hlen.
  { subst ts n. face_cases face Hf; simpl; rewrite length_tuples_in; unfold forceExchangeCells;
      simpl; lia. }
  exists ts. split_and!; try done.
  - unfold mkForceSendCellList.
    match goal with |- ?m ≫= _ = _ => assert (m = Ok ts) as -> by (subst ts n; by face_cases face Hf) end.
    csimpl. rewrite boxes_in_eq; [|done|intros t Ht; apply (Hv t Ht)]. csimpl.
    apply check_list_Ok. by rewrite length_fmap.
  - unfold mkForceRecvCellList.
    match goal with |- ?m ≫= _ = _ => assert (m = Ok (across b face <$> ts)) as -> end.
    { subst ts n. unfold across. face_cases face Hf; simpl; apply (f_equal Ok);
        simple apply tuples_in_across; unfold offset; simpl; lia. }
    csimpl. rewrite boxes_in_eq.
    + csimpl. apply check_list_Ok. by rewrite !length_fmap.
    + done.
    + intros t (t' & -> & Ht)%list_elem_of_fmap. apply (Hv t' Ht).
  - subst ts n. face_cases face Hf; apply NoDup_tuples_in.
Qed.

(** ** Loading a buffer *)

Definition capped {M} (size cap : Z) (l : list M) : res (list M) :=
  if Z.of_nat (length l) * size <=? cap then Ok l else Err OutOfBounds.

Lemma push_capped {M} size cap (buf : list M) m :
  push size cap buf m = capped size cap (buf ++ [m]).
Proof.
  unfold push, capped. rewrite length_app. simpl. by rewrite Nat2Z.inj_add.
Qed.

(** A loop whose iterations append to the buffer either fills it with
    everything or overruns it. *)
Lemma foldM_capped {A M} size cap (F : A → list M → res (list M)) (h : A → list M) l buf :
  0 < size →
  (∀ x buf, x ∈ l → Z.of_nat (length buf) * size ≤ cap →
     F x buf = capped size cap (buf ++ h x)) →
  Z.of_nat (length buf) * size ≤ cap →
  foldM F l buf = capped size cap (buf ++ (l ≫= h)).
Proof.
  intros Hs. revert buf. induction l as [|x l IH]; intros buf HF Hb; csimpl.
  - rewrite app_nil_r. unfold capped. by rewrite (proj2 (Z.leb_le _ _) Hb).
  - rewrite HF by set_solver. unfold capped at 1. zcase; csimpl.
    + rewrite IH; [by rewrite <-app_assoc|set_solver|done].
    + unfold capped. rewrite (proj2 (Z.leb_gt _ _)); [done|].
      rewrite !length_app in *. nia.
Qed.

Lemma foldM_push {A M} size cap (F : A → list M → res (list M)) (h : A → M) (l : list A) buf :
  0 < size → (∀ x buf, x ∈ l → F x buf = push size cap buf (h x)) →
  Z.of_nat (length buf) * size ≤ cap →
  foldM F l buf = capped size cap (buf ++ (h <$> l)).
Proof.
  intros Hs HF Hb. rewrite (foldM_capped size cap _ (λ x, [h x])); [|done| |done].
  - by rewrite list_bind_singleton.
  - intros x buf' Hx _. rewrite HF by done. apply push_capped.
Qed.

(** The message [loadAtomsBuffer] makes of an atom. *)
Definition msg_of (shift : real3) (x : atom) : AtomMsg :=
  mkAtomMsg (a_gid x) (a_species x) (vmap2 fadd (a_r x) shift) (a_p x).

Definition face_shift (parms : AtomExchangeParms) (s : SimFlat) (face : Z) : real3 :=
  vmap2 fmul (pbcFactor parms !!! Z.to_nat face) (globalExtent (domain s)).

(** What is to be sent across a face: the atoms of the listed cells. *)
Definition to_send (parms : AtomExchangeParms) (s : SimFlat) (face : Z) : list AtomMsg :=
  (cellList parms !!! Z.to_nat face) ≫= λ k,
    msg_of (face_shift parms s face) <$> cell (boxes s) (atoms s) (Z.to_nat k).

(** The lists of cells are for the link cells of the simulation. *)
Definition parms_ok (parms : AtomExchangeParms) (b : LinkCell) : Prop :=
  ∀ face, 0 ≤ face < 6 →
    is_Some (pbcFactor parms !! Z.to_nat face) ∧
    ∃ l, cellList parms !! Z.to_nat face = Some l ∧
         nCells parms !! Z.to_nat face = Some (Z.of_nat (length l)) ∧
         ∀ k, k ∈ l → 0 ≤ k < nTotalBoxes b.

Lemma cell_bounds b a k :
  cells_wf b a → 0 ≤ k < nTotalBoxes b →
  int32 (k * MAXATOMS) = Ok (k * MAXATOMS) ∧
  aload (nAtoms b) k = Ok (Z.of_nat (occ b (Z.to_nat k))) ∧
  (occ b (Z.to_nat k) ≤ 64)%nat.
Proof.
  intros Hc Hk. destruct (cells_wf_occ b a (Z.to_nat k) Hc) as [Hn Ho]; [lia|].
  destruct (slot_in_range b k 0) as [? Hm]; [by destruct Hc|done|done|].
  split_and!; [|by apply aload_lookup; [lia|]|done].
  rewrite int32_Ok; [done|unfold MAXATOMS, INT_MIN in *; lia].
Qed.

Lemma live_slot b k i :
  lc_wf b → 0 ≤ k < nTotalBoxes b → (occ b (Z.to_nat k) ≤ 64)%nat →
  i ∈ seqZ (k * MAXATOMS) (Z.of_nat (occ b (Z.to_nat k))) →
  0 ≤ i < Z.of_nat (slot_count b).
Proof.
  intros Hwf Hk Ho Hi%elem_of_seqZ. unfold slot_count, MAXATOMS in *. lia.
Qed.

Lemma loadAtomsBuffer_spec parms cap s face :
  cells_wf (boxes s) (atoms s) → parms_ok parms (boxes s) → 0 ≤ face < 6 → 0 ≤ cap →
  loadAtomsBuffer parms cap s face = capped sizeof_AtomMsg cap (to_send parms s face).
Proof.
  intros Hc Hp Hf Hcap. destruct (Hp face Hf) as ([pbc Hpbc] & l & Hl & Hn & Hk).
  unfold loadAtomsBuffer, to_send, face_shift.
  rewrite (aload_lookup _ _ _ (proj1 Hf) Hpbc), (aload_lookup _ _ _ (proj1 Hf) Hn),
    (aload_lookup _ _ _ (proj1 Hf) Hl), !ret_bind.
  rewrite (list_lookup_total_correct _ _ _ Hpbc), (list_lookup_total_correct _ _ _ Hl).
  rewrite for_range_list, (foldM_capped sizeof_AtomMsg cap _
    (λ k, msg_of (vmap2 fmul pbc (globalExtent (domain s))) <$> cell (boxes s) (atoms s) (Z.to_nat k)));
    [done|done| |simpl; lia].
  intros k buf Hin Hbuf. specialize (Hk k Hin).
  destruct (cell_bounds _ _ k Hc Hk) as (-> & -> & Ho). rewrite !ret_bind.
  pose proof Hc as [Hwf Ha _]. rewrite (cell_seqZ _ _ k Hwf Ha Hk Ho), <-list_fmap_compose.
  unfold for_range. rewrite Z.add_simpl_l. apply foldM_push; [done| |done].
  intros i buf' Hi. apply live_slot in Hi; [|done..].
  destruct (slot_loads _ _ i Ha Hi) as (-> & -> & -> & -> & _). by rewrite !ret_bind.
Qed.

(** ** The constructed exchanges *)

Lemma mk_lists_spec mk :
  (∀ i, 0 ≤ i < 6 → ∃ l, mk i = Ok l) →
  ∃ ls, mk_lists mk = Ok ls ∧
    ∀ i, 0 ≤ i < 6 → ∃ l, ls !! Z.to_nat i = Some l ∧ mk i = Ok l.
Proof.
  intros Hmk. unfold mk_lists. apply returns_Ok.
  eapply returns_mono; [apply (for_range_inv (λ n ls, length ls = Z.to_nat n ∧
    ∀ i, 0 ≤ i < n → ∃ l, ls !! Z.to_nat i = Some l ∧ mk i = Ok l))|].
  - lia.
  - split; [done|lia].
  - intros i ls Hi [Hlen IH]. destruct (Hmk i Hi) as [l Hl]. rewrite Hl. simpl.
    split; [rewrite length_app; simpl; lia|]. intros k Hk.
    destruct (decide (k = i)) as [->|].
    + exists l. split; [|done]. rewrite <-Hlen. by apply list_lookup_middle.
    + destruct (IH k) as (l' & Hl' & ?); [lia|]. exists l'. split; [|done].
      by apply lookup_app_l_Some.
  - intros ls [_ H]. exact H.
Qed.

Lemma wrap32_small z : INT_MIN ≤ z ≤ INT_MAX → wrap32 z = z.
Proof. unfold wrap32, INT_MIN, INT_MAX. intros. rewrite Z.mod_small by lia. lia. Qed.

Lemma zmax_max a b : zmax a b = Z.max a b.
Proof. unfold zmax. rewrite Z.gtb_ltb. zcase; lia. Qed.

Lemma atomExchangeCells_lookup b face :
  0 ≤ face < 6 →
  aload (atomExchangeCells b) face = Ok (atomExchangeCells b !!! Z.to_nat face).
Proof. intros. by apply aload_total. Qed.

(** The exchange of atoms lists, for each face, the boxes of the two planes
    next to it, and its buffers hold [2 * atomMaxSize b] full boxes. *)
Lemma initAtomHaloExchange_spec d b h :
  lc_wf b → initAtomHaloExchange d b = Ok h →
  atomMaxSize b * 2 * MAXATOMS * sizeof_AtomMsg ≤ INT_MAX →
  ∃ parms, parms_ok parms b ∧ pbcFactor parms = mkPbcFactor d ∧
    loadBuffer h = loadAtomsBuffer parms (atomMaxSize b * 2 * MAXATOMS * sizeof_AtomMsg) ∧
    (∀ face, 0 ≤ face < 6 →
       ∃ ts, cellList parms !!! Z.to_nat face = box_index b <$> ts ∧ NoDup ts ∧
         Z.of_nat (length ts) = atomExchangeCells b !!! Z.to_nat face ∧
         ∀ t, t ∈ ts ↔ valid_tuple b t ∧ two_planes b face t).
Proof.
  intros Hwf Hinit Hint. unfold initAtomHaloExchange in Hinit.
  apply bind_Ok in Hinit as (ranks & _ & Hinit). apply bind_Ok in Hinit as (c & Hc & Hinit).
  apply int32_inv in Hc as [-> _].
  destruct (mk_lists_spec (λ ii, n ← aload (atomExchangeCells b) ii; mkAtomCellList b ii n))
    as (ls & Hls & Hl).
  { intros i Hi. rewrite atomExchangeCells_lookup by done. csimpl.
    destruct (mkAtomCellList_spec b i Hwf Hi) as (ts & -> & _). eauto. }
  rewrite Hls in Hinit. csimpl in Hinit. injection Hinit as <-.
  assert (0 < atomMaxSize b) as Hpos.
  { unfold atomMaxSize. rewrite !zmax_max. destruct Hwf. nia. }
  assert (∀ face, 0 ≤ face < 6 → ∃ ts, ls !! Z.to_nat face = Some (box_index b <$> ts) ∧ NoDup ts ∧
    Z.of_nat (length ts) = atomExchangeCells b !!! Z.to_nat face ∧
    ∀ t, t ∈ ts ↔ valid_tuple b t ∧ two_planes b face t) as Hts.
  { intros face Hf. destruct (Hl face Hf) as (l & Hll & Hmk).
    rewrite atomExchangeCells_lookup in Hmk by done. csimpl in Hmk.
    destruct (mkAtomCellList_spec b face Hwf Hf) as (ts & Heq & Hnd & Hin).
    exists ts. rewrite Heq in Hmk. injection Hmk as <-. split_and!; try done.
    unfold mkAtomCellList in Heq. apply bind_Ok in Heq as (l & _ & Hck).
    unfold check_list in Hck. res_inv. zbool. by rewrite length_fmap in *. }
  exists (mkAtomParms (atomExchangeCells b) ls (mkPbcFactor d)). split_and!; simpl.
  - intros face Hf. destruct (Hts face Hf) as (ts & Hlk & _ & Hlen & Hin). split.
    { face_cases face Hf; simpl; eauto. }
    exists (box_index b <$> ts). split; [done|]. rewrite length_fmap, Hlen. split.
    + apply list_lookup_lookup_total_lt. simpl. lia.
    + intros k (t & -> & Ht)%list_elem_of_fmap. apply Hin in Ht as [Hv _].
      by apply box_index_range.
  - done.
  - rewrite wrap32_small; [done|]. unfold INT_MIN, MAXATOMS, sizeof_AtomMsg in *. lia.
  - intros face Hf. destruct (Hts face Hf) as (ts & Hlk & Hrest). exists ts.
    by rewrite (list_lookup_total_correct _ _ _ Hlk).
Qed.

(** ** Force data: what is loaded is stored in the same order *)

(** The values of the live slots of box [k]. *)
Definition slice {A} (b : LinkCell) (d : list A) (k : nat) : list A :=
  take (occ b k) (drop (64 * k) d).

Definition live (b : LinkCell) (k : nat) (m : nat) : Prop :=
  (64 * k ≤ m < 64 * k + occ b k)%nat.

(** Every count is the occupancy of a box. *)
Definition counts_wf (b : LinkCell) : Prop :=
  lc_wf b ∧ ∀ k n, nAtoms b !! k = Some n → 0 ≤ n ≤ MAXATOMS.

Lemma counts_bounds b k :
  counts_wf b → 0 ≤ k < nTotalBoxes b →
  int32 (k * MAXATOMS) = Ok (k * MAXATOMS) ∧
  aload (nAtoms b) k = Ok (Z.of_nat (occ b (Z.to_nat k))) ∧
  (occ b (Z.to_nat k) ≤ 64)%nat.
Proof.
  intros [Hwf Hn] Hk. destruct (slot_in_range b k 0) as [? Hm]; [done..|].
  destruct (aload_is_Some (nAtoms b) k) as (n & Hlk & Hld); [rewrite (wf_nAtoms b Hwf); lia|].
  destruct (Hn _ _ Hlk). unfold occ. rewrite (occ_lookup _ _ _ Hlk).
  split_and!; [|rewrite Hld; f_equal; lia|unfold MAXATOMS in *; lia].
  rewrite int32_Ok; [done|unfold MAXATOMS, INT_MIN in *; lia].
Qed.

Lemma slice_lookup {A} b (d : list A) k m :
  slice b d k !! m = if decide (m < occ b k)%nat then d !! (64 * k + m)%nat else None.
Proof.
  unfold slice. case_decide.
  - by rewrite lookup_take_lt, lookup_drop.
  - apply lookup_take_ge. lia.
Qed.

Lemma length_slice {A} b (d : list A) k :
  (64 * k + occ b k ≤ length d)%nat → length (slice b d k) = occ b k.
Proof. intros. unfold slice. rewrite length_take, length_drop. lia. Qed.

Lemma slice_seqZ `{!Inhabited A} b (d : list A) k :
  0 ≤ k → (64 * Z.to_nat k + occ b (Z.to_nat k) ≤ length d)%nat →
  slice b d (Z.to_nat k) =
    (λ i, d !!! Z.to_nat i) <$> seqZ (k * MAXATOMS) (Z.of_nat (occ b (Z.to_nat k))).
Proof.
  intros Hk Hd. apply list_eq. intros m. rewrite slice_lookup, list_lookup_fmap.
  case_decide as Hm.
  - rewrite lookup_seqZ_lt by lia. simpl. unfold MAXATOMS.
    replace (Z.to_nat (k * 64 + Z.of_nat m)) with (64 * Z.to_nat k + m)%nat by lia.
    apply list_lookup_lookup_total_lt. lia.
  - by rewrite lookup_seqZ_ge by lia.
Qed.

Definition force_parms_ok (parms : ForceExchangeParms) (b : LinkCell) : Prop :=
  ∀ face, 0 ≤ face < 6 →
    ∃ ls lr, sendCells parms !! Z.to_nat face = Some ls ∧
      recvCells parms !! Z.to_nat face = Some lr ∧
      f_nCells parms !! Z.to_nat face = Some (Z.of_nat (length ls)) ∧
      length ls = length lr ∧ NoDup lr ∧
      (∀ k, k ∈ ls → 0 ≤ k < nTotalBoxes b) ∧ (∀ k, k ∈ lr → 0 ≤ k < nTotalBoxes b).

Lemma loadForceBuffer_spec parms cap data face :
  counts_wf (fd_boxes data) → length (dfEmbed data) = slot_count (fd_boxes data) →
  force_parms_ok parms (fd_boxes data) → 0 ≤ face < 6 → 0 ≤ cap →
  loadForceBuffer parms cap data face =
    capped sizeof_ForceMsg cap ((sendCells parms !!! Z.to_nat face) ≫= λ k,
      slice (fd_boxes data) (dfEmbed data) (Z.to_nat k)).
Proof.
  intros Hc Hd Hp Hf Hcap. destruct (Hp face Hf) as (l & lr & Hl & _ & Hn & _ & _ & Hk & _).
  unfold loadForceBuffer.
  rewrite (aload_lookup _ _ _ (proj1 Hf) Hn), (aload_lookup _ _ _ (proj1 Hf) Hl), !ret_bind.
  rewrite (list_lookup_total_correct _ _ _ Hl).
  rewrite for_range_list, (foldM_capped sizeof_ForceMsg cap _
    (λ k, slice (fd_boxes data) (dfEmbed data) (Z.to_nat k))); [done|done| |simpl; lia].
  intros k buf Hin Hbuf. specialize (Hk k Hin).
  destruct (counts_bounds _ k Hc Hk) as (-> & -> & Ho). rewrite !ret_bind.
  rewrite slice_seqZ by (rewrite ?Hd; unfold slot_count, MAXATOMS; lia).
  unfold for_range. rewrite Z.add_simpl_l. apply foldM_push; [done| |done].
  intros i buf' Hi. apply live_slot in Hi; [|by destruct Hc|done..].
  rewrite aload_total by lia. done.
Qed.

(** Storing the values [v] from [buf] into the live slots of box [k]. *)
Lemma unload_cell (buf pre v post : list real_t) d k n :
  buf = pre ++ v ++ post → length v = n → 0 ≤ k → (64 * Z.to_nat k + n ≤ length d)%nat →
  returns (for_range (k * MAXATOMS) (k * MAXATOMS + Z.of_nat n) (λ ii st,
      x ← aload buf st.2; d ← astore st.1 ii x; Ok (d, st.2 + 1)) (d, Z.of_nat (length pre)))
    (λ st, st.2 = Z.of_nat (length (pre ++ v)) ∧ length st.1 = length d ∧
       ∀ m, st.1 !! m = if decide (64 * Z.to_nat k ≤ m < 64 * Z.to_nat k + n)%nat
                        then v !! (m - 64 * Z.to_nat k)%nat else d !! m).
Proof.
  intros Hbuf Hv Hk Hd. unfold MAXATOMS.
  eapply returns_mono; [apply (for_range_inv (λ i st,
    st.2 = Z.of_nat (length pre) + (i - k * 64) ∧ length st.1 = length d ∧
    ∀ m, st.1 !! m = if decide (64 * Z.to_nat k ≤ m < Z.to_nat i)%nat
                     then v !! (m - 64 * Z.to_nat k)%nat else d !! m))|].
  - lia.
  - simpl. split_and!; [lia|done|]. intros m. by rewrite decide_False by lia.
  - intros i [d' j] Hi (Hj & Hlen & Hlk). cbn [fst snd] in *. subst j.
    destruct (lookup_lt_is_Some_2 v (Z.to_nat (i - k * 64))) as [x Hx]; [lia|].
    rewrite (aload_lookup buf _ x); [|lia|].
    2:{ rewrite Hbuf, lookup_app_r, lookup_app_l by lia. rewrite <-Hx. f_equal. lia. }
    csimpl. rewrite astore_Ok by lia. simpl. split_and!; [lia|by rewrite length_insert|].
    intros m. rewrite list_lookup_insert. case_decide as H1.
    + rewrite decide_True by lia. rewrite <-Hx. f_equal. lia.
    + rewrite Hlk. destruct (decide (64 * Z.to_nat k ≤ m < Z.to_nat i)%nat).
      * by rewrite decide_True by lia.
      * by rewrite decide_False by lia.
  - intros [d' j] (Hj & Hlen & Hlk). cbn [fst snd] in *. split_and!; [|done|].
    + rewrite length_app. lia.
    + intros m. rewrite Hlk. replace (Z.to_nat (k * 64 + Z.of_nat n)) with (64 * Z.to_nat k + n)%nat by lia.
      done.
Qed.

Lemma unload_cells b (lr : list Z) (vs : list (list real_t)) d :
  counts_wf b → length d = slot_count b → NoDup lr → length lr = length vs →
  (∀ k, k ∈ lr → 0 ≤ k < nTotalBoxes b) →
  (∀ j k v, lr !! j = Some k → vs !! j = Some v → length v = occ b (Z.to_nat k)) →
  returns (foldM (λ iBox st,
      iOff ← int32 (iBox * MAXATOMS);
      na ← aload (nAtoms b) iBox;
      for_range iOff (iOff + na) (λ ii st,
        x ← aload (concat vs) st.2; d ← astore st.1 ii x; Ok (d, st.2 + 1)) st) lr (d, 0))
    (λ st, st.2 = Z.of_nat (length (concat vs)) ∧ length st.1 = length d ∧
       (∀ j k v, lr !! j = Some k → vs !! j = Some v → slice b st.1 (Z.to_nat k) = v) ∧
       ∀ m, (∀ k, k ∈ lr → ¬ live b (Z.to_nat k) m) → st.1 !! m = d !! m).
Proof.
  intros Hc Hd Hnd Hlen Hr Hv.
  eapply returns_mono; [apply (foldM_inv (λ l st,
    st.2 = Z.of_nat (length (concat (take (length l) vs))) ∧ length st.1 = length d ∧
    (∀ j k v, l !! j = Some k → vs !! j = Some v → slice b st.1 (Z.to_nat k) = v) ∧
    ∀ m, (∀ k, k ∈ l → ¬ live b (Z.to_nat k) m) → st.1 !! m = d !! m))|].
  - by split_and!.
  - intros l1 k l2 [d' i] -> (Hi & Hld & Hdone & Hsame). cbn [fst snd] in *. subst i.
    assert (0 ≤ k < nTotalBoxes b) as Hk by (apply Hr; set_solver).
    destruct (counts_bounds b k Hc Hk) as (-> & -> & Ho). rewrite !ret_bind.
    destruct (lookup_lt_is_Some_2 vs (length l1)) as [v Hvl].
    { rewrite <-Hlen, length_app. simpl. lia. }
    assert (length v = occ b (Z.to_nat k)) as Hlv.
    { apply (Hv (length l1)); [|done]. by apply list_lookup_middle. }
    eapply returns_mono.
    { apply (unload_cell _ (concat (take (length l1) vs)) v (concat (drop (S (length l1)) vs)) d' k); [|done|lia|].
      - rewrite <-(take_drop_middle vs (length l1) v Hvl) at 1. by rewrite concat_app.
      - rewrite Hld, Hd. unfold slot_count, MAXATOMS. lia. }
    intros [d'' i] (Hi & Hld' & Hlk). cbn [fst snd] in *.
    assert (length (l1 ++ [k]) = S (length l1)) as HS by (rewrite length_app; simpl; lia).
    split_and!.
    + rewrite HS, (take_S_r _ _ _ Hvl), concat_app. simpl. by rewrite app_nil_r.
    + congruence.
    + intros j k' v' Hj Hjv. apply list_eq. intros m. rewrite slice_lookup, Hlk.
      apply lookup_app_Some in Hj as [Hj|[Hge Hj]].
      * assert (k' ≠ k) as Hne.
        { intros ->. apply NoDup_app in Hnd as (_ & Hd' & _). apply list_elem_of_lookup_2 in Hj.
          apply (Hd' k Hj). set_solver. }
        assert (0 ≤ k' < nTotalBoxes b) as Hk'.
        { apply Hr. apply list_elem_of_lookup_2 in Hj. set_solver. }
        destruct (counts_bounds b k' Hc Hk') as (_ & _ & Ho').
        rewrite <-(Hdone j k' v' Hj Hjv), slice_lookup.
        case_decide; [|done]. by rewrite decide_False by lia.
      * apply list_lookup_singleton_Some in Hj as [Hj <-].
        assert (j = length l1) as -> by lia. rewrite Hvl in Hjv. injection Hjv as <-.
        case_decide; [rewrite decide_True by lia; f_equal; lia|].
        symmetry. apply lookup_ge_None_2. lia.
    + intros m Hm. rewrite Hlk, decide_False.
      * apply Hsame. intros k' Hk'. apply Hm. set_solver.
      * apply (Hm k). set_solver.
  - intros [d' i] (Hi & Hld & Hdone & Hsame). cbn [fst snd] in *. split_and!; try done.
    by rewrite Hlen, take_ge in Hi.
Qed.

Lemma forceExchangeCells_lookup b face :
  0 ≤ face < 6 →
  aload (forceExchangeCells b) face = Ok (forceExchangeCells b !!! Z.to_nat face).
Proof. intros. by apply aload_total. Qed.

Lemma opposite_range face : 0 ≤ face < 6 → 0 ≤ opposite face < 6.
Proof. intros H. unfold opposite. face_cases face H; simpl; lia. Qed.

Lemma opposite_opposite face : 0 ≤ face < 6 → opposite (opposite face) = face.
Proof. intros H. face_cases face H; done. Qed.

Lemma forceExchangeCells_opposite b face :
  0 ≤ face < 6 →
  forceExchangeCells b !!! Z.to_nat (opposite face) = forceExchangeCells b !!! Z.to_nat face.
Proof. intros H. face_cases face H; done. Qed.

Lemma initForceHaloExchange_spec d b h :
  lc_wf b → initForceHaloExchange d b = Ok h →
  forceMaxSize b * MAXATOMS * sizeof_ForceMsg ≤ INT_MAX →
  ∃ parms, force_parms_ok parms b ∧
    loadBuffer h = loadForceBuffer parms (forceMaxSize b * MAXATOMS * sizeof_ForceMsg) ∧
    unloadBuffer h = unloadForceBuffer parms ∧
    (∀ face, 0 ≤ face < 6 → ∃ ts,
       mkForceSendCellList b face (forceExchangeCells b !!! Z.to_nat face) = Ok (box_index b <$> ts) ∧
       sendCells parms !! Z.to_nat face = Some (box_index b <$> ts) ∧
       recvCells parms !! Z.to_nat (opposite face) = Some (box_index b <$> (across b face <$> ts)) ∧
       Z.of_nat (length ts) = forceExchangeCells b !!! Z.to_nat face ∧
       ∀ t, t ∈ ts → valid_tuple b t ∧ valid_tuple b (across b face t)).
Proof.
  intros Hwf Hinit Hint. unfold initForceHaloExchange in Hinit.
  apply bind_Ok in Hinit as (ranks & _ & Hinit). apply bind_Ok in Hinit as (c & Hc & Hinit).
  apply int32_inv in Hc as [-> _].
  destruct (mk_lists_spec (λ ii, n ← aload (forceExchangeCells b) ii; mkForceSendCellList b ii n))
    as (ls & Hls & Hl).
  { intros i Hi. rewrite forceExchangeCells_lookup by done. csimpl.
    destruct (force_lists_spec b i Hwf Hi) as (ts & -> & _). eauto. }
  destruct (mk_lists_spec (λ ii, n ← aload (forceExchangeCells b) ii; mkForceRecvCellList b ii n))
    as (lr & Hlr & Hr).
  { intros i Hi. rewrite forceExchangeCells_lookup by done. csimpl.
    destruct (force_lists_spec b (opposite i) Hwf) as (ts & _ & Hm & _); [by apply opposite_range|].
    rewrite opposite_opposite, forceExchangeCells_opposite in Hm by done. eauto. }
  rewrite Hls, Hlr in Hinit. csimpl in Hinit. injection Hinit as <-.
  assert (0 < forceMaxSize b) as Hpos.
  { unfold forceMaxSize. rewrite !zmax_max. destruct Hwf. nia. }
  assert (∀ face, 0 ≤ face < 6 → ∃ ts,
    mkForceSendCellList b face (forceExchangeCells b !!! Z.to_nat face) = Ok (box_index b <$> ts) ∧
    ls !! Z.to_nat face = Some (box_index b <$> ts) ∧
    lr !! Z.to_nat (opposite face) = Some (box_index b <$> (across b face <$> ts)) ∧
    NoDup ts ∧ Z.of_nat (length ts) = forceExchangeCells b !!! Z.to_nat face ∧
    ∀ t, t ∈ ts → valid_tuple b t ∧ valid_tuple b (across b face t)) as Hts.
  { intros face Hf. destruct (force_lists_spec b face Hwf Hf) as (ts & Hs & Hv & Hnd & Hlen & Hin).
    exists ts. destruct (Hl face Hf) as (l & Hll & Hmk).
    rewrite forceExchangeCells_lookup in Hmk by done. csimpl in Hmk.
    destruct (Hr (opposite face)) as (l' & Hll' & Hmk'); [by apply opposite_range|].
    rewrite forceExchangeCells_lookup, forceExchangeCells_opposite in Hmk'
      by (done || by apply opposite_range). csimpl in Hmk'.
    split_and!; try done; congruence. }
  exists (mkForceParms (forceExchangeCells b) ls lr). split_and!; simpl; try done.
  - intros face Hf. destruct (Hts face Hf) as (ts & _ & Hs & _ & _ & Hlen & Hin).
    destruct (Hts (opposite face)) as (ts' & _ & _ & Hr' & Hnd' & Hlen' & Hin');
      [by apply opposite_range|].
    rewrite opposite_opposite in Hr' by done. rewrite forceExchangeCells_opposite in Hlen' by done.
    exists (box_index b <$> ts), (box_index b <$> (across b (opposite face) <$> ts')).
    rewrite !length_fmap. split_and!; try done.
    + rewrite Hlen. apply list_lookup_lookup_total_lt. simpl. lia.
    + lia.
    + apply NoDup_boxes; [done| |].
      * intros t (t' & -> & Ht')%list_elem_of_fmap. apply (Hin' t' Ht').
      * apply NoDup_fmap_2; [|done]. intros [] []. unfold across, vadd; simpl.
        intros [= ???]. f_equal; lia.
    + intros k (t & -> & Ht)%list_elem_of_fmap. apply box_index_range; [done|]. apply (Hin t Ht).
    + intros k (t & -> & (t' & -> & Ht')%list_elem_of_fmap)%list_elem_of_fmap.
      apply box_index_range; [done|]. apply (Hin' t' Ht').
  - rewrite wrap32_small; [done|]. unfold INT_MIN, MAXATOMS, sizeof_ForceMsg in *. lia.
  - intros face Hf. destruct (Hts face Hf) as (ts & ? & ? & ? & ? & ? & ?). by exists ts.
Qed.

(** ** Sorting *)

(** The message [sortAtomsInCell] makes of an atom, and an atom with the data of
    a message: force and energy stay with the slot. *)
Definition plain_msg (x : atom) : AtomMsg :=
  mkAtomMsg (a_gid x) (a_species x) (a_r x) (a_p x).
Definition with_msg (x : atom) (m : AtomMsg) : atom :=
  mkAtom (m_gid m) (m_type m) (m_r m) (m_p m) (a_f x) (a_U x).

Lemma collect_cell b a k :
  cells_wf b a → 0 ≤ k < nTotalBoxes b →
  for_range (k * MAXATOMS) (k * MAXATOMS + Z.of_nat (occ b (Z.to_nat k))) (λ ii tmp,
    g ← aload (gid a) ii;
    t ← aload (iSpecies a) ii;
    r ← aload (ar a) ii;
    p ← aload (ap a) ii;
    Ok (tmp ++ [mkAtomMsg g t r p])) [] = Ok (plain_msg <$> cell b a (Z.to_nat k)).
Proof.
  intros Hc Hk. destruct (cell_bounds b a k Hc Hk) as (_ & _ & Ho). pose proof Hc as [Hwf Ha _].
  rewrite (cell_seqZ b a k Hwf Ha Hk Ho), <-list_fmap_compose.
  unfold for_range. rewrite Z.add_simpl_l.
  rewrite (foldM_pure (λ i tmp, tmp ++ [plain_msg (slots a !!! Z.to_nat i)])).
  - f_equal. assert (∀ (f : Z → AtomMsg) l acc, foldl (flip (λ i tmp, tmp ++ [f i])) acc l = acc ++ (f <$> l)) as Hf.
    { intros f l. induction l as [|x l IH]; intros acc; csimpl; [by rewrite app_nil_r|].
      unfold flip in IH |- *. rewrite IH. by rewrite <-app_assoc. }
    by rewrite (Hf (λ i, plain_msg (slots a !!! Z.to_nat i))).
  - intros i tmp Hi. apply live_slot in Hi; [|done..].
    destruct (slot_loads b a i Ha Hi) as (-> & -> & -> & -> & _). done.
Qed.

(** Writing messages back, slot by slot. *)
Lemma write_msgs b a k ms :
  atoms_wf b a → lc_wf b → 0 ≤ k < nTotalBoxes b → (length ms ≤ 64)%nat →
  returns (for_range (k * MAXATOMS) (k * MAXATOMS + Z.of_nat (length ms)) (λ ii a,
      m ← aload ms (ii - k * MAXATOMS);
      g' ← astore (gid a) ii (m_gid m);
      t' ← astore (iSpecies a) ii (m_type m);
      r' ← astore (ar a) ii (m_r m);
      p' ← astore (ap a) ii (m_p m);
      Ok (mkAtoms (nLocal a) (nGlobal a) g' t' r' p' (af a) (aU a))) a)
    (λ a', atoms_wf b a' ∧ nLocal a' = nLocal a ∧ nGlobal a' = nGlobal a ∧ af a' = af a ∧ aU a' = aU a ∧
       ∀ q, slots a' !! q =
         if decide (64 * Z.to_nat k ≤ q < 64 * Z.to_nat k + length ms)%nat
         then x ← slots a !! q; m ← ms !! (q - 64 * Z.to_nat k)%nat; Some (with_msg x m)
         else slots a !! q).
Proof.
  intros Ha Hwf Hk Hms.
  eapply returns_mono; [apply (for_range_inv (λ i a',
    atoms_wf b a' ∧ nLocal a' = nLocal a ∧ nGlobal a' = nGlobal a ∧ af a' = af a ∧ aU a' = aU a ∧
    ∀ q, slots a' !! q =
      if decide (64 * Z.to_nat k ≤ q < Z.to_nat i)%nat
      then x ← slots a !! q; m ← ms !! (q - 64 * Z.to_nat k)%nat; Some (with_msg x m)
      else slots a !! q))|].
  - lia.
  - split_and!; try done. intros q. rewrite decide_False by (unfold MAXATOMS; lia). done.
  - intros i a' Hi (Ha' & Hn & Hg & Haf & HaU & Hs).
    destruct (lookup_lt_is_Some_2 ms (Z.to_nat (i - k * MAXATOMS))) as [m Hm]; [lia|].
    rewrite (aload_lookup ms _ m) by (done || lia). csimpl.
    assert (0 ≤ i < Z.of_nat (slot_count b)) as Hib by (unfold slot_count, MAXATOMS in *; lia).
    pose proof Ha' as [L1 L2 L3 L4 L5 L6]. rewrite !astore_Ok by lia. cbn [mbind res_bind returns].
    split; [split; simpl; rewrite ?length_insert; done|]. do 4 (split; [done|]).
    set (x' := slots a' !!! Z.to_nat i).
    destruct (slot_loads b a' i Ha' Hib) as (_ & _ & _ & _ & Hf & HU). fold x' in Hf, HU.
    apply aload_Ok in Hf as [_ Hf]. apply aload_Ok in HU as [_ HU].
    assert (slots (mkAtoms (nLocal a') (nGlobal a') (<[Z.to_nat i:=m_gid m]> (gid a'))
        (<[Z.to_nat i:=m_type m]> (iSpecies a')) (<[Z.to_nat i:=m_r m]> (ar a'))
        (<[Z.to_nat i:=m_p m]> (ap a')) (af a') (aU a')) = <[Z.to_nat i:=with_msg x' m]> (slots a')) as ->.
    { rewrite <-(slots_insert a' (nLocal a') (nGlobal a')). simpl.
      by rewrite (list_insert_id (af a') _ _ Hf), (list_insert_id (aU a') _ _ HU). }
    intros q. rewrite list_lookup_insert, (length_slots b a' Ha').
    assert (slots a' !! Z.to_nat i = Some x') as Hx'.
    { apply list_lookup_lookup_total_lt. rewrite (length_slots b a' Ha'). lia. }
    rewrite Hs, decide_False in Hx' by (unfold MAXATOMS in *; lia).
    destruct (decide (Z.to_nat i = q ∧ (Z.to_nat i < slot_count b)%nat)) as [[<- _]|Hne].
    + rewrite decide_True by (unfold MAXATOMS in *; lia). 
      replace (Z.to_nat i - 64 * Z.to_nat k)%nat with (Z.to_nat (i - k * MAXATOMS))
        by (unfold MAXATOMS in *; lia). by rewrite Hx', Hm.
    + rewrite Hs. destruct (decide (64 * Z.to_nat k ≤ q < Z.to_nat i)%nat).
      * by rewrite decide_True by lia.
      * destruct (decide (64 * Z.to_nat k ≤ q < Z.to_nat (i + 1))%nat); [|done]. exfalso. lia.
  - intros a' (Ha' & Hn & Hg & Haf & HaU & Hs). split_and!; try done. intros q. rewrite Hs.
    by replace (Z.to_nat (k * MAXATOMS + Z.of_nat (length ms))) with (64 * Z.to_nat k + length ms)%nat
      by (unfold MAXATOMS; lia).
Qed.

Lemma strictly_sorted l :
  StronglySorted gid_le l → NoDup (m_gid <$> l) →
  StronglySorted (λ m m', m_gid m < m_gid m') l.
Proof.
  induction 1 as [|m l Hs IH Hf]; csimpl; [constructor|].
  intros [Hm Hnd]%NoDup_cons. constructor; [by apply IH|].
  rewrite Forall_forall in Hf |- *. intros m' Hm'. specialize (Hf m' Hm'). unfold gid_le in Hf.
  enough (m_gid m ≠ m_gid m') by lia. intros He. apply Hm. rewrite He.
  by apply list_elem_of_fmap_2.
Qed.

Lemma sortById_spec tmp :
  NoDup (m_gid <$> tmp) →
  ∃ l, sortById tmp = Ok l ∧ l ≡ₚ tmp ∧ StronglySorted (λ m m', m_gid m < m_gid m') l.
Proof.
  intros Hnd. exists (merge_sort gid_le tmp). unfold sortById.
  rewrite bool_decide_eq_true_2 by done. split; [done|].
  pose proof (merge_sort_Permutation gid_le tmp) as Hp. split; [done|].
  apply strictly_sorted; [apply StronglySorted_merge_sort; apply _|by rewrite Hp].
Qed.

(** ** Unloading atoms *)

(** The message belongs to box [k]. *)
Definition msg_box (b : LinkCell) (k : nat) (m : AtomMsg) : Prop :=
  getBoxFromCoord b (m_r m) = Ok (Z.of_nat k).
#[export] Instance msg_box_dec b k m : Decision (msg_box b k m).
Proof. unfold msg_box. apply _. Defined.

Definition boxed (b : LinkCell) (k : nat) (buf : list AtomMsg) : list AtomMsg :=
  filter (msg_box b k) buf.

Lemma unloadAtomsBuffer_spec s face buf :
  cells_wf (boxes s) (atoms s) →
  (∀ m, m ∈ buf → ∃ k, msg_box (boxes s) k m) →
  (∀ k, (k < Z.to_nat (nTotalBoxes (boxes s)))%nat →
     (occ (boxes s) k + length (boxed (boxes s) k buf) ≤ 64)%nat) →
  returns (unloadAtomsBuffer s face buf) (λ s',
    cells_wf (boxes s') (atoms s') ∧ s' = set_cells s (boxes s', atoms s') ∧
    boxes s' = set_nAtoms (boxes s) (nAtoms (boxes s')) ∧
    ∀ k, (k < Z.to_nat (nTotalBoxes (boxes s)))%nat →
      plain_msg <$> cell (boxes s') (atoms s') k =
        (plain_msg <$> cell (boxes s) (atoms s) k) ++ boxed (boxes s) k buf).
Proof.
  revert s. induction buf as [|m buf IH]; intros s Hc Hbox Hroom.
  - simpl. split_and!; [done|by destruct s|by destruct (boxes s)|]. intros k _. by rewrite app_nil_r.
  - unfold unloadAtomsBuffer. simpl. rename Hroom into Hr.
    destruct (Hbox m) as [k Hk]; [set_solver|]. unfold msg_box in Hk.
    pose proof (getBoxFromCoord_range _ _ _ Hk) as Hkr.
    pose proof (Hr k ltac:(lia)) as Hrk. unfold boxed in Hrk.
    rewrite (filter_cons_True _ m buf) in Hrk by done. simpl in Hrk.
    pose proof (putAtomInBox_spec _ _ (m_gid m) (m_type m) (m_r m) (m_p m) _ Hc Hk Hkr) as Hput.
    rewrite Nat2Z.id in Hput. specialize (Hput ltac:(lia)).
    destruct (putAtomInBox _ _ _ _ _ _) as [[b' a']|]; cbn [returns fst snd] in Hput; [|done].
    destruct Hput as (Hc' & Hgeo & _ & _ & x & Hx1 & Hx2 & Hx3 & Hx4 & Hcell & Hother).
    rewrite !ret_bind. specialize (IH (set_cells s (b', a'))). cbn [boxes atoms set_cells set_boxes set_atoms fst snd] in IH.
    assert (∀ j m, msg_box b' j m ↔ msg_box (boxes s) j m) as Hmb by (intros; by rewrite Hgeo).
    assert (∀ j, boxed b' j buf = boxed (boxes s) j buf) as Hbx by (intros; by rewrite Hgeo).
    assert (nTotalBoxes b' = nTotalBoxes (boxes s)) as HT by (by rewrite Hgeo).
    eapply returns_mono; [apply IH; [done| |]|].
    + intros m' Hm'. destruct (Hbox m') as [j Hj]; [set_solver|]. exists j. by apply Hmb.
    + intros j Hj. rewrite Hbx. rewrite HT in Hj. specialize (Hr j Hj).
      rewrite <-(length_cell _ _ _ Hc') by lia. unfold boxed in Hr. rewrite filter_cons in Hr.
      destruct (decide (j = k)) as [->|Hjk].
      * rewrite Hcell, length_app, length_cell by (done || lia). unfold boxed. simpl. lia.
      * rewrite Hother, length_cell by (done || lia). unfold boxed.
        case_decide; simpl in Hr; lia.
    + intros s' (Hwf' & Hs' & Hg' & Hall). split_and!; [done| |by rewrite Hg', Hgeo|].
      { rewrite Hs'. done. }
      intros j Hj. rewrite HT in Hall. rewrite (Hall j Hj), Hbx. unfold boxed.
      rewrite filter_cons. destruct (decide (j = k)) as [->|Hjk].
      * rewrite Hcell, decide_True by done. rewrite fmap_app, <-app_assoc. csimpl. f_equal.
        f_equal. unfold plain_msg. rewrite Hx1, Hx2, Hx3, Hx4. by destruct m.
      * rewrite Hother, decide_False; [done| |done|done]. intros Hj'. unfold msg_box in Hj'.
        rewrite Hk in Hj'. injection Hj'. lia.
Qed.

(** ** Concrete states *)

Definition ex_sim : SimFlat :=
  mkSim 10 10 fone 0 1 1 1 4 ex_local_domain ex_cells ex_atoms [unit_species] fzero fzero.

Definition dummy_halo {Data Msg} : HaloExchange Data Msg :=
  mkHalo [] 0 1 (λ _ _, Ok []) (λ d _ _, Ok d).

Definition ex_atom_halo : HaloExchange SimFlat AtomMsg :=
  get dummy_halo (initAtomHaloExchange ex_local_domain ex_boxes).
Definition ex_force_halo : HaloExchange ForceExchangeData real_t :=
  get dummy_halo (initForceHaloExchange ex_local_domain ex_boxes).

(** A flat domain, [2 * 3 * 3] boxes, with [MAXATOMS] atoms in every box. *)
Definition flat_boxes : LinkCell :=
  mkLinkCell (V3 2 3 3) 18 82 100 zero3 (V3 ftwo (f64 3) (f64 3)) (V3 fone fone fone)
    (V3 fone fone fone) (replicate 100 64).
Definition flat_atoms : Atoms :=
  mkAtoms 1152 1152 (replicate 6400 0) (replicate 6400 0) (replicate 6400 zero3)
    (replicate 6400 zero3) (replicate 6400 zero3) (replicate 6400 fzero).
Definition flat_sim : SimFlat :=
  mkSim 10 10 fone 0 1 1 1 4 ex_local_domain flat_boxes flat_atoms [unit_species] fzero fzero.
Definition flat_halo : HaloExchange SimFlat AtomMsg :=
  get dummy_halo (initAtomHaloExchange ex_local_domain flat_boxes).

(** ** Properties *)

(** For every face, [mkAtomCellList] succeeds with the count that
    [initAtomHaloExchange] gives (its assertion holds) and lists, without
    repetition, exactly the boxes in the two planes next to the face: the last
    local plane, whose atoms the neighbour needs, and the halo plane, whose atoms
    have just left. *)
Theorem mkAtomCellList_correct b face :
  lc_wf b → 0 ≤ face < 6 →
  returns (n ← aload (atomExchangeCells b) face; mkAtomCellList b face n) (λ l,
    NoDup l ∧
    ∀ k t, 0 ≤ k < nTotalBoxes b → getTuple b k = Ok t → (k ∈ l ↔ two_planes b face t)).
Proof.
  intros Hwf Hf. rewrite atomExchangeCells_lookup, ret_bind by done.
  destruct (mkAtomCellList_spec b face Hwf Hf) as (ts & -> & Hnd & Hin). simpl. split.
  - apply NoDup_boxes; [done| |done]. intros t Ht. by apply Hin in Ht as [? _].
  - intros k t Hk Ht. rewrite (mem_boxes b ts k t Hwf); [|intros ? Hi; by apply Hin in Hi as [? _]|done..].
    rewrite Hin. destruct (getTuple_total b Hwf k Hk) as (t' & Ht' & Hv & _).
    rewrite Ht in Ht'. injection Ht' as <-. split; [by intros [_ ?]|done].
Qed.

Lemma mkAtomCellList_correct_witness :
  returns (n ← aload (atomExchangeCells ex_boxes) 3; mkAtomCellList ex_boxes 3 n) (λ l, NoDup l).
Proof.
  eapply returns_mono; [apply (mkAtomCellList_correct ex_boxes 3 ex_boxes_wf); lia|].
  by intros l [? _].
Defined.

(** The send list of a face and the receive list of the opposite face are
    compatible: they have the same length (both assertions hold), and the k-th
    box of the receive list is the k-th box of the send list seen from the
    neighbour, that is, displaced by the size of the domain across the face. *)
Theorem force_lists_compatible b face :
  lc_wf b → 0 ≤ face < 6 →
  returns (n ← aload (forceExchangeCells b) face; mkForceSendCellList b face n) (λ send,
  returns (n ← aload (forceExchangeCells b) (opposite face);
           mkForceRecvCellList b (opposite face) n) (λ recv,
    length send = length recv ∧ NoDup send ∧ NoDup recv ∧
    ∀ j ks kr, send !! j = Some ks → recv !! j = Some kr →
      ∃ t, getTuple b ks = Ok t ∧ getTuple b kr = Ok (across b face t))).
Proof.
  intros Hwf Hf. rewrite forceExchangeCells_lookup, ret_bind by done.
  rewrite forceExchangeCells_lookup, ret_bind by (by apply opposite_range).
  rewrite forceExchangeCells_opposite by done.
  destruct (force_lists_spec b face Hwf Hf) as (ts & -> & -> & Hnd & _ & Hin). simpl.
  assert (NoDup (across b face <$> ts)) as Hnd'.
  { apply NoDup_fmap_2; [|done]. intros [] []. unfold across, vadd; simpl.
    intros [= ???]. f_equal; lia. }
  split_and!.
  - by rewrite !length_fmap.
  - apply NoDup_boxes; [done| |done]. intros t Ht. apply (Hin t Ht).
  - apply NoDup_boxes; [done| |done]. intros t (t' & -> & Ht')%list_elem_of_fmap. apply (Hin t' Ht').
  - intros j ks kr Hs Hr. rewrite !list_lookup_fmap in Hs. rewrite !list_lookup_fmap in Hr.
    destruct (ts !! j) as [t|] eqn:Ht; [|done].
    cbn [fmap option_fmap option_map] in Hs, Hr.
    assert (ks = box_index b t) as -> by congruence.
    assert (kr = box_index b (across b face t)) as -> by congruence.
    apply list_elem_of_lookup_2 in Ht. exists t. destruct (Hin t Ht).
    split; by apply getTuple_box_index.
Qed.

Lemma force_lists_compatible_witness :
  returns (n ← aload (forceExchangeCells ex_boxes) 4; mkForceSendCellList ex_boxes 4 n) (λ send,
  returns (n ← aload (forceExchangeCells ex_boxes) 5; mkForceRecvCellList ex_boxes 5 n) (λ recv,
    length send = length recv)).
Proof.
  eapply returns_mono; [apply (force_lists_compatible ex_boxes 4 ex_boxes_wf); lia|].
  intros send Hsend. eapply returns_mono; [exact Hsend|]. by intros recv [? _].
Defined.

Lemma length_bind_le {A B} (f : A → list B) (l : list A) n :
  (∀ x, x ∈ l → (length (f x) ≤ n)%nat) → (length (l ≫= f) ≤ length l * n)%nat.
Proof.
  induction l as [|x l IH]; intros Hf; csimpl; [lia|].
  rewrite length_app. specialize (IH ltac:(set_solver)). specialize (Hf x ltac:(set_solver)). lia.
Qed.

(** The two exchanges of a simulation whose link cells have geometry [b]. *)
Lemma atom_load_spec d b h s face :
  lc_wf b → initAtomHaloExchange d b = Ok h →
  atomMaxSize b * 2 * MAXATOMS * sizeof_AtomMsg ≤ INT_MAX →
  cells_wf (boxes s) (atoms s) → boxes s = set_nAtoms b (nAtoms (boxes s)) → 0 ≤ face < 6 →
  ∃ ts, NoDup ts ∧ (∀ t, t ∈ ts ↔ valid_tuple b t ∧ two_planes b face t) ∧
    Z.of_nat (length ts) = atomExchangeCells b !!! Z.to_nat face ∧
    loadBuffer h s face =
      capped sizeof_AtomMsg (atomMaxSize b * 2 * MAXATOMS * sizeof_AtomMsg)
        ((box_index b <$> ts) ≫= λ k,
           msg_of (vmap2 fmul (mkPbcFactor d !!! Z.to_nat face) (globalExtent (domain s))) <$>
             cell (boxes s) (atoms s) (Z.to_nat k)).
Proof.
  intros Hwf Hh Hint Hc Hg Hf.
  destruct (initAtomHaloExchange_spec d b h Hwf Hh Hint) as (parms & Hp & Hpbc & Hload & Hts).
  destruct (Hts face Hf) as (ts & Hl & Hnd & Hlen & Hin). exists ts. split_and!; [done..|].
  assert (0 < atomMaxSize b) as Hpos.
  { unfold atomMaxSize. rewrite !zmax_max. destruct Hwf. nia. }
  rewrite Hload, loadAtomsBuffer_spec; [|done| |done|unfold MAXATOMS, sizeof_AtomMsg; lia].
  - unfold to_send, face_shift. by rewrite Hl, Hpbc.
  - rewrite Hg. exact Hp.
Qed.

(** The send buffer of the atom exchange is large enough for every face on
    the y and z axes, and for the faces on the x axis when the plane they send is
    not larger than the other two; the buffer then holds exactly the atoms of the
    boxes of [mkAtomCellList], positions shifted by the periodic factor of the
    face. *)
Theorem atomBuffer_fits d b h s face :
  lc_wf b → initAtomHaloExchange d b = Ok h →
  atomMaxSize b * 2 * MAXATOMS * sizeof_AtomMsg ≤ INT_MAX →
  cells_wf (boxes s) (atoms s) → boxes s = set_nAtoms b (nAtoms (boxes s)) → 0 ≤ face < 6 →
  2 ≤ face ∨ (v1 (gridSize b) + 2) * (v2 (gridSize b) + 2) ≤ atomMaxSize b →
  returns (loadBuffer h s face) (λ buf,
    ∀ m, m ∈ buf ↔ ∃ k t x, 0 ≤ k < nTotalBoxes b ∧ getTuple b k = Ok t ∧ two_planes b face t ∧
      x ∈ cell (boxes s) (atoms s) (Z.to_nat k) ∧
      m = msg_of (vmap2 fmul (mkPbcFactor d !!! Z.to_nat face) (globalExtent (domain s))) x).
Proof.
  intros Hwf Hh Hint Hc Hg Hf Hsize.
  destruct (atom_load_spec d b h s face) as (ts & _ & Hin & Hlen & ->); [done..|].
  unfold capped. rewrite (proj2 (Z.leb_le _ _)).
  - simpl. intros m. rewrite list_elem_of_bind. split.
    + intros (k & (x & -> & Hx)%list_elem_of_fmap & (t & -> & Ht)%list_elem_of_fmap).
      apply Hin in Ht as [Hv Ht]. destruct (box_index_range b Hwf t Hv).
      exists (box_index b t), t, x. rewrite getTuple_box_index by done. done.
    + intros (k & t & x & Hk & Hkt & Ht & Hx & ->). exists k. split.
      * apply list_elem_of_fmap. eauto.
      * destruct (getTuple_total b Hwf k Hk) as (t' & Hkt' & Hv & <-). rewrite Hkt in Hkt'.
        injection Hkt' as <-. apply list_elem_of_fmap_2, Hin. done.
  - pose proof (length_bind_le (λ k, msg_of (vmap2 fmul (mkPbcFactor d !!! Z.to_nat face)
      (globalExtent (domain s))) <$> cell (boxes s) (atoms s) (Z.to_nat k)) (box_index b <$> ts) 64) as Hle.
    rewrite length_fmap in Hle.
    assert (Z.of_nat (length ts) ≤ 2 * atomMaxSize b) as Hmax.
    { rewrite Hlen. unfold atomMaxSize in *. rewrite !zmax_max in *.
      face_cases face Hf; unfold atomExchangeCells; simpl; nia. }
    unfold MAXATOMS, sizeof_AtomMsg. specialize (Hle ltac:(
      intros k (t & -> & Ht)%list_elem_of_fmap; apply Hin in Ht as [Hv _];
      destruct (box_index_range b Hwf t Hv); rewrite length_fmap, length_cell by
        (done || (rewrite Hg; simpl; lia));
      apply (cells_wf_occ _ _ _ Hc); rewrite Hg; simpl; lia)). lia.
Qed.

Lemma atomBuffer_fits_witness : returns (loadBuffer ex_atom_halo ex_sim 1) (λ buf, True).
Proof.
  eapply returns_mono; [apply (atomBuffer_fits ex_local_domain ex_boxes ex_atom_halo ex_sim 1)|done].
  - exact ex_boxes_wf.
  - apply get_Ok. vm_compute. reflexivity.
  - by vm_compute.
  - exact ex_cells_wf.
  - reflexivity.
  - lia.
  - right. by vm_compute.
Defined.

(** [maxSize] loses the size of the x planes, because its first value is
    overwritten: when the boxes next to an x face hold more than
    [2 * MAXATOMS * max(size1, size2)] atoms, [loadAtomsBuffer] writes past the end
    of the send buffer, although every box is within [MAXATOMS]. *)
Theorem atomBuffer_overrun d b h s face n l :
  lc_wf b → initAtomHaloExchange d b = Ok h →
  atomMaxSize b * 2 * MAXATOMS * sizeof_AtomMsg ≤ INT_MAX →
  cells_wf (boxes s) (atoms s) → boxes s = set_nAtoms b (nAtoms (boxes s)) → 0 ≤ face < 6 →
  aload (atomExchangeCells b) face = Ok n → mkAtomCellList b face n = Ok l →
  2 * MAXATOMS * atomMaxSize b < Z.of_nat (length (l ≫= λ k, cell (boxes s) (atoms s) (Z.to_nat k))) →
  loadBuffer h s face = Err OutOfBounds.
Proof.
  intros Hwf Hh Hint Hc Hg Hf Hn Hl Hmany.
  destruct (atom_load_spec d b h s face) as (ts & Hnd & Hin & Hlen & ->); [done..|].
  rewrite atomExchangeCells_lookup in Hn by done. injection Hn as <-.
  destruct (mkAtomCellList_spec b face Hwf Hf) as (ts' & Hts' & Hnd' & Hin').
  rewrite Hts' in Hl. injection Hl as <-.
  assert (ts' ≡ₚ ts) as Hp.
  { apply NoDup_Permutation; [done..|]. intros t. by rewrite Hin, Hin'. }
  unfold capped. rewrite (proj2 (Z.leb_gt _ _)); [done|].
  rewrite Hp in Hmany. revert Hmany. generalize (box_index b <$> ts). intros l Hmany.
  assert (length (l ≫= λ k, msg_of (vmap2 fmul (mkPbcFactor d !!! Z.to_nat face)
    (globalExtent (domain s))) <$> cell (boxes s) (atoms s) (Z.to_nat k)) =
    length (l ≫= λ k, cell (boxes s) (atoms s) (Z.to_nat k))) as ->.
  { clear. induction l as [|k l IH]; csimpl; [done|]. by rewrite !length_app, length_fmap, IH. }
  unfold MAXATOMS, sizeof_AtomMsg in *. lia.
Qed.

Lemma atomBuffer_overrun_witness : loadBuffer flat_halo flat_sim 0 = Err OutOfBounds.
Proof.
  apply (atomBuffer_overrun ex_local_domain flat_boxes flat_halo flat_sim 0 50
    (get [] (mkAtomCellList flat_boxes 0 50))).
  - by split.
  - apply get_Ok. vm_compute. reflexivity.
  - by vm_compute.
  - apply cells_wf_check; [by split|by split|vm_compute; reflexivity].
  - reflexivity.
  - lia.
  - reflexivity.
  - apply get_Ok. vm_compute. reflexivity.
  - vm_compute. reflexivity.
Defined.

(** Force data of a rank whose link cells have geometry [b]. *)
Definition force_data_wf (b : LinkCell) (x : ForceExchangeData) : Prop :=
  counts_wf (fd_boxes x) ∧ fd_boxes x = set_nAtoms b (nAtoms (fd_boxes x)) ∧
  length (dfEmbed x) = slot_count b.

(** Every atom of the boxes that are sent is loaded, or the buffer is too short. *)
Lemma force_load_capped d b h x face send :
  lc_wf b → initForceHaloExchange d b = Ok h → forceMaxSize b * MAXATOMS * sizeof_ForceMsg ≤ INT_MAX →
  force_data_wf b x → 0 ≤ face < 6 → (n ← aload (forceExchangeCells b) face; mkForceSendCellList b face n) = Ok send →
  loadBuffer h x face = capped sizeof_ForceMsg (forceMaxSize b * MAXATOMS * sizeof_ForceMsg)
    (send ≫= λ k, slice (fd_boxes x) (dfEmbed x) (Z.to_nat k)).
Proof.
  intros Hwf Hh Hint (Hc & Hg & Hd) Hf Hsend.
  destruct (initForceHaloExchange_spec d b h Hwf Hh Hint) as (pm & Hpm & Hload & _ & Hts).
  destruct (Hts face Hf) as (ts & Hs & Hsl & _). rewrite forceExchangeCells_lookup in Hsend by done. csimpl.
  rewrite ret_bind, Hs in Hsend. injection Hsend as <-.
  assert (0 < forceMaxSize b) as Hpos.
  { unfold forceMaxSize. rewrite !zmax_max. destruct Hwf. nia. }
  rewrite Hload, loadForceBuffer_spec; [|done|by rewrite Hg|by rewrite Hg|done|unfold MAXATOMS, sizeof_ForceMsg; lia].
  by rewrite (list_lookup_total_correct _ _ _ Hsl).
Qed.

(** [maxSize] of the force exchange loses the x planes too: when the boxes next to
    an x face hold more than [MAXATOMS * max(size1, size2)] atoms, [loadForceBuffer]
    writes past the end of the send buffer, although every box is within
    [MAXATOMS]. *)
Theorem forceBuffer_overrun d b h x face send :
  lc_wf b → initForceHaloExchange d b = Ok h → forceMaxSize b * MAXATOMS * sizeof_ForceMsg ≤ INT_MAX →
  force_data_wf b x → 0 ≤ face < 6 → (n ← aload (forceExchangeCells b) face; mkForceSendCellList b face n) = Ok send →
  MAXATOMS * forceMaxSize b < Z.of_nat (length (send ≫= λ k, slice (fd_boxes x) (dfEmbed x) (Z.to_nat k))) →
  loadBuffer h x face = Err OutOfBounds.
Proof.
  intros Hwf Hh Hint Hx Hf Hsend Hmany. rewrite (force_load_capped d b h x face send) by done.
  unfold capped. rewrite (proj2 (Z.leb_gt _ _)); [done|]. unfold MAXATOMS, sizeof_ForceMsg in *. lia.
Qed.

Lemma force_load_eq b h parms x face ts :
  lc_wf b → force_data_wf b x → force_parms_ok parms b →
  loadBuffer h = loadForceBuffer parms (forceMaxSize b * MAXATOMS * sizeof_ForceMsg) →
  sendCells parms !! Z.to_nat face = Some (box_index b <$> ts) →
  Z.of_nat (length ts) = forceExchangeCells b !!! Z.to_nat face →
  (∀ t, t ∈ ts → valid_tuple b t) → 0 ≤ face < 6 →
  2 ≤ face ∨ v1 (gridSize b) * v2 (gridSize b) ≤ forceMaxSize b →
  loadBuffer h x face = Ok (concat ((λ t, slice (fd_boxes x) (dfEmbed x) (Z.to_nat (box_index b t))) <$> ts)).
Proof.
  intros Hwf (Hc & Hg & Hd) Hp Hload Hs Hlen Hin Hf Hsize.
  assert (0 < forceMaxSize b) as Hpos.
  { unfold forceMaxSize. rewrite !zmax_max. destruct Hwf. nia. }
  rewrite Hload, loadForceBuffer_spec; [|done|by rewrite Hg|by rewrite Hg|done|
    unfold MAXATOMS, sizeof_ForceMsg; lia].
  rewrite (list_lookup_total_correct _ _ _ Hs).
  assert (((box_index b <$> ts) ≫= λ k, slice (fd_boxes x) (dfEmbed x) (Z.to_nat k)) =
    concat ((λ t, slice (fd_boxes x) (dfEmbed x) (Z.to_nat (box_index b t))) <$> ts)) as <-.
  { clear. induction ts as [|t ts IH]; csimpl; [done|]. by rewrite IH. }
  unfold capped. rewrite (proj2 (Z.leb_le _ _)); [done|].
  pose proof (length_bind_le (λ k, slice (fd_boxes x) (dfEmbed x) (Z.to_nat k)) (box_index b <$> ts) 64) as Hle.
  rewrite length_fmap in Hle. specialize (Hle ltac:(
    intros k (t & -> & Ht)%list_elem_of_fmap; specialize (Hin t Ht);
    destruct (box_index_range b Hwf t Hin); unfold slice; rewrite length_take;
    destruct (counts_bounds (fd_boxes x) (box_index b t) Hc) as (_ & _ & ?); [by rewrite Hg|lia])).
  assert (Z.of_nat (length ts) ≤ forceMaxSize b) as Hmax.
  { rewrite Hlen. unfold forceMaxSize in *. rewrite !zmax_max in *.
    face_cases face Hf; unfold forceExchangeCells; simpl; nia. }
  unfold MAXATOMS, sizeof_ForceMsg. lia.
Qed.

(** C40: the force exchange delivers every value to the atom it belongs to, on every
    face but the x faces of a grid whose x planes have more boxes than the buffer
    has room for ([gy * gz > max(size1, size2)], see [forceBuffer_overrun]). If the
    boxes of the receive list hold as many atoms as the boxes of the neighbour
    they mirror, what the neighbour loads for [face] is unloaded on the opposite
    face without error (the final assertion on the number of messages holds), and
    each mirrored box then holds the values of the box it mirrors, in the same
    order. *)
Theorem forceExchange_roundtrip b dA dB hA hB A B face send :
  lc_wf b → initForceHaloExchange dA b = Ok hA → initForceHaloExchange dB b = Ok hB →
  forceMaxSize b * MAXATOMS * sizeof_ForceMsg ≤ INT_MAX →
  force_data_wf b A → force_data_wf b B → 0 ≤ face < 6 →
  2 ≤ face ∨ v1 (gridSize b) * v2 (gridSize b) ≤ forceMaxSize b →
  (n ← aload (forceExchangeCells b) face; mkForceSendCellList b face n) = Ok send →
  (∀ i j t, i ∈ send → getTuple b i = Ok t →
     0 ≤ j < nTotalBoxes b → getTuple b j = Ok (across b face t) →
     occ (fd_boxes B) (Z.to_nat j) = occ (fd_boxes A) (Z.to_nat i)) →
  returns (loadBuffer hA A face) (λ buf,
  returns (unloadBuffer hB B (opposite face) buf) (λ B',
    fd_boxes B' = fd_boxes B ∧
    ∀ i j t, i ∈ send → getTuple b i = Ok t →
      0 ≤ j < nTotalBoxes b → getTuple b j = Ok (across b face t) →
      slice (fd_boxes B') (dfEmbed B') (Z.to_nat j) =
      slice (fd_boxes A) (dfEmbed A) (Z.to_nat i))).
Proof.
  intros Hwf HA HB Hint HwA HwB Hf Hsize Hsend Hocc.
  destruct (initForceHaloExchange_spec dA b hA Hwf HA Hint) as (pA & HpA & HlA & _ & HtsA).
  destruct (initForceHaloExchange_spec dB b hB Hwf HB Hint) as (pB & HpB & _ & HuB & HtsB).
  destruct (HtsA face Hf) as (ts & HsA & HslA & _ & Hlen & Hin).
  destruct (HtsB face Hf) as (ts' & HsB & _ & HrB & _ & Hin').
  rewrite forceExchangeCells_lookup, ret_bind in Hsend by done.
  assert (box_index b <$> ts = send) as <- by congruence.
  assert (ts' = ts) as ->.
  { assert (box_index b <$> ts' = box_index b <$> ts) as He by congruence.
    apply (fmap_inj_on (box_index b)); [|done]. intros x y Hx Hy.
    apply box_index_inj; [done|apply (Hin' x Hx)|apply (Hin y Hy)]. }
  rewrite (force_load_eq b hA pA A face ts); try done; [|intros t Ht; apply (Hin t Ht)].
  cbn [returns]. rewrite HuB.
  destruct (HpB (opposite face)) as (ls & lr & Hls & Hlr & Hn & Hll & Hnd & _ & Hr);
    [by apply opposite_range|].
  rewrite HrB in Hlr. assert (box_index b <$> (across b face <$> ts) = lr) as <- by congruence.
  unfold unloadForceBuffer. pose proof (opposite_range face Hf) as Ho.
  rewrite (aload_lookup _ _ _ (proj1 Ho) Hn), (aload_lookup _ _ _ (proj1 Ho) HrB), !ret_bind.
  rewrite Hll, for_range_list. destruct HwB as (HcB & HgB & HdB).
  eapply returns_bind.
  - apply (unload_cells (fd_boxes B) (box_index b <$> (across b face <$> ts))
      ((λ t, slice (fd_boxes A) (dfEmbed A) (Z.to_nat (box_index b t))) <$> ts)).
    + done.
    + by rewrite HgB.
    + done.
    + by rewrite !length_fmap.
    + rewrite HgB. exact Hr.
    + intros j k v Hk Hv. rewrite !list_lookup_fmap in Hk. rewrite list_lookup_fmap in Hv.
      destruct (ts !! j) as [t|] eqn:Ht; [|done]. cbn [fmap option_fmap option_map] in Hk, Hv.
      assert (k = box_index b (across b face t)) as -> by congruence.
      assert (v = slice (fd_boxes A) (dfEmbed A) (Z.to_nat (box_index b t))) as -> by congruence.
      apply list_elem_of_lookup_2 in Ht. destruct (Hin t Ht) as [Hv1 Hv2].
      destruct (box_index_range b Hwf t Hv1), (box_index_range b Hwf _ Hv2).
      rewrite length_slice.
      * symmetry. apply (Hocc _ _ t); [by apply list_elem_of_fmap_2|by apply getTuple_box_index|done|].
        by apply getTuple_box_index.
      * destruct HwA as (HcA & HgA & HdA).
        destruct (counts_bounds (fd_boxes A) (box_index b t) HcA) as (_ & _ & ?); [by rewrite HgA|].
        rewrite HdA. unfold slot_count, MAXATOMS. lia.
  - intros [d i] (Hi & _ & Hdone & _). cbn [fst snd] in *. subst i. rewrite Z.eqb_refl.
    cbn [cassert mbind res_bind returns fd_boxes dfEmbed]. split; [done|].
    intros i j t (t' & -> & Ht')%list_elem_of_fmap Hti Hj Htj.
    destruct (Hin t' Ht') as [Hv1 Hv2].
    rewrite getTuple_box_index in Hti by done. injection Hti as <-.
    destruct (getTuple_total b Hwf j Hj) as (tj & Htj' & _ & <-). rewrite Htj in Htj'.
    injection Htj' as <-. apply list_elem_of_lookup_1 in Ht' as [q Hq].
    apply (Hdone q); rewrite !list_lookup_fmap, Hq; done.
Qed.

(** One rank exchanging with itself: three values in box 0, mirrored in the halo
    box across the x face. *)
Definition ex_force_data : ForceExchangeData :=
  mkForceData ([fone; ftwo; fhalf] ++ replicate 4093 fzero)
    (set_nAtoms ex_boxes (<[12%nat:=3]> (3 :: replicate 63 0))).

Definition mirror_b (b bB bA : LinkCell) (face : Z) (send : list Z) : bool :=
  forallb (λ i, forallb (λ j,
    match getTuple b i, getTuple b j with
    | Ok t, Ok t' => implb (bool_decide (t' = across b face t))
                       (occ bB (Z.to_nat j) =? occ bA (Z.to_nat i))%nat
    | _, _ => true
    end) (seqZ 0 (nTotalBoxes b))) send.

Lemma mirror_check b bB bA face send :
  mirror_b b bB bA face send = true →
  ∀ i j t, i ∈ send → getTuple b i = Ok t → 0 ≤ j < nTotalBoxes b →
    getTuple b j = Ok (across b face t) → occ bB (Z.to_nat j) = occ bA (Z.to_nat i).
Proof.
  unfold mirror_b. rewrite forallb_forall. intros Hf i j t Hi Ht Hj Htj.
  specialize (Hf i ltac:(by apply list_elem_of_In)). rewrite forallb_forall in Hf.
  specialize (Hf j ltac:(apply list_elem_of_In, elem_of_seqZ; lia)).
  rewrite Ht, Htj, bool_decide_eq_true_2 in Hf by done. by apply Nat.eqb_eq in Hf.
Qed.

Lemma ex_force_data_wf : force_data_wf ex_boxes ex_force_data.
Proof.
  split_and!; [|done|done]. destruct (cells_wf_check (fd_boxes ex_force_data) ex_atoms) as [? _ ?];
    [by split|by split|done|by split].
Qed.

(** Full boxes on a grid of 2 x 6 x 6. *)
Definition thin_boxes : LinkCell :=
  mkLinkCell (V3 2 6 6) 72 184 256 zero3 (V3 ftwo (f64 6) (f64 6)) (V3 fone fone fone) (V3 fone fone fone) (replicate 256 64).
Definition thin_data : ForceExchangeData := mkForceData (replicate 16384 fone) thin_boxes.
Definition thin_halo : HaloExchange ForceExchangeData real_t :=
  get dummy_halo (initForceHaloExchange ex_local_domain thin_boxes).

Lemma forceBuffer_overrun_witness : loadBuffer thin_halo thin_data 0 = Err OutOfBounds.
Proof.
  apply (forceBuffer_overrun ex_local_domain thin_boxes thin_halo thin_data 0 (get [] (mkForceSendCellList thin_boxes 0 36))).
  - by split.
  - apply get_Ok. vm_compute. reflexivity.
  - by vm_compute.
  - split_and!; [|done|by vm_compute]. split; [by split|]. by intros k n [-> _]%lookup_replicate.
  - lia.
  - vm_compute. reflexivity.
  - vm_compute. reflexivity.
Defined.

Lemma forceExchange_roundtrip_witness :
  returns (loadBuffer ex_force_halo ex_force_data 0) (λ buf,
  returns (unloadBuffer ex_force_halo ex_force_data 1 buf) (λ B',
    fd_boxes B' = fd_boxes ex_force_data)).
Proof.
  eapply returns_mono; [apply (forceExchange_roundtrip ex_boxes ex_local_domain ex_local_domain
    ex_force_halo ex_force_halo ex_force_data ex_force_data 0
    (get [] (mkForceSendCellList ex_boxes 0 4)) ex_boxes_wf)|].
  - apply get_Ok. vm_compute. reflexivity.
  - apply get_Ok. vm_compute. reflexivity.
  - by vm_compute.
  - exact ex_force_data_wf.
  - exact ex_force_data_wf.
  - lia.
  - right. by vm_compute.
  - apply get_Ok. vm_compute. reflexivity.
  - apply mirror_check. vm_compute. reflexivity.
  - intros buf Hbuf. eapply returns_mono; [exact Hbuf|]. by intros B' [? _].
Defined.
(** [sortAtomsInCell] puts the atoms of the box in increasing order of their
    identifiers, without losing any, when the identifiers are distinct, and fails
    the assertion of [sortAtomsById] otherwise. Forces and energies stay with
    their slot: only identifier, species, position and momentum are sorted. Other
    boxes do not change. *)
Theorem sortAtomsInCell_correct a b k :
  cells_wf b a → 0 ≤ k < nTotalBoxes b →
  if decide (NoDup (a_gid <$> cell b a (Z.to_nat k))) then
    returns (sortAtomsInCell a b k) (λ a',
      cells_wf b a' ∧
      StronglySorted (λ x y, a_gid x < a_gid y) (cell b a' (Z.to_nat k)) ∧
      plain_msg <$> cell b a' (Z.to_nat k) ≡ₚ plain_msg <$> cell b a (Z.to_nat k) ∧
      af a' = af a ∧ aU a' = aU a ∧ nLocal a' = nLocal a ∧
      ∀ j, (j < Z.to_nat (nTotalBoxes b))%nat → j ≠ Z.to_nat k → cell b a' j = cell b a j)
  else sortAtomsInCell a b k = Err AssertFail.
Proof.
  intros Hc Hk. destruct (cell_bounds b a k Hc Hk) as (Hint & Hld & Ho).
  assert (m_gid <$> (plain_msg <$> cell b a (Z.to_nat k)) = a_gid <$> cell b a (Z.to_nat k)) as Hgid
    by (by rewrite <-list_fmap_compose).
  unfold sortAtomsInCell. rewrite Hld, ret_bind, Hint, ret_bind, collect_cell, ret_bind by done.
  case_decide as Hnd.
  2:{ unfold sortById. rewrite Hgid, bool_decide_eq_false_2 by done. done. }
  destruct (sortById_spec (plain_msg <$> cell b a (Z.to_nat k))) as (l & -> & Hp & Hs);
    [by rewrite Hgid|]. rewrite ret_bind.
  pose proof (Permutation_length Hp) as Hlen. rewrite length_fmap, length_cell in Hlen by (done || lia).
  pose proof Hc as [Hwf Ha Hocc]. rewrite <-Hlen.
  eapply returns_mono; [apply (write_msgs b a k l Ha Hwf Hk); lia|].
  intros a' (Ha' & Hn & Hg & Haf & HaU & Hsl).
  assert (cells_wf b a') as Hc' by done.
  assert (plain_msg <$> cell b a' (Z.to_nat k) = l) as Hcell.
  { apply list_eq. intros m. rewrite list_lookup_fmap, cell_lookup, Hsl, <-Hlen.
    destruct (decide (m < length l)%nat) as [Hm|Hm].
    - rewrite decide_True by lia.
      destruct (lookup_lt_is_Some_2 (slots a) (64 * Z.to_nat k + m)) as [x Hx].
      { rewrite (length_slots b a Ha). unfold slot_count, MAXATOMS. lia. }
      replace (64 * Z.to_nat k + m - 64 * Z.to_nat k)%nat with m by lia.
      destruct (lookup_lt_is_Some_2 l m Hm) as [y Hy]. rewrite Hx, Hy. by destruct y.
    - symmetry. apply lookup_ge_None_2. lia. }
  split_and!; try done.
  - rewrite <-Hcell in Hs. clear -Hs. remember (plain_msg <$> cell b a' (Z.to_nat k)) as ms eqn:He.
    revert He. generalize (cell b a' (Z.to_nat k)). induction Hs as [|m ms Hs IH Hf]; intros [|x c]; csimpl;
      try done; [constructor|]. intros He. assert (m = plain_msg x ∧ ms = plain_msg <$> c) as [-> ->] by (split; congruence).
    constructor; [by apply IH|]. rewrite Forall_fmap in Hf. done.
  - by rewrite Hcell.
  - intros j Hj Hjk. apply cell_ext; [done|]. intros q Hq. rewrite Hsl, decide_False; [done|].
    destruct (cells_wf_occ b a j Hc Hj). lia.
Qed.

Lemma sortAtomsInCell_correct_witness :
  returns (sortAtomsInCell ex_atoms ex_cells 0) (λ a',
    StronglySorted (λ x y, a_gid x < a_gid y) (cell ex_cells a' 0)).
Proof.
  pose proof (sortAtomsInCell_correct ex_atoms ex_cells 0 ex_cells_wf ltac:(by vm_compute)) as Hs.
  rewrite decide_True in Hs.
  - eapply returns_mono; [exact Hs|]. by intros a' (_ & ? & _).
  - apply (bool_decide_unpack (NoDup (a_gid <$> cell ex_cells ex_atoms 0))). vm_compute. exact I.
Defined.

(** [unloadAtomsBuffer] puts every atom received into the box
    [getBoxFromCoord] gives for its position, in the order received, behind the
    atoms already there, when the boxes have room; atoms already stored do not
    move, none is lost, and forces and energies are not part of a message. *)
Theorem unloadAtomsBuffer_correct s face buf :
  cells_wf (boxes s) (atoms s) →
  (∀ m, m ∈ buf → ∃ k, getBoxFromCoord (boxes s) (m_r m) = Ok (Z.of_nat k)) →
  (∀ k, (k < Z.to_nat (nTotalBoxes (boxes s)))%nat →
     (length (cell (boxes s) (atoms s) k) + length (boxed (boxes s) k buf) ≤ 64)%nat) →
  returns (unloadAtomsBuffer s face buf) (λ s',
    cells_wf (boxes s') (atoms s') ∧ s' = set_cells s (boxes s', atoms s') ∧
    ∀ k, (k < Z.to_nat (nTotalBoxes (boxes s)))%nat →
      plain_msg <$> cell (boxes s') (atoms s') k =
        (plain_msg <$> cell (boxes s) (atoms s) k) ++
        filter (λ m, getBoxFromCoord (boxes s) (m_r m) = Ok (Z.of_nat k)) buf).
Proof.
  intros Hc Hbox Hroom.
  eapply returns_mono; [apply (unloadAtomsBuffer_spec s face buf Hc Hbox)|].
  - intros k Hk. rewrite <-(length_cell _ _ _ Hc Hk). by apply Hroom.
  - intros s' (? & ? & _ & Hk). split_and!; [done..|]. intros k Hlt. rewrite (Hk k Hlt). done.
Qed.

Lemma unloadAtomsBuffer_correct_witness :
  returns (unloadAtomsBuffer ex_sim 0 [mkAtomMsg 21 0 (V3 fhalf fhalf (flit 3 2)) zero3]) (λ s',
    cells_wf (boxes s') (atoms s')).
Proof.
  eapply returns_mono; [apply (unloadAtomsBuffer_correct ex_sim 0 _ ex_cells_wf)|].
  - intros m ->%list_elem_of_singleton. exists 4%nat. vm_compute. reflexivity.
  - intros k Hk. rewrite length_cell by (exact ex_cells_wf || exact Hk).
    assert (length (boxed (boxes ex_sim) k [mkAtomMsg 21 0 (V3 fhalf fhalf (flit 3 2)) zero3]) ≤ 1)%nat
      as H1 by (apply length_filter).
    assert (occ (boxes ex_sim) k ≤ 3)%nat; [|lia].
    destruct k as [|k]; [vm_compute; lia|]. unfold occ.
    change (nAtoms (boxes ex_sim)) with (3 :: replicate 63 0). change (Z.to_nat (nTotalBoxes (boxes ex_sim))) with 64%nat in Hk.
    rewrite lookup_total_cons_ne_0 by done. simpl pred.
    rewrite list_lookup_total_alt, lookup_replicate_2 by lia. simpl. lia.
  - by intros s' [? _].
Defined.
