(* ===== verification/Cd.v ===== *)
(** * Cd: the containment-domain calls of the applications (cd_capi.h)

    The applications drive the runtime through the C interface: they create a
    child of the current containment domain, begin it, preserve data in it,
    detect errors, complete it and destroy it. A function that calls the
    runtime is modelled with the list of its calls, in order. The file defines
    these events, the life cycle every sequence of calls has to follow
    ([cd_run]), and the sizes in bytes of the structures the applications
    preserve (an LP64 machine). *)

From Stdlib Require Import ZArith Lia String.
From stdpp Require Import base list numbers strings.
From S2P Require Import Prelude.

(** [knob]: by copy, by reference to an ancestor's copy, as output. *)
Inductive cd_kind := kCopy | kRef | kOutput.

(** The allocated objects the applications preserve parts of. *)
Inductive obj :=
  | ObjSim | ObjDomain | ObjLinkCell | ObjNAtoms
  | ObjAtoms | ObjGid | ObjISpecies | ObjR | ObjP | ObjF | ObjU
  | ObjSpecies | ObjLjPot | ObjEamPot | ObjRhobar | ObjDfEmbed
  | ObjTable (k : Z) | ObjValues (k : Z)
  | ObjHalo | ObjAtomParms | ObjCellList (face : Z) | ObjPbcFactor (face : Z)
  | ObjForceParms | ObjForceData
  | ObjVar (name : string).

#[export] Instance cd_kind_eq_dec : EqDecision cd_kind.
Proof. solve_decision. Defined.
#[export] Instance obj_eq_dec : EqDecision obj.
Proof. solve_decision. Defined.

(** A preserved region: [e_len] bytes from byte [e_off] of an object. *)
Record entry := mkEntry {
  e_obj : obj;
  e_off : Z;
  e_len : Z;
  e_kind : cd_kind;
  e_name : string;
}.

#[export] Instance entry_eq_dec : EqDecision entry.
Proof. solve_decision. Defined.

(** Calls of the runtime; a handle is named by its level in the hierarchy.
    Timer calls are events too, so that their order is visible. *)
Inductive event :=
  | CdCreate (level : Z) (name : string)
  | CdBegin (level : Z) (label : string)
  | CdPreserve (level : Z) (e : entry)
  | CdDetect (level : Z)
  | CdComplete (level : Z)
  | CdDestroy (level : Z)
  | TimerStart (timer : string)
  | TimerStop (timer : string).

Definition preserve (level : Z) (o : obj) (off len : Z) (k : cd_kind) (name : string) : event :=
  CdPreserve level (mkEntry o off len k name).

(** ** The life cycle

    The open handles, innermost first; [true] for a handle that has begun and not
    completed. The level of a handle is its depth. *)
Definition cd_step (st : list bool) (e : event) : option (list bool) :=
  let depth := Z.of_nat (length st) in
  match e with
  | CdCreate l _ =>
      match st with
      | true :: _ => if l =? depth then Some (false :: st) else None
      | _ => None
      end
  | CdBegin l _ =>
      match st with
      | false :: st' => if l =? depth - 1 then Some (true :: st') else None
      | _ => None
      end
  | CdPreserve l _ | CdDetect l =>
      match st with
      | true :: _ => if l =? depth - 1 then Some st else None
      | _ => None
      end
  | CdComplete l =>
      match st with
      | true :: st' => if l =? depth - 1 then Some (false :: st') else None
      | _ => None
      end
  | CdDestroy l =>
      match st with
      | false :: st' => if l =? depth - 1 then Some st' else None
      | _ => None
      end
  | TimerStart _ | TimerStop _ => Some st
  end.

Fixpoint cd_run (st : list bool) (log : list event) : option (list bool) :=
  match log with
  | [] => Some st
  | e :: log => match cd_step st e with Some st => cd_run st log | None => None end
  end.

Lemma cd_run_app st l1 l2 :
  cd_run st (l1 ++ l2) = match cd_run st l1 with Some st => cd_run st l2 | None => None end.
Proof.
  revert st. induction l1 as [|e l1 IH]; intros st; simpl; [done|].
  by destruct (cd_step st e).
Qed.

Lemma cd_run_cons st e l :
  cd_run st (e :: l) = match cd_run st [e] with Some st => cd_run st l | None => None end.
Proof. apply (cd_run_app st [e]). Qed.

(** A log that leaves the open handles as they were. *)
Definition keeps (st : list bool) (log : list event) : Prop := cd_run st log = Some st.

Lemma keeps_nil st : keeps st [].
Proof. done. Qed.

Lemma keeps_app st l1 l2 : keeps st l1 → keeps st l2 → keeps st (l1 ++ l2).
Proof. unfold keeps. intros H1 H2. by rewrite cd_run_app, H1. Qed.

(** Preserving in the innermost begun handle. *)
Lemma keeps_preserves st l :
  Forall (λ e, ∃ en, e = CdPreserve (Z.of_nat (length st)) en) l → keeps (true :: st) l.
Proof.
  unfold keeps. induction 1 as [|e l (en & ->) _ IH]; [done|].
  cbn [cd_run cd_step length]. rewrite Nat2Z.inj_succ.
  by rewrite (proj2 (Z.eqb_eq _ _)) by lia.
Qed.

#[export] Hint Resolve keeps_nil keeps_app : cspec.

Lemma run_begin l name st :
  l = Z.of_nat (length st) → cd_run (false :: st) [CdBegin l name] = Some (true :: st).
Proof.
  intros ->. cbn [cd_run cd_step length]. rewrite Nat2Z.inj_succ.
  by rewrite (proj2 (Z.eqb_eq _ _)) by lia.
Qed.

Lemma run_end l st :
  l = Z.of_nat (length st) → cd_run (true :: st) [CdDetect l; CdComplete l] = Some (false :: st).
Proof.
  intros ->. cbn [cd_run cd_step length]. rewrite Nat2Z.inj_succ.
  rewrite (proj2 (Z.eqb_eq _ _)) by lia. cbn [cd_run cd_step length]. rewrite Nat2Z.inj_succ.
  by rewrite (proj2 (Z.eqb_eq _ _)) by lia.
Qed.

Lemma run_create l name st :
  l = Z.of_nat (length st) + 1 →
  cd_run (true :: st) [CdCreate l name] = Some (false :: true :: st).
Proof.
  intros ->. cbn [cd_run cd_step length]. rewrite Nat2Z.inj_succ.
  by rewrite (proj2 (Z.eqb_eq _ _)) by lia.
Qed.

Lemma run_destroy l st :
  l = Z.of_nat (length st) → cd_run (false :: st) [CdDestroy l] = Some st.
Proof.
  intros ->. cbn [cd_run cd_step length]. rewrite Nat2Z.inj_succ.
  by rewrite (proj2 (Z.eqb_eq _ _)) by lia.
Qed.

(** ** Sizes *)

Definition sizeof_int : Z := 4.
Definition sizeof_ptr : Z := 8.
Definition sizeof_real : Z := 8.
Definition sizeof_real3 : Z := 24.
Definition sizeof_Domain : Z := 168.
Definition sizeof_LinkCell : Z := 128.
Definition sizeof_Atoms : Z := 56.
Definition sizeof_SpeciesData : Z := 16.
Definition sizeof_LjPotential : Z := 80.
Definition sizeof_EamPotential : Z := 120.
Definition sizeof_InterpolationObject : Z := 32.
Definition sizeof_HaloExchange : Z := 64.
Definition sizeof_AtomExchangeParms : Z := 120.
Definition sizeof_ForceExchangeParms : Z := 120.
Definition sizeof_ForceExchangeData : Z := 16.
Definition sizeof_SimFlat : Z := 104.

(** Offsets of the members of [LinkCell] preserved on their own. *)
Definition off_nLocalBoxes : Z := 12.
Definition off_nTotalBoxes : Z := 20.
Definition off_nAtoms : Z := 120.

(** The bytes preserved by a list of events. *)
Definition event_len (e : event) : Z :=
  match e with CdPreserve _ en => e_len en | _ => 0 end.
Definition preserved_bytes (l : list event) : Z := foldr (λ e n, event_len e + n) 0 l.

Lemma preserved_bytes_app l1 l2 :
  preserved_bytes (l1 ++ l2) = preserved_bytes l1 + preserved_bytes l2.
Proof. induction l1 as [|e l1 IH]; simpl; [done|]. rewrite IH. lia. Qed.

(** Some event preserves the bytes [lo .. hi - 1] of an object. *)
Definition covers (l : list event) (o : obj) (lo hi : Z) : Prop :=
  ∃ level en, CdPreserve level en ∈ l ∧ e_obj en = o ∧
    e_off en ≤ lo ∧ hi ≤ e_off en + e_len en.

Lemma covers_nil o lo hi : covers [] o lo hi ↔ False.
Proof. split; [|done]. by intros (? & ? & ?%elem_of_nil & _). Qed.

Lemma covers_app l1 l2 o lo hi : covers (l1 ++ l2) o lo hi ↔ covers l1 o lo hi ∨ covers l2 o lo hi.
Proof. unfold covers. setoid_rewrite elem_of_app. naive_solver. Qed.

Lemma covers_cons level o' off len k name l o lo hi :
  covers (preserve level o' off len k name :: l) o lo hi ↔
  (o' = o ∧ off ≤ lo ∧ hi ≤ off + len) ∨ covers l o lo hi.
Proof.
  unfold covers. setoid_rewrite elem_of_cons. split.
  - intros (lv & en & [He|Hin] & Ho & H1 & H2); [left|right; eauto 10].
    unfold preserve in He. injection He as -> ->. done.
  - intros [(Ho & H1 & H2)|(lv & en & Hin & Ho & H1 & H2)]; [|eauto 10].
    exists level. eexists. split; [left; reflexivity|]. done.
Qed.

Lemma covers_if (c : bool) level o' off len k name o lo hi :
  covers (if c then [preserve level o' off len k name] else []) o lo hi ↔
  c = true ∧ o' = o ∧ off ≤ lo ∧ hi ≤ off + len.
Proof. destruct c; rewrite ?covers_cons, ?covers_nil; naive_solver. Qed.

(** Simplifies [covers] on explicit lists of events. *)
Ltac covers_simpl :=
  repeat first [rewrite covers_app | rewrite covers_cons | rewrite covers_if | rewrite covers_nil];
  rewrite ?Z.eqb_eq.

(** Proves a disjunction of covering regions by finding the one that covers. *)
Ltac covers_pick :=
  first [split_and!; [reflexivity|lia|lia] | left; covers_pick | right; covers_pick].

(** ** Blocks *)

(** Only preservation calls on one handle. *)
Definition preserves_at (l : Z) (evs : list event) : Prop :=
  Forall (λ e, ∃ en, e = CdPreserve l en) evs.

Lemma preserves_at_app l e1 e2 : preserves_at l e1 → preserves_at l e2 → preserves_at l (e1 ++ e2).
Proof. apply Forall_app_2. Qed.

Lemma preserves_at_preserve l o off len k name : preserves_at l [preserve l o off len k name].
Proof. repeat constructor. by eexists. Qed.

Lemma preserves_keeps l st evs :
  l = Z.of_nat (length st) → preserves_at l evs → keeps (true :: st) evs.
Proof. intros ->. apply keeps_preserves. Qed.

Lemma keeps_timer st t : keeps st [TimerStart t; TimerStop t].
Proof. done. Qed.

(** Begin, work that leaves the open handles alone, detect, complete. *)
Lemma keeps_block l name st evs :
  l = Z.of_nat (length st) → keeps (true :: st) evs →
  keeps (false :: st) (CdBegin l name :: evs ++ [CdDetect l; CdComplete l]).
Proof.
  intros Hl He. unfold keeps in *.
  by rewrite cd_run_cons, run_begin, cd_run_app, He, run_end by done.
Qed.

(** Create a child, use it, destroy it. *)
Lemma keeps_child l name st evs :
  l = Z.of_nat (length st) + 1 → keeps (false :: true :: st) evs →
  keeps (true :: st) (CdCreate l name :: evs ++ [CdDestroy l]).
Proof.
  intros Hl He. unfold keeps in *.
  rewrite cd_run_cons, run_create, cd_run_app, He by done.
  apply run_destroy. simpl. lia.
Qed.

(** The labels begun at one level, in order. *)
Definition labels (l : Z) (log : list event) : list string :=
  omap (λ e, match e with
             | CdBegin l' s => if l' =? l then Some s else None
             | _ => None
             end) log.

Lemma labels_app l e1 e2 : labels l (e1 ++ e2) = labels l e1 ++ labels l e2.
Proof. apply omap_app. Qed.

Lemma labels_preserves l l' evs : preserves_at l evs → labels l' evs = [].
Proof. induction 1 as [|e evs (en & ->) _ IH]; [done|exact IH]. Qed.
