(* ===== verification/CdComd.v ===== *)
(** * CdComd: what CoMD preserves (cd_comd.c)

    One definition per function of cd_comd.c, compiled with DO_PRV: the calls of
    [cd_preserve] it makes, in order, and the size it returns. The arguments the
    C code only uses as addresses are omitted: an address is the object and the
    offset in the entry. Sizes are computed in [uint32_t] as in the code. *)

From Stdlib Require Import ZArith Lia String.
From stdpp Require Import base list numbers sets strings.
From S2P Require Import Prelude Float64 Parallel Decomposition LinkCells Atoms CoMDTypes HaloExchange Cd.

(** [preserveDomain]. *)
Definition preserveDomain (cdh : Z) (knob : cd_kind) : list event * Z :=
  ([preserve cdh ObjDomain 0 sizeof_Domain knob "Domain"], sizeof_Domain).

(** [preserveLinkCell]: [is_local] is 0 for all boxes, 1 for the local ones, 2 for
    the halo ones. *)
Definition preserveLinkCell (cdh : Z) (knob : cd_kind) (linkcell : LinkCell)
    (is_all is_nAtoms is_local is_nLocalBoxes is_nTotalBoxes : Z) : res (list event * Z) :=
  let size := sizeof_LinkCell in
  let nAtoms_size :=
    if is_local =? 1 then u32 (nLocalBoxes linkcell * sizeof_int)
    else if is_local =? 0 then u32 (nTotalBoxes linkcell * sizeof_int)
    else if is_local =? 2 then u32 ((nTotalBoxes linkcell - nLocalBoxes linkcell - 1) * sizeof_int)
    else 0 in
  '(ev1, size) ←
    (if negb (is_all =? 0) then
       _ ← cassert (is_nAtoms =? 0);
       _ ← cassert (is_local =? 0);
       _ ← cassert (is_nLocalBoxes =? 0);
       _ ← cassert (is_nTotalBoxes =? 0);
       _ ← cassert (0 <? size);
       let ev := [preserve cdh ObjLinkCell 0 size knob "LinkCell"] in
       let size := u32 (size + sizeof_LinkCell) in
       _ ← cassert (0 <? nAtoms_size);
       Ok (ev ++ [preserve cdh ObjNAtoms 0 nAtoms_size knob "LinkCell_nAtoms"],
           u32 (size + nAtoms_size))
     else Ok ([], size));
  '(ev2, size) ←
    (if negb (is_nAtoms =? 0) then
       _ ← cassert (is_all =? 0);
       let ptr := preserve cdh ObjLinkCell off_nAtoms sizeof_ptr knob "LinkCell_nAtoms_ptr" in
       let ev :=
         if (is_local =? 1) || (is_local =? 0) then
           [ptr; preserve cdh ObjNAtoms 0 nAtoms_size knob "LinkCell_nAtoms"]
         else if is_local =? 2 then
           [ptr; preserve cdh ObjNAtoms (nLocalBoxes linkcell * sizeof_int) nAtoms_size knob
                   "LinkCell_nAtoms"]
         else [] in
       Ok (ev, u32 (u32 (size + nAtoms_size) + sizeof_ptr))
     else Ok ([], size));
  '(ev3, size) ←
    (if negb (is_nLocalBoxes =? 0) then
       _ ← cassert (is_all =? 0);
       Ok ([preserve cdh ObjLinkCell off_nLocalBoxes sizeof_int knob "LinkCell_nLocalBoxes"],
           u32 (size + sizeof_int))
     else Ok ([], size));
  '(ev4, size) ←
    (if negb (is_nTotalBoxes =? 0) then
       _ ← cassert (is_all =? 0);
       Ok ([preserve cdh ObjLinkCell off_nTotalBoxes sizeof_int knob "LinkCell_nTotalBoxes"],
           u32 (size + sizeof_int))
     else Ok ([], size));
  Ok (ev1 ++ ev2 ++ ev3 ++ ev4, size).

(** [preserveAtoms]: [nBoxes] is the parameter the code calls [nTotalBoxes], the
    number of boxes to preserve. *)
Definition preserveAtoms (cdh : Z) (knob : cd_kind) (nBoxes : Z)
    (is_all is_gid is_r is_p is_f is_U is_iSpecies from to : Z) (idx : option string)
    : res (list event * Z) :=
  let maxTotalAtoms := u32 (MAXATOMS * nBoxes) in
  let prvStartIdx := u32 (MAXATOMS * from) in
  szPreservedAtoms ←
    (if to =? -1 then
       _ ← cassert (from =? 0);
       Ok maxTotalAtoms
     else if 1 <=? to then Ok (u32 (MAXATOMS * (to - from + 1)))
     else Ok 0);
  let atoms_size := sizeof_Atoms in
  let gid_size := u32 (szPreservedAtoms * sizeof_int) in
  let iSpecies_size := u32 (szPreservedAtoms * sizeof_int) in
  let r_size := u32 (szPreservedAtoms * sizeof_real3) in
  let p_size := u32 (szPreservedAtoms * sizeof_real3) in
  let f_size := u32 (szPreservedAtoms * sizeof_real3) in
  let U_size := u32 (szPreservedAtoms * sizeof_real) in
  let named s := match idx with None => s | Some i => String.append s i end in
  if negb (is_all =? 0) then
    _ ← cassert (is_gid =? 0);
    _ ← cassert (is_iSpecies =? 0);
    _ ← cassert (is_r =? 0);
    _ ← cassert (is_p =? 0);
    _ ← cassert (is_f =? 0);
    _ ← cassert (is_U =? 0);
    _ ← cassert (from =? 0);
    _ ← cassert (to =? -1);
    Ok ([preserve cdh ObjAtoms 0 atoms_size knob "Atoms";
         preserve cdh ObjGid 0 gid_size knob "Atoms_gid";
         preserve cdh ObjISpecies 0 iSpecies_size knob "Atoms_iSpecies";
         preserve cdh ObjR 0 r_size knob "Atoms_r";
         preserve cdh ObjP 0 p_size knob "Atoms_p";
         preserve cdh ObjF 0 f_size knob "Atoms_f";
         preserve cdh ObjU 0 U_size knob "Atoms_U"],
        u32 (atoms_size + gid_size + iSpecies_size + r_size + p_size + f_size + U_size))
  else
    let part (flag : Z) (o : obj) (eltsize len : Z) (name : string) : list event * Z :=
      if flag =? 1
      then ([preserve cdh o (eltsize * prvStartIdx) len knob (named name)], len)
      else ([], 0) in
    let parts :=
      [part is_gid ObjGid sizeof_int gid_size "Atoms_gid";
       part is_iSpecies ObjISpecies sizeof_int iSpecies_size "Atoms_iSpecies";
       part is_r ObjR sizeof_real3 r_size "Atoms_r";
       part is_p ObjP sizeof_real3 p_size "Atoms_p";
       part is_f ObjF sizeof_real3 f_size "Atoms_f";
       part is_U ObjU sizeof_real U_size "Atoms_U"] in
    Ok (preserve cdh ObjAtoms 0 atoms_size knob (named "Atoms") :: (parts ≫= fst),
        foldl (λ size p, u32 (size + p.2)) 0 parts).

(** [preserveSpeciesData], [preserveLjPot]. *)
Definition preserveSpeciesData (cdh : Z) (knob : cd_kind) : list event * Z :=
  ([preserve cdh ObjSpecies 0 sizeof_SpeciesData knob "SpeciesData"], sizeof_SpeciesData).

Definition preserveLjPot (cdh : Z) (knob : cd_kind) : list event * Z :=
  ([preserve cdh ObjLjPot 0 sizeof_LjPotential knob "LjPotential"], sizeof_LjPotential).

(** [preserveInterpolationObject] on table [k] of the potential. *)
Definition preserveInterpolationObject (cdh : Z) (knob : cd_kind) (k : Z)
    (t : InterpolationObject) : list event * Z :=
  let size := sizeof_InterpolationObject in
  let values_size := u32 ((tn t + 3) * sizeof_real) in
  ([preserve cdh (ObjTable k) 0 size knob "InterpolationObject";
    preserve cdh (ObjValues k) 0 values_size knob "InterpolationObject_value"],
   u32 (size + values_size)).

(** [preserveForceData]: [dfEmbed] and [boxes] are pointers. *)
Definition preserveForceData (cdh : Z) (knob : cd_kind) : list event * Z :=
  let size := sizeof_ForceExchangeData in
  let dfEmbed_size := sizeof_ptr in
  let boxes_size := sizeof_ptr in
  ([preserve cdh ObjForceData 0 size knob "ForceExchangeData";
    preserve cdh ObjDfEmbed 0 dfEmbed_size knob "ForceExchangeData_dfEmbed";
    preserve cdh ObjLinkCell 0 boxes_size knob "ForceExchangeData_boxes"],
   u32 (size + (dfEmbed_size + boxes_size))).

(** [preserveEamPot]: [rhobar] and [dfEmbed] are preserved with [size], not with
    the sizes computed for them. *)
Definition preserveEamPot (cdh : Z) (knob : cd_kind) (doeam nTotalBoxes : Z)
    (phi rho f : InterpolationObject) : res (list event * Z) :=
  _ ← cassert (negb (doeam =? 0));
  let size := sizeof_EamPotential in
  let ev := [preserve cdh ObjEamPot 0 size knob "EamPotential"] in
  let maxTotalAtoms := u32 (MAXATOMS * nTotalBoxes) in
  let rhobar_size := u32 (maxTotalAtoms * sizeof_real) in
  let ev := ev ++ [preserve cdh ObjRhobar 0 size knob "EamPotential_rhobar"] in
  let dfEmbed_size := u32 (maxTotalAtoms * sizeof_real) in
  let ev := ev ++ [preserve cdh ObjDfEmbed 0 size knob "EamPotential_dfEmbed"] in
  let size := u32 (size + (rhobar_size + dfEmbed_size)) in
  let '(e1, n1) := preserveInterpolationObject cdh knob 0 phi in
  let '(e2, n2) := preserveInterpolationObject cdh knob 1 rho in
  let '(e3, n3) := preserveInterpolationObject cdh knob 2 f in
  let '(e4, n4) := preserveForceData cdh knob in
  Ok (ev ++ e1 ++ e2 ++ e3 ++ e4, u32 (u32 (u32 (u32 (size + n1) + n2) + n3) + n4)).

(** The digit the code appends to a name. *)
Definition digit (i : Z) : string :=
  nth (Z.to_nat i) ["0"; "1"; "2"; "3"; "4"; "5"] "".

(** [preserveHaloAtom]: [nCells] are the counts of [xchange_parms]. *)
Definition preserveHaloAtom (cdh : Z) (knob : cd_kind) (nCells : list Z)
    (is_cellList is_pbcFactor : Z) : res (list event * Z) :=
  let '(ev1, size) :=
    if (is_cellList =? 1) && (is_pbcFactor =? 1) then
      ([preserve cdh ObjAtomParms 0 sizeof_AtomExchangeParms knob "AtomExchangeParms"],
       sizeof_AtomExchangeParms)
    else ([], 0) in
  '(ev2, cellList_size) ←
    (if is_cellList =? 1 then
       total ← for_range 0 6 (λ i n, c ← aload nCells i; Ok (u32 (n + c * sizeof_int))) 0;
       evs ← for_range 0 6 (λ i evs,
         c ← aload nCells i;
         Ok (evs ++ [preserve cdh (ObjCellList i) 0 (c * sizeof_int) knob
                       (String.append "AtomExchangeParms_cellList" (digit i))])) [];
       Ok (evs, total)
     else Ok ([], 0));
  let pbcFactor_size := 3 * sizeof_real in
  let ev3 :=
    if is_pbcFactor =? 1 then
      (λ i, preserve cdh (ObjPbcFactor i) 0 pbcFactor_size knob
              (String.append "AtomExchangeParms_pbcFactor" (digit i))) <$> [0; 1; 2; 3; 4; 5]
    else [] in
  Ok (ev1 ++ ev2 ++ ev3, u32 (u32 (size + cellList_size) + pbcFactor_size)).

(** [preserveHaloForce]: [sendCells] and [recvCells] are the arrays of six
    pointers inside the structure, at bytes 24 and 72. *)
Definition preserveHaloForce (cdh : Z) (knob : cd_kind) (doeam : Z) (nCells : list Z)
    : res (list event * Z) :=
  _ ← cassert (negb (doeam =? 0));
  let size := sizeof_ForceExchangeParms in
  buffer_size ← for_range 0 6 (λ i n, c ← aload nCells i; Ok (u32 (n + c * sizeof_int))) 0;
  Ok ([preserve cdh ObjForceParms 0 size knob "ForceExchangeParms";
       preserve cdh ObjForceParms 24 buffer_size knob "ForceExchangeParms_sendCells";
       preserve cdh ObjForceParms 72 buffer_size knob "ForceExchangeParms_recvCells"],
      u32 (u32 (size + buffer_size) + buffer_size)).

(** [preserveHaloExchange] on an exchange whose counts are [nCells]. *)
Definition preserveHaloExchange (cdh : Z) (knob : cd_kind) (doeam : Z) (nCells : list Z)
    (is_force : Z) : res (list event * Z) :=
  let size := sizeof_HaloExchange in
  let ev := [preserve cdh ObjHalo 0 size knob "HaloExchange"] in
  '(ev2, n) ← (if negb (is_force =? 0) then preserveHaloForce cdh knob doeam nCells
               else preserveHaloAtom cdh knob nCells 1 1);
  Ok (ev ++ ev2, u32 (size + n)).

(** [preserveSimFlat]: the call that would preserve [*sim] itself is commented
    out. [tables] are the tables of the EAM potential, [nCells] the counts of
    [sim->atomExchange]. *)
Definition preserveSimFlat (cdh : Z) (knob : cd_kind) (sim : SimFlat)
    (tables : InterpolationObject * InterpolationObject * InterpolationObject)
    (nCells : list Z) : res (list event * Z) :=
  let size := sizeof_SimFlat in
  let '(e1, n1) := preserveDomain cdh knob in
  '(e2, n2) ← preserveLinkCell cdh knob (boxes sim) 1 0 0 0 0;
  '(e3, n3) ← preserveAtoms cdh knob (nTotalBoxes (boxes sim)) 1 0 0 0 0 0 0 0 (-1) None;
  let '(e4, n4) := preserveSpeciesData cdh knob in
  '(e5, n5) ←
    (if negb (doeam sim =? 0) then
       '(ev, n) ← preserveEamPot cdh knob (doeam sim) (nTotalBoxes (boxes sim))
                    tables.1.1 tables.1.2 tables.2;
       '(ev', n') ← preserveHaloExchange cdh knob (doeam sim) nCells 1;
       Ok (ev ++ ev', u32 (n + n'))
     else
       let '(ev, n) := preserveLjPot cdh knob in
       '(ev', n') ← preserveHaloExchange cdh knob (doeam sim) nCells 0;
       Ok (ev ++ ev', u32 (n + n')));
  Ok (e1 ++ e2 ++ e3 ++ e4 ++ e5,
      u32 (u32 (u32 (u32 (u32 (size + n1) + n2) + n3) + n4) + n5)).

(** ** Every event is a preservation call on the given handle *)

Ltac only_preserves :=
  unfold preserves_at in *;
  repeat first [apply Forall_app; split | apply Forall_nil; done | apply Forall_cons; split];
  try (by eexists).

Lemma preserveAtoms_only cdh knob nBoxes al g r p f U sp from to idx evs n :
  preserveAtoms cdh knob nBoxes al g r p f U sp from to idx = Ok (evs, n) → preserves_at cdh evs.
Proof.
  unfold preserveAtoms. intros H. apply bind_Ok in H as (sz & _ & H).
  destruct (negb (al =? 0)).
  - repeat (apply bind_Ok in H as (? & _ & H)). injection H as <- _. only_preserves.
  - injection H as <- _. unfold preserves_at. apply Forall_cons. split; [by eexists|].
    repeat (apply Forall_app; split); try apply Forall_nil; try done;
      (match goal with |- context [if ?c then _ else _] => destruct c end); only_preserves.
Qed.

Lemma preserveLinkCell_only cdh knob b al na loc nl nt evs n :
  preserveLinkCell cdh knob b al na loc nl nt = Ok (evs, n) → preserves_at cdh evs.
Proof.
  unfold preserveLinkCell. intros H.
  apply bind_Ok in H as ([e1 s1] & H1 & H). apply bind_Ok in H as ([e2 s2] & H2 & H).
  apply bind_Ok in H as ([e3 s3] & H3 & H). apply bind_Ok in H as ([e4 s4] & H4 & H).
  injection H as <- _. repeat apply preserves_at_app.
  - destruct (negb (al =? 0)); res_inv; only_preserves.
  - destruct (negb (na =? 0)); res_inv; [|only_preserves].
    repeat (match goal with |- context [if ?c then _ else _] => destruct c end); only_preserves.
  - destruct (negb (nl =? 0)); res_inv; only_preserves.
  - destruct (negb (nt =? 0)); res_inv; only_preserves.
Qed.

Lemma preserveHaloAtom_only cdh knob nCells c p evs n :
  preserveHaloAtom cdh knob nCells c p = Ok (evs, n) → preserves_at cdh evs.
Proof.
  unfold preserveHaloAtom. intros H.
  destruct (if (c =? 1) && (p =? 1) then _ else _) as [e1 s1] eqn:H1.
  apply bind_Ok in H as ([e2 s2] & H2 & H). injection H as <- _.
  repeat apply preserves_at_app.
  - destruct ((c =? 1) && (p =? 1)); injection H1 as <- _; only_preserves.
  - destruct (c =? 1); [|injection H2 as <- _; only_preserves].
    apply bind_Ok in H2 as (t & _ & H2). apply bind_Ok in H2 as (evs & H2 & H3).
    injection H3 as <- _. revert H2. apply for_range_preserve; [|only_preserves].
    intros i s s' _ Hs Hb. res_inv. only_preserves. done.
  - destruct (p =? 1); simpl; only_preserves.
Qed.

(** ** What is preserved *)

(** The bytes allocated for an object when the link cells are [b]; 0 for objects
    the theorems do not bound. *)
Definition obj_bytes (b : LinkCell) (o : obj) : Z :=
  match o with
  | ObjSim => sizeof_SimFlat
  | ObjDomain => sizeof_Domain
  | ObjLinkCell => sizeof_LinkCell
  | ObjNAtoms => nTotalBoxes b * sizeof_int
  | ObjAtoms => sizeof_Atoms
  | ObjGid | ObjISpecies => MAXATOMS * nTotalBoxes b * sizeof_int
  | ObjR | ObjP | ObjF => MAXATOMS * nTotalBoxes b * sizeof_real3
  | ObjU | ObjRhobar | ObjDfEmbed => MAXATOMS * nTotalBoxes b * sizeof_real
  | ObjForceParms => sizeof_ForceExchangeParms
  | _ => 0
  end.

(** Every preserved region lies inside its object. *)
Definition in_bounds (b : LinkCell) (l : list event) : Prop :=
  Forall (λ e, match e with
               | CdPreserve _ en => 0 ≤ e_off en ∧ e_off en + e_len en ≤ obj_bytes b (e_obj en)
               | _ => True
               end) l.

Lemma covers_intro l level o off len k name lo hi :
  preserve level o off len k name ∈ l → off ≤ lo → hi ≤ off + len → covers l o lo hi.
Proof. intros Hin ??. exists level. eexists. split; [exact Hin|]. done. Qed.

Ltac find_event :=
  rewrite ?elem_of_app, ?elem_of_cons; first [by left | right; find_event].

(** The bytes of slot [64 k + m] in an array of [size]-byte elements. *)
Definition covers_slot (l : list event) (o : obj) (size : Z) (k m : Z) : Prop :=
  covers l o (size * (MAXATOMS * k + m)) (size * (MAXATOMS * k + m) + size).

Lemma preserveAtoms_eq cdh knob nBoxes g r p f U sp idx :
  0 ≤ nBoxes → 88 * (MAXATOMS * nBoxes) < 2 ^ 32 →
  let n := MAXATOMS * nBoxes in
  let named s := match idx with None => s | Some i => String.append s i end in
  let part (flag : Z) (o : obj) (sz : Z) (name : string) :=
    if flag =? 1 then [preserve cdh o 0 (n * sz) knob (named name)] else [] in
  let evs := preserve cdh ObjAtoms 0 sizeof_Atoms knob (named "Atoms") ::
    part g ObjGid 4 "Atoms_gid" ++ part sp ObjISpecies 4 "Atoms_iSpecies" ++
    part r ObjR 24 "Atoms_r" ++ part p ObjP 24 "Atoms_p" ++
    part f ObjF 24 "Atoms_f" ++ part U ObjU 8 "Atoms_U" in
  preserveAtoms cdh knob nBoxes 0 g r p f U sp 0 (-1) idx =
    Ok (evs, preserved_bytes evs - sizeof_Atoms).
Proof.
  intros Hn Hmax n named part evs. unfold preserveAtoms, MAXATOMS in *.
  unfold sizeof_int, sizeof_real3, sizeof_real. cbn [Z.eqb Z.mul].
  rewrite (u32_small (64 * nBoxes)) by lia. csimpl.
  rewrite !(u32_small (_ * _)) by lia. change (u32 0) with 0. rewrite !Z.mul_0_r.
  subst evs part n. unfold preserved_bytes. simpl foldr. f_equal.
  destruct (g =? 1), (sp =? 1), (r =? 1), (p =? 1), (f =? 1), (U =? 1);
    cbn; u32_norm; f_equal; lia.
Qed.

(** ** Properties *)

(** With the arguments the application uses ([from = 0], [to = -1]),
    [preserveAtoms] preserves, for every array selected by a flag, exactly the slots
    of the first [nBoxes] boxes: every slot is covered, no region leaves its array,
    and nothing is preserved for an array not selected. The returned size is the
    number of bytes preserved except those of the [Atoms] structure, which is
    preserved too but not counted. *)
Theorem preserveAtoms_selected b cdh knob nBoxes g r p f U sp idx :
  0 ≤ nBoxes ≤ nTotalBoxes b → 88 * (MAXATOMS * nBoxes) < 2 ^ 32 →
  returns (preserveAtoms cdh knob nBoxes 0 g r p f U sp 0 (-1) idx) (λ '(evs, size),
    size = preserved_bytes evs - sizeof_Atoms ∧ in_bounds b evs ∧
    (∀ k m, 0 ≤ k < nBoxes → 0 ≤ m < MAXATOMS →
       (covers_slot evs ObjGid sizeof_int k m ↔ g = 1) ∧
       (covers_slot evs ObjISpecies sizeof_int k m ↔ sp = 1) ∧
       (covers_slot evs ObjR sizeof_real3 k m ↔ r = 1) ∧
       (covers_slot evs ObjP sizeof_real3 k m ↔ p = 1) ∧
       (covers_slot evs ObjF sizeof_real3 k m ↔ f = 1) ∧
       (covers_slot evs ObjU sizeof_real k m ↔ U = 1))).
Proof.
  intros Hn Hmax. rewrite preserveAtoms_eq by lia. cbn [returns]. split; [done|].
  unfold preserved_bytes, in_bounds. split.
  - repeat first [apply Forall_cons; split | apply Forall_app; split]; simpl;
      unfold sizeof_Atoms; try lia;
      (match goal with |- context [if ?x then _ else _] => destruct x end);
      repeat constructor; simpl; unfold MAXATOMS, sizeof_int, sizeof_real3, sizeof_real in *; lia.
  - intros k m Hk Hm. unfold covers_slot, MAXATOMS, sizeof_int, sizeof_real3, sizeof_real in *.
    rewrite !covers_cons, !covers_app, !covers_if, !Z.eqb_eq.
    split_and!; (split; [intuition congruence|intros ->]);
      repeat first [left; split_and!; [done..|lia|lia] | right]; split_and!; done || lia.
Qed.

Lemma preserveAtoms_selected_witness :
  returns (preserveAtoms 2 kCopy 8 0 0 0 1 1 0 0 0 (-1) None) (λ '(evs, size),
    size = 24576 ∧ covers_slot evs ObjP sizeof_real3 7 63).
Proof.
  pose proof (preserveAtoms_selected ex_boxes 2 kCopy 8 0 0 1 1 0 0 None ltac:(by vm_compute)
    ltac:(by vm_compute)) as Hs.
  destruct (preserveAtoms 2 kCopy 8 0 0 0 1 1 0 0 0 (-1) None) as [[evs size]|] eqn:He; [|done].
  cbn [returns] in *. destruct Hs as (-> & _ & Hk). split.
  - vm_compute in He. injection He as <-. vm_compute. reflexivity.
  - by apply (Hk 7 63); [lia|unfold MAXATOMS; lia|].
Defined.

(** Preserving the occupancy array. With [is_local] 0 the counts of all boxes
    are preserved, with 1 those of the local boxes, with 2 those of the halo boxes
    except the last one, whose count is left out by the [- 1] in its size. The
    returned size counts a whole [LinkCell] that is not preserved. *)
Theorem preserveLinkCell_counts b cdh knob is_local nl nt :
  lc_wf b → 0 ≤ is_local ≤ 2 →
  returns (preserveLinkCell cdh knob b 0 1 is_local nl nt) (λ '(evs, size),
    size = preserved_bytes evs + sizeof_LinkCell ∧ in_bounds b evs ∧
    ∀ k, 0 ≤ k < nTotalBoxes b →
      (covers evs ObjNAtoms (sizeof_int * k) (sizeof_int * k + sizeof_int) ↔
       if is_local =? 0 then True
       else if is_local =? 1 then k < nLocalBoxes b
       else nLocalBoxes b ≤ k < nTotalBoxes b - 1)).
Proof.
  intros Hwf Hl. pose proof Hwf as [Gx Gy Gz HL HH HT Hint _].
  assert (0 < nLocalBoxes b ∧ nLocalBoxes b + 1 < nTotalBoxes b) as [H0 H1] by nia.
  clear Gx Gy Gz HL HH HT Hwf.
  unfold preserveLinkCell, MAXATOMS, INT_MAX, sizeof_int, sizeof_LinkCell, sizeof_ptr in *.
  assert (is_local = 0 ∨ is_local = 1 ∨ is_local = 2) as [->|[->| ->]] by lia; cbn [Z.eqb Pos.eqb negb orb];
    rewrite !ret_bind; cbn [cassert]; rewrite !ret_bind;
    destruct (nl =? 0), (nt =? 0); cbn [negb cassert]; rewrite !ret_bind; cbn [app returns];
    (split; [unfold preserved_bytes; simpl; u32_norm; lia|]);
    (split; [unfold in_bounds; repeat constructor; simpl; unfold off_nAtoms, off_nLocalBoxes,
       off_nTotalBoxes, sizeof_LinkCell, sizeof_int in *; u32_norm; lia|]);
    intros k Hk; covers_simpl; u32_norm; intuition (discriminate || lia).
Qed.

Lemma preserveLinkCell_counts_witness :
  returns (preserveLinkCell 2 kCopy ex_boxes 0 1 2 0 0) (λ '(evs, size),
    ¬ covers evs ObjNAtoms 252 256).
Proof.
  eapply returns_mono; [apply (preserveLinkCell_counts ex_boxes 2 kCopy 2 0 0 ex_boxes_wf); lia|].
  intros [evs size] (_ & _ & Hk). rewrite (Hk 63 ltac:(by vm_compute)). cbn. lia.
Defined.

Lemma sum_counts (l : list Z) :
  length l = 6%nat → (∀ c, c ∈ l → 0 ≤ c) → 4 * foldr Z.add 0 l < 2 ^ 32 →
  for_range 0 6 (λ i n, c ← aload l i; Ok (u32 (n + c * sizeof_int))) 0 =
    Ok (4 * foldr Z.add 0 l).
Proof.
  intros Hl Hc. destruct l as [|a [|b [|c [|d [|e [|f [|]]]]]]]; try done.
  pose proof (Hc a ltac:(set_solver)). pose proof (Hc b ltac:(set_solver)).
  pose proof (Hc c ltac:(set_solver)). pose proof (Hc d ltac:(set_solver)).
  pose proof (Hc e ltac:(set_solver)). pose proof (Hc f ltac:(set_solver)).
  cbn [foldr]. intros Hs. unfold for_range, sizeof_int. simpl. u32_norm. f_equal. lia.
Qed.

(** [preserveHaloForce] takes the six-pointer arrays [sendCells] and
    [recvCells] for the lists themselves: for every well-formed set of link cells
    the regions it preserves run past the end of the structure, and no list of
    cells is preserved. *)
Theorem preserveHaloForce_overruns b cdh knob :
  lc_wf b →
  returns (preserveHaloForce cdh knob 1 (forceExchangeCells b)) (λ '(evs, size),
    ¬ in_bounds b evs ∧ ∀ face lo hi, ¬ covers evs (ObjCellList face) lo hi).
Proof.
  intros Hwf. pose proof Hwf as [Gx Gy Gz HL HH HT Hint _].
  unfold preserveHaloForce. cbn [Z.eqb negb cassert]. rewrite ret_bind.
  set (n := foldr Z.add 0 (forceExchangeCells b)).
  assert (56 ≤ n ∧ 4 * n < 2 ^ 32) as [Hn1 Hn2].
  { subst n. unfold forceExchangeCells, MAXATOMS, INT_MAX in *. simpl. nia. }
  rewrite sum_counts; [|done| |done].
  2:{ apply Forall_forall. unfold forceExchangeCells. repeat constructor; nia. }
  rewrite ret_bind. cbn [returns]. split.
  - unfold in_bounds. rewrite !Forall_cons. simpl. unfold sizeof_ForceExchangeParms.
    fold n. lia.
  - intros face lo hi. covers_simpl. intuition discriminate.
Qed.

Lemma preserveHaloForce_overruns_witness :
  returns (preserveHaloForce 0 kCopy 1 (forceExchangeCells ex_boxes)) (λ '(evs, size),
    ¬ in_bounds ex_boxes evs).
Proof.
  eapply returns_mono; [apply (preserveHaloForce_overruns ex_boxes 0 kCopy ex_boxes_wf)|].
  by intros [evs size] [? _].
Defined.

(** [preserveEamPot] computes the sizes of [rhobar] and [dfEmbed] but preserves
    both with the size of the [EamPotential] structure: 15 of the
    [MAXATOMS * nTotalBoxes] values are covered, while the returned size counts
    them all. *)
Theorem preserveEamPot_truncates cdh knob nBoxes phi rho f :
  1 ≤ nBoxes → 16 * (MAXATOMS * nBoxes) < 2 ^ 32 →
  returns (preserveEamPot cdh knob 1 nBoxes phi rho f) (λ '(evs, size),
    ∀ o k, o = ObjRhobar ∨ o = ObjDfEmbed → 0 ≤ k < MAXATOMS * nBoxes →
      (covers evs o (sizeof_real * k) (sizeof_real * k + sizeof_real) ↔ k < 15)).
Proof.
  intros Hn Hmax. unfold preserveEamPot. cbn [Z.eqb negb cassert]. rewrite ret_bind.
  cbn [returns preserveInterpolationObject preserveForceData].
  intros o k Ho Hk. unfold sizeof_real, sizeof_EamPotential, sizeof_ptr. covers_simpl.
  destruct Ho as [->| ->]; (split; [intuition (discriminate || lia)|intros; covers_pick]).
Qed.

Lemma preserveEamPot_truncates_witness :
  returns (preserveEamPot 0 kCopy 1 64 (mkTable 1 fzero fone []) (mkTable 1 fzero fone [])
    (mkTable 1 fzero fone [])) (λ '(evs, size), ¬ covers evs ObjRhobar 120 128).
Proof.
  eapply returns_mono; [apply (preserveEamPot_truncates 0 kCopy 64); by vm_compute|].
  intros [evs size] Hk. change (¬ covers evs ObjRhobar (sizeof_real * 15) (sizeof_real * 15 + sizeof_real)).
  rewrite (Hk ObjRhobar 15); [lia|by left|by vm_compute].
Defined.

Lemma preserveAtoms_all_eq cdh knob nBoxes :
  0 ≤ nBoxes → 88 * (MAXATOMS * nBoxes) + sizeof_Atoms < 2 ^ 32 →
  let n := MAXATOMS * nBoxes in
  preserveAtoms cdh knob nBoxes 1 0 0 0 0 0 0 0 (-1) None =
    Ok ([preserve cdh ObjAtoms 0 sizeof_Atoms knob "Atoms";
         preserve cdh ObjGid 0 (n * 4) knob "Atoms_gid";
         preserve cdh ObjISpecies 0 (n * 4) knob "Atoms_iSpecies";
         preserve cdh ObjR 0 (n * 24) knob "Atoms_r";
         preserve cdh ObjP 0 (n * 24) knob "Atoms_p";
         preserve cdh ObjF 0 (n * 24) knob "Atoms_f";
         preserve cdh ObjU 0 (n * 8) knob "Atoms_U"], 88 * n + sizeof_Atoms).
Proof.
  intros Hn Hmax n. unfold preserveAtoms, MAXATOMS, sizeof_int, sizeof_real3, sizeof_real, sizeof_Atoms in *.
  cbn [Z.eqb Pos.eqb negb cassert]. rewrite !ret_bind. u32_norm. subst n. do 2 f_equal. lia.
Qed.

Lemma preserveLinkCell_all_eq cdh knob b :
  0 < nTotalBoxes b → 4 * nTotalBoxes b + 2 * sizeof_LinkCell < 2 ^ 32 →
  preserveLinkCell cdh knob b 1 0 0 0 0 =
    Ok ([preserve cdh ObjLinkCell 0 sizeof_LinkCell knob "LinkCell";
         preserve cdh ObjNAtoms 0 (nTotalBoxes b * 4) knob "LinkCell_nAtoms"],
        4 * nTotalBoxes b + 2 * sizeof_LinkCell).
Proof.
  intros Hn Hmax. unfold preserveLinkCell, sizeof_int, sizeof_LinkCell in *.
  cbn [Z.eqb Pos.eqb negb cassert Z.ltb Z.compare]. rewrite !ret_bind. u32_norm.
  rewrite cassert_true by lia. rewrite !ret_bind. cbn [app]. do 2 f_equal. lia.
Qed.

(** The six lists of cells and the six periodic factors. *)
Lemma preserveHaloAtom_eq cdh knob (nCells : list Z) :
  length nCells = 6%nat → (∀ c, c ∈ nCells → 0 ≤ c) →
  4 * foldr Z.add 0 nCells + 144 < 2 ^ 32 →
  preserveHaloAtom cdh knob nCells 1 1 =
    Ok (preserve cdh ObjAtomParms 0 sizeof_AtomExchangeParms knob "AtomExchangeParms" ::
        ((λ i, preserve cdh (ObjCellList i) 0 (nCells !!! Z.to_nat i * 4) knob
                 (String.append "AtomExchangeParms_cellList" (digit i))) <$> [0; 1; 2; 3; 4; 5]) ++
        ((λ i, preserve cdh (ObjPbcFactor i) 0 24 knob
                 (String.append "AtomExchangeParms_pbcFactor" (digit i))) <$> [0; 1; 2; 3; 4; 5]),
        sizeof_AtomExchangeParms + 4 * foldr Z.add 0 nCells + 24).
Proof.
  intros Hl Hc Hs. unfold preserveHaloAtom. cbn [Z.eqb Pos.eqb andb].
  rewrite sum_counts by (done || lia). rewrite ret_bind.
  destruct nCells as [|a [|b [|c [|d [|e [|f [|]]]]]]]; try done.
  assert (0 ≤ foldr Z.add 0 [a; b; c; d; e; f]) as H0.
  { clear -Hc. induction [a; b; c; d; e; f] as [|x l IH]; simpl; [done|].
    assert (0 ≤ foldr Z.add 0 l) by (apply IH; set_solver). specialize (Hc x ltac:(set_solver)). lia. }
  unfold sizeof_AtomExchangeParms, sizeof_real in *. unfold for_range. simpl in *. u32_norm. do 2 f_equal.
Qed.

(** The parts of [preserveSimFlat], each with what it covers. *)
Definition covers_all_slots (evs : list event) (nBoxes : Z) : Prop :=
  ∀ k m, 0 ≤ k < nBoxes → 0 ≤ m < MAXATOMS →
    covers_slot evs ObjGid sizeof_int k m ∧ covers_slot evs ObjISpecies sizeof_int k m ∧
    covers_slot evs ObjR sizeof_real3 k m ∧ covers_slot evs ObjP sizeof_real3 k m ∧
    covers_slot evs ObjF sizeof_real3 k m ∧ covers_slot evs ObjU sizeof_real k m.

Lemma preserveAtoms_all_spec cdh knob nBoxes :
  0 ≤ nBoxes → 88 * (MAXATOMS * nBoxes) + sizeof_Atoms < 2 ^ 32 →
  ∃ evs n, preserveAtoms cdh knob nBoxes 1 0 0 0 0 0 0 0 (-1) None = Ok (evs, n) ∧
    covers_all_slots evs nBoxes ∧ ∀ lo hi, ¬ covers evs ObjSim lo hi.
Proof.
  intros Hn Hmax. rewrite preserveAtoms_all_eq by done. do 2 eexists. split; [done|]. split.
  - intros k m Hk Hm. unfold covers_slot, MAXATOMS, sizeof_int, sizeof_real3, sizeof_real in *.
    covers_simpl. split_and!; covers_pick.
  - intros lo hi. covers_simpl. intuition discriminate.
Qed.

Lemma preserveHaloAtom_spec cdh knob (nCells : list Z) :
  length nCells = 6%nat → (∀ c, c ∈ nCells → 0 ≤ c) →
  4 * foldr Z.add 0 nCells + 144 < 2 ^ 32 →
  ∃ evs n, preserveHaloAtom cdh knob nCells 1 1 = Ok (evs, n) ∧
    (∀ face, 0 ≤ face < 6 →
       covers evs (ObjCellList face) 0 (nCells !!! Z.to_nat face * sizeof_int) ∧
       covers evs (ObjPbcFactor face) 0 (3 * sizeof_real)) ∧
    ∀ lo hi, ¬ covers evs ObjSim lo hi.
Proof.
  intros Hl Hc Hs. rewrite preserveHaloAtom_eq by done. do 2 eexists. split; [done|].
  clear Hl Hc Hs. cbn [fmap list_fmap]. split.
  - intros face Hf. unfold sizeof_int, sizeof_real. covers_simpl.
    face_cases face Hf; split; covers_pick.
  - intros lo hi. covers_simpl. intuition discriminate.
Qed.

(** [preserveSimFlat] for the Lennard-Jones potential preserves every slot of
    every atom array, every occupancy count, the domain, the species, the potential
    and each list of cells of the atom exchange; the structure [SimFlat] itself
    (the number of steps, the time step, the energies) is not preserved, because
    the call is commented out, although its size is counted. *)
Theorem preserveSimFlat_lj cdh knob sim tables :
  lc_wf (boxes sim) → doeam sim = 0 →
  88 * (MAXATOMS * nTotalBoxes (boxes sim)) + 8000 < 2 ^ 31 →
  returns (preserveSimFlat cdh knob sim tables (atomExchangeCells (boxes sim))) (λ '(evs, size),
    (∀ k m, 0 ≤ k < nTotalBoxes (boxes sim) → 0 ≤ m < MAXATOMS →
       covers_slot evs ObjGid sizeof_int k m ∧ covers_slot evs ObjISpecies sizeof_int k m ∧
       covers_slot evs ObjR sizeof_real3 k m ∧ covers_slot evs ObjP sizeof_real3 k m ∧
       covers_slot evs ObjF sizeof_real3 k m ∧ covers_slot evs ObjU sizeof_real k m) ∧
    (∀ k, 0 ≤ k < nTotalBoxes (boxes sim) →
       covers evs ObjNAtoms (sizeof_int * k) (sizeof_int * k + sizeof_int)) ∧
    covers evs ObjDomain 0 sizeof_Domain ∧ covers evs ObjLinkCell 0 sizeof_LinkCell ∧
    covers evs ObjSpecies 0 sizeof_SpeciesData ∧ covers evs ObjLjPot 0 sizeof_LjPotential ∧
    (∀ face, 0 ≤ face < 6 →
       covers evs (ObjCellList face) 0
         (atomExchangeCells (boxes sim) !!! Z.to_nat face * sizeof_int)) ∧
    ∀ lo hi, ¬ covers evs ObjSim lo hi).
Proof.
  intros Hwf Hlj Hmax. pose proof Hwf as [Gx Gy Gz HL HH HT Hint _].
  set (b := boxes sim) in *. assert (0 < nTotalBoxes b) as H0 by nia.
  assert (0 ≤ foldr Z.add 0 (atomExchangeCells b) ≤ 24 * nTotalBoxes b) as [Hn1 Hn2].
  { unfold atomExchangeCells. simpl. nia. }
  unfold preserveSimFlat. fold b. rewrite Hlj. cbn [Z.eqb negb preserveDomain preserveSpeciesData preserveLjPot].
  rewrite preserveLinkCell_all_eq, ret_bind by (unfold sizeof_LinkCell, MAXATOMS in *; lia).
  destruct (preserveAtoms_all_spec cdh knob (nTotalBoxes b)) as (ea & na & -> & Hslots & Hea);
    [lia|unfold sizeof_Atoms; lia|].
  unfold preserveHaloExchange. cbn [Z.eqb negb].
  destruct (preserveHaloAtom_spec cdh knob (atomExchangeCells b)) as (eh & nh & -> & Hlists & Heh);
    [done| |unfold MAXATOMS in *; lia|].
  { apply Forall_forall. unfold atomExchangeCells. repeat constructor; nia. }
  rewrite !ret_bind. cbn [returns app].
  clear -Hslots Hea Hlists Heh. unfold sizeof_int in *. split_and!.
  - intros k m Hk Hm. destruct (Hslots k m Hk Hm) as (?&?&?&?&?&?).
    unfold covers_slot, sizeof_int in *. covers_simpl. tauto.
  - intros k Hk. covers_simpl. right. right. left. split_and!; [done|lia|lia].
  - covers_simpl. by left.
  - covers_simpl. right. by left.
  - covers_simpl. right. right. right. right. by left.
  - covers_simpl. right. right. right. right. right. by left.
  - intros face Hf. destruct (Hlists face Hf). covers_simpl. tauto.
  - intros lo hi. covers_simpl. specialize (Hea lo hi). specialize (Heh lo hi).
    intuition discriminate.
Qed.

Lemma preserveSimFlat_lj_witness :
  returns (preserveSimFlat 1 kCopy ex_sim (mkTable 1 fzero fone [], mkTable 1 fzero fone [],
    mkTable 1 fzero fone []) (atomExchangeCells ex_boxes)) (λ '(evs, size),
    ¬ covers evs ObjSim 0 sizeof_SimFlat).
Proof.
  eapply returns_mono.
  - apply (preserveSimFlat_lj 1 kCopy ex_sim); [apply ex_cells_wf|reflexivity|by vm_compute].
  - intros [evs size] H. apply H.
Defined.
