(* ===== verification/Timestep.v ===== *)
(** * Timestep: the time integrator and its containment domains (timestep.c)

    One iteration of [timestep] runs five sequential containment domains at level
    2 (advanceVelocity_start, advancePosition, redistributeAtoms, computeForce with
    a nested domain at level 3, advanceVelocity_end). A function that calls the
    runtime returns the events it makes with its result. The force routine,
    [s->pot->force], is a virtual function: here a parameter, with a state of its
    own (static variables). *)

From Stdlib Require Import ZArith Lia String.
From stdpp Require Import base list numbers sets strings.
From S2P Require Import Prelude Float64 Parallel Decomposition LinkCells Atoms CoMDTypes HaloExchange Cd CdComd.

(** The loop over the atoms of the first [nBoxes] boxes, by slot:
    [for (iBox < nBoxes) for (iOff = MAXATOMS * iBox, ii = 0; ii < nAtoms[iBox];
    ii++, iOff++)]. *)
Definition each_atom {S} (b : LinkCell) (nBoxes : Z) (body : Z → S → res S) (st : S) : res S :=
  for_range 0 nBoxes (λ iBox st,
    iOff ← int32 (MAXATOMS * iBox);
    n ← aload (nAtoms b) iBox;
    for_range iOff (iOff + n) body st) st.

(** [advanceVelocity]. *)
Definition advanceVelocity (s : SimFlat) (nBoxes : Z) (dt : real_t) : res SimFlat :=
  p ← each_atom (boxes s) nBoxes (λ iOff p,
        pi ← aload p iOff;
        fi ← aload (af (atoms s)) iOff;
        astore p iOff (vmap2 (λ x f, x + dt * f)%R pi fi)) (ap (atoms s));
  Ok (set_atoms s (set_p (atoms s) p)).

(** [advancePosition]. *)
Definition advancePosition (s : SimFlat) (nBoxes : Z) (dt : real_t) : res SimFlat :=
  r ← each_atom (boxes s) nBoxes (λ iOff r,
        sp ← aload (iSpecies (atoms s)) iOff;
        x ← aload (species s) sp;
        let invMass := (fone / sp_mass x)%R in
        ri ← aload r iOff;
        pi ← aload (ap (atoms s)) iOff;
        astore r iOff (vmap2 (λ x p, x + dt * p * invMass)%R ri pi)) (ar (atoms s));
  Ok (set_atoms s (set_r (atoms s) r)).

Section timestep.
Context `{Par : Parallel}.

(** [kineticEnergy]. *)
Definition kineticEnergy (s : SimFlat) : res SimFlat :=
  eLocal1 ← each_atom (boxes s) (nLocalBoxes (boxes s)) (λ iOff e,
        sp ← aload (iSpecies (atoms s)) iOff;
        x ← aload (species s) sp;
        let invMass := (fhalf / sp_mass x)%R in
        p ← aload (ap (atoms s)) iOff;
        Ok (e + (v0 p * v0 p + v1 p * v1 p + v2 p * v2 p) * invMass)%R) fzero;
  let eSum := addRealParallel [ePotential s; eLocal1] in
  ep ← aload eSum 0;
  ek ← aload eSum 1;
  Ok (set_energies s ep ek).

(** [redistributeAtoms]. *)
Definition redistributeAtoms (h : HaloExchange SimFlat AtomMsg) (s : SimFlat) : res SimFlat :=
  ba ← updateLinkCells (boxes s) (atoms s);
  s ← haloExchange h (set_cells s ba);
  a ← for_range 0 (nTotalBoxes (boxes s)) (λ ii a, sortAtomsInCell a (boxes s) ii) (atoms s);
  Ok (set_atoms s a).

(** The force routine of the potential: its static state, the simulation. *)
Context {F : Type} (force : F → SimFlat → res (F * SimFlat * list event)).
Context (h : HaloExchange SimFlat AtomMsg) (nCells : list Z).

(** Preserving the loop index. *)
Definition preserve_ii (name : string) : event :=
  preserve 2 (ObjVar "ii") 0 sizeof_int kCopy name.

(** The domain advanceVelocity_start. *)
Definition velocity_start (s : SimFlat) (dt : real_t) : res (SimFlat * list event) :=
  let nb := nLocalBoxes (boxes s) in
  '(ev1, _) ← preserveAtoms 2 kCopy nb 0 0 0 1 1 0 0 0 (-1) None;
  '(ev2, _) ← preserveLinkCell 2 kCopy (boxes s) 0 1 1 1 0;
  s ← advanceVelocity s nb (fhalf * dt)%R;
  '(ev3, _) ← preserveAtoms 2 kOutput nb 0 0 0 1 0 0 0 0 (-1) None;
  Ok (s, CdBegin 2 "advanceVelocity_start" :: ev1 ++ ev2 ++
         [preserve_ii "timestep_ii"; TimerStart "velocityTimer"; TimerStop "velocityTimer"] ++
         ev3 ++ [CdDetect 2; CdComplete 2]).

(** The domain advancePosition. *)
Definition position (s : SimFlat) (dt : real_t) : res (SimFlat * list event) :=
  let nb := nLocalBoxes (boxes s) in
  '(ev1, _) ← preserveAtoms 2 kCopy nb 0 0 1 1 0 0 1 0 (-1) None;
  let '(ev2, _) := preserveSpeciesData 2 kCopy in
  '(ev3, _) ← preserveLinkCell 2 kCopy (boxes s) 0 1 1 1 0;
  s ← advancePosition s nb dt;
  '(ev4, _) ← preserveAtoms 2 kOutput nb 0 0 1 0 0 0 0 0 (-1) None;
  Ok (s, CdBegin 2 "advancePosition" :: ev1 ++ ev2 ++ ev3 ++
         [preserve_ii "timestep_ii"; TimerStart "positionTimer"; TimerStop "positionTimer"] ++
         ev4 ++ [CdDetect 2; CdComplete 2]).

(** The domain redistributeAtoms. *)
Definition redistribute (s : SimFlat) : res (SimFlat * list event) :=
  let nb := nTotalBoxes (boxes s) in
  '(ev1, _) ← preserveAtoms 2 kCopy nb 1 0 0 0 0 0 0 0 (-1) None;
  '(ev2, _) ← preserveLinkCell 2 kCopy (boxes s) 1 0 0 0 0;
  '(ev3, _) ← preserveHaloAtom 2 kCopy nCells 1 1;
  s ← redistributeAtoms h s;
  '(ev4, _) ← preserveAtoms 2 kOutput (nTotalBoxes (boxes s)) 1 0 0 0 0 0 0 0 (-1) None;
  '(ev5, _) ← preserveLinkCell 2 kOutput (boxes s) 1 0 0 0 0;
  Ok (s, CdBegin 2 "redistributeAtoms" :: ev1 ++ ev2 ++ ev3 ++
         [preserve_ii "redistributeAtoms_ii"; TimerStart "redistributeTimer";
          TimerStop "redistributeTimer"] ++
         ev4 ++ ev5 ++ [CdDetect 2; CdComplete 2]).

(** The domain computeForce, with computeForce_split nested in it. *)
Definition compute_force (fs : F) (s : SimFlat) : res (F * SimFlat * list event) :=
  let nb := nLocalBoxes (boxes s) in
  '(ev1, _) ← preserveAtoms 2 kCopy nb 0 1 1 0 0 0 0 0 (-1) None;
  '(ev2, _) ← preserveAtoms 3 kRef nb 0 1 1 0 0 0 0 0 (-1) None;
  '(fs, s, ev3) ← force fs s;
  '(ev4, _) ← preserveAtoms 2 kOutput (nLocalBoxes (boxes s)) 0 0 0 0 1 1 0 0 (-1) None;
  Ok (fs, s, CdBegin 2 "computeForce" :: ev1 ++
         [preserve_ii "timestep_ii"; CdCreate 3 "computeForce_split";
          CdBegin 3 "computeForce_split"] ++ ev2 ++ [TimerStart "computeForceTimer"] ++ ev3 ++
         [TimerStop "computeForceTimer"; CdDetect 3; CdComplete 3; CdDestroy 3] ++
         ev4 ++ [CdDetect 2; CdComplete 2]).

(** The domain advanceVelocity_end. *)
Definition velocity_end (s : SimFlat) (dt : real_t) : res (SimFlat * list event) :=
  let nb := nLocalBoxes (boxes s) in
  '(ev1, _) ← preserveAtoms 2 kCopy nb 0 0 0 1 1 0 0 0 (-1) None;
  s ← advanceVelocity s nb (fhalf * dt)%R;
  '(ev2, _) ← preserveAtoms 2 kOutput nb 0 0 0 1 0 0 0 0 (-1) None;
  Ok (s, CdBegin 2 "advanceVelocity_end" :: ev1 ++
         [preserve_ii "timestep_ii"; TimerStart "velocityTimer"; TimerStop "velocityTimer"] ++
         ev2 ++ [CdDetect 2; CdComplete 2]).

(** [timestep]: [nSteps] iterations, then the kinetic energy. The C function
    returns [s->ePotential]. *)
Definition timestep (fs : F) (s : SimFlat) (nSteps : Z) (dt : real_t)
    : res (F * SimFlat * list event) :=
  '(fs, s, log) ← for_range 0 nSteps (λ ii st,
    let '(fs, s, log) := st in
    '(s, e1) ← velocity_start s dt;
    '(s, e2) ← position s dt;
    '(s, e3) ← redistribute s;
    '(fs, s, e4) ← compute_force fs s;
    '(s, e5) ← velocity_end s dt;
    Ok (fs, s, log ++ e1 ++ e2 ++ e3 ++ e4 ++ e5)) (fs, s, []);
  s ← kineticEnergy s;
  Ok (fs, s, log).
End timestep.

(** ** Loops over live slots *)

(** The slots of the atoms of the first [n] boxes. *)
Definition live_slots (b : LinkCell) (n : Z) : list Z :=
  k ← seqZ 0 n; seqZ (MAXATOMS * k) (Z.of_nat (occ b (Z.to_nat k))).

Lemma elem_of_live_slots b n i :
  i ∈ live_slots b n ↔
  ∃ k, 0 ≤ k < n ∧ MAXATOMS * k ≤ i < MAXATOMS * k + Z.of_nat (occ b (Z.to_nat k)).
Proof.
  unfold live_slots. rewrite list_elem_of_bind. setoid_rewrite elem_of_seqZ. naive_solver lia.
Qed.

Lemma live_slots_snoc b k : 0 ≤ k →
  live_slots b (k + 1) = live_slots b k ++ seqZ (MAXATOMS * k) (Z.of_nat (occ b (Z.to_nat k))).
Proof.
  intros Hk. unfold live_slots. rewrite seqZ_app, Z.add_0_l, bind_app by lia.
  assert (seqZ k 1 = [k]) as -> by done. by rewrite list_bind_singleton_l.
Qed.

Lemma counts_occ b k : counts_wf b → 0 ≤ k < nTotalBoxes b → (occ b (Z.to_nat k) ≤ 64)%nat.
Proof. intros Hc Hk. by destruct (counts_bounds b k Hc Hk) as (_ & _ & ?). Qed.

(** The counts of the first [n] boxes are those of allocated boxes. *)
Definition live_wf (b : LinkCell) (n : Z) : Prop := ∀ k, 0 ≤ k < n →
  int32 (k * MAXATOMS) = Ok (k * MAXATOMS) ∧
  aload (nAtoms b) k = Ok (Z.of_nat (occ b (Z.to_nat k))) ∧ (occ b (Z.to_nat k) ≤ 64)%nat.

Lemma counts_live b n : counts_wf b → n ≤ nTotalBoxes b → live_wf b n.
Proof. intros Hc Hn k Hk. apply counts_bounds; [done|lia]. Qed.

Lemma live_slots_below b n i : live_wf b n → i ∈ live_slots b n → 0 ≤ i < MAXATOMS * n.
Proof.
  intros Hc (k & Hk & Hi)%elem_of_live_slots. destruct (Hc k Hk) as (_ & _ & ?).
  unfold MAXATOMS in *. nia.
Qed.

Lemma live_slots_range b n i :
  counts_wf b → n ≤ nTotalBoxes b → i ∈ live_slots b n → 0 ≤ i < Z.of_nat (slot_count b).
Proof.
  intros Hc Hn Hi%live_slots_below; [|by apply counts_live]. unfold slot_count, MAXATOMS in *. lia.
Qed.

Lemma NoDup_live_slots b n : live_wf b n → NoDup (live_slots b n).
Proof.
  intros Hc. unfold live_slots. apply NoDup_bind; [| |apply NoDup_seqZ].
  - intros k k' i Hk Hk' Hi Hi'. apply elem_of_seqZ in Hk, Hk', Hi, Hi'.
    destruct (Hc k ltac:(lia)) as (_ & _ & ?). destruct (Hc k' ltac:(lia)) as (_ & _ & ?).
    unfold MAXATOMS in *. lia.
  - intros. apply NoDup_seqZ.
Qed.

Lemma foldM_bind {A B S} (f : A → list B) (F : B → S → res S) l st :
  foldM F (l ≫= f) st = foldM (λ x st, foldM F (f x) st) l st.
Proof.
  revert st. induction l as [|x l IH]; intros st; csimpl; [done|]. rewrite foldM_app.
  destruct (foldM F (f x) st); simpl; [apply IH|done].
Qed.

Lemma each_atom_eq {S} b n (body : Z → S → res S) st :
  live_wf b n → each_atom b n body st = foldM body (live_slots b n) st.
Proof.
  intros Hc. unfold live_slots. rewrite foldM_bind. unfold each_atom, for_range at 1.
  rewrite Z.sub_0_r. assert (∀ k, k ∈ seqZ 0 n → 0 ≤ k < n) as Hr.
  { intros k Hk%elem_of_seqZ. lia. }
  revert st Hr. generalize (seqZ 0 n). induction l as [|k l IH]; intros st Hr; simpl; [done|].
  specialize (Hr k ltac:(left)) as Hk. destruct (Hc k Hk) as (Hi & -> & Ho).
  rewrite (Z.mul_comm k) in Hi. rewrite Hi. csimpl. unfold for_range. rewrite Z.add_simpl_l.
  destruct (foldM body _ st); simpl; [|done]. apply IH. intros. apply Hr. by right.
Qed.

(** The simulation's storage is consistent. *)
Record sim_wf (s : SimFlat) : Prop := {
  sw_counts : counts_wf (boxes s);
  sw_atoms : atoms_wf (boxes s) (atoms s);
}.

Lemma local_le_total b : counts_wf b → 0 ≤ nLocalBoxes b ≤ nTotalBoxes b.
Proof. intros [[] _]. nia. Qed.

Definition kick (dt : real_t) (f : list real3) (i : Z) (p : real3) : real3 :=
  vmap2 (λ x y, x + dt * y)%R p (f !!! Z.to_nat i).

(** The arrays of the atoms hold the slots of the first [n] boxes. *)
Definition holds (a : Atoms) (n : Z) : Prop :=
  let m := Z.to_nat (MAXATOMS * n) in
  (m ≤ length (iSpecies a) ∧ m ≤ length (ar a) ∧ m ≤ length (ap a) ∧ m ≤ length (af a))%nat.

Lemma sim_holds s n : sim_wf s → n ≤ nTotalBoxes (boxes s) → holds (atoms s) n.
Proof.
  intros [_ [_ Ls Lr Lp Lf _]] Hn. unfold holds. rewrite Ls, Lr, Lp, Lf.
  unfold slot_count, MAXATOMS. lia.
Qed.

Lemma advanceVelocity_eq s n dt :
  live_wf (boxes s) n → holds (atoms s) n →
  advanceVelocity s n dt =
    Ok (set_atoms s (set_p (atoms s)
      (map_at (live_slots (boxes s) n) (kick dt (af (atoms s))) (ap (atoms s))))).
Proof.
  intros Hc (_ & _ & Lp & Lf). unfold advanceVelocity. rewrite each_atom_eq by done.
  rewrite (foldM_update _ (kick dt (af (atoms s)))); [done|by apply NoDup_live_slots| |].
  - intros i Hi. apply live_slots_below in Hi; [|done..]. lia.
  - intros i a x Hi Hlen Hx. apply live_slots_below in Hi; [|done..].
    rewrite (aload_lookup (A:=vec3 real_t) a i x) by (done || lia). csimpl.
    rewrite (aload_total (A:=vec3 real_t) (af (atoms s)) i) by lia. csimpl. by rewrite astore_Ok by lia.
Qed.

(** The species of every live atom of the first [n] boxes is known. *)
Definition species_ok (s : SimFlat) (n : Z) : Prop :=
  ∀ i, i ∈ live_slots (boxes s) n →
    0 ≤ iSpecies (atoms s) !!! Z.to_nat i < Z.of_nat (length (species s)).

#[export] Instance species_inhabited : Inhabited SpeciesData := populate unit_species.

Definition mass_of (s : SimFlat) (i : Z) : real_t :=
  sp_mass (species s !!! Z.to_nat (iSpecies (atoms s) !!! Z.to_nat i)).

Definition drift (s : SimFlat) (dt : real_t) (i : Z) (r : real3) : real3 :=
  let invMass := (fone / mass_of s i)%R in
  vmap2 (λ x p, x + dt * p * invMass)%R r (ap (atoms s) !!! Z.to_nat i).

Lemma advancePosition_eq s n dt :
  live_wf (boxes s) n → holds (atoms s) n → species_ok s n →
  advancePosition s n dt =
    Ok (set_atoms s (set_r (atoms s)
      (map_at (live_slots (boxes s) n) (drift s dt) (ar (atoms s))))).
Proof.
  intros Hc (Ls & Lr & Lp & _) Hsp. unfold advancePosition. rewrite each_atom_eq by done.
  rewrite (foldM_update _ (drift s dt)); [done|by apply NoDup_live_slots| |].
  - intros i Hi. apply live_slots_below in Hi; [|done..]. lia.
  - intros i a x Hi Hlen Hx. specialize (Hsp i Hi). apply live_slots_below in Hi; [|done..].
    rewrite (aload_total (iSpecies (atoms s)) i) by lia. csimpl.
    rewrite (aload_total (species s)) by done. csimpl.
    rewrite (aload_lookup (A:=vec3 real_t) a i x) by (done || lia). csimpl.
    rewrite (aload_total (A:=vec3 real_t) (ap (atoms s)) i) by lia. csimpl. by rewrite astore_Ok by lia.
Qed.

(** ** The life cycle of the containment domains *)

(** Splits a proof that a list of events leaves the open handles alone. *)
Ltac keeps_split :=
  repeat first [apply keeps_app | done].

Section life_cycle.
Context `{Par : Parallel} {F : Type}.
Context (force : F → SimFlat → res (F * SimFlat * list event)).
Context (h : HaloExchange SimFlat AtomMsg) (nCells : list Z).
(** The open handles around [timestep]: the root and level 1 have begun. *)
Context (st : list bool) (Hst : length st = 2%nat).
Context (Hforce : ∀ fs s fs' s' log, force fs s = Ok (fs', s', log) →
  keeps (true :: true :: st) log ∧ labels 2 log = []).

(** A domain of [timestep]: it restores the open handles and begins one domain at
    level 2, named [name]. *)
Definition phase (name : string) (log : list event) : Prop :=
  keeps (false :: st) log ∧ labels 2 log = [name].

Lemma phase_block name log evs :
  log = CdBegin 2 name :: evs ++ [CdDetect 2; CdComplete 2] →
  keeps (true :: st) evs ∧ labels 2 evs = [] → phase name log.
Proof using Hst.
  intros -> [Hk Hl]. split; [apply keeps_block; [by rewrite Hst|done]|].
  change (name :: labels 2 (evs ++ [CdDetect 2; CdComplete 2]) = [name]).
  by rewrite labels_app, Hl.
Qed.

Lemma at2 evs : preserves_at 2 evs → keeps (true :: st) evs ∧ labels 2 evs = [].
Proof using Hst.
  intros He. split; [by apply (preserves_keeps 2); [rewrite Hst|]|by eapply labels_preserves].
Qed.

Lemma both_app e1 e2 :
  keeps (true :: st) e1 ∧ labels 2 e1 = [] → keeps (true :: st) e2 ∧ labels 2 e2 = [] →
  keeps (true :: st) (e1 ++ e2) ∧ labels 2 (e1 ++ e2) = [].
Proof using.
  intros [? H1] [? H2]. split; [by apply keeps_app|]. by rewrite labels_app, H1, H2.
Qed.

Lemma both_preserve_timer o off len k nm t :
  keeps (true :: st) [preserve 2 o off len k nm; TimerStart t; TimerStop t] ∧
  labels 2 [preserve 2 o off len k nm; TimerStart t; TimerStop t] = [].
Proof using Hst.
  apply (both_app [_] [_; _]); [apply at2, preserves_at_preserve|done].
Qed.

(** Discharges the parts of the events of a domain. *)
Ltac parts :=
  repeat first [apply both_app
    | apply at2; (done || apply preserves_at_preserve) | apply both_preserve_timer].
Ltac reassociate := simpl; repeat (rewrite <-app_assoc; simpl); reflexivity.

Lemma velocity_start_phase s dt s' log :
  velocity_start s dt = Ok (s', log) → phase "advanceVelocity_start" log.
Proof using Hst.
  unfold velocity_start. intros H.
  apply bind_Ok in H as ([e1 n1] & H1%preserveAtoms_only & H).
  apply bind_Ok in H as ([e2 n2] & H2%preserveLinkCell_only & H).
  apply bind_Ok in H as (s1 & _ & H).
  apply bind_Ok in H as ([e3 n3] & H3%preserveAtoms_only & H). injection H as <- <-.
  eapply (phase_block _ _ (e1 ++ e2 ++ [_; _; _] ++ e3)); [reassociate|parts].
Qed.

Lemma position_phase s dt s' log :
  position s dt = Ok (s', log) → phase "advancePosition" log.
Proof using Hst.
  unfold position. intros H.
  apply bind_Ok in H as ([e1 n1] & H1%preserveAtoms_only & H).
  cbn [preserveSpeciesData] in H.
  apply bind_Ok in H as ([e3 n3] & H3%preserveLinkCell_only & H).
  apply bind_Ok in H as (s1 & _ & H).
  apply bind_Ok in H as ([e4 n4] & H4%preserveAtoms_only & H). injection H as <- <-.
  eapply (phase_block _ _ (e1 ++ [_] ++ e3 ++ [_; _; _] ++ e4)); [reassociate|parts].
Qed.

Lemma redistribute_phase s s' log :
  redistribute h nCells s = Ok (s', log) → phase "redistributeAtoms" log.
Proof using Hst.
  unfold redistribute. intros H.
  apply bind_Ok in H as ([e1 n1] & H1%preserveAtoms_only & H).
  apply bind_Ok in H as ([e2 n2] & H2%preserveLinkCell_only & H).
  apply bind_Ok in H as ([e3 n3] & H3%preserveHaloAtom_only & H).
  apply bind_Ok in H as (s1 & _ & H).
  apply bind_Ok in H as ([e4 n4] & H4%preserveAtoms_only & H).
  apply bind_Ok in H as ([e5 n5] & H5%preserveLinkCell_only & H). injection H as <- <-.
  eapply (phase_block _ _ (e1 ++ e2 ++ e3 ++ [_; _; _] ++ e4 ++ e5)); [reassociate|parts].
Qed.

Lemma velocity_end_phase s dt s' log :
  velocity_end s dt = Ok (s', log) → phase "advanceVelocity_end" log.
Proof using Hst.
  unfold velocity_end. intros H.
  apply bind_Ok in H as ([e1 n1] & H1%preserveAtoms_only & H).
  apply bind_Ok in H as (s1 & _ & H).
  apply bind_Ok in H as ([e2 n2] & H2%preserveAtoms_only & H). injection H as <- <-.
  eapply (phase_block _ _ (e1 ++ [_; _; _] ++ e2)); [reassociate|parts].
Qed.

(** The nested domain computeForce_split. *)
Definition split_events (e2 e3 : list event) : list event :=
  CdCreate 3 "computeForce_split" :: (CdBegin 3 "computeForce_split" ::
    (e2 ++ [TimerStart "computeForceTimer"] ++ e3 ++ [TimerStop "computeForceTimer"]) ++
    [CdDetect 3; CdComplete 3]) ++ [CdDestroy 3].

Lemma split_block e2 e3 :
  preserves_at 3 e2 → keeps (true :: true :: st) e3 ∧ labels 2 e3 = [] →
  keeps (true :: st) (split_events e2 e3) ∧ labels 2 (split_events e2 e3) = [].
Proof using Hst.
  intros H2 [K3 L3]. unfold split_events. split.
  - apply keeps_child; [by rewrite Hst|]. apply keeps_block; [by simpl; rewrite Hst|].
    repeat apply keeps_app; try done. by apply (preserves_keeps 3); [simpl; rewrite Hst|].
  - change (labels 2 (((e2 ++ [TimerStart "computeForceTimer"] ++ e3 ++
      [TimerStop "computeForceTimer"]) ++ [CdDetect 3; CdComplete 3]) ++ [CdDestroy 3]) = []).
    by rewrite !labels_app, (labels_preserves 3 2 e2), L3.
Qed.

Lemma compute_force_phase fs s fs' s' log :
  compute_force force fs s = Ok (fs', s', log) → phase "computeForce" log.
Proof using Hst Hforce.
  unfold compute_force. intros H.
  apply bind_Ok in H as ([e1 n1] & H1%preserveAtoms_only & H).
  apply bind_Ok in H as ([e2 n2] & H2%preserveAtoms_only & H).
  apply bind_Ok in H as ([[fs1 s1] e3] & H3%Hforce & H).
  apply bind_Ok in H as ([e4 n4] & H4%preserveAtoms_only & H). injection H as <- <- <-.
  eapply (phase_block _ _ (e1 ++ [_] ++ split_events e2 e3 ++ e4));
    [unfold split_events; reassociate|parts; by apply split_block].
Qed.

Definition five_phases : list string :=
  ["advanceVelocity_start"; "advancePosition"; "redistributeAtoms"; "computeForce";
   "advanceVelocity_end"].

Lemma timestep_log fs s n dt fs' s' log :
  timestep force h nCells fs s n dt = Ok (fs', s', log) →
  keeps (false :: st) log ∧
  labels 2 log = mjoin (replicate (Z.to_nat n) five_phases).
Proof using Hst Hforce.
  unfold timestep. intros H. apply bind_Ok in H as ([[fs1 s1] log1] & H1 & H).
  apply bind_Ok in H as (s2 & _ & H). injection H as <- <- <-.
  enough (∀ m, 0 ≤ m → ∀ fs1 s1 log1, for_range 0 m (λ ii st,
      let '(fs, s, log) := st in
      '(s, e1) ← velocity_start s dt; '(s, e2) ← position s dt;
      '(s, e3) ← redistribute h nCells s; '(fs, s, e4) ← compute_force force fs s;
      '(s, e5) ← velocity_end s dt;
      Ok (fs, s, log ++ e1 ++ e2 ++ e3 ++ e4 ++ e5)) (fs, s, []) = Ok (fs1, s1, log1) →
    keeps (false :: st) log1 ∧ labels 2 log1 = mjoin (replicate (Z.to_nat m) five_phases)) as Hm.
  { destruct (Z.le_gt_cases 0 n) as [Hn|Hn]; [by eapply Hm|].
    rewrite for_range_nil in H1 by lia. injection H1 as <- <- <-.
    by replace (Z.to_nat n) with 0%nat by lia. }
  clear dependent fs1 s1 s2 log1. intros m Hm. pattern m. apply natlike_ind; [| |done]; clear m Hm.
  - intros fs1 s1 log1. rewrite for_range_nil by lia. intros H. by injection H as <- <- <-.
  - intros m Hm IH fs1 s1 log1. unfold Z.succ. rewrite for_range_snoc by lia. intros H.
    apply bind_Ok in H as ([[fs0 s0] log0] & H0 & H). destruct (IH _ _ _ H0) as [K0 L0].
    apply bind_Ok in H as ([sa e1] & [K1 L1]%velocity_start_phase & H).
    apply bind_Ok in H as ([sb e2] & [K2 L2]%position_phase & H).
    apply bind_Ok in H as ([sc e3] & [K3 L3]%redistribute_phase & H).
    apply bind_Ok in H as ([[fsd sd] e4] & [K4 L4]%compute_force_phase & H).
    apply bind_Ok in H as ([se e5] & [K5 L5]%velocity_end_phase & H). injection H as <- <- <-.
    split; [by repeat apply keeps_app|].
    rewrite !labels_app, L0, L1, L2, L3, L4, L5.
    replace (Z.to_nat (m + 1)) with (Z.to_nat m + 1)%nat by lia.
    rewrite replicate_add. simpl. by rewrite join_app.
Qed.
End life_cycle.

(** ** Properties *)

(** C39: the containment domains of [timestep]. Started inside a begun level-1 domain
    with a level-2 handle ready, and with a force routine that leaves the handles
    alone, [nSteps] iterations begin exactly the five level-2 domains per
    iteration, in the order velocity, position, redistribution, force, velocity;
    every begun domain is completed and every created one destroyed, so the handles
    are as before. *)
Theorem timestep_cds `{Par : Parallel} {F : Type}
    (force : F → SimFlat → res (F * SimFlat * list event)) h nCells fs s n dt fs' s' log :
  (∀ fs s fs' s' log, force fs s = Ok (fs', s', log) →
    keeps [true; true; true; true] log ∧ labels 2 log = []) →
  timestep force h nCells fs s n dt = Ok (fs', s', log) →
  cd_run [false; true; true] log = Some [false; true; true] ∧
  labels 2 log = mjoin (replicate (Z.to_nat n)
    ["advanceVelocity_start"; "advancePosition"; "redistributeAtoms"; "computeForce";
     "advanceVelocity_end"]).
Proof. intros Hf H. by eapply (timestep_log force h nCells [true; true]) in H. Qed.

Lemma triple_eta {A B C} (x : A * B * C) : x = (x.1.1, x.1.2, x.2).
Proof. by destruct x as [[? ?] ?]. Qed.

(** A force routine that computes nothing and makes no calls. *)
Definition no_force (_ : unit) (s : SimFlat) : res (unit * SimFlat * list event) :=
  Ok (tt, s, []).
Definition ex_step : unit * SimFlat * list event :=
  get (tt, ex_sim, []) (timestep no_force ex_atom_halo (atomExchangeCells ex_boxes) tt ex_sim 1 fzero).

Lemma timestep_cds_witness :
  timestep no_force ex_atom_halo (atomExchangeCells ex_boxes) tt ex_sim 1 fzero = Ok ex_step ∧
  cd_run [false; true; true] ex_step.2 = Some [false; true; true].
Proof.
  assert (timestep no_force ex_atom_halo (atomExchangeCells ex_boxes) tt ex_sim 1 fzero = Ok ex_step)
    as He by (apply get_Ok; vm_compute; reflexivity).
  split; [exact He|].
  apply (timestep_cds no_force ex_atom_halo (atomExchangeCells ex_boxes) tt ex_sim 1 fzero
    ex_step.1.1 ex_step.1.2 ex_step.2).
  - intros fs s fs' s' log [= <- <- <-]. split; reflexivity.
  - rewrite He. apply f_equal, triple_eta.
Defined.

(** Every live local atom has a known species, as a computation. *)
Lemma species_ok_check s n :
  forallb (λ i, let z := iSpecies (atoms s) !!! Z.to_nat i in
     (0 <=? z) && (z <? Z.of_nat (length (species s)))) (live_slots (boxes s) n) = true →
  species_ok s n.
Proof.
  intros H i Hi. rewrite forallb_forall in H. specialize (H i ltac:(by apply list_elem_of_In)). cbn zeta in H. lia.
Qed.

Lemma ex_sim_wf : sim_wf ex_sim.
Proof. destruct ex_cells_wf. by split. Qed.

(** One half kick and one drift. [advanceVelocity] adds [dt * f] to the momenta
    and [advancePosition] adds [dt * p / m] to the positions of exactly the atoms
    in the first [nBoxes] boxes, each once, and touches nothing else; both return
    whatever the values of the doubles, so long as the species are known. *)
Theorem kick_drift_spec s nBoxes dt :
  sim_wf s → nBoxes ≤ nTotalBoxes (boxes s) → species_ok s nBoxes →
  returns (s1 ← advanceVelocity s nBoxes (fhalf * dt)%R; advancePosition s1 nBoxes dt) (λ s',
    ∃ p' r', s' = set_atoms s (set_r (set_p (atoms s) p') r') ∧
    (∀ i, i ∈ live_slots (boxes s) nBoxes → ∃ r p f,
       ar (atoms s) !! Z.to_nat i = Some r ∧ ap (atoms s) !! Z.to_nat i = Some p ∧
       af (atoms s) !! Z.to_nat i = Some f ∧
       let p1 := vmap2 (λ x y, x + fhalf * dt * y)%R p f in
       p' !! Z.to_nat i = Some p1 ∧
       r' !! Z.to_nat i = Some (vmap2 (λ x y, x + dt * y * (fone / mass_of s i))%R r p1)) ∧
    (∀ k, Z.of_nat k ∉ live_slots (boxes s) nBoxes →
       p' !! k = ap (atoms s) !! k ∧ r' !! k = ar (atoms s) !! k)).
Proof.
  intros Hwf Hn Hsp. pose proof Hwf as [Hc Ha].
  pose proof (counts_live _ _ Hc Hn) as Hlive. pose proof (sim_holds _ _ Hwf Hn) as Hh.
  rewrite advanceVelocity_eq, ret_bind by done.
  set (p' := map_at _ _ _).
  assert (length p' = length (ap (atoms s))) as Lp' by apply length_map_at.
  rewrite advancePosition_eq; [|done|by unfold holds; simpl; rewrite Lp'|done].
  cbn [returns]. exists p'. eexists. split; [reflexivity|]. split.
  - intros i Hi. pose proof (live_slots_range _ _ _ Hc Hn Hi). destruct Ha as [_ _ Lr Lp Lf _].
    destruct (lookup_lt_is_Some_2 (ar (atoms s)) (Z.to_nat i)) as [r Hr]; [lia|].
    destruct (lookup_lt_is_Some_2 (ap (atoms s)) (Z.to_nat i)) as [p Hp]; [lia|].
    destruct (lookup_lt_is_Some_2 (af (atoms s)) (Z.to_nat i)) as [f Hf]; [lia|].
    exists r, p, f. do 3 (split; [done|]). cbn zeta.
    assert (p' !! Z.to_nat i = Some (vmap2 (λ x y, x + fhalf * dt * y)%R p f)) as Hp'.
    { subst p'. rewrite map_at_lookup, Z2Nat.id, Hp by lia. simpl.
      rewrite decide_True by done. unfold kick. by rewrite (list_lookup_total_correct _ _ _ Hf). }
    split; [done|]. cbn [atoms set_atoms boxes ar set_p]. rewrite map_at_lookup, Z2Nat.id, Hr by lia. simpl.
    rewrite decide_True by done. unfold drift. cbn [atoms set_atoms ap set_p].
    by rewrite (list_lookup_total_correct _ _ _ Hp').
  - intros k Hk. subst p'. cbn [atoms set_atoms boxes ar set_p]. rewrite !map_at_lookup.
    split; [destruct (ap (atoms s) !! k)|destruct (ar (atoms s) !! k)]; simpl; try done; by rewrite decide_False by done.
Qed.

Lemma kick_drift_spec_witness :
  returns (s1 ← advanceVelocity ex_sim 8 (fhalf * fone)%R; advancePosition s1 8 fone) (λ s', 
    af (atoms s') = af (atoms ex_sim)).
Proof.
  eapply returns_mono; [apply (kick_drift_spec ex_sim 8 fone ex_sim_wf)|].
  - by vm_compute.
  - apply species_ok_check. vm_compute. reflexivity.
  - by intros s' (p' & r' & -> & _).
Defined.
