(* ===== verification/Recovery.v ===== *)
(** * Recovery: re-executing the containment domains of the integrator

    When a domain fails, the runtime writes the preserved regions back and
    executes the body again. This file states when that is enough: from any
    storage that agrees with the storage at the begin of the domain on the
    preserved bytes, whatever the rest holds, the body recomputes the same
    values. *)

From Stdlib Require Import ZArith Lia String.
From stdpp Require Import base list numbers sets strings.
From S2P Require Import Prelude Float64 Parallel Decomposition LinkCells Atoms CoMDTypes HaloExchange Cd CdComd Timestep.

(** The log saves the bytes [lo .. hi - 1] of an object at the begin of the
    domain: preservation as output does not. *)
Definition saves (l : list event) (o : obj) (lo hi : Z) : Prop :=
  ∃ level off len k name, preserve level o off len k name ∈ l ∧ k ≠ kOutput ∧
    off ≤ lo ∧ hi ≤ off + len.

Lemma saves_app_l l1 l2 o lo hi : saves l1 o lo hi → saves (l1 ++ l2) o lo hi.
Proof. intros (lv & off & len & k & n & Hin & ?). do 5 eexists. split; [apply elem_of_app; by left|done]. Qed.
Lemma saves_app_r l1 l2 o lo hi : saves l2 o lo hi → saves (l1 ++ l2) o lo hi.
Proof. intros (lv & off & len & k & n & Hin & ?). do 5 eexists. split; [apply elem_of_app; by right|done]. Qed.
Lemma saves_cons e l o lo hi : saves l o lo hi → saves (e :: l) o lo hi.
Proof. apply (saves_app_r [e]). Qed.
Lemma saves_here level o off len k name l lo hi :
  k ≠ kOutput → off ≤ lo → hi ≤ off + len →
  saves (preserve level o off len k name :: l) o lo hi.
Proof. intros. do 5 eexists. split; [left; reflexivity|done]. Qed.

Create HintDb saved.
#[export] Hint Resolve saves_app_l saves_app_r saves_cons | 10 : saved.

(** [s0] agrees with [s] where [log] saved: element [i] of an array of
    [size]-byte elements at bytes [size * i] on. *)
Definition same_saved {A} (log : list event) (o : obj) (size : Z) (x x0 : list A) : Prop :=
  ∀ i : nat, saves log o (size * Z.of_nat i) (size * Z.of_nat i + size) → x0 !! i = x !! i.

Record restored (log : list event) (s s0 : SimFlat) : Prop := {
  re_nLocalBoxes : saves log ObjLinkCell off_nLocalBoxes (off_nLocalBoxes + sizeof_int) →
    nLocalBoxes (boxes s0) = nLocalBoxes (boxes s);
  re_nTotalBoxes : saves log ObjLinkCell off_nTotalBoxes (off_nTotalBoxes + sizeof_int) →
    nTotalBoxes (boxes s0) = nTotalBoxes (boxes s);
  re_nAtoms : same_saved log ObjNAtoms sizeof_int (nAtoms (boxes s)) (nAtoms (boxes s0));
  re_gid : same_saved log ObjGid sizeof_int (gid (atoms s)) (gid (atoms s0));
  re_iSpecies : same_saved log ObjISpecies sizeof_int (iSpecies (atoms s)) (iSpecies (atoms s0));
  re_r : same_saved log ObjR sizeof_real3 (ar (atoms s)) (ar (atoms s0));
  re_p : same_saved log ObjP sizeof_real3 (ap (atoms s)) (ap (atoms s0));
  re_f : same_saved log ObjF sizeof_real3 (af (atoms s)) (af (atoms s0));
  re_U : same_saved log ObjU sizeof_real (aU (atoms s)) (aU (atoms s0));
  re_species : same_saved log ObjSpecies sizeof_SpeciesData (species s) (species s0);
}.

(** Finds a saved region in an explicit log. *)
Ltac find_saved :=
  repeat first [apply saves_here; [discriminate|lia|lia] | apply saves_cons].

(** No region of an object in an explicit log. *)
Ltac no_saved H :=
  let Hin := fresh in
  destruct H as (? & ? & ? & ? & ? & Hin & ?);
  repeat (apply elem_of_cons in Hin as [Hin|Hin];
    [first [discriminate | injection Hin; intros; subst; lia]|]);
  try (by apply elem_of_nil in Hin).

(** ** The calls of the velocity and position domains *)

Lemma preserveLinkCell_local_eq cdh knob b :
  lc_wf b →
  preserveLinkCell cdh knob b 0 1 1 1 0 =
    Ok ([preserve cdh ObjLinkCell off_nAtoms sizeof_ptr knob "LinkCell_nAtoms_ptr";
         preserve cdh ObjNAtoms 0 (nLocalBoxes b * 4) knob "LinkCell_nAtoms";
         preserve cdh ObjLinkCell off_nLocalBoxes sizeof_int knob "LinkCell_nLocalBoxes"],
        nLocalBoxes b * 4 + 140).
Proof.
  intros [Gx Gy Gz HL HH HT Hint _]. assert (0 ≤ nLocalBoxes b ≤ nTotalBoxes b) as Hn by nia.
  unfold preserveLinkCell, MAXATOMS, INT_MAX, sizeof_int, sizeof_LinkCell, sizeof_ptr in *.
  cbn [Z.eqb Pos.eqb negb orb cassert]. rewrite !ret_bind. cbn [app].
  u32_norm. do 2 f_equal. lia.
Qed.

Section velocity.
Context `{Par : Parallel}.

(** Saved slots of the first [n] boxes. *)
Definition saves_slots (log : list event) (o : obj) (size n : Z) : Prop :=
  ∀ i : nat, (i < Z.to_nat (MAXATOMS * n))%nat →
    saves log o (size * Z.of_nat i) (size * Z.of_nat i + size).

Definition small (b : LinkCell) : Prop := 88 * (MAXATOMS * nTotalBoxes b) < 2 ^ 32.

Definition saves_counts (log : list event) (n : Z) : Prop :=
  ∀ k : nat, Z.of_nat k < n →
    saves log ObjNAtoms (sizeof_int * Z.of_nat k) (sizeof_int * Z.of_nat k + sizeof_int).

Lemma count_restored log s s0 n (k : nat) :
  restored log s s0 → saves_counts log n → Z.of_nat k < n →
  nAtoms (boxes s0) !! k = nAtoms (boxes s) !! k.
Proof. intros Hr Hs Hk. by apply (re_nAtoms _ _ _ Hr), Hs. Qed.

(** Boxes with the same saved counts have the same live slots. *)
Lemma live_slots_restored log s s0 n :
  restored log s s0 → saves_counts log n →
  live_slots (boxes s0) n = live_slots (boxes s) n.
Proof.
  intros Hr Hs. unfold live_slots. apply Forall_bind_ext, Forall_forall.
  intros k Hk%elem_of_seqZ. do 2 f_equal. unfold occ. f_equal.
  rewrite !list_lookup_total_alt. f_equal. eapply count_restored; [done..|lia].
Qed.

Lemma live_wf_restored log s s0 n :
  restored log s s0 → saves_counts log n → live_wf (boxes s) n → live_wf (boxes s0) n.
Proof.
  intros Hr Hs Hw k Hk. destruct (Hw k Hk) as (H1 & H2 & H3).
  pose proof (count_restored log s s0 n (Z.to_nat k) Hr Hs ltac:(lia)) as Hc.
  unfold occ in *. rewrite !list_lookup_total_alt in *. rewrite Hc.
  split_and!; [done| |done]. revert H2. unfold aload. by rewrite Hc.
Qed.

Lemma slot_restored {A} log o size n (x x0 : list A) i :
  same_saved log o size x x0 → saves_slots log o size n → 0 ≤ i < MAXATOMS * n →
  x0 !! Z.to_nat i = x !! Z.to_nat i.
Proof. intros Hs Hn Hi. apply Hs, Hn. lia. Qed.

(** ** The logs of the domains *)

Lemma velocity_start_log s dt :
  sim_wf s → small (boxes s) → ∃ log,
    velocity_start s dt =
      (s' ← advanceVelocity s (nLocalBoxes (boxes s)) (fhalf * dt)%R; Ok (s', log)) ∧
    saves_slots log ObjP sizeof_real3 (nLocalBoxes (boxes s)) ∧
    saves_slots log ObjF sizeof_real3 (nLocalBoxes (boxes s)) ∧
    saves_counts log (nLocalBoxes (boxes s)) ∧
    saves log ObjLinkCell off_nLocalBoxes (off_nLocalBoxes + sizeof_int) ∧
    ∀ lo hi, ¬ saves log ObjR lo hi.
Proof.
  intros [Hc Ha] Hs. pose proof (local_le_total _ Hc) as Hn. unfold velocity_start, small in *.
  rewrite !preserveAtoms_eq, preserveLinkCell_local_eq by (apply Hc || unfold MAXATOMS in *; lia).
  rewrite !ret_bind. cbn [Z.eqb Pos.eqb app].
  eexists. split; [reflexivity|]. cbn [Z.eqb Pos.eqb app].
  unfold saves_slots, saves_counts, MAXATOMS, sizeof_real3, sizeof_int in *.
  split_and!; intros; try find_saved.
  intros Hsv. no_saved Hsv.
Qed.

Lemma velocity_end_log s dt :
  sim_wf s → small (boxes s) → ∃ log,
    velocity_end s dt =
      (s' ← advanceVelocity s (nLocalBoxes (boxes s)) (fhalf * dt)%R; Ok (s', log)) ∧
    saves_slots log ObjP sizeof_real3 (nLocalBoxes (boxes s)) ∧
    saves_slots log ObjF sizeof_real3 (nLocalBoxes (boxes s)) ∧
    ∀ lo hi, ¬ saves log ObjNAtoms lo hi ∧ ¬ saves log ObjR lo hi.
Proof.
  intros [Hc Ha] Hs. pose proof (local_le_total _ Hc) as Hn. unfold velocity_end, small in *.
  rewrite !preserveAtoms_eq by (unfold MAXATOMS in *; lia).
  rewrite !ret_bind. cbn [Z.eqb Pos.eqb app].
  eexists. split; [reflexivity|]. cbn [Z.eqb Pos.eqb app].
  unfold saves_slots, MAXATOMS, sizeof_real3 in *. split_and!; intros; try find_saved.
  split; intros Hsv; no_saved Hsv.
Qed.

Lemma position_log s dt :
  sim_wf s → small (boxes s) → ∃ log,
    position s dt = (s' ← advancePosition s (nLocalBoxes (boxes s)) dt; Ok (s', log)) ∧
    saves_slots log ObjR sizeof_real3 (nLocalBoxes (boxes s)) ∧
    saves_slots log ObjP sizeof_real3 (nLocalBoxes (boxes s)) ∧
    saves_slots log ObjISpecies sizeof_int (nLocalBoxes (boxes s)) ∧
    saves_counts log (nLocalBoxes (boxes s)) ∧
    saves log ObjSpecies 0 sizeof_SpeciesData ∧
    saves log ObjLinkCell off_nLocalBoxes (off_nLocalBoxes + sizeof_int) ∧
    ∀ lo hi, ¬ saves log ObjF lo hi.
Proof.
  intros [Hc Ha] Hs. pose proof (local_le_total _ Hc) as Hn. unfold position, small in *.
  rewrite !preserveAtoms_eq, preserveLinkCell_local_eq by (apply Hc || unfold MAXATOMS in *; lia).
  rewrite !ret_bind. cbn [Z.eqb Pos.eqb app preserveSpeciesData].
  eexists. split; [reflexivity|]. cbn [Z.eqb Pos.eqb app].
  unfold saves_slots, saves_counts, MAXATOMS, sizeof_real3, sizeof_int in *.
  split_and!; intros; try find_saved.
  intros Hsv. no_saved Hsv.
Qed.

(** A kick depends only on what the velocity domains save. *)
Lemma kick_restored s s0 n dt :
  live_wf (boxes s) n → holds (atoms s) n → live_wf (boxes s0) n → holds (atoms s0) n →
  live_slots (boxes s0) n = live_slots (boxes s) n →
  (∀ i, 0 ≤ i < MAXATOMS * n → ap (atoms s0) !! Z.to_nat i = ap (atoms s) !! Z.to_nat i ∧
     af (atoms s0) !! Z.to_nat i = af (atoms s) !! Z.to_nat i) →
  ∃ s1 s01, advanceVelocity s n dt = Ok s1 ∧ advanceVelocity s0 n dt = Ok s01 ∧
    ∀ i, i ∈ live_slots (boxes s) n → ap (atoms s01) !! Z.to_nat i = ap (atoms s1) !! Z.to_nat i.
Proof.
  intros Hw Hh Hw0 Hh0 Hl Hpf. rewrite !advanceVelocity_eq by done. do 2 eexists.
  do 2 (split; [reflexivity|]). intros i Hi. cbn [atoms set_atoms ap set_p].
  destruct (Hpf i) as [Hp Hf]; [by apply live_slots_below in Hi|].
  rewrite !map_at_lookup, Hp, Hl. unfold kick. rewrite Z2Nat.id by (apply live_slots_below in Hi; [lia|done]).
  by rewrite !list_lookup_total_alt, Hf.
Qed.

(** The domain advanceVelocity_start saves enough. Take any storage [s0] whose
    arrays are still allocated and which agrees with the storage at the begin of
    the domain on the saved bytes: the body runs to its end from [s0], visits the
    same atoms, and leaves the same momenta. *)
Theorem velocity_start_recovers s s0 dt :
  sim_wf s → small (boxes s) → holds (atoms s0) (nLocalBoxes (boxes s)) →
  returns (velocity_start s dt) (λ '(s', log),
    restored log s s0 →
    live_slots (boxes s0) (nLocalBoxes (boxes s0)) = live_slots (boxes s) (nLocalBoxes (boxes s)) ∧
    returns (advanceVelocity s0 (nLocalBoxes (boxes s0)) (fhalf * dt)%R) (λ s0',
      ∀ i, i ∈ live_slots (boxes s) (nLocalBoxes (boxes s)) →
        ap (atoms s0') !! Z.to_nat i = ap (atoms s') !! Z.to_nat i)).
Proof.
  intros Hwf Hs Hh0. destruct (velocity_start_log s dt Hwf Hs) as (log & -> & Hp & Hf & Hn & Hl & _).
  pose proof Hwf as [Hc _]. pose proof (local_le_total _ Hc) as Hle.
  pose proof (counts_live _ _ Hc (proj2 Hle)) as Hw. pose proof (sim_holds _ _ Hwf (proj2 Hle)) as Hh.
  apply returns_Ok. eexists. split; [by rewrite advanceVelocity_eq, ret_bind|].
  intros Hr. rewrite (re_nLocalBoxes _ _ _ Hr Hl).
  pose proof (live_slots_restored _ _ _ _ Hr Hn) as Hlive. split; [done|].
  destruct (kick_restored s s0 (nLocalBoxes (boxes s)) (fhalf * dt)%R) as (s1 & s01 & H1 & -> & Heq);
    [done|done|by eapply live_wf_restored|done|done| |].
  - intros i Hi. split; [eapply slot_restored, Hi; [apply Hr|done]..].
  - rewrite advanceVelocity_eq in H1 by done. injection H1 as <-. exact Heq.
Qed.

(** The example state with the positions, or the forces, lost. *)
Definition no_r : SimFlat := set_atoms ex_sim (set_r (atoms ex_sim) (replicate 4096 zero3)).
Definition no_f : SimFlat := set_atoms ex_sim (set_f (atoms ex_sim) (replicate 4096 (V3 fone fone fone))).

Lemma ex_small : small (boxes ex_sim).
Proof. by vm_compute. Qed.

Lemma restored_no_r log : (∀ lo hi, ¬ saves log ObjR lo hi) → restored log ex_sim no_r.
Proof. intros H. split; [done..| |done|done|done|done]. intros i Hi. by destruct (H _ _ Hi). Qed.
Lemma restored_no_f log : (∀ lo hi, ¬ saves log ObjF lo hi) → restored log ex_sim no_f.
Proof. intros H. split; [done..| |done|done]. intros i Hi. by destruct (H _ _ Hi). Qed.
Lemma no_r_holds : holds (atoms no_r) 8.
Proof. unfold holds. vm_compute. lia. Qed.
Lemma no_f_holds : holds (atoms no_f) 8.
Proof. unfold holds. vm_compute. lia. Qed.

Lemma velocity_start_recovers_witness :
  returns (velocity_start ex_sim fone) (λ '(s', log),
    returns (advanceVelocity no_r 8 (fhalf * fone)%R) (λ s0',
      ap (atoms s0') !! 2%nat = ap (atoms s') !! 2%nat)).
Proof.
  pose proof (velocity_start_recovers ex_sim no_r fone ex_sim_wf ex_small no_r_holds) as H.
  destruct (velocity_start_log ex_sim fone ex_sim_wf ex_small) as (log & E & _ & _ & _ & _ & Hno).
  rewrite E in *. clear E.
  destruct (advanceVelocity ex_sim _ _) as [s'|]; [|exact H]. cbn [returns mbind res_bind] in *.
  destruct (H (restored_no_r log Hno)) as [_ H']. eapply returns_mono; [exact H'|].
  intros s0' Hp. apply (Hp 2). apply elem_of_live_slots. exists 0. vm_compute. split; split; congruence.
Defined.

(** The domain advanceVelocity_end saves the momenta and the forces but no
    count of the link cells: its body recomputes the same momenta from the saved
    bytes provided that the link cells themselves survived. *)
Theorem velocity_end_recovers s s0 dt :
  sim_wf s → small (boxes s) → holds (atoms s0) (nLocalBoxes (boxes s)) →
  returns (velocity_end s dt) (λ '(s', log),
    (∀ lo hi, ¬ saves log ObjNAtoms lo hi) ∧
    (restored log s s0 → boxes s0 = boxes s →
     returns (advanceVelocity s0 (nLocalBoxes (boxes s0)) (fhalf * dt)%R) (λ s0',
       ∀ i, i ∈ live_slots (boxes s) (nLocalBoxes (boxes s)) →
         ap (atoms s0') !! Z.to_nat i = ap (atoms s') !! Z.to_nat i))).
Proof.
  intros Hwf Hs Hh0. destruct (velocity_end_log s dt Hwf Hs) as (log & -> & Hp & Hf & Hn).
  pose proof Hwf as [Hc _]. pose proof (local_le_total _ Hc) as Hle.
  pose proof (counts_live _ _ Hc (proj2 Hle)) as Hw. pose proof (sim_holds _ _ Hwf (proj2 Hle)) as Hh.
  apply returns_Ok. eexists. split; [by rewrite advanceVelocity_eq, ret_bind|].
  split; [apply Hn|]. intros Hr Hb.
  destruct (kick_restored s s0 (nLocalBoxes (boxes s)) (fhalf * dt)%R) as (s1 & s01 & H1 & H2 & Heq);
    [done|done|by rewrite Hb|done|by rewrite Hb| |].
  - intros i Hi. split; [eapply slot_restored, Hi; [apply Hr|done]..].
  - rewrite Hb, H2. rewrite advanceVelocity_eq in H1 by done. injection H1 as <-. exact Heq.
Qed.

Lemma velocity_end_recovers_witness :
  returns (velocity_end ex_sim fone) (λ '(s', log),
    returns (advanceVelocity no_r 8 (fhalf * fone)%R) (λ s0',
      ap (atoms s0') !! 2%nat = ap (atoms s') !! 2%nat)).
Proof.
  pose proof (velocity_end_recovers ex_sim no_r fone ex_sim_wf ex_small no_r_holds) as H.
  destruct (velocity_end_log ex_sim fone ex_sim_wf ex_small) as (log & E & _ & _ & Hno).
  rewrite E in *. clear E.
  destruct (advanceVelocity ex_sim _ _) as [s'|]; [|exact H]. cbn [returns mbind res_bind] in *.
  destruct H as [_ H]. specialize (H (restored_no_r log (λ lo hi, proj2 (Hno lo hi))) eq_refl).
  eapply returns_mono; [exact H|].
  intros s0' Hp. apply (Hp 2). apply elem_of_live_slots. exists 0. vm_compute. split; split; congruence.
Defined.

(** The domain advancePosition saves enough, for a system of one species (the
    only kind the program sets up): from any storage that agrees on the saved
    bytes the body visits the same atoms and leaves the same positions. *)
Theorem position_recovers s s0 dt :
  sim_wf s → small (boxes s) → holds (atoms s0) (nLocalBoxes (boxes s)) →
  length (species s) = 1%nat → length (species s0) = 1%nat →
  species_ok s (nLocalBoxes (boxes s)) →
  returns (position s dt) (λ '(s', log),
    restored log s s0 →
    live_slots (boxes s0) (nLocalBoxes (boxes s0)) = live_slots (boxes s) (nLocalBoxes (boxes s)) ∧
    returns (advancePosition s0 (nLocalBoxes (boxes s0)) dt) (λ s0',
      ∀ i, i ∈ live_slots (boxes s) (nLocalBoxes (boxes s)) →
        ar (atoms s0') !! Z.to_nat i = ar (atoms s') !! Z.to_nat i)).
Proof.
  intros Hwf Hs Hh0 Hsp Hsp0 Hok.
  destruct (position_log s dt Hwf Hs) as (log & -> & Hr & Hp & Hi & Hn & Hspec & Hl & _).
  pose proof Hwf as [Hc _]. pose proof (local_le_total _ Hc) as Hle.
  pose proof (counts_live _ _ Hc (proj2 Hle)) as Hw. pose proof (sim_holds _ _ Hwf (proj2 Hle)) as Hh.
  apply returns_Ok. eexists. split; [by rewrite advancePosition_eq, ret_bind|].
  intros Hre. rewrite (re_nLocalBoxes _ _ _ Hre Hl).
  pose proof (live_slots_restored _ _ _ _ Hre Hn) as Hlive. split; [done|].
  assert (species s0 = species s) as Hse.
  { pose proof (re_species _ _ _ Hre 0%nat Hspec) as H0.
    destruct (species s) as [|x []], (species s0) as [|y []]; try done. by injection H0 as ->. }
  assert (∀ i, i ∈ live_slots (boxes s) (nLocalBoxes (boxes s)) →
    iSpecies (atoms s0) !!! Z.to_nat i = iSpecies (atoms s) !!! Z.to_nat i) as Hisp.
  { intros i Hin%live_slots_below; [|done]. rewrite !list_lookup_total_alt. f_equal.
    eapply slot_restored, Hin; [apply Hre|done]. }
  rewrite advancePosition_eq; [|by eapply live_wf_restored|done|].
  2:{ intros i. rewrite Hlive. intros Hin. rewrite Hisp, Hse by done. by apply Hok. }
  cbn [returns atoms set_atoms ar set_r]. intros i Hin.
  pose proof (live_slots_below _ _ _ Hw Hin) as Hib.
  rewrite !map_at_lookup, Hlive. rewrite (slot_restored _ _ _ _ _ _ i (re_r _ _ _ Hre) Hr Hib).
  unfold drift, mass_of. rewrite Z2Nat.id, Hse, Hisp by (done || lia).
  do 2 f_equal. rewrite !list_lookup_total_alt.
  by rewrite (slot_restored _ _ _ _ _ _ i (re_p _ _ _ Hre) Hp Hib).
Qed.

Lemma position_recovers_witness :
  returns (position ex_sim fone) (λ '(s', log),
    returns (advancePosition no_f 8 fone) (λ s0',
      ar (atoms s0') !! 2%nat = ar (atoms s') !! 2%nat)).
Proof.
  pose proof (position_recovers ex_sim no_f fone ex_sim_wf ex_small no_f_holds eq_refl eq_refl
    ltac:(apply species_ok_check; vm_compute; reflexivity)) as H.
  destruct (position_log ex_sim fone ex_sim_wf ex_small) as (log & E & _ & _ & _ & _ & _ & _ & Hno).
  rewrite E in *. clear E.
  destruct (advancePosition ex_sim _ _) as [s'|]; [|exact H]. cbn [returns mbind res_bind] in *.
  destruct (H (restored_no_f log Hno)) as [_ H']. eapply returns_mono; [exact H'|].
  intros s0' Hp. apply (Hp 2). apply elem_of_live_slots. exists 0. vm_compute. split; split; congruence.
Defined.

(** A force routine whose calls save nothing more, and which keeps the boxes. *)
Definition force_quiet {F} (force : F → SimFlat → res (F * SimFlat * list event)) : Prop :=
  ∀ fs s fs' s' log, force fs s = Ok (fs', s', log) →
    nLocalBoxes (boxes s') = nLocalBoxes (boxes s) ∧ ∀ o lo hi, ¬ saves log o lo hi.

(** The domain computeForce saves the identifiers and positions of every slot
    of the local boxes, for the force routines whose own calls save nothing. It
    saves no position of a halo box and no count, both of which the force routines
    read: its re-execution relies on the halo having survived. *)
Theorem compute_force_saves {F} (force : F → SimFlat → res (F * SimFlat * list event)) fs s fs' s' log :
  sim_wf s → small (boxes s) → force_quiet force →
  compute_force force fs s = Ok (fs', s', log) →
  saves_slots log ObjGid sizeof_int (nLocalBoxes (boxes s)) ∧
  saves_slots log ObjR sizeof_real3 (nLocalBoxes (boxes s)) ∧
  (∀ i, MAXATOMS * nLocalBoxes (boxes s) ≤ i →
     ¬ saves log ObjR (sizeof_real3 * i) (sizeof_real3 * i + sizeof_real3)) ∧
  ∀ lo hi, ¬ saves log ObjNAtoms lo hi.
Proof.
  intros [Hc Ha] Hs Hforce. pose proof (local_le_total _ Hc) as Hn. unfold compute_force, small in *.
  rewrite (preserveAtoms_eq 2), (preserveAtoms_eq 3) by (unfold MAXATOMS in *; lia).
  rewrite !ret_bind. intros H. apply bind_Ok in H as ([[fs1 s1] e3] & [Hl H3]%Hforce & H).
  rewrite Hl, (preserveAtoms_eq 2) in H by (unfold MAXATOMS in *; lia). rewrite ret_bind in H.
  cbn [Z.eqb Pos.eqb app] in H.
  match type of H with Ok (_, _, ?l) = _ => assert (log = l) as -> by congruence end. clear H.
  unfold saves_slots, MAXATOMS, sizeof_real3, sizeof_int in *. split_and!; intros; try find_saved.
  all: intros (lv & off & len & k & nm & Hin & Hk & ? & ?).
  all: repeat first [apply elem_of_app in Hin as [Hin|Hin]
    | apply elem_of_cons in Hin as [Hin|Hin]; [first [discriminate|idtac]|]
    | by apply elem_of_nil in Hin
    | by eapply H3; do 5 eexists; split; [exact Hin|]].
  all: injection Hin as -> -> -> -> ->; lia.
Qed.

Lemma no_force_quiet : force_quiet no_force.
Proof.
  intros fs s fs' s' log [= <- <- <-]. split; [done|]. intros o lo hi Hs.
  destruct Hs as (? & ? & ? & ? & ? & Hin & _). by apply elem_of_nil in Hin.
Qed.

Lemma compute_force_saves_witness :
  match compute_force no_force tt ex_sim with
  | Ok (_, _, log) => ¬ saves log ObjR (24 * 512) (24 * 512 + 24)
  | Err _ => False
  end.
Proof.
  destruct (compute_force no_force tt ex_sim) as [[[fs s] log]|] eqn:E.
  - destruct (compute_force_saves no_force tt ex_sim fs s log ex_sim_wf ex_small no_force_quiet E)
      as (_ & _ & Hr & _). apply (Hr 512). by vm_compute.
  - exfalso. assert ((if compute_force no_force tt ex_sim then true else false) = true) as Hc
      by (vm_compute; reflexivity). rewrite E in Hc. discriminate.
Defined.

(** The domain redistributeAtoms saves everything its body writes: the [Atoms]
    structure with every slot of every array, the [LinkCell] structure with every
    count, and each list of cells with its periodic factors. *)
Theorem redistribute_saves (h : HaloExchange SimFlat AtomMsg) s :
  sim_wf s → 88 * (MAXATOMS * nTotalBoxes (boxes s)) + sizeof_Atoms < 2 ^ 31 →
  (∃ s', redistributeAtoms h s = Ok s' ∧ nTotalBoxes (boxes s') = nTotalBoxes (boxes s)) →
  returns (redistribute h (atomExchangeCells (boxes s)) s) (λ '(s', log),
    let n := nTotalBoxes (boxes s) in
    saves log ObjAtoms 0 sizeof_Atoms ∧ saves log ObjLinkCell 0 sizeof_LinkCell ∧
    saves_slots log ObjGid sizeof_int n ∧ saves_slots log ObjISpecies sizeof_int n ∧
    saves_slots log ObjR sizeof_real3 n ∧ saves_slots log ObjP sizeof_real3 n ∧
    saves_slots log ObjF sizeof_real3 n ∧ saves_slots log ObjU sizeof_real n ∧
    saves_counts log n ∧
    ∀ face, 0 ≤ face < 6 →
      saves log (ObjCellList face) 0 (atomExchangeCells (boxes s) !!! Z.to_nat face * sizeof_int) ∧
      saves log (ObjPbcFactor face) 0 sizeof_real3).
Proof.
  intros [[Hlc Hc] Ha] Hs (s1 & Hr & Hn). pose proof Hlc as [Gx Gy Gz HL HH HT Hint _].
  set (b := boxes s) in *. assert (0 < nTotalBoxes b) as H0 by nia.
  assert (0 ≤ foldr Z.add 0 (atomExchangeCells b) ≤ 24 * nTotalBoxes b) as [Hn1 Hn2].
  { unfold atomExchangeCells. simpl. nia. }
  unfold redistribute. fold b.
  rewrite preserveAtoms_all_eq, preserveLinkCell_all_eq by (unfold MAXATOMS, sizeof_Atoms, sizeof_LinkCell in *; lia).
  rewrite preserveHaloAtom_eq; [|done| |unfold MAXATOMS, sizeof_Atoms in *; lia].
  2:{ apply Forall_forall. unfold atomExchangeCells. repeat constructor; nia. }
  rewrite Hr, !ret_bind, Hn.
  rewrite preserveAtoms_all_eq by (unfold MAXATOMS, sizeof_Atoms in *; lia). rewrite ret_bind.
  rewrite preserveLinkCell_all_eq by (rewrite Hn; unfold MAXATOMS, sizeof_Atoms, sizeof_LinkCell in *; lia).
  rewrite ret_bind. cbn [returns app fmap list_fmap]. clear -H0.
  unfold saves_slots, saves_counts, MAXATOMS, sizeof_real3, sizeof_real, sizeof_int in *.
  split_and!; intros; try find_saved.
  match goal with H : 0 ≤ ?face < 6 |- _ => face_cases face H end; split; find_saved.
Qed.

End velocity.

Lemma redistribute_saves_witness :
  returns (redistribute ex_atom_halo (atomExchangeCells ex_boxes) ex_sim) (λ '(s', log),
    saves_slots log ObjU sizeof_real 64).
Proof.
  eapply returns_mono; [apply (redistribute_saves ex_atom_halo ex_sim ex_sim_wf)|].
  - by vm_compute.
  - exists (get ex_sim (redistributeAtoms ex_atom_halo ex_sim)). split.
    + apply get_Ok. vm_compute. reflexivity.
    + vm_compute. reflexivity.
  - intros [s' log] (_ & _ & _ & _ & _ & _ & _ & HU & _). exact HU.
Defined.
