(* ===== verification/Pairs.v ===== *)
(** * Pairs: the pairs of atoms the force routines visit

    ljForce.c and eam.c loop over the local boxes, the 27 boxes around each, the
    atoms of the one and the atoms of the other, and skip what another iteration
    visits.  [visit] is the list of pairs such loops go through, and
    [visit_once] says when it has every pair once. *)

From Stdlib Require Import ZArith Lia.
From stdpp Require Import base list numbers sets.
From S2P Require Import Prelude Float64 Decomposition LinkCells Atoms CoMDTypes HaloExchange Timestep.

Definition neighbors (b : LinkCell) (k : Z) : list Z := get [] (getNeighborBoxes b k).
Definition box_slots (b : LinkCell) (k : Z) : list Z :=
  seqZ (MAXATOMS * k) (Z.of_nat (occ b (Z.to_nat k))).

(** The pairs of box [iBox]: neighbour box, slot of the local atom, other slot. *)
Definition visit_box (skip : Z → Z → Z → Z → bool) (b : LinkCell) (iBox : Z) : list (Z * Z * Z) :=
  jBox ← neighbors b iBox;
  i ← box_slots b iBox;
  j ← box_slots b jBox;
  if skip iBox jBox i j then [] else [(jBox, i, j)].

Definition visit (skip : Z → Z → Z → Z → bool) (b : LinkCell) : list (Z * Z * Z) :=
  seqZ 0 (nLocalBoxes b) ≫= visit_box skip b.

Lemma elem_of_box_slots b k i :
  i ∈ box_slots b k ↔ MAXATOMS * k ≤ i < MAXATOMS * k + Z.of_nat (occ b (Z.to_nat k)).
Proof. apply elem_of_seqZ. Qed.

Lemma foldM_ext {A S} (F G : A → S → res S) l s :
  (∀ x s, x ∈ l → F x s = G x s) → foldM F l s = foldM G l s.
Proof.
  revert s. induction l as [|x l IH]; intros s H; simpl; [done|].
  rewrite H by left. destruct (G x s); simpl; [|done]. apply IH. intros. apply H. by right.
Qed.

Lemma foldM_filter {A B S} (p : A → bool) (g : A → B) (F : B → S → res S) l s :
  foldM F (l ≫= λ x, if p x then [] else [g x]) s =
  foldM (λ x s, if p x then Ok s else F (g x) s) l s.
Proof.
  rewrite foldM_bind. apply foldM_ext. intros x s' _. destruct (p x); [done|]. simpl.
  by destruct (F (g x) s').
Qed.

(** ** Boxes and slots *)

Section boxes.
Context (b : LinkCell) (Hc : counts_wf b).

Lemma box_slots_range k i :
  0 ≤ k < nTotalBoxes b → i ∈ box_slots b k → 0 ≤ i < Z.of_nat (slot_count b).
Proof using Hc.
  intros Hk Hi%elem_of_box_slots. apply (live_slots_range b (k + 1)); [done|lia|].
  apply elem_of_live_slots. exists k. lia.
Qed.

Lemma box_slots_disjoint k k' i :
  0 ≤ k < nTotalBoxes b → 0 ≤ k' < nTotalBoxes b →
  i ∈ box_slots b k → i ∈ box_slots b k' → k = k'.
Proof using Hc.
  intros Hk Hk' Hi%elem_of_box_slots Hi'%elem_of_box_slots.
  pose proof (counts_occ b k Hc Hk). pose proof (counts_occ b k' Hc Hk'). unfold MAXATOMS in *. lia.
Qed.

Lemma neighbors_eq k t : local_tuple b t → box_index b t = k →
  getNeighborBoxes b k = Ok (neighbors b k) ∧ neighbors b k = box_index b <$> around t.
Proof using Hc.
  intros Ht <-. unfold neighbors. rewrite getNeighborBoxes_eq by (apply Hc || done). done.
Qed.

Lemma neighbors_Ok k : 0 ≤ k < nLocalBoxes b → getNeighborBoxes b k = Ok (neighbors b k).
Proof using Hc.
  intros Hk. destruct (local_box b k (proj1 Hc) Hk) as (t & Ht & _ & Hb). by apply (neighbors_eq k t).
Qed.

Lemma neighbors_range k j :
  0 ≤ k < nLocalBoxes b → j ∈ neighbors b k → 0 ≤ j < nTotalBoxes b.
Proof using Hc.
  intros Hk Hj. destruct Hc as [Hwf _]. destruct (local_box b k Hwf Hk) as (t & Ht & Hv & He).
  destruct (neighbors_eq k t Ht He) as [_ Hn]. rewrite Hn in Hj.
  apply list_elem_of_fmap in Hj as (t' & -> & Ht'%elem_of_around).
  apply (box_index_range b Hwf). by eapply around_valid.
Qed.

Lemma NoDup_neighbors k : 0 ≤ k < nLocalBoxes b → NoDup (neighbors b k).
Proof using Hc.
  intros Hk. destruct (local_box b k (proj1 Hc) Hk) as (t & Ht & _ & Hb).
  destruct (neighbors_eq k t Ht Hb) as [_ ->]. apply NoDup_boxes; [apply Hc| |apply NoDup_tuples_in].
  intros t'. rewrite elem_of_around. by apply around_valid.
Qed.

(** The neighbour relation between local boxes is symmetric. *)
Lemma neighbors_sym k k' :
  0 ≤ k < nLocalBoxes b → 0 ≤ k' < nLocalBoxes b → k' ∈ neighbors b k → k ∈ neighbors b k'.
Proof using Hc.
  intros Hk Hk' Hn. destruct (local_box b k (proj1 Hc) Hk) as (t & Ht & Hv & He).
  destruct (local_box b k' (proj1 Hc) Hk') as (t' & Ht' & Hv' & He').
  destruct (neighbors_eq k t Ht He) as [_ H1]. destruct (neighbors_eq k' t' Ht' He') as [_ H2].
  rewrite H1 in Hn. apply list_elem_of_fmap in Hn as (s & Hs & Ha%elem_of_around).
  rewrite <-He' in Hs. pose proof (around_valid b t s Ht Ha) as Hvs.
  apply box_index_inj in Hs as <-; [|apply Hc|done|done].
  rewrite H2. apply list_elem_of_fmap. exists t. split; [done|]. apply elem_of_around.
  unfold adjacent in *. lia.
Qed.
End boxes.

(** ** The pairs visited *)

Lemma elem_of_visit_box skip b iBox jBox i j :
  (jBox, i, j) ∈ visit_box skip b iBox ↔
  jBox ∈ neighbors b iBox ∧ i ∈ box_slots b iBox ∧ j ∈ box_slots b jBox ∧ skip iBox jBox i j = false.
Proof.
  unfold visit_box. rewrite list_elem_of_bind. setoid_rewrite list_elem_of_bind.
  setoid_rewrite list_elem_of_bind. split.
  - intros (jBox' & (i' & (j' & H & Hj) & Hi) & Hn).
    destruct (skip iBox jBox' i' j') eqn:E;
      first [by apply elem_of_nil in H | apply list_elem_of_singleton in H as [= -> -> ->]]; done.
  - intros (Hn & Hi & Hj & Hs). exists jBox. split; [|done]. exists i. split; [|done].
    exists j. split; [|done]. rewrite Hs. by left.
Qed.

Lemma elem_of_visit skip b jBox i j :
  (jBox, i, j) ∈ visit skip b ↔ ∃ iBox, 0 ≤ iBox < nLocalBoxes b ∧
    jBox ∈ neighbors b iBox ∧ i ∈ box_slots b iBox ∧ j ∈ box_slots b jBox ∧ skip iBox jBox i j = false.
Proof.
  unfold visit. rewrite list_elem_of_bind. setoid_rewrite elem_of_visit_box.
  setoid_rewrite elem_of_seqZ. split; intros (k & Ha & Hb); exists k; (split; [|done || lia]); [lia|done].
Qed.

Lemma visit_box_empty skip b iBox : occ b (Z.to_nat iBox) = 0%nat → visit_box skip b iBox = [].
Proof.
  intros H0. unfold visit_box.
  assert (box_slots b iBox = []) as -> by (unfold box_slots; by rewrite H0).
  by induction (neighbors b iBox).
Qed.

Lemma visit_range skip b jBox i j :
  counts_wf b → (jBox, i, j) ∈ visit skip b →
  0 ≤ i < Z.of_nat (slot_count b) ∧ 0 ≤ j < Z.of_nat (slot_count b).
Proof.
  intros Hc (k & Hk & Hn & Hi & Hj & _)%elem_of_visit.
  pose proof (local_le_total _ Hc). pose proof (neighbors_range b Hc k jBox Hk Hn).
  split; [eapply (box_slots_range b Hc k)|eapply (box_slots_range b Hc jBox)]; done || lia.
Qed.

(** An element of [if skip then [] else [x]]. *)
Lemma elem_of_unless {A} (p : bool) (x y : A) : x ∈ (if p then [] else [y]) → x = y.
Proof. destruct p; [by intros ?%elem_of_nil|by intros ?%list_elem_of_singleton]. Qed.

Lemma NoDup_visit skip b : counts_wf b → NoDup (visit skip b).
Proof.
  intros Hc. pose proof (local_le_total _ Hc). unfold visit. apply NoDup_bind.
  - intros k k' [[jB i] j] Hk Hk' (_ & Hi & _)%elem_of_visit_box (_ & Hi' & _)%elem_of_visit_box.
    apply elem_of_seqZ in Hk, Hk'. apply (box_slots_disjoint b Hc k k' i); done || lia.
  - intros k Hk%elem_of_seqZ. unfold visit_box. apply NoDup_bind; [| |apply NoDup_neighbors; [done|lia]].
    + intros jB jB' [[x i] j] _ _ (i1 & (j1 & H1%elem_of_unless & _)%list_elem_of_bind & _)%list_elem_of_bind
        (i2 & (j2 & H2%elem_of_unless & _)%list_elem_of_bind & _)%list_elem_of_bind. congruence.
    + intros jB _. apply NoDup_bind; [| |apply NoDup_seqZ].
      * intros i i' [[x i0] j] _ _ (j1 & H1%elem_of_unless & _)%list_elem_of_bind
          (j2 & H2%elem_of_unless & _)%list_elem_of_bind. congruence.
      * intros i _. apply NoDup_bind; [| |apply NoDup_seqZ].
        -- intros j j' [[x i0] j0] _ _ H1%elem_of_unless H2%elem_of_unless. congruence.
        -- intros j _. destruct (skip _ _ _ _); [apply NoDup_nil_2|apply NoDup_singleton].
  - apply NoDup_seqZ.
Qed.

(** Every pair once: none is repeated; two different local atoms of the same or
    adjacent boxes are visited from one of them and not from the other; a local
    atom and an atom of an adjacent halo box are visited from the local one;
    nothing else is. *)
Definition pairs_once (b : LinkCell) (l : list (Z * Z * Z)) : Prop :=
  NoDup l ∧
  (∀ k k' i j, 0 ≤ k < nLocalBoxes b → 0 ≤ k' < nLocalBoxes b → k' ∈ neighbors b k →
     i ∈ box_slots b k → j ∈ box_slots b k' → i ≠ j →
     ((k', i, j) ∈ l ∧ (k, j, i) ∉ l ∨ (k', i, j) ∉ l ∧ (k, j, i) ∈ l)) ∧
  (∀ k k' i j, 0 ≤ k < nLocalBoxes b → nLocalBoxes b ≤ k' → k' ∈ neighbors b k →
     i ∈ box_slots b k → j ∈ box_slots b k' → (k', i, j) ∈ l) ∧
  (∀ k' i j, (k', i, j) ∈ l →
     ∃ k, 0 ≤ k < nLocalBoxes b ∧ k' ∈ neighbors b k ∧ i ∈ box_slots b k ∧ j ∈ box_slots b k' ∧ i ≠ j).

(** Of two local atoms, [skip] leaves out exactly one order; it leaves out no halo
    atom, and never pairs an atom with itself. *)
Lemma visit_once skip b :
  counts_wf b →
  (∀ k k' i j, 0 ≤ k < nLocalBoxes b → 0 ≤ k' < nLocalBoxes b →
     i ∈ box_slots b k → j ∈ box_slots b k' → i ≠ j → skip k' k j i = negb (skip k k' i j)) →
  (∀ k k' i j, 0 ≤ k < nLocalBoxes b → nLocalBoxes b ≤ k' → skip k k' i j = false) →
  (∀ k i, 0 ≤ k < nLocalBoxes b → skip k k i i = true) →
  pairs_once b (visit skip b).
Proof.
  intros Hc Hl Hh Hi. pose proof (local_le_total _ Hc) as Hle.
  split_and!; [by apply NoDup_visit|..].
  - intros k k' i j Hk Hk' Hn Hki Hkj Hne. rewrite !elem_of_visit.
    assert (∀ k1 k2 x y, 0 ≤ k1 < nLocalBoxes b → 0 ≤ k2 < nLocalBoxes b → k2 ∈ neighbors b k1 →
      x ∈ box_slots b k1 → y ∈ box_slots b k2 → skip k1 k2 x y = true →
      ¬ (∃ k0, 0 ≤ k0 < nLocalBoxes b ∧ k2 ∈ neighbors b k0 ∧ x ∈ box_slots b k0 ∧ y ∈ box_slots b k2 ∧
        skip k0 k2 x y = false)) as Hno.
    { intros k1 k2 x y H1 H2 _ Hx _ Hs (k0 & H0 & _ & Hx' & _ & Hs').
      assert (k0 = k1) as -> by (apply (box_slots_disjoint b Hc k0 k1 x); done || lia). congruence. }
    pose proof (neighbors_sym b Hc k k' Hk Hk' Hn) as Hn'.
    pose proof (Hl k k' i j Hk Hk' Hki Hkj Hne) as Hs. destruct (skip k k' i j) eqn:E; simpl in Hs.
    + right. split; [by apply (Hno k k' i j)|]. by exists k'.
    + left. split; [by exists k|]. by apply (Hno k' k j i).
  - intros k k' i j Hk Hk' Hn Hki Hkj. apply elem_of_visit. exists k.
    split_and!; [lia|lia|done..|by apply Hh].
  - intros k' i j (k & Hk & Hn & Hki & Hkj & Hs)%elem_of_visit. exists k. split_and!; [lia|lia|done..|].
    intros <-. pose proof (neighbors_range b Hc k k' Hk Hn).
    assert (k' = k) as -> by (apply (box_slots_disjoint b Hc k' k i); done || lia).
    rewrite Hi in Hs; [done|lia].
Qed.

(** The box loop of a force routine, whose body visits the pairs of its box. *)
Lemma visit_loop {S} (F : Z * Z * Z → S → res S) skip b s :
  for_range 0 (nLocalBoxes b) (λ iBox, foldM F (visit_box skip b iBox)) s = foldM F (visit skip b) s.
Proof. unfold visit, for_range. by rewrite foldM_bind, Z.sub_0_r. Qed.
