(* ===== verification/LjForce.v ===== *)
(** * LjForce: the Lennard-Jones force routine (ljForce.c)

    [ljForce] visits every pair of a local atom and an atom of one of the 27
    boxes around it, local pairs once. When it is called by the integrator (not
    by the initialisation, which the static flag [is_not_first] tells apart), it
    splits the loop over the boxes into level-4 containment domains of
    [CD4_INTERVAL] boxes. *)

From Stdlib Require Import ZArith Lia String.
From stdpp Require Import base list numbers sets strings.
From S2P Require Import Prelude Float64 Parallel Decomposition LinkCells Atoms CoMDTypes HaloExchange Cd CdComd Timestep Recovery Pairs.

(** constants.h *)
Definition amuInKilograms : real_t := flit 1660538921 (10 ^ 36).
Definition fsInSeconds : real_t := flit 1 (10 ^ 15).
Definition AngsInMeters : real_t := flit 1 (10 ^ 10).
Definition eVInJoules : real_t := flit 1602176565 (10 ^ 28).
Definition amuToInternalMass : real_t :=
  (amuInKilograms * AngsInMeters * AngsInMeters / (fsInSeconds * fsInSeconds * eVInJoules))%R.

(** [initLjPot]. *)
Definition initLjPot : LjPotential :=
  let sigma := flit 2315 1000 in
  mkLj (mkBase (flit 25 10 * sigma)%R (flit 6355 100 * amuToInternalMass)%R (flit 3615 1000)
          "FCC" "Cu" 29)
    sigma (flit 167 1000).

(** What the loops update: forces, energies per atom, total energy. *)
Record LjAcc := mkAcc { lj_f : list real3; lj_U : list real_t; lj_ePot : real_t }.

(** The constants computed before the loops. *)
Record LjConst := mkLjConst { k_s6 : real_t; k_rCut2 : real_t; k_eShift : real_t; k_epsilon : real_t }.

Definition ljConst (pot : LjPotential) : LjConst :=
  let sigma := sigma pot in
  let rCut := cutoff (lj_base pot) in
  let rCut2 := (rCut * rCut)%R in
  let s6 := (sigma * sigma * sigma * sigma * sigma * sigma)%R in
  let rCut6 := (s6 / (rCut2 * rCut2 * rCut2))%R in
  let eShift := (fone * rCut6 * (rCut6 - fone))%R in
  mkLjConst s6 rCut2 eShift (epsilon pot).

(** Zeroing forces and energies of all slots. *)
Definition ljZero (s : SimFlat) : res LjAcc :=
  fSize ← int32 (nTotalBoxes (boxes s) * MAXATOMS);
  '(f, U) ← for_range 0 fSize (λ ii fU,
    f ← astore fU.1 ii zero3;
    U ← astore fU.2 ii fzero;
    Ok (f, U)) (af (atoms s), aU (atoms s));
  Ok (mkAcc f U fzero).

(** One pair of atoms. *)
Definition ljPair (c : LjConst) (nLocal : Z) (r : list real3) (jBox iOff jOff : Z) (acc : LjAcc)
    : res LjAcc :=
  ri ← aload r iOff;
  rj ← aload r jOff;
  let dr := vmap2 fsub ri rj in
  let r2 := (fzero + v0 dr * v0 dr + v1 dr * v1 dr + v2 dr * v2 dr)%R in
  if (k_rCut2 c <? r2)%R then Ok acc else
  let r2 := (fone / r2)%R in
  let r6 := (k_s6 c * (r2 * r2 * r2))%R in
  let eLocal := (r6 * (r6 - fone) - k_eShift c)%R in
  ui ← aload (lj_U acc) iOff;
  U ← astore (lj_U acc) iOff (ui + fhalf * eLocal)%R;
  uj ← aload U jOff;
  U ← astore U jOff (uj + fhalf * eLocal)%R;
  let ePot := if jBox <? nLocal then (lj_ePot acc + eLocal)%R
              else (lj_ePot acc + fhalf * eLocal)%R in
  let fr := (f64 (-4) * k_epsilon c * r6 * r2 * (f64 12 * r6 - f64 6))%R in
  fi ← aload (lj_f acc) iOff;
  f ← astore (lj_f acc) iOff (vmap2 (λ x d, x - d * fr)%R fi dr);
  fj ← aload f jOff;
  f ← astore f jOff (vmap2 (λ x d, x + d * fr)%R fj dr);
  Ok (mkAcc f U ePot).

(** The atoms of [jBox] against atom [iOff]. *)
Definition ljInner (c : LjConst) (b : LinkCell) (a : Atoms) (jBox nJBox iOff : Z) (acc : LjAcc)
    : res LjAcc :=
  iId ← aload (gid a) iOff;
  jOff0 ← int32 (MAXATOMS * jBox);
  for_range jOff0 (jOff0 + nJBox) (λ jOff acc,
    jId ← aload (gid a) jOff;
    if (jBox <? nLocalBoxes b) && (jId <=? iId) then Ok acc
    else ljPair c (nLocalBoxes b) (ar a) jBox iOff jOff acc) acc.

(** The atoms of [iBox] against those of a neighbour box. *)
Definition ljNeighbor (c : LjConst) (b : LinkCell) (a : Atoms) (iBox nIBox jBox : Z) (acc : LjAcc)
    : res LjAcc :=
  _ ← cassert (0 <=? jBox);
  nJBox ← aload (nAtoms b) jBox;
  if nJBox =? 0 then Ok acc else
  iOff0 ← int32 (iBox * MAXATOMS);
  for_range iOff0 (iOff0 + nIBox) (ljInner c b a jBox nJBox) acc.

(** Begin of a level-4 domain: preserved by reference are identifiers and
    positions, by copy the loop index, the forces and the energies. *)
Definition ljBegin (lv interval : Z) (not_first : bool) (b : LinkCell) (iBox : Z)
    : res (option (list event)) :=
  if not_first then
    m ← crem iBox interval;
    if m =? 0 then
      '(ev1, _) ← preserveAtoms lv kRef (nLocalBoxes b) 0 1 1 0 0 0 0 0 (-1) None;
      _ ← int32 (iBox + interval);
      '(ev2, _) ← preserveAtoms lv kCopy (nLocalBoxes b) 0 0 0 0 1 1 0 0 (-1) None;
      Ok (Some (CdBegin lv "computeForce_loop" :: ev1 ++
                [preserve lv (ObjVar "iBox") 0 sizeof_int kCopy "iBox"] ++ ev2))
    else Ok None
  else Ok None.

(** End of a level-4 domain. *)
Definition ljEnd (lv interval : Z) (not_first : bool) (iBox : Z) : res (option (list event)) :=
  if not_first then
    m ← crem iBox interval;
    Ok (if m =? interval - 1 then Some [CdDetect lv; CdComplete lv] else None)
  else Ok None.

(** What the loop over the boxes threads: the accumulators, the flag
    [is_lv4_completed] and the calls made. *)
Record LjState := mkLjState { st_acc : LjAcc; st_completed : bool; st_log : list event }.

Definition st_mark (o : option (list event)) (completed : bool) (st : LjState) : LjState :=
  match o with
  | Some ev => mkLjState (st_acc st) completed (st_log st ++ ev)
  | None => st
  end.
Definition st_timer (e : event) (st : LjState) : LjState :=
  mkLjState (st_acc st) (st_completed st) (st_log st ++ [e]).

(** One iteration of the loop over the local boxes. *)
Definition ljBox (lv interval : Z) (not_first : bool) (c : LjConst) (b : LinkCell) (a : Atoms)
    (iBox : Z) (st : LjState) : res LjState :=
  o ← ljBegin lv interval not_first b iBox;
  let st := st_timer (TimerStart "ljForceTimer") (st_mark o false st) in
  nIBox ← aload (nAtoms b) iBox;
  if nIBox =? 0 then
    o ← ljEnd lv interval not_first iBox;
    Ok (st_mark o true st)
  else
    nbrBoxes ← getNeighborBoxes b iBox;
    acc ← foldM (ljNeighbor c b a iBox nIBox) nbrBoxes (st_acc st);
    let st := st_timer (TimerStop "ljForceTimer")
                (mkLjState acc (st_completed st) (st_log st)) in
    o ← ljEnd lv interval not_first iBox;
    Ok (st_mark o true st).

(** [ljForce]; [lv] is the level of the domain it creates, [not_first] the static
    flag, which is set at the end. *)
Definition ljForce (pot : LjPotential) (lv : Z) (not_first : bool) (s : SimFlat)
    : res (bool * SimFlat * list event) :=
  let interval := preserveRateLevel4 s in
  let ev0 := if not_first then [CdCreate lv "ljForce_loop"] else [] in
  let c := ljConst pot in
  acc ← ljZero s;
  st ← for_range 0 (nLocalBoxes (boxes s))
         (ljBox lv interval not_first c (boxes s) (atoms s)) (mkLjState acc false []);
  let ev1 :=
    if not_first then
      (if st_completed st then [] else [CdDetect lv; CdComplete lv]) ++ [CdDestroy lv]
    else [] in
  let acc := st_acc st in
  let s' := set_atoms s (set_U (set_f (atoms s) (lj_f acc)) (lj_U acc)) in
  Ok (true, set_ePotential s' (lj_ePot acc * f64 4 * k_epsilon c)%R, ev0 ++ st_log st ++ ev1).

(** ** The pairs visited *)

(** A pair of local atoms is visited from the one with the smaller identifier. *)
Definition lj_skip (b : LinkCell) (a : Atoms) (iBox jBox i j : Z) : bool :=
  (jBox <? nLocalBoxes b) && (gid a !!! Z.to_nat j <=? gid a !!! Z.to_nat i).

Definition lj_pairs (b : LinkCell) (a : Atoms) : list (Z * Z * Z) := visit (lj_skip b a) b.

Definition pair_step (c : LjConst) (b : LinkCell) (a : Atoms) (p : Z * Z * Z) : LjAcc → res LjAcc :=
  ljPair c (nLocalBoxes b) (ar a) p.1.1 p.1.2 p.2.

Section pairs.
Context (c : LjConst) (b : LinkCell) (a : Atoms).
Context (Hc : counts_wf b) (Ha : atoms_wf b a).

Lemma ljInner_eq iBox jBox i acc :
  0 ≤ iBox < nTotalBoxes b → 0 ≤ jBox < nTotalBoxes b → i ∈ box_slots b iBox →
  ljInner c b a jBox (Z.of_nat (occ b (Z.to_nat jBox))) i acc =
  foldM (pair_step c b a) (j ← box_slots b jBox;
    if lj_skip b a iBox jBox i j then [] else [(jBox, i, j)]) acc.
Proof using Hc Ha.
  intros Hi Hj Hin. pose proof (len_gid _ _ Ha) as Lg. unfold ljInner.
  rewrite aload_total by (rewrite Lg; by eapply (box_slots_range b Hc iBox)).
  rewrite ret_bind. destruct (counts_bounds b jBox Hc Hj) as (Hm & _ & _).
  rewrite (Z.mul_comm jBox) in Hm. rewrite Hm, ret_bind. rewrite foldM_filter.
  unfold for_range. rewrite Z.add_simpl_l. apply foldM_ext. intros j acc' Hjn.
  rewrite aload_total by (rewrite Lg; by eapply (box_slots_range b Hc jBox)). done.
Qed.

Lemma ljNeighbor_eq iBox jBox acc :
  0 ≤ iBox < nTotalBoxes b → 0 ≤ jBox < nTotalBoxes b →
  ljNeighbor c b a iBox (Z.of_nat (occ b (Z.to_nat iBox))) jBox acc =
  foldM (pair_step c b a) (i ← box_slots b iBox; j ← box_slots b jBox;
    if lj_skip b a iBox jBox i j then [] else [(jBox, i, j)]) acc.
Proof using Hc Ha.
  intros Hi Hj. unfold ljNeighbor. rewrite cassert_true, ret_bind by lia.
  destruct (counts_bounds b jBox Hc Hj) as (_ & -> & _).
  destruct (counts_bounds b iBox Hc Hi) as (-> & _ & _). rewrite !ret_bind.
  rewrite foldM_bind. unfold for_range. rewrite Z.add_simpl_l.
  destruct (Z.eqb_spec (Z.of_nat (occ b (Z.to_nat jBox))) 0) as [H0|H0].
  - assert (box_slots b jBox = []) as -> by (unfold box_slots; by rewrite H0).
    by induction (box_slots b iBox).
  - rewrite (Z.mul_comm iBox). apply foldM_ext. intros i acc' Hin. by apply (ljInner_eq iBox).
Qed.

Lemma ljBox_pairs iBox acc :
  0 ≤ iBox < nLocalBoxes b →
  foldM (ljNeighbor c b a iBox (Z.of_nat (occ b (Z.to_nat iBox)))) (neighbors b iBox) acc =
  foldM (pair_step c b a) (visit_box (lj_skip b a) b iBox) acc.
Proof using Hc Ha.
  intros Hi. pose proof (local_le_total _ Hc). unfold visit_box. rewrite foldM_bind.
  apply foldM_ext. intros j acc' Hj. apply ljNeighbor_eq; [lia|by eapply (neighbors_range b Hc)].
Qed.

End pairs.

(** ** The loop over the boxes *)

Section loop.
Context (lv interval : Z) (not_first : bool) (c : LjConst) (b : LinkCell) (a : Atoms).
Context (Hc : counts_wf b) (Ha : atoms_wf b a).
Context (Hint : 0 < interval) (Hmax : nLocalBoxes b + interval ≤ INT_MAX).
Context (Hsmall : 88 * (MAXATOMS * nTotalBoxes b) < 2 ^ 32).

(** The calls of iteration [iBox]. *)
Definition begin_events (iBox : Z) : list event :=
  if not_first && (iBox mod interval =? 0) then
    let n := MAXATOMS * nLocalBoxes b in
    [CdBegin lv "computeForce_loop";
     preserve lv ObjAtoms 0 sizeof_Atoms kRef "Atoms";
     preserve lv ObjGid 0 (n * 4) kRef "Atoms_gid"; preserve lv ObjR 0 (n * 24) kRef "Atoms_r";
     preserve lv (ObjVar "iBox") 0 sizeof_int kCopy "iBox";
     preserve lv ObjAtoms 0 sizeof_Atoms kCopy "Atoms";
     preserve lv ObjF 0 (n * 24) kCopy "Atoms_f"; preserve lv ObjU 0 (n * 8) kCopy "Atoms_U"]
  else [].
Definition end_events (iBox : Z) : list event :=
  if not_first && (iBox mod interval =? interval - 1) then [CdDetect lv; CdComplete lv] else [].
Definition timer_events (iBox : Z) : list event :=
  TimerStart "ljForceTimer" ::
    if decide (occ b (Z.to_nat iBox) = 0%nat) then [] else [TimerStop "ljForceTimer"].
Definition box_events (iBox : Z) : list event :=
  begin_events iBox ++ timer_events iBox ++ end_events iBox.

(** The flag [is_lv4_completed] after [n] iterations. *)
Definition completed_after (n : Z) : bool := not_first && (0 <? n) && (n mod interval =? 0).

Lemma ljBegin_eq iBox completed st :
  0 ≤ iBox < nLocalBoxes b →
  ∃ o, ljBegin lv interval not_first b iBox = Ok o ∧
    st_mark o completed st =
      mkLjState (st_acc st) (if not_first && (iBox mod interval =? 0) then completed else st_completed st)
        (st_log st ++ begin_events iBox).
Proof using Hc Hint Hmax Hsmall.
  intros Hi. pose proof (local_le_total _ Hc). unfold ljBegin, begin_events.
  destruct not_first; simpl andb; [|eexists; split; [done|]; destruct st; simpl; by rewrite app_nil_r].
  rewrite crem_Ok, ret_bind by lia. destruct (iBox mod interval =? 0).
  - rewrite !preserveAtoms_eq by (unfold MAXATOMS in *; lia).
    rewrite !ret_bind, int32_Ok by (unfold INT_MAX, INT_MIN in *; lia). rewrite ret_bind.
    eexists. split; [reflexivity|]. reflexivity.
  - eexists; split; [done|]; destruct st; simpl; by rewrite app_nil_r.
Qed.

Lemma ljEnd_eq iBox completed st :
  0 ≤ iBox →
  ∃ o, ljEnd lv interval not_first iBox = Ok o ∧
    st_mark o completed st =
      mkLjState (st_acc st)
        (if not_first && (iBox mod interval =? interval - 1) then completed else st_completed st)
        (st_log st ++ end_events iBox).
Proof using Hint.
  intros Hi. unfold ljEnd, end_events.
  destruct not_first; simpl andb; [|eexists; split; [done|]; destruct st; simpl; by rewrite app_nil_r].
  rewrite crem_Ok, ret_bind by lia. eexists. split; [done|].
  destruct (iBox mod interval =? interval - 1); [done|]; destruct st; simpl; by rewrite app_nil_r.
Qed.

Lemma completed_step iBox (x : bool) :
  0 ≤ iBox → x = completed_after iBox →
  (if not_first && (iBox mod interval =? interval - 1) then true
   else if not_first && (iBox mod interval =? 0) then false else x) = completed_after (iBox + 1).
Proof using Hint.
  intros Hi ->. unfold completed_after. destruct not_first; [|done]. simpl.
  assert ((0 <? iBox + 1) = true) as -> by lia. simpl.
  pose proof (Z.mod_pos_bound iBox interval Hint).
  destruct (Z.eqb_spec (iBox mod interval) (interval - 1)) as [He|He].
  - rewrite <-Z.add_mod_idemp_l, He by lia. replace (interval - 1 + 1) with interval by lia.
    by rewrite Z_mod_same_full.
  - rewrite <-(Z.add_mod_idemp_l iBox), (Z.mod_small (_ + 1)) by lia.
    destruct (Z.eqb_spec (iBox mod interval) 0) as [H0|H0];
      destruct (Z.eqb_spec (iBox mod interval + 1) 0); try lia; by rewrite ?andb_false_r.
Qed.

Lemma ljBox_eq iBox st :
  0 ≤ iBox < nLocalBoxes b → st_completed st = completed_after iBox →
  ljBox lv interval not_first c b a iBox st =
    (acc ← foldM (pair_step c b a) (visit_box (lj_skip b a) b iBox) (st_acc st);
     Ok (mkLjState acc (completed_after (iBox + 1)) (st_log st ++ box_events iBox))).
Proof using Hc Ha Hint Hmax Hsmall.
  intros Hi Hd. pose proof (local_le_total _ Hc). unfold ljBox.
  destruct (ljBegin_eq iBox false st Hi) as (o & -> & Ho). rewrite ret_bind, Ho.
  destruct (counts_bounds b iBox Hc ltac:(lia)) as (_ & -> & _). rewrite ret_bind.
  rewrite <-(completed_step iBox (st_completed st)) by (done || lia).
  unfold box_events, timer_events.
  destruct (Z.eqb_spec (Z.of_nat (occ b (Z.to_nat iBox))) 0) as [H0|H0].
  - rewrite visit_box_empty by lia. rewrite decide_True by lia.
    match goal with |- context [st_mark _ true ?s] =>
      destruct (ljEnd_eq iBox true s) as (o' & -> & Ho'); [lia|] end.
    rewrite ret_bind, Ho'. simpl. by rewrite <-!app_assoc.
  - rewrite decide_False by lia.
    rewrite (neighbors_Ok b Hc iBox Hi), ret_bind.
    rewrite (ljBox_pairs c b a Hc Ha) by done. cbn [st_acc st_timer].
    destruct (foldM (pair_step c b a) _ (st_acc st)) as [acc|]; [|done]. rewrite !ret_bind.
    match goal with |- context [st_mark _ true ?s] =>
      destruct (ljEnd_eq iBox true s) as (o' & -> & Ho'); [lia|] end.
    rewrite ret_bind, Ho'. simpl. by rewrite <-!app_assoc.
Qed.

Lemma lj_loop acc :
  for_range 0 (nLocalBoxes b) (ljBox lv interval not_first c b a) (mkLjState acc false []) =
    (acc ← foldM (pair_step c b a) (lj_pairs b a) acc;
     Ok (mkLjState acc (completed_after (nLocalBoxes b)) (seqZ 0 (nLocalBoxes b) ≫= box_events))).
Proof using Hc Ha Hint Hmax Hsmall.
  pose proof (local_le_total _ Hc) as [Hn _]. unfold lj_pairs, visit.
  enough (∀ n, 0 ≤ n → n ≤ nLocalBoxes b →
    for_range 0 n (ljBox lv interval not_first c b a) (mkLjState acc false []) =
      (acc ← foldM (pair_step c b a) (seqZ 0 n ≫= visit_box (lj_skip b a) b) acc;
       Ok (mkLjState acc (completed_after n) (seqZ 0 n ≫= box_events)))) as H by (apply H; lia).
  intros n Hn0. pattern n. apply natlike_ind; [| |done]; clear n Hn0.
  - intros _. rewrite for_range_nil by lia. simpl. unfold completed_after.
    by rewrite andb_false_r.
  - intros n Hn0 IH Hle. unfold Z.succ. rewrite for_range_snoc by lia. rewrite IH by lia.
    rewrite seqZ_app, Z.add_0_l by lia. simpl seqZ.
    rewrite !bind_app, foldM_app.
    destruct (foldM _ (seqZ 0 n ≫= _) acc) as [acc'|]; [|done]. rewrite !ret_bind.
    rewrite ljBox_eq by (done || lia). cbn [st_acc st_log].
    assert (seqZ n 1 = [n]) as -> by done. by rewrite !list_bind_singleton_l.
Qed.
End loop.

(** ** The accumulators *)

Lemma ljPair_returns c nl r jBox i j acc m :
  length r = m → length (lj_f acc) = m → length (lj_U acc) = m →
  0 ≤ i < Z.of_nat m → 0 ≤ j < Z.of_nat m →
  returns (ljPair c nl r jBox i j acc) (λ acc', length (lj_f acc') = m ∧ length (lj_U acc') = m).
Proof.
  intros Hr Hf HU Hi Hj. unfold ljPair.
  rewrite (aload_total r i), ret_bind by lia. rewrite (aload_total r j), ret_bind by lia.
  cbv zeta. destruct (fltb _ _); [done|].
  rewrite (aload_total (lj_U acc)), ret_bind, astore_Ok, ret_bind by lia.
  rewrite (aload_total (<[_:=_]> _)), ret_bind, astore_Ok, ret_bind by (rewrite length_insert; lia).
  rewrite (aload_total (lj_f acc)), ret_bind, astore_Ok, ret_bind by lia.
  rewrite (aload_total (<[_:=_]> _)), ret_bind, astore_Ok, ret_bind by (rewrite length_insert; lia).
  simpl. by rewrite !length_insert.
Qed.

Lemma pairs_return c b a acc :
  counts_wf b → atoms_wf b a →
  length (lj_f acc) = slot_count b → length (lj_U acc) = slot_count b →
  returns (foldM (pair_step c b a) (lj_pairs b a) acc) (λ acc',
    length (lj_f acc') = slot_count b ∧ length (lj_U acc') = slot_count b).
Proof.
  intros Hc Ha Hf HU. apply (foldM_inv (λ _ acc', length (lj_f acc') = slot_count b ∧
    length (lj_U acc') = slot_count b)); [done|].
  intros l1 [[jBox i] j] l2 acc' Hl [Hf' HU'].
  assert ((jBox, i, j) ∈ lj_pairs b a) as Hin by (rewrite Hl; set_solver).
  apply (visit_range _ _ _ _ _ Hc) in Hin as [Hi Hj]. apply ljPair_returns; [apply Ha|done..].
Qed.

Lemma insert_replicate_drop {A} (x : A) (l : list A) n :
  (n < length l)%nat →
  <[n := x]> (replicate n x ++ drop n l) = replicate n x ++ [x] ++ drop (S n) l.
Proof.
  intros Hn. rewrite insert_app_r_alt by (rewrite length_replicate; lia).
  rewrite length_replicate, Nat.sub_diag. f_equal.
  destruct (lookup_lt_is_Some_2 l n Hn) as [y Hy]. by rewrite (drop_S l y n Hy).
Qed.

Lemma ljZero_eq s : sim_wf s →
  ljZero s = Ok (mkAcc (replicate (slot_count (boxes s)) zero3)
                       (replicate (slot_count (boxes s)) fzero) fzero).
Proof.
  intros [[Hwf _] Ha]. pose proof Hwf as [Gx Gy Gz HL HH HT Hint _].
  assert (0 ≤ nTotalBoxes (boxes s)) as H0 by nia. unfold ljZero.
  rewrite int32_Ok, ret_bind by (unfold MAXATOMS, INT_MIN, INT_MAX in *; lia).
  set (n := slot_count (boxes s)). assert (nTotalBoxes (boxes s) * MAXATOMS = Z.of_nat n) as ->
    by (subst n; unfold slot_count, MAXATOMS in *; lia).
  match goal with |- context [for_range 0 _ ?body _] =>
    assert (returns (for_range 0 (Z.of_nat n) body (af (atoms s), aU (atoms s))) (λ fU,
      fU = (replicate n zero3, replicate n fzero))) as H end.
  { eapply returns_mono.
    - apply (for_range_inv (λ k fU,
        fU = (replicate (Z.to_nat k) zero3 ++ drop (Z.to_nat k) (af (atoms s)),
              replicate (Z.to_nat k) fzero ++ drop (Z.to_nat k) (aU (atoms s))))); [lia|done|].
      intros k fU Hk ->. pose proof (len_f _ _ Ha). pose proof (len_U _ _ Ha).
      cbn [fst snd]. rewrite !astore_Ok, !ret_bind by (rewrite length_app, length_replicate, length_drop; lia).
      simpl. replace (Z.to_nat (k + 1)) with (S (Z.to_nat k)) by lia.
      rewrite !replicate_S_end, <-!app_assoc. f_equal; apply insert_replicate_drop; lia.
    - intros fU ->. pose proof (len_f _ _ Ha). pose proof (len_U _ _ Ha).
      rewrite !drop_ge by lia. by rewrite Nat2Z.id, !app_nil_r. }
  apply returns_Ok in H as (fU & -> & ->). done.
Qed.

(** ** The life cycle of the level-4 domains *)

Section cds.
Context (interval : Z) (b : LinkCell) (st : list bool).
Context (Hint : 0 < interval).
#[local] Abbreviation lv := (Z.of_nat (length st)).

Lemma mod_succ n : 0 ≤ n → ((n + 1) mod interval =? 0) = (n mod interval =? interval - 1).
Proof using Hint.
  intros Hn. pose proof (Z.mod_pos_bound n interval Hint).
  rewrite <-Z.add_mod_idemp_l by lia.
  destruct (Z.eqb_spec (n mod interval) (interval - 1)) as [He|He].
  - rewrite He. replace (interval - 1 + 1) with interval by lia. by rewrite Z_mod_same_full.
  - rewrite Z.mod_small by lia. lia.
Qed.

Lemma ceil_succ n : 0 ≤ n →
  (n + 1 + interval - 1) / interval =
  (n + interval - 1) / interval + (if n mod interval =? 0 then 1 else 0).
Proof using Hint.
  intros Hn. pose proof (Z.mod_pos_bound n interval Hint) as Hm.
  pose proof (Z.div_mod n interval ltac:(lia)) as Hd.
  set (q := n / interval) in *. set (m := n mod interval) in *. clearbody q m. subst n.
  replace (interval * q + m + 1 + interval - 1) with (m + (q + 1) * interval) by lia.
  rewrite Z_div_plus, Z.div_small by lia.
  destruct (Z.eqb_spec m 0) as [->|].
  - replace (interval * q + 0 + interval - 1) with (interval - 1 + q * interval) by lia.
    rewrite Z_div_plus, Z.div_small by lia. lia.
  - replace (interval * q + m + interval - 1) with (m - 1 + (q + 1) * interval) by lia.
    rewrite Z_div_plus, Z.div_small by lia. lia.
Qed.

Lemma box_events_run n :
  0 ≤ n →
  cd_run ((negb (n mod interval =? 0)) :: st) (box_events lv interval true b n) =
  Some (negb ((n + 1) mod interval =? 0) :: st).
Proof using Hint.
  intros Hn. rewrite mod_succ by done. unfold box_events. rewrite cd_run_app.
  assert (cd_run (negb (n mod interval =? 0) :: st) (begin_events lv interval true b n) =
    Some (true :: st)) as ->.
  { unfold begin_events. simpl andb. destruct (n mod interval =? 0) eqn:E; simpl negb; [|done].
    cbv zeta. rewrite cd_run_cons, run_begin by done.
    apply keeps_preserves. repeat constructor; by eexists. }
  rewrite cd_run_app.
  assert (cd_run (true :: st) (timer_events b n) = Some (true :: st)) as ->.
  { unfold timer_events. by destruct (decide _). }
  unfold end_events. simpl andb. destruct (n mod interval =? interval - 1); [|done].
  by apply run_end.
Qed.

Lemma box_events_labels n l :
  labels l (box_events lv interval true b n) =
  if (l =? lv) && (n mod interval =? 0) then ["computeForce_loop"] else [].
Proof using.
  unfold box_events. rewrite !labels_app.
  assert (labels l (timer_events b n) = []) as -> by (unfold timer_events; by destruct (decide _)).
  assert (labels l (end_events lv interval true n) = []) as -> by (unfold end_events; by destruct (_ && _)).
  rewrite !app_nil_r. unfold begin_events. simpl andb. rewrite (Z.eqb_sym l).
  destruct (n mod interval =? 0); [|by rewrite andb_false_r]. rewrite andb_true_r.
  unfold labels. cbn [omap list_omap preserve]. by destruct (lv =? l).
Qed.

Lemma lj_log n l :
  0 ≤ n →
  cd_run (false :: st) (seqZ 0 n ≫= box_events lv interval true b) =
    Some (negb (n mod interval =? 0) :: st) ∧
  labels l (seqZ 0 n ≫= box_events lv interval true b) =
    if l =? lv then replicate (Z.to_nat ((n + interval - 1) / interval)) "computeForce_loop" else [].
Proof using Hint.
  intros Hn. pattern n. apply natlike_ind; [| |done]; clear n Hn.
  - rewrite Z.mod_0_l, (Z.div_small (0 + interval - 1)) by lia. split; [done|]. by destruct (_ =? _).
  - intros n Hn [IH1 IH2]. unfold Z.succ. rewrite seqZ_app, Z.add_0_l by lia.
    rewrite bind_app. assert (seqZ n 1 = [n]) as -> by done. rewrite list_bind_singleton_l. split.
    + rewrite cd_run_app, IH1. by apply box_events_run.
    + rewrite labels_app, IH2, box_events_labels, ceil_succ by done.
      destruct (l =? lv); [|done]. simpl andb.
      assert (0 ≤ (n + interval - 1) / interval) by (apply Z.div_pos; lia).
      rewrite Z2Nat.inj_add by (done || destruct (_ =? _); lia). rewrite replicate_add.
      by destruct (n mod interval =? 0).
Qed.
End cds.

(** ** Every pair once *)

Lemma lj_pairs_once b a :
  counts_wf b →
  (∀ i j, i ∈ live_slots b (nLocalBoxes b) → j ∈ live_slots b (nLocalBoxes b) →
    gid a !!! Z.to_nat i = gid a !!! Z.to_nat j → i = j) →
  pairs_once b (lj_pairs b a).
Proof.
  intros Hc Hinj. assert (∀ k i, 0 ≤ k < nLocalBoxes b → i ∈ box_slots b k → i ∈ live_slots b (nLocalBoxes b)) as Hlive.
  { intros k i Hk Hi%elem_of_box_slots. apply elem_of_live_slots. exists k. lia. }
  apply visit_once; [done|..]; unfold lj_skip.
  - intros k k' i j Hk Hk' Hi Hj Hne.
    assert (gid a !!! Z.to_nat i ≠ gid a !!! Z.to_nat j) as Hg
      by (intros He; apply Hne, Hinj; [exact (Hlive k i Hk Hi)|exact (Hlive k' j Hk' Hj)|done]).
    rewrite !(proj2 (Z.ltb_lt _ _)) by lia. simpl.
    destruct (Z.leb_spec (gid a !!! Z.to_nat i) (gid a !!! Z.to_nat j)),
      (Z.leb_spec (gid a !!! Z.to_nat j) (gid a !!! Z.to_nat i)); done || lia.
  - intros k k' i j Hk Hk'. by rewrite (proj2 (Z.ltb_ge _ _)) by lia.
  - intros k i Hk. rewrite (proj2 (Z.ltb_lt _ _)) by lia. simpl. apply Z.leb_refl.
Qed.

(** Distinct identifiers, as a computation. *)
Lemma gid_inj_check a (l : list Z) :
  NoDup ((λ i, gid a !!! Z.to_nat i) <$> l) →
  ∀ i j, i ∈ l → j ∈ l → gid a !!! Z.to_nat i = gid a !!! Z.to_nat j → i = j.
Proof.
  intros Hnd i j (x & Hx)%list_elem_of_lookup (y & Hy)%list_elem_of_lookup He.
  assert (x = y) as ->; [|congruence].
  eapply (NoDup_lookup _ x y (gid a !!! Z.to_nat i) Hnd); rewrite list_lookup_fmap; [by rewrite Hx|].
  rewrite Hy. simpl. by rewrite He.
Qed.

(** ** Properties *)

(** C37: [ljForce] returns for every well-formed state (every array access is in
    bounds, no assertion fails), and its forces and energies are those of one pass
    over a list of pairs of atoms, from zero; nothing else of the state changes.
    When the identifiers of the local atoms are distinct, every pair of atoms in
    the same or adjacent boxes is in that list once: two local atoms from the one
    with the smaller identifier, a local and a halo atom from the local one. *)
Theorem ljForce_correct pot lv not_first s :
  sim_wf s → 0 < preserveRateLevel4 s →
  nLocalBoxes (boxes s) + preserveRateLevel4 s ≤ INT_MAX →
  88 * (MAXATOMS * nTotalBoxes (boxes s)) < 2 ^ 32 →
  let n := slot_count (boxes s) in
  let c := ljConst pot in
  returns (ljForce pot lv not_first s) (λ '(flag, s', _),
    flag = true ∧ sim_wf s' ∧ ∃ pairs acc,
    foldM (λ '(jBox, i, j), ljPair c (nLocalBoxes (boxes s)) (ar (atoms s)) jBox i j) pairs
      (mkAcc (replicate n zero3) (replicate n fzero) fzero) = Ok acc ∧
    s' = set_ePotential (set_atoms s (set_U (set_f (atoms s) (lj_f acc)) (lj_U acc)))
           (lj_ePot acc * f64 4 * epsilon pot)%R ∧
    ((∀ i j, i ∈ live_slots (boxes s) (nLocalBoxes (boxes s)) →
        j ∈ live_slots (boxes s) (nLocalBoxes (boxes s)) →
        gid (atoms s) !!! Z.to_nat i = gid (atoms s) !!! Z.to_nat j → i = j) →
     pairs_once (boxes s) pairs)).
Proof.
  intros Hwf Hint Hmax Hs n c. pose proof Hwf as [Hc Ha]. unfold ljForce.
  rewrite ljZero_eq by done. rewrite ret_bind, lj_loop by done.
  pose proof (pairs_return c (boxes s) (atoms s) (mkAcc (replicate n zero3) (replicate n fzero) fzero)
    Hc Ha (length_replicate _ _) (length_replicate _ _)) as Hr.
  apply returns_Ok in Hr as (acc & Hacc & Lf & LU). fold c n. rewrite Hacc, !ret_bind.
  cbn [returns st_acc]. split; [done|]. split; [split; [done|]; destruct Ha; by split|].
  exists (lj_pairs (boxes s) (atoms s)), acc. split; [|split; [done|by apply lj_pairs_once]].
  rewrite <-Hacc. apply foldM_ext. by intros [[jBox i] j] acc' _.
Qed.

Lemma ljForce_correct_witness :
  returns (ljForce initLjPot 4 true ex_sim) (λ '(flag, s', _),
    sim_wf s' ∧ ∃ pairs, pairs_once ex_cells pairs).
Proof.
  eapply returns_mono; [apply (ljForce_correct initLjPot 4 true ex_sim ex_sim_wf); by vm_compute|].
  intros [[flag s'] log] (_ & Hw & pairs & acc & _ & _ & Hp). split; [exact Hw|]. exists pairs.
  apply Hp. apply gid_inj_check. apply (bool_decide_unpack _). vm_compute. exact I.
Defined.

(** The containment domains of [ljForce]. Called at level [lv - 1] inside a begun
    domain, it creates one level-[lv] domain and begins it once per
    [CD4_INTERVAL] boxes, [ceil (nLocalBoxes / CD4_INTERVAL)] times; whether or not
    the interval divides the number of boxes, and although empty boxes leave the
    loop early, every begin has its completion and the handles are as before. In
    the first call there is no domain. *)
Theorem ljForce_cds pot not_first s st :
  sim_wf s → 0 < preserveRateLevel4 s →
  nLocalBoxes (boxes s) + preserveRateLevel4 s ≤ INT_MAX →
  88 * (MAXATOMS * nTotalBoxes (boxes s)) < 2 ^ 32 →
  let lv := Z.of_nat (length st) + 1 in
  returns (ljForce pot lv not_first s) (λ '(_, _, log),
    cd_run (true :: st) log = Some (true :: st) ∧
    ∀ l, labels l log =
      if not_first && (l =? lv) then
        replicate (Z.to_nat ((nLocalBoxes (boxes s) + preserveRateLevel4 s - 1) / preserveRateLevel4 s))
          "computeForce_loop"
      else []).
Proof.
  intros Hwf Hint Hmax Hs lv. pose proof Hwf as [Hc Ha]. pose proof Hc as [Hlc _].
  assert (0 < nLocalBoxes (boxes s)) as Hpos by (destruct Hlc; nia).
  set (b := boxes s) in *. set (k := preserveRateLevel4 s) in *. unfold ljForce. fold b k.
  rewrite ljZero_eq by done. rewrite ret_bind, lj_loop by done.
  match goal with |- context [foldM ?F ?l ?x] =>
    assert (returns (foldM F l x) (λ _, True)) as Hr end.
  { eapply returns_mono; [apply pairs_return; [done|done|apply length_replicate|apply length_replicate]|done]. }
  apply returns_Ok in Hr as (acc & -> & _). rewrite !ret_bind. cbn [returns st_log st_completed].
  destruct not_first; simpl andb.
  - assert (lv = Z.of_nat (length (true :: st))) as Hlv by (simpl; lia).
    destruct (lj_log k b (true :: st) Hint (nLocalBoxes b) lv ltac:(lia)) as [Hrun _]. 
    rewrite <-Hlv in Hrun. split.
    + rewrite cd_run_app, run_create, cd_run_app, Hrun by done. unfold completed_after.
      rewrite cd_run_app. assert ((0 <? nLocalBoxes b) = true) as -> by lia. simpl andb.
      destruct (nLocalBoxes b mod k =? 0); cbv beta iota delta [negb].
      * change (cd_run ?x []) with (Some x). cbv iota. by rewrite run_destroy by done.
      * rewrite run_end by done. by rewrite run_destroy by done.
    + intros l. destruct (lj_log k b (true :: st) Hint (nLocalBoxes b) l ltac:(lia)) as [_ Hlab].
      rewrite <-Hlv in Hlab. rewrite !labels_app, Hlab.
      change (labels l [CdCreate lv "ljForce_loop"]) with (@nil string).
      assert (labels l (if completed_after k true (nLocalBoxes b) then [] else [CdDetect lv; CdComplete lv]) = [])
        as -> by (by destruct (completed_after _ _ _)).
      by rewrite app_nil_r.
  - rewrite app_nil_r. simpl app.
    rewrite (Forall_bind_ext (box_events lv k false b) (timer_events b)).
    2:{ apply Forall_forall. intros n _. unfold box_events. simpl. by rewrite app_nil_r. }
    induction (seqZ 0 (nLocalBoxes b)) as [|n l [IH1 IH2]]; [done|].
    change ((n :: l) ≫= ?f) with (f n ++ l ≫= f). split.
    + rewrite cd_run_app. unfold timer_events at 1. by destruct (decide _).
    + intros l'. rewrite labels_app, IH2, app_nil_r. unfold timer_events. by destruct (decide _).
Qed.

Lemma ljForce_cds_witness :
  returns (ljForce initLjPot 4 true ex_sim) (λ '(_, _, log),
    cd_run [true; true; true; true] log = Some [true; true; true; true] ∧
    labels 4 log = ["computeForce_loop"; "computeForce_loop"]).
Proof.
  eapply returns_mono;
    [apply (ljForce_cds initLjPot true ex_sim [true; true; true] ex_sim_wf); by vm_compute|].
  intros [[flag s'] log] [H1 H2]. split; [exact H1|]. rewrite H2. reflexivity.
Defined.

(** What a level-4 domain of [ljForce] saves when it begins, which is when
    [CD4_INTERVAL] divides the box number: the identifiers, positions, forces and
    energies of the local boxes and the loop index. The running total [ePot], which
    the loop body adds to, is not saved, nor is a force of a halo box. *)
Theorem ljBegin_saves lv interval b iBox :
  counts_wf b → 0 < interval → nLocalBoxes b + interval ≤ INT_MAX → small b →
  0 ≤ iBox < nLocalBoxes b →
  returns (ljBegin lv interval true b iBox) (λ o,
    match o with
    | None => iBox mod interval ≠ 0
    | Some ev => iBox mod interval = 0 ∧
        saves_slots ev ObjGid sizeof_int (nLocalBoxes b) ∧
        saves_slots ev ObjR sizeof_real3 (nLocalBoxes b) ∧
        saves_slots ev ObjF sizeof_real3 (nLocalBoxes b) ∧
        saves_slots ev ObjU sizeof_real (nLocalBoxes b) ∧
        saves ev (ObjVar "iBox") 0 sizeof_int ∧
        (∀ lo hi, ¬ saves ev (ObjVar "ePot") lo hi) ∧
        ∀ i, MAXATOMS * nLocalBoxes b ≤ i →
          ¬ saves ev ObjF (sizeof_real3 * i) (sizeof_real3 * i + sizeof_real3)
    end).
Proof.
  intros Hc Hint Hmax Hs Hi. pose proof (local_le_total _ Hc). unfold ljBegin, small in *.
  rewrite crem_Ok, ret_bind by lia. destruct (Z.eqb_spec (iBox mod interval) 0); [|done].
  rewrite !preserveAtoms_eq by (unfold MAXATOMS in *; lia).
  rewrite !ret_bind, int32_Ok, ret_bind by (unfold INT_MAX, INT_MIN in *; lia).
  cbn [returns Z.eqb Pos.eqb app].
  unfold saves_slots, MAXATOMS, sizeof_real3, sizeof_real, sizeof_int in *.
  split_and!; [done|intros; find_saved..| |].
  - intros lo hi Hsv. no_saved Hsv.
  - intros i Hlt Hsv. no_saved Hsv.
Qed.

Lemma ljBegin_saves_witness :
  returns (ljBegin 4 4 true ex_cells 4) (λ o,
    match o with Some ev => ¬ saves ev (ObjVar "ePot") 0 8 | None => False end).
Proof.
  eapply returns_mono; [apply (ljBegin_saves 4 4 ex_cells 4)|].
  - apply ex_sim_wf.
  - lia.
  - by vm_compute.
  - by vm_compute.
  - by vm_compute.
  - intros [ev|] H; [|by apply H]. destruct H as (_ & _ & _ & _ & _ & _ & H & _). apply H.
Defined.
