(* ===== verification/Eam.v ===== *)
(** * Eam: the embedded-atom force routine (eam.c)

    The potential is given by three tables: the pair energy [phi], the electron
    density [rho] and the embedding energy [f].  [eamForce] loops over all pairs
    for the pair energies and the densities, over all atoms for the embedding
    energies, exchanges their derivatives with the neighbour tasks, and loops
    over all pairs again for the forces these cause.  The loops over pairs are
    those of [Pairs].  Reading the tables from a file is not modelled. *)

From Stdlib Require Import ZArith Lia String.
From stdpp Require Import base list numbers sets strings.
From S2P Require Import Prelude Float64 Parallel Decomposition LinkCells Atoms CoMDTypes HaloExchange Cd Timestep Pairs.

(** ** Interpolation tables *)

(** [table->values[i]]: the pointer is one past the start of its allocation. *)
Definition tload (t : InterpolationObject) (i : Z) : res real_t := aload (tvalues t) (i + 1).
Definition tstore (v : list real_t) (i : Z) (x : real_t) : res (list real_t) := astore v (i + 1) x.

(** [initInterpolationObject]; calloc fails for a negative size, which is a huge
    one when it is converted. *)
Definition initInterpolationObject (n : Z) (x0 dx : real_t) (data : list real_t)
    : res InterpolationObject :=
  m ← int32 (n + 3);
  _ ← cassert (0 <=? m);
  v ← for_range 0 n (λ ii v, x ← aload data ii; tstore v ii x) (replicate (Z.to_nat m) fzero);
  x ← aload v (0 + 1);
  v ← tstore v (-1) x;
  x ← aload v (n - 1 + 1);
  v ← tstore v n x;
  v ← tstore v (n + 1) x;
  Ok (mkTable n x0 (fone / dx)%R v).

(** The argument of a table in units of its spacing. *)
Definition scaled (t : InterpolationObject) (r : real_t) : real_t :=
  let r := if (r <? tx0 t)%R then tx0 t else r in
  ((r - tx0 t) * invDx t)%R.

(** [interpolate]: the value and the derivative. *)
Definition interpolate (t : InterpolationObject) (r : real_t) : res (real_t * real_t) :=
  let r := scaled t r in
  ii ← int_floor r;
  let '(ii, r) := if tn t <? ii then (tn t, (f64 (tn t) / invDx t)%R) else (ii, r) in
  let r := (r - ffloor r)%R in
  t1 ← tload t (ii + 1);
  tm ← tload t (ii - 1);
  t2 ← tload t (ii + 2);
  t0 ← tload t ii;
  let g1 := (t1 - tm)%R in
  let g2 := (t2 - t0)%R in
  Ok ((t0 + fhalf * r * (g1 + r * (t1 + tm - ftwo * t0)))%R,
      (fhalf * (g1 + r * (g2 - g1)) * invDx t)%R).

(** ** The potential *)

(** [EamPotential]; the arrays and the exchange are made by the first call of
    the force routine. *)
Record EamPotential := mkEam {
  eam_base : BasePotential;
  phi : InterpolationObject;
  rho : InterpolationObject;
  femb : InterpolationObject;
  rhobar : list real_t;
  dfEmb : list real_t;
  forceExchange : option (HaloExchange ForceExchangeData real_t);
}.

(** What the loops update. *)
Record EamAcc := mkEamAcc {
  e_f : list real3;
  e_U : list real_t;
  e_rhobar : list real_t;
  e_etot : real_t;
}.

(** [a[i] = g(a[i])]. *)
Definition upd {A} (a : list A) (i : Z) (g : A → A) : res (list A) :=
  x ← aload a i; astore a i (g x).

(** The distance vector of two atoms, and its square. *)
Definition eamDist (r : list real3) (iOff jOff : Z) : res (real3 * real_t) :=
  ri ← aload r iOff;
  rj ← aload r jOff;
  let dr := vmap2 fsub ri rj in
  Ok (dr, (fzero + v0 dr * v0 dr + v1 dr * v1 dr + v2 dr * v2 dr)%R).

(** One pair in the first pass. *)
Definition eamPair1 (pot : EamPotential) (rCut2 : real_t) (nLocal : Z) (r : list real3)
    (jBox iOff jOff : Z) (acc : EamAcc) : res EamAcc :=
  '(dr, r2) ← eamDist r iOff jOff;
  if (rCut2 <? r2)%R then Ok acc else
  let d := fsqrt r2 in
  '(phiTmp, dPhi) ← interpolate (phi pot) d;
  '(rhoTmp, dRho) ← interpolate (rho pot) d;
  f ← upd (e_f acc) iOff (λ fi, vmap2 (λ x d0, x - dPhi * d0 / d)%R fi dr);
  f ← upd f jOff (λ fj, vmap2 (λ x d0, x + dPhi * d0 / d)%R fj dr);
  let etot := if jBox <? nLocal then (e_etot acc + phiTmp)%R else (e_etot acc + fhalf * phiTmp)%R in
  U ← upd (e_U acc) iOff (λ u, u + fhalf * phiTmp)%R;
  U ← upd U jOff (λ u, u + fhalf * phiTmp)%R;
  rb ← upd (e_rhobar acc) iOff (λ x, x + rhoTmp)%R;
  rb ← upd rb jOff (λ x, x + rhoTmp)%R;
  Ok (mkEamAcc f U rb etot).

(** One pair in the third pass. *)
Definition eamPair3 (pot : EamPotential) (rCut2 : real_t) (r : list real3) (dfEmbed : list real_t)
    (jBox iOff jOff : Z) (f : list real3) : res (list real3) :=
  '(dr, r2) ← eamDist r iOff jOff;
  if (rCut2 <=? r2)%R then Ok f else
  let d := fsqrt r2 in
  '(rhoTmp, dRho) ← interpolate (rho pot) d;
  di ← aload dfEmbed iOff;
  dj ← aload dfEmbed jOff;
  f ← upd f iOff (λ fi, vmap2 (λ x d0, x - (di + dj) * dRho * d0 / d)%R fi dr);
  upd f jOff (λ fj, vmap2 (λ x d0, x + (di + dj) * dRho * d0 / d)%R fj dr).

(** ** The loops over the pairs *)

(** The atoms of [iBox] against those of a neighbour box. *)
Definition eamNeighbor {S} (pair : Z → Z → Z → S → res S) (b : LinkCell) (iBox nIBox jBox : Z) (acc : S)
    : res S :=
  if jBox <? iBox then Ok acc else
  nJBox ← aload (nAtoms b) jBox;
  iOff0 ← int32 (MAXATOMS * iBox);
  for_range 0 nIBox (λ ii acc,
    jOff0 ← int32 (MAXATOMS * jBox);
    for_range 0 nJBox (λ ij acc,
      if (iBox =? jBox) && (ij <=? ii) then Ok acc
      else pair jBox (iOff0 + ii) (jOff0 + ij) acc) acc) acc.

(** The body of the loop over the local boxes. *)
Definition eamBox {S} (pair : Z → Z → Z → S → res S) (b : LinkCell) (iBox : Z) (acc : S) : res S :=
  nIBox ← aload (nAtoms b) iBox;
  nbrBoxes ← getNeighborBoxes b iBox;
  foldM (eamNeighbor pair b iBox nIBox) nbrBoxes acc.

(** Whether iteration [iBox] of the first pass is a level-4 domain: it begins
    and completes in the same iteration. *)
Definition eamMark (interval : Z) (not_first : bool) (iBox : Z) : res bool :=
  if not_first then m ← crem iBox interval; Ok (m =? 0) else Ok false.

(** One iteration of the first pass. *)
Definition eamBox1 (lv interval : Z) (not_first : bool) (pair : Z → Z → Z → EamAcc → res EamAcc)
    (b : LinkCell) (iBox : Z) (st : EamAcc * list event) : res (EamAcc * list event) :=
  m ← eamMark interval not_first iBox;
  let log := if m : bool then st.2 ++ [CdBegin lv "ljForce_outmost_loop"] else st.2 in
  acc ← eamBox pair b iBox st.1;
  m ← eamMark interval not_first iBox;
  Ok (acc, if m : bool then log ++ [CdComplete lv] else log).

(** One atom in the second pass. *)
Definition eamEmbed (pot : EamPotential) (rhobar : list real_t) (iOff : Z)
    (st : list real_t * list real_t * real_t) : res (list real_t * list real_t * real_t) :=
  let '(df, U, etot) := st in
  x ← aload rhobar iOff;
  '(fEmbed, dfEmbed) ← interpolate (femb pot) x;
  df ← astore df iOff dfEmbed;
  let etot := (etot + fEmbed)%R in
  U ← upd U iOff (λ u, u + fEmbed)%R;
  Ok (df, U, etot).

(** [memset] of the first [n] elements to zero. *)
Definition memset0 {A} (x : A) (n : Z) (a : list A) : res (list A) :=
  if (0 <=? n) && (n <=? Z.of_nat (length a)) then Ok (replicate (Z.to_nat n) x ++ drop (Z.to_nat n) a)
  else Err OutOfBounds.

Section force.
Context `{Par : Parallel}.

(** The arrays and the exchange, on the first call.  What malloc returns is
    zeroed before it is read. *)
Definition eamInit (s : SimFlat) (pot : EamPotential)
    : res (HaloExchange ForceExchangeData real_t * EamPotential) :=
  match forceExchange pot with
  | Some h => Ok (h, pot)
  | None =>
      maxTotalAtoms ← int32 (MAXATOMS * nTotalBoxes (boxes s));
      let arr := replicate (Z.to_nat maxTotalAtoms) fzero in
      h ← initForceHaloExchange (domain s) (boxes s);
      Ok (h, mkEam (eam_base pot) (phi pot) (rho pot) (femb pot) arr arr (Some h))
  end.

(** [eamForce]; [lv] is the level of the domain it creates, [not_first] the flag
    [is_not_first_called].  The handle is not destroyed. *)
Definition eamForce (lv : Z) (not_first : bool) (pot : EamPotential) (s : SimFlat)
    : res (EamPotential * SimFlat * list event) :=
  let b := boxes s in
  let interval := preserveRateLevel4 s in
  let ev0 := if not_first then [CdCreate lv "eam_loop"] else [] in
  '(h, pot) ← eamInit s pot;
  let rCut2 := (cutoff (eam_base pot) * cutoff (eam_base pot))%R in
  n ← int32 (nTotalBoxes b * MAXATOMS);
  f ← memset0 zero3 n (af (atoms s));
  U ← memset0 fzero n (aU (atoms s));
  dfEmbed ← memset0 fzero n (dfEmb pot);
  rb ← memset0 fzero n (rhobar pot);
  '(acc, ev1) ← for_range 0 (nLocalBoxes b)
    (eamBox1 lv interval not_first (eamPair1 pot rCut2 (nLocalBoxes b) (ar (atoms s))) b)
    (mkEamAcc f U rb fzero, []);
  '(dfEmbed, U, etot) ← each_atom b (nLocalBoxes b) (eamEmbed pot (e_rhobar acc)) (dfEmbed, e_U acc, e_etot acc);
  x ← haloExchange h (mkForceData dfEmbed b);
  f ← for_range 0 (nLocalBoxes b) (eamBox (eamPair3 pot rCut2 (ar (atoms s)) (HaloExchange.dfEmbed x)) b) (e_f acc);
  let s' := set_atoms s (set_U (set_f (atoms s) f) U) in
  Ok (mkEam (eam_base pot) (phi pot) (rho pot) (femb pot) (e_rhobar acc) (HaloExchange.dfEmbed x) (forceExchange pot),
      set_ePotential s' etot, ev0 ++ ev1 ++ [TimerStart "eamHaloTimer"; TimerStop "eamHaloTimer"]).
End force.

(** ** Tables *)

(** The table of [data], extended by its first and its last value. *)
Definition sample (n : Z) (data : list real_t) (i : Z) : real_t := data !!! Z.to_nat (Z.max 0 (Z.min i (n - 1))).

(** Quadratic interpolation at the fraction [x] after node [k] of [g], and the
    derivative from four nodes. *)
Definition quad (g : Z → real_t) (inv : real_t) (k : Z) (x : real_t) : real_t * real_t :=
  let t0 := g k in
  let t1 := g (k + 1) in
  let t2 := g (k + 2) in
  let tm := g (k - 1) in
  ((t0 + fhalf * x * ((t1 - tm) + x * (t1 + tm - ftwo * t0)))%R,
   (fhalf * ((t1 - tm) + x * ((t2 - t0) - (t1 - tm))) * inv)%R).

(** The values of a table are those of [g] at [-1 .. n + 1]. *)
Record table_of (t : InterpolationObject) (g : Z → real_t) : Prop := {
  to_n : 0 ≤ tn t;
  to_len : Z.of_nat (length (tvalues t)) = tn t + 3;
  to_val : ∀ i, -1 ≤ i ≤ tn t + 1 → tload t i = Ok (g i);
}.

Lemma aload_outside {A} (a : list A) i : i < 0 ∨ Z.of_nat (length a) ≤ i → aload a i = Err OutOfBounds.
Proof.
  intros Hi. unfold aload. destruct (Z.leb_spec 0 i); [|done]. by rewrite lookup_ge_None_2 by lia.
Qed.

Lemma aload_Err {A} (a : list A) i e : aload a i = Err e → e = OutOfBounds.
Proof. unfold aload. destruct (0 <=? i); [destruct (a !! _)|]; congruence. Qed.

Lemma tload_cases t g i :
  table_of t g → (-1 ≤ i ≤ tn t + 1 ∧ tload t i = Ok (g i)) ∨ tload t i = Err OutOfBounds.
Proof.
  intros [_ Hl Hv]. destruct (decide (-1 ≤ i ≤ tn t + 1)) as [Hi|Hi]; [left|right; apply aload_outside; lia].
  split; [done|by apply Hv].
Qed.

(** The four values around a node that is not in the table. *)
Lemma stencil_outside {A} t g i (F : real_t → real_t → real_t → real_t → A) :
  table_of t g → i < 0 ∨ tn t ≤ i →
  (t1 ← tload t (i + 1); tm ← tload t (i - 1); t2 ← tload t (i + 2); t0 ← tload t i; Ok (F t1 tm t2 t0))
    = Err OutOfBounds.
Proof.
  intros Ht Hi. destruct (tload_cases t g (i + 1) Ht) as [[_ ->]| ->]; [|done].
  destruct (tload_cases t g (i - 1) Ht) as [[? ->]| ->]; [|done].
  destruct (tload_cases t g (i + 2) Ht) as [[? ->]| ->]; [lia|done].
Qed.

Lemma interpolate_cases t g r :
  table_of t g →
  interpolate t r =
    (k ← int_floor (scaled t r);
     if (0 <=? k) && (k <? tn t) then Ok (quad g (invDx t) k (scaled t r - ffloor (scaled t r))%R)
     else Err OutOfBounds).
Proof.
  intros Ht. unfold interpolate. destruct (int_floor (scaled t r)) as [k|]; [|done]. rewrite !ret_bind.
  pose proof (to_n t g Ht). destruct (Z.ltb_spec (tn t) k).
  { rewrite (proj2 (Z.ltb_ge k _)), andb_false_r by lia.
    apply (stencil_outside t g (tn t) (λ t1 tm t2 t0, _)); [done|lia]. }
  destruct ((0 <=? k) && (k <? tn t)) eqn:E.
  - by rewrite !(to_val t g Ht), !ret_bind by lia.
  - apply (stencil_outside t g k (λ t1 tm t2 t0, _)); [done|lia].
Qed.

Lemma initInterpolationObject_table n x0 dx data :
  0 < n → n + 3 ≤ INT_MAX → n ≤ Z.of_nat (length data) →
  ∃ v, initInterpolationObject n x0 dx data = Ok (mkTable n x0 (fone / dx)%R v) ∧
    table_of (mkTable n x0 (fone / dx)%R v) (sample n data).
Proof.
  intros Hn Hmax Hd. unfold initInterpolationObject.
  rewrite int32_Ok, ret_bind by (unfold INT_MIN; lia). rewrite cassert_true, ret_bind by lia.
  set (body := λ ii v, x ← aload data ii; tstore v ii x).
  assert (returns (for_range 0 n body (replicate (Z.to_nat (n + 3)) fzero)) (λ v,
    v = fzero :: take (Z.to_nat n) data ++ replicate 2 fzero)) as Hr.
  { eapply returns_mono.
    - apply (for_range_inv (λ k v, v = fzero :: take (Z.to_nat k) data ++ replicate (Z.to_nat (n + 2 - k)) fzero));
        [lia|by replace (Z.to_nat (n + 3)) with (S (Z.to_nat (n + 2 - 0))) by lia|].
      intros k v Hk ->. unfold body, tstore. rewrite (aload_total data k), ret_bind by lia.
      rewrite astore_Ok by (simpl; rewrite length_app, length_take, length_replicate; lia). simpl.
      replace (Z.to_nat (k + 1)) with (S (Z.to_nat k)) by lia. simpl. f_equal.
      rewrite insert_app_r_alt by (rewrite length_take; lia).
      rewrite length_take, (Nat.min_l (Z.to_nat k)), Nat.sub_diag by lia.
      replace (Z.to_nat (n + 2 - k)) with (S (Z.to_nat (n + 2 - (k + 1)))) by lia. simpl.
      rewrite (take_S_r data (Z.to_nat k) (data !!! Z.to_nat k)), <-app_assoc; [done|].
      apply list_lookup_lookup_total_lt. lia.
    - intros v ->. by replace (Z.to_nat (n + 2 - n)) with 2%nat by lia. }
  apply returns_Ok in Hr as (v & -> & ->). rewrite ret_bind. clear body.
  set (l := take (Z.to_nat n) data). assert (Z.of_nat (length l) = n) as Hl by (subst l; rewrite length_take; lia).
  assert (∀ i, 0 ≤ i < n → l !!! Z.to_nat i = data !!! Z.to_nat i) as Hld.
  { intros i Hi. subst l. rewrite !list_lookup_total_alt, lookup_take_lt by lia. done. }
  assert (∀ x i, 0 ≤ i < n → (x :: l ++ replicate 2 fzero) !!! Z.to_nat (i + 1) = data !!! Z.to_nat i) as Hv.
  { intros x i Hi. replace (Z.to_nat (i + 1)) with (S (Z.to_nat i)) by lia. simpl.
    rewrite lookup_total_app_l by lia. by apply Hld. }
  assert (∀ x, Z.of_nat (length (x :: l ++ replicate 2 fzero)) = n + 3) as Hlen.
  { intros x. simpl. rewrite length_app. simpl. lia. }
  rewrite aload_total, ret_bind by (rewrite Hlen; lia). rewrite Hv by lia. unfold tstore.
  rewrite astore_Ok, ret_bind by (rewrite Hlen; lia). simpl (<[Z.to_nat _ := _]> _).
  rewrite aload_total, ret_bind by (rewrite Hlen; lia). rewrite Hv by lia.
  rewrite astore_Ok, ret_bind by (rewrite Hlen; lia).
  rewrite astore_Ok, ret_bind by (rewrite length_insert, Hlen; lia).
  eexists. split; [reflexivity|].
  set (v := data !!! Z.to_nat 0 :: l ++ replicate 2 fzero) in *.
  assert (∀ i, -1 ≤ i ≤ n + 1 →
    <[Z.to_nat (n + 1 + 1) := data !!! Z.to_nat (n - 1)]> (<[Z.to_nat (n + 1) := data !!! Z.to_nat (n - 1)]> v) !! Z.to_nat (i + 1)
      = Some (sample n data i)) as Hget.
  { intros i Hi. unfold sample. destruct (decide (i = n + 1)) as [->|].
    { rewrite list_lookup_insert_eq by (rewrite length_insert; specialize (Hlen (data !!! Z.to_nat 0)); fold v in Hlen; lia).
      do 2 f_equal. lia. }
    rewrite list_lookup_insert_ne by lia. destruct (decide (i = n)) as [->|].
    { rewrite list_lookup_insert_eq by (specialize (Hlen (data !!! Z.to_nat 0)); fold v in Hlen; lia). do 2 f_equal. lia. }
    rewrite list_lookup_insert_ne by lia. destruct (decide (i = -1)) as [->|].
    { subst v. simpl. do 2 f_equal. lia. }
    rewrite list_lookup_lookup_total_lt by (specialize (Hlen (data !!! Z.to_nat 0)); fold v in Hlen; lia).
    subst v. rewrite Hv by lia. do 3 f_equal. lia. }
  split; simpl tn; simpl tvalues; [lia|by rewrite !length_insert; apply Hlen|].
  intros i Hi. unfold tload. simpl tvalues. apply aload_lookup; [lia|by apply Hget].
Qed.

(** ** The loops as one pass over a list of pairs *)

Definition eam_skip (iBox jBox i j : Z) : bool := (jBox <? iBox) || ((iBox =? jBox) && (j <=? i)).
Definition eam_pairs (b : LinkCell) : list (Z * Z * Z) := visit eam_skip b.

Lemma foldM_fmap {A B S} (g : A → B) (F : B → S → res S) l s : foldM F (g <$> l) s = foldM (λ x, F (g x)) l s.
Proof. revert s. induction l as [|x l IH]; intros s; [done|]. simpl. by destruct (F (g x) s); simpl. Qed.

(** A loop over offsets from [o] is a loop over the numbers from [o]. *)
Lemma for_range_offset {S} o n (F : Z → S → res S) s :
  for_range 0 n (λ k, F (o + k)) s = foldM F (seqZ o n) s.
Proof.
  unfold for_range. rewrite Z.sub_0_r, <-(foldM_fmap (Z.add o)), fmap_add_seqZ. by rewrite Z.add_0_r.
Qed.

Section loops.
Context {S : Type} (pair : Z → Z → Z → S → res S) (b : LinkCell) (Hc : counts_wf b).
#[local] Abbreviation step3 := (λ p : Z * Z * Z, pair p.1.1 p.1.2 p.2).

Lemma eamNeighbor_eq iBox jBox acc :
  0 ≤ iBox < nTotalBoxes b → 0 ≤ jBox < nTotalBoxes b →
  eamNeighbor pair b iBox (Z.of_nat (occ b (Z.to_nat iBox))) jBox acc =
  foldM step3 (i ← box_slots b iBox; j ← box_slots b jBox;
    if eam_skip iBox jBox i j then [] else [(jBox, i, j)]) acc.
Proof using Hc.
  intros Hi Hj. unfold eamNeighbor.
  destruct (counts_bounds b jBox Hc Hj) as (Hmj & -> & _). destruct (counts_bounds b iBox Hc Hi) as (Hmi & _ & _).
  rewrite (Z.mul_comm jBox) in Hmj. rewrite (Z.mul_comm iBox) in Hmi. rewrite foldM_bind.
  destruct (jBox <? iBox) eqn:Hlt.
  { symmetry. transitivity (foldM (λ _ (s : S), Ok s) (box_slots b iBox) acc).
    - apply foldM_ext. intros i s _. rewrite foldM_filter. unfold eam_skip. rewrite Hlt. simpl.
      by induction (box_slots b jBox).
    - by induction (box_slots b iBox). }
  rewrite Hmi, !ret_bind. 
  etransitivity; [|apply for_range_offset]. apply for_range_ext. intros ii s Hii.
  rewrite Hmj, ret_bind, foldM_filter.
  etransitivity; [|apply for_range_offset]. apply for_range_ext. intros ij s' Hij.
  unfold eam_skip. rewrite Hlt. simpl. destruct (Z.eqb_spec iBox jBox) as [<-|]; [|done]. simpl.
  assert ((MAXATOMS * iBox + ij <=? MAXATOMS * iBox + ii) = (ij <=? ii)) as -> by lia. done.
Qed.

Lemma eamBox_eq iBox acc :
  0 ≤ iBox < nLocalBoxes b → eamBox pair b iBox acc = foldM step3 (visit_box eam_skip b iBox) acc.
Proof using Hc.
  intros Hi. pose proof (local_le_total _ Hc). unfold eamBox.
  destruct (counts_bounds b iBox Hc ltac:(lia)) as (_ & -> & _).
  rewrite (neighbors_Ok b Hc iBox Hi), !ret_bind. unfold visit_box. rewrite foldM_bind.
  apply foldM_ext. intros j s Hj. apply eamNeighbor_eq; [lia|by apply (neighbors_range b Hc iBox)].
Qed.

Lemma eamBox_loop acc :
  for_range 0 (nLocalBoxes b) (eamBox pair b) acc = foldM step3 (eam_pairs b) acc.
Proof using Hc.
  unfold eam_pairs. rewrite <-visit_loop. apply for_range_ext. intros i s Hi. by apply eamBox_eq.
Qed.
End loops.

Lemma eam_pairs_once b : counts_wf b → pairs_once b (eam_pairs b).
Proof.
  intros Hc. pose proof (local_le_total _ Hc). apply visit_once; [done|..]; unfold eam_skip.
  - intros k k' i j Hk Hk' Hi Hj Hne. destruct (Z.ltb_spec k k'), (Z.ltb_spec k' k), (Z.eqb_spec k k'),
      (Z.eqb_spec k' k), (Z.leb_spec i j), (Z.leb_spec j i); done || lia.
  - intros k k' i j Hk Hk'. lia.
  - intros k i Hk. lia.
Qed.

(** A loop that also appends to a log. *)
Lemma foldM_log {A S E} (F : A → S → res S) (ev : A → list E) l s log :
  foldM (λ x st, s ← F x st.1; Ok (s, st.2 ++ ev x)) l (s, log) = (s' ← foldM F l s; Ok (s', log ++ (l ≫= ev))).
Proof.
  revert s log. induction l as [|x l IH]; intros s log; csimpl; [by rewrite app_nil_r|].
  destruct (F x s) as [s'|]; [|done]. rewrite !ret_bind. rewrite IH. by rewrite app_assoc.
Qed.

(** The calls of iteration [iBox] of the first pass. *)
Definition eam_events (lv interval : Z) (not_first : bool) (iBox : Z) : list event :=
  if not_first && (iBox mod interval =? 0) then [CdBegin lv "ljForce_outmost_loop"; CdComplete lv] else [].

Lemma eamBox1_loop lv interval not_first pair b acc :
  counts_wf b → (not_first = true → 0 < interval) →
  for_range 0 (nLocalBoxes b) (eamBox1 lv interval not_first pair b) (acc, []) =
    (acc ← foldM (λ p, pair p.1.1 p.1.2 p.2) (eam_pairs b) acc;
     Ok (acc, seqZ 0 (nLocalBoxes b) ≫= eam_events lv interval not_first)).
Proof.
  intros Hc Hint. rewrite <-eamBox_loop by done. unfold for_range at 2. rewrite Z.sub_0_r.
  change (seqZ 0 (nLocalBoxes b) ≫= _) with ([] ++ (seqZ 0 (nLocalBoxes b) ≫= eam_events lv interval not_first)).
  rewrite <-(foldM_log (eamBox pair b)). unfold for_range. rewrite Z.sub_0_r. apply foldM_ext.
  intros i [s log] Hi%elem_of_seqZ. unfold eamBox1, eamMark, eam_events. simpl fst. simpl snd.
  destruct not_first; simpl andb.
  - rewrite crem_Ok by (auto || lia). rewrite !ret_bind. destruct (eamBox pair b i s); [|done]. rewrite !ret_bind.
    destruct (i mod interval =? 0); [by rewrite <-app_assoc|by rewrite app_nil_r].
  - rewrite ret_bind. destruct (eamBox pair b i s); [|done]. rewrite !ret_bind. by rewrite app_nil_r.
Qed.

Lemma memset0_all {A} (x : A) n a : length a = n → memset0 x (Z.of_nat n) a = Ok (replicate n x).
Proof.
  intros <-. unfold memset0. rewrite (proj2 (Z.leb_le _ _)), (proj2 (Z.leb_le _ _)) by lia. simpl.
  by rewrite Nat2Z.id, drop_all, app_nil_r.
Qed.

(** ** The three passes *)

Definition eam_zero (n : nat) : EamAcc := mkEamAcc (replicate n zero3) (replicate n fzero) (replicate n fzero) fzero.

Definition eam_pass1 (pot : EamPotential) (s : SimFlat) (pairs : list (Z * Z * Z)) : res EamAcc :=
  foldM (λ p, eamPair1 pot (cutoff (eam_base pot) * cutoff (eam_base pot))%R (nLocalBoxes (boxes s))
                (ar (atoms s)) p.1.1 p.1.2 p.2) pairs (eam_zero (slot_count (boxes s))).
Definition eam_pass2 (pot : EamPotential) (s : SimFlat) (acc : EamAcc) : res (list real_t * list real_t * real_t) :=
  foldM (eamEmbed pot (e_rhobar acc)) (live_slots (boxes s) (nLocalBoxes (boxes s)))
    (replicate (slot_count (boxes s)) fzero, e_U acc, e_etot acc).
Definition eam_pass3 (pot : EamPotential) (s : SimFlat) (dfEmbed : list real_t) (pairs : list (Z * Z * Z))
    (f : list real3) : res (list real3) :=
  foldM (λ p, eamPair3 pot (cutoff (eam_base pot) * cutoff (eam_base pot))%R (ar (atoms s)) dfEmbed
                p.1.1 p.1.2 p.2) pairs f.

(** The arrays of the potential have a value per slot. *)
Definition eam_arrays (pot : EamPotential) (n : nat) : Prop := length (dfEmb pot) = n ∧ length (rhobar pot) = n.

Section passes.
Context `{Par : Parallel}.

Definition eam_log (lv : Z) (not_first : bool) (s : SimFlat) : list event :=
  (if not_first then [CdCreate lv "eam_loop"] else []) ++
  (seqZ 0 (nLocalBoxes (boxes s)) ≫= eam_events lv (preserveRateLevel4 s) not_first) ++
  [TimerStart "eamHaloTimer"; TimerStop "eamHaloTimer"].

Lemma eamForce_eq lv not_first pot s h pot0 :
  sim_wf s → (not_first = true → 0 < preserveRateLevel4 s) →
  eamInit s pot = Ok (h, pot0) → eam_arrays pot0 (slot_count (boxes s)) →
  eamForce lv not_first pot s =
    (acc ← eam_pass1 pot0 s (eam_pairs (boxes s));
     '(df, U, etot) ← eam_pass2 pot0 s acc;
     x ← haloExchange h (mkForceData df (boxes s));
     f ← eam_pass3 pot0 s (HaloExchange.dfEmbed x) (eam_pairs (boxes s)) (e_f acc);
     Ok (mkEam (eam_base pot0) (phi pot0) (rho pot0) (femb pot0) (e_rhobar acc) (HaloExchange.dfEmbed x)
           (forceExchange pot0),
         set_ePotential (set_atoms s (set_U (set_f (atoms s) f) U)) etot, eam_log lv not_first s)).
Proof.
  intros [Hc Ha] Hint Hinit [Hd Hr]. unfold eamForce. rewrite Hinit, ret_bind.
  pose proof (counts_live (boxes s) (nLocalBoxes (boxes s)) Hc (proj2 (local_le_total _ Hc))) as Hlive.
  pose proof (proj1 Hc) as [Gx Gy Gz HL HH HT Hmax _].
  assert (nTotalBoxes (boxes s) * MAXATOMS = Z.of_nat (slot_count (boxes s))) as Hn
    by (unfold slot_count, MAXATOMS in *; nia).
  rewrite int32_Ok, ret_bind by (unfold MAXATOMS, INT_MIN, INT_MAX in *; nia). rewrite Hn.
  rewrite !memset0_all, !ret_bind by (done || apply Ha). rewrite eamBox1_loop by done.
  unfold eam_pass1, eam_zero. destruct (foldM _ (eam_pairs (boxes s)) _) as [acc|]; [|done]. rewrite !ret_bind.
  rewrite each_atom_eq by done. unfold eam_pass2. destruct (foldM _ (live_slots _ _) _) as [[[df U] etot]|]; [|done].
  rewrite !ret_bind. destruct (haloExchange h _) as [x|]; [|done]. rewrite !ret_bind.
  rewrite eamBox_loop by done. unfold eam_pass3. destruct (foldM _ (eam_pairs (boxes s)) _); [|done]. done.
Qed.
End passes.

(** ** When the force routine returns *)

(** The table has the four values it needs at [r]. *)
Definition in_table (t : InterpolationObject) (r : real_t) : Prop :=
  ∃ k, int_floor (scaled t r) = Ok k ∧ 0 ≤ k < tn t.

Lemma interpolate_in t g r : table_of t g → in_table t r → ∃ v d, interpolate t r = Ok (v, d).
Proof.
  intros Ht (k & Hk & Hr). rewrite (interpolate_cases t g r Ht), Hk, ret_bind.
  rewrite (proj2 (Z.leb_le _ _)), (proj2 (Z.ltb_lt _ _)) by lia. simpl andb. cbv iota. unfold quad. eauto.
Qed.

Lemma upd_returns `{!Inhabited A} (a : list A) i g m :
  length a = m → 0 ≤ i < Z.of_nat m → ∃ a', upd a i g = Ok a' ∧ length a' = m.
Proof.
  intros <- Hi. unfold upd. rewrite aload_total, ret_bind, astore_Ok by done. eexists. split; [done|].
  by rewrite length_insert.
Qed.

Definition eam_r2 (r : list real3) (i j : Z) : real_t :=
  let dr := vmap2 fsub (r !!! Z.to_nat i) (r !!! Z.to_nat j) in
  (fzero + v0 dr * v0 dr + v1 dr * v1 dr + v2 dr * v2 dr)%R.

Lemma eamDist_eq r i j m : length r = m → 0 ≤ i < Z.of_nat m → 0 ≤ j < Z.of_nat m →
  eamDist r i j = Ok (vmap2 fsub (r !!! Z.to_nat i) (r !!! Z.to_nat j), eam_r2 r i j).
Proof.
  intros <- Hi Hj. unfold eamDist. rewrite (aload_total r i), ret_bind by done.
  by rewrite (aload_total r j), ret_bind by done.
Qed.

(** [x > y] is not [x <= y]. *)
Lemma fltb_fleb x y : fltb x y = true → fleb x y = true.
Proof. unfold fltb, fleb, SpecFloat.SFltb, SpecFloat.SFleb. by destruct (SpecFloat.SFcompare x y) as [[]|]. Qed.

(** Arrays of the size of the slots. *)
Definition acc_wf (m : nat) (acc : EamAcc) : Prop :=
  length (e_f acc) = m ∧ length (e_U acc) = m ∧ length (e_rhobar acc) = m.

(** The distance of a pair within the cutoff is in both tables. *)
Definition pair_in (pot : EamPotential) (r : list real3) (i j : Z) : Prop :=
  fltb (cutoff (eam_base pot) * cutoff (eam_base pot))%R (eam_r2 r i j) = false →
  in_table (phi pot) (fsqrt (eam_r2 r i j)) ∧ in_table (rho pot) (fsqrt (eam_r2 r i j)).

(** The three tables are tables. *)
Definition tables_wf (pot : EamPotential) : Prop :=
  (∃ g, table_of (phi pot) g) ∧ (∃ g, table_of (rho pot) g) ∧ (∃ g, table_of (femb pot) g).

Ltac step_upd :=
  match goal with |- context [upd ?a ?i ?g] =>
    let a' := fresh "a" in let Ha := fresh "Ha" in let Hl := fresh "Hl" in
    destruct (upd_returns a i g _ eq_refl) as (a' & Ha & Hl); [lia|]; rewrite Ha, ?ret_bind; clear Ha
  end.

Lemma eamPair1_returns pot nl r jBox i j acc m :
  tables_wf pot → length r = m → acc_wf m acc → 0 ≤ i < Z.of_nat m → 0 ≤ j < Z.of_nat m → pair_in pot r i j →
  returns (eamPair1 pot (cutoff (eam_base pot) * cutoff (eam_base pot))%R nl r jBox i j acc) (acc_wf m).
Proof.
  intros ([g1 Hphi] & [g2 Hrho] & _) Hr (Hf & HU & Hb) Hi Hj Hin. unfold eamPair1, pair_in in *.
  rewrite (eamDist_eq r i j m), ret_bind by done.
  destruct (fltb _ (eam_r2 r i j)); [done|]. destruct (Hin eq_refl) as [Hp Hq].
  destruct (interpolate_in _ g1 _ Hphi Hp) as (v1 & d1 & ->). rewrite ret_bind.
  destruct (interpolate_in _ g2 _ Hrho Hq) as (v2 & d2 & ->). rewrite ret_bind.
  do 6 step_upd. unfold acc_wf. simpl. lia.
Qed.

Lemma eamPair3_returns pot r df jBox i j f m :
  tables_wf pot → length r = m → length df = m → length f = m →
  0 ≤ i < Z.of_nat m → 0 ≤ j < Z.of_nat m → pair_in pot r i j →
  returns (eamPair3 pot (cutoff (eam_base pot) * cutoff (eam_base pot))%R r df jBox i j f) (λ f', length f' = m).
Proof.
  intros (_ & [g2 Hrho] & _) Hr Hd Hf Hi Hj Hin. unfold eamPair3, pair_in in *.
  rewrite (eamDist_eq r i j m), ret_bind by done.
  destruct (fleb _ (eam_r2 r i j)) eqn:Hle; [done|].
  destruct Hin as [_ Hq].
  { apply not_true_iff_false. intros Hlt%fltb_fleb. congruence. }
  destruct (interpolate_in _ g2 _ Hrho Hq) as (v2 & d2 & ->). rewrite ret_bind.
  rewrite (aload_total df i), ret_bind by lia. rewrite (aload_total df j), ret_bind by lia.
  step_upd. step_upd. simpl. lia.
Qed.

Lemma eamEmbed_returns pot rb i df U e m :
  tables_wf pot → length rb = m → length df = m → length U = m → 0 ≤ i < Z.of_nat m →
  in_table (femb pot) (rb !!! Z.to_nat i) →
  returns (eamEmbed pot rb i (df, U, e)) (λ st, length st.1.1 = m ∧ length st.1.2 = m).
Proof.
  intros (_ & _ & [g Hg]) Hr Hd HU Hi Hin. unfold eamEmbed. rewrite aload_total, ret_bind by lia.
  destruct (interpolate_in _ g _ Hg Hin) as (v & d & ->). rewrite ret_bind, astore_Ok, ret_bind by lia.
  step_upd. simpl. rewrite length_insert. lia.
Qed.

Section returns.
Context (pot : EamPotential) (s : SimFlat) (Hw : sim_wf s) (Ht : tables_wf pot).
Context (Hin : ∀ jBox i j, (jBox, i, j) ∈ eam_pairs (boxes s) → pair_in pot (ar (atoms s)) i j).
#[local] Abbreviation n := (slot_count (boxes s)).

Lemma eam_pass1_returns : returns (eam_pass1 pot s (eam_pairs (boxes s))) (acc_wf n).
Proof using Hw Ht Hin.
  apply (foldM_inv (λ _, acc_wf n)); [by unfold acc_wf; simpl; rewrite !length_replicate|].
  intros l1 [[jBox i] j] l2 acc Hl Hacc.
  assert ((jBox, i, j) ∈ eam_pairs (boxes s)) as Hp by (rewrite Hl; set_solver).
  destruct (visit_range _ _ _ _ _ (sw_counts s Hw) Hp). apply eamPair1_returns; try done; [apply Hw|by eapply Hin].
Qed.

Lemma eam_pass3_returns df f : length df = n → length f = n →
  returns (eam_pass3 pot s df (eam_pairs (boxes s)) f) (λ f', length f' = n).
Proof using Hw Ht Hin.
  intros Hd Hf. apply (foldM_inv (λ _ f', length f' = n)); [done|].
  intros l1 [[jBox i] j] l2 f' Hl Hf'.
  assert ((jBox, i, j) ∈ eam_pairs (boxes s)) as Hp by (rewrite Hl; set_solver).
  destruct (visit_range _ _ _ _ _ (sw_counts s Hw) Hp). apply eamPair3_returns; try done; [apply Hw|by eapply Hin].
Qed.

Lemma eam_pass2_returns acc : acc_wf n acc →
  (∀ i, i ∈ live_slots (boxes s) (nLocalBoxes (boxes s)) → in_table (femb pot) (e_rhobar acc !!! Z.to_nat i)) →
  returns (eam_pass2 pot s acc) (λ st, length st.1.1 = n ∧ length st.1.2 = n).
Proof using Hw Ht Hin.
  intros (Hf & HU & Hb) Hr.
  apply (foldM_inv (λ _ st, length st.1.1 = n ∧ length st.1.2 = n)); [simpl; by rewrite length_replicate|].
  intros l1 i l2 [[df U] e] Hl [Hd HU'].
  assert (i ∈ live_slots (boxes s) (nLocalBoxes (boxes s))) as Hi by (rewrite Hl; set_solver).
  pose proof (live_slots_range _ _ i (sw_counts s Hw) (proj2 (local_le_total _ (sw_counts s Hw))) Hi).
  apply eamEmbed_returns; try done. by apply Hr.
Qed.
End returns.

(** ** The level-4 domains *)

Lemma eam_events_run lv interval not_first st l :
  lv = Z.of_nat (length st) → (not_first = true → st ≠ []) →
  cd_run (if not_first then false :: st else st) (l ≫= eam_events lv interval not_first) =
  Some (if not_first then false :: st else st).
Proof.
  intros Hlv Hst. induction l as [|i l IH]; [done|]. csimpl. rewrite cd_run_app. unfold eam_events at 1.
  destruct not_first; simpl andb; [|done]. destruct (i mod interval =? 0); [|done].
  assert (cd_run (false :: st) [CdBegin lv "ljForce_outmost_loop"; CdComplete lv] = Some (false :: st)) as ->; [|done].
  rewrite cd_run_cons, run_begin by done. cbn [cd_run cd_step length]. rewrite Nat2Z.inj_succ.
  by rewrite (proj2 (Z.eqb_eq _ _)) by lia.
Qed.

Lemma eam_log_run lv not_first s st :
  lv = Z.of_nat (length st) + 1 →
  cd_run (true :: st) (eam_log lv not_first s) = Some (if not_first then false :: true :: st else true :: st).
Proof.
  intros Hlv. unfold eam_log. rewrite cd_run_app.
  assert (cd_run (true :: st) (if not_first then [CdCreate lv "eam_loop"] else []) =
    Some (if not_first then false :: true :: st else true :: st)) as ->.
  { destruct not_first; [|done]. by apply run_create. }
  rewrite cd_run_app. change (if not_first then false :: true :: st else true :: st)
    with ((λ q, if not_first then false :: q else q) (true :: st)). cbv beta.
  rewrite eam_events_run; [|simpl; lia|done]. done.
Qed.

(** ** Properties *)

(** A table made from [n] values interpolates between them: at an argument
    between node [k] and the next, with [0 <= k < n], value and derivative are
    those of the quadratic formula on the values, extended by the first and the
    last; an argument of NaN or one too large for an [int] is an error of the
    conversion; and an argument at or beyond [x0 + n * dx], or below the table,
    reads outside the allocation. *)
Theorem interpolate_table n x0 dx data r :
  0 < n → n + 3 ≤ INT_MAX → n ≤ Z.of_nat (length data) →
  returns (initInterpolationObject n x0 dx data) (λ t,
    interpolate t r =
      (k ← int_floor (scaled t r);
       if (0 <=? k) && (k <? n)
       then Ok (quad (sample n data) (fone / dx)%R k (scaled t r - ffloor (scaled t r))%R)
       else Err OutOfBounds)).
Proof.
  intros Hn Hmax Hd. destruct (initInterpolationObject_table n x0 dx data Hn Hmax Hd) as (v & -> & Ht).
  cbn [returns]. by rewrite (interpolate_cases _ _ r Ht).
Qed.

(** A table of the values 4, 3, 2, 1 at 0, 1, 2, 3, whose cutoff is 4. *)
Definition ex_table : InterpolationObject :=
  get (mkTable 0 fzero fone []) (initInterpolationObject 4 fzero fone [f64 4; f64 3; f64 2; f64 1]).

(** At 2 it is 2; at 4, [x0 + n * dx], it reads past its end. *)
Lemma interpolate_table_witness :
  (∃ d, interpolate ex_table (f64 2) = Ok (f64 2, d)) ∧ interpolate ex_table (f64 4) = Err OutOfBounds.
Proof.
  split.
  - exists (snd (quad (sample 4 [f64 4; f64 3; f64 2; f64 1]) fone 2 fzero)).
    pose proof (interpolate_table 4 fzero fone [f64 4; f64 3; f64 2; f64 1] (f64 2)
      ltac:(lia) ltac:(by vm_compute) ltac:(simpl; lia)) as H.
    etransitivity; [exact H|]. vm_compute. reflexivity.
  - pose proof (interpolate_table 4 fzero fone [f64 4; f64 3; f64 2; f64 1] (f64 4)
      ltac:(lia) ltac:(by vm_compute) ltac:(simpl; lia)) as H.
    etransitivity; [exact H|]. vm_compute. reflexivity.
Defined.

(** Three atoms in three boxes of a periodic domain of [2 * 2 * 2] boxes, with
    their images in the halo, and the tables above with one of 32 values for the
    embedding energy. *)
Definition ex_sim3 : SimFlat :=
  set_atoms ex_sim (set_r (atoms ex_sim)
    ([V3 fhalf fhalf fhalf; V3 (flit 3 2) fhalf fhalf; V3 (flit 3 2) (flit 3 2) fhalf] ++ replicate 4093 zero3)).
Definition ex_full : SimFlat := get ex_sim (redistributeAtoms ex_atom_halo ex_sim3).
Definition ex_ftable : InterpolationObject :=
  get ex_table (initInterpolationObject 32 fzero fone (f64 <$> seqZ 0 32)).
Definition ex_eam : EamPotential :=
  mkEam (mkBase (f64 4) fone fone "FCC" "Cu" 29) ex_table ex_table ex_ftable [] [] None.
Definition ex_eam_init : HaloExchange ForceExchangeData real_t * EamPotential :=
  get (dummy_halo, ex_eam) (eamInit ex_full ex_eam).
Definition ex_pass1 : EamAcc := get (eam_zero 0) (eam_pass1 ex_eam_init.2 ex_full (eam_pairs (boxes ex_full))).

Section properties.
Context `{Par : Parallel}.

(** C38: [eamForce] is three passes: one over a list of pairs of atoms, one over
    the local atoms, and, after the exchange with the neighbour tasks, one over
    the same pairs; it starts from zero, fails where a pass or the exchange
    fails, and changes forces, energies and the potential's arrays only.  Every
    pair of atoms of the same or adjacent boxes is in the list once, whatever
    the identifiers of the atoms. *)
Theorem eamForce_correct lv not_first pot s h pot0 :
  sim_wf s → (not_first = true → 0 < preserveRateLevel4 s) →
  eamInit s pot = Ok (h, pot0) → eam_arrays pot0 (slot_count (boxes s)) →
  ∃ pairs, pairs_once (boxes s) pairs ∧
  eamForce lv not_first pot s =
    (acc ← eam_pass1 pot0 s pairs;
     '(df, U, etot) ← eam_pass2 pot0 s acc;
     x ← haloExchange h (mkForceData df (boxes s));
     f ← eam_pass3 pot0 s (HaloExchange.dfEmbed x) pairs (e_f acc);
     Ok (mkEam (eam_base pot0) (phi pot0) (rho pot0) (femb pot0) (e_rhobar acc) (HaloExchange.dfEmbed x)
           (forceExchange pot0),
         set_ePotential (set_atoms s (set_U (set_f (atoms s) f) U)) etot, eam_log lv not_first s)).
Proof.
  intros Hw Hint Hinit Harr. exists (eam_pairs (boxes s)). split; [apply eam_pairs_once, Hw|].
  by apply eamForce_eq.
Qed.

(** [eamForce] returns, with every access in bounds and a well-formed state,
    when the distance of every pair within the cutoff is inside the tables of
    [phi] and [rho], the density of every local atom is inside the table of the
    embedding energy, and the exchange returns.  Its level-4 domain, if its flag
    is set, is begun and completed in one box in [CD4_INTERVAL] and never
    destroyed: the call leaves a domain open below the one it was called in.
    (The program never sets the flag; without it there is no domain.) *)
Theorem eamForce_returns lv not_first pot s h pot0 :
  sim_wf s → (not_first = true → 0 < preserveRateLevel4 s) →
  eamInit s pot = Ok (h, pot0) → eam_arrays pot0 (slot_count (boxes s)) → tables_wf pot0 →
  (∀ jBox i j, (jBox, i, j) ∈ eam_pairs (boxes s) → pair_in pot0 (ar (atoms s)) i j) →
  (∀ acc, eam_pass1 pot0 s (eam_pairs (boxes s)) = Ok acc →
     (∀ i, i ∈ live_slots (boxes s) (nLocalBoxes (boxes s)) → in_table (femb pot0) (e_rhobar acc !!! Z.to_nat i)) ∧
     ∀ df U e, eam_pass2 pot0 s acc = Ok (df, U, e) →
       returns (haloExchange h (mkForceData df (boxes s)))
         (λ x, length (HaloExchange.dfEmbed x) = slot_count (boxes s))) →
  returns (eamForce lv not_first pot s) (λ '(pot', s', log),
    sim_wf s' ∧ eam_arrays pot' (slot_count (boxes s)) ∧ boxes s' = boxes s ∧ ar (atoms s') = ar (atoms s) ∧
    ∀ st, lv = Z.of_nat (length st) + 1 →
      cd_run (true :: st) log = Some (if not_first then false :: true :: st else true :: st)).
Proof.
  intros Hw Hint Hinit Harr Ht Hin Hrest. rewrite (eamForce_eq lv not_first pot s h pot0) by done.
  pose proof (eam_pass1_returns pot0 s Hw Ht Hin) as (acc & H1 & Hacc)%returns_Ok.
  destruct (Hrest acc H1) as [Hemb Hx]. rewrite H1, ret_bind.
  pose proof (eam_pass2_returns pot0 s Hw Ht Hin acc Hacc Hemb) as ([[df U] e] & H2 & Hd & HU)%returns_Ok.
  specialize (Hx df U e H2). rewrite H2, ret_bind. apply returns_Ok in Hx as (x & -> & Hx). rewrite ret_bind.
  pose proof (eam_pass3_returns pot0 s Hw Ht Hin (HaloExchange.dfEmbed x) (e_f acc) Hx (proj1 Hacc)) as Hf.
  apply returns_Ok in Hf as (f & -> & Hf). rewrite ret_bind. simpl.
  destruct Hw as [Hc Ha]. split; [|split; [by split; [|apply Hacc]|]].
  { split; [done|]. destruct Ha. by split. }
  split_and!; [done|done|]. intros st Hlv. by apply eam_log_run.
Qed.

End properties.

(** The example satisfies the hypotheses. *)
Lemma ex_full_wf : sim_wf ex_full.
Proof.
  assert (lc_wf (boxes ex_full)) as Hlc by (split; vm_compute; reflexivity || discriminate).
  assert (atoms_wf (boxes ex_full) (atoms ex_full)) as Ha by (split; vm_compute; reflexivity).
  assert (forallb (λ n, (0 <=? n) && (n <=? MAXATOMS)) (nAtoms (boxes ex_full)) = true) as Hn
    by (vm_compute; reflexivity).
  destruct (cells_wf_check _ _ Hlc Ha Hn) as [_ _ Hc]. exact (Build_sim_wf ex_full (conj Hlc Hc) Ha).
Qed.

Lemma ex_eam_init_eq : eamInit ex_full ex_eam = Ok (ex_eam_init.1, ex_eam_init.2).
Proof.
  assert (eamInit ex_full ex_eam = Ok ex_eam_init) as -> by (apply get_Ok; vm_compute; reflexivity).
  by destruct ex_eam_init.
Qed.

Lemma ex_eam_arrays : eam_arrays ex_eam_init.2 (slot_count (boxes ex_full)).
Proof. split; vm_compute; reflexivity. Qed.

Lemma init_get_table d n x0 dx data :
  0 < n → n + 3 ≤ INT_MAX → n ≤ Z.of_nat (length data) →
  ∃ g, table_of (get d (initInterpolationObject n x0 dx data)) g.
Proof.
  intros Hn Hmax Hd. destruct (initInterpolationObject_table n x0 dx data Hn Hmax Hd) as (v & -> & Ht).
  by exists (sample n data).
Qed.

Lemma ex_tables_wf : tables_wf ex_eam_init.2.
Proof.
  assert (phi ex_eam_init.2 = ex_table ∧ rho ex_eam_init.2 = ex_table ∧ femb ex_eam_init.2 = ex_ftable)
    as (H1 & H2 & H3) by (split_and!; vm_compute; reflexivity).
  unfold tables_wf. rewrite H1, H2, H3. split_and!; apply init_get_table; (lia || (vm_compute; discriminate)).
Qed.

(** Ranges, as computations. *)
Definition in_tableb (t : InterpolationObject) (r : real_t) : bool :=
  match int_floor (scaled t r) with Ok k => (0 <=? k) && (k <? tn t) | Err _ => false end.
Lemma in_tableb_true t r : in_tableb t r = true → in_table t r.
Proof. unfold in_tableb, in_table. destruct (int_floor _) as [k|]; [|done]. intros H. exists k. split; [done|lia]. Qed.

Definition pairs_inb (pot : EamPotential) (r : list real3) (l : list (Z * Z * Z)) : bool :=
  forallb (λ p, fltb (cutoff (eam_base pot) * cutoff (eam_base pot))%R (eam_r2 r p.1.2 p.2) ||
    in_tableb (phi pot) (fsqrt (eam_r2 r p.1.2 p.2)) && in_tableb (rho pot) (fsqrt (eam_r2 r p.1.2 p.2))) l.
Lemma pairs_inb_true pot r l : pairs_inb pot r l = true → ∀ jBox i j, (jBox, i, j) ∈ l → pair_in pot r i j.
Proof.
  intros H jBox i j Hin Hlt. unfold pairs_inb in H. rewrite forallb_forall in H.
  specialize (H (jBox, i, j) ltac:(by apply list_elem_of_In)). simpl in H. rewrite Hlt in H. simpl in H.
  apply andb_true_iff in H as [? ?]. split; by apply in_tableb_true.
Qed.

Lemma slots_inb_true t (x : list real_t) l :
  forallb (λ i, in_tableb t (x !!! Z.to_nat i)) l = true → ∀ i, i ∈ l → in_table t (x !!! Z.to_nat i).
Proof.
  rewrite forallb_forall. intros H i Hi. apply in_tableb_true, H. by apply list_elem_of_In.
Qed.

Lemma eamForce_correct_witness :
  ∃ pairs, pairs_once (boxes ex_full) pairs ∧ returns (eam_pass1 ex_eam_init.2 ex_full pairs) (λ _, True).
Proof.
  destruct (eamForce_correct 4 false ex_eam ex_full ex_eam_init.1 ex_eam_init.2 ex_full_wf ltac:(done)
    ex_eam_init_eq ex_eam_arrays) as (pairs & Hp & Hf).
  exists pairs. split; [exact Hp|].
  destruct (eam_pass1 ex_eam_init.2 ex_full pairs) as [acc|e]; [exact I|exfalso].
  assert ((if eamForce 4 false ex_eam ex_full then true else false) = true) as Hok by (vm_compute; reflexivity).
  assert (eamForce 4 false ex_eam ex_full = Err e) as He by exact Hf. rewrite He in Hok. discriminate Hok.
Defined.

Lemma eamForce_returns_witness :
  returns (eamForce 4 true ex_eam ex_full) (λ '(_, s', log),
    sim_wf s' ∧ cd_run [true; true; true; true] log = Some [false; true; true; true; true]).
Proof.
  eapply returns_mono; [apply (eamForce_returns 4 true ex_eam ex_full ex_eam_init.1 ex_eam_init.2 ex_full_wf
    ltac:(intros _; vm_compute; reflexivity) ex_eam_init_eq ex_eam_arrays ex_tables_wf)|].
  - apply pairs_inb_true. vm_compute. reflexivity.
  - intros acc Hacc.
    assert (acc = ex_pass1) as -> by (unfold ex_pass1; by rewrite Hacc).
    split.
    + apply slots_inb_true. vm_compute. reflexivity.
    + intros df U e Hdf.
      assert (df = (get ([], [], fzero) (eam_pass2 ex_eam_init.2 ex_full ex_pass1)).1.1) as -> by (by rewrite Hdf).
      clear. vm_compute. reflexivity.
  - intros [[pot' s'] log] (H1 & _ & _ & _ & H2). split; [exact H1|]. by apply (H2 [true; true; true]).
Defined.
