(* ===== verification/Random.v ===== *)
(** * Random: the random numbers of the initial state (random.c)

    [lcg61] and [mkSeed] are 64-bit integer arithmetic, wrapped around as in C;
    [gasdev] is a rejection loop, run with fuel. The mathematical library's
    [log] is a parameter. *)

From Stdlib Require Import ZArith Lia.
From stdpp Require Import base list numbers.
From S2P Require Import Prelude Float64.

Definition lcg_mod : Z := 2305843009213693951.
Definition lcg_mult : Z := 437799614237992725.

(** [lcg61]: the new seed and the number. *)
Definition lcg61 (seed : Z) : Z * real_t :=
  let convertToDouble := (fone / f64 lcg_mod)%R in
  let seed := u64 (seed * lcg_mult) in
  let seed := seed mod lcg_mod in
  (seed, (f64 seed * convertToDouble)%R).

(** [mkSeed]: [id] and [callSite] are converted to [uint32_t]. *)
Definition mkSeed (id callSite : Z) : Z :=
  let id := u32 id in
  let s1 := u32 (id * 2654435761) in
  let s2 := u32 (u32 (id + callSite) * 2654435761) in
  let iSeed := u64 (u64 (4294967296 * s1) + s2) in
  Nat.iter 10 (λ s, (lcg61 s).1) iSeed.

Section gasdev.
Context (flog : real_t → real_t).

(** [gasdev]: the new seed and the number. *)
Fixpoint gasdev (fuel : nat) (seed : Z) : res (Z * real_t) :=
  match fuel with
  | O => Err OutOfFuel
  | S fuel =>
      let '(seed, x1) := lcg61 seed in
      let v1 := (ftwo * x1 - fone)%R in
      let '(seed, x2) := lcg61 seed in
      let v2 := (ftwo * x2 - fone)%R in
      let rsq := (v1 * v1 + v2 * v2)%R in
      if (fone <=? rsq)%R || (rsq =? fzero)%R then gasdev fuel seed
      else Ok (seed, (v2 * fsqrt (f64 (-2) * flog rsq / rsq))%R)
  end.
End gasdev.

(** ** Ranges *)

Lemma lcg61_range seed : 0 ≤ (lcg61 seed).1 < lcg_mod.
Proof. apply Z.mod_pos_bound. reflexivity. Qed.

Lemma lcg61_u64 seed : u64 (lcg61 seed).1 = (lcg61 seed).1.
Proof. pose proof (lcg61_range seed). apply u64_small. unfold lcg_mod in *. lia. Qed.

Lemma gasdev_fuel flog n m seed r : (n ≤ m)%nat → gasdev flog n seed = Ok r → gasdev flog m seed = Ok r.
Proof.
  revert m seed. induction n as [|n IH]; intros [|m] seed Hle H; try done; [lia|].
  cbn [gasdev] in *. destruct (lcg61 seed) as [s1 x1]. destruct (lcg61 s1) as [s2 x2].
  destruct (_ || _)%bool; [|done]. apply IH; [lia|done].
Qed.

(** ** Properties *)

(** The generator. The seed stays below [2^61 - 1] and is the multiplier times
    the old seed modulo [2^61 - 1] exactly when the product does not leave 64 bits
    modulo that prime: in general the wrap-around of the product by [2^64] comes
    first, so [lcg61] is not the generator of modulus [2^61 - 1] its comment
    describes; the seed 1 already differs at the second step. *)
Theorem lcg61_wraps :
  (∀ seed, 0 ≤ (lcg61 seed).1 < lcg_mod) ∧
  (∀ seed, 0 ≤ seed → seed * lcg_mult < 2 ^ 64 →
     (lcg61 seed).1 = (lcg_mult * seed) mod lcg_mod) ∧
  (lcg61 (lcg61 1).1).1 ≠ (lcg_mult * (lcg61 1).1) mod lcg_mod.
Proof.
  split_and!.
  - apply lcg61_range.
  - intros seed H0 H. unfold lcg61. cbn [fst].
    rewrite u64_small by (unfold lcg_mult in *; lia). by rewrite Z.mul_comm.
  - vm_compute. congruence.
Qed.

(** [gasdev] cannot leave the seed 0: from it every sample is rejected, so the
    loop runs for ever, whatever the fuel. From other seeds the result does not
    depend on the fuel, once there is enough. *)
Theorem gasdev_zero_stuck flog :
  (∀ fuel, gasdev flog fuel 0 = Err OutOfFuel) ∧
  (∀ n m seed r, (n ≤ m)%nat → gasdev flog n seed = Ok r → gasdev flog m seed = Ok r) ∧
  (∃ r, gasdev flog 4 (mkSeed 0 123) = Ok r).
Proof.
  split_and!.
  - induction fuel as [|fuel IH]; [done|]. cbn [gasdev].
    replace (lcg61 0) with (0, fzero) by (vm_compute; reflexivity). cbv zeta.
    replace (lcg61 0) with (0, fzero) by (vm_compute; reflexivity). cbv zeta.
    assert ((fone <=? (ftwo * fzero - fone) * (ftwo * fzero - fone) +
      (ftwo * fzero - fone) * (ftwo * fzero - fone))%R = true) as -> by (vm_compute; reflexivity).
    exact IH.
  - intros n m seed r. apply gasdev_fuel.
  - exists (get (0, fzero) (gasdev flog 4 (mkSeed 0 123))). apply get_Ok. vm_compute. reflexivity.
Qed.
