(* ===== verification/InitAtoms.v ===== *)
(** * InitAtoms: the initial configuration (initAtoms.c)

    The face-centred cubic lattice, the random momenta and displacements, and the
    centre-of-mass velocity. Each loop over the atoms is [each_atom]. The fuel of
    [gasdev] and the mathematical library's [log] are parameters. *)

From Stdlib Require Import ZArith Lia.
From stdpp Require Import base list numbers sets.
From S2P Require Import Prelude Float64 Parallel Decomposition LinkCells Atoms CoMDTypes HaloExchange Timestep Random.

(** constants.h *)
Definition kB_eV : real_t := flit 86173324 (10 ^ 12).

(** The four atoms of the unit cell. *)
Definition basis : list real3 :=
  let q := flit 1 4 in let t := flit 3 4 in [V3 q q q; V3 q t t; V3 t q t; V3 t t q].
Definition nb : Z := 4.

(** The identifier of atom [ib] of unit cell [(ix, iy, iz)]. *)
Definition lattice_id (ny nz ib ix iy iz : Z) : res Z :=
  a ← int32 (ny * ix);
  a ← int32 (iy + a);
  a ← int32 (nz * a);
  a ← int32 (iz + a);
  a ← int32 (nb * a);
  int32 (ib + a).

(** One site of the lattice: placed when it is inside the local bounds. *)
Definition lattice_site (d : Domain) (ny nz : Z) (lat : real_t) (ix iy iz ib : Z)
    (ba : LinkCell * Atoms) : res (LinkCell * Atoms) :=
  let localMin := dLocalMin d in
  let localMax := dLocalMax d in
  bv ← aload basis ib;
  let rx := ((f64 ix + v0 bv) * lat)%R in
  let ry := ((f64 iy + v1 bv) * lat)%R in
  let rz := ((f64 iz + v2 bv) * lat)%R in
  if (rx <? v0 localMin)%R || (v0 localMax <=? rx)%R then Ok ba else
  if (ry <? v1 localMin)%R || (v1 localMax <=? ry)%R then Ok ba else
  if (rz <? v2 localMin)%R || (v2 localMax <=? rz)%R then Ok ba else
  id ← lattice_id ny nz ib ix iy iz;
  putAtomInBox ba.1 ba.2 id 0 (V3 rx ry rz) zero3.

Section initAtoms.
Context `{Par : Parallel}.
Context (flog : real_t → real_t) (fuel : nat).

Definition set_nGlobal (a : Atoms) (n : Z) : Atoms :=
  mkAtoms (nLocal a) n (gid a) (iSpecies a) (ar a) (ap a) (af a) (aU a).

(** [createFccLattice]. *)
Definition createFccLattice (nx ny nz : Z) (lat : real_t) (s : SimFlat) : res SimFlat :=
  let d := domain s in
  bx ← int_floor (v0 (dLocalMin d) / lat)%R;
  ex ← int_ceil (v0 (dLocalMax d) / lat)%R;
  by_ ← int_floor (v1 (dLocalMin d) / lat)%R;
  ey ← int_ceil (v1 (dLocalMax d) / lat)%R;
  bz ← int_floor (v2 (dLocalMin d) / lat)%R;
  ez ← int_ceil (v2 (dLocalMax d) / lat)%R;
  '(b, a) ← for_range bx ex (λ ix, for_range by_ ey (λ iy, for_range bz ez (λ iz,
    for_range 0 nb (λ ib, lattice_site d ny nz lat ix iy iz ib)))) (boxes s, atoms s);
  g ← aload (addIntParallel [nLocal a]) 0;
  n ← int32 (nb * nx);
  n ← int32 (n * ny);
  n ← int32 (n * nz);
  _ ← cassert (g =? n);
  Ok (set_cells s (b, set_nGlobal a g)).

(** [computeVcm]. *)
Definition computeVcm (s : SimFlat) : res real3 :=
  '(v, m) ← each_atom (boxes s) (nLocalBoxes (boxes s)) (λ iOff vm,
    p ← aload (ap (atoms s)) iOff;
    let v := vmap2 fadd vm.1 p in
    sp ← aload (iSpecies (atoms s)) iOff;
    x ← aload (species s) sp;
    Ok (v, (vm.2 + sp_mass x)%R)) (zero3, fzero);
  let vcmSum := addRealParallel [v0 v; v1 v; v2 v; m] in
  totalMass ← aload vcmSum 3;
  x ← aload vcmSum 0;
  y ← aload vcmSum 1;
  z ← aload vcmSum 2;
  Ok (V3 (x / totalMass)%R (y / totalMass)%R (z / totalMass)%R).

(** [setVcm]. *)
Definition setVcm (s : SimFlat) (newVcm : real3) : res SimFlat :=
  oldVcm ← computeVcm s;
  let vShift := vmap2 fsub newVcm oldVcm in
  p ← each_atom (boxes s) (nLocalBoxes (boxes s)) (λ iOff p,
    sp ← aload (iSpecies (atoms s)) iOff;
    x ← aload (species s) sp;
    let mass := sp_mass x in
    pi ← aload p iOff;
    astore p iOff (vmap2 (λ q v, q + mass * v)%R pi vShift)) (ap (atoms s));
  Ok (set_atoms s (set_p (atoms s) p)).

(** [setTemperature]. *)
Definition setTemperature (s : SimFlat) (temperature : real_t) : res SimFlat :=
  p ← each_atom (boxes s) (nLocalBoxes (boxes s)) (λ iOff p,
    sp ← aload (iSpecies (atoms s)) iOff;
    x ← aload (species s) sp;
    let mass := sp_mass x in
    let sigma := fsqrt (kB_eV * temperature / mass)%R in
    g ← aload (gid (atoms s)) iOff;
    let seed := mkSeed g 123 in
    '(seed, g0) ← gasdev flog fuel seed;
    '(seed, g1) ← gasdev flog fuel seed;
    '(seed, g2) ← gasdev flog fuel seed;
    astore p iOff (V3 (mass * sigma * g0)%R (mass * sigma * g1)%R (mass * sigma * g2)%R))
    (ap (atoms s));
  let s := set_atoms s (set_p (atoms s) p) in
  if (temperature =? fzero)%R then Ok s else
  s ← setVcm s zero3;
  s ← kineticEnergy s;
  let temp := (eKinetic s / f64 (nGlobal (atoms s)) / kB_eV / flit 3 2)%R in
  let scaleFactor := fsqrt (temperature / temp)%R in
  p ← each_atom (boxes s) (nLocalBoxes (boxes s)) (λ iOff p,
    pi ← aload p iOff;
    astore p iOff (vmap (λ q, q * scaleFactor)%R pi)) (ap (atoms s));
  kineticEnergy (set_atoms s (set_p (atoms s) p)).

(** The displacement of the atom with identifier [g] along the three axes. *)
Definition displacement (g : Z) (delta : real_t) : real3 :=
  let '(seed, x0) := lcg61 (mkSeed g 457) in
  let '(seed, x1) := lcg61 seed in
  let '(_, x2) := lcg61 seed in
  vmap (λ x, (ftwo * x - fone) * delta)%R (V3 x0 x1 x2).

(** [randomDisplacements]. *)
Definition randomDisplacements (s : SimFlat) (delta : real_t) : res SimFlat :=
  r ← each_atom (boxes s) (nLocalBoxes (boxes s)) (λ iOff r,
    g ← aload (gid (atoms s)) iOff;
    ri ← aload r iOff;
    astore r iOff (vmap2 fadd ri (displacement g delta))) (ar (atoms s));
  Ok (set_atoms s (set_r (atoms s) r)).
End initAtoms.

(** ** Properties *)

Lemma lattice_id_eq ny nz ib ix iy iz id :
  lattice_id ny nz ib ix iy iz = Ok id → id = ib + nb * (iz + nz * (iy + ny * ix)).
Proof. unfold lattice_id. intros H. by res_inv. Qed.

Lemma lattice_digits_inj n a a' q q' : 0 ≤ a < n → 0 ≤ a' < n → a + n * q = a' + n * q' → a = a' ∧ q = q'.
Proof. intros. assert (q = q') by nia. nia. Qed.

(** The sites of the lattice have distinct identifiers: two sites of the global
    lattice ([0 .. ny - 1] and [0 .. nz - 1] on the last axes, any cell on the first)
    with the same identifier are the same site, whichever ranks placed them. *)
Theorem lattice_id_unique ny nz ib ix iy iz ib' ix' iy' iz' id :
  0 ≤ ib < nb → 0 ≤ iy < ny → 0 ≤ iz < nz → 0 ≤ ib' < nb → 0 ≤ iy' < ny → 0 ≤ iz' < nz →
  lattice_id ny nz ib ix iy iz = Ok id → lattice_id ny nz ib' ix' iy' iz' = Ok id →
  (ib, ix, iy, iz) = (ib', ix', iy', iz').
Proof.
  intros Hb Hy Hz Hb' Hy' Hz' H%lattice_id_eq H'%lattice_id_eq. subst id. unfold nb in *.
  apply lattice_digits_inj in H' as [-> Hq]; [|lia|lia].
  apply lattice_digits_inj in Hq as [-> Hq]; [|lia|lia].
  apply lattice_digits_inj in Hq as [-> ->]; done.
Qed.

Lemma lattice_id_unique_witness : lattice_id 20 20 3 19 19 19 = Ok 31999 ∧ (3, 19, 19, 19) = (3, 19, 19, 19).
Proof.
  split; [by vm_compute|].
  apply (lattice_id_unique 20 20 3 19 19 19 3 19 19 19 31999);
    first [by vm_compute | unfold nb; lia].
Defined.

(** [randomDisplacements] moves every live local atom by an amount that depends
    only on its identifier, not on its slot, box or rank, and changes nothing else.
    In particular atoms of the same identifier on different decompositions get the
    same displacement. *)
Theorem randomDisplacements_spec s delta :
  sim_wf s →
  returns (randomDisplacements s delta) (λ s', ∃ r', s' = set_atoms s (set_r (atoms s) r') ∧
    length r' = length (ar (atoms s)) ∧
    ∀ k, r' !! k = (λ x, if decide (Z.of_nat k ∈ live_slots (boxes s) (nLocalBoxes (boxes s)))
                         then vmap2 fadd x (displacement (gid (atoms s) !!! k) delta)
                         else x) <$> ar (atoms s) !! k).
Proof.
  intros [Hc Ha]. pose proof (local_le_total _ Hc) as [_ Hle].
  pose proof (counts_live _ _ Hc Hle) as Hl. unfold randomDisplacements.
  rewrite each_atom_eq by done. pose proof Ha as [Lg _ Lr _ _ _].
  rewrite (foldM_update _ (λ i x, vmap2 fadd x (displacement (gid (atoms s) !!! Z.to_nat i) delta)));
    [|by apply NoDup_live_slots| |].
  - rewrite ret_bind. cbn [returns]. eexists. split; [reflexivity|]. split; [apply length_map_at|].
    intros k. rewrite map_at_lookup, Nat2Z.id. done.
  - intros i Hi. apply live_slots_range in Hi; [|done..]. lia.
  - intros i a x Hi Hlen Hx. apply live_slots_range in Hi; [|done..].
    rewrite (aload_total (gid (atoms s)) i) by lia. csimpl.
    rewrite (aload_lookup (A:=vec3 real_t) a i x) by (done || lia). csimpl.
    by rewrite astore_Ok by lia.
Qed.

Lemma randomDisplacements_spec_witness :
  returns (randomDisplacements ex_sim fone) (λ s', gid (atoms s') = gid (atoms ex_sim)).
Proof.
  eapply returns_mono; [apply (randomDisplacements_spec ex_sim fone ex_sim_wf)|].
  by intros s' (r' & -> & _).
Defined.
