(* ===== verification/CoMD.v ===== *)
(** * CoMD: the main program (CoMD.c, mycommand.h)

    [initSimulation] builds the state from the command line, and [main_cds] is the
    main loop with its containment domains: the root, one at level 1 that begins
    every [CD1_INTERVAL] output intervals, and one at level 2 created inside it,
    which the integrator begins five times per time step. The integrator is a
    parameter of the loop, as is the potential of the initialisation. *)

From Stdlib Require Import ZArith Lia String.
From stdpp Require Import base list numbers sets strings.
From S2P Require Import Prelude Float64 Parallel Decomposition LinkCells Atoms CoMDTypes HaloExchange Cd CdComd Timestep Recovery LjForce InitAtoms.

Record Command := mkCommand {
  cmd_potDir : string;
  cmd_potName : string;
  cmd_potType : string;
  cmd_doeam : Z;
  cmd_nx : Z; cmd_ny : Z; cmd_nz : Z;
  cmd_xproc : Z; cmd_yproc : Z; cmd_zproc : Z;
  cmd_nSteps : Z;
  cmd_printRate : Z;
  cmd_preserveRateLevel1 : Z;
  cmd_preserveRateLevel2 : Z;
  cmd_preserveRateLevel3 : Z;
  cmd_preserveRateLevel4 : Z;
  cmd_dt : real_t;
  cmd_lat : real_t;
  cmd_temperature : real_t;
  cmd_initialDelta : real_t;
}.

(** The defaults [parseCommandLine] starts from. *)
Definition defaultCommand : Command :=
  mkCommand "pots" "" "funcfl" 0 20 20 20 1 1 1 100 10 1 1 1 1728
    fone (f64 (-1)) (f64 600) fzero.

(** The name of the potential when the user gave none. *)
Definition defaultPotName (cmd : Command) : string :=
  if String.eqb (cmd_potName cmd) "" then
    if String.eqb (cmd_potType cmd) "setfl" then "Cu01.eam.alloy"
    else if String.eqb (cmd_potType cmd) "funcfl" then "Cu_u6.eam"
    else cmd_potName cmd
  else cmd_potName cmd.

Section comd.
Context `{Par : Parallel}.

(** [strcasecmp] on ASCII. *)
Definition lower (c : Ascii.ascii) : Ascii.ascii :=
  let n := Ascii.nat_of_ascii c in
  if (Nat.leb 65 n && Nat.leb n 90)%bool then Ascii.ascii_of_nat (n + 32) else c.
Fixpoint strcasecmp_eq (a b : string) : bool :=
  match a, b with
  | EmptyString, EmptyString => true
  | String c a, String d b => Ascii.eqb (lower c) (lower d) && strcasecmp_eq a b
  | _, _ => false
  end.

(** [sanityChecks]: the fail code; the program exits when it is not 0. Every rank
    computes the same code, so the broadcast is left out. *)
Definition sanityCode (cmd : Command) (cutoff latticeConst : real_t) (latticeType : string) : res Z :=
  n ← int32 (cmd_xproc cmd * cmd_yproc cmd);
  nProcs ← int32 (n * cmd_zproc cmd);
  let c1 := if nProcs =? getNRanks then 0 else 1 in
  let minx := (ftwo * cutoff * f64 (cmd_xproc cmd))%R in
  let miny := (ftwo * cutoff * f64 (cmd_yproc cmd))%R in
  let minz := (ftwo * cutoff * f64 (cmd_zproc cmd))%R in
  let sizex := (f64 (cmd_nx cmd) * latticeConst)%R in
  let sizey := (f64 (cmd_ny cmd) * latticeConst)%R in
  let sizez := (f64 (cmd_nz cmd) * latticeConst)%R in
  let c2 := if (sizex <? minx)%R || (sizey <? miny)%R || (sizez <? minz)%R then 2 else 0 in
  let c4 := if strcasecmp_eq latticeType "FCC" then 0 else 4 in
  Ok (Z.lor (Z.lor c1 c2) c4).
Definition sanityChecks (cmd : Command) (cutoff latticeConst : real_t) (latticeType : string) : res unit :=
  failCode ← sanityCode cmd cutoff latticeConst latticeType;
  if failCode =? 0 then Ok () else Err FatalExit.

(** [initSpecies]. *)
Definition initSpecies (pot : BasePotential) : list SpeciesData :=
  [mkSpecies (pot_name pot) (atomicNo pot) (mass pot)].

(** [sumAtoms]. *)
Definition sumAtoms (s : SimFlat) : res SimFlat :=
  n ← for_range 0 (nLocalBoxes (boxes s)) (λ i n,
    c ← aload (nAtoms (boxes s)) i;
    int32 (n + c)) 0;
  g ← aload (addIntParallel [n]) 0;
  Ok (set_atoms s (set_nGlobal (set_nLocal (atoms s) n) g)).

Record Validate := mkValidate { eTot0 : real_t; nAtoms0 : Z }.

(** [initValidate], [validateResult]: the second gives the final energy and the
    change of the number of atoms, which it prints on rank 0. *)
Definition initValidate (s : SimFlat) : res (SimFlat * Validate) :=
  s ← sumAtoms s;
  Ok (s, mkValidate ((ePotential s + eKinetic s) / f64 (nGlobal (atoms s)))%R (nGlobal (atoms s))).
Definition validateResult (val : Validate) (s : SimFlat) : res (real_t * Z) :=
  let eFinal := ((ePotential s + eKinetic s) / f64 (nGlobal (atoms s)))%R in
  nAtomsDelta ← int32 (nGlobal (atoms s) - nAtoms0 val);
  Ok (eFinal, nAtomsDelta).

(** [initSimulation], on the potential [pot] that [initPotential] returns; [force] is
    its routine, with the static state [fs]. *)
Definition initSimulation {F} (flog : real_t → real_t) (fuel : nat)
    (force : F → SimFlat → res (F * SimFlat * list event)) (pot : BasePotential)
    (cmd : Command) (fs : F) : res (F * SimFlat * HaloExchange SimFlat AtomMsg * list event) :=
  let latticeConstant := if (cmd_lat cmd <? fzero)%R then lat pot else cmd_lat cmd in
  _ ← sanityChecks cmd (cutoff pot) latticeConstant (latticeType pot);
  let extent := V3 (f64 (cmd_nx cmd) * latticeConstant)%R (f64 (cmd_ny cmd) * latticeConstant)%R
                   (f64 (cmd_nz cmd) * latticeConstant)%R in
  d ← initDecomposition (cmd_xproc cmd) (cmd_yproc cmd) (cmd_zproc cmd) extent;
  b ← initLinkCells d (cutoff pot);
  a ← initAtoms b;
  let s := mkSim (cmd_nSteps cmd) (cmd_printRate cmd) (cmd_dt cmd) (cmd_doeam cmd)
             (cmd_preserveRateLevel1 cmd) (cmd_preserveRateLevel2 cmd)
             (cmd_preserveRateLevel3 cmd) (cmd_preserveRateLevel4 cmd)
             d b a (initSpecies pot) fzero fzero in
  s ← createFccLattice (cmd_nx cmd) (cmd_ny cmd) (cmd_nz cmd) latticeConstant s;
  s ← setTemperature flog fuel s (cmd_temperature cmd);
  s ← randomDisplacements s (cmd_initialDelta cmd);
  h ← initAtomHaloExchange d (boxes s);
  s ← redistributeAtoms h s;
  '(fs, s, log) ← force fs s;
  s ← kineticEnergy s;
  Ok (fs, s, h, log).
End comd.

(** ** The main loop *)

Definition off_ePotential : Z := 72.
Definition off_eKinetic : Z := 80.

(** What the loop threads: the state of the force routine, the simulation, the step,
    the flag [is_lv1_completed], the number of calls of [timestep] and the log. *)
Record MainState (F : Type) := mkMain {
  ms_fs : F;
  ms_sim : SimFlat;
  ms_iStep : Z;
  ms_completed : bool;
  ms_log : list event;
}.
Arguments mkMain {_} _ _ _ _ _.
Arguments ms_fs {_} _.
Arguments ms_sim {_} _.
Arguments ms_iStep {_} _.
Arguments ms_completed {_} _.
Arguments ms_log {_} _.

(** [iStep % (CD1_INTERVAL * printRate)]. *)
Definition interval_pos (interval printRate iStep : Z) : res Z :=
  m ← int32 (interval * printRate);
  crem iStep m.

(** The begin of the level-1 domain and what it preserves. *)
Definition main_begin (nCells : list Z) (s : SimFlat) : res (list event) :=
  '(ev1, _) ← preserveAtoms 1 kCopy (nTotalBoxes (boxes s)) 1 0 0 0 0 0 0 0 (-1) None;
  '(ev2, _) ← preserveLinkCell 1 kCopy (boxes s) 1 0 0 0 0;
  '(ev3, _) ← preserveHaloAtom 1 kCopy nCells 1 1;
  Ok (CdBegin 1 "main_loop_inner" :: ev1 ++ ev2 ++ ev3 ++
      [preserve 1 (ObjVar "iStep") 0 sizeof_int kCopy "timestep_iStep";
       preserve 1 ObjSim off_ePotential sizeof_real kCopy "timestep_ePotential";
       preserve 1 ObjSim off_eKinetic sizeof_real kCopy "timestep_eKinetic"]).

(** Its end, with the outputs. *)
Definition main_end (nCells : list Z) (s : SimFlat) : res (list event) :=
  '(ev1, _) ← preserveAtoms 1 kOutput (nTotalBoxes (boxes s)) 1 0 0 0 0 0 0 0 (-1) None;
  '(ev2, _) ← preserveLinkCell 1 kOutput (boxes s) 1 0 0 0 0;
  '(ev3, _) ← preserveHaloAtom 1 kOutput nCells 1 1;
  Ok (ev1 ++ ev2 ++ ev3 ++ [CdDetect 1; CdComplete 1]).

Definition reduce_events : list event :=
  [TimerStart "commReduceTimer"; TimerStart "commReduceTimer"; TimerStop "commReduceTimer";
   TimerStop "commReduceTimer"].

Section main.
Context `{Par : Parallel} {F : Type}.
Context (timestep : F → SimFlat → Z → real_t → res (F * SimFlat * list event)).
Context (nCells : list Z) (interval printRate nSteps : Z).

(** One iteration: output, [printRate] time steps. *)
Definition main_iter (st : MainState F) : res (MainState F) :=
  let iStep := ms_iStep st in
  r ← interval_pos interval printRate iStep;
  let first := r =? 0 in
  ev1 ← (if first then main_begin nCells (ms_sim st) else Ok []);
  let completed := if first then false else ms_completed st in
  s ← sumAtoms (ms_sim st);
  let ev2 := if first then [CdCreate 2 "main_timestep"] else [] in
  '(fs, s, ev3) ← timestep (ms_fs st) s printRate (dt s);
  last ← int32 ((interval - 1) * printRate);
  let ev4 := if r =? last then [CdDestroy 2] else [] in
  iStep ← int32 (iStep + printRate);
  r ← interval_pos interval printRate (iStep - printRate);
  '(ev5, completed) ← (if r =? last then
      ev ← main_end nCells s;
      Ok (ev, true)
    else Ok ([], completed));
  Ok (mkMain fs s iStep completed
        (ms_log st ++ ev1 ++ reduce_events ++ ev2 ++
         [TimerStart "timestepTimer"] ++ ev3 ++ [TimerStop "timestepTimer"] ++ ev4 ++ ev5)).

(** [for (; iStep < nSteps;)], with fuel. *)
Fixpoint main_loop (fuel : nat) (st : MainState F) : res (MainState F) :=
  if nSteps <=? ms_iStep st then Ok st else
  match fuel with
  | O => Err OutOfFuel
  | S fuel => st ← main_iter st; main_loop fuel st
  end.

(** After the loop: a level-1 domain that is not completed is ended with its level-2
    handle, the atoms are counted and the root domain is completed. *)
Definition main_finish (st : MainState F) : res (MainState F) :=
  let ev1 :=
    (if ms_completed st then [] else [CdDestroy 2; CdDetect 1; CdComplete 1]) ++ [CdDestroy 1] in
  s ← sumAtoms (ms_sim st);
  Ok (mkMain (ms_fs st) s (ms_iStep st) (ms_completed st)
        (ms_log st ++ ev1 ++
         [TimerStart "commReduceTimer"; TimerStop "commReduceTimer"; CdDetect 0; CdComplete 0])).

(** From the root domain's begin to its completion. *)
Definition main_cds (tables : InterpolationObject * InterpolationObject * InterpolationObject)
    (fuel : nat) (fs : F) (s : SimFlat) : res (MainState F) :=
  '(ev0, _) ← preserveSimFlat 0 kCopy s tables nCells;
  st ← main_loop fuel (mkMain fs s 0 false []);
  st ← main_finish st;
  Ok (mkMain (ms_fs st) (ms_sim st) (ms_iStep st) (ms_completed st)
        (CdBegin 0 "Root" :: ev0 ++ [CdCreate 1 "main_loop_inner"] ++ ms_log st)).
End main.

(** [CoMD.c]'s use of the loop: the numbers of steps and the interval are read from
    the simulation. *)
Definition main_sim `{Par : Parallel} {F}
    (timestep : F → SimFlat → Z → real_t → res (F * SimFlat * list event))
    (nCells : list Z) tables (fs : F) (s : SimFlat) : res (MainState F) :=
  main_cds timestep nCells (preserveRateLevel1 s) (printRate s) (nSteps s) tables
    (Z.to_nat (nSteps s)) fs s.

(** ** Counting atoms *)

Lemma sumAtoms_eq `{Par : Parallel} s :
  counts_wf (boxes s) →
  sumAtoms s =
    (g ← aload (addIntParallel [Z.of_nat (length (live_slots (boxes s) (nLocalBoxes (boxes s))))]) 0;
     Ok (set_atoms s (set_nGlobal (set_nLocal (atoms s)
       (Z.of_nat (length (live_slots (boxes s) (nLocalBoxes (boxes s)))))) g))).
Proof.
  intros Hc. set (b := boxes s) in *. pose proof Hc as [Hlc _].
  pose proof (local_le_total _ Hc) as Hle. pose proof (wf_int _ Hlc) as Hi.
  unfold sumAtoms. fold b.
  assert (returns (for_range 0 (nLocalBoxes b) (λ i n, c ← aload (nAtoms b) i; int32 (n + c)) 0)
    (λ n, n = Z.of_nat (length (live_slots b (nLocalBoxes b))))) as Hn.
  { eapply returns_mono; [apply (for_range_inv (λ k n,
      n = Z.of_nat (length (live_slots b k)) ∧ n ≤ MAXATOMS * k))|by intros n [? _]].
    - lia.
    - unfold MAXATOMS. done.
    - intros k n Hk [-> Hb]. destruct (counts_bounds b k Hc ltac:(lia)) as (_ & -> & Ho).
      rewrite ret_bind, int32_Ok by (unfold INT_MAX, INT_MIN, MAXATOMS in *; lia).
      cbn [returns]. rewrite live_slots_snoc, length_app, length_seqZ, Nat2Z.id by lia.
      unfold MAXATOMS in *. lia. }
  apply returns_Ok in Hn as (n & -> & ->). done.
Qed.

(** ** The life cycle of the main loop *)

Lemma preserveHaloForce_only cdh knob doeam nCells evs n :
  preserveHaloForce cdh knob doeam nCells = Ok (evs, n) → preserves_at cdh evs.
Proof. unfold preserveHaloForce. intros H. res_inv. only_preserves. Qed.

Lemma preserveEamPot_only cdh knob doeam nt phi rho f evs n :
  preserveEamPot cdh knob doeam nt phi rho f = Ok (evs, n) → preserves_at cdh evs.
Proof.
  unfold preserveEamPot. intros H. apply bind_Ok in H as (u & _ & H).
  cbn [preserveInterpolationObject preserveForceData] in H. injection H as <- _. only_preserves.
Qed.

Lemma preserveHaloExchange_only cdh knob doeam nCells fo evs n :
  preserveHaloExchange cdh knob doeam nCells fo = Ok (evs, n) → preserves_at cdh evs.
Proof.
  unfold preserveHaloExchange. intros H. apply bind_Ok in H as ([e m] & He & H). injection H as <- _.
  apply Forall_cons. split; [by eexists|]. destruct (negb (fo =? 0));
    [by eapply preserveHaloForce_only|by eapply preserveHaloAtom_only].
Qed.

Lemma preserveSimFlat_only cdh knob s tables nCells evs n :
  preserveSimFlat cdh knob s tables nCells = Ok (evs, n) → preserves_at cdh evs.
Proof.
  unfold preserveSimFlat. cbn [preserveDomain preserveSpeciesData preserveLjPot]. intros H.
  apply bind_Ok in H as ([e2 n2] & H2%preserveLinkCell_only & H).
  apply bind_Ok in H as ([e3 n3] & H3%preserveAtoms_only & H).
  apply bind_Ok in H as ([e5 n5] & H5 & H). injection H as <- _.
  apply Forall_cons. split; [by eexists|]. repeat apply preserves_at_app; try done.
  apply Forall_cons. split; [by eexists|].
  destruct (negb (doeam s =? 0)).
  - apply bind_Ok in H5 as ([e n'] & He%preserveEamPot_only & H5).
    apply bind_Ok in H5 as ([e' n''] & He'%preserveHaloExchange_only & H5). injection H5 as <- _.
    by apply preserves_at_app.
  - apply bind_Ok in H5 as ([e' n''] & He'%preserveHaloExchange_only & H5). injection H5 as <- _.
    apply Forall_cons. split; [by eexists|done].
Qed.

(** What the loop relies on: an invariant of the simulation that implies
    well-formed storage of a bounded size, and that the integrator keeps, returning
    with the handles as they were and beginning no level-1 domain. *)
Record main_ok `{Par : Parallel} {F}
    (timestep : F → SimFlat → Z → real_t → res (F * SimFlat * list event))
    (I : SimFlat → Prop) (n : Z) : Prop := {
  mo_wf : ∀ s, I s → sim_wf s ∧ 88 * (MAXATOMS * nTotalBoxes (boxes s)) + 8000 < 2 ^ 31;
  mo_count : ∀ s l g, I s → I (set_atoms s (set_nGlobal (set_nLocal (atoms s) l) g));
  mo_reduce : ∀ l, ∃ g, aload (addIntParallel [l]) 0 = Ok g;
  mo_step : ∀ fs s, I s → returns (timestep fs s n (dt s)) (λ '(_, s', log),
    I s' ∧ keeps [false; true; true] log ∧ labels 1 log = []);
}.

Section main_life.
Context `{Par : Parallel} {F : Type}.
Context (timestep : F → SimFlat → Z → real_t → res (F * SimFlat * list event)).
Context (nCells : list Z) (interval printRate nSteps : Z) (I : SimFlat → Prop).
Context (HI : main_ok timestep I printRate).
Context (Hcells : length nCells = 6%nat) (Hpos : ∀ c, c ∈ nCells → 0 ≤ c).
Context (Hsum : 4 * foldr Z.add 0 nCells + 144 < 2 ^ 32).
Context (Hint : 0 < interval) (Hrate : 0 < printRate).
Context (Hprod : interval * printRate ≤ INT_MAX) (Hsteps : nSteps + printRate ≤ INT_MAX).

Lemma sum_returns s : I s → returns (sumAtoms s) I.
Proof using All.
  intros Hs. destruct HI as [Hw Hc Hr _]. destruct (Hw s Hs) as [[Hcw _] _].
  rewrite sumAtoms_eq by done. destruct (Hr (Z.of_nat (length (live_slots (boxes s) (nLocalBoxes (boxes s))))))
    as [g ->]. rewrite ret_bind. by apply Hc.
Qed.

Lemma interval_pos_eq j :
  0 ≤ j → interval_pos interval printRate (j * printRate) = Ok (j mod interval * printRate).
Proof using All.
  intros Hj. unfold interval_pos. rewrite int32_Ok, ret_bind by (unfold INT_MIN; nia).
  rewrite crem_Ok by nia. by rewrite Z.mul_mod_distr_r by lia.
Qed.

Lemma main_preserve s knob :
  I s → ∃ e1 n1 e2 n2 e3 n3,
    preserveAtoms 1 knob (nTotalBoxes (boxes s)) 1 0 0 0 0 0 0 0 (-1) None = Ok (e1, n1) ∧
    preserveLinkCell 1 knob (boxes s) 1 0 0 0 0 = Ok (e2, n2) ∧
    preserveHaloAtom 1 knob nCells 1 1 = Ok (e3, n3) ∧
    preserves_at 1 (e1 ++ e2 ++ e3).
Proof using All.
  intros Hs. destruct (mo_wf _ _ _ HI s Hs) as [[[Hlc _] _] Hmax]. destruct Hlc as [? ? ? HL HH HT _ _].
  assert (0 < nTotalBoxes (boxes s)) by nia.
  do 6 eexists. rewrite preserveAtoms_all_eq, preserveLinkCell_all_eq, preserveHaloAtom_eq
    by (done || unfold MAXATOMS, sizeof_Atoms, sizeof_LinkCell in *; lia).
  do 3 (split; [reflexivity|]). only_preserves.
Qed.

Lemma main_begin_spec s : I s →
  returns (main_begin nCells s) (λ ev,
    cd_run [false; true] ev = Some [true; true] ∧ labels 1 ev = ["main_loop_inner"]).
Proof using All.
  intros Hs. destruct (main_preserve s kCopy Hs) as (e1&n1&e2&n2&e3&n3&He1&He2&He3&Hp).
  unfold main_begin. rewrite He1, ret_bind, He2, ret_bind, He3, ret_bind. cbn [returns].
  assert (preserves_at 1 (e1 ++ e2 ++ e3 ++
    [preserve 1 (ObjVar "iStep") 0 sizeof_int kCopy "timestep_iStep";
     preserve 1 ObjSim off_ePotential sizeof_real kCopy "timestep_ePotential";
     preserve 1 ObjSim off_eKinetic sizeof_real kCopy "timestep_eKinetic"])) as Hp'.
  { rewrite !app_assoc, <-(app_assoc e1). apply preserves_at_app; [done|]. only_preserves. }
  split.
  - rewrite cd_run_cons, run_begin by done. by apply (preserves_keeps 1 [true]).
  - change ("main_loop_inner" :: labels 1 (e1 ++ e2 ++ e3 ++
      [preserve 1 (ObjVar "iStep") 0 sizeof_int kCopy "timestep_iStep";
       preserve 1 ObjSim off_ePotential sizeof_real kCopy "timestep_ePotential";
       preserve 1 ObjSim off_eKinetic sizeof_real kCopy "timestep_eKinetic"]) = ["main_loop_inner"]).
    by rewrite (labels_preserves 1).
Qed.

Lemma main_end_spec s : I s →
  returns (main_end nCells s) (λ ev,
    cd_run [true; true] ev = Some [false; true] ∧ labels 1 ev = []).
Proof using All.
  intros Hs. destruct (main_preserve s kOutput Hs) as (e1&n1&e2&n2&e3&n3&He1&He2&He3&Hp).
  unfold main_end. rewrite He1, ret_bind, He2, ret_bind, He3, ret_bind. cbn [returns].
  replace (e1 ++ e2 ++ e3 ++ [CdDetect 1; CdComplete 1]) with
    ((e1 ++ e2 ++ e3) ++ [CdDetect 1; CdComplete 1]) by (by rewrite <-!app_assoc).
  split.
  - rewrite cd_run_app, (preserves_keeps 1 [true] (e1 ++ e2 ++ e3)) by done. by apply run_end.
  - by rewrite labels_app, (labels_preserves 1).
Qed.

(** The handles and the flag after [j] iterations. *)
Definition open_after (j : Z) : list bool :=
  if j mod interval =? 0 then [false; true] else [false; true; true].

Definition main_inv (j : Z) (st : MainState F) : Prop :=
  I (ms_sim st) ∧ ms_iStep st = j * printRate ∧
  ms_completed st = (0 <? j) && (j mod interval =? 0) ∧
  cd_run [false; true] (ms_log st) = Some (open_after j) ∧
  labels 1 (ms_log st) = replicate (Z.to_nat ((j + interval - 1) / interval)) "main_loop_inner".

Lemma begin_step j s : I s →
  returns (if j mod interval * printRate =? 0 then main_begin nCells s else Ok []) (λ ev,
    cd_run (open_after j)
      (ev ++ reduce_events ++
       (if j mod interval * printRate =? 0 then [CdCreate 2 "main_timestep"] else []) ++
       [TimerStart "timestepTimer"]) = Some [false; true; true] ∧
    labels 1 ev = if j mod interval =? 0 then ["main_loop_inner"] else []).
Proof using All.
  intros Hs. assert ((j mod interval * printRate =? 0) = (j mod interval =? 0)) as -> by nia.
  unfold open_after. destruct (j mod interval =? 0); [|done].
  eapply returns_mono; [by apply main_begin_spec|]. intros ev [Hr Hl]. split; [|done].
  by rewrite cd_run_app, Hr.
Qed.

Lemma end_step j s (completed : bool) : I s → 0 ≤ j →
  returns (if j mod interval * printRate =? (interval - 1) * printRate
           then ev ← main_end nCells s; Ok (ev, true) else Ok ([], completed)) (λ '(ev, c),
    cd_run [false; true; true]
      ([TimerStop "timestepTimer"] ++
       (if j mod interval * printRate =? (interval - 1) * printRate then [CdDestroy 2] else []) ++ ev) =
      Some (open_after (j + 1)) ∧
    labels 1 ev = [] ∧
    c = if (j + 1) mod interval =? 0 then true else completed).
Proof using All.
  intros Hs Hj.
  assert ((j mod interval * printRate =? (interval - 1) * printRate) = ((j + 1) mod interval =? 0)) as ->.
  { rewrite mod_succ by done. nia. }
  unfold open_after. destruct ((j + 1) mod interval =? 0); [|done].
  pose proof (main_end_spec s Hs) as He. apply returns_Ok in He as (ev & -> & Hr & Hl).
  rewrite ret_bind. cbn [returns]. by split_and!.
Qed.

Lemma main_iter_spec j st :
  0 ≤ j → j * printRate < nSteps → main_inv j st →
  returns (main_iter timestep nCells interval printRate st) (main_inv (j + 1)).
Proof using All.
  intros Hj Hlt (Hs & Hstep & Hdone & Hrun & Hlab). unfold main_iter.
  rewrite Hstep, interval_pos_eq, ret_bind by done.
  eapply returns_bind; [by apply begin_step|]. intros ev1 [Hr1 Hl1].
  eapply returns_bind; [by apply sum_returns|]. intros s1 Hs1.
  eapply returns_bind; [by apply (mo_step _ _ _ HI)|]. intros [[fs s2] ev3] (Hs2 & Hk & Hl3).
  rewrite (int32_Ok ((interval - 1) * printRate)), ret_bind by (unfold INT_MIN; nia).
  rewrite (int32_Ok (j * printRate + printRate)), ret_bind by (unfold INT_MIN, INT_MAX in *; nia).
  replace (j * printRate + printRate - printRate) with (j * printRate) by lia.
  rewrite interval_pos_eq, ret_bind by done.
  eapply returns_bind; [by apply end_step|]. intros [ev5 c] (Hr5 & Hl5 & ->).
  cbn [returns]. unfold main_inv. cbn [ms_sim ms_iStep ms_completed ms_log]. split_and!.
  - done.
  - lia.
  - assert ((0 <? j + 1) = true) as -> by lia. simpl.
    destruct ((j + 1) mod interval =? 0) eqn:E; [done|].
    assert ((j mod interval * printRate =? 0) = (j mod interval =? 0)) as -> by nia.
    rewrite Hdone. by destruct (j mod interval =? 0); [|rewrite andb_false_r].
  - replace (ms_log st ++ _) with (ms_log st ++ (ev1 ++ reduce_events ++
       (if j mod interval * printRate =? 0 then [CdCreate 2 "main_timestep"] else []) ++
       [TimerStart "timestepTimer"]) ++ ev3 ++ ([TimerStop "timestepTimer"] ++
       (if j mod interval * printRate =? (interval - 1) * printRate then [CdDestroy 2] else []) ++ ev5))
      by (rewrite <-!app_assoc; reflexivity).
    by rewrite cd_run_app, Hrun, cd_run_app, Hr1, cd_run_app, Hk.
  - rewrite !labels_app, Hlab, Hl1, Hl3, Hl5, ceil_succ by done.
    assert (∀ b : bool, labels 1 (if b then [CdCreate 2 "main_timestep"] else []) = []) as -> by (by intros []).
    assert (∀ b : bool, labels 1 (if b then [CdDestroy 2] else []) = []) as -> by (by intros []).
    assert (0 ≤ (j + interval - 1) / interval) by (apply Z.div_pos; lia).
    rewrite Z2Nat.inj_add by (done || destruct (_ =? _); lia). rewrite replicate_add. simpl.
    destruct (j mod interval =? 0); by rewrite ?app_nil_r.
Qed.

Lemma main_loop_spec fuel j st :
  0 ≤ j → j = 0 ∨ (j - 1) * printRate < nSteps → main_inv j st →
  nSteps - j * printRate ≤ Z.of_nat fuel →
  returns (main_loop timestep nCells interval printRate nSteps fuel st) (λ st',
    ∃ k, 0 ≤ k ∧ nSteps ≤ k * printRate ∧ (k = 0 ∨ (k - 1) * printRate < nSteps) ∧ main_inv k st').
Proof using All.
  revert j st. induction fuel as [|fuel IH]; intros j st Hj Hprev Hinv Hfuel;
    cbn [main_loop]; pose proof Hinv as (_ & Hstep & _); rewrite Hstep.
  - assert ((nSteps <=? j * printRate) = true) as -> by lia. exists j. split_and!; [done|lia|done..].
  - destruct (Z.leb_spec nSteps (j * printRate)) as [Hle|Hlt].
    + exists j. split_and!; [done|lia|done..].
    + eapply returns_bind; [by apply main_iter_spec|]. intros st' Hinv'.
      apply (IH (j + 1)); [lia|right; lia|done|lia].
Qed.

Lemma steps_ceil k :
  0 < nSteps → 0 ≤ k → nSteps ≤ k * printRate → k = 0 ∨ (k - 1) * printRate < nSteps →
  0 < k ∧ k = (nSteps + printRate - 1) / printRate.
Proof using All.
  intros Hn Hk Hle [->|Hlt]; [lia|]. split; [nia|].
  apply Z.div_unique with (nSteps + printRate - 1 - printRate * k); lia.
Qed.
End main_life.

(** ** Properties *)

(** C35: the main program's containment domains. For a positive number of steps,
    output rate and interval, with an integrator that returns with the handles as
    they were, the main loop ends after [ceil (nSteps / printRate)] calls of the
    integrator, at step [printRate * ceil (nSteps / printRate)]; the level-1 domain is
    begun once per [CD1_INTERVAL] calls, and every domain begun is completed and
    every domain created destroyed, also when the loop ends inside an interval. *)
Theorem main_cds_balanced `{Par : Parallel} {F}
    (timestep : F → SimFlat → Z → real_t → res (F * SimFlat * list event)) nCells tables I fs s r :
  main_ok timestep I (printRate s) → I s →
  length nCells = 6%nat → (∀ c, c ∈ nCells → 0 ≤ c) → 4 * foldr Z.add 0 nCells + 144 < 2 ^ 32 →
  0 < preserveRateLevel1 s → 0 < printRate s → 0 < nSteps s →
  preserveRateLevel1 s * printRate s ≤ INT_MAX → nSteps s + printRate s ≤ INT_MAX →
  preserveSimFlat 0 kCopy s tables nCells = Ok r →
  returns (main_sim timestep nCells tables fs s) (λ st,
    let n := (nSteps s + printRate s - 1) / printRate s in
    I (ms_sim st) ∧ ms_iStep st = n * printRate s ∧
    cd_run [false] (ms_log st) = Some [false] ∧
    labels 1 (ms_log st) =
      replicate (Z.to_nat ((n + preserveRateLevel1 s - 1) / preserveRateLevel1 s)) "main_loop_inner").
Proof.
  intros HI Hs Hc1 Hc2 Hc3 Hint Hrate Hsteps Hprod Hmax Hprv. unfold main_sim, main_cds.
  destruct r as [ev0 n0]. rewrite Hprv, ret_bind. apply preserveSimFlat_only in Hprv.
  eapply returns_bind.
  { apply (main_loop_spec timestep nCells (preserveRateLevel1 s) (printRate s) (nSteps s) I HI
      Hc1 Hc2 Hc3 Hint Hrate Hprod Hmax _ 0); [lia|by left| |lia].
    unfold main_inv, open_after. cbn [ms_sim ms_iStep ms_completed ms_log].
    rewrite Z.mod_0_l, (Z.div_small (0 + _ - 1)) by lia. done. }
  intros st (k & Hk0 & Hk1 & Hk2 & Hinv & Hstep & Hdone & Hrun & Hlab).
  destruct (steps_ceil timestep nCells (preserveRateLevel1 s) (printRate s) (nSteps s) I HI
    Hc1 Hc2 Hc3 Hint Hrate Hprod Hmax k) as [Hk ->]; [done..|].
  set (n := (nSteps s + printRate s - 1) / printRate s) in *.
  pose proof (sum_returns timestep nCells (preserveRateLevel1 s) (printRate s) (nSteps s) I HI
    Hc1 Hc2 Hc3 Hint Hrate Hprod Hmax (ms_sim st) Hinv) as Hs'.
  unfold main_finish. apply returns_Ok in Hs' as (s' & -> & Hs'). rewrite !ret_bind. cbn [returns ms_sim ms_iStep ms_log]. split_and!; [done|done| |].
  - rewrite cd_run_cons, run_begin by done.
    rewrite cd_run_app, (preserves_keeps 0 [] ev0) by done.
    rewrite cd_run_app, (run_create 1 _ []) by done. rewrite cd_run_app, Hrun, cd_run_app, Hdone.
    unfold open_after. assert ((0 <? n) = true) as -> by lia. simpl andb.
    by destruct (n mod preserveRateLevel1 s =? 0).
  - change (CdBegin 0 "Root" :: ?l) with ([CdBegin 0 "Root"] ++ l). rewrite !labels_app, Hlab.
    rewrite (labels_preserves 0 1 ev0) by done.
    assert (∀ b : bool, labels 1 (if b then [] else [CdDestroy 2; CdDetect 1; CdComplete 1]) = []) as ->
      by (by intros []). simpl. by rewrite app_nil_r.
Qed.

(** An integrator that does nothing. *)
Definition idle_step (fs : unit) (s : SimFlat) (_ : Z) (_ : real_t) : res (unit * SimFlat * list event) :=
  Ok (fs, s, []).

Lemma idle_ok n :
  main_ok idle_step (λ s, sim_wf s ∧ 88 * (MAXATOMS * nTotalBoxes (boxes s)) + 8000 < 2 ^ 31) n.
Proof.
  split.
  - by intros s [H1 H2].
  - intros s l g [[Hc Ha] H2]. split; [|done]. split; [done|]. destruct Ha. by split.
  - intros l. exists l. done.
  - intros fs s Hs. done.
Qed.

Definition no_tables : InterpolationObject * InterpolationObject * InterpolationObject :=
  (mkTable 1 fzero fone [], mkTable 1 fzero fone [], mkTable 1 fzero fone []).

Lemma main_cds_balanced_witness :
  returns (main_sim idle_step (atomExchangeCells ex_boxes) no_tables tt ex_sim) (λ st,
    ms_iStep st = 10 ∧ cd_run [false] (ms_log st) = Some [false]).
Proof.
  eapply returns_mono.
  - apply (main_cds_balanced idle_step (atomExchangeCells ex_boxes) no_tables _ tt ex_sim
      (get ([], 0) (preserveSimFlat 0 kCopy ex_sim no_tables (atomExchangeCells ex_boxes))) (idle_ok _)).
    + split; [exact ex_sim_wf|by vm_compute].
    + reflexivity.
    + apply Forall_forall. apply (bool_decide_unpack _). vm_compute. exact I.
    + by vm_compute.
    + by vm_compute.
    + by vm_compute.
    + by vm_compute.
    + by vm_compute.
    + by vm_compute.
    + apply get_Ok. vm_compute. reflexivity.
  - intros st (_ & H1 & H2 & _). split; [exact H1|exact H2].
Defined.

(** With no step to run, the program still ends a level-1 domain: its flag says
    that the domain is not completed, so it destroys a level-2 handle that was never
    created and completes a domain that was never begun. No such sequence of
    calls is well-formed. *)
Theorem main_cds_no_steps `{Par : Parallel} {F}
    (timestep : F → SimFlat → Z → real_t → res (F * SimFlat * list event)) nCells tables fs s st :
  nSteps s ≤ 0 →
  main_sim timestep nCells tables fs s = Ok st →
  cd_run [false] (ms_log st) = None ∧ labels 1 (ms_log st) = [] ∧ CdComplete 1 ∈ ms_log st.
Proof.
  intros Hn. unfold main_sim, main_cds, main_finish. intros H.
  apply bind_Ok in H as ([ev0 n0] & Hprv%preserveSimFlat_only & H).
  assert (main_loop timestep nCells (preserveRateLevel1 s) (printRate s) (nSteps s) (Z.to_nat (nSteps s))
    (mkMain fs s 0 false []) = Ok (mkMain fs s 0 false [])) as Hl.
  { replace (Z.to_nat (nSteps s)) with 0%nat by lia. cbn [main_loop ms_iStep].
    by assert ((nSteps s <=? 0) = true) as -> by lia. }
  rewrite Hl, ret_bind in H. apply bind_Ok in H as (st' & Hs' & H).
  apply bind_Ok in Hs' as (s' & _ & Hs'). injection Hs' as <-.
  match type of H with Ok ?x = _ => assert (st = x) as -> by congruence end.
  cbn [ms_log ms_completed]. split_and!.
  - rewrite cd_run_cons, run_begin by done.
    rewrite cd_run_app, (preserves_keeps 0 [] ev0) by done. done.
  - change (CdBegin 0 "Root" :: ?l) with ([CdBegin 0 "Root"] ++ l). rewrite !labels_app.
    by rewrite (labels_preserves 0 1 ev0).
  - right. apply elem_of_app. right. set_solver.
Qed.

Definition ex_sim0 : SimFlat :=
  mkSim 0 10 fone 0 1 1 1 4 ex_local_domain ex_cells ex_atoms [unit_species] fzero fzero.
Definition ex_run0 : MainState unit :=
  get (mkMain tt ex_sim0 0 false []) (main_sim idle_step (atomExchangeCells ex_boxes) no_tables tt ex_sim0).

Lemma main_cds_no_steps_witness : cd_run [false] (ms_log ex_run0) = None.
Proof.
  apply (main_cds_no_steps idle_step (atomExchangeCells ex_boxes) no_tables tt ex_sim0 ex_run0).
  - by vm_compute.
  - apply get_Ok. vm_compute. reflexivity.
Defined.

(** The number of live local atoms. *)
Definition local_atoms (s : SimFlat) : Z :=
  Z.of_nat (length (live_slots (boxes s) (nLocalBoxes (boxes s)))).

Lemma local_atoms_range s : counts_wf (boxes s) → 0 ≤ local_atoms s ≤ INT_MAX.
Proof.
  intros Hc. pose proof (local_le_total _ Hc) as [Hn Hle]. pose proof (wf_int _ (proj1 Hc)).
  unfold local_atoms. split; [lia|].
  assert (∀ k, 0 ≤ k → k ≤ nLocalBoxes (boxes s) →
    Z.of_nat (length (live_slots (boxes s) k)) ≤ MAXATOMS * k) as Hk.
  { intros k Hk. pattern k. apply natlike_ind; [done| |done]. clear k Hk.
    intros k Hk IH Hkn. unfold Z.succ. rewrite live_slots_snoc, length_app, length_seqZ by done.
    pose proof (counts_occ _ k Hc ltac:(lia)). specialize (IH ltac:(lia)). unfold MAXATOMS in *. lia. }
  specialize (Hk (nLocalBoxes (boxes s)) Hn ltac:(lia)). unfold MAXATOMS in *. lia.
Qed.

Lemma sumAtoms_serial s :
  counts_wf (boxes s) →
  sumAtoms s = Ok (set_atoms s (set_nGlobal (set_nLocal (atoms s) (local_atoms s)) (local_atoms s))).
Proof. intros Hc. by rewrite sumAtoms_eq. Qed.

(** The conservation check. On one rank, when [s] is the state before the run and
    [s'] the one after it, the difference [validateResult] reports is the difference
    of the numbers of live local atoms, whatever [nLocal] and [nGlobal] held:
    [sumAtoms] counts again ([moveAtom] can leave [nLocal] too large). *)
Theorem validate_counts s s' :
  counts_wf (boxes s) → counts_wf (boxes s') →
  returns ('(_, val) ← initValidate s; s1 ← sumAtoms s'; validateResult val s1) (λ '(_, delta),
    delta = local_atoms s' - local_atoms s).
Proof.
  intros Hc Hc'. unfold initValidate. rewrite (sumAtoms_serial s), !ret_bind by done.
  rewrite (sumAtoms_serial s'), ret_bind by done.
  pose proof (local_atoms_range s Hc). pose proof (local_atoms_range s' Hc').
  unfold validateResult. cbn [nAtoms0 nGlobal set_nGlobal atoms set_atoms].
  by rewrite int32_Ok by (unfold INT_MIN, INT_MAX in *; lia).
Qed.

Lemma validate_counts_witness :
  returns ('(_, val) ← initValidate ex_sim; s1 ← sumAtoms ex_sim; validateResult val s1)
    (λ '(_, delta), delta = 0).
Proof.
  eapply returns_mono; [apply (validate_counts ex_sim ex_sim); apply ex_sim_wf|].
  intros [e d] ->. lia.
Defined.

(** [sanityChecks] lets a run through exactly when the processor grid has one
    cell per rank, the box is at least twice the cutoff per processor on every axis,
    and the lattice is FCC (in any case); otherwise the program exits. *)
Theorem sanityChecks_ok `{Par : Parallel} cmd cutoff latticeConst latticeType :
  INT_MIN ≤ cmd_xproc cmd * cmd_yproc cmd ≤ INT_MAX →
  INT_MIN ≤ cmd_xproc cmd * cmd_yproc cmd * cmd_zproc cmd ≤ INT_MAX →
  let fits n p := (f64 n * latticeConst <? ftwo * cutoff * f64 p)%R = false in
  (sanityChecks cmd cutoff latticeConst latticeType = Ok () ↔
    cmd_xproc cmd * cmd_yproc cmd * cmd_zproc cmd = getNRanks ∧
    fits (cmd_nx cmd) (cmd_xproc cmd) ∧ fits (cmd_ny cmd) (cmd_yproc cmd) ∧
    fits (cmd_nz cmd) (cmd_zproc cmd) ∧ strcasecmp_eq latticeType "FCC" = true) ∧
  (sanityChecks cmd cutoff latticeConst latticeType ≠ Ok () →
    sanityChecks cmd cutoff latticeConst latticeType = Err FatalExit).
Proof.
  intros H1 H2. cbv zeta. unfold sanityChecks, sanityCode.
  rewrite (int32_Ok (_ * _)), ret_bind, int32_Ok, !ret_bind by done.
  rewrite <-(Z.eqb_eq _ getNRanks).
  destruct (_ =? getNRanks), (strcasecmp_eq latticeType "FCC"),
    (fltb (f64 (cmd_nx cmd) * latticeConst)%R _), (fltb (f64 (cmd_ny cmd) * latticeConst)%R _),
    (fltb (f64 (cmd_nz cmd) * latticeConst)%R _); cbn; (split; [|done]);
    (split; [intros; try discriminate; split_and!; reflexivity|]);
    intros (? & ? & ? & ? & ?); discriminate || reflexivity.
Qed.

Lemma sanityChecks_ok_witness :
  sanityChecks defaultCommand (flit 57875 10000) (flit 3615 1000) "fcc" = Ok ().
Proof.
  apply (sanityChecks_ok defaultCommand (flit 57875 10000) (flit 3615 1000) "fcc"); [by vm_compute..|].
  split_and!; vm_compute; reflexivity.
Defined.
