(* ===== verification/SparseMatrix.v ===== *)
(** * CoSP2: sparse matrices and the decomposition in rows (sparseMatrix.c, decomposition.c)

    A matrix is in ELLPACK-R format: each row has the number of its entries,
    their columns and their values.  As the build has it (CONTIG_MATRIX), the
    columns and the values of all rows are two arrays with [msize] places for
    each row, and row [i] starts at [i * msize]: an entry beyond the places of a
    row is in the next row, and an error only behind the last. *)

From Stdlib Require Import ZArith Lia.
From stdpp Require Import base list numbers sets.
From S2P Require Import Prelude Float64.

#[local] Open Scope Z_scope.

(** ** Data *)

Record SparseMatrix := mkSparseMatrix {
  hsize : Z; msize : Z; bandwidth : Z;
  iia : list Z; jjcontig : list Z;
  maxEval : real_t; minEval : real_t; maxMinusMin : real_t;
  valcontig : list real_t;
}.

Definition with_iia (a : list Z) (m : SparseMatrix) : SparseMatrix :=
  mkSparseMatrix (hsize m) (msize m) (bandwidth m) a (jjcontig m) (maxEval m) (minEval m) (maxMinusMin m) (valcontig m).
Definition with_jj (a : list Z) (m : SparseMatrix) : SparseMatrix :=
  mkSparseMatrix (hsize m) (msize m) (bandwidth m) (iia m) a (maxEval m) (minEval m) (maxMinusMin m) (valcontig m).
Definition with_val (a : list real_t) (m : SparseMatrix) : SparseMatrix :=
  mkSparseMatrix (hsize m) (msize m) (bandwidth m) (iia m) (jjcontig m) (maxEval m) (minEval m) (maxMinusMin m) a.
Definition with_bounds (lo hi d : real_t) (m : SparseMatrix) : SparseMatrix :=
  mkSparseMatrix (hsize m) (msize m) (bandwidth m) (iia m) (jjcontig m) hi lo d (valcontig m).

(** [iia[i]], [jja[i][l]] and [val[i][l]], and the assignments to them. *)
Definition nnz (m : SparseMatrix) (i : Z) : res Z := aload (iia m) i.
Definition jja (m : SparseMatrix) (i l : Z) : res Z := aload (jjcontig m) (i * msize m + l).
Definition val (m : SparseMatrix) (i l : Z) : res real_t := aload (valcontig m) (i * msize m + l).
Definition set_nnz (i x : Z) (m : SparseMatrix) : res SparseMatrix :=
  a ← astore (iia m) i x; Ok (with_iia a m).
Definition set_jja (i l x : Z) (m : SparseMatrix) : res SparseMatrix :=
  a ← astore (jjcontig m) (i * msize m + l) x; Ok (with_jj a m).
Definition set_val (i l : Z) (x : real_t) (m : SparseMatrix) : res SparseMatrix :=
  a ← astore (valcontig m) (i * msize m + l) x; Ok (with_val a m).

Record DomainSt := mkDomainSt {
  totalProcs : Z; totalRows : Z; totalCols : Z;
  globalRowMin : Z; globalRowMax : Z; globalRowExtent : Z;
  localRowMin : Z; localRowMax : Z; localRowExtent : Z;
}.

(** ** Decomposition *)

Definition initDecomposition (nRanks myRank nprocs nrows ncols : Z) : res DomainSt :=
  cassert (nprocs =? nRanks);;
  e ← int32 (nrows - 0);
  le ← cdiv e nprocs;
  lo ← int32 (0 + myRank * le);
  hi ← int32 (0 + (myRank + 1) * le);
  Ok (mkDomainSt nprocs nrows ncols 0 nrows e lo hi le).

Definition processorNum (d : DomainSt) (rnum : Z) : res Z := cdiv rnum (localRowExtent d).

Lemma initDecomposition_rows n r hs ms d :
  initDecomposition n r n hs ms = Ok d → 0 < n → 0 ≤ hs →
  localRowExtent d = hs / n ∧ localRowMin d = r * (hs / n) ∧ localRowMax d = (r + 1) * (hs / n) ∧
  totalProcs d = n ∧ totalCols d = ms.
Proof.
  unfold initDecomposition. rewrite Z.eqb_refl, Z.sub_0_r. intros Hd Hn Hh.
  apply bind_Ok in Hd as (u & _ & Hd). apply bind_Ok in Hd as (e & [-> _]%int32_inv & Hd).
  rewrite cdiv_Ok, ret_bind in Hd by lia. apply bind_Ok in Hd as (lo & [-> _]%int32_inv & Hd).
  apply bind_Ok in Hd as (hi & [-> _]%int32_inv & [= <-]). done.
Qed.

(** ** Matrices *)

Definition nnzStart (hs ms : Z) : res Z :=
  let M := if ms =? 0 then hs else ms in
  r ← crem M 32;
  M ← (if 0 <? r then int32 (M + (32 - r)) else Ok M);
  Ok (if hs <? M then hs else M).

Definition initSparseMatrix (hs ms : Z) : res SparseMatrix :=
  n ← int32 (hs * ms);
  Ok (mkSparseMatrix hs ms 0 (replicate (Z.to_nat hs) 0) (replicate (Z.to_nat n) 0) fzero fzero fzero
        (replicate (Z.to_nat n) fzero)).

(** The arrays are freed, the structure stays. *)
Definition destroySparseMatrix (m : SparseMatrix) : SparseMatrix := mkSparseMatrix 0 0 0 [] [] fzero fzero fzero [].

(** [gershgorin] on one task and thread; [sumP] has no value before the first
    diagonal entry.  Reading it then is an access out of bounds here. *)
Definition gersh_entry (m : SparseMatrix) (i j : Z) (s : real_t * option real_t) : res (real_t * option real_t) :=
  let '(sumM, sumP) := s in
  v ← val m i j;
  c ← jja m i j;
  let hx := fabs v in
  let sumM := (sumM + hx)%R in
  Ok (if c =? i then ((sumM - hx)%R, Some v) else (sumM, sumP)).

Definition gersh_row (m : SparseMatrix) (i : Z) (s : real_t * real_t * option real_t) : res (real_t * real_t * option real_t) :=
  let '(eMin, eMax, sumP) := s in
  n ← nnz m i;
  '(sumM, sumP) ← for_range 0 n (gersh_entry m i) (fzero, sumP);
  match sumP with
  | None => Err OutOfBounds
  | Some p =>
      let hi := (p + sumM)%R in let lo := (p - sumM)%R in
      Ok ((if fltb lo eMin then lo else eMin), (if fltb eMax hi then hi else eMax), sumP)
  end.

Section gershgorin.
(** minRealReduce and maxRealReduce. *)
Variables minRealReduce maxRealReduce : real_t → real_t.

Definition gershgorin (nRanks : Z) (m : SparseMatrix) : res SparseMatrix :=
  '(eMin, eMax, _) ← for_range 0 (hsize m) (gersh_row m) (f64 10000, f64 (-10000), None);
  let '(eMin, eMax) := if 1 <? nRanks then (minRealReduce eMin, maxRealReduce eMax) else (eMin, eMax) in
  Ok (with_bounds eMin eMax (eMax - eMin)%R m).
End gershgorin.

Definition norm_entry (i j : Z) (m : SparseMatrix) : res SparseMatrix :=
  c ← jja m i j;
  v ← val m i j;
  set_val i j (if c =? i then ((maxEval m - v) / maxMinusMin m)%R else (- v / maxMinusMin m)%R) m.

Definition normalize (m : SparseMatrix) : res SparseMatrix :=
  for_range 0 (hsize m) (λ i m, n ← nnz m i; for_range 0 n (norm_entry i) m) m.

(** ** Rows *)

(** The entries of a row: the columns with the values. *)
Definition row (m : SparseMatrix) (i : Z) : list (Z * real_t) :=
  let n := Z.to_nat (iia m !!! Z.to_nat i) in
  let s := Z.to_nat (i * msize m) in
  zip (take n (drop s (jjcontig m))) (take n (drop s (valcontig m))).

(** ** Cells

    A matrix of [h] rows with [ms] places each; below, its operations are in
    terms of the cells of the rows. *)
Record sized (h ms : Z) (m : SparseMatrix) : Prop := mkSized {
  sz_h : hsize m = h; sz_ms : msize m = ms; sz_pos : 0 ≤ h ∧ 0 ≤ ms;
  sz_iia : Z.of_nat (length (iia m)) = h;
  sz_jj : Z.of_nat (length (jjcontig m)) = h * ms;
  sz_val : Z.of_nat (length (valcontig m)) = h * ms;
}.

Definition cellJ (m : SparseMatrix) (i q : Z) : option Z := jjcontig m !! Z.to_nat (i * msize m + q).
Definition cellV (m : SparseMatrix) (i q : Z) : option real_t := valcontig m !! Z.to_nat (i * msize m + q).
Definition cellN (m : SparseMatrix) (i : Z) : option Z := iia m !! Z.to_nat i.

Definition slot_ok (h ms i q : Z) : Prop := 0 ≤ i < h ∧ 0 ≤ q < ms.

Lemma place_pos h ms i q : slot_ok h ms i q → 0 ≤ i * ms + q < h * ms.
Proof. intros [Hi Hq]. assert ((i + 1) * ms ≤ h * ms ∧ 0 ≤ i * ms) by (split; [apply Z.mul_le_mono_nonneg_r|apply Z.mul_nonneg_nonneg]; lia). lia. Qed.

Lemma place_inj h ms i q i' q' :
  slot_ok h ms i q → slot_ok h ms i' q' → Z.to_nat (i * ms + q) = Z.to_nat (i' * ms + q') → i = i' ∧ q = q'.
Proof.
  intros H H' He. pose proof (place_pos _ _ _ _ H). pose proof (place_pos _ _ _ _ H').
  assert (i * ms + q = i' * ms + q') as He' by lia. destruct H as [_ H], H' as [_ H'].
  assert (i = i') as ->; [|lia].
  rewrite (Z.div_unique_pos (i * ms + q) ms i q), (Z.div_unique_pos (i * ms + q) ms i' q') by lia. done.
Qed.

Lemma nnz_Ok m i n : cellN m i = Some n → 0 ≤ i → nnz m i = Ok n.
Proof. intros. by apply aload_lookup. Qed.

Lemma jja_Ok h ms m i q c : sized h ms m → slot_ok h ms i q → cellJ m i q = Some c → jja m i q = Ok c.
Proof.
  intros Hm Hp Hc. pose proof (place_pos _ _ _ _ Hp). apply aload_lookup; [|done]. rewrite (sz_ms _ _ _ Hm). lia.
Qed.

Lemma val_Ok h ms m i q v : sized h ms m → slot_ok h ms i q → cellV m i q = Some v → val m i q = Ok v.
Proof.
  intros Hm Hp Hc. pose proof (place_pos _ _ _ _ Hp). apply aload_lookup; [|done]. rewrite (sz_ms _ _ _ Hm). lia.
Qed.

Lemma cellJ_total h ms m i q : sized h ms m → slot_ok h ms i q → ∃ c, cellJ m i q = Some c.
Proof.
  intros Hm Hp. pose proof (place_pos _ _ _ _ Hp). apply lookup_lt_is_Some_2.
  pose proof (sz_jj _ _ _ Hm). rewrite (sz_ms _ _ _ Hm). lia.
Qed.

Lemma cellV_total h ms m i q : sized h ms m → slot_ok h ms i q → ∃ v, cellV m i q = Some v.
Proof.
  intros Hm Hp. pose proof (place_pos _ _ _ _ Hp). apply lookup_lt_is_Some_2.
  pose proof (sz_val _ _ _ Hm). rewrite (sz_ms _ _ _ Hm). lia.
Qed.

Lemma cellN_total h ms m i : sized h ms m → 0 ≤ i < h → ∃ n, cellN m i = Some n.
Proof. intros Hm Hi. apply lookup_lt_is_Some_2. pose proof (sz_iia _ _ _ Hm). lia. Qed.

(** The matrices that differ in one cell. *)
Record updates (h ms : Z) (m m' : SparseMatrix) (fJ : Z → Z → option Z → option Z) (fV : Z → Z → option real_t → option real_t)
    (fN : Z → option Z → option Z) : Prop := mkUpdates {
  up_sized : sized h ms m';
  up_J : ∀ i q, slot_ok h ms i q → cellJ m' i q = fJ i q (cellJ m i q);
  up_V : ∀ i q, slot_ok h ms i q → cellV m' i q = fV i q (cellV m i q);
  up_N : ∀ i, 0 ≤ i < h → cellN m' i = fN i (cellN m i);
}.

Lemma set_jja_Ok h ms m i q c :
  sized h ms m → slot_ok h ms i q →
  returns (set_jja i q c m) (λ m', updates h ms m m' (λ i' q' o, if decide (i' = i ∧ q' = q) then Some c else o) (λ _ _ o, o) (λ _ o, o)).
Proof.
  intros Hm Hp. pose proof (place_pos _ _ _ _ Hp) as Hpos. destruct Hm as [H1 H2 H3 H4 H5 H6].
  unfold set_jja. rewrite astore_Ok by (rewrite H2; lia). simpl. split; [|intros i' q' Hp'|done|done].
  - split; simpl; try done. by rewrite length_insert.
  - unfold cellJ. simpl. rewrite H2. case_decide as He.
    + destruct He as [-> ->]. rewrite list_lookup_insert_eq by lia. done.
    + rewrite list_lookup_insert_ne; [done|]. intros Hx. apply He.
      destruct (place_inj _ _ _ _ _ _ Hp Hp' Hx) as [-> ->]. done.
Qed.

Lemma set_val_Ok h ms m i q v :
  sized h ms m → slot_ok h ms i q →
  returns (set_val i q v m) (λ m', updates h ms m m' (λ _ _ o, o) (λ i' q' o, if decide (i' = i ∧ q' = q) then Some v else o) (λ _ o, o)).
Proof.
  intros Hm Hp. pose proof (place_pos _ _ _ _ Hp) as Hpos. destruct Hm as [H1 H2 H3 H4 H5 H6].
  unfold set_val. rewrite astore_Ok by (rewrite H2; lia). simpl. split; [|done|intros i' q' Hp'|done].
  - split; simpl; try done. by rewrite length_insert.
  - unfold cellV. simpl. rewrite H2. case_decide as He.
    + destruct He as [-> ->]. rewrite list_lookup_insert_eq by lia. done.
    + rewrite list_lookup_insert_ne; [done|]. intros Hx. apply He.
      destruct (place_inj _ _ _ _ _ _ Hp Hp' Hx) as [-> ->]. done.
Qed.

Lemma set_nnz_Ok h ms m i n :
  sized h ms m → 0 ≤ i < h →
  returns (set_nnz i n m) (λ m', updates h ms m m' (λ _ _ o, o) (λ _ _ o, o) (λ i' o, if decide (i' = i) then Some n else o)).
Proof.
  intros [H1 H2 H3 H4 H5 H6] Hi. unfold set_nnz. rewrite astore_Ok by lia. simpl.
  split; [|done|done|intros i' Hi'].
  - split; simpl; try done. by rewrite length_insert.
  - unfold cellN. simpl. case_decide as He; [subst; by rewrite list_lookup_insert_eq by lia|].
    rewrite list_lookup_insert_ne; [done|lia].
Qed.

(** A row is the list of its cells. *)
Definition has_row (m : SparseMatrix) (i : Z) (es : list (Z * real_t)) : Prop :=
  cellN m i = Some (Z.of_nat (length es)) ∧
  ∀ q e, es !! q = Some e → cellJ m i (Z.of_nat q) = Some e.1 ∧ cellV m i (Z.of_nat q) = Some e.2.

Lemma row_has_row h ms m i :
  sized h ms m → 0 ≤ i < h → (∀ n, cellN m i = Some n → 0 ≤ n ≤ ms) → has_row m i (row m i) ∧ Z.of_nat (length (row m i)) ≤ ms.
Proof.
  intros Hm Hi Hn. destruct (cellN_total _ _ _ _ Hm Hi) as [n HN]. specialize (Hn n HN).
  assert (iia m !!! Z.to_nat i = n) as Ht by (by apply list_lookup_total_correct).
  assert (length (row m i) = Z.to_nat n) as Hlen.
  { unfold row. rewrite Ht, (sz_ms _ _ _ Hm), length_zip_with, !length_take, !length_drop.
    pose proof (sz_jj _ _ _ Hm). pose proof (sz_val _ _ _ Hm). nia. }
  split; [split|lia].
  - rewrite HN, Hlen. f_equal. lia.
  - intros q e He. apply lookup_lt_Some in He as Hq. rewrite Hlen in Hq. unfold row in He.
    rewrite Ht in He. apply lookup_zip_with_Some in He as (c & v & -> & Hc & Hv). simpl.
    rewrite lookup_take_lt, lookup_drop in Hc by lia. rewrite lookup_take_lt, lookup_drop in Hv by lia. unfold cellJ, cellV.
    rewrite (sz_ms _ _ _ Hm) in *. replace (Z.to_nat (i * ms + Z.of_nat q)) with (Z.to_nat (i * ms) + q)%nat by nia. done.
Qed.

Lemma has_row_eq m i es es' : has_row m i es → has_row m i es' → es = es'.
Proof.
  intros [H1 H2] [H1' H2']. rewrite H1 in H1'. injection H1' as Hl. apply list_eq. intros q.
  destruct (es !! q) as [[c v]|] eqn:He.
  - destruct (lookup_lt_is_Some_2 es' q) as [[c' v'] He']; [apply lookup_lt_Some in He; lia|].
    destruct (H2 q _ He) as [Hc Hv], (H2' q _ He') as [Hc' Hv']. simpl in *. congruence.
  - symmetry. apply lookup_ge_None_2. apply lookup_ge_None_1 in He. lia.
Qed.

(** The matrices in which rows fit their places and columns are in the matrix. *)
Definition valid (h ms : Z) (m : SparseMatrix) : Prop :=
  sized h ms m ∧ ∀ i, 0 ≤ i < h → (∀ n, cellN m i = Some n → 0 ≤ n ≤ ms) ∧ ∀ e, e ∈ row m i → 0 ≤ e.1 < h.

Definition validb (h ms : Z) (m : SparseMatrix) : bool :=
  (hsize m =? h) && (msize m =? ms) && (0 <=? h) && (0 <=? ms) && (Z.of_nat (length (iia m)) =? h) &&
  (Z.of_nat (length (jjcontig m)) =? h * ms) && (Z.of_nat (length (valcontig m)) =? h * ms) &&
  forallb (λ i, let n := iia m !!! Z.to_nat i in
    (0 <=? n) && (n <=? ms) && forallb (λ e, (0 <=? e.1) && (e.1 <? h)) (row m i)) (seqZ 0 h).

Lemma validb_valid h ms m : validb h ms m = true → valid h ms m.
Proof.
  unfold validb. rewrite !andb_true_iff, forallb_forall. intros [[[[[[[H1 H2] H3] H4] H5] H6] H7] Hrows]. zbool.
  split; [by split|]. intros i Hi. specialize (Hrows i). rewrite <-list_elem_of_In, elem_of_seqZ in Hrows.
  specialize (Hrows ltac:(lia)). rewrite !andb_true_iff, forallb_forall in Hrows. destruct Hrows as [[Hn1 Hn2] Hr]. split.
  - intros n Hn. unfold cellN in Hn. apply list_lookup_total_correct in Hn as Heq. rewrite Heq in *. lia.
  - intros e He%list_elem_of_In. specialize (Hr e He). lia.
Qed.

Lemma valid_row h ms m i : valid h ms m → 0 ≤ i < h → has_row m i (row m i) ∧ Z.of_nat (length (row m i)) ≤ ms.
Proof. intros [Hm Hv] Hi. eapply row_has_row; [done|done|]. by apply Hv. Qed.

Lemma row_eq h ms m i es :
  sized h ms m → 0 ≤ i < h → Z.of_nat (length es) ≤ ms → has_row m i es → row m i = es.
Proof.
  intros Hm Hi Hl He. eapply has_row_eq; [|done]. eapply row_has_row; [done|done|].
  intros n Hn. destruct He as [He _]. rewrite He in Hn. injection Hn as <-. lia.
Qed.

(** ** Loops over the entries of a row *)
Lemma for_entries {E S} (I : list E → S → Prop) (body : Z → S → res S) (es : list E) (s : S) :
  I [] s →
  (∀ q e s, es !! q = Some e → I (take q es) s → returns (body (Z.of_nat q) s) (I (take q es ++ [e]))) →
  returns (for_range 0 (Z.of_nat (length es)) body s) (I es).
Proof.
  intros H0 Hstep.
  eapply returns_mono; [apply (for_range_inv (λ j s, I (take (Z.to_nat j) es) s)); [lia|by rewrite take_0|]|].
  - intros j s1 Hj HI. destruct (lookup_lt_is_Some_2 es (Z.to_nat j)) as [e He]; [lia|].
    specialize (Hstep _ e s1 He HI). rewrite Z2Nat.id in Hstep by lia.
    eapply returns_mono; [exact Hstep|]. intros s2 H2. cbv beta in *.
    replace (Z.to_nat (j + 1)) with (Datatypes.S (Z.to_nat j)) by lia. by rewrite (take_S_r _ _ e).
  - intros s1. by rewrite Nat2Z.id, firstn_all.
Qed.

(** The rows other than [i] are the same. *)
Definition same_rows (h ms i : Z) (m m' : SparseMatrix) : Prop :=
  ∀ i', 0 ≤ i' < h → i' ≠ i →
    (∀ q, 0 ≤ q < ms → cellJ m' i' q = cellJ m i' q ∧ cellV m' i' q = cellV m i' q) ∧ cellN m' i' = cellN m i'.

Lemma same_rows_refl h ms i m : same_rows h ms i m m.
Proof. done. Qed.

Lemma same_rows_trans h ms i m1 m2 m3 : same_rows h ms i m1 m2 → same_rows h ms i m2 m3 → same_rows h ms i m1 m3.
Proof.
  intros H1 H2 i' Hi' Hne. destruct (H1 i' Hi' Hne) as [H1c ->%eq_sym], (H2 i' Hi' Hne) as [H2c ->]. split; [|done].
  intros q Hq. destruct (H1c q Hq), (H2c q Hq). split; congruence.
Qed.

(** What a routine does to one row. *)
Lemma row_replaced h ms i m m' es :
  valid h ms m → sized h ms m' → same_rows h ms i m m' → 0 ≤ i < h →
  has_row m' i es → Z.of_nat (length es) ≤ ms → (∀ e, e ∈ es → 0 ≤ e.1 < h) →
  valid h ms m' ∧ ∀ i', 0 ≤ i' < h → row m' i' = if decide (i' = i) then es else row m i'.
Proof.
  intros Hv Hs Hsame Hi Hrow Hlen Hcols.
  assert (∀ i', 0 ≤ i' < h → has_row m' i' (if decide (i' = i) then es else row m i') ∧
    Z.of_nat (length (if decide (i' = i) then es else row m i')) ≤ ms) as Hhas.
  { intros i' Hi'. case_decide as Hne; [by subst|]. destruct (valid_row _ _ _ _ Hv Hi') as [[Hn Hc] Hl].
    destruct (Hsame i' Hi' Hne) as [Hcell HN]. split; [|done]. split; [by rewrite HN|]. intros q e He.
    apply lookup_lt_Some in He as Hq. destruct (Hcell (Z.of_nat q) ltac:(lia)) as [-> ->]. by apply Hc. }
  assert (∀ i', 0 ≤ i' < h → row m' i' = if decide (i' = i) then es else row m i') as Hrows.
  { intros i' Hi'. destruct (Hhas i' Hi'). by apply (row_eq h ms). }
  split; [|done]. split; [done|]. intros i' Hi'. split.
  - intros n Hn. destruct (Hhas i' Hi') as [[HN _] Hl]. rewrite HN in Hn. injection Hn as <-. lia.
  - intros e. rewrite Hrows by done. case_decide; [apply Hcols|]. by apply Hv.
Qed.

(** ** Reading a matrix *)
Lemma read_entry h ms X j q e :
  valid h ms X → 0 ≤ j < h → row X j !! q = Some e →
  jja X j (Z.of_nat q) = Ok e.1 ∧ val X j (Z.of_nat q) = Ok e.2 ∧ 0 ≤ e.1 < h.
Proof.
  intros Hv Hj He. destruct (valid_row _ _ _ _ Hv Hj) as [[_ Hc] Hl]. destruct (Hc q e He).
  apply lookup_lt_Some in He as Hq. assert (slot_ok h ms j (Z.of_nat q)) by (split; lia).
  destruct Hv as [Hs Hv]. split; [by eapply jja_Ok|split; [by eapply val_Ok|]].
  apply (Hv j Hj). by eapply list_elem_of_lookup_2.
Qed.

Lemma read_nnz h ms X j : valid h ms X → 0 ≤ j < h → nnz X j = Ok (Z.of_nat (length (row X j))).
Proof. intros Hv Hj. destruct (valid_row _ _ _ _ Hv Hj) as [[Hn _] _]. by apply nnz_Ok; [|lia]. Qed.

(** ** Loops over rows

    A routine that replaces row [i] by [F i] in pass [i] replaces the rows of
    its range. *)
Lemma rows_loop {S} (mat : S → SparseMatrix) (F : Z → list (Z * real_t)) (ok : Z → S → Prop) h ms lo hi body (s0 : S) :
  0 ≤ lo → lo ≤ hi → hi ≤ h → valid h ms (mat s0) → ok lo s0 →
  (∀ i s, lo ≤ i < hi → ok i s → valid h ms (mat s) → row (mat s) i = row (mat s0) i →
     returns (body i s) (λ s', ok (i + 1) s' ∧ valid h ms (mat s') ∧
       ∀ i', 0 ≤ i' < h → row (mat s') i' = if decide (i' = i) then F i else row (mat s) i')) →
  returns (for_range lo hi body s0) (λ s', ok hi s' ∧ valid h ms (mat s') ∧
    ∀ i', 0 ≤ i' < h → row (mat s') i' = if decide (lo ≤ i' < hi) then F i' else row (mat s0) i').
Proof.
  intros H0 Hle Hh Hv Hok Hbody.
  set (I := λ i s, ok i s ∧ valid h ms (mat s) ∧
    ∀ i', 0 ≤ i' < h → row (mat s) i' = if decide (lo ≤ i' < i) then F i' else row (mat s0) i').
  change (returns (for_range lo hi body s0) (I hi)). apply for_range_inv; [done|..].
  - split; [done|split; [done|]]. intros i' _. by rewrite decide_False by lia.
  - intros i s Hi (Hs & Hvs & Hrows). eapply returns_mono; [apply Hbody; try done|].
    { rewrite Hrows by lia. by rewrite decide_False by lia. }
    intros s' (Hs' & Hv' & Hr'). split; [done|split; [done|]]. intros i' Hi'. rewrite Hr', Hrows by done.
    destruct (decide (i' = i)) as [->|Hne]; [by rewrite decide_True by lia|]. do 2 case_decide; (done || lia).
Qed.

(** ** Routines that replace the values of a row in place *)
Definition same_scale (m m' : SparseMatrix) : Prop := maxEval m' = maxEval m ∧ maxMinusMin m' = maxMinusMin m.

Lemma set_val_scale i j v m m' : set_val i j v m = Ok m' → same_scale m m'.
Proof. unfold set_val. intros (a & _ & [= <-])%bind_Ok. done. Qed.

Lemma map_row_spec (g : Z * real_t → real_t) h ms i m0 body :
  0 ≤ i < h → valid h ms m0 →
  (∀ j m e, 0 ≤ j → row m0 i !! Z.to_nat j = Some e → jja m i j = Ok e.1 → val m i j = Ok e.2 → same_scale m0 m →
     body j m = set_val i j (g e) m) →
  returns (for_range 0 (Z.of_nat (length (row m0 i))) body m0) (λ m', valid h ms m' ∧
    (∀ i', 0 ≤ i' < h → row m' i' = if decide (i' = i) then (λ e, (e.1, g e)) <$> row m0 i else row m0 i') ∧ same_scale m0 m').
Proof.
  intros Hi Hv Hbody. destruct (valid_row _ _ _ _ Hv Hi) as [[Hn Hc] Hlen].
  set (I := λ j m, updates h ms m0 m (λ _ _ o, o)
    (λ i' q o, if decide (i' = i ∧ q < j) then g <$> row m0 i !! Z.to_nat q else o) (λ _ o, o) ∧ same_scale m0 m).
  eapply returns_mono; [apply (for_range_inv I); [lia|..]|].
  - split; [|done]. split; [apply Hv|done| |done]. intros i' q [_ Hq]. by rewrite decide_False by lia.
  - intros j m Hj [[U1 U2 U3 U4] Hsc]. assert (slot_ok h ms i j) as Hp by (split; lia).
    destruct (lookup_lt_is_Some_2 (row m0 i) (Z.to_nat j)) as [e He]; [lia|]. destruct (Hc _ _ He) as [HJ HV].
    rewrite Z2Nat.id in HJ, HV by lia. rewrite (Hbody j m e); [|lia|done| | |done].
    2:{ eapply jja_Ok; [done|done|]. by rewrite U2. }
    2:{ eapply val_Ok; [done|done|]. by rewrite U3, decide_False by (done || lia). }
    pose proof (set_val_Ok h ms m i j (g e) U1 Hp) as Hset. apply returns_Ok in Hset as (m' & Hm' & [W1 W2 W3 W4]).
    rewrite Hm'. csimpl. apply set_val_scale in Hm'. split; [|unfold same_scale in *; destruct Hsc, Hm'; split; congruence]. split; [done|..].
    + intros i' q Hq. by rewrite W2, U2.
    + intros i' q Hq. rewrite W3, U3 by done. destruct (decide (i' = i ∧ q = j)) as [[-> ->]|Hne].
      * rewrite decide_True by lia. by rewrite He.
      * destruct (decide (i' = i ∧ q < j)); [by rewrite decide_True by lia|by rewrite decide_False by lia].
    + intros i' Hi'. by rewrite W4, U4.
  - intros m [[U1 U2 U3 U4] Hsc].
    enough (valid h ms m ∧ ∀ i', 0 ≤ i' < h → row m i' = if decide (i' = i) then (λ e, (e.1, g e)) <$> row m0 i else row m0 i')
      as [Hr1 Hr2] by done.
    apply (row_replaced h ms i m0); try done.
    + intros i' Hi' Hne. split; [|by rewrite U4]. intros q Hq. rewrite U2, U3 by (split; lia).
      by rewrite decide_False by naive_solver.
    + split; [rewrite U4, length_fmap by lia; done|]. intros q e He. rewrite list_lookup_fmap in He.
      destruct (row m0 i !! q) as [e0|] eqn:He0; [|done]. injection He as <-. apply lookup_lt_Some in He0 as Hq.
      destruct (Hc _ _ He0) as [HJ HV]. simpl. rewrite U2, U3 by (split; lia). rewrite decide_True by lia. by rewrite Nat2Z.id, He0.
    + by rewrite length_fmap.
    + intros e (e0 & -> & He0)%list_elem_of_fmap. simpl. destruct Hv as [_ Hr]. by apply (Hr i Hi).
Qed.

(** [normalize] maps the bounds of the spectrum to 0 and 1. *)
Definition row_norm (X : SparseMatrix) (i : Z) : list (Z * real_t) :=
  (λ e, (e.1, if e.1 =? i then ((maxEval X - e.2) / maxMinusMin X)%R else (- e.2 / maxMinusMin X)%R)) <$> row X i.

Lemma normalize_rows h ms X :
  valid h ms X → returns (normalize X) (λ X', valid h ms X' ∧ ∀ i, 0 ≤ i < h → row X' i = row_norm X i).
Proof.
  intros HX. pose proof (sz_pos _ _ _ (proj1 HX)). unfold normalize. rewrite (sz_h _ _ _ (proj1 HX)).
  eapply returns_mono; [apply (rows_loop id (row_norm X) (λ _, same_scale X) h ms); try done; try lia|].
  - intros i m Hi Hsc Hv Hrow. simpl in *. rewrite (read_nnz _ _ _ _ Hv Hi). csimpl.
    eapply returns_mono; [apply (map_row_spec (λ e, if e.1 =? i then ((maxEval X - e.2) / maxMinusMin X)%R else (- e.2 / maxMinusMin X)%R) h ms i m); try done|].
    + intros j m' e Hj He HJ HV [H1 H2]. unfold norm_entry. rewrite HJ, HV. csimpl. destruct Hsc as [H3 H4]. by rewrite H1, H2, H3, H4.
    + intros m' (H1 & H2 & H3 & H4). split; [destruct Hsc; split; congruence|]. split; [done|].
      unfold row_norm. rewrite <-Hrow. done.
  - intros X' (_ & Hv & Hr). split; [done|]. intros i Hi. rewrite Hr by done. by rewrite decide_True.
Qed.

(** With no limit given, a row has a place for every column. *)
Lemma nnzStart_full hs : 0 < hs → hs + 32 ≤ INT_MAX → nnzStart hs 0 = Ok hs.
Proof.
  intros Hpos Hmax. unfold nnzStart. rewrite Z.eqb_refl, crem_Ok by lia. csimpl.
  pose proof (Z.mod_pos_bound hs 32 ltac:(lia)). destruct (Z.ltb_spec 0 (hs mod 32)).
  - rewrite int32_Ok by (unfold INT_MIN; lia). csimpl. destruct (Z.ltb_spec hs (hs + (32 - hs mod 32))); [done|lia].
  - csimpl. by rewrite Z.ltb_irrefl.
Qed.

Lemma initSparseMatrix_valid hs ms :
  0 ≤ hs → 0 ≤ ms → hs * ms ≤ INT_MAX → returns (initSparseMatrix hs ms) (λ m, valid hs ms m ∧ ∀ i, 0 ≤ i < hs → row m i = []).
Proof.
  intros Hh Hms Hmax. pose proof (Z.mul_nonneg_nonneg hs ms Hh Hms). unfold initSparseMatrix.
  rewrite int32_Ok by (unfold INT_MIN; lia). csimpl. set (m := mkSparseMatrix _ _ _ _ _ _ _ _ _).
  assert (sized hs ms m) as Hs by (split; simpl; rewrite ?length_replicate; lia).
  assert (∀ i, 0 ≤ i < hs → cellN m i = Some 0) as HN.
  { intros i Hi. unfold cellN. simpl. apply lookup_replicate. split; [done|lia]. }
  assert (∀ i, 0 ≤ i < hs → row m i = []) as Hrow.
  { intros i Hi. apply (row_eq hs ms); [done|done|simpl; lia|]. split; [by apply HN|]. intros q e He. by rewrite lookup_nil in He. }
  split; [|done]. split; [done|]. intros i Hi. split.
  - intros n. rewrite HN by done. intros [= <-]. lia.
  - rewrite Hrow by done. by intros e ?%not_elem_of_nil.
Qed.

(** Two full rows, as the witnesses use them: on one task, and the first of two. *)
Definition small_matrix : SparseMatrix :=
  mkSparseMatrix 2 2 0 [2; 2] [0; 1; 0; 1] ftwo fzero ftwo [fone; fhalf; fhalf; fone].
Definition small_domain : DomainSt := mkDomainSt 1 2 2 0 2 2 0 2 2.
Definition half_domain : DomainSt := mkDomainSt 2 2 2 0 2 2 0 1 1.

Lemma small_valid : valid 2 2 small_matrix.
Proof. by apply validb_valid. Qed.
