(* ===== verification/SparseMath.v ===== *)
(** * CoSP2: sparse matrix operations (sparseMath.c)

    X^2, 2X - X^2 and the thresholds, a row at a time, as one thread executes
    them.  A row is accumulated in a dense vector [x], whose places in use [ix]
    marks; the columns are listed in the output in the order they are met, and
    then the entries above the threshold are moved to the front.

    The theorems state each routine as a function of rows: a column has the sum
    of its contributions in the order of the loops. *)

From Stdlib Require Import ZArith Lia.
From stdpp Require Import base list numbers sets.
From S2P Require Import Prelude Float64 SparseMatrix.

#[local] Open Scope Z_scope.

Section sparse_math.
(** The threshold [eps]. *)
Variable eps : real_t.

Definition above (x : real_t) : bool := fltb eps (fabs x).

(** ** Accumulation *)

(** The vectors [ix] and [x], the output matrix and the number [l] of columns
    (or of entries kept_entries) in its row. *)
Record Acc := mkAcc { a_ix : list Z; a_x : list real_t; a_m : SparseMatrix; a_l : Z }.

(** [if (ix[k] == 0) { x[k] = ZERO; jja[i][l] = k; ix[k] = i+1; l++; }] *)
Definition mark (i k : Z) (s : Acc) : res Acc :=
  t ← aload (a_ix s) k;
  if t =? 0 then
    x ← astore (a_x s) k fzero;
    m ← set_jja i (a_l s) k (a_m s);
    ix ← astore (a_ix s) k (i + 1);
    Ok (mkAcc ix x m (a_l s + 1))
  else Ok s.

Definition accumulate (k : Z) (f : real_t → real_t) (s : Acc) : res Acc :=
  v ← aload (a_x s) k;
  x ← astore (a_x s) k (f v);
  Ok (mkAcc (a_ix s) x (a_m s) (a_l s)).

(** [ix[jp] = 0; x[jp] = ZERO], with the matrix and the count of kept entries. *)
Definition clear (jp : Z) (s : Acc) : res Acc :=
  ix ← astore (a_ix s) jp 0;
  x ← astore (a_x s) jp fzero;
  Ok (mkAcc ix x (a_m s) (a_l s)).

Definition keep_entry (i jp : Z) (v : real_t) (s : Acc) : res Acc :=
  m ← set_val i (a_l s) v (a_m s);
  m ← set_jja i (a_l s) jp m;
  Ok (mkAcc (a_ix s) (a_x s) m (a_l s + 1)).

(** ** X^2 *)

Definition x2_inner (X : SparseMatrix) (i j : Z) (a : real_t) (kp : Z) (s : Acc) : res Acc :=
  k ← jja X j kp;
  s ← mark i k s;
  b ← val X j kp;
  accumulate k (λ v, (v + a * b)%R) s.

Definition x2_outer (X : SparseMatrix) (i jp : Z) (st : Acc * real_t) : res (Acc * real_t) :=
  let '(s, traceX) := st in
  a ← val X i jp;
  j ← jja X i jp;
  let traceX := if j =? i then (traceX + a)%R else traceX in
  n ← nnz X j;
  s ← for_range 0 n (x2_inner X i j a) s;
  Ok (s, traceX).

Definition x2_compact (i j : Z) (st : Acc * real_t) : res (Acc * real_t) :=
  let '(s, traceX2) := st in
  jp ← jja (a_m s) i j;
  xtmp ← aload (a_x s) jp;
  '(s, traceX2) ← (if jp =? i then s ← keep_entry i jp xtmp s; Ok (s, (traceX2 + xtmp)%R)
                   else if above xtmp then s ← keep_entry i jp xtmp s; Ok (s, traceX2)
                   else Ok (s, traceX2));
  s ← clear jp s;
  Ok (s, traceX2).

Definition x2_row (X : SparseMatrix) (i : Z) (st : Acc * real_t * real_t) : res (Acc * real_t * real_t) :=
  let '(s, traceX, traceX2) := st in
  n ← nnz X i;
  '(s, traceX) ← for_range 0 n (x2_outer X i) (mkAcc (a_ix s) (a_x s) (a_m s) 0, traceX);
  '(s', traceX2) ← for_range 0 (a_l s) (x2_compact i) (mkAcc (a_ix s) (a_x s) (a_m s) 0, traceX2);
  m ← set_nnz i (a_l s') (a_m s');
  Ok (mkAcc (a_ix s') (a_x s') m (a_l s'), traceX, traceX2).

Definition sparseX2 (X X2 : SparseMatrix) (d : DomainSt) : res (real_t * real_t * SparseMatrix) :=
  let h := Z.to_nat (hsize X) in
  '(s, traceX, traceX2) ←
    for_range (localRowMin d) (localRowMax d) (x2_row X) (mkAcc (replicate h 0) (replicate h fzero) X2 0, fzero, fzero);
  Ok (traceX, traceX2, a_m s).

(** ** 2X - X^2 *)

Definition add_first (i jp : Z) (s : Acc) : res Acc :=
  k ← jja (a_m s) i jp;
  s ← mark i k s;
  b ← val (a_m s) i jp;
  accumulate k (λ v, (v + ftwo * b)%R) s.

Definition add_second (X2 : SparseMatrix) (i jp : Z) (s : Acc) : res Acc :=
  k ← jja X2 i jp;
  s ← mark i k s;
  b ← val X2 i jp;
  accumulate k (λ v, (v - b)%R) s.

Definition add_compact (i jp : Z) (s : Acc) : res Acc :=
  k ← jja (a_m s) i jp;
  xTmp ← aload (a_x s) k;
  s ← (if above xTmp then keep_entry i k xTmp s else Ok s);
  k ← jja (a_m s) i jp;
  clear k s.

Definition add_row (X2 : SparseMatrix) (i : Z) (s : Acc) : res Acc :=
  n ← nnz (a_m s) i;
  s ← for_range 0 n (add_first i) (mkAcc (a_ix s) (a_x s) (a_m s) 0);
  n2 ← nnz X2 i;
  s ← for_range 0 n2 (add_second X2 i) s;
  m ← set_nnz i (a_l s) (a_m s);
  s' ← for_range 0 (a_l s) (add_compact i) (mkAcc (a_ix s) (a_x s) m 0);
  m ← set_nnz i (a_l s') (a_m s');
  Ok (mkAcc (a_ix s') (a_x s') m (a_l s')).

Definition sparseAdd (X X2 : SparseMatrix) (d : DomainSt) : res SparseMatrix :=
  let h := Z.to_nat (hsize X) in
  s ← for_range (localRowMin d) (localRowMax d) (add_row X2) (mkAcc (replicate h 0) (replicate h fzero) X 0);
  Ok (a_m s).

(** ** The other routines *)

Definition set_entry (X2 : SparseMatrix) (i jp : Z) (st : SparseMatrix * Z) : res (SparseMatrix * Z) :=
  let '(X, ll) := st in
  xtmp ← val X2 i jp;
  if above xtmp then
    X ← set_val i ll xtmp X;
    k ← jja X2 i jp;
    X ← set_jja i ll k X;
    Ok (X, ll + 1)
  else Ok (X, ll).

Definition set_row (X2 : SparseMatrix) (i : Z) (X : SparseMatrix) : res SparseMatrix :=
  n ← nnz X2 i;
  '(X, ll) ← for_range 0 n (set_entry X2 i) (X, 0);
  set_nnz i ll X.

Definition sparseSetX2 (X X2 : SparseMatrix) (d : DomainSt) : res SparseMatrix :=
  for_range (localRowMin d) (localRowMax d) (set_row X2) X.

Definition scale_row (scalar : real_t) (i : Z) (X : SparseMatrix) : res SparseMatrix :=
  n ← nnz X i;
  for_range 0 n (λ j X, v ← val X i j; set_val i j (v * scalar)%R X) X.

Definition sparseMultScalar (X : SparseMatrix) (d : DomainSt) (scalar : real_t) : res SparseMatrix :=
  for_range (localRowMin d) (localRowMax d) (scale_row scalar) X.

(** ** Rows as functions *)

(** Contributions to the columns of a row: a column and what is done to its sum. *)
Definition contribution : Type := Z * (real_t → real_t).

Definition meet (ks : list Z) (e : contribution) : list Z := if decide (e.1 ∈ ks) then ks else ks ++ [e.1].
(** The columns in the order they are met, and the sum of one. *)
Definition columns (L : list contribution) : list Z := foldl meet [] L.
Definition sum_of (k : Z) (L : list contribution) : real_t := foldl (λ v e, if e.1 =? k then e.2 v else v) fzero L.

Definition kept_of (keep : Z → real_t → bool) (L : list contribution) (ks : list Z) : list (Z * real_t) :=
  filter (λ e, keep e.1 e.2 = true) ((λ k, (k, sum_of k L)) <$> ks).
Definition kept_entries (keep : Z → real_t → bool) (L : list contribution) : list (Z * real_t) := kept_of keep L (columns L).

Definition product (X : SparseMatrix) (i : Z) : list contribution :=
  row X i ≫= λ e, (λ e', (e'.1, λ v, (v + e.2 * e'.2)%R)) <$> row X e.1.
Definition row_x2 (X : SparseMatrix) (i : Z) : list (Z * real_t) := kept_entries (λ k v, (k =? i) || above v) (product X i).

Definition difference (X X2 : SparseMatrix) (i : Z) : list contribution :=
  ((λ e, (e.1, λ v, (v + ftwo * e.2)%R)) <$> row X i) ++ ((λ e, (e.1, λ v, (v - e.2)%R)) <$> row X2 i).
Definition row_add (X X2 : SparseMatrix) (i : Z) : list (Z * real_t) := kept_entries (λ _ v, above v) (difference X X2 i).


Definition row_set (X2 : SparseMatrix) (i : Z) : list (Z * real_t) := filter (λ e, above e.2 = true) (row X2 i).
Definition row_scale (scalar : real_t) (X : SparseMatrix) (i : Z) : list (Z * real_t) :=
  (λ e, (e.1, (e.2 * scalar)%R)) <$> row X i.

(** The sum of the diagonal entries of rows, in the order of the loops. *)
Definition trace_row (i : Z) (t : real_t) (es : list (Z * real_t)) : real_t :=
  foldl (λ t e, if e.1 =? i then (t + e.2)%R else t) t es.
Definition trace_rows (R : Z → list (Z * real_t)) (lo hi : Z) : real_t :=
  foldl (λ t i, trace_row i t (R i)) fzero (seqZ lo (hi - lo)).

End sparse_math.

(** ** Columns and sums *)

Lemma foldl_ext_in {A B} (f g : A → B → A) l a :
  (∀ x a, x ∈ l → f a x = g a x) → foldl f a l = foldl g a l.
Proof.
  revert a. induction l as [|x l IH]; intros a H; simpl; [done|]. rewrite H by set_solver. apply IH. set_solver.
Qed.

Lemma columns_snoc L e : columns (L ++ [e]) = meet (columns L) e.
Proof. unfold columns. by rewrite foldl_app. Qed.

Lemma sum_of_snoc k L e : sum_of k (L ++ [e]) = if e.1 =? k then e.2 (sum_of k L) else sum_of k L.
Proof. unfold sum_of. by rewrite foldl_app. Qed.

Lemma elem_of_meet ks e k : k ∈ meet ks e ↔ k ∈ ks ∨ k = e.1.
Proof. unfold meet. case_decide; set_solver. Qed.

Lemma elem_of_columns L k : k ∈ columns L ↔ ∃ e, e ∈ L ∧ e.1 = k.
Proof.
  induction L as [|e L IH] using rev_ind; [set_solver|].
  rewrite columns_snoc, elem_of_meet, IH. setoid_rewrite elem_of_app. set_solver.
Qed.

Lemma columns_NoDup L : NoDup (columns L).
Proof.
  induction L as [|e L IH] using rev_ind; [constructor|]. rewrite columns_snoc. unfold meet.
  case_decide; [done|]. apply NoDup_app. split; [done|]. split; [set_solver|]. apply NoDup_singleton.
Qed.

Lemma columns_prefix L L' : columns L `prefix_of` columns (L ++ L').
Proof.
  induction L' as [|e L' IH] using rev_ind; [by rewrite app_nil_r|].
  rewrite app_assoc, columns_snoc. etrans; [apply IH|]. unfold meet. case_decide; [done|]. by apply prefix_app_r.
Qed.

Lemma columns_length L : (length (columns L) ≤ length L)%nat.
Proof.
  induction L as [|e L IH] using rev_ind; [done|]. rewrite columns_snoc, length_app. unfold meet.
  case_decide; simpl; [lia|]. rewrite length_app. simpl. lia.
Qed.

Lemma sum_of_new k L : k ∉ columns L → sum_of k L = fzero.
Proof.
  induction L as [|e L IH] using rev_ind; [done|]. intros Hk. rewrite columns_snoc, elem_of_meet in Hk.
  rewrite sum_of_snoc. destruct (Z.eqb_spec (e.1) k); [naive_solver|]. apply IH. naive_solver.
Qed.

(** ** Accumulating one row *)
Section one_row.
Variables (h ms i : Z) (m0 : SparseMatrix).
Hypothesis Hi : 0 ≤ i < h.

Record accum (L : list contribution) (s : Acc) : Prop := mkAccum {
  ac_ix : Z.of_nat (length (a_ix s)) = h; ac_x : Z.of_nat (length (a_x s)) = h;
  ac_marks : ∀ k, 0 ≤ k < h → a_ix s !! Z.to_nat k = Some (if decide (k ∈ columns L) then i + 1 else 0);
  ac_sums : ∀ k, k ∈ columns L → a_x s !! Z.to_nat k = Some (sum_of k L);
  ac_cols : ∀ k, k ∈ columns L → 0 ≤ k < h;
  ac_l : a_l s = Z.of_nat (length (columns L));
  ac_sized : sized h ms (a_m s);
  ac_listed : ∀ q k, columns L !! q = Some k → cellJ (a_m s) i (Z.of_nat q) = Some k;
  ac_rest : ∀ q, a_l s ≤ q < ms → cellJ (a_m s) i q = cellJ m0 i q;
  ac_V : ∀ q, 0 ≤ q < ms → cellV (a_m s) i q = cellV m0 i q;
  ac_N : cellN (a_m s) i = cellN m0 i;
  ac_rows : same_rows h ms i m0 (a_m s);
}.

(** Between the rows nothing is marked. *)
Definition clean (s : Acc) : Prop :=
  Z.of_nat (length (a_ix s)) = h ∧ Z.of_nat (length (a_x s)) = h ∧ ∀ k, 0 ≤ k < h → a_ix s !! Z.to_nat k = Some 0.

Lemma accum_start s : clean s → sized h ms m0 → a_m s = m0 → accum [] (mkAcc (a_ix s) (a_x s) (a_m s) 0).
Proof.
  intros (H1 & H2 & H3) Hs Ha. split; simpl; rewrite ?Ha; try done.
  all: try by intros k ?%not_elem_of_nil.
  all: by rewrite ?Ha.
Qed.

Lemma mark_spec L s k :
  accum L s → 0 ≤ k < h → Z.of_nat (length (meet (columns L) (k, id))) ≤ ms →
  returns (mark i k s) (accum (L ++ [(k, id)])).
Proof.
  intros [H1 H2 H3 H4 H5 H6 H7 H8 H9 H10 H11 H12] Hk Hms. unfold mark. rewrite (aload_lookup _ k _ (proj1 Hk) (H3 k Hk)). csimpl.
  unfold meet in Hms. simpl in Hms.
  assert (∀ k', sum_of k' (L ++ [(k, id)]) = sum_of k' L) as Hsum.
  { intros k'. rewrite sum_of_snoc. simpl. by destruct (k =? k'). }
  destruct (decide (k ∈ columns L)) as [Hin|Hnew].
  - destruct (Z.eqb_spec (i + 1) 0); [lia|]. simpl.
    assert (columns (L ++ [(k, id)]) = columns L) as Hc by (rewrite columns_snoc; unfold meet; by rewrite decide_True).
    split; rewrite ?Hc; try done. intros k' Hk'. rewrite Hsum. by apply H4.
  - destruct (Z.eqb_spec 0 0); [|lia]. rewrite (astore_Ok (a_x s)) by lia. csimpl.
    assert (columns (L ++ [(k, id)]) = columns L ++ [k]) as Hc by (rewrite columns_snoc; unfold meet; by rewrite decide_False).
    rewrite length_app in Hms. simpl in Hms.
    assert (slot_ok h ms i (a_l s)) as Hp by (split; lia).
    eapply returns_bind; [apply (set_jja_Ok h ms); [done|exact Hp]|]. intros m' [U1 U2 U3 U4].
    rewrite astore_Ok by lia. csimpl. split; simpl; rewrite ?Hc, ?length_insert, ?length_app; simpl; try done.
    + intros k' Hk'. destruct (decide (k' = k)) as [->|Hne].
      * rewrite list_lookup_insert_eq by lia. rewrite decide_True by set_solver. done.
      * rewrite list_lookup_insert_ne by lia. rewrite H3 by done. do 2 case_decide; set_solver.
    + intros k' Hk'. rewrite Hsum. destruct (decide (k' = k)) as [->|Hne].
      * rewrite list_lookup_insert_eq by lia. by rewrite sum_of_new.
      * assert (k' ∈ columns L) as Hin by set_solver. rewrite list_lookup_insert_ne by (specialize (H5 k' Hin); lia). by apply H4.
    + intros k' [?| ->%list_elem_of_singleton]%elem_of_app; [by apply H5|done].
    + rewrite H6. lia.
    + intros q k' Hq. apply lookup_lt_Some in Hq as Hlt. rewrite length_app in Hlt. simpl in Hlt.
      rewrite U2 by (split; lia). case_decide as He.
      * assert (q = length (columns L)) as -> by lia. rewrite list_lookup_middle in Hq by done. done.
      * rewrite lookup_app_l in Hq by lia. by apply H8.
    + intros q Hq. rewrite U2 by (split; lia). rewrite decide_False by lia. apply H9. lia.
    + intros q Hq. rewrite U3 by (split; lia). by apply H10.
    + rewrite U4 by lia. done.
    + eapply same_rows_trans; [exact H12|]. intros i' Hi' Hne. split; [|by rewrite U4].
      intros q Hq. rewrite U2, U3 by (split; lia). by rewrite decide_False by naive_solver.
Qed.

Lemma accumulate_spec L s k f :
  accum (L ++ [(k, id)]) s → returns (accumulate k f s) (accum (L ++ [(k, f)])).
Proof.
  intros [H1 H2 H3 H4 H5 H6 H7 H8 H9 H10 H11 H12]. unfold accumulate.
  assert (columns (L ++ [(k, id)]) = columns (L ++ [(k, f)])) as Hc by by rewrite !columns_snoc.
  assert (k ∈ columns (L ++ [(k, id)])) as Hk by (rewrite columns_snoc, elem_of_meet; by right).
  specialize (H5 k Hk) as Hr. rewrite (aload_lookup _ k _ (proj1 Hr) (H4 k Hk)). csimpl.
  rewrite astore_Ok by lia. csimpl. rewrite Hc in *. split; simpl; rewrite ?length_insert; try done.
  intros k' Hk'. pose proof (H5 k' Hk'). rewrite !sum_of_snoc. simpl. specialize (H4 k' Hk').
  rewrite sum_of_snoc in H4. simpl in H4. rewrite Z.eqb_refl. destruct (Z.eqb_spec k k') as [Heq|Hne].
  - rewrite <-Heq in *. by rewrite list_lookup_insert_eq by lia.
  - by rewrite list_lookup_insert_ne by lia.
Qed.

Lemma meet_length L k f L' : (length (meet (columns L) (k, id)) ≤ length (columns ((L ++ [(k, f)]) ++ L')))%nat.
Proof.
  etrans; [|apply (prefix_length _ _ (columns_prefix (L ++ [(k, f)]) L'))]. by rewrite columns_snoc.
Qed.


(** ** Compacting the row

    The columns [kc] are cleared, the entries of the columns [kk] are moved. *)
Section compacting.
Variables (L : list contribution) (keep : Z → real_t → bool) (m1 : SparseMatrix).

Record compacting (kc kk : list Z) (s : Acc) : Prop := mkCompacting {
  cp_ix : Z.of_nat (length (a_ix s)) = h; cp_x : Z.of_nat (length (a_x s)) = h;
  cp_marks : ∀ k, 0 ≤ k < h → a_ix s !! Z.to_nat k = Some (if decide (k ∈ columns L ∧ k ∉ kc) then i + 1 else 0);
  cp_sums : ∀ k, k ∈ columns L → k ∉ kc → a_x s !! Z.to_nat k = Some (sum_of k L);
  cp_l : a_l s = Z.of_nat (length (kept_of keep L kk));
  cp_sized : sized h ms (a_m s);
  cp_kept : ∀ q e, kept_of keep L kk !! q = Some e →
    cellJ (a_m s) i (Z.of_nat q) = Some e.1 ∧ cellV (a_m s) i (Z.of_nat q) = Some e.2;
  cp_listed : ∀ q k, columns L !! q = Some k → (length kc ≤ q)%nat → cellJ (a_m s) i (Z.of_nat q) = Some k;
  cp_rows : same_rows h ms i m1 (a_m s);
}.

Lemma kept_of_snoc ks k :
  kept_of keep L (ks ++ [k]) = kept_of keep L ks ++ (if keep k (sum_of k L) then [(k, sum_of k L)] else []).
Proof.
  unfold kept_of. rewrite fmap_app, filter_app. f_equal. csimpl. rewrite filter_cons, filter_nil. simpl.
  by destruct (keep k (sum_of k L)).
Qed.

Lemma kept_of_length ks : (length (kept_of keep L ks) ≤ length ks)%nat.
Proof. unfold kept_of. etrans; [apply length_filter|]. by rewrite length_fmap. Qed.

Lemma keep_spec kc k s :
  compacting kc kc s → columns L !! length kc = Some k → Z.of_nat (length (columns L)) ≤ ms →
  returns (if keep k (sum_of k L) then keep_entry i k (sum_of k L) s else Ok s) (compacting kc (kc ++ [k])).
Proof.
  intros [H1 H2 H3 H4 H5 H6 H7 H8 H9] Hk Hms. pose proof (kept_of_length kc) as Hl.
  apply lookup_lt_Some in Hk as Hlt. destruct (keep k (sum_of k L)) eqn:Hkeep.
  - assert (slot_ok h ms i (a_l s)) as Hp by (split; lia). unfold keep_entry.
    eapply returns_bind; [by apply (set_val_Ok h ms)|]. intros m2 [U1 U2 U3 U4].
    eapply returns_bind; [by apply (set_jja_Ok h ms)|]. intros m3 [W1 W2 W3 W4].
    split; simpl; rewrite ?kept_of_snoc, ?Hkeep; try done.
    + rewrite length_app. simpl. lia.
    + intros q e He. apply lookup_lt_Some in He as Hq. rewrite length_app in Hq. simpl in Hq.
      rewrite W2, W3, U2, U3 by (split; lia). destruct (decide (q = length (kept_of keep L kc))) as [->|Hne].
      * rewrite list_lookup_middle in He by done. injection He as <-. rewrite !decide_True by lia. done.
      * rewrite lookup_app_l in He by lia. rewrite !decide_False by lia. by apply H7.
    + intros q k' Hq Hlq. apply lookup_lt_Some in Hq as Hlt'. rewrite W2, U2 by (split; lia). case_decide as He; [|by apply H8].
      assert (q = length kc) as -> by lia. congruence.
    + eapply same_rows_trans; [exact H9|]. intros i' Hi' Hne. split; [|rewrite W4, U4 by done; done].
      intros q Hq. rewrite W2, W3, U2, U3 by (split; lia). rewrite !decide_False by naive_solver. done.
  - simpl. split; rewrite ?kept_of_snoc, ?Hkeep, ?app_nil_r; done.
Qed.

Lemma clear_spec kc k s :
  compacting kc (kc ++ [k]) s → columns L !! length kc = Some k → (∀ k, k ∈ columns L → 0 ≤ k < h) →
  returns (clear k s) (compacting (kc ++ [k]) (kc ++ [k])).
Proof.
  intros [H1 H2 H3 H4 H5 H6 H7 H8 H9] Hk Hr. assert (k ∈ columns L) as Hin by by eapply list_elem_of_lookup_2.
  pose proof (Hr k Hin). unfold clear. rewrite (astore_Ok (a_ix s)) by lia. csimpl. rewrite astore_Ok by lia. csimpl.
  split; simpl; rewrite ?length_insert; try done.
  - intros k' Hk'. destruct (decide (k' = k)) as [->|Hne].
    + rewrite list_lookup_insert_eq by lia. rewrite decide_False by set_solver. done.
    + rewrite list_lookup_insert_ne by lia. rewrite H3 by done. do 2 case_decide; set_solver.
  - intros k' Hin' Hn. pose proof (Hr k' Hin'). rewrite list_lookup_insert_ne; [apply H4; set_solver|]. set_solver by lia.
  - intros q k' Hq Hl. rewrite length_app in Hl. apply H8; [done|lia].
Qed.

(** One pass of the compaction: [k] is read, moved and cleared. *)
Lemma compact_column kc k s :
  compacting kc kc s → columns L !! length kc = Some k → (∀ k, k ∈ columns L → 0 ≤ k < h) →
  Z.of_nat (length (columns L)) ≤ ms → k ∉ kc →
  jja (a_m s) i (Z.of_nat (length kc)) = Ok k ∧ aload (a_x s) k = Ok (sum_of k L) ∧
  returns (if keep k (sum_of k L) then keep_entry i k (sum_of k L) s else Ok s)
    (λ s', jja (a_m s') i (Z.of_nat (length kc)) = Ok k ∧ returns (clear k s') (compacting (kc ++ [k]) (kc ++ [k]))).
Proof.
  intros Hc Hk Hr Hms Hnew. apply lookup_lt_Some in Hk as Hlt.
  assert (k ∈ columns L) as Hin by by eapply list_elem_of_lookup_2.
  assert (slot_ok h ms i (Z.of_nat (length kc))) as Hp by (split; lia).
  split; [|split].
  - eapply jja_Ok; [apply Hc|exact Hp|]. by apply (cp_listed _ _ _ Hc).
  - apply aload_lookup; [by apply Hr|]. by apply (cp_sums _ _ _ Hc).
  - eapply returns_mono; [by apply keep_spec|]. intros s' Hs'. split; [|by apply clear_spec].
    eapply jja_Ok; [apply Hs'|exact Hp|]. by apply (cp_listed _ _ _ Hs').
Qed.

Lemma compact_start s :
  accum L s → same_rows h ms i m1 (a_m s) → compacting [] [] (mkAcc (a_ix s) (a_x s) (a_m s) 0).
Proof.
  intros [H1 H2 H3 H4 H5 H6 H7 H8 H9 H10 H11 H12] Hs. split; simpl; try done.
  - intros k Hk. rewrite H3 by done. do 2 case_decide; set_solver.
  - intros k Hk _. by apply H4.
  - intros q k Hq _. by apply H8.
Qed.

Lemma compact_end s :
  compacting (columns L) (columns L) s → Z.of_nat (length (columns L)) ≤ ms →
  clean s ∧ returns (set_nnz i (a_l s) (a_m s)) (λ m', sized h ms m' ∧ same_rows h ms i m1 m' ∧ has_row m' i (kept_entries keep L)).
Proof.
  intros [H1 H2 H3 H4 H5 H6 H7 H8 H9] Hms. pose proof (kept_of_length (columns L)). split; [split; [done|split; [done|]]|].
  - intros k Hk. rewrite H3 by done. rewrite decide_False by tauto. done.
  - eapply returns_mono; [by apply (set_nnz_Ok h ms)|]. intros m' [U1 U2 U3 U4]. split; [done|split].
    + eapply same_rows_trans; [exact H9|]. intros i' Hi' Hne. split; [|rewrite U4 by done; by rewrite decide_False].
      intros q Hq. by rewrite U2, U3 by (split; lia).
    + split; [rewrite U4 by lia; rewrite decide_True by done; by rewrite H5|].
      intros q e He. apply lookup_lt_Some in He as Hq. unfold kept_entries in *. rewrite U2, U3 by (split; lia). by apply H7.
Qed.
End compacting.
End one_row.

(** ** One row *)

(** The columns of a part of the contributions fit where those of all do. *)
Lemma columns_part L k f L' n :
  Z.of_nat (length (columns ((L ++ [(k, f)]) ++ L'))) ≤ n → Z.of_nat (length (meet (columns L) (k, id))) ≤ n.
Proof. pose proof (meet_length L k f L') as Hm. intros Hn. etrans; [|exact Hn]. by apply inj_le. Qed.

Lemma columns_app_le L L' n : Z.of_nat (length (columns (L ++ L'))) ≤ n → Z.of_nat (length (columns L)) ≤ n.
Proof. pose proof (prefix_length _ _ (columns_prefix L L')). lia. Qed.

Lemma take_entry {E} (f : E → contribution) q e (es : list E) :
  es !! q = Some e → f <$> es = (f <$> take q es ++ [e]) ++ (f <$> drop (S q) es).
Proof. intros He. rewrite <-fmap_app, <-app_assoc. simpl. by rewrite take_drop_middle. Qed.

(** A prefix of the contributions of entries. *)
Lemma entries_fit {E} L (f : E → contribution) q e es n :
  es !! q = Some e → Z.of_nat (length (columns (L ++ (f <$> es)))) ≤ n →
  Z.of_nat (length (columns ((L ++ (f <$> take q es)) ++ [f e]))) ≤ n.
Proof.
  intros He Hn. apply (columns_app_le _ (f <$> drop (S q) es)). rewrite <-!app_assoc.
  rewrite (take_entry f q e es He), fmap_app, <-app_assoc in Hn. done.
Qed.

Lemma take_fresh L q k : columns L !! q = Some k → k ∉ take q (columns L).
Proof.
  intros Hk Hin. apply list_elem_of_lookup in Hin as [q' Hin]. apply lookup_take_Some in Hin as [Hin Hlt].
  pose proof (NoDup_lookup _ _ _ _ (columns_NoDup L) Hin Hk). lia.
Qed.

Lemma kept_cols keep L e : e ∈ kept_entries keep L → e.1 ∈ columns L.
Proof.
  unfold kept_entries, kept_of. intros [_ He]%list_elem_of_filter. by apply list_elem_of_fmap in He as (k & -> & Hk).
Qed.

Section x2.
Variables (eps : real_t) (h ms : Z) (X : SparseMatrix).
Hypothesis HX : valid h ms X.
Variable (i : Z).
Hypothesis Hi : 0 ≤ i < h.

Definition prod_entry (a : real_t) (e : Z * real_t) : contribution := (e.1, λ v, (v + a * e.2)%R).

Lemma x2_inner_spec m0 j a q e L s :
  0 ≤ j < h → row X j !! q = Some e → accum h ms i m0 L s →
  Z.of_nat (length (columns (L ++ [prod_entry a e]))) ≤ ms →
  returns (x2_inner X i j a (Z.of_nat q) s) (accum h ms i m0 (L ++ [prod_entry a e])).
Proof.
  intros Hj He Hs Hms. destruct (read_entry _ _ _ _ _ _ HX Hj He) as (H1 & H2 & H3).
  unfold x2_inner. rewrite H1. csimpl. eapply returns_bind.
  { apply (mark_spec _ _ _ _ Hi _ _ _ Hs H3). eapply (columns_part _ _ _ []). by rewrite app_nil_r. }
  intros s1 Hs1. rewrite H2. csimpl. by apply accumulate_spec.
Qed.

Lemma x2_outer_spec m0 q e L s t :
  row X i !! q = Some e → accum h ms i m0 L s →
  Z.of_nat (length (columns (L ++ (prod_entry e.2 <$> row X e.1)))) ≤ ms →
  returns (x2_outer X i (Z.of_nat q) (s, t))
    (λ '(s', t'), accum h ms i m0 (L ++ (prod_entry e.2 <$> row X e.1)) s' ∧ t' = trace_row i t [e]).
Proof.
  intros He Hs Hms. destruct (read_entry _ _ _ _ _ _ HX Hi He) as (H1 & H2 & H3).
  unfold x2_outer. rewrite H1, H2. csimpl. rewrite (read_nnz _ _ _ _ HX H3). csimpl.
  eapply returns_bind; [|intros s' Hs'; split; [exact Hs'|done]].
  apply (for_entries (λ es, accum h ms i m0 (L ++ (prod_entry e.2 <$> es)))); [by rewrite app_nil_r|].
  intros q' e' s' He' Hs'. rewrite fmap_app, app_assoc. apply x2_inner_spec; [done|done|done|].
  by apply entries_fit.
Qed.

Lemma x2_compact_spec m1 L kc k s t :
  compacting h ms i L (λ k v, (k =? i) || above eps v) m1 kc kc s → columns L !! length kc = Some k →
  (∀ k, k ∈ columns L → 0 ≤ k < h) → Z.of_nat (length (columns L)) ≤ ms → k ∉ kc →
  returns (x2_compact eps i (Z.of_nat (length kc)) (s, t))
    (λ '(s', t'), compacting h ms i L (λ k v, (k =? i) || above eps v) m1 (kc ++ [k]) (kc ++ [k]) s' ∧
       t' = trace_row i t [(k, sum_of k L)]).
Proof.
  intros Hc Hk Hr Hms Hn. destruct (compact_column _ _ _ Hi _ _ _ _ _ _ Hc Hk Hr Hms Hn) as (H1 & H2 & H3).
  unfold x2_compact. rewrite H1. csimpl. rewrite H2. csimpl. simpl in H3. unfold trace_row. simpl.
  destruct (k =? i); simpl in *; [|destruct (above eps (sum_of k L)); simpl in *].
  - apply returns_Ok in H3 as (s1 & -> & _ & Hs). csimpl. eapply returns_bind; [exact Hs|]. intros s2 Hs2. by split.
  - apply returns_Ok in H3 as (s1 & -> & _ & Hs). csimpl. eapply returns_bind; [exact Hs|]. intros s2 Hs2. by split.
  - destruct H3 as [_ Hs]. eapply returns_bind; [exact Hs|]. intros s2 Hs2. by split.
Qed.

Lemma trace_kept L t ks :
  foldl (λ t k, if k =? i then (t + sum_of k L)%R else t) t ks =
  trace_row i t (kept_of (λ k v, (k =? i) || above eps v) L ks).
Proof.
  revert t. induction ks as [|k ks IH]; intros t; simpl; [done|]. unfold kept_of. csimpl. rewrite filter_cons. simpl.
  rewrite IH. destruct (k =? i) eqn:Hk; simpl; [by rewrite Hk|]. destruct (above eps (sum_of k L)); simpl; [by rewrite Hk|done].
Qed.

Lemma product_cols k : k ∈ columns (product X i) → 0 ≤ k < h.
Proof.
  intros (c & Hc & <-)%elem_of_columns. unfold product in Hc. apply list_elem_of_bind in Hc as (e & Hc & He).
  apply list_elem_of_fmap in Hc as (e' & -> & He'). destruct HX as [_ Hr]. destruct (Hr i Hi) as [_ Hi'].
  destruct (Hr (e.1) (Hi' e He)) as [_ Hj]. by apply Hj.
Qed.

Lemma x2_accumulate s t :
  clean h s → sized h ms (a_m s) → Z.of_nat (length (columns (product X i))) ≤ ms →
  returns (for_range 0 (Z.of_nat (length (row X i))) (x2_outer X i) (mkAcc (a_ix s) (a_x s) (a_m s) 0, t))
    (λ '(s', t'), accum h ms i (a_m s) (product X i) s' ∧ t' = trace_row i t (row X i)).
Proof.
  intros Hc Hs Hms.
  apply (for_entries (λ es '(s', t'), accum h ms i (a_m s) (es ≫= λ e, prod_entry e.2 <$> row X e.1) s' ∧ t' = trace_row i t es)).
  { split; [by apply accum_start|done]. }
  intros q e [s' t'] He [Hs' ->]. eapply returns_mono; [apply (x2_outer_spec (a_m s) q e _ s' _ He Hs')|].
  - apply (columns_app_le _ (drop (S q) (row X i) ≫= λ e, prod_entry e.2 <$> row X e.1)).
    unfold product in Hms. fold prod_entry in Hms.
    rewrite <-(take_drop_middle (row X i) q e He), bind_app, bind_cons, app_assoc in Hms. exact Hms.
  - intros [s2 t2] [H2 ->]. rewrite bind_app. csimpl. rewrite app_nil_r. split; [done|].
    unfold trace_row. by rewrite foldl_app.
Qed.

Lemma x2_row_spec s t t2 :
  clean h s → valid h ms (a_m s) → Z.of_nat (length (columns (product X i))) ≤ ms →
  returns (x2_row eps X i (s, t, t2)) (λ '(s', t', t2'),
    clean h s' ∧ valid h ms (a_m s') ∧
    (∀ i', 0 ≤ i' < h → row (a_m s') i' = if decide (i' = i) then row_x2 eps X i else row (a_m s) i') ∧
    t' = trace_row i t (row X i) ∧ t2' = trace_row i t2 (row_x2 eps X i)).
Proof.
  intros Hc Hv Hms. unfold x2_row. rewrite (read_nnz _ _ _ _ HX Hi). csimpl.
  eapply returns_bind; [apply x2_accumulate; [done|apply Hv|done]|]. intros [s1 t1] [H1 ->].
  rewrite (ac_l _ _ _ _ _ _ H1). set (L := product X i) in *. set (keep := λ k v, (k =? i) || above eps v).
  eapply returns_bind.
  { apply (for_entries (λ ks '(s', t'), compacting h ms i L keep (a_m s) ks ks s' ∧ t' = trace_row i t2 (kept_of keep L ks))).
    { split; [|done]. apply (compact_start _ _ _ (a_m s)); [done|done|apply H1]. }
    intros q k [s' t'] Hk [Hs' ->]. apply lookup_lt_Some in Hk as Hq.
    assert (length (take q (columns L)) = q) as Hlen by (rewrite length_take; lia).
    eapply returns_mono; [rewrite <-Hlen at 1; eapply x2_compact_spec; rewrite ?Hlen; try done|].
    - apply product_cols.
    - by apply take_fresh.
    - intros [s2 t'] [H2 ->]. split; [done|]. unfold keep. rewrite <-!trace_kept, foldl_app. done. }
  intros [s2 t'] [H2 ->]. destruct (compact_end _ _ _ Hi _ _ _ _ H2 Hms) as [Hc2 Hset].
  eapply returns_bind; [exact Hset|]. intros m' (Hm' & Hsame & Hrow). csimpl.
  assert (Z.of_nat (length (kept_entries keep L)) ≤ ms) as Hlen by (pose proof (kept_of_length L keep (columns L)); unfold kept_entries; lia).
  destruct (row_replaced h ms i (a_m s) m' (kept_entries keep L)) as [Hvalid Hrows]; try done.
  { intros e He. by apply product_cols, (kept_cols keep). }
Qed.
End x2.

Lemma trace_rows_snoc R lo hi : lo ≤ hi → trace_rows R lo (hi + 1) = trace_row hi (trace_rows R lo hi) (R hi).
Proof.
  intros Hle. unfold trace_rows. replace (hi + 1 - lo) with ((hi - lo) + 1) by lia.
  rewrite seqZ_app by lia. replace (lo + (hi - lo)) with hi by lia. rewrite foldl_app.
  rewrite (seqZ_cons hi), (seqZ_nil (Z.succ hi)) by lia. done.
Qed.

Lemma clean_start h : 0 ≤ h → ∀ m, clean h (mkAcc (replicate (Z.to_nat h) 0) (replicate (Z.to_nat h) fzero) m 0).
Proof.
  intros Hh m. split; simpl; [rewrite length_replicate; lia|split; [rewrite length_replicate; lia|]].
  intros k Hk. apply lookup_replicate. split; [done|lia].
Qed.

(** ** Adding a row *)
Section adding.
Variables (eps : real_t) (h ms : Z) (X2 : SparseMatrix).
Hypothesis HX2 : valid h ms X2.
Variables (i : Z) (m0 : SparseMatrix).
Hypothesis Hi : 0 ≤ i < h.
Hypothesis Hm0 : valid h ms m0.

Definition twice (e : Z * real_t) : contribution := (e.1, λ v, (v + ftwo * e.2)%R).
Definition minus (e : Z * real_t) : contribution := (e.1, λ v, (v - e.2)%R).

(** The row is read behind the columns already listed in it. *)
Lemma add_first_spec q e s :
  row m0 i !! q = Some e → accum h ms i m0 (twice <$> take q (row m0 i)) s →
  Z.of_nat (length (columns (twice <$> take q (row m0 i) ++ [e]))) ≤ ms →
  returns (add_first i (Z.of_nat q) s) (accum h ms i m0 (twice <$> take q (row m0 i) ++ [e])).
Proof.
  intros He Hs Hms. destruct (valid_row _ _ _ _ Hm0 Hi) as [[_ Hc] Hl]. destruct (Hc q e He) as [HJ HV].
  destruct (read_entry _ _ _ _ _ _ Hm0 Hi He) as (_ & _ & Hr). apply lookup_lt_Some in He as Hq.
  assert (slot_ok h ms i (Z.of_nat q)) as Hp by (split; lia).
  rewrite fmap_app in *. csimpl in *.
  assert (a_l s ≤ Z.of_nat q).
  { rewrite (ac_l _ _ _ _ _ _ Hs). apply inj_le. etrans; [apply columns_length|]. rewrite length_fmap, length_take. lia. }
  unfold add_first. rewrite (jja_Ok h ms _ _ _ e.1 (ac_sized _ _ _ _ _ _ Hs) Hp) by (rewrite (ac_rest _ _ _ _ _ _ Hs) by lia; done).
  csimpl. eapply returns_bind.
  { apply (mark_spec _ _ _ _ Hi _ _ _ Hs Hr). eapply (columns_part _ _ _ []). by rewrite app_nil_r. }
  intros s1 Hs1. rewrite (val_Ok h ms _ _ _ e.2 (ac_sized _ _ _ _ _ _ Hs1) Hp) by (rewrite (ac_V _ _ _ _ _ _ Hs1) by lia; done).
  csimpl. by apply accumulate_spec.
Qed.

Lemma add_second_spec q e L s :
  row X2 i !! q = Some e → accum h ms i m0 L s → Z.of_nat (length (columns (L ++ [minus e]))) ≤ ms →
  returns (add_second X2 i (Z.of_nat q) s) (accum h ms i m0 (L ++ [minus e])).
Proof.
  intros He Hs Hms. destruct (read_entry _ _ _ _ _ _ HX2 Hi He) as (H1 & H2 & H3).
  unfold add_second. rewrite H1. csimpl. eapply returns_bind.
  { apply (mark_spec _ _ _ _ Hi _ _ _ Hs H3). eapply (columns_part _ _ _ []). by rewrite app_nil_r. }
  intros s1 Hs1. rewrite H2. csimpl. by apply accumulate_spec.
Qed.

Lemma add_compact_spec m1 L kc k s :
  compacting h ms i L (λ _ v, above eps v) m1 kc kc s → columns L !! length kc = Some k →
  (∀ k, k ∈ columns L → 0 ≤ k < h) → Z.of_nat (length (columns L)) ≤ ms → k ∉ kc →
  returns (add_compact eps i (Z.of_nat (length kc)) s) (compacting h ms i L (λ _ v, above eps v) m1 (kc ++ [k]) (kc ++ [k])).
Proof.
  intros Hc Hk Hr Hms Hn. destruct (compact_column _ _ _ Hi _ _ _ _ _ _ Hc Hk Hr Hms Hn) as (H1 & H2 & H3).
  unfold add_compact. rewrite H1. csimpl. rewrite H2. csimpl.
  eapply returns_bind; [exact H3|]. intros s1 [H4 H5]. by rewrite H4.
Qed.

Lemma difference_cols k : k ∈ columns (difference m0 X2 i) → 0 ≤ k < h.
Proof.
  intros (c & Hc & <-)%elem_of_columns. unfold difference in Hc.
  apply elem_of_app in Hc as [Hc|Hc]; apply list_elem_of_fmap in Hc as (e & -> & He); simpl.
  - destruct Hm0 as [_ Hr]. by apply (Hr i Hi).
  - destruct HX2 as [_ Hr]. by apply (Hr i Hi).
Qed.

Lemma add_accumulate s :
  clean h s → a_m s = m0 → Z.of_nat (length (columns (difference m0 X2 i))) ≤ ms →
  returns (s ← for_range 0 (Z.of_nat (length (row m0 i))) (add_first i) (mkAcc (a_ix s) (a_x s) (a_m s) 0);
           for_range 0 (Z.of_nat (length (row X2 i))) (add_second X2 i) s)
    (accum h ms i m0 (difference m0 X2 i)).
Proof.
  intros Hc Hs Hms. unfold difference in *. fold twice minus in *. eapply returns_bind.
  { apply (for_entries (λ es, accum h ms i m0 (twice <$> es))).
    - apply accum_start; [done|apply Hm0|done].
    - intros q e s' He Hs'. apply add_first_spec; [done|done|].
      rewrite fmap_app. apply (entries_fit []); [done|]. by eapply columns_app_le. }
  intros s1 H1. apply (for_entries (λ es, accum h ms i m0 ((twice <$> row m0 i) ++ (minus <$> es)))).
  - by rewrite app_nil_r.
  - intros q e s' He Hs'. rewrite fmap_app, app_assoc. apply add_second_spec; [done|done|].
    by apply entries_fit.
Qed.

Lemma add_row_spec s :
  clean h s → a_m s = m0 → Z.of_nat (length (columns (difference m0 X2 i))) ≤ ms →
  returns (add_row eps X2 i s) (λ s', clean h s' ∧ valid h ms (a_m s') ∧
    (∀ i', 0 ≤ i' < h → row (a_m s') i' = if decide (i' = i) then row_add eps m0 X2 i else row m0 i')).
Proof.
  intros Hc Hs Hms. unfold add_row. rewrite (f_equal (λ m, nnz m i) Hs), (read_nnz _ _ _ _ Hm0 Hi). csimpl.
  pose proof (add_accumulate s Hc Hs Hms) as Hacc. apply returns_Ok in Hacc as (s2 & (s1 & -> & Hs2)%bind_Ok & H2).
  csimpl. rewrite (read_nnz _ _ _ _ HX2 Hi). csimpl. rewrite Hs2. csimpl.
  set (L := difference m0 X2 i) in *. set (keep := λ (_ : Z) v, above eps v).
  eapply returns_bind; [apply (set_nnz_Ok h ms); [apply H2|done]|]. intros m [U1 U2 U3 U4].
  assert (same_rows h ms i m0 m) as Hsame.
  { eapply same_rows_trans; [apply (ac_rows _ _ _ _ _ _ H2)|]. intros i' Hi' Hne. split; [|rewrite U4 by done; by rewrite decide_False].
    intros q Hq. by rewrite U2, U3 by (split; lia). }
  rewrite (ac_l _ _ _ _ _ _ H2). eapply returns_bind.
  { apply (for_entries (λ ks s', compacting h ms i L keep m0 ks ks s')).
    - split; simpl; try apply H2; try done.
      + intros k Hk. rewrite (ac_marks _ _ _ _ _ _ H2) by done. do 2 case_decide; set_solver.
      + intros k Hk _. by apply (ac_sums _ _ _ _ _ _ H2).
      + intros q k Hk _. apply lookup_lt_Some in Hk as Hq. rewrite U2 by (split; lia). by apply (ac_listed _ _ _ _ _ _ H2).
    - intros q k s' Hk Hs'. apply lookup_lt_Some in Hk as Hq.
      assert (length (take q (columns L)) = q) as Hlen by (rewrite length_take; lia).
      rewrite <-Hlen at 1. eapply add_compact_spec; rewrite ?Hlen; try done.
      + apply difference_cols.
      + by apply (take_fresh L q k). }
  intros s3 H3. destruct (compact_end _ _ _ Hi _ _ _ _ H3 Hms) as [Hc3 Hset].
  eapply returns_bind; [exact Hset|]. intros m' (Hm' & Hsame' & Hrow). csimpl. split; [done|].
  apply (row_replaced h ms i m0 m'); try done.
  - pose proof (kept_of_length L keep (columns L)). unfold row_add, kept_entries. fold L. fold keep. lia.
  - intros e He. by apply difference_cols, (kept_cols keep).
Qed.
End adding.

(** ** Copying and scaling a row *)
Section copying.
Variables (eps : real_t) (h ms : Z) (X2 : SparseMatrix).
Hypothesis HX2 : valid h ms X2.
Variables (i : Z) (m0 : SparseMatrix).
Hypothesis Hi : 0 ≤ i < h.
Hypothesis Hm0 : valid h ms m0.

(** The row has the entries [es] at its start. *)
Definition starts (es : list (Z * real_t)) (m : SparseMatrix) : Prop :=
  sized h ms m ∧ same_rows h ms i m0 m ∧
  ∀ q e, es !! q = Some e → cellJ m i (Z.of_nat q) = Some e.1 ∧ cellV m i (Z.of_nat q) = Some e.2.

Lemma starts_snoc es e m :
  starts es m → Z.of_nat (length es) < ms →
  returns (m ← set_val i (Z.of_nat (length es)) e.2 m; set_jja i (Z.of_nat (length es)) e.1 m) (starts (es ++ [e])).
Proof.
  intros (Hs & Hsame & Hes) Hlt. assert (slot_ok h ms i (Z.of_nat (length es))) as Hp by (split; lia).
  eapply returns_bind; [by apply (set_val_Ok h ms)|]. intros m2 [U1 U2 U3 U4].
  eapply returns_mono; [by apply (set_jja_Ok h ms)|]. intros m3 [W1 W2 W3 W4]. split; [done|split].
  - eapply same_rows_trans; [exact Hsame|]. intros i' Hi' Hne. split; [|rewrite W4, U4 by done; done].
    intros q Hq. rewrite W2, W3, U2, U3 by (split; lia). rewrite !decide_False by naive_solver. done.
  - intros q e' He'. apply lookup_lt_Some in He' as Hq. rewrite length_app in Hq. simpl in Hq.
    rewrite W2, W3, U2, U3 by (split; lia). destruct (decide (q = length es)) as [->|Hne].
    + rewrite list_lookup_middle in He' by done. injection He' as <-. by rewrite !decide_True.
    + rewrite lookup_app_l in He' by lia. rewrite !decide_False by lia. by apply Hes.
Qed.

Lemma starts_end es m :
  starts es m → Z.of_nat (length es) ≤ ms → (∀ e, e ∈ es → 0 ≤ e.1 < h) →
  returns (set_nnz i (Z.of_nat (length es)) m) (λ m', valid h ms m' ∧
    ∀ i', 0 ≤ i' < h → row m' i' = if decide (i' = i) then es else row m0 i').
Proof.
  intros (Hs & Hsame & Hes) Hlen Hc. eapply returns_mono; [by apply (set_nnz_Ok h ms)|]. intros m' [U1 U2 U3 U4].
  apply (row_replaced h ms i m0); try done.
  - eapply same_rows_trans; [exact Hsame|]. intros i' Hi' Hne. split; [|rewrite U4 by done; by rewrite decide_False].
    intros q Hq. by rewrite U2, U3 by (split; lia).
  - split; [rewrite U4 by lia; by rewrite decide_True|].
    intros q e He. apply lookup_lt_Some in He as Hq. rewrite U2, U3 by (split; lia). by apply Hes.
Qed.

Lemma filter_prefix_length {A} (P : A → Prop) `{∀ x, Decision (P x)} (q : nat) (l : list A) :
  (length (filter P (take q l)) ≤ q)%nat.
Proof. etrans; [apply length_filter|]. rewrite length_take. lia. Qed.

Lemma set_row_spec :
  returns (set_row eps X2 i m0) (λ m', valid h ms m' ∧
    ∀ i', 0 ≤ i' < h → row m' i' = if decide (i' = i) then row_set eps X2 i else row m0 i').
Proof.
  unfold set_row. rewrite (read_nnz _ _ _ _ HX2 Hi). csimpl. destruct (valid_row _ _ _ _ HX2 Hi) as [_ Hlen].
  eapply returns_bind.
  { apply (for_entries (λ es '(m, ll), starts (filter (λ e, above eps e.2 = true) es) m ∧
      ll = Z.of_nat (length (filter (λ e, above eps e.2 = true) es)))); [by split; [split; [apply Hm0|]|]|].
    intros q e [m ll] He [Hm ->]. destruct (read_entry _ _ _ _ _ _ HX2 Hi He) as (H1 & H2 & H3). apply lookup_lt_Some in He as Hq.
    unfold set_entry. rewrite H2. csimpl. rewrite filter_app, filter_cons, filter_nil. destruct (above eps e.2) eqn:Ha; csimpl.
    - rewrite length_app. simpl.
      pose proof (filter_prefix_length (λ e, above eps e.2 = true) q (row X2 i)).
      pose proof (starts_snoc _ e m Hm ltac:(lia)) as Hs. apply returns_Ok in Hs as (m3 & (m2 & Hm2 & Hm3)%bind_Ok & Hs).
      rewrite Hm2. csimpl. rewrite H1. csimpl. rewrite Hm3. csimpl. split; [done|lia].
    - by rewrite app_nil_r. }
  intros [m ll] [Hm ->]. apply starts_end; [done|..].
  - etrans; [apply inj_le, length_filter|exact Hlen].
  - intros e [_ He]%list_elem_of_filter. destruct HX2 as [_ Hr]. by apply (Hr i Hi).
Qed.
End copying.

Lemma scale_row_spec scalar h ms i m0 :
  0 ≤ i < h → valid h ms m0 →
  returns (scale_row scalar i m0) (λ m', valid h ms m' ∧
    ∀ i', 0 ≤ i' < h → row m' i' = if decide (i' = i) then row_scale scalar m0 i else row m0 i').
Proof.
  intros Hi Hv. unfold scale_row. rewrite (read_nnz _ _ _ _ Hv Hi). csimpl.
  eapply returns_mono; [apply (map_row_spec (λ e, (e.2 * scalar)%R) h ms i m0); try done|].
  - intros j m e Hj He _ HV _. rewrite HV. done.
  - by intros m' (H1 & H2 & _).
Qed.

(** X^2. *)
Lemma sparseX2_spec eps h ms X X2 d :
  valid h ms X → valid h ms X2 → 0 ≤ localRowMin d → localRowMin d ≤ localRowMax d → localRowMax d ≤ h →
  (∀ i, localRowMin d ≤ i < localRowMax d → Z.of_nat (length (columns (product X i))) ≤ ms) →
  returns (sparseX2 eps X X2 d) (λ '(trX, trX2, X2'),
    trX = trace_rows (row X) (localRowMin d) (localRowMax d) ∧
    trX2 = trace_rows (row_x2 eps X) (localRowMin d) (localRowMax d) ∧
    valid h ms X2' ∧
    ∀ i, 0 ≤ i < h → row X2' i = if decide (localRowMin d ≤ i < localRowMax d) then row_x2 eps X i else row X2 i).
Proof.
  intros HX HX2 H0 Hle Hh Hfit. unfold sparseX2. pose proof (sz_pos _ _ _ (proj1 HX)) as Hpos.
  rewrite (sz_h _ _ _ (proj1 HX)). eapply returns_bind.
  { apply (rows_loop (λ st, a_m st.1.1) (row_x2 eps X)
      (λ i '(s, t, t2), clean h s ∧ t = trace_rows (row X) (localRowMin d) i ∧ t2 = trace_rows (row_x2 eps X) (localRowMin d) i) h ms);
      try done.
    - split; [apply clean_start; lia|]. unfold trace_rows. by rewrite Z.sub_diag.
    - intros i [[s t] t2] Hi (Hs & -> & ->) Hv _. simpl in *.
      eapply returns_mono; [apply (x2_row_spec eps h ms X HX i); [lia|done|done|by apply Hfit]|].
      intros [[s' t'] t2'] (H1 & H2 & H3 & -> & ->). rewrite !trace_rows_snoc by lia. done. }
  intros [[s t] t2] [(_ & -> & ->) [H2 H3]]. done.
Qed.

(** 2X - X^2. *)
Lemma sparseAdd_spec eps h ms X X2 d :
  valid h ms X → valid h ms X2 → 0 ≤ localRowMin d → localRowMin d ≤ localRowMax d → localRowMax d ≤ h →
  (∀ i, localRowMin d ≤ i < localRowMax d → Z.of_nat (length (columns (difference X X2 i))) ≤ ms) →
  returns (sparseAdd eps X X2 d) (λ X', valid h ms X' ∧
    ∀ i, 0 ≤ i < h → row X' i = if decide (localRowMin d ≤ i < localRowMax d) then row_add eps X X2 i else row X i).
Proof.
  intros HX HX2 H0 Hle Hh Hfit. unfold sparseAdd. pose proof (sz_pos _ _ _ (proj1 HX)) as Hpos.
  rewrite (sz_h _ _ _ (proj1 HX)). eapply returns_bind.
  { apply (rows_loop a_m (row_add eps X X2) (λ _, clean h) h ms); try done.
    - apply clean_start. lia.
    - intros i s Hi Hs Hv Hrow. simpl in Hrow.
      assert (difference (a_m s) X2 i = difference X X2 i) as Hd by (unfold difference; by rewrite Hrow).
      eapply returns_mono; [apply (add_row_spec eps h ms X2 HX2 i (a_m s)); [lia|done|done|done|rewrite Hd; by apply Hfit]|].
      intros s' (H1 & H2 & H3). unfold row_add in *. by rewrite Hd in H3. }
  intros s (_ & H2 & H3). done.
Qed.

(** X = X^2: the entries of X^2 above the threshold. *)
Lemma sparseSetX2_rows eps h ms X X2 d :
  valid h ms X → valid h ms X2 → 0 ≤ localRowMin d → localRowMin d ≤ localRowMax d → localRowMax d ≤ h →
  returns (sparseSetX2 eps X X2 d) (λ X', valid h ms X' ∧
    ∀ i, 0 ≤ i < h → row X' i = if decide (localRowMin d ≤ i < localRowMax d) then row_set eps X2 i else row X i).
Proof.
  intros HX HX2 H0 Hle Hh. eapply returns_mono; [apply (rows_loop id (row_set eps X2) (λ _ _, True) h ms); try done|].
  - intros i s Hi _ Hv _. eapply returns_mono; [apply (set_row_spec eps h ms); try done; lia|]. done.
  - by intros X' [_ HX'].
Qed.

Lemma sparseMultScalar_rows scalar h ms X d :
  valid h ms X → 0 ≤ localRowMin d → localRowMin d ≤ localRowMax d → localRowMax d ≤ h →
  returns (sparseMultScalar X d scalar) (λ X', valid h ms X' ∧
    ∀ i, 0 ≤ i < h → row X' i = if decide (localRowMin d ≤ i < localRowMax d) then row_scale scalar X i else row X i).
Proof.
  intros HX H0 Hle Hh. eapply returns_mono; [apply (rows_loop id (row_scale scalar X) (λ _ _, True) h ms); try done|].
  - intros i s Hi _ Hv Hrow. eapply returns_mono; [apply (scale_row_spec scalar h ms); try done; lia|].
    unfold row_scale. simpl in Hrow. by rewrite Hrow.
  - by intros X' [_ HX'].
Qed.

(** ** The entries of a computed row *)

Lemma kept_NoDup keep L : NoDup (kept_entries keep L).*1.
Proof.
  unfold kept_entries, kept_of. apply (sublist_NoDup _ (columns L)); [apply columns_NoDup|].
  rewrite <-(list_fmap_id (columns L)) at 2. rewrite (list_fmap_ext id (fst ∘ (λ k, (k, sum_of k L)))) by done.
  rewrite list_fmap_compose. apply fmap_sublist, sublist_filter.
Qed.

Lemma elem_of_kept keep L k v :
  (k, v) ∈ kept_entries keep L ↔ k ∈ columns L ∧ v = sum_of k L ∧ keep k v = true.
Proof.
  unfold kept_entries, kept_of. rewrite list_elem_of_filter, list_elem_of_fmap. simpl. split.
  - intros (Hk & k' & [= -> ->] & Hin). done.
  - intros (Hin & -> & Hk). split; [done|]. by exists k.
Qed.

(** In a matrix with a place for every column every row fits. *)
Lemma columns_fit h L : (∀ k, k ∈ columns L → 0 ≤ k < h) → 0 ≤ h → Z.of_nat (length (columns L)) ≤ h.
Proof.
  intros Hr Hh. assert (columns L ⊆+ seqZ 0 h) as Hsub%submseteq_length.
  { apply NoDup_submseteq; [apply columns_NoDup|]. intros k Hk. apply elem_of_seqZ. specialize (Hr k Hk). lia. }
  rewrite length_seqZ in Hsub. lia.
Qed.

(** C29: X^2 with the threshold, for matrices whose squared rows fit in their places: [sparseX2] returns; in each of the task's rows the result has the columns met by the product, each once and in the order of the loops, with the sum of its products in that order, without the off-diagonal entries at or below the threshold; the other rows are as before, and the two traces are the sums of the diagonals of X and of the result over the task's rows. *)
Theorem sparseX2_correct eps h ms X X2 d :
  valid h ms X → valid h ms X2 → 0 ≤ localRowMin d → localRowMin d ≤ localRowMax d → localRowMax d ≤ h →
  (∀ i, localRowMin d ≤ i < localRowMax d → Z.of_nat (length (columns (product X i))) ≤ ms) →
  returns (sparseX2 eps X X2 d) (λ '(trX, trX2, X2'),
    trX = trace_rows (row X) (localRowMin d) (localRowMax d) ∧
    trX2 = trace_rows (row X2') (localRowMin d) (localRowMax d) ∧
    valid h ms X2' ∧
    ∀ i, 0 ≤ i < h →
      if decide (localRowMin d ≤ i < localRowMax d) then
        row X2' i = row_x2 eps X i ∧ NoDup (row X2' i).*1 ∧
        ∀ k v, (k, v) ∈ row X2' i ↔ k ∈ columns (product X i) ∧ v = sum_of k (product X i) ∧ (k = i ∨ fltb eps (fabs v) = true)
      else row X2' i = row X2 i).
Proof.
  intros HX HX2 H0 Hle Hh Hfit. eapply returns_mono; [by apply (sparseX2_spec eps h ms)|].
  intros [[t t2] X2'] (-> & -> & Hv & Hrows). split; [done|split; [|split; [done|]]].
  - unfold trace_rows. apply foldl_ext_in. intros i t Hi%elem_of_seqZ. rewrite Hrows by lia. by rewrite decide_True by lia.
  - intros i Hi. specialize (Hrows i Hi). case_decide; [|done]. rewrite Hrows. split; [done|]. unfold row_x2.
    split; [apply kept_NoDup|]. intros k v. rewrite elem_of_kept, orb_true_iff, Z.eqb_eq. done.
Qed.

Lemma sparseX2_correct_witness :
  returns (sparseX2 (flit 1 100000) small_matrix small_matrix small_domain) (λ '(trX, trX2, X2'),
    trX = trace_rows (row small_matrix) 0 2 ∧ trX2 = trace_rows (row X2') 0 2 ∧ valid 2 2 X2' ∧
    ∀ i, 0 ≤ i < 2 →
      if decide (0 ≤ i < 2) then
        row X2' i = row_x2 (flit 1 100000) small_matrix i ∧ NoDup (row X2' i).*1 ∧
        ∀ k v, (k, v) ∈ row X2' i ↔ k ∈ columns (product small_matrix i) ∧ v = sum_of k (product small_matrix i) ∧
          (k = i ∨ fltb (flit 1 100000) (fabs v) = true)
      else row X2' i = row small_matrix i).
Proof.
  apply (sparseX2_correct _ 2 2 small_matrix small_matrix small_domain); [exact small_valid|exact small_valid|done|done|done|].
  intros i Hi. assert (i = 0 ∨ i = 1) as [-> | ->] by (simpl in Hi; lia); by vm_compute.
Defined.

(** C30: 2X - X^2, in place, for matrices where the columns of a row of X and of the same row of X^2 together fit in the places of a row (at most [msize] different columns; otherwise the list of columns runs into the next row): [sparseAdd] returns and replaces each of the task's rows of X by the columns of its row and of the row of X^2, each once and in the order met, with twice the one minus the other, without those at or below the threshold; the other rows stay.  The columns are listed in the row that is still being read. *)
Theorem sparseAdd_correct eps h ms X X2 d :
  valid h ms X → valid h ms X2 → 0 ≤ localRowMin d → localRowMin d ≤ localRowMax d → localRowMax d ≤ h →
  (∀ i, localRowMin d ≤ i < localRowMax d → Z.of_nat (length (columns (difference X X2 i))) ≤ ms) →
  returns (sparseAdd eps X X2 d) (λ X', valid h ms X' ∧
    ∀ i, 0 ≤ i < h →
      if decide (localRowMin d ≤ i < localRowMax d) then
        row X' i = row_add eps X X2 i ∧ NoDup (row X' i).*1 ∧
        ∀ k v, (k, v) ∈ row X' i ↔ k ∈ columns (difference X X2 i) ∧ v = sum_of k (difference X X2 i) ∧ fltb eps (fabs v) = true
      else row X' i = row X i).
Proof.
  intros HX HX2 H0 Hle Hh Hfit. eapply returns_mono; [by apply (sparseAdd_spec eps h ms)|].
  intros X' [Hv Hrows]. split; [done|]. intros i Hi. specialize (Hrows i Hi). case_decide; [|done]. rewrite Hrows.
  split; [done|]. unfold row_add. split; [apply kept_NoDup|]. intros k v. by rewrite elem_of_kept.
Qed.

Lemma sparseAdd_correct_witness :
  returns (sparseAdd (flit 1 100000) small_matrix small_matrix small_domain) (λ X', valid 2 2 X' ∧
    ∀ i, 0 ≤ i < 2 →
      if decide (0 ≤ i < 2) then
        row X' i = row_add (flit 1 100000) small_matrix small_matrix i ∧ NoDup (row X' i).*1 ∧
        ∀ k v, (k, v) ∈ row X' i ↔ k ∈ columns (difference small_matrix small_matrix i) ∧
          v = sum_of k (difference small_matrix small_matrix i) ∧ fltb (flit 1 100000) (fabs v) = true
      else row X' i = row small_matrix i).
Proof.
  apply (sparseAdd_correct _ 2 2 small_matrix small_matrix small_domain); [exact small_valid|exact small_valid|done|done|done|].
  intros i Hi. assert (i = 0 ∨ i = 1) as [-> | ->] by (simpl in Hi; lia); by vm_compute.
Defined.
