(* ===== verification/SparseHalo.v ===== *)
(** * CoSP2: the halo exchange (haloExchange.c)

    A task that has a column of another task's rows in its own rows has that task
    in its halo.  Tasks send each other their rows, as a list of entries with
    their row; what a task receives replaces the rows it names.  A request for a
    message is not in the model: the messages that arrive are an argument. *)

From Stdlib Require Import ZArith Lia.
From stdpp Require Import base list numbers sets.
From S2P Require Import Prelude Float64 SparseMatrix.

#[local] Open Scope Z_scope.

(** ** Data *)

Record NonZeroMsg := mkMsg { irow : Z; icol : Z; mval : real_t }.
#[export] Instance NonZeroMsg_inhabited : Inhabited NonZeroMsg := populate (mkMsg 0 0 fzero).
Definition sizeof_NonZeroMsg : Z := 16.

(** The buffers are arrays of messages. *)
Record HaloExchangeSt := mkHalo {
  maxHalo : Z; bufferSize : Z; haloCount : Z;
  haloProc : list Z; sendBuf : list NonZeroMsg; recvBuf : list (list NonZeroMsg);
}.

(** A [size_t] stored into an [int]. *)
Definition to_int (z : Z) : Z := (z + 2147483648) mod 4294967296 - 2147483648.

Definition initHaloExchange (nRanks : Z) (d : DomainSt) : res HaloExchangeSt :=
  n ← int32 (localRowExtent d * totalCols d);
  let size := to_int (n * sizeof_NonZeroMsg) in
  let buf := replicate (Z.to_nat (size / sizeof_NonZeroMsg)) (mkMsg 0 0 fzero) in
  Ok (mkHalo (totalProcs d) size 0 (replicate (Z.to_nat (totalProcs d)) 0) buf (replicate (Z.to_nat nRanks) buf)).

Definition with_count (n : Z) (hh : HaloExchangeSt) : HaloExchangeSt :=
  mkHalo (maxHalo hh) (bufferSize hh) n (haloProc hh) (sendBuf hh) (recvBuf hh).
Definition with_procs (n : Z) (a : list Z) (hh : HaloExchangeSt) : HaloExchangeSt :=
  mkHalo (maxHalo hh) (bufferSize hh) n a (sendBuf hh) (recvBuf hh).
Definition with_send (b : list NonZeroMsg) (hh : HaloExchangeSt) : HaloExchangeSt :=
  mkHalo (maxHalo hh) (bufferSize hh) (haloCount hh) (haloProc hh) b (recvBuf hh).

(** ** The tasks of the halo *)

(** The loop returns at the first occurrence. *)
Definition isHaloProc (hh : HaloExchangeSt) (rproc : Z) : res bool :=
  for_range 0 (haloCount hh) (λ i (found : bool),
    if found then Ok true else p ← aload (haloProc hh) i; Ok (p =? rproc)) false.

Definition addHaloProc (rproc : Z) (hh : HaloExchangeSt) : res HaloExchangeSt :=
  if haloCount hh =? 0 then
    a ← astore (haloProc hh) 0 rproc;
    Ok (with_procs 1 a hh)
  else
    found ← isHaloProc hh rproc;
    if (found : bool) then Ok hh
    else
      a ← astore (haloProc hh) (haloCount hh) rproc;
      Ok (with_procs (haloCount hh + 1) a hh).

Definition halo_entry (X : SparseMatrix) (d : DomainSt) (i j : Z) (hh : HaloExchangeSt) : res HaloExchangeSt :=
  rnum ← jja X i j;
  if (rnum <? localRowMin d) || (localRowMax d <=? rnum) then
    rowProc ← processorNum d rnum;
    addHaloProc rowProc hh
  else Ok hh.

Definition updateData (hh : HaloExchangeSt) (X : SparseMatrix) (d : DomainSt) : res HaloExchangeSt :=
  for_range (localRowMin d) (localRowMax d) (λ i hh, n ← nnz X i; for_range 0 n (halo_entry X d i) hh) (with_count 0 hh).

(** ** Buffers *)

Definition load_entry (X : SparseMatrix) (i j : Z) (st : list NonZeroMsg * Z) : res (list NonZeroMsg * Z) :=
  let '(buf, nBuf) := st in
  c ← jja X i j;
  v ← val X i j;
  buf ← astore buf nBuf (mkMsg i c v);
  Ok (buf, nBuf + 1).

(** The buffer, and the bytes of the entries in it. *)
Definition loadBuffer (buf : list NonZeroMsg) (X : SparseMatrix) (d : DomainSt) : res (list NonZeroMsg * Z) :=
  '(buf, nBuf) ← for_range (localRowMin d) (localRowMax d) (λ i st, n ← nnz X i; for_range 0 n (load_entry X i) st) (buf, 0);
  Ok (buf, nBuf * sizeof_NonZeroMsg).

Definition unload_entry (e : NonZeroMsg) (st : SparseMatrix * Z * Z) : res (SparseMatrix * Z * Z) :=
  let '(X, rcurrent, j) := st in
  let r := irow e in
  '(X, rcurrent, j) ←
    (if r =? rcurrent then Ok (X, rcurrent, j) else X ← set_nnz r 0 X; Ok (X, r, 0));
  n ← nnz X r;
  X ← set_nnz r (n + 1) X;
  X ← set_jja r j (icol e) X;
  X ← set_val r j (mval e) X;
  Ok (X, rcurrent, j + 1).

Definition unloadBuffer (buf : list NonZeroMsg) (bufSize : Z) (X : SparseMatrix) : res SparseMatrix :=
  nBuf ← cdiv bufSize sizeof_NonZeroMsg;
  r ← crem bufSize sizeof_NonZeroMsg;
  cassert (r =? 0);;
  '(X, _, _) ← for_range 0 nBuf (λ i st, e ← aload buf i; unload_entry e st) (X, -1, 0);
  Ok X.

(** ** Exchanges *)

Definition message : Type := list NonZeroMsg * Z.

(** What is sent, with its destination. *)
Definition exchange_sends (hh : HaloExchangeSt) (X : SparseMatrix) (d : DomainSt) : res (HaloExchangeSt * list (Z * message)) :=
  '(buf, len) ← loadBuffer (sendBuf hh) X d;
  sends ← for_range 0 (haloCount hh) (λ i out, p ← aload (haloProc hh) i; Ok (out ++ [(p, (buf, len))])) [];
  Ok (with_send buf hh, sends).

(** What the receives get, in the order they complete. *)
Definition exchange_receives (n : Z) (X : SparseMatrix) (received : list message) : res SparseMatrix :=
  for_range 0 n (λ i X, '(b, n) ← aload received i; unloadBuffer b n X) X.

Definition exchangeData (hh : HaloExchangeSt) (X : SparseMatrix) (d : DomainSt) (received : list message)
    : res (HaloExchangeSt * SparseMatrix * list (Z * message)) :=
  if 0 <? haloCount hh then
    '(hh', sends) ← exchange_sends hh X d;
    X ← exchange_receives (haloCount hh) X received;
    Ok (hh', X, sends)
  else Ok (hh, X, []).

(** The tasks that were not in the halo exchange their rows at the end. *)
Definition allGatherData (nRanks myRank : Z) (hh : HaloExchangeSt) (X : SparseMatrix) (d : DomainSt) (received : list message)
    : res (HaloExchangeSt * SparseMatrix * list (Z * message)) :=
  ir ← for_range 0 nRanks (λ i ir,
    if i =? myRank then Ok ir else found ← isHaloProc hh i; Ok (if (found : bool) then ir else ir + 1)) 0;
  '(buf, len) ← loadBuffer (sendBuf hh) X d;
  sends ← for_range 0 nRanks (λ i out,
    if i =? myRank then Ok out else found ← isHaloProc hh i; Ok (if (found : bool) then out else out ++ [(i, (buf, len))])) [];
  X ← exchange_receives ir X received;
  Ok (with_send buf hh, X, sends).

Definition gatherData (nRanks myRank : Z) (hh : HaloExchangeSt) (X : SparseMatrix) (d : DomainSt) (received : list message)
    : res (HaloExchangeSt * SparseMatrix * list (Z * message)) :=
  if myRank =? 0 then
    ir ← for_range 1 nRanks (λ i ir, found ← isHaloProc hh i; Ok (if (found : bool) then ir else ir + 1)) 0;
    X ← exchange_receives ir X received;
    Ok (hh, X, [])
  else
    found ← isHaloProc hh 0;
    if (found : bool) then Ok (hh, X, [])
    else
      '(buf, len) ← loadBuffer (sendBuf hh) X d;
      Ok (with_send buf hh, X, [(0, (buf, len))]).

(** ** The rows in a message *)

Definition row_msgs (X : SparseMatrix) (i : Z) : list NonZeroMsg := (λ e, mkMsg i e.1 e.2) <$> row X i.
Definition rows_msgs (X : SparseMatrix) (lo hi : Z) : list NonZeroMsg := seqZ lo (hi - lo) ≫= row_msgs X.

(** A row after a message: a row without entries is not in it. *)
Definition received_row (X Y : SparseMatrix) (i : Z) : list (Z * real_t) :=
  match row X i with [] => row Y i | es => es end.

(** ** Loading *)

Definition loaded (cap : nat) (msgs : list NonZeroMsg) (st : list NonZeroMsg * Z) : Prop :=
  st.2 = Z.of_nat (length msgs) ∧ length st.1 = cap ∧ take (length msgs) st.1 = msgs.

Lemma loaded_snoc cap msgs m buf n :
  loaded cap msgs (buf, n) → (length msgs < cap)%nat →
  returns (astore buf n m) (λ buf', loaded cap (msgs ++ [m]) (buf', n + 1)).
Proof.
  intros (Hn & Hlen & Htake) Hcap. simpl in *. subst n. rewrite astore_Ok by lia. simpl. unfold loaded. simpl.
  rewrite length_app, length_insert, Nat2Z.id. simpl. split; [lia|split; [done|]].
  rewrite Nat.add_1_r. erewrite take_S_r; [|apply list_lookup_insert_eq; lia].
  by rewrite take_insert_ge, Htake by lia.
Qed.

Lemma row_msgs_length X i : length (row_msgs X i) = length (row X i).
Proof. apply length_fmap. Qed.

Lemma rows_msgs_snoc X lo hi : lo ≤ hi → rows_msgs X lo (hi + 1) = rows_msgs X lo hi ++ row_msgs X hi.
Proof.
  intros Hle. unfold rows_msgs. replace (hi + 1 - lo) with ((hi - lo) + 1) by lia.
  rewrite seqZ_app by lia. replace (lo + (hi - lo)) with hi by lia. rewrite bind_app.
  rewrite (seqZ_cons hi), (seqZ_nil (Z.succ hi)) by lia. csimpl. by rewrite app_nil_r.
Qed.

Lemma rows_msgs_prefix X lo i hi : lo ≤ i → i ≤ hi → (length (rows_msgs X lo i) ≤ length (rows_msgs X lo hi))%nat.
Proof.
  intros Hlo Hhi. unfold rows_msgs. replace (hi - lo) with ((i - lo) + (hi - i)) by lia.
  rewrite seqZ_app, bind_app, length_app by lia. lia.
Qed.

Lemma rows_msgs_fit h ms X lo hi :
  valid h ms X → 0 ≤ lo → lo ≤ hi → hi ≤ h → Z.of_nat (length (rows_msgs X lo hi)) ≤ (hi - lo) * ms.
Proof.
  intros HX H0 Hle Hh. assert (∀ n, lo + Z.of_nat n ≤ h → Z.of_nat (length (rows_msgs X lo (lo + Z.of_nat n))) ≤ Z.of_nat n * ms) as Hn.
  { induction n as [|n IH]; intros Hn; [unfold rows_msgs; rewrite seqZ_nil by lia; done|].
    replace (lo + Z.of_nat (S n)) with (lo + Z.of_nat n + 1) by lia. rewrite rows_msgs_snoc by lia.
    rewrite length_app, row_msgs_length. destruct (valid_row h ms X (lo + Z.of_nat n) HX) as [_ Hl]; [lia|]. lia. }
  specialize (Hn (Z.to_nat (hi - lo))). rewrite Z2Nat.id in Hn by lia.
  replace (lo + (hi - lo)) with hi in Hn by lia. by apply Hn.
Qed.

Lemma loadBuffer_spec h ms X d buf :
  valid h ms X → 0 ≤ localRowMin d → localRowMin d ≤ localRowMax d → localRowMax d ≤ h →
  (length (rows_msgs X (localRowMin d) (localRowMax d)) ≤ length buf)%nat →
  returns (loadBuffer buf X d) (λ '(buf', n),
    let msgs := rows_msgs X (localRowMin d) (localRowMax d) in
    n = Z.of_nat (length msgs) * sizeof_NonZeroMsg ∧ length buf' = length buf ∧ take (length msgs) buf' = msgs).
Proof.
  intros HX H0 Hle Hh Hfit. unfold loadBuffer. eapply returns_bind.
  { apply (for_range_inv (λ i st, loaded (length buf) (rows_msgs X (localRowMin d) i) st)); [done|..].
    - unfold rows_msgs. by rewrite Z.sub_diag.
    - intros i [b n] Hi Hb. rewrite (read_nnz h ms) by (done || lia). csimpl. rewrite rows_msgs_snoc by lia.
      pose proof (rows_msgs_prefix X (localRowMin d) (i + 1) (localRowMax d) ltac:(lia) ltac:(lia)) as Hpre.
      rewrite rows_msgs_snoc, length_app, row_msgs_length in Hpre by lia.
      apply (for_entries (λ es st, loaded (length buf) (rows_msgs X (localRowMin d) i ++ ((λ e, mkMsg i e.1 e.2) <$> es)) st));
        [by rewrite app_nil_r|].
      intros q e [b' n'] He Hb'. destruct (read_entry h ms X i q e HX ltac:(lia) He) as (H1 & H2 & _). apply lookup_lt_Some in He as Hq.
      unfold load_entry. rewrite H1, H2. csimpl. eapply returns_bind; [apply loaded_snoc; [exact Hb'|]|].
      + rewrite length_app, length_fmap, length_take. lia.
      + intros b2 Hb2. rewrite fmap_app. csimpl. by rewrite app_assoc. }
  intros [b n] (Hn & Hl & Ht). simpl in *. by subst n.
Qed.

(** ** Unloading *)

(** In the middle of a row: its entries [es] so far. *)
Definition unloading (h ms i : Z) (m0 : SparseMatrix) (rc0 j0 : Z) (es : list (Z * real_t)) (st : SparseMatrix * Z * Z) : Prop :=
  let '(m, rc, j) := st in
  match es with
  | [] => m = m0 ∧ rc = rc0 ∧ j = j0
  | _ => sized h ms m ∧ same_rows h ms i m0 m ∧ has_row m i es ∧ rc = i ∧ j = Z.of_nat (length es)
  end.

Lemma set_nnz_row h ms i n m0 m :
  sized h ms m → 0 ≤ i < h → same_rows h ms i m0 m →
  returns (set_nnz i n m) (λ m', sized h ms m' ∧ same_rows h ms i m0 m' ∧ cellN m' i = Some n ∧
    (∀ q, 0 ≤ q < ms → cellJ m' i q = cellJ m i q ∧ cellV m' i q = cellV m i q)).
Proof.
  intros Hm Hi Hs. eapply returns_mono; [by apply (set_nnz_Ok h ms)|]. intros m' [U1 U2 U3 U4]. split; [done|split; [|split]].
  - eapply same_rows_trans; [exact Hs|]. intros i' Hi' Hne. split; [|rewrite U4 by done; by rewrite decide_False].
    intros q Hq. by rewrite U2, U3 by (split; lia).
  - rewrite U4 by done. by rewrite decide_True.
  - intros q Hq. by rewrite U2, U3 by (split; lia).
Qed.

Lemma append_entry h ms i m0 es c v m :
  sized h ms m → 0 ≤ i < h → same_rows h ms i m0 m → has_row m i es → Z.of_nat (length es) < ms →
  returns (n ← nnz m i; m ← set_nnz i (n + 1) m; m ← set_jja i (Z.of_nat (length es)) c m; set_val i (Z.of_nat (length es)) v m)
    (λ m', sized h ms m' ∧ same_rows h ms i m0 m' ∧ has_row m' i (es ++ [(c, v)])).
Proof.
  intros Hm Hi Hs [HN Hes] Hlt. rewrite (nnz_Ok _ _ _ HN) by lia. csimpl.
  eapply returns_bind; [by apply (set_nnz_row h ms i _ m0)|]. intros m1 (Hm1 & Hs1 & HN1 & Hc1).
  assert (slot_ok h ms i (Z.of_nat (length es))) as Hp by (split; lia).
  eapply returns_bind; [by apply (set_jja_Ok h ms)|]. intros m2 [U1 U2 U3 U4].
  eapply returns_mono; [by apply (set_val_Ok h ms)|]. intros m3 [W1 W2 W3 W4]. split; [done|split].
  - eapply same_rows_trans; [exact Hs1|]. intros i' Hi' Hne. split; [|by rewrite W4, U4].
    intros q Hq. rewrite W2, W3, U2, U3 by (split; lia). by rewrite !decide_False by naive_solver.
  - split; [rewrite W4, U4, HN1 by done; f_equal; rewrite length_app; simpl; lia|].
    intros q e He. apply lookup_lt_Some in He as Hq. rewrite length_app in Hq. simpl in Hq.
    rewrite W2, W3, U2, U3 by (split; lia). destruct (decide (q = length es)) as [->|Hne].
    + rewrite list_lookup_middle in He by done. injection He as <-. by rewrite !decide_True.
    + rewrite lookup_app_l in He by lia. rewrite !decide_False by lia.
      destruct (Hc1 (Z.of_nat q) ltac:(lia)) as [-> ->]. by apply Hes.
Qed.

Lemma unload_step h ms i m0 rc0 j0 es e st :
  sized h ms m0 → 0 ≤ i < h → rc0 ≠ i → unloading h ms i m0 rc0 j0 es st → Z.of_nat (length es) < ms →
  returns (unload_entry (mkMsg i e.1 e.2) st) (unloading h ms i m0 rc0 j0 (es ++ [e])).
Proof.
  intros Hm0 Hi Hrc Hst Hlt. destruct st as [[m rc] j], e as [c v].
  set (Q := λ st' : SparseMatrix * Z * Z, let '(m', rc', j') := st' in sized h ms m' ∧ same_rows h ms i m0 m' ∧
    has_row m' i es ∧ rc' = i ∧ j' = Z.of_nat (length es)).
  unfold unload_entry. simpl. eapply (returns_bind _ _ Q).
  - destruct es as [|e' es'].
    + destruct Hst as (-> & -> & ->). destruct (Z.eqb_spec i rc0); [lia|].
      eapply returns_bind; [apply (set_nnz_row h ms i 0 m0); [done|done|apply same_rows_refl]|].
      intros m1 (H1 & H2 & H3 & _). simpl. split; [done|split; [done|split; [|done]]]. by split.
    + destruct Hst as (H1 & H2 & H3 & -> & ->). rewrite Z.eqb_refl. done.
  - intros [[m1 rc1] j1] (H1 & H2 & H3 & -> & ->).
    pose proof (append_entry h ms i m0 es c v m1 H1 Hi H2 H3 Hlt) as Ha.
    apply returns_Ok in Ha as (m2 & (n & Hn & (ma & Hma & (mb & Hmb & Hmc)%bind_Ok)%bind_Ok)%bind_Ok & Ha).
    rewrite Hn. csimpl. rewrite Hma. csimpl. rewrite Hmb. csimpl. rewrite Hmc. csimpl.
    destruct Ha as (Ha1 & Ha2 & Ha3). unfold unloading. rewrite length_app. simpl.
    destruct (es ++ [(c, v)]) eqn:He; [by destruct es|]. rewrite <-He in *. done || (split_and!; try done; lia).
Qed.

(** The messages of a row. *)
Lemma unload_row h ms i m0 rc0 j0 es :
  sized h ms m0 → 0 ≤ i < h → rc0 ≠ i → Z.of_nat (length es) ≤ ms →
  returns (foldM unload_entry ((λ e, mkMsg i e.1 e.2) <$> es) (m0, rc0, j0)) (unloading h ms i m0 rc0 j0 es).
Proof.
  intros Hm0 Hi Hrc. induction es as [|e es IH] using rev_ind; intros Hlen; [done|].
  rewrite length_app in Hlen. simpl in Hlen. rewrite fmap_app, foldM_app. csimpl.
  eapply returns_bind; [apply IH; lia|]. intros st Hst.
  pose proof (unload_step h ms i m0 rc0 j0 es e st Hm0 Hi Hrc Hst ltac:(lia)) as Hs.
  apply returns_Ok in Hs as (st' & -> & Hs). done.
Qed.

(** The messages of a task's rows. *)
Lemma unload_rows h ms X lo hi Y :
  valid h ms X → valid h ms Y → 0 ≤ lo → lo ≤ hi → hi ≤ h →
  returns (foldM unload_entry (rows_msgs X lo hi) (Y, -1, 0)) (λ '(Y', rc, j), valid h ms Y' ∧ rc < hi ∧
    ∀ i, 0 ≤ i < h → row Y' i = if decide (lo ≤ i < hi) then received_row X Y i else row Y i).
Proof.
  intros HX HY H0 Hle Hh.
  set (I := λ hi' (st : SparseMatrix * Z * Z), let '(Y', rc, j) := st in valid h ms Y' ∧ rc < hi' ∧
    ∀ i, 0 ≤ i < h → row Y' i = if decide (lo ≤ i < hi') then received_row X Y i else row Y i).
  assert (∀ n, lo + Z.of_nat n ≤ h → returns (foldM unload_entry (rows_msgs X lo (lo + Z.of_nat n)) (Y, -1, 0)) (I (lo + Z.of_nat n))) as Hn.
  { induction n as [|n IH]; intros Hn.
    - unfold rows_msgs. rewrite seqZ_nil by lia. split; [done|split; [lia|]]. intros i _. by rewrite decide_False by lia.
    - replace (lo + Z.of_nat (S n)) with (lo + Z.of_nat n + 1) by lia. rewrite rows_msgs_snoc, foldM_app by lia.
      eapply returns_bind; [apply IH; lia|]. clear IH. set (i := lo + Z.of_nat n) in *. intros [[m rc] j] (Hv & Hrc & Hrows).
      destruct (valid_row h ms X i HX) as [_ Hl]; [lia|]. assert (0 ≤ i < h) as Hi by lia.
      eapply returns_mono; [apply (unload_row h ms i m rc j); [apply Hv|done|lia|done]|].
      intros [[m' rc'] j'] Hun.
      enough (valid h ms m' ∧ rc' < i + 1 ∧ ∀ i', 0 ≤ i' < h → row m' i' = if decide (i' = i) then received_row X Y i else row m i')
        as (H1 & H2 & H3).
      { split; [done|split; [done|]]. intros i' Hi'. rewrite H3, Hrows by done.
        destruct (decide (i' = i)) as [->|Hne]; [by rewrite decide_True by lia|]. do 2 case_decide; (done || lia). }
      unfold received_row. destruct (row X i) as [|e es] eqn:He.
      + destruct Hun as (-> & -> & ->). split; [done|split; [lia|]]. intros i' Hi'. case_decide as Hii; [|done].
        rewrite Hii, Hrows by done. by rewrite decide_False by lia.
      + destruct Hun as (H1 & H2 & H3 & -> & ->).
        destruct (row_replaced h ms i m m' (e :: es)) as [R1 R2]; try done.
        { intros e' He'. rewrite <-He in He'. destruct HX as [_ Hr]. by apply (Hr i Hi). }
        split; [done|split; [lia|done]]. }
  specialize (Hn (Z.to_nat (hi - lo))). rewrite Z2Nat.id in Hn by lia.
  replace (lo + (hi - lo)) with hi in Hn by lia. by apply Hn.
Qed.

Lemma for_range_prefix {A S} (F : A → S → res S) (buf l : list A) (s : S) :
  take (length l) buf = l → for_range 0 (Z.of_nat (length l)) (λ i s, x ← aload buf i; F x s) s = foldM F l s.
Proof.
  intros Hl. rewrite <-for_range_list. apply for_range_ext. intros i s' Hi. f_equal.
  destruct (lookup_lt_is_Some_2 l (Z.to_nat i)) as [x Hx]; [lia|].
  rewrite (aload_lookup l i x), (aload_lookup buf i x); [done|lia| |lia|done].
  rewrite <-Hl in Hx. by apply lookup_take_Some in Hx as [Hx _].
Qed.

Lemma unloadBuffer_spec h ms X lo hi Y buf :
  valid h ms X → valid h ms Y → 0 ≤ lo → lo ≤ hi → hi ≤ h → take (length (rows_msgs X lo hi)) buf = rows_msgs X lo hi →
  returns (unloadBuffer buf (Z.of_nat (length (rows_msgs X lo hi)) * sizeof_NonZeroMsg) Y) (λ Y', valid h ms Y' ∧
    ∀ i, 0 ≤ i < h → row Y' i = if decide (lo ≤ i < hi) then received_row X Y i else row Y i).
Proof.
  intros HX HY H0 Hle Hh Hbuf. unfold unloadBuffer, sizeof_NonZeroMsg.
  rewrite cdiv_Ok, crem_Ok, Z.div_mul, Z.mod_mul by lia. csimpl. rewrite for_range_prefix by done.
  eapply returns_bind; [by apply unload_rows|]. intros [[Y' rc] j] (Hv & _ & Hr). done.
Qed.

(** ** Messages of several tasks *)

(** The rows of a task, and a message with them. *)
Record block := mkBlock { b_X : SparseMatrix; b_lo : Z; b_hi : Z }.
Definition inside (i : Z) (b : block) : Prop := b_lo b ≤ i < b_hi b.
Definition block_ok (h ms : Z) (b : block) : Prop := valid h ms (b_X b) ∧ 0 ≤ b_lo b ∧ b_lo b ≤ b_hi b ∧ b_hi b ≤ h.
Definition carries (b : block) (msg : message) : Prop :=
  let l := rows_msgs (b_X b) (b_lo b) (b_hi b) in take (length l) msg.1 = l ∧ msg.2 = Z.of_nat (length l) * sizeof_NonZeroMsg.
(** No row is in two blocks. *)
Definition separate (bs : list block) : Prop :=
  ∀ j k b b' i, bs !! j = Some b → bs !! k = Some b' → inside i b → inside i b' → j = k.

(** The rows after the messages: [Y] is the matrix, [X] the one before. *)
Definition delivered (h : Z) (bs : list block) (X Y : SparseMatrix) : Prop :=
  ∀ i, 0 ≤ i < h →
    (∀ b, b ∈ bs → inside i b → row Y i = received_row (b_X b) X i) ∧ ((∀ b, b ∈ bs → ¬ inside i b) → row Y i = row X i).

Lemma delivered_snoc h bs b X Y Y' :
  separate (bs ++ [b]) → delivered h bs X Y →
  (∀ i, 0 ≤ i < h → row Y' i = if decide (b_lo b ≤ i < b_hi b) then received_row (b_X b) Y i else row Y i) →
  delivered h (bs ++ [b]) X Y'.
Proof.
  intros Hsep Hdel HY i Hi. destruct (Hdel i Hi) as [D1 D2]. split.
  - intros b' [Hb'| ->%list_elem_of_singleton]%elem_of_app Hin.
    + apply list_elem_of_lookup in Hb' as [k Hk] . apply lookup_lt_Some in Hk as Hlt.
      rewrite HY by done. case_decide as Hib.
      * assert (k = length bs); [|lia]. apply (Hsep k (length bs) b' b i); [by apply lookup_app_l_Some|by apply list_lookup_middle|done|done].
      * apply D1; [|done]. by eapply list_elem_of_lookup_2.
    + rewrite HY by done. rewrite decide_True by done. unfold received_row. destruct (row (b_X b) i); [|done].
      apply D2. intros b' Hb' Hin'. apply list_elem_of_lookup in Hb' as [k Hk]. apply lookup_lt_Some in Hk as Hlt.
      assert (k = length bs); [|lia]. apply (Hsep k (length bs) b' b i); [by apply lookup_app_l_Some|by apply list_lookup_middle|done|done].
  - intros Hno. rewrite HY by done. rewrite decide_False; [apply D2; intros b' Hb'; apply Hno; set_solver|].
    apply (Hno b). set_solver.
Qed.

(** What the receives of an exchange do, in the order they complete. *)
Lemma receive_spec h ms bs received X :
  valid h ms X → Forall (block_ok h ms) bs → Forall2 carries bs received → separate bs →
  returns (exchange_receives (Z.of_nat (length bs)) X received)
    (λ Y, valid h ms Y ∧ delivered h bs X Y).
Proof.
  intros HX Hok Hc Hsep.
  apply (for_entries (λ bs Y, valid h ms Y ∧ delivered h bs X Y)).
  { split; [done|]. intros i Hi. split; [by intros b ?%not_elem_of_nil|done]. }
  intros q b Y Hb [HY Hdel]. destruct (Forall2_lookup_l _ _ _ _ _ Hc Hb) as ([buf n] & Hm & Hbuf & Hn). simpl in *. subst n.
  cbv beta. rewrite (aload_lookup received (Z.of_nat q) _ ltac:(lia) ltac:(rewrite Nat2Z.id; exact Hm)). csimpl.
  rewrite Forall_lookup in Hok. destruct (Hok q b Hb) as (Hv & H1 & H2 & H3).
  eapply returns_mono; [by apply (unloadBuffer_spec h ms (b_X b) (b_lo b) (b_hi b))|].
  intros Y' [HY' Hrows]. split; [done|]. apply (delivered_snoc h _ b X Y); [|done|done].
  intros j k b1 b2 i Hj Hk. rewrite <-(take_S_r bs q b Hb) in Hj, Hk. apply lookup_take_Some in Hj as [Hj _].
  apply lookup_take_Some in Hk as [Hk _]. by apply (Hsep j k b1 b2 i).
Qed.

(** A buffer of the size that [initHaloExchange] gives holds the rows. *)
Lemma buffer_fits nRanks d hh :
  initHaloExchange nRanks d = Ok hh → 0 ≤ localRowExtent d * totalCols d * sizeof_NonZeroMsg ≤ INT_MAX →
  length (sendBuf hh) = Z.to_nat (localRowExtent d * totalCols d) ∧ haloCount hh = 0 ∧
  length (haloProc hh) = Z.to_nat (totalProcs d).
Proof.
  unfold initHaloExchange, sizeof_NonZeroMsg, INT_MAX, to_int. intros H Hb. apply bind_Ok in H as (n & [-> _]%int32_inv & [= <-]).
  simpl. rewrite !length_replicate. split; [|done]. f_equal.
  rewrite Z.mod_small by lia. rewrite Z.add_simpl_r. by rewrite Z.div_mul by lia.
Qed.

(** A task's rows survive the exchange: what [loadBuffer] writes fits the buffer that [initHaloExchange] allocates for rows of that many places, and [unloadBuffer] at a task that receives it replaces exactly these rows by the sender's, entry by entry in their order, and keeps every other row.  A row without entries is not in the message: the receiver keeps its own. *)
Lemma halo_roundtrip h ms nRanks X Y d :
  valid h ms X → valid h ms Y → 0 ≤ localRowMin d → localRowMax d = localRowMin d + localRowExtent d → 0 ≤ localRowExtent d →
  localRowMax d ≤ h → totalCols d = ms → localRowExtent d * ms * sizeof_NonZeroMsg ≤ INT_MAX →
  returns (hh ← initHaloExchange nRanks d; '(buf, n) ← loadBuffer (sendBuf hh) X d; unloadBuffer buf n Y) (λ Y',
    valid h ms Y' ∧ ∀ i, 0 ≤ i < h →
      row Y' i = if decide (localRowMin d ≤ i < localRowMax d) then
                   match row X i with [] => row Y i | es => es end
                 else row Y i).
Proof.
  intros HX HY H0 Hmax Hext Hh Hcols Hsize. pose proof (sz_pos _ _ _ (proj1 HX)) as [_ Hms]. unfold sizeof_NonZeroMsg in Hsize.
  pose proof (buffer_fits nRanks d) as Hfit. destruct (initHaloExchange nRanks d) as [hh|e] eqn:Hinit.
  2:{ unfold initHaloExchange in Hinit. unfold INT_MAX in Hsize. rewrite int32_Ok in Hinit by (unfold INT_MIN, INT_MAX; nia). done. }
  destruct (Hfit hh eq_refl) as (Hlen & _ & _); [rewrite Hcols; unfold sizeof_NonZeroMsg; nia|]. csimpl.
  eapply returns_bind; [apply (loadBuffer_spec h ms); try done; try lia|].
  { pose proof (rows_msgs_fit h ms X (localRowMin d) (localRowMax d) HX H0 ltac:(lia) Hh). rewrite Hlen, Hcols. nia. }
  intros [buf n] (-> & _ & Hbuf). by apply (unloadBuffer_spec h ms X); try done; lia.
Qed.

(** What an exchange sends, when the task's rows fit in the buffer. *)
Lemma exchange_sends_spec h ms hh X d :
  valid h ms X → 0 ≤ localRowMin d → localRowMin d ≤ localRowMax d → localRowMax d ≤ h →
  (localRowMax d - localRowMin d) * ms ≤ Z.of_nat (length (sendBuf hh)) → 0 ≤ haloCount hh ≤ Z.of_nat (length (haloProc hh)) →
  returns (exchange_sends hh X d) (λ '(_, sends), sends.*1 = take (Z.to_nat (haloCount hh)) (haloProc hh) ∧
    Forall (carries (mkBlock X (localRowMin d) (localRowMax d))) sends.*2).
Proof.
  intros HX H0 Hle Hh Hbuf Hcount. unfold exchange_sends. eapply returns_bind.
  { apply (loadBuffer_spec h ms); try done. pose proof (rows_msgs_fit h ms X _ _ HX H0 Hle Hh). lia. }
  intros [buf n] (-> & _ & Hload). set (msg := (buf, _)). eapply returns_bind.
  { apply (for_range_inv (λ i out, out = (λ p, (p, msg)) <$> take (Z.to_nat i) (haloProc hh))); [lia|done|].
    intros i out Hi ->. destruct (aload_is_Some (haloProc hh) i) as (p & Hp & ->); [lia|]. csimpl.
    replace (Z.to_nat (i + 1)) with (S (Z.to_nat i)) by lia. rewrite (take_S_r _ _ p) by done. by rewrite fmap_app. }
  intros sends ->. csimpl. rewrite <-!list_fmap_compose. split.
  - rewrite (list_fmap_ext _ id) by done. by rewrite list_fmap_id.
  - apply Forall_fmap, Forall_forall. intros p _. by split.
Qed.

(** C32: Rows of several tasks arrive in any order ([irecvAnyParallel] posts receives from any task): when the messages that the receives of a halo get carry the rows of tasks without a common row, [exchangeData] returns, every received row is its sender's (a row without entries is the receiver's old one), all other rows are unchanged, and each task of the halo is sent the task's own rows. *)
Theorem exchangeData_delivers h ms hh X d bs received :
  valid h ms X → 0 ≤ localRowMin d → localRowMin d ≤ localRowMax d → localRowMax d ≤ h →
  (localRowMax d - localRowMin d) * ms ≤ Z.of_nat (length (sendBuf hh)) →
  Z.of_nat (length bs) = haloCount hh → (0 < length bs ≤ length (haloProc hh))%nat →
  Forall (block_ok h ms) bs → Forall2 carries bs received → separate bs →
  returns (exchangeData hh X d received) (λ '(hh', X', sends), valid h ms X' ∧ delivered h bs X X' ∧
    sends.*1 = take (length bs) (haloProc hh) ∧
    Forall (carries (mkBlock X (localRowMin d) (localRowMax d))) sends.*2).
Proof.
  intros HX H0 Hle Hh Hbuf Hcount Hprocs Hok Hc Hsep. unfold exchangeData.
  rewrite (proj2 (Z.ltb_lt _ _)) by lia. eapply returns_bind; [apply (exchange_sends_spec h ms); (done || lia)|].
  rewrite <-Hcount, Nat2Z.id. intros [hh' sends] [Hs1 Hs2].
  eapply returns_bind; [by apply (receive_spec h ms bs)|]. intros Y [HY Hdel]. done.
Qed.

Lemma exchangeData_delivers_witness :
  let hh := mkHalo 2 32 1 [1; 0] (replicate 2 (mkMsg 0 0 fzero)) [] in
  let other := mkBlock small_matrix 1 2 in
  returns (exchangeData hh small_matrix half_domain [(rows_msgs small_matrix 1 2, 32)]) (λ '(hh', X', sends),
    valid 2 2 X' ∧ delivered 2 [other] small_matrix X' ∧ sends.*1 = take 1 [1; 0] ∧ Forall (carries (mkBlock small_matrix 0 1)) sends.*2).
Proof.
  intros hh other. apply (exchangeData_delivers 2 2 hh small_matrix half_domain [other]);
    [exact small_valid|done|done|done|done|done|simpl; lia| | |].
  - apply Forall_singleton. split; [exact small_valid|simpl; lia].
  - constructor; [by vm_compute|constructor].
  - intros [|j] [|k] b b' i; done.
Defined.

(** ** The tasks of the halo *)
Definition procs (hh : HaloExchangeSt) : list Z := take (Z.to_nat (haloCount hh)) (haloProc hh).
Definition halo_ok (n : Z) (hh : HaloExchangeSt) : Prop :=
  Z.of_nat (length (haloProc hh)) = n ∧ 0 ≤ haloCount hh ≤ n ∧ NoDup (procs hh).

Lemma procs_length n hh : halo_ok n hh → Z.of_nat (length (procs hh)) = haloCount hh.
Proof. intros (H1 & H2 & _). unfold procs. rewrite length_take. lia. Qed.

Lemma isHaloProc_spec n hh r : halo_ok n hh → isHaloProc hh r = Ok (bool_decide (r ∈ procs hh)).
Proof.
  intros Hok. pose proof (procs_length n hh Hok) as Hlen. destruct Hok as (H1 & H2 & _). unfold isHaloProc.
  set (I := λ i b, b = bool_decide (r ∈ take (Z.to_nat i) (haloProc hh))).
  enough (returns (isHaloProc hh r) (I (haloCount hh))) as (b & Hb & ->)%returns_Ok by done.
  apply for_range_inv; [lia|by unfold I; rewrite take_0, bool_decide_eq_false_2 by apply not_elem_of_nil|].
  intros i b Hi ->. destruct (aload_is_Some (haloProc hh) i) as (p & Hp & Hload); [lia|].
  unfold I. replace (Z.to_nat (i + 1)) with (S (Z.to_nat i)) by lia. rewrite (take_S_r _ _ p) by done.
  case_bool_decide as Hin; csimpl.
  - rewrite bool_decide_eq_true_2; [done|set_solver].
  - rewrite Hload. csimpl. destruct (Z.eqb_spec p r) as [->|Hne].
    + rewrite bool_decide_eq_true_2; [done|set_solver].
    + rewrite bool_decide_eq_false_2; [done|set_solver].
Qed.

Lemma addHaloProc_spec n hh r :
  halo_ok n hh → (r ∉ procs hh → haloCount hh < n) →
  returns (addHaloProc r hh) (λ hh', halo_ok n hh' ∧ procs hh' = if decide (r ∈ procs hh) then procs hh else procs hh ++ [r]).
Proof.
  intros Hok Hroom. pose proof (isHaloProc_spec n hh r Hok) as Hfound. pose proof (procs_length n hh Hok) as Hlen.
  destruct Hok as (H1 & H2 & H3).
  assert (∀ m, m = haloCount hh → r ∉ procs hh →
    halo_ok n (with_procs (m + 1) (<[Z.to_nat m := r]> (haloProc hh)) hh) ∧
    procs (with_procs (m + 1) (<[Z.to_nat m := r]> (haloProc hh)) hh) = procs hh ++ [r]) as Hadd.
  { intros m -> Hnew. specialize (Hroom Hnew).
    assert (procs (with_procs (haloCount hh + 1) (<[Z.to_nat (haloCount hh) := r]> (haloProc hh)) hh) = procs hh ++ [r]) as Hp.
    { unfold procs. simpl. replace (Z.to_nat (haloCount hh + 1)) with (S (Z.to_nat (haloCount hh))) by lia.
      rewrite (take_S_r _ _ r) by (apply list_lookup_insert_eq; lia). by rewrite take_insert_ge by lia. }
    split; [|done]. split; [simpl; by rewrite length_insert|]. rewrite Hp. simpl. split; [lia|].
    apply NoDup_app. split; [done|]. split; [set_solver|apply NoDup_singleton]. }
  unfold addHaloProc. destruct (Z.eqb_spec (haloCount hh) 0) as [H0|H0].
  - assert (procs hh = []) as Hnil by (unfold procs; by rewrite H0). rewrite Hnil, decide_False by apply not_elem_of_nil.
    rewrite Hnil in *. pose proof (Hroom ltac:(apply not_elem_of_nil)). rewrite astore_Ok by lia. csimpl.
    destruct (Hadd 0); [done|apply not_elem_of_nil|]. done.
  - rewrite Hfound. csimpl. case_bool_decide as Hin; csimpl; [by rewrite decide_True|]. specialize (Hroom Hin).
    rewrite decide_False by done. rewrite astore_Ok by lia. csimpl. by apply Hadd.
Qed.

(** The columns outside the task's rows. *)
Definition foreign (d : DomainSt) (es : list (Z * real_t)) : list Z :=
  filter (λ c, (c <? localRowMin d) || (localRowMax d <=? c) = true) (es.*1).

Section halo_tasks.
Variables (h ms n ext r : Z) (X : SparseMatrix) (d : DomainSt).
Hypothesis HX : valid h ms X.
Hypothesis Hn : h = n * ext.
Hypothesis Hext : 0 < ext.
Hypothesis Hr : 0 ≤ r < n.
Hypothesis Hd : localRowExtent d = ext ∧ localRowMin d = r * ext ∧ localRowMax d = (r + 1) * ext.

Definition knows (seen : list Z) (hh : HaloExchangeSt) : Prop :=
  halo_ok n hh ∧ (∀ c, c ∈ seen → 0 ≤ c < h ∧ ¬ (localRowMin d ≤ c < localRowMax d)) ∧ ∀ p, p ∈ procs hh ↔ ∃ c, c ∈ seen ∧ p = c / ext.

Lemma owner_range c : 0 ≤ c < h → ¬ (localRowMin d ≤ c < localRowMax d) → 0 ≤ c / ext < n ∧ c / ext ≠ r.
Proof.
  intros Hc Hout. destruct Hd as (_ & Hlo & Hhi). rewrite Hlo, Hhi in Hout. split.
  - split; [apply Z.div_pos; lia|apply Z.div_lt_upper_bound; lia].
  - intros He. apply Hout. pose proof (Z.div_mod c ext ltac:(lia)). pose proof (Z.mod_pos_bound c ext ltac:(lia)). nia.
Qed.

Lemma knows_room seen hh : knows seen hh → haloCount hh ≤ n - 1.
Proof.
  intros (Hok & Hseen & Hp). rewrite <-(procs_length n hh Hok). destruct Hok as (_ & _ & Hnd).
  assert (NoDup (r :: procs hh)) as Hnd'.
  { constructor; [|done]. intros (c & Hc & He)%Hp. destruct (Hseen c Hc) as [H1 H2]. by destruct (owner_range c H1 H2). }
  assert (r :: procs hh ⊆+ seqZ 0 n) as Hsub.
  { apply NoDup_submseteq; [done|]. intros p [->|(c & Hc & ->)%Hp]%elem_of_cons; apply elem_of_seqZ; [lia|].
    destruct (Hseen c Hc) as [H1 H2]. destruct (owner_range c H1 H2). lia. }
  apply submseteq_length in Hsub. rewrite length_seqZ in Hsub. simpl in Hsub. lia.
Qed.

Lemma halo_entry_spec seen hh i q e :
  0 ≤ i < h → row X i !! q = Some e → knows seen hh →
  returns (halo_entry X d i (Z.of_nat q) hh) (knows (seen ++ foreign d [e])).
Proof.
  intros Hi He Hk. destruct (read_entry h ms X i q e HX Hi He) as (H1 & _ & H3). unfold halo_entry. rewrite H1. csimpl.
  pose proof (knows_room seen hh Hk) as Hroom. destruct Hk as (Hok & Hseen & Hp). unfold foreign. csimpl. rewrite filter_cons, filter_nil.
  destruct ((e.1 <? localRowMin d) || (localRowMax d <=? e.1)) eqn:Hout; csimpl; [|by rewrite app_nil_r].
  assert (¬ (localRowMin d ≤ e.1 < localRowMax d)) as Hout' by lia.
  unfold processorNum. destruct Hd as (-> & _). rewrite cdiv_Ok by lia. csimpl.
  eapply returns_mono; [apply (addHaloProc_spec n); [done|lia]|]. intros hh' [Hok' Hp']. split; [done|split].
  - intros c [Hc| ->%list_elem_of_singleton]%elem_of_app; [by apply Hseen|done].
  - intros p. rewrite Hp'. setoid_rewrite elem_of_app. setoid_rewrite list_elem_of_singleton. case_decide as Hin.
    + rewrite Hp. split; [naive_solver|]. intros (c & [Hc| ->] & ->); [naive_solver|]. by apply Hp.
    + rewrite elem_of_app, list_elem_of_singleton, Hp. naive_solver.
Qed.

(** The columns of the rows from [lo] to [hi] that are of other tasks. *)
Definition foreign_rows (hi : Z) : list Z := seqZ (localRowMin d) (hi - localRowMin d) ≫= λ i, foreign d (row X i).

Lemma updateData_spec hh :
  Z.of_nat (length (haloProc hh)) = n → 0 ≤ localRowMin d → localRowMax d ≤ h →
  returns (updateData hh X d) (knows (foreign_rows (localRowMax d))).
Proof.
  intros Hlen H0 Hh. unfold updateData. apply (for_range_inv (λ i, knows (foreign_rows i))).
  - destruct Hd as (_ & -> & ->). lia.
  - unfold foreign_rows. rewrite Z.sub_diag. split; [split; [done|split; [simpl; lia|constructor]]|].
    split; [by intros c ?%not_elem_of_nil|]. intros p. split; [by intros ?%not_elem_of_nil|by intros (c & ?%not_elem_of_nil & _)].
  - intros i hh' Hi Hk. cbv beta. rewrite (read_nnz h ms) by (done || lia). csimpl.
    assert (foreign_rows (i + 1) = foreign_rows i ++ foreign d (row X i)) as ->.
    { unfold foreign_rows. replace (i + 1 - localRowMin d) with ((i - localRowMin d) + 1) by lia.
      rewrite seqZ_app by lia. replace (localRowMin d + (i - localRowMin d)) with i by lia. rewrite bind_app.
      rewrite (seqZ_cons i), (seqZ_nil (Z.succ i)) by lia. csimpl. by rewrite app_nil_r. }
    apply (for_entries (λ es, knows (foreign_rows i ++ foreign d es))); [by unfold foreign; csimpl; rewrite filter_nil, app_nil_r|].
    intros q e s He Hs. unfold foreign. rewrite fmap_app, filter_app, app_assoc. apply halo_entry_spec; [lia|done|done].
Qed.
End halo_tasks.

(** C33: The halo of a task is exactly the tasks whose rows it needs: when the number of rows is a multiple of the number of tasks, [updateData] on the decomposition of [initDecomposition] returns, never writes behind the list of [totalProcs] places, and lists every task that owns a column of the task's rows outside these rows, once, and not the task itself. *)
Theorem updateData_halo h ms nRanks myRank ext X d hh :
  valid h ms X → 0 < ext → 0 ≤ myRank < nRanks → h = nRanks * ext →
  initDecomposition nRanks myRank nRanks h ms = Ok d → Z.of_nat (length (haloProc hh)) = totalProcs d →
  returns (updateData hh X d) (λ hh',
    haloCount hh' < nRanks ∧ NoDup (procs hh') ∧ Z.of_nat (length (procs hh')) = haloCount hh' ∧
    ∀ p, p ∈ procs hh' ↔ p ≠ myRank ∧
      ∃ i e, localRowMin d ≤ i < localRowMax d ∧ e ∈ row X i ∧ p * ext ≤ e.1 < (p + 1) * ext).
Proof.
  intros HX Hext Hr Hn Hinit Hlen. assert (0 ≤ myRank * ext ∧ (myRank + 1) * ext ≤ h ∧ 0 ≤ h) as Hrange by nia.
  apply initDecomposition_rows in Hinit as (D1 & D2 & D3 & D4 & _); [|lia..].
  replace (h / nRanks) with ext in * by (rewrite Hn, Z.mul_comm, Z.div_mul by lia; done). rewrite D4 in Hlen.
  assert (localRowExtent d = ext ∧ localRowMin d = myRank * ext ∧ localRowMax d = (myRank + 1) * ext) as Hdom by done.
  eapply returns_mono; [apply (updateData_spec h ms nRanks ext myRank X d HX Hn Hext Hr Hdom hh Hlen); destruct Hdom as (_ & Hlo & Hhi); rewrite ?Hlo, ?Hhi; lia|].
  intros hh' Hk. pose proof (knows_room h nRanks ext myRank d Hn Hext Hr Hdom _ _ Hk). pose proof (procs_length nRanks hh' (proj1 Hk)).
  destruct Hk as ((_ & _ & Hnd) & Hseen & Hp). split; [lia|split; [done|split; [done|]]]. intros p. rewrite Hp.
  assert (∀ c, c / ext = p ↔ p * ext ≤ c < (p + 1) * ext) as Hdiv.
  { intros c. pose proof (Z.div_mod c ext ltac:(lia)). pose proof (Z.mod_pos_bound c ext ltac:(lia)). split; [intros <-; nia|].
    intros Hc. symmetry. apply (Z.div_unique_pos c ext p (c - p * ext)); lia. }
  split.
  - intros (c & Hc & ->). destruct (Hseen c Hc) as [Hc1 Hc2].
    split; [by apply (owner_range h nRanks ext myRank d Hn Hext Hdom c)|].
    unfold foreign_rows in Hc. apply list_elem_of_bind in Hc as (i & Hc & Hi%elem_of_seqZ). unfold foreign in Hc.
    apply list_elem_of_filter in Hc as [_ (e & -> & He)%list_elem_of_fmap]. exists i, e. split; [lia|split; [done|]]. by apply Hdiv.
  - intros (Hne & i & e & Hi & He & Hin). exists e.1. split; [|symmetry; by apply Hdiv].
    unfold foreign_rows. apply list_elem_of_bind. exists i. split; [|apply elem_of_seqZ; lia].
    apply list_elem_of_filter. split; [|by apply list_elem_of_fmap_2]. destruct Hdom as (_ & -> & ->).
    apply orb_true_iff. destruct (decide (e.1 < myRank * ext)); [left; lia|right]. apply Z.leb_le.
    destruct (decide ((myRank + 1) * ext ≤ e.1)); [done|]. exfalso. apply Hne. rewrite <-(proj2 (Hdiv e.1) Hin). symmetry.
    apply (Z.div_unique_pos e.1 ext myRank (e.1 - myRank * ext)); lia.
Qed.

Lemma updateData_halo_witness :
  let hh := mkHalo 2 32 0 [0; 0] [] [] in
  returns (updateData hh small_matrix half_domain) (λ hh',
    haloCount hh' < 2 ∧ NoDup (procs hh') ∧ Z.of_nat (length (procs hh')) = haloCount hh' ∧
    ∀ p, p ∈ procs hh' ↔ p ≠ 0 ∧
      ∃ i e, 0 ≤ i < 1 ∧ e ∈ row small_matrix i ∧ p * 1 ≤ e.1 < (p + 1) * 1).
Proof. apply (updateData_halo 2 2 2 0 1 small_matrix half_domain); [exact small_valid|done|done|done|done|done]. Defined.
