(* ===== verification/Sp2Loop.v ===== *)
(** * CoSP2: the spectral projection and its containment domains (sp2Loop.c, cd_cosp2.c)

    [sp2Loop] squares the matrix until its trace no longer changes, at most 100
    times.  A pass has a containment domain at level 2 in one at level 1 ([Cd] has
    the events); what it preserves is what cd_cosp2.c copies.  The timers and the
    output are left out.

    The theorems show that the loop ends for matrices with a place for every
    column, that a pass executed again gives what it gave before, and the places in
    which the code does not do what it means to. *)

From Stdlib Require Import ZArith Lia String.
From stdpp Require Import base list numbers sets strings.
From S2P Require Import Prelude Float64 Parallel Cd SparseMatrix SparseMath SparseHalo.

#[local] Open Scope Z_scope.

(** ** Preservation (cd_cosp2.c) *)

Definition sizeof_SparseMatrix : Z := 80.
Definition sizeof_DomainSt : Z := 36.
Definition sizeof_HaloExchangeSt : Z := 48.
Definition sizeof_Command : Z := 1088.

Definition copied (cdh : Z) (o : string) (size : Z) (name : string) : event := preserve cdh (ObjVar o) 0 size kCopy name.

Definition preserveCommand (cdh : Z) : list event * Z := ([copied cdh "cmd" sizeof_Command "cmd"], sizeof_Command).

Definition preserveNZs_ELL (cdh : Z) (o : string) (hs : Z) (name : string) : res (list event * Z) :=
  let size := u32 (hs * sizeof_int) in
  s ← sprintf 16 ("iia_" ++ name);
  Ok ([copied cdh (o ++ "->iia") size s], size).

Definition preserveIndices_ELL (cdh : Z) (o : string) (hs ms : Z) (name : string) : res (list event * Z) :=
  s ← sprintf 6 ("jja_" ++ name);
  n ← int32 (hs * ms);
  let size := u32 (n * sizeof_int) in
  Ok ([copied cdh (o ++ "->jja[0]") size s], size).

Definition preserveValues_ELL (cdh : Z) (o : string) (hs ms : Z) (name : string) : res (list event * Z) :=
  s ← sprintf 6 ("val_" ++ name);
  n ← int32 (hs * ms);
  let size := u32 (n * sizeof_real) in
  Ok ([copied cdh (o ++ "->val[0]") size s], size).

Definition preserveSparseMatrix (cdh : Z) (o : string) (spm : SparseMatrix) (name : string) : res (list event * Z) :=
  s ← sprintf 16 ("spm_" ++ name);
  '(ev1, n1) ← preserveNZs_ELL cdh o (hsize spm) name;
  '(ev2, n2) ← preserveIndices_ELL cdh o (hsize spm) (msize spm) name;
  '(ev3, n3) ← preserveValues_ELL cdh o (hsize spm) (msize spm) name;
  Ok (copied cdh o sizeof_SparseMatrix s :: ev1 ++ ev2 ++ ev3, u32 (sizeof_SparseMatrix + n1 + n2 + n3)).

Definition preserveDomain (cdh : Z) (name : string) : res (list event * Z) :=
  s ← sprintf 30 ("domain_" ++ name);
  Ok ([copied cdh "domain" sizeof_DomainSt s], sizeof_DomainSt).

(** On one rank the pointer to the halo has no value. *)
Definition preserveHaloExchange (nRanks cdh : Z) (hh : option HaloExchangeSt) : res (list event * Z) :=
  match hh with
  | None => Err OutOfBounds
  | Some hh =>
      let size := u32 (haloCount hh * sizeof_int) in
      Ok ([copied cdh "haloExchange" sizeof_HaloExchangeSt "haloExchange";
           copied cdh "haloExchange->haloProc" size "haloExchange_haloProc";
           copied cdh "haloExchange->rlist" size "haloExchange_rlist";
           copied cdh "haloExchange->recvBuf" (u32 (nRanks * sizeof_ptr)) "haloExchange_recvBuf_ptr"],
          u32 (sizeof_HaloExchangeSt + size + size + u32 (nRanks * sizeof_ptr)))
  end.

Section sp2.
Context `{Par : Parallel}.
(** The thresholds [eps] and [idemTol]. *)
Variables eps idemTol : real_t.

(** ** One pass *)

(** The variables of the loop. *)
Record LoopState := mkLoop {
  lx : SparseMatrix; lx2 : SparseMatrix;
  iter : Z; breakLoop : Z;
  trX : real_t; trX2 : real_t;
  idempErr : real_t; idempErr1 : real_t; idempErr2 : real_t;
  halo : option HaloExchangeSt;
}.

(** The traces are reset, the halo is determined, X is squared. *)
Definition sp2_square (d : DomainSt) (s : LoopState) : res LoopState :=
  hh ← (if 1 <? getNRanks then
          match halo s with
          | Some hh => hh ← updateData hh (lx s) d; Ok (Some hh)
          | None => Err OutOfBounds
          end
        else Ok (halo s));
  '(t, t2, X2) ← sparseX2 eps (lx s) (lx2 s) d;
  Ok (mkLoop (lx s) X2 (iter s) (breakLoop s) t t2 (idempErr s) (idempErr1 s) (idempErr2 s) hh).

(** [addRealReduce2]. *)
Definition sp2_reduce (s : LoopState) : res LoopState :=
  if 1 <? getNRanks then
    let r := addRealParallel [trX s; trX2 s] in
    t ← aload r 0;
    t2 ← aload r 1;
    Ok (mkLoop (lx s) (lx2 s) (iter s) (breakLoop s) t t2 (idempErr s) (idempErr1 s) (idempErr2 s) (halo s))
  else Ok s.

(** X becomes 2X - X^2 or X^2, whichever brings the trace nearer to [occ]. *)
Definition sp2_choose (d : DomainSt) (occ : real_t) (s : LoopState) : res LoopState :=
  let tr2XX2 := (ftwo * trX s - trX2 s)%R in
  let trXOLD := trX s in
  let limDiff := (fabs (trX2 s - occ) - fabs (tr2XX2 - occ))%R in
  '(X, t, b) ←
    (if fltb idemTol limDiff then
       X ← sparseAdd eps (lx s) (lx2 s) d; Ok (X, (ftwo * trX s - trX2 s)%R, breakLoop s)
     else if fltb limDiff (- idemTol)%R then
       X ← sparseSetX2 eps (lx s) (lx2 s) d; Ok (X, trX2 s, breakLoop s)
     else Ok (lx s, trXOLD, 1));
  let err2 := idempErr1 s in
  let err1 := idempErr s in
  let err := fabs (t - trXOLD)%R in
  let n := iter s + 1 in
  let b := if (25 <=? n) && fleb err2 err then 1 else b in
  Ok (mkLoop X (lx2 s) n b t (trX2 s) err err1 err2 (halo s)).

(** The rows are sent to the halo; [received] is what the receives get. *)
Definition sp2_exchange (d : DomainSt) (received : list message) (s : LoopState) : res LoopState :=
  if 1 <? getNRanks then
    match halo s with
    | Some hh =>
        '(hh, X, _) ← exchangeData hh (lx s) d received;
        Ok (mkLoop X (lx2 s) (iter s) (breakLoop s) (trX s) (trX2 s) (idempErr s) (idempErr1 s) (idempErr2 s) (Some hh))
    | None => Err OutOfBounds
    end
  else Ok s.

Definition sp2_body (d : DomainSt) (occ : real_t) (received : list message) (s : LoopState) : res LoopState :=
  s ← sp2_square d s;
  s ← sp2_reduce s;
  s ← sp2_choose d occ s;
  sp2_exchange d received s.

(** ** The loop *)

(** How the program is built: with the domain at level 1, the one at level 2, and with preservation. *)
Record Build := mkBuild { CD1 : bool; CD2 : bool; DO_PRV : bool }.

Definition lv2 (b : Build) : Z := if CD1 b then 2 else 1.

(** What a pass preserves, with the names it gives the two matrices. *)
Definition pass_data (nameX nameX2 : string) (b : Build) (s : LoopState) : res (list event) :=
  let l := lv2 b in
  '(ev1, _) ← preserveSparseMatrix l "xmatrix" (lx s) nameX;
  '(ev2, _) ← preserveSparseMatrix l "x2matrix" (lx2 s) nameX2;
  '(ev3, _) ← preserveHaloExchange getNRanks l (halo s);
  Ok ([copied l "iter" sizeof_int "sp2Loop_while_iter";
       copied l "idempErr" sizeof_real "sp2Loop_while_idempErr";
       copied l "idempErr1" sizeof_real "sp2Loop_while_idempErr1"] ++
      ev1 ++ ev2 ++ ev3 ++ [preserve l (ObjVar "domain") 0 sizeof_DomainSt kRef "sp2Loop_while_domain"]).

Definition pass_preserves : Build → LoopState → res (list event) := pass_data "sp2Loop_while_x" "sp2Loop_while_x2".

Definition sp2_pass (b : Build) (d : DomainSt) (occ : real_t) (received : Z → list message) (s : LoopState)
    : res (LoopState * list event) :=
  prv ← (if CD2 b && DO_PRV b then pass_preserves b s else Ok []);
  s' ← sp2_body d occ (received (iter s)) s;
  Ok (s', if CD2 b then CdBegin (lv2 b) "sp2Loop_while" :: prv ++ [CdDetect (lv2 b); CdComplete (lv2 b)] else []).

Fixpoint sp2_while (b : Build) (d : DomainSt) (occ : real_t) (received : Z → list message) (fuel : nat)
    (s : LoopState) (log : list event) : res (LoopState * list event) :=
  if (breakLoop s =? 0) && (iter s <? 100) then
    match fuel with
    | O => Err OutOfFuel
    | S fuel =>
        '(s, ev) ← sp2_pass b d occ received s;
        sp2_while b d occ received fuel s (log ++ ev)
    end
  else Ok (s, log).

Record Results := mkResults { sumIIA : Z; sumIIC : Z; maxIIA : Z; maxIIC : Z }.

Definition report_row (X X2 : SparseMatrix) (i : Z) (r : Results) : res Results :=
  a ← nnz X i;
  sa ← int32 (sumIIA r + a);
  c ← nnz X2 i;
  sc ← int32 (sumIIC r + c);
  Ok (mkResults sa sc (Z.max (maxIIA r) a) (Z.max (maxIIC r) c)).

Definition reportResults (X X2 : SparseMatrix) (d : DomainSt) : res Results :=
  r ← for_range (localRowMin d) (localRowMax d) (report_row X X2) (mkResults 0 0 0 0);
  r ← (if 1 <? getNRanks then
         let s := addIntParallel [sumIIA r; sumIIC r] in
         let m := maxIntParallel [maxIIA r; maxIIC r] in
         sa ← aload s 0; sc ← aload s 1; ma ← aload m 0; mc ← aload m 1;
         Ok (mkResults sa sc ma mc)
       else Ok r);
  _ ← (if printRank =? 0 then Ok 0 else int32 (hsize X * hsize X));
  Ok r.

(** The calls of [sp2Loop] around those of its passes. *)
Definition sp2_cds (b : Build) (prv log : list event) : list event :=
  let ev2 := if CD2 b then CdCreate (lv2 b) "sp2Loop_while" :: log ++ [CdDestroy (lv2 b)] else [] in
  if CD1 b then CdCreate 1 "sp2Loop" :: (CdBegin 1 "whileloop_sp2" :: (prv ++ ev2) ++ [CdDetect 1; CdComplete 1]) ++ [CdDestroy 1]
  else ev2.

(** [sp2Loop] in the root domain; [final] is what the last receives get. *)
Definition sp2Loop (b : Build) (X : SparseMatrix) (d : DomainSt) (received : Z → list message) (final : list message)
    : res (SparseMatrix * LoopState * list event) :=
  prv ← (if CD1 b && DO_PRV b then '(ev, _) ← preserveDomain 1 "cd_lv1"; Ok ev else Ok []);
  hh ← (if 1 <? getNRanks then hh ← initHaloExchange getNRanks d; Ok (Some hh) else Ok None);
  X2 ← initSparseMatrix (hsize X) (msize X);
  X ← normalize X;
  let occ := (f64 (hsize X) * fhalf)%R in
  let s := mkLoop X X2 0 0 fzero fzero fzero fzero fzero hh in
  '(s, log) ← sp2_while b d occ received 100 s [];
  X ← sparseMultScalar (lx s) d ftwo;
  _ ← reportResults X (lx2 s) d;
  X ← (match halo s with
       | Some hh => if 1 <? getNRanks then '(_, X, _) ← allGatherData getNRanks getMyRank hh X d final; Ok X else Ok X
       | None => Ok X
       end);
  Ok (X, s, sp2_cds b prv log).
End sp2.

(** ** One task with a place for every column *)
Section one_task.
Context `{Par : Parallel}.
Variables (eps idemTol : real_t) (h : Z) (d : DomainSt).
Hypothesis Hone : getNRanks = 1.
Hypothesis Hh : 0 ≤ h ∧ h * h ≤ INT_MAX.
Hypothesis Hd : localRowMin d = 0 ∧ localRowMax d = h.

Definition loop_ok (s : LoopState) : Prop := valid h h (lx s) ∧ valid h h (lx2 s).

Lemma not_several : (1 <? getNRanks) = false.
Proof. rewrite Hone. done. Qed.

Lemma sp2_square_ok s : loop_ok s → returns (sp2_square eps d s) (λ s', loop_ok s' ∧ iter s' = iter s).
Proof.
  intros [HX HX2]. destruct Hd as [Hlo Hhi]. unfold sp2_square. rewrite not_several. csimpl. eapply returns_bind.
  - apply (sparseX2_spec eps h h _ _ d HX HX2); [lia..|]. intros i Hi. apply columns_fit; [|lia].
    intros k. apply (product_cols h h _ HX i). lia.
  - intros [[t t2] X2] (_ & _ & Hv & _). done.
Qed.

Lemma sp2_choose_ok occ s :
  loop_ok s → returns (sp2_choose eps idemTol d occ s) (λ s', loop_ok s' ∧ iter s' = iter s + 1).
Proof.
  intros [HX HX2]. destruct Hd as [Hlo Hhi]. unfold sp2_choose. eapply (returns_bind _ _ (λ '(X, _, _), valid h h X)).
  - destruct (fltb idemTol _); [|destruct (fltb _ _); [|done]].
    + eapply returns_bind; [apply (sparseAdd_spec eps h h _ _ d HX HX2); [lia..|]|by intros X [HX' _]].
      intros i Hi. apply columns_fit; [|lia]. intros k. apply (difference_cols h h _ HX2 i (lx s)); [lia|done].
    + eapply returns_bind; [apply (sparseSetX2_rows eps h h _ _ d HX HX2); lia|by intros X [HX' _]].
  - intros [[X t] b] HX'. done.
Qed.

Lemma sp2_body_ok occ received s :
  loop_ok s → returns (sp2_body eps idemTol d occ received s) (λ s', loop_ok s' ∧ iter s' = iter s + 1).
Proof.
  intros Hs. unfold sp2_body. eapply returns_bind; [by apply sp2_square_ok|]. intros s1 [H1 He]. unfold sp2_reduce. rewrite not_several. csimpl.
  eapply returns_bind; [by apply sp2_choose_ok|]. intros s2 [H2 He2]. unfold sp2_exchange. rewrite not_several. split; [done|lia].
Qed.

(** The events of a pass that preserves nothing. *)
Definition pass_log (b : Build) : list event :=
  if CD2 b then [CdBegin (lv2 b) "sp2Loop_while"; CdDetect (lv2 b); CdComplete (lv2 b)] else [].
Definition passes_log (b : Build) (n : Z) : list event := mjoin (replicate (Z.to_nat n) (pass_log b)).

Lemma sp2_while_ok b occ received fuel s log :
  DO_PRV b = false → loop_ok s → 0 ≤ iter s ≤ 100 → 100 - iter s ≤ Z.of_nat fuel →
  returns (sp2_while eps idemTol b d occ received fuel s log) (λ '(s', log'),
    loop_ok s' ∧ iter s ≤ iter s' ≤ 100 ∧ (iter s' = 100 ∨ breakLoop s' ≠ 0) ∧ log' = log ++ passes_log b (iter s' - iter s)).
Proof.
  intros Hb. revert s log. induction fuel as [|fuel IH]; intros s log Hs Hi Hf; simpl;
    destruct ((breakLoop s =? 0) && (iter s <? 100)) eqn:Hg.
  - zbool. lia.
  - simpl. unfold passes_log. rewrite Z.sub_diag, app_nil_r. split; [done|split; [lia|split; [lia|done]]].
  - zbool. unfold sp2_pass. rewrite Hb, andb_false_r. csimpl.
    pose proof (sp2_body_ok occ (received (iter s)) s Hs) as Hbody. apply returns_Ok in Hbody as (s1 & Hs1 & H1 & He). rewrite Hs1. csimpl.
    eapply returns_mono; [apply IH; [done|lia|lia]|]. intros [s' log'] (H2 & H3 & H4 & ->). split; [done|split; [lia|split; [done|]]].
    rewrite <-app_assoc. f_equal. unfold passes_log.
    replace (Z.to_nat (iter s' - iter s)) with (S (Z.to_nat (iter s' - iter s1))) by lia. done.
  - simpl. unfold passes_log. rewrite Z.sub_diag, app_nil_r. split; [done|split; [lia|split; [lia|done]]].
Qed.

#[local] Arguments sp2_while : simpl never.

Lemma reportResults_ok X X2 : valid h h X → valid h h X2 → returns (reportResults X X2 d) (λ _, True).
Proof.
  intros HX HX2. destruct Hd as [Hlo Hhi]. unfold reportResults. rewrite Hlo, Hhi. eapply returns_bind.
  { apply (for_range_inv (λ i r, 0 ≤ sumIIA r ≤ i * h ∧ 0 ≤ sumIIC r ≤ i * h)); [lia|simpl; lia|].
    intros i r Hi [H1 H2]. unfold report_row. rewrite (read_nnz h h X), (read_nnz h h X2) by done. csimpl.
    destruct (valid_row h h X i HX Hi) as [_ L1], (valid_row h h X2 i HX2 Hi) as [_ L2].
    assert ((i + 1) * h ≤ h * h) by (apply Z.mul_le_mono_nonneg_r; lia).
    rewrite !int32_Ok by (unfold INT_MIN; lia). csimpl. lia. }
  intros r _. rewrite not_several. csimpl. destruct (printRank =? 0); csimpl; [done|].
  rewrite (sz_h _ _ _ (proj1 HX)), int32_Ok by (unfold INT_MIN; lia). done.
Qed.

Lemma passes_keep b n : keeps (if CD1 b then [false; true; true] else [false; true]) (passes_log b n).
Proof.
  unfold passes_log. induction (Z.to_nat n) as [|k IH]; [done|]. simpl. apply keeps_app; [|done].
  unfold pass_log, lv2. destruct (CD1 b), (CD2 b); done.
Qed.
Lemma sp2_cds_keep b n : keeps [true] (sp2_cds b [] (passes_log b n)).
Proof.
  pose proof (passes_keep b n) as Hk. unfold sp2_cds, lv2 in *. rewrite app_nil_l. destruct (CD1 b).
  - apply (keeps_child 1 "sp2Loop" [] _ eq_refl), (keeps_block 1 _ [true] _ eq_refl).
    destruct (CD2 b); [|done]. by apply (keeps_child 2 _ [true] _ eq_refl).
  - destruct (CD2 b); [|done]. by apply (keeps_child 1 _ [] _ eq_refl).
Qed.

Lemma sp2_cds_labels b n :
  (CD2 b = true → CD1 b = true) →
  labels 2 (sp2_cds b [] (passes_log b n)) = replicate (if CD2 b then Z.to_nat n else 0%nat) "sp2Loop_while"%string.
Proof.
  intros Hb. unfold sp2_cds, lv2, passes_log, pass_log. destruct (CD2 b) eqn:H2; [rewrite Hb by done|by destruct (CD1 b)].
  unfold lv2. rewrite (Hb eq_refl).
  assert (∀ k, labels 2 (mjoin (replicate k [CdBegin 2 "sp2Loop_while"; CdDetect 2; CdComplete 2])) = replicate k "sp2Loop_while"%string) as Hl.
  { induction k as [|k IH]; [done|]. simpl. f_equal. exact IH. }
  set (log := mjoin _). transitivity (labels 2 ([CdCreate 1 "sp2Loop"; CdBegin 1 "whileloop_sp2"; CdCreate 2 "sp2Loop_while"] ++
    log ++ [CdDestroy 2; CdDetect 1; CdComplete 1; CdDestroy 1])).
  - f_equal. simpl. by rewrite <-!app_assoc.
  - rewrite !labels_app. unfold log. rewrite Hl. by rewrite app_nil_r.
Qed.
End one_task.
#[local] Arguments sp2_while : simpl never.

(** The loop ends, and its calls are balanced. *)
Lemma sp2Loop_ok `{Par : Parallel} eps idemTol b h X d received final :
  getNRanks = 1 → DO_PRV b = false → (CD2 b = true → CD1 b = true) →
  0 < h → h * h ≤ INT_MAX → valid h h X → initDecomposition 1 0 1 h h = Ok d →
  returns (sp2Loop eps idemTol b X d received final) (λ '(X', s, log),
    valid h h X' ∧ 0 ≤ iter s ≤ 100 ∧ (iter s = 100 ∨ breakLoop s ≠ 0) ∧ keeps [true] log ∧
    labels 2 log = replicate (if CD2 b then Z.to_nat (iter s) else 0%nat) "sp2Loop_while").
Proof.
  intros Hone Hb Hcd Hpos Hmax HX Hd.
  assert (localRowMin d = 0 ∧ localRowMax d = h) as Hrows.
  { apply initDecomposition_rows in Hd as (_ & -> & -> & _); [|lia..]. rewrite Z.div_1_r. lia. }
  assert (0 ≤ h ∧ h * h ≤ INT_MAX) as Hh by lia.
  unfold sp2Loop. rewrite Hb, andb_false_r, Hone. csimpl.
  rewrite (sz_h _ _ _ (proj1 HX)), (sz_ms _ _ _ (proj1 HX)).
  eapply returns_bind; [apply initSparseMatrix_valid; lia|]. intros X2 [HX2 _].
  eapply returns_bind; [by apply (normalize_rows h h)|]. intros X1 [HX1 _].
  eapply returns_bind; [apply (sp2_while_ok eps idemTol h d Hone Hh Hrows); [done|done|simpl; lia|simpl; lia]|].
  intros [s log] (Hs & Hi & Hend & ->). simpl in Hi. simpl.
  eapply returns_bind; [apply (sparseMultScalar_rows ftwo h h); [apply Hs|lia..]|]. intros X3 [HX3 _].
  eapply returns_bind; [apply (reportResults_ok h d Hone Hh Hrows); [done|apply Hs]|]. intros _ _.
  assert ((match halo s with Some _ => Ok X3 | None => Ok X3 end) = Ok X3) as -> by by destruct (halo s).
  csimpl. rewrite Z.sub_0_r. split; [done|split; [lia|split; [done|]]].
  split; [by apply sp2_cds_keep|]. by apply sp2_cds_labels.
Qed.

(** ** Re-execution *)
Section reexecution.
Context `{Par : Parallel}.

(** The bytes of an object that a list of calls copies. *)
Fixpoint saved (evs : list event) (o : string) : option Z :=
  match evs with
  | [] => None
  | CdPreserve _ e :: evs =>
      if bool_decide (e_obj e = ObjVar o ∧ e_off e = 0 ∧ e_kind e = kCopy) then Some (e_len e) else saved evs o
  | _ :: evs => saved evs o
  end.

(** A variable, and an array with elements of [sz] bytes, when what was copied is
    restored: [old] is its value then, [now] what the failure left. *)
Definition back_var {A} (evs : list event) (o : string) (size : Z) (old now : A) : A :=
  if bool_decide (saved evs o = Some size) then old else now.
Definition back_array {A} (evs : list event) (o : string) (sz : Z) (old now : list A) : list A :=
  match saved evs o with
  | Some n => let k := Z.to_nat (n / sz) in take k old ++ drop k now
  | None => now
  end.

Definition back_matrix (evs : list event) (o : string) (old now : SparseMatrix) : SparseMatrix :=
  let st := back_var evs o sizeof_SparseMatrix old now in
  mkSparseMatrix (hsize st) (msize st) (bandwidth st) (back_array evs (o ++ "->iia") sizeof_int (iia old) (iia now))
    (back_array evs (o ++ "->jja[0]") sizeof_int (jjcontig old) (jjcontig now)) (maxEval st) (minEval st) (maxMinusMin st)
    (back_array evs (o ++ "->val[0]") sizeof_real (valcontig old) (valcontig now)).

(** The buffers are not preserved. *)
Definition back_halo (evs : list event) (old now : HaloExchangeSt) : HaloExchangeSt :=
  let st := back_var evs "haloExchange" sizeof_HaloExchangeSt old now in
  mkHalo (maxHalo st) (bufferSize st) (haloCount st)
    (back_array evs "haloExchange->haloProc" sizeof_int (haloProc old) (haloProc now)) (sendBuf now) (recvBuf now).

(** The state in which a pass is executed again: what the calls [evs] copied is as
    at the first execution [s], the rest as the failure [f] left it. *)
Definition reexecuted (evs : list event) (s f : LoopState) : LoopState :=
  mkLoop (back_matrix evs "xmatrix" (lx s) (lx f)) (back_matrix evs "x2matrix" (lx2 s) (lx2 f))
    (back_var evs "iter" sizeof_int (iter s) (iter f)) (back_var evs "breakLoop" sizeof_int (breakLoop s) (breakLoop f))
    (back_var evs "trX" sizeof_real (trX s) (trX f)) (back_var evs "trX2" sizeof_real (trX2 s) (trX2 f))
    (back_var evs "idempErr" sizeof_real (idempErr s) (idempErr f)) (back_var evs "idempErr1" sizeof_real (idempErr1 s) (idempErr1 f))
    (back_var evs "idempErr2" sizeof_real (idempErr2 s) (idempErr2 f))
    (match halo s, halo f with Some h, Some h' => Some (back_halo evs h h') | _, h' => h' end).

(** Halos with the same tasks and arrays of the same lengths. *)
Definition halo_like (hh hh' : HaloExchangeSt) : Prop :=
  haloCount hh = haloCount hh' ∧ procs hh = procs hh' ∧ length (haloProc hh) = length (haloProc hh') ∧
  length (sendBuf hh) = length (sendBuf hh').
Definition halos_like (o o' : option HaloExchangeSt) : Prop :=
  match o, o' with Some hh, Some hh' => halo_like hh hh' | None, None => True | _, _ => False end.

(** The arrays of a failed execution are those of the first one. *)
Definition same_arrays (h ms : Z) (s f : LoopState) : Prop :=
  sized h ms (lx s) ∧ sized h ms (lx2 s) ∧ sized h ms (lx f) ∧ sized h ms (lx2 f) ∧
  match halo s, halo f with
  | Some hh, Some hh' => length (haloProc hh) = length (haloProc hh') ∧ length (sendBuf hh) = length (sendBuf hh')
  | None, None => True
  | _, _ => False
  end.

(** The same results, up to [breakLoop], which is [b] in [r']. *)
Definition same_result (b : Z) (r r' : LoopState) : Prop :=
  lx r' = lx r ∧ lx2 r' = lx2 r ∧ iter r' = iter r ∧ trX r' = trX r ∧ trX2 r' = trX2 r ∧ idempErr r' = idempErr r ∧
  idempErr1 r' = idempErr1 r ∧ idempErr2 r' = idempErr2 r ∧ halos_like (halo r) (halo r') ∧
  breakLoop r' = if breakLoop r =? 1 then 1 else b.

End reexecution.

(** *** Runs that differ only in what they do not read *)

Definition agree {A B} (R : A → B → Prop) (x : res A) (y : res B) : Prop :=
  match x, y with Ok a, Ok b => R a b | Err e, Err e' => e = e' | _, _ => False end.

Lemma agree_bind {A B C D} (R : A → B → Prop) (Q : C → D → Prop) x y (f : A → res C) (g : B → res D) :
  agree R x y → (∀ a b, R a b → agree Q (f a) (g b)) → agree Q (x ≫= f) (y ≫= g).
Proof. destruct x, y; simpl; try done. intros H Hf. by apply Hf. Qed.
Lemma agree_same {A} (x : res A) : agree eq x x.
Proof. by destruct x. Qed.
Lemma agree_same_bind {A C D} (Q : C → D → Prop) (x : res A) (f : A → res C) (g : A → res D) :
  (∀ a, agree Q (f a) (g a)) → agree Q (x ≫= f) (x ≫= g).
Proof. intros Hf. destruct x; [apply Hf|done]. Qed.

Lemma agree_for {S S'} (R : S → S' → Prop) lo hi (F : Z → S → res S) (G : Z → S' → res S') s s' :
  R s s' → (∀ i s s', lo ≤ i < hi → R s s' → agree R (F i s) (G i s')) →
  agree R (for_range lo hi F s) (for_range lo hi G s').
Proof.
  intros Hs Hstep. unfold for_range.
  assert (∀ l, (∀ i, i ∈ l → lo ≤ i < hi) → ∀ s s', R s s' → agree R (foldM F l s) (foldM G l s')) as Hl.
  { induction l as [|i l IH]; intros Hin s1 s2 H12; [done|]. simpl. eapply agree_bind; [apply Hstep; [set_solver|done]|].
    intros a b Hab. apply IH; [set_solver|done]. }
  apply Hl; [|done]. intros i Hi%elem_of_seqZ. lia.
Qed.

Lemma agree_store {A} (a a' : list A) i x x' :
  length a = length a' → agree (λ b b', b = <[Z.to_nat i := x]> a ∧ b' = <[Z.to_nat i := x']> a' ∧ 0 ≤ i < Z.of_nat (length a))
    (astore a i x) (astore a' i x').
Proof.
  intros Hl. unfold astore. rewrite <-Hl. destruct ((0 <=? i) && (i <? Z.of_nat (length a))) eqn:Hi; [|done]. simpl. zbool. done.
Qed.

(** The listed tasks are read alike. *)
Lemma halo_like_proc hh hh' i : halo_like hh hh' → 0 ≤ i < haloCount hh → aload (haloProc hh) i = aload (haloProc hh') i.
Proof.
  intros (Hc & Hp & _ & _) Hi. unfold aload. rewrite (proj2 (Z.leb_le _ _)) by lia.
  assert (haloProc hh !! Z.to_nat i = haloProc hh' !! Z.to_nat i) as ->; [|done].
  rewrite <-(lookup_take_lt (haloProc hh) (Z.to_nat (haloCount hh))), <-(lookup_take_lt (haloProc hh') (Z.to_nat (haloCount hh'))) by lia.
  unfold procs in Hp. by rewrite Hp.
Qed.

Lemma halo_like_found hh hh' r : halo_like hh hh' → isHaloProc hh r = isHaloProc hh' r.
Proof.
  intros Hh. unfold isHaloProc. rewrite <-(proj1 Hh). apply for_range_ext. intros i [] Hi; [done|].
  by rewrite (halo_like_proc hh hh').
Qed.

Lemma halo_like_add hh hh' n r :
  halo_like hh hh' → haloCount hh = n →
  agree halo_like (a ← astore (haloProc hh) n r; Ok (with_procs (n + 1) a hh))
    (a ← astore (haloProc hh') n r; Ok (with_procs (n + 1) a hh')).
Proof.
  intros (Hc & Hp & Hl & Hs) <-. eapply agree_bind; [by apply (agree_store _ _ _ r r)|]. intros a a' (-> & -> & Hi). simpl.
  split; [done|]. split; [|split; [simpl; by rewrite !length_insert|done]]. unfold procs in *. simpl.
  replace (Z.to_nat (haloCount hh + 1)) with (S (Z.to_nat (haloCount hh))) by lia.
  rewrite !(take_S_r _ _ r) by (apply list_lookup_insert_eq; lia). rewrite !take_insert_ge by lia. rewrite <-Hc in Hp. by rewrite Hp.
Qed.

Lemma addHaloProc_agree hh hh' r : halo_like hh hh' → agree halo_like (addHaloProc r hh) (addHaloProc r hh').
Proof.
  intros Hh. unfold addHaloProc. rewrite <-(proj1 Hh). destruct (Z.eqb_spec (haloCount hh) 0) as [H0|H0].
  - by apply (halo_like_add hh hh' 0 r).
  - rewrite (halo_like_found hh hh') by done. apply agree_same_bind. intros []; [done|]. by apply halo_like_add.
Qed.

Lemma updateData_agree hh hh' X d :
  length (haloProc hh) = length (haloProc hh') → length (sendBuf hh) = length (sendBuf hh') →
  agree halo_like (updateData hh X d) (updateData hh' X d).
Proof.
  intros Hp Hs. unfold updateData. apply agree_for; [by split|]. intros i s s' _ Hss. apply agree_same_bind. intros n.
  apply agree_for; [done|]. intros j t t' _ Htt. unfold halo_entry. apply agree_same_bind. intros c.
  destruct (_ || _); [|done]. apply agree_same_bind. intros p. by apply addHaloProc_agree.
Qed.

Lemma loadBuffer_agree buf buf' X d :
  length buf = length buf' → agree (λ st st', length st.1 = length st'.1) (loadBuffer buf X d) (loadBuffer buf' X d).
Proof.
  intros Hl. unfold loadBuffer. apply (agree_bind (λ st st', length st.1 = length st'.1 ∧ st.2 = st'.2)).
  - apply agree_for; [done|]. intros i s s' _ Hss. apply agree_same_bind. intros n. apply agree_for; [done|].
    intros j [b k] [b' k'] _ [Hb Hk]. simpl in *. subst k'. apply agree_same_bind. intros c. apply agree_same_bind. intros v.
    eapply agree_bind; [by apply (agree_store _ _ _ (mkMsg i c v) (mkMsg i c v))|]. intros a a' (-> & -> & _). simpl.
    by rewrite !length_insert.
  - intros [b k] [b' k'] [Hb Hk]. done.
Qed.

Lemma exchangeData_agree hh hh' X d received :
  halo_like hh hh' →
  agree (λ '(h, Y, _) '(h', Y', _), halo_like h h' ∧ Y = Y') (exchangeData hh X d received) (exchangeData hh' X d received).
Proof.
  intros Hh. unfold exchangeData. rewrite <-(proj1 Hh). destruct (0 <? haloCount hh); [|done].
  apply (agree_bind (λ '(h, _) '(h', _), halo_like h h')).
  - unfold exchange_sends. eapply agree_bind; [apply loadBuffer_agree, Hh|]. intros [b n] [b' n'] Hb. simpl in Hb.
    eapply (agree_bind (λ _ _, True)).
    + rewrite <-(proj1 Hh). apply agree_for; [done|]. intros i s s' Hi _. rewrite (halo_like_proc hh hh') by done.
      by apply agree_same_bind.
    + intros out out' _. simpl. by destruct Hh as (H1 & H2 & H3 & _).
  - intros [h o] [h' o'] Hlike. by apply agree_same_bind.
Qed.

(** *** What is restored *)
Section pass_again.
Context `{Par : Parallel}.
Variables (h ms : Z).
Hypothesis Hsmall : h * sizeof_int < 2 ^ 32 ∧ h * ms * sizeof_real < 2 ^ 32.

Lemma back_array_all {A} evs o sz n (old now : list A) :
  saved evs o = Some (n * sz) → 0 < sz → Z.of_nat (length old) = n → Z.of_nat (length now) = n → back_array evs o sz old now = old.
Proof.
  intros Hs Hsz Ho Hn. unfold back_array. rewrite Hs, Z.div_mul, take_ge, drop_ge by lia. apply app_nil_r.
Qed.

Lemma saved_matrix evs o old now :
  saved evs o = Some sizeof_SparseMatrix → saved evs (o ++ "->iia") = Some (h * sizeof_int) →
  saved evs (o ++ "->jja[0]") = Some (h * ms * sizeof_int) → saved evs (o ++ "->val[0]") = Some (h * ms * sizeof_real) →
  sized h ms old → sized h ms now → back_matrix evs o old now = old.
Proof.
  intros S1 S2 S3 S4 [? ? ? ? ? ?] [? ? ? ? ? ?]. unfold back_matrix, back_var. rewrite S1, bool_decide_true by done.
  rewrite (back_array_all _ _ _ _ _ _ S2), (back_array_all _ _ _ _ _ _ S3), (back_array_all _ _ _ _ _ _ S4) by done. by destruct old.
Qed.

Lemma sprintf_Ok cap s s' : sprintf cap s = Ok s' → s' = s.
Proof. unfold sprintf. destruct (_ <? _); [|done]. by intros [= <-]. Qed.

(** The calls that preserve a matrix. *)
Lemma preserveSparseMatrix_events l o X name evs n :
  sized h ms X → preserveSparseMatrix l o X name = Ok (evs, n) →
  evs = [copied l o sizeof_SparseMatrix ("spm_" ++ name); copied l (o ++ "->iia") (h * sizeof_int) ("iia_" ++ name);
         copied l (o ++ "->jja[0]") (h * ms * sizeof_int) ("jja_" ++ name);
         copied l (o ++ "->val[0]") (h * ms * sizeof_real) ("val_" ++ name)].
Proof.
  intros HX. pose proof (sz_pos _ _ _ HX). assert (0 ≤ h * ms) by nia. unfold sizeof_real, sizeof_int in *.
  unfold preserveSparseMatrix, preserveNZs_ELL, preserveIndices_ELL, preserveValues_ELL.
  rewrite (sz_h h ms X HX), (sz_ms h ms X HX). unfold sizeof_int, sizeof_real. intros Hev.
  apply bind_Ok in Hev as (s0 & ->%sprintf_Ok & Hev). apply bind_Ok in Hev as ([e1 n1] & He1 & Hev).
  apply bind_Ok in He1 as (s1 & ->%sprintf_Ok & [= <- _]). apply bind_Ok in Hev as ([e2 n2] & He2 & Hev).
  apply bind_Ok in He2 as (s2 & ->%sprintf_Ok & He2). apply bind_Ok in He2 as (z & [-> _]%int32_inv & [= <- _]).
  apply bind_Ok in Hev as ([e3 n3] & He3 & [= <- _]). apply bind_Ok in He3 as (s3 & ->%sprintf_Ok & He3).
  apply bind_Ok in He3 as (z & [-> _]%int32_inv & [= <- _]).
  by rewrite !u32_small by lia.
Qed.

Lemma saved_copied l o size name evs o' :
  saved (copied l o size name :: evs) o' = if (o =? o')%string then Some size else saved evs o'.
Proof.
  simpl. destruct (String.eqb_spec o o') as [->|Hne].
  - by rewrite bool_decide_true.
  - rewrite bool_decide_false; [done|]. intros ([= ->] & _). done.
Qed.

(** What a pass preserves makes the state of its start again, but for [breakLoop], what a pass computes before it reads it, and what is behind the tasks of the halo. *)
Lemma pass_data_restores nx nx2 b s f evs :
  pass_data nx nx2 b s = Ok evs → same_arrays h ms s f →
  ∃ hh hh', halo s = Some hh ∧ length (haloProc hh) = length (haloProc hh') ∧ length (sendBuf hh) = length (sendBuf hh') ∧
    reexecuted evs s f =
      mkLoop (lx s) (lx2 s) (iter s) (breakLoop f) (trX f) (trX2 f) (idempErr s) (idempErr1 s) (idempErr2 f) (Some hh').
Proof.
  intros Hev (HX & HX2 & HY & HY2 & Hh). unfold pass_data in Hev.
  apply bind_Ok in Hev as ([ev1 n1] & H1 & Hev). apply bind_Ok in Hev as ([ev2 n2] & H2 & Hev).
  apply bind_Ok in Hev as ([ev3 n3] & H3 & [= <-]).
  apply preserveSparseMatrix_events in H1 as ->; [|done]. apply preserveSparseMatrix_events in H2 as ->; [|done].
  unfold preserveHaloExchange in H3. unfold reexecuted. destruct (halo s) as [hh|]; [|done]. injection H3 as <- _.
  destruct (halo f) as [hf|]; [|done]. destruct Hh as [Hp Hs]. rewrite <-!app_comm_cons, !app_nil_l.
  rewrite !(saved_matrix _ _ _ _) by (done || (rewrite !saved_copied; reflexivity)).
  unfold back_var. rewrite !saved_copied. simpl.
  eexists hh, _. split; [done|]. split; [|split; [|reflexivity]]; [|done]. simpl.
  unfold back_array. rewrite !saved_copied. simpl. rewrite length_app, length_take, length_drop. lia.
Qed.

End pass_again.

(** *** The parts of a pass *)
Section pass_agree.
Context `{Par : Parallel}.
Variables (eps idemTol : real_t) (d : DomainSt) (occ : real_t) (b : Z).
Hypothesis Hseveral : 1 < getNRanks.

(** Before the traces decide: the second state has [b] in [breakLoop], another older error, and another halo that is read alike. *)
Inductive pass_like : LoopState → LoopState → Prop :=
  | PassLike X X2 i t t2 e e1 e2 e2' hh hh' : halo_like hh hh' →
      pass_like (mkLoop X X2 i 0 t t2 e e1 e2 (Some hh)) (mkLoop X X2 i b t t2 e e1 e2' (Some hh')).

Lemma several : (1 <? getNRanks) = true.
Proof. lia. Qed.

Lemma sp2_square_agree X X2 i t t2 t' t2' e e1 e2 e2' hh hh' :
  length (haloProc hh) = length (haloProc hh') → length (sendBuf hh) = length (sendBuf hh') →
  agree pass_like (sp2_square eps d (mkLoop X X2 i 0 t t2 e e1 e2 (Some hh)))
    (sp2_square eps d (mkLoop X X2 i b t' t2' e e1 e2' (Some hh'))).
Proof.
  intros Hp Hs. unfold sp2_square. rewrite several. simpl.
  eapply (agree_bind (λ o o', ∃ k k', o = Some k ∧ o' = Some k' ∧ halo_like k k')).
  - eapply agree_bind; [by apply updateData_agree|]. intros k k' Hk. simpl. eauto.
  - intros ? ? (k & k' & -> & -> & Hk). apply agree_same_bind. intros [[u u2] Y]. simpl. by constructor.
Qed.

Lemma sp2_reduce_agree s s' : pass_like s s' → agree pass_like (sp2_reduce s) (sp2_reduce s').
Proof.
  intros [X X2 i t t2 e e1 e2 e2' hh hh' Hh]. unfold sp2_reduce. rewrite several. simpl.
  apply agree_same_bind. intros u. apply agree_same_bind. intros u2. by constructor.
Qed.

Lemma sp2_choose_agree s s' :
  pass_like s s' → agree (same_result b) (sp2_choose eps idemTol d occ s) (sp2_choose eps idemTol d occ s').
Proof.
  intros [X X2 i t t2 e e1 e2 e2' hh hh' Hh]. unfold sp2_choose. simpl.
  eapply (agree_bind (λ '(Y, u, c) '(Y', u', c'), Y = Y' ∧ u = u' ∧ ((c = 0 ∧ c' = b) ∨ (c = 1 ∧ c' = 1)))).
  - destruct (fltb idemTol _); [|destruct (fltb _ _); [|simpl; by auto]]; apply agree_same_bind; intros Y; simpl; by auto.
  - intros [[Y u] c] [[Y' u'] c'] (<- & <- & Hc). unfold same_result. simpl. split_and!; try done.
    destruct (_ && _); [done|]. by destruct Hc as [[-> ->]|[-> ->]].
Qed.

Lemma sp2_exchange_agree received s s' :
  same_result b s s' → agree (same_result b) (sp2_exchange d received s) (sp2_exchange d received s').
Proof.
  intros Hr. pose proof Hr as (HX & HX2 & Hi & Ht & Ht2 & He & He1 & He2 & Hh & Hb). unfold sp2_exchange. rewrite several.
  destruct (halo s) as [hh|], (halo s') as [hh'|]; simpl in Hh; try done. rewrite HX.
  eapply agree_bind; [by apply exchangeData_agree|]. intros [[k Y] o] [[k' Y'] o'] [Hk <-]. unfold same_result. simpl. by split_and!.
Qed.

Lemma sp2_body_agree received s hh hh' t t2 e2 :
  breakLoop s = 0 → halo s = Some hh →
  length (haloProc hh) = length (haloProc hh') → length (sendBuf hh) = length (sendBuf hh') →
  agree (same_result b) (sp2_body eps idemTol d occ received s)
    (sp2_body eps idemTol d occ received
       (mkLoop (lx s) (lx2 s) (iter s) b t t2 (idempErr s) (idempErr1 s) e2 (Some hh'))).
Proof.
  intros Hb Hhalo Hp Hs. unfold sp2_body. eapply agree_bind.
  { destruct s; simpl in *; subst. by apply sp2_square_agree. }
  intros s1 s1' H1. eapply agree_bind; [by apply sp2_reduce_agree|].
  intros s2 s2' H2. eapply agree_bind; [by apply sp2_choose_agree|]. intros s3 s3' H3. by apply sp2_exchange_agree.
Qed.
End pass_agree.

(** C36: What a pass preserves is enough to execute it again, but for [breakLoop]. The state of the second execution is made from the calls of the pass that preserve data ([pass_data], with names that fit in its arrays: those of the program do not, [preserving_pass_fails]): the regions they copied are as at the start of the pass, everything else is what the failed execution left, whatever that is. On several tasks (on one, the preserved halo has no value), with the same messages and sums of the traces, and for matrices of less than 4 GiB, the pass fails exactly where it failed, or computes the same matrices, traces, errors and count, and the same tasks of the halo; [breakLoop] is as in the first execution when the failed one had not set it, and when it had, because it computed wrong traces, the loop ends after this pass even where it should go on. *)
Theorem sp2_reexecution `{Par : Parallel} eps idemTol d occ received nameX nameX2 build h ms s f evs :
  1 < getNRanks → h * sizeof_int < 2 ^ 32 ∧ h * ms * sizeof_real < 2 ^ 32 →
  breakLoop s = 0 → same_arrays h ms s f → pass_data nameX nameX2 build s = Ok evs →
  agree (same_result (breakLoop f)) (sp2_body eps idemTol d occ received s)
    (sp2_body eps idemTol d occ received (reexecuted evs s f)).
Proof.
  intros Hseveral Hsmall Hb Harr Hev.
  destruct (pass_data_restores h ms Hsmall _ _ _ _ _ _ Hev Harr) as (hh & hh' & Hhalo & Hp & Hs & ->). by eapply sp2_body_agree.
Qed.

(** The first of two tasks. *)
Definition first_of_two : Parallel := {|
  getNRanks := 2; getMyRank := 0;
  sendReceiveParallel := @Serial.sendReceive;
  addIntParallel := Serial.addInt; maxIntParallel := Serial.maxInt; addRealParallel := Serial.addReal;
|}.
Definition small_halo (p : Z) : HaloExchangeSt := mkHalo 2 32 1 [p; p] (replicate 4 (mkMsg 0 0 fzero)) [].
Definition small_state : LoopState := mkLoop small_matrix small_matrix 3 0 fzero fzero fone fone fone (Some (small_halo 1)).
Definition failed_state : LoopState :=
  let X := get small_matrix (initSparseMatrix 2 2) in mkLoop X X 9 1 fone fone fzero fzero fzero (Some (small_halo 0)).

Lemma sp2_reexecution_witness :
  let evs := get [] (pass_data (Par := first_of_two) "x" "y" (mkBuild true true true) small_state) in
  let received := [(rows_msgs small_matrix 1 2, 32)] in
  length evs = 16%nat ∧
  returns (sp2_body (Par := first_of_two) (flit 1 100000) (flit 1 100000000) half_domain fone received small_state) (λ _, True) ∧
  agree (same_result 1)
    (sp2_body (Par := first_of_two) (flit 1 100000) (flit 1 100000000) half_domain fone received small_state)
    (sp2_body (Par := first_of_two) (flit 1 100000) (flit 1 100000000) half_domain fone received (reexecuted evs small_state failed_state)).
Proof.
  split; [by vm_compute|]. split; [by vm_compute|].
  apply (sp2_reexecution (Par := first_of_two) _ _ half_domain fone _ "x" "y" (mkBuild true true true) 2 2 small_state failed_state);
    [done|done|done| |by vm_compute].
  split_and!; [apply small_valid|apply small_valid|by vm_compute..|done|done].
Defined.

(** ** Names of preserved data *)

Lemma sprintf_length cap s : sprintf cap s = Err OutOfBounds ↔ cap ≤ Z.of_nat (String.length s).
Proof. unfold sprintf. destruct (Z.ltb_spec (Z.of_nat (String.length s)) cap); split; (done || lia). Qed.

Lemma sprintf_cases cap s : sprintf cap s = Ok s ∨ sprintf cap s = Err OutOfBounds.
Proof. unfold sprintf. destruct (_ <? _); auto. Qed.

Lemma prefixed_length (p name : string) :
  Z.of_nat (String.length (p ++ name)) = Z.of_nat (String.length p) + Z.of_nat (String.length name).
Proof. induction p as [|c p IH]; simpl; [done|]. lia. Qed.

Lemma preserveSparseMatrix_name cdh o spm name :
  preserveSparseMatrix cdh o spm name = Err OutOfBounds ↔ 2 ≤ Z.of_nat (String.length name).
Proof.
  unfold preserveSparseMatrix, preserveNZs_ELL, preserveIndices_ELL, preserveValues_ELL.
  unfold sprintf. rewrite !prefixed_length. simpl String.length. change (Z.of_nat 4) with 4. split; intros H.
  - destruct (Z.ltb_spec (4 + Z.of_nat (String.length name)) 6); [|lia]. exfalso. revert H.
    rewrite (proj2 (Z.ltb_lt _ 16)) by lia. csimpl.
    destruct (int32 (hsize spm * msize spm)) as [n|er] eqn:Hi; csimpl; [done|]. intros [= ->]. unfold int32 in Hi. by destruct (_ && _).
  - destruct (Z.ltb_spec (4 + Z.of_nat (String.length name)) 16); csimpl; [|done].
    destruct (Z.ltb_spec (4 + Z.of_nat (String.length name)) 6); csimpl; [lia|done].
Qed.

(** Preserving a matrix overflows the array for the name of its columns: [preserveSparseMatrix] leaves an array exactly when the name it is given has more than one character, whatever the matrix; so the program built with the domain of a pass and with preservation (the Makefile's options with ENABLE_CD) fails in the first pass, on every matrix. *)
Theorem preserving_pass_fails :
  (∀ cdh o spm name, preserveSparseMatrix cdh o spm name = Err OutOfBounds ↔ 2 ≤ Z.of_nat (String.length name)) ∧
  (∀ `{Par : Parallel} eps idemTol h ms X d received final,
    getNRanks = 1 → valid h ms X → h * ms ≤ INT_MAX →
    sp2Loop eps idemTol (mkBuild true true true) X d received final = Err OutOfBounds).
Proof.
  split; [exact preserveSparseMatrix_name|]. intros Par eps idemTol h ms X d received final Hone HX Hmax.
  unfold sp2Loop. rewrite Hone. csimpl. rewrite (sz_h _ _ _ (proj1 HX)), (sz_ms _ _ _ (proj1 HX)).
  pose proof (sz_pos _ _ _ (proj1 HX)) as [Hh Hms].
  pose proof (initSparseMatrix_valid h ms Hh Hms Hmax) as H2. apply returns_Ok in H2 as (X2 & -> & _). csimpl.
  pose proof (normalize_rows h ms X HX) as H1. apply returns_Ok in H1 as (X1 & -> & _). csimpl.
  done.
Qed.

Lemma preserving_pass_fails_witness :
  sp2Loop (flit 1 100000) (flit 1 100000000) (mkBuild true true true) small_matrix small_domain (λ _, []) [] = Err OutOfBounds.
Proof. apply (proj2 preserving_pass_fails _ _ _ 2 2); [done|exact small_valid|done]. Defined.
