(* ===== verification/Sp2Tasks.v ===== *)
(** * CoSP2: several tasks

    One pass of the loop on all tasks: they square their rows, reduce the traces,
    update their rows and exchange them.  The theorems show which rows a task has
    after a pass, and two cases the code does not handle: rows that come into
    the halo of a task by the squaring, and rows of no task. *)

From Stdlib Require Import ZArith Lia.
From stdpp Require Import base list numbers sets.
From S2P Require Import Prelude Float64 Parallel SparseMatrix SparseMath SparseHalo Sp2Loop.

#[local] Open Scope Z_scope.

(** ** The rows of the tasks *)

(** The decomposition of [initDecomposition] and [processorNum] agree on the owner of a row, and no row has two; but the rows behind the last multiple of the number of tasks are of no task, although [processorNum] gives one. *)
Theorem rows_of_tasks n hs ms i :
  0 < n → n ≤ hs → hs ≤ INT_MAX → 0 ≤ i < hs →
  (∀ r, 0 ≤ r < n → returns (initDecomposition n r n hs ms) (λ d,
     (localRowMin d ≤ i < localRowMax d) ↔ processorNum d i = Ok r)) ∧
  ((∃ r d, 0 ≤ r < n ∧ initDecomposition n r n hs ms = Ok d ∧ localRowMin d ≤ i < localRowMax d) ↔ i < n * (hs / n)).
Proof.
  intros Hn Hle Hmax Hi. set (ext := hs / n). assert (0 < ext) as Hext by (apply Z.div_str_pos; lia).
  assert (n * ext ≤ hs) as Htotal by (apply Z.mul_div_le; lia).
  assert (∀ r, 0 ≤ r < n → returns (initDecomposition n r n hs ms) (λ d,
     localRowExtent d = ext ∧ localRowMin d = r * ext ∧ localRowMax d = (r + 1) * ext)) as Hinit.
  { intros r Hr. assert (0 ≤ r * ext ∧ (r + 1) * ext ≤ n * ext) by nia.
    unfold initDecomposition. rewrite Z.eqb_refl, Z.sub_0_r, int32_Ok by (unfold INT_MIN; lia). csimpl.
    rewrite cdiv_Ok by lia. csimpl. fold ext. rewrite !int32_Ok by (unfold INT_MIN; lia). done. }
  assert (∀ r, (r * ext ≤ i < (r + 1) * ext) ↔ i / ext = r) as Hdiv.
  { intros r. pose proof (Z.div_mod i ext ltac:(lia)). pose proof (Z.mod_pos_bound i ext ltac:(lia)). split; [|intros <-; nia].
    intros Hr. symmetry. apply (Z.div_unique_pos i ext r (i - r * ext)); lia. }
  split.
  - intros r Hr. eapply returns_mono; [by apply Hinit|]. intros d (H1 & -> & ->). unfold processorNum.
    rewrite H1, cdiv_Ok by lia. rewrite Hdiv. split; [by intros ->|by intros [= ->]].
  - split.
    + intros (r & d & Hr & Hd & Hin). specialize (Hinit r Hr). rewrite Hd in Hinit. destruct Hinit as (_ & H2 & H3). nia.
    + intros Hlt. assert (0 ≤ i / ext < n) as Hr by (split; [apply Z.div_pos; lia|apply Z.div_lt_upper_bound; lia]).
      pose proof (Hinit _ Hr) as Hd. apply returns_Ok in Hd as (d & Hd & _ & H2 & H3). exists (i / ext), d.
      split; [done|split; [done|]]. rewrite H2, H3. by apply Hdiv.
Qed.

Lemma rows_of_tasks_witness :
  (∀ r, 0 ≤ r < 3 → returns (initDecomposition 3 r 3 5 5) (λ d, (localRowMin d ≤ 4 < localRowMax d) ↔ processorNum d 4 = Ok r)) ∧
  ((∃ r d, 0 ≤ r < 3 ∧ initDecomposition 3 r 3 5 5 = Ok d ∧ localRowMin d ≤ 4 < localRowMax d) ↔ 4 < 3 * (5 / 3)).
Proof. apply (rows_of_tasks 3 5 5 4); [lia|lia|done|lia]. Defined.

(** ** One pass of all tasks *)

Definition Sp2Task : Type := DomainSt * LoopState.

(** The communication interface of one of [n] tasks; [sum] is what the reduction gives. *)
Definition task_par (n r : Z) (sum : list real_t) : Parallel := {|
  getNRanks := n; getMyRank := r;
  sendReceiveParallel := @Serial.sendReceive;
  addIntParallel := Serial.addInt; maxIntParallel := Serial.maxInt;
  addRealParallel := λ _, sum;
|}.

Definition mapM_res {A B} (f : A → res B) (l : list A) : res (list B) :=
  foldM (λ x acc, y ← f x; Ok (acc ++ [y])) l [].

(** The messages of a task, with their destinations. *)
Definition task_sends (t : Sp2Task) : res (list (Z * message)) :=
  match halo t.2 with
  | Some hh => if 0 <? haloCount hh then '(_, out) ← exchange_sends hh (lx t.2) t.1; Ok out else Ok []
  | None => Ok []
  end.

Definition inbox (sends : list (list (Z * message))) (r : Z) : list message :=
  snd <$> filter (λ s, s.1 = r) (concat sends).

(** [sp2_body] on all tasks; messages arrive in the order of the senders. *)
Definition sp2_round (eps idemTol occ : real_t) (tasks : list Sp2Task) : res (list Sp2Task) :=
  let n := Z.of_nat (length tasks) in
  tasks ← mapM_res (λ '(d, s), s ← sp2_square (Par := task_par n 0 []) eps d s; Ok (d, s)) tasks;
  let sum := [foldl fadd fzero ((λ t, trX t.2) <$> tasks); foldl fadd fzero ((λ t, trX2 t.2) <$> tasks)] in
  tasks ← mapM_res (λ '(d, s), s ← sp2_reduce (Par := task_par n 0 sum) s; s ← sp2_choose eps idemTol d occ s; Ok (d, s)) tasks;
  sends ← mapM_res task_sends tasks;
  mapM_res (λ '(r, (d, s)), s ← sp2_exchange (Par := task_par n r sum) d (inbox sends r) s; Ok (d, s))
    (zip (seqZ 0 n) tasks).

(** ** Which rows a task has after a pass *)
Section old_halo.
Context `{Par : Parallel}.
Variables (eps idemTol : real_t) (nRanks myRank ext : Z) (d : DomainSt).
Hypothesis Hpar : getNRanks = nRanks ∧ 1 < nRanks ∧ ∀ l : list real_t, (2 ≤ length (addRealParallel l))%nat.
Hypothesis Hrank : 0 < ext ∧ 0 ≤ myRank < nRanks.
Hypothesis Hd : localRowExtent d = ext ∧ localRowMin d = myRank * ext ∧ localRowMax d = (myRank + 1) * ext.

(** The task's block of rows. *)
Lemma own_rows : 0 ≤ localRowMin d ∧ localRowMin d ≤ localRowMax d ∧ localRowMax d ≤ nRanks * ext.
Proof. destruct Hd as (_ & -> & ->). nia. Qed.

Lemma sp2_reduce_rows s : returns (sp2_reduce s) (λ s', lx s' = lx s ∧ lx2 s' = lx2 s ∧ halo s' = halo s).
Proof.
  destruct Hpar as (_ & _ & Hsum). unfold sp2_reduce. destruct (1 <? getNRanks); [|done]. specialize (Hsum [trX s; trX2 s]).
  destruct (aload_is_Some (addRealParallel [trX s; trX2 s]) 0) as (x & _ & ->); [lia|]. csimpl.
  by destruct (aload_is_Some (addRealParallel [trX s; trX2 s]) 1) as (y & _ & ->); [lia|].
Qed.

Lemma sp2_choose_rows occ s :
  valid (nRanks * ext) (nRanks * ext) (lx s) → valid (nRanks * ext) (nRanks * ext) (lx2 s) →
  returns (sp2_choose eps idemTol d occ s) (λ s', valid (nRanks * ext) (nRanks * ext) (lx s') ∧ halo s' = halo s ∧
    ∀ i, 0 ≤ i < nRanks * ext → ¬ (localRowMin d ≤ i < localRowMax d) → row (lx s') i = row (lx s) i).
Proof.
  intros HX HX2. destruct own_rows as (H1 & H2 & H3). unfold sp2_choose.
  eapply (returns_bind _ _ (λ '(X, _, _), valid (nRanks * ext) (nRanks * ext) X ∧
    ∀ i, 0 ≤ i < nRanks * ext → ¬ (localRowMin d ≤ i < localRowMax d) → row X i = row (lx s) i)).
  - destruct (fltb idemTol _); [|destruct (fltb _ _); [|done]]; eapply returns_bind.
    + apply (sparseAdd_spec eps (nRanks * ext) (nRanks * ext) _ _ d HX HX2); [lia..|]. intros i Hi. apply columns_fit; [|lia].
      intros k. apply (difference_cols (nRanks * ext) (nRanks * ext) _ HX2 i (lx s)); [lia|done].
    + intros X [HX' Hrows]. split; [done|]. intros i Hi Hout. rewrite Hrows by done. by rewrite decide_False.
    + apply (sparseSetX2_rows eps (nRanks * ext) (nRanks * ext) _ _ d HX HX2); lia.
    + intros X [HX' Hrows]. split; [done|]. intros i Hi Hout. rewrite Hrows by done. by rewrite decide_False.
  - intros [[X t] b] [HX' Hrows]. done.
Qed.

(** [updateData] changes the list of tasks only. *)
Lemma updateData_buffer hh X hh' : updateData hh X d = Ok hh' → sendBuf hh' = sendBuf hh.
Proof.
  apply (for_range_preserve (λ k, sendBuf k = sendBuf hh)); [|done]. intros i k k' _ Hk Hrow.
  apply bind_Ok in Hrow as (n & _ & Hrow). revert Hk Hrow. apply (for_range_preserve (λ k, sendBuf k = sendBuf hh)). intros j k1 k2 _ Hk He.
  apply bind_Ok in He as (c & _ & He). destruct (_ || _); [|by injection He as <-]. apply bind_Ok in He as (q & _ & He).
  unfold addHaloProc in He. destruct (_ =? _); [apply bind_Ok in He as (a & _ & [= <-]); done|].
  apply bind_Ok in He as ([] & _ & He); [by injection He as <-|]. by apply bind_Ok in He as (a & _ & [= <-]).
Qed.

(** The block of rows of the task [p]. *)
Definition block_of (p : Z) (b : block) : Prop := b_lo b = p * ext ∧ b_hi b = (p + 1) * ext.

Lemma blocks_separate ps bs : NoDup ps → Forall2 block_of ps bs → separate bs.
Proof.
  intros Hnd Hall j k b b' i Hj Hk Hin Hin'. destruct Hrank as [Hext _].
  destruct (Forall2_lookup_r _ _ _ _ _ Hall Hj) as (p & Hp & Hb1 & Hb2).
  destruct (Forall2_lookup_r _ _ _ _ _ Hall Hk) as (p' & Hp' & Hb1' & Hb2').
  unfold inside in *. rewrite Hb1, Hb2 in Hin. rewrite Hb1', Hb2' in Hin'. assert (p = p') as <- by nia.
  by eapply NoDup_lookup.
Qed.

Lemma sp2_exchange_rows received s hh ps bs :
  valid (nRanks * ext) (nRanks * ext) (lx s) → halo s = Some hh → halo_ok nRanks hh → ext * (nRanks * ext) ≤ Z.of_nat (length (sendBuf hh)) →
  ps ≡ₚ procs hh → Forall2 block_of ps bs → Forall (block_ok (nRanks * ext) (nRanks * ext)) bs → Forall2 carries bs received →
  returns (sp2_exchange d received s) (λ s', delivered (nRanks * ext) bs (lx s) (lx s')).
Proof.
  intros HX Hhalo Hok Hbuf Hps Hblocks Hbs Hrec. destruct Hpar as (HN & Hmany & _), own_rows as (H1 & H2 & H3), Hd as (_ & Hlo & Hhi).
  unfold sp2_exchange. rewrite (proj2 (Z.ltb_lt _ _)), Hhalo by lia. pose proof (procs_length nRanks hh Hok) as Hlen.
  apply Permutation_length in Hps as Hpl. apply Forall2_length in Hblocks as Hbl. destruct Hok as (Hp & Hc & Hnd).
  unfold exchangeData. destruct (Z.ltb_spec 0 (haloCount hh)).
  - eapply (returns_bind _ _ (λ '(_, Y, _), delivered (nRanks * ext) bs (lx s) Y)).
    + eapply returns_bind; [apply (exchange_sends_spec (nRanks * ext) (nRanks * ext)); (done || lia || rewrite Hlo, Hhi; lia)|]. intros [hh' sends] _.
      eapply returns_bind; [replace (haloCount hh) with (Z.of_nat (length bs)) by lia; apply (receive_spec (nRanks * ext) (nRanks * ext) bs); try done|].
      { eapply blocks_separate; [|done]. by rewrite Hps. }
      intros Y [_ HY]. done.
    + intros [[hh' Y] out] HY. done.
  - destruct bs; simpl in *; [|lia]. intros i Hi. split; [|done]. intros b Hb. by apply not_elem_of_nil in Hb.
Qed.
End old_halo.

(** C26: A pass exchanges rows with the halo of the matrix it starts from: on one of several tasks that divide the rows, with a place for every column and the messages of the tasks in that halo, a pass returns, and after it the task has, of every other task, the rows this task sent if it was in the halo that [updateData] found at the start of the pass, and otherwise the rows from before the pass. So when the squaring gives one of its rows a column of a task that was not in the halo, the next pass multiplies with an old row of that task ([second_pass_differs] shows a run where the result is wrong). *)
Theorem stale_halo_rows `{Par : Parallel} eps idemTol nRanks myRank ext d occ s hh hh' ps bs received :
  getNRanks = nRanks → (∀ l : list real_t, 2 ≤ length (addRealParallel l))%nat → 1 < nRanks → 0 < ext → 0 ≤ myRank < nRanks →
  initDecomposition nRanks myRank nRanks (nRanks * ext) (nRanks * ext) = Ok d →
  valid (nRanks * ext) (nRanks * ext) (lx s) → valid (nRanks * ext) (nRanks * ext) (lx2 s) →
  halo s = Some hh → Z.of_nat (length (haloProc hh)) = nRanks → ext * (nRanks * ext) ≤ Z.of_nat (length (sendBuf hh)) →
  updateData hh (lx s) d = Ok hh' →
  ps ≡ₚ procs hh' → Forall2 (block_of ext) ps bs → Forall (block_ok (nRanks * ext) (nRanks * ext)) bs → Forall2 carries bs received →
  returns (sp2_body eps idemTol d occ received s) (λ s',
    ∀ p i, p ≠ myRank → p * ext ≤ i < (p + 1) * ext → 0 ≤ i < nRanks * ext →
      (p ∉ procs hh' → row (lx s') i = row (lx s) i) ∧
      (∀ b, b ∈ bs → block_of ext p b → row (lx s') i = received_row (b_X b) (lx s) i)).
Proof.
  intros HN Hsum Hmany Hext Hr Hinit HX HX2 Hhalo Hprocs Hbuf Hup Hps Hblocks Hbs Hrec.
  apply initDecomposition_rows in Hinit as (D1 & D2 & D3 & _ & _); [|lia..].
  replace (nRanks * ext / nRanks) with ext in * by (rewrite Z.mul_comm, Z.div_mul by lia; done).
  assert (localRowExtent d = ext ∧ localRowMin d = myRank * ext ∧ localRowMax d = (myRank + 1) * ext) as Hd by done.
  assert (getNRanks = nRanks ∧ 1 < nRanks ∧ ∀ l : list real_t, (2 ≤ length (addRealParallel l))%nat) as Hpar by done.
  pose proof (own_rows nRanks myRank ext d Hpar (conj Hext Hr) Hd) as (H1 & H2 & H3).
  pose proof (updateData_spec _ _ nRanks ext myRank _ d HX eq_refl Hext Hr Hd hh Hprocs H1 H3) as Hk. rewrite Hup in Hk. destruct Hk as (Hok & _ & _).
  unfold sp2_body, sp2_square. rewrite (proj2 (Z.ltb_lt 1 getNRanks)), Hhalo, Hup by lia. csimpl.
  eapply (returns_bind _ _ (λ s1, lx s1 = lx s ∧ valid _ _ (lx2 s1) ∧ halo s1 = Some hh')).
  { eapply returns_bind; [apply (sparseX2_spec eps _ _ _ _ d HX HX2); [lia..|]|by intros [[t t2] X2] (_ & _ & Hv & _)].
    intros i Hi. apply columns_fit; [|lia]. intros k. apply (product_cols _ _ _ HX i). lia. }
  intros s1 (HX1 & HX21 & Hh1). eapply returns_bind; [by eapply sp2_reduce_rows|]. intros s2 (E1 & E2 & E3).
  eapply returns_bind; [apply (sp2_choose_rows eps idemTol nRanks myRank ext d Hpar (conj Hext Hr) Hd); [by rewrite E1, HX1|by rewrite E2]|].
  intros s3 (HX3 & Hh3 & Hrows). eapply returns_mono.
  { apply (sp2_exchange_rows nRanks myRank ext d Hpar (conj Hext Hr) Hd received s3 hh' ps bs); try done; [congruence|].
    by rewrite (updateData_buffer d hh (lx s) hh' Hup). }
  intros s' Hdel p i Hp Hi Hin. destruct (Hdel i Hin) as [D4 D5]. assert (row (lx s3) i = row (lx s) i) as Hold.
  { rewrite Hrows by (done || (rewrite D2, D3; nia)). by rewrite E1, HX1. }
  split.
  - intros Hno. rewrite D5; [done|]. intros b Hb Hinb. apply list_elem_of_lookup in Hb as [k Hb].
    destruct (Forall2_lookup_r _ _ _ _ _ Hblocks Hb) as (q & Hq & Hq1 & Hq2). unfold inside in Hinb. rewrite Hq1, Hq2 in Hinb.
    assert (p = q) as <- by nia. apply Hno. rewrite <-Hps. by eapply list_elem_of_lookup_2.
  - intros b Hb [Hb1 Hb2]. rewrite (D4 b Hb) by (unfold inside; lia). unfold received_row. by rewrite Hold.
Qed.

(** ** Three rows on three tasks *)

Definition band_matrix : SparseMatrix :=
  let a := flit 3 5 in let b := flit 1 10 in
  mkSparseMatrix 3 3 0 [2; 3; 2] [0; 1; 0; 0; 1; 2; 1; 2; 0] fzero fzero fzero [a; b; fzero; b; a; b; b; a; fzero].
Definition no_matrix : SparseMatrix := get band_matrix (initSparseMatrix 3 3).
Definition start_state (hh : option HaloExchangeSt) : LoopState :=
  mkLoop band_matrix no_matrix 0 0 fzero fzero fzero fzero fzero hh.
Definition no_domain : DomainSt := mkDomainSt 0 0 0 0 0 0 0 0 0.
Definition no_halo : HaloExchangeSt := mkHalo 0 0 0 [] [] [].
Definition band_task (n r : Z) : Sp2Task :=
  let d := get no_domain (initDecomposition n r n 3 3) in
  (d, start_state (if 1 <? n then Some (get no_halo (initHaloExchange n d)) else None)).
Definition band_tasks (n : Z) : list Sp2Task := band_task n <$> seqZ 0 n.

(** The row [i] at task [r] after [k] passes. *)
Fixpoint rounds (k : nat) (tasks : list Sp2Task) : res (list Sp2Task) :=
  match k with
  | O => Ok tasks
  | S k => tasks ← sp2_round (flit 1 100000) (flit 1 100000000) (f64 3 * fhalf)%R tasks; rounds k tasks
  end.
Definition row_at (k : nat) (n r i : Z) : res (list (Z * real_t)) :=
  tasks ← rounds k (band_tasks n);
  t ← aload tasks r;
  Ok (row (lx t.2) i).

(** The first of the three tasks has the second in its halo and not the third. *)
Lemma stale_halo_rows_witness :
  let s := (band_task 3 0).2 in
  let b := mkBlock band_matrix 1 2 in
  returns (sp2_body (Par := task_par 3 0 [fone; fone]) (flit 1 100000) (flit 1 100000000) (band_task 3 0).1 fone
      [(rows_msgs band_matrix 1 2, 48)] s) (λ s',
    ∀ p i, p ≠ 0 → p * 1 ≤ i < (p + 1) * 1 → 0 ≤ i < 3 * 1 →
      (p ∉ [1] → row (lx s') i = row (lx s) i) ∧
      (∀ b', b' ∈ [b] → block_of 1 p b' → row (lx s') i = received_row (b_X b') (lx s) i)).
Proof.
  intros s b.
  apply (stale_halo_rows (Par := task_par 3 0 [fone; fone]) _ _ 3 0 1 (band_task 3 0).1 fone s (get no_halo (initHaloExchange 3 (band_task 3 0).1))
    (get no_halo (updateData (get no_halo (initHaloExchange 3 (band_task 3 0).1)) band_matrix (band_task 3 0).1)) [1] [b]).
  - done.
  - intros l. simpl. lia.
  - done.
  - done.
  - done.
  - by vm_compute.
  - apply validb_valid. by vm_compute.
  - apply validb_valid. by vm_compute.
  - done.
  - by vm_compute.
  - by vm_compute.
  - by vm_compute.
  - by vm_compute.
  - by repeat constructor.
  - apply Forall_singleton. split; [apply validb_valid; by vm_compute|simpl; lia].
  - constructor; [by vm_compute|constructor].
Defined.

(** Rows that the squaring brings into a task's halo are read before they are exchanged: on three tasks with a row each the first row has an entry in the third column after the first pass, while its task has the new second row but still the third row of the start; the second pass multiplies with that row, and its result is not the one of a single task, although the first pass's was. *)
Lemma second_pass_differs :
  row_at 1 3 0 0 = row_at 1 1 0 0 ∧
  (∃ es, row_at 1 3 0 0 = Ok es ∧ 2 ∈ es.*1) ∧
  row_at 1 3 0 1 = row_at 1 3 1 1 ∧ row_at 1 3 0 2 = row_at 0 3 0 2 ∧ row_at 1 3 0 2 ≠ row_at 1 3 2 2 ∧
  (∃ es es', row_at 2 3 0 0 = Ok es ∧ row_at 2 1 0 0 = Ok es' ∧ es.*1 = es'.*1 ∧ es.*2 ≠ es'.*2).
Proof.
  split; [by vm_compute|]. split; [eexists; split; [vm_compute; reflexivity|]|].
  { apply list_elem_of_lookup. by exists 2%nat. }
  do 3 (split; [by vm_compute|]).
  eexists _, _. split; [vm_compute; reflexivity|]. split; [vm_compute; reflexivity|]. by vm_compute.
Qed.

(** ** Rows of no task *)

(** Five rows on three tasks; the first row has every column. *)
Definition full_row : SparseMatrix :=
  mkSparseMatrix 5 5 0 [5; 0; 0; 0; 0] ([0; 1; 2; 3; 4] ++ replicate 20 0) fzero fzero fzero (replicate 25 fone).

(** A row with columns in rows of no task lists more tasks than there are: [processorNum] gives a number behind the last task for them, and the list of [totalProcs] places of the halo overflows. *)
Theorem halo_list_overflows :
  validb 5 5 full_row = true ∧
  returns (initDecomposition 3 0 3 5 5) (λ d, processorNum d 4 = Ok 4 ∧
    returns (initHaloExchange 3 d) (λ hh, updateData hh full_row d = Err OutOfBounds)).
Proof. by vm_compute. Qed.
