(* ===== verification/CoSP2.v ===== *)
(** * CoSP2: the input matrix and the main program (generate.c, matrixio.c, sparseMatrix.c, CoSP2.c)

    The Hamiltonian is generated with random entries near the diagonal, or read
    from a file in Matrix Market format; the program counts its entries, bounds its
    spectrum and runs the projection.  A file is the list of its entries: reading
    and writing numbers as text is the C library's, the value that a printed one
    is read back as is a parameter. *)

From Stdlib Require Import ZArith Lia String Sorted.
From stdpp Require Import base list numbers sets strings.
From S2P Require Import Prelude Float64 Parallel Random Cd SparseMatrix SparseMath SparseHalo Sp2Loop.

#[local] Open Scope Z_scope.

(** ** Counting entries *)

Definition sparsity_row (X : SparseMatrix) (i : Z) (st : Z * list Z) : res (Z * list Z) :=
  let '(hValCount, hDist) := st in
  c ← nnz X i;
  n ← int32 (hValCount + c);
  dist ← (if 0 <? c then x ← aload hDist c; astore hDist c (x + 1) else Ok hDist);
  Ok (n, dist).

(** The number of entries, and of the rows with each positive number of entries. *)
Definition sparsity (X : SparseMatrix) : res (Z * list Z) :=
  for_range 0 (hsize X) (sparsity_row X) (0, replicate (Z.to_nat (hsize X)) 0).

(** As built with POS1, the diagonal is taken to be the first entry. *)
Definition trace (X : SparseMatrix) (d : DomainSt) : res (real_t * real_t) :=
  for_range (localRowMin d) (localRowMax d) (λ i '(t, t2),
    v ← val X i 0;
    Ok ((t + v)%R, (t2 + v * v)%R)) (fzero, fzero).

(** ** Files *)

(** An entry of a file: row and column from 1, and the value. *)
Definition mtx_entry : Type := Z * Z * real_t.

Section matrixio.
(** The value that a printed value is read as. *)
Variable printed : real_t → real_t.

Definition write_entry (X : SparseMatrix) (i j : Z) (out : list mtx_entry) : res (list mtx_entry) :=
  c ← jja X i j;
  v ← val X i j;
  r ← int32 (i + 1);
  c ← int32 (c + 1);
  Ok (out ++ [(r, c, printed v)]).

(** The two dimensions and the number of entries, and the entries. *)
Definition writeMTX (X : SparseMatrix) : res (Z * Z * Z * list mtx_entry) :=
  msum ← for_range 0 (hsize X) (λ i s, c ← nnz X i; int32 (s + c)) 0;
  out ← for_range 0 (hsize X) (λ i out, n ← nnz X i; for_range 0 n (write_entry X i) out) [];
  Ok (hsize X, hsize X, msum, out).

Definition read_mtx_entry (e : mtx_entry) (m : SparseMatrix) : res SparseMatrix :=
  let '(r, c, v) := e in
  irow ← int32 (r - 1);
  icol ← int32 (c - 1);
  ind ← nnz m irow;
  m ← set_jja irow ind icol m;
  m ← set_val irow ind v m;
  n ← nnz m irow;
  set_nnz irow (n + 1) m.

Definition readMTX (file : Z * Z * Z * list mtx_entry) (m : SparseMatrix) : res SparseMatrix :=
  let '(_, _, msum, es) := file in
  for_range 0 msum (λ i m, e ← aload es i; read_mtx_entry e m) m.
End matrixio.

(** ** Generated matrices *)
Section generate.
(** The mathematical library's [exp], the threshold, the amplitude and the decay. *)
Variables (fexp : real_t → real_t) (eps a alpha : real_t).

Definition gen_value (i j : Z) (r : real_t) : real_t := (a * r * fexp (- alpha * f64 (i - j) * f64 (i - j)))%R.

(** The matrix, the entries of the row and of the matrix, and the seed. *)
Definition gen_entry (i j : Z) (st : SparseMatrix * Z * Z * Z) : res (SparseMatrix * Z * Z * Z) :=
  let '(m, l, nnz, seed) := st in
  let '(seed, r) := lcg61 seed in
  let hx := gen_value i j r in
  if (j =? i) || above eps hx then
    m ← set_jja i l j m;
    m ← set_val i l hx m;
    nnz ← int32 (nnz + 1);
    Ok (m, l + 1, nnz, seed)
  else Ok (m, l, nnz, seed).

Definition gen_row (N M i : Z) (st : SparseMatrix * Z * Z) : res (SparseMatrix * Z * Z) :=
  let '(m, nnz, seed) := st in
  lo ← int32 (i - M + 1);
  hi ← int32 (i + M);
  '(m, l, nnz, seed) ← for_range (Z.max 0 lo) (Z.min N hi) (gen_entry i) (m, 0, nnz, seed);
  m ← set_nnz i l m;
  Ok (m, nnz, seed).

(** The mean is only printed. *)
Definition generateHMatrix (N M : Z) : res SparseMatrix :=
  m ← initSparseMatrix N M;
  '(m, nnz, _) ← for_range 0 N (gen_row N M) (m, 0, mkSeed N M);
  _ ← cdiv nnz N;
  Ok m.
End generate.

(** ** The main program *)
Section main.
Context `{Par : Parallel}.
Variables (fexp minRealReduce maxRealReduce : real_t → real_t).

(** [initSimulation]: the matrix is read from [input] or generated. *)
Definition sp2_initSimulation (input : option (Z * Z * Z * list mtx_entry)) (hDim msparse : Z) (amp alpha eps : real_t) : res SparseMatrix :=
  M ← nnzStart hDim msparse;
  match input with
  | Some file => m ← initSparseMatrix hDim M; readMTX file m
  | None => generateHMatrix fexp eps amp alpha hDim M
  end.

(** From the begin of the root domain, if it is built with one ([ROOTCD]), to its end. *)
Definition sp2_main (ROOTCD : bool) (b : Build) (input : option (Z * Z * Z * list mtx_entry)) (hDim msparse : Z) (amp alpha eps idemTol : real_t)
    (received : Z → list message) (final : list message) : res (SparseMatrix * Z * list event) :=
  H ← sp2_initSimulation input hDim msparse amp alpha eps;
  d ← initDecomposition getNRanks getMyRank getNRanks (hsize H) (msize H);
  _ ← sparsity H;
  H ← gershgorin minRealReduce maxRealReduce getNRanks H;
  '(X, s, log) ← sp2Loop eps idemTol b H d received final;
  Ok (X, iter s, if ROOTCD then CdBegin 0 "Root" :: ((if DO_PRV b then (preserveCommand 0).1 else []) ++ log) ++ [CdDetect 0; CdComplete 0]
         else log).
End main.

(** ** Counting *)

Definition row_total (X : SparseMatrix) (hi : Z) : Z := foldr (λ i n, Z.of_nat (length (row X i)) + n) 0 (seqZ 0 hi).
Definition rows_with (X : SparseMatrix) (k hi : Z) : list Z := filter (λ i, Z.of_nat (length (row X i)) = k) (seqZ 0 hi).

Lemma seqZ_snoc hi : 0 ≤ hi → seqZ 0 (hi + 1) = seqZ 0 hi ++ [hi].
Proof.
  intros Hhi. rewrite seqZ_app by lia. by f_equal.
Qed.

Lemma row_total_snoc X hi : 0 ≤ hi → row_total X (hi + 1) = row_total X hi + Z.of_nat (length (row X hi)).
Proof.
  intros Hhi. unfold row_total. rewrite seqZ_snoc, foldr_app by done. simpl.
  induction (seqZ 0 hi) as [|i l IH]; simpl; lia.
Qed.

Lemma row_total_bound h ms X hi : valid h ms X → 0 ≤ hi ≤ h → 0 ≤ row_total X hi ≤ hi * ms.
Proof.
  intros HX Hhi. assert (∀ n, Z.of_nat n ≤ h → 0 ≤ row_total X (Z.of_nat n) ≤ Z.of_nat n * ms) as Hn.
  { induction n as [|n IH]; intros Hn; [done|]. replace (Z.of_nat (S n)) with (Z.of_nat n + 1) by lia.
    rewrite row_total_snoc by lia. destruct (valid_row h ms X (Z.of_nat n) HX) as [_ Hl]; lia. }
  specialize (Hn (Z.to_nat hi)). rewrite Z2Nat.id in Hn by lia. apply Hn. lia.
Qed.

Lemma rows_with_snoc X k hi :
  0 ≤ hi → rows_with X k (hi + 1) = rows_with X k hi ++ (if decide (Z.of_nat (length (row X hi)) = k) then [hi] else []).
Proof. intros Hhi. unfold rows_with. rewrite seqZ_snoc, filter_app, filter_cons, filter_nil by done. done. Qed.

Definition counted (h : Z) (X : SparseMatrix) (hi : Z) (st : Z * list Z) : Prop :=
  st.1 = row_total X hi ∧ Z.of_nat (length st.2) = h ∧
  ∀ k, 0 < k < h → st.2 !! Z.to_nat k = Some (Z.of_nat (length (rows_with X k hi))).

Lemma sparsity_row_ok h ms X i st :
  valid h ms X → h * ms ≤ INT_MAX → 0 ≤ i < h → Z.of_nat (length (row X i)) < h → counted h X i st →
  returns (sparsity_row X i st) (counted h X (i + 1)).
Proof.
  intros HX Hmax Hi Hlt. destruct st as [n dist]. intros (Hn & Hlen & Hdist). simpl in *. subst n.
  unfold sparsity_row. rewrite (read_nnz h ms) by done. csimpl.
  pose proof (row_total_bound h ms X (i + 1) HX ltac:(lia)) as Hb. pose proof (sz_pos _ _ _ (proj1 HX)) as [_ Hms].
  assert ((i + 1) * ms ≤ h * ms) by (apply Z.mul_le_mono_nonneg_r; lia). rewrite row_total_snoc in Hb by lia.
  rewrite int32_Ok by (unfold INT_MIN; lia). csimpl. destruct (Z.ltb_spec 0 (Z.of_nat (length (row X i)))) as [Hpos|Hpos].
  - rewrite (aload_lookup dist (Z.of_nat (length (row X i))) _ ltac:(lia) (Hdist _ (conj Hpos Hlt))). csimpl. rewrite astore_Ok by lia. csimpl.
    split; [by rewrite row_total_snoc by lia|split; [simpl; by rewrite length_insert|]]. intros k Hk. simpl.
    rewrite rows_with_snoc, length_app by lia. case_decide as He.
    + subst k. rewrite list_lookup_insert_eq by lia. simpl. f_equal. lia.
    + rewrite list_lookup_insert_ne by lia. rewrite Hdist by done. simpl. f_equal. lia.
  - csimpl. split; [by rewrite row_total_snoc by lia|split; [done|]]. intros k Hk. simpl. rewrite rows_with_snoc by lia.
    rewrite decide_False by lia. rewrite app_nil_r. by apply Hdist.
Qed.

Lemma sparsity_row_full h ms X i st :
  valid h ms X → 0 ≤ i < h → h * ms ≤ INT_MAX → Z.of_nat (length (row X i)) = h → counted h X i st →
  sparsity_row X i st = Err OutOfBounds.
Proof.
  intros HX Hi Hmax Hfull. destruct st as [n dist]. intros (Hn & Hlen & _). simpl in *. subst n.
  unfold sparsity_row. rewrite (read_nnz h ms) by done. csimpl.
  pose proof (row_total_bound h ms X (i + 1) HX ltac:(lia)) as Hb. pose proof (sz_pos _ _ _ (proj1 HX)) as [_ Hms].
  assert ((i + 1) * ms ≤ h * ms) by (apply Z.mul_le_mono_nonneg_r; lia). rewrite row_total_snoc in Hb by lia.
  rewrite int32_Ok by (unfold INT_MIN; lia). csimpl. destruct (Z.ltb_spec 0 (Z.of_nat (length (row X i)))); [|lia].
  unfold aload. rewrite lookup_ge_None_2 by lia. by destruct (0 <=? _).
Qed.

(** The counts are right when no row is full; a full row is counted behind the array. *)
Lemma sparsity_cases h ms X :
  valid h ms X → ms ≤ h → h * ms ≤ INT_MAX →
  (∀ i, 0 ≤ i < h → Z.of_nat (length (row X i)) < h) ∧ returns (sparsity X) (counted h X h) ∨
  (∃ i, 0 ≤ i < h ∧ Z.of_nat (length (row X i)) = h) ∧ sparsity X = Err OutOfBounds.
Proof.
  intros HX Hle Hmax. pose proof (sz_pos _ _ _ (proj1 HX)) as [Hh _]. unfold sparsity. rewrite (sz_h _ _ _ (proj1 HX)).
  set (s0 := (0, replicate (Z.to_nat h) 0)).
  assert (∀ n, Z.of_nat n ≤ h →
    (∀ i, 0 ≤ i < Z.of_nat n → Z.of_nat (length (row X i)) < h) ∧ returns (for_range 0 (Z.of_nat n) (sparsity_row X) s0) (counted h X (Z.of_nat n)) ∨
    (∃ i, 0 ≤ i < Z.of_nat n ∧ Z.of_nat (length (row X i)) = h) ∧ for_range 0 (Z.of_nat n) (sparsity_row X) s0 = Err OutOfBounds) as Hn.
  { induction n as [|n IH]; intros Hn.
    - left. split; [lia|]. rewrite for_range_nil by lia. split; [done|split; [simpl; rewrite length_replicate; lia|]].
      intros k Hk. apply lookup_replicate. split; [done|lia].
    - replace (Z.of_nat (S n)) with (Z.of_nat n + 1) by lia. rewrite for_range_snoc by lia.
      destruct IH as [[Hlt Hret]|[(i & Hi & Hfull) ->]]; [lia| |right; split; [exists i; split; [lia|done]|done]].
      apply returns_Ok in Hret as (st & -> & Hst). csimpl.
      destruct (valid_row h ms X (Z.of_nat n) HX ltac:(lia)) as [_ Hl].
      destruct (decide (Z.of_nat (length (row X (Z.of_nat n))) = h)) as [Hfull|Hfull].
      + right. split; [exists (Z.of_nat n); split; [lia|done]|]. apply (sparsity_row_full h ms); (done || lia).
      + left. split; [|apply (sparsity_row_ok h ms); (done || lia)]. intros i Hi.
        destruct (decide (i = Z.of_nat n)) as [->|]; [lia|apply Hlt; lia]. }
  specialize (Hn (Z.to_nat h)). rewrite Z2Nat.id in Hn by lia. by apply Hn.
Qed.

(** ** Generated rows *)

Lemma set_swap i l c v m :
  (m ← set_jja i l c m; set_val i l v m) = (m ← set_val i l v m; set_jja i l c m).
Proof.
  unfold set_jja, set_val, astore. csimpl.
  destruct ((0 <=? i * msize m + l) && (i * msize m + l <? Z.of_nat (length (jjcontig m)))) eqn:H1;
    destruct ((0 <=? i * msize m + l) && (i * msize m + l <? Z.of_nat (length (valcontig m)))) eqn:H2; csimpl;
    rewrite ?H1, ?H2; done.
Qed.

(** The columns in order, the diagonal among them. *)
Definition generated (N i : Z) (es : list (Z * real_t)) : Prop := es.*1 `sublist_of` seqZ 0 N ∧ i ∈ es.*1.

Lemma generated_range N i es : generated N i es → 0 ≤ N → Z.of_nat (length es) ≤ N ∧ ∀ e, e ∈ es → 0 ≤ e.1 < N.
Proof.
  intros [Hsub _] HN. split.
  - apply sublist_length in Hsub. rewrite length_fmap, length_seqZ in Hsub. lia.
  - intros e He. apply (list_elem_of_fmap_2 fst) in He. eapply elem_of_sublist in He; [|done]. apply elem_of_seqZ in He. lia.
Qed.

Section generated_rows.
Variables (fexp : real_t → real_t) (eps a alpha : real_t) (N : Z).
Hypothesis HN : 0 < N ∧ N * N ≤ INT_MAX.

Definition generating (i : Z) (m0 : SparseMatrix) (j : Z) (st : SparseMatrix * Z * Z * Z) : Prop :=
  let '(m, l, nnz, _) := st in ∃ es, starts N N i m0 es m ∧ l = Z.of_nat (length es) ∧
    es.*1 `sublist_of` seqZ 0 j ∧ (i < j → i ∈ es.*1) ∧ 0 ≤ nnz ≤ i * N + j.

Lemma gen_entry_ok i m0 j st :
  0 ≤ i < N → 0 ≤ j < N → generating i m0 j st →
  returns (gen_entry fexp eps a alpha i j st) (generating i m0 (j + 1)).
Proof.
  intros Hi Hj. destruct st as [[[m l] nnz] seed]. intros (es & Hm & -> & Hsub & Hin & Hnnz). unfold gen_entry.
  destruct (lcg61 seed) as [seed' r]. set (hx := gen_value fexp a alpha i j r).
  assert (Z.of_nat (length es) ≤ j) as Hlen by (apply sublist_length in Hsub; rewrite length_fmap, length_seqZ in Hsub; lia).
  assert ((i + 1) * N ≤ N * N) by (apply Z.mul_le_mono_nonneg_r; lia).
  destruct ((j =? i) || above eps hx) eqn:Hkeep.
  - pose proof (starts_snoc N N i m0 Hi es (j, hx) m Hm ltac:(lia)) as Hs. apply returns_Ok in Hs as (m' & Hm' & Hs).
    rewrite <-set_swap in Hm'. apply bind_Ok in Hm' as (m1 & H1 & H2). simpl in H1, H2. rewrite H1. csimpl. rewrite H2. csimpl.
    rewrite int32_Ok by (unfold INT_MIN; lia). csimpl. exists (es ++ [(j, hx)]). split; [done|].
    rewrite length_app, fmap_app. simpl. split; [lia|]. rewrite seqZ_snoc by lia.
    split; [by apply sublist_app|]. split; [|lia]. intros Hlt. destruct (decide (i = j)) as [->|]; [set_solver|].
    apply elem_of_app. left. apply Hin. lia.
  - exists es. split; [done|split; [done|]]. rewrite seqZ_snoc by lia. split; [by apply sublist_inserts_r|]. split; [|lia].
    intros Hlt. apply Hin. apply orb_false_iff in Hkeep as [Hne _]. zbool. lia.
Qed.

Lemma gen_row_ok i m0 nnz seed :
  0 ≤ i < N → N + N ≤ INT_MAX → valid N N m0 → 0 ≤ nnz ≤ i * N →
  returns (gen_row fexp eps a alpha N N i (m0, nnz, seed)) (λ '(m, nnz', _),
    valid N N m ∧ 0 ≤ nnz' ≤ (i + 1) * N ∧
    ∃ es, generated N i es ∧ ∀ i', 0 ≤ i' < N → row m i' = if decide (i' = i) then es else row m0 i').
Proof.
  intros Hi Hmax Hv Hnnz. unfold gen_row. cbv beta iota. rewrite (int32_Ok (i - N + 1)), ret_bind, int32_Ok, ret_bind by (unfold INT_MIN, INT_MAX in *; lia).
  rewrite Z.max_l, Z.min_l by lia. eapply returns_bind.
  { apply (for_range_inv (generating i m0)); [lia| |].
    - exists []. split; [split; [apply Hv|done]|]. split; [done|]. split; [apply sublist_nil_l|]. split; [lia|lia].
    - intros j st Hj. by apply gen_entry_ok. }
  intros [[[m l] nnz'] seed'] (es & Hm & -> & Hsub & Hin & Hn).
  assert (generated N i es) as Hgen by (split; [done|apply Hin; lia]).
  destruct (generated_range N i es Hgen) as [Hlen Hc]; [lia|].
  eapply returns_bind; [by apply (starts_end N N i m0)|]. intros m' [Hv' Hrows]. csimpl.
  split; [done|split; [lia|]]. by exists es.
Qed.

Lemma generateHMatrix_ok :
  N + N ≤ INT_MAX →
  returns (generateHMatrix fexp eps a alpha N N) (λ m, valid N N m ∧ ∀ i, 0 ≤ i < N → generated N i (row m i)).
Proof.
  intros Hmax. unfold generateHMatrix. eapply returns_bind; [apply initSparseMatrix_valid; lia|]. intros m0 [Hm0 _].
  eapply returns_bind.
  { apply (for_range_inv (λ i '(m, nnz, _), valid N N m ∧ 0 ≤ nnz ≤ i * N ∧ ∀ i', 0 ≤ i' < i → generated N i' (row m i'))); [lia| |].
    - split; [done|split; [lia|]]. lia.
    - intros i [[m nnz] seed] Hi (Hv & Hnnz & Hrows). eapply returns_mono; [by apply gen_row_ok|].
      intros [[m' nnz'] seed'] (Hv' & Hnnz' & es & Hes & Hr). split; [done|split; [done|]]. intros i' Hi'.
      rewrite Hr by lia. case_decide as He; [by subst|]. apply Hrows. lia. }
  intros [[m nnz] seed] (Hv & Hnnz & Hrows). rewrite cdiv_Ok by lia. csimpl. done.
Qed.
End generated_rows.

(** ** The bounds of the spectrum *)

Lemma row_same m m' i : iia m' = iia m → jjcontig m' = jjcontig m → valcontig m' = valcontig m → msize m' = msize m → row m' i = row m i.
Proof. unfold row. by intros -> -> -> ->. Qed.

Lemma gershgorin_ok h ms X lo hi n :
  valid h ms X → (∀ i, 0 ≤ i < h → i ∈ (row X i).*1) →
  returns (gershgorin lo hi n X) (λ X', valid h ms X' ∧ ∀ i, row X' i = row X i).
Proof.
  intros HX Hdiag. pose proof (sz_pos _ _ _ (proj1 HX)) as [Hh _]. unfold gershgorin. rewrite (sz_h _ _ _ (proj1 HX)).
  eapply returns_bind.
  { apply (for_range_inv (λ _ _, True)); [done|done|]. intros i [[eMin eMax] p] Hi _. unfold gersh_row.
    rewrite (read_nnz h ms) by done. csimpl. eapply returns_bind.
    { apply (for_entries (λ es '(_, q), i ∈ es.*1 → is_Some q)); [by intros ?%not_elem_of_nil|].
      intros q e [s o] He Ho. destruct (read_entry h ms X i q e HX Hi He) as (H1 & H2 & _). unfold gersh_entry.
      rewrite H2, H1. csimpl. destruct (Z.eqb_spec (e.1) i) as [Hei|Hei]; csimpl; [by eexists|].
      rewrite fmap_app. intros [Hin|Hin]%elem_of_app; [by apply Ho|]. set_solver. }
    intros [s [p'|]] Hp; csimpl; [done|]. destruct Hp as [? [=]]. by apply Hdiag. }
  intros [[eMin eMax] p] _. destruct (1 <? n); csimpl.
  all: split; [|intros i; by apply row_same].
  all: destruct HX as [[] Hr]; split; [by split|]; intros i Hi; apply (Hr i Hi).
Qed.

(** ** Files *)
Section round_trip.
Variables (printed : real_t → real_t) (h ms : Z) (X : SparseMatrix).
Hypothesis HX : valid h ms X.
Hypothesis Hmax : h * ms ≤ INT_MAX ∧ h + 1 ≤ INT_MAX.

Definition file_entry (i : Z) (e : Z * real_t) : mtx_entry := (i + 1, e.1 + 1, printed e.2).
Definition file_rows (hi : Z) : list mtx_entry := seqZ 0 hi ≫= λ i, file_entry i <$> row X i.
Definition row_printed (i : Z) : list (Z * real_t) := (λ e, (e.1, printed e.2)) <$> row X i.

Lemma file_rows_snoc hi : 0 ≤ hi → file_rows (hi + 1) = file_rows hi ++ (file_entry hi <$> row X hi).
Proof. intros Hhi. unfold file_rows. rewrite seqZ_snoc, bind_app by done. csimpl. by rewrite app_nil_r. Qed.

Lemma file_rows_length hi : 0 ≤ hi → Z.of_nat (length (file_rows hi)) = row_total X hi.
Proof.
  intros Hhi. rewrite <-(Z2Nat.id hi) by done. induction (Z.to_nat hi) as [|n IH]; [done|].
  replace (Z.of_nat (S n)) with (Z.of_nat n + 1) by lia. rewrite file_rows_snoc, row_total_snoc, length_app, length_fmap by lia. lia.
Qed.

Lemma writeMTX_ok : returns (writeMTX printed X) (λ file, file = (h, h, Z.of_nat (length (file_rows h)), file_rows h)).
Proof.
  pose proof (sz_pos _ _ _ (proj1 HX)) as [Hh Hms]. unfold writeMTX. rewrite (sz_h _ _ _ (proj1 HX)).
  eapply returns_bind.
  { apply (for_range_inv (λ i s, s = row_total X i)); [done|done|]. intros i s Hi ->.
    rewrite (read_nnz h ms) by done. csimpl. rewrite row_total_snoc by lia.
    pose proof (row_total_bound h ms X (i + 1) HX ltac:(lia)) as Hb. rewrite row_total_snoc in Hb by lia.
    assert ((i + 1) * ms ≤ h * ms) by (apply Z.mul_le_mono_nonneg_r; lia). rewrite int32_Ok by (unfold INT_MIN; lia). done. }
  intros msum ->. rewrite <-file_rows_length by done. eapply returns_bind.
  { apply (for_range_inv (λ i out, out = file_rows i)); [done|done|]. intros i out Hi ->.
    rewrite (read_nnz h ms) by done. csimpl. rewrite file_rows_snoc by lia.
    apply (for_entries (λ es out, out = file_rows i ++ (file_entry i <$> es))); [by rewrite app_nil_r|].
    intros q e out He ->. destruct (read_entry h ms X i q e HX Hi He) as (H1 & H2 & H3). unfold write_entry. rewrite H1, H2. csimpl.
    rewrite !int32_Ok by (unfold INT_MIN; lia). csimpl. by rewrite fmap_app, app_assoc. }
  by intros out ->.
Qed.

Lemma read_entry_ok i m0 es m e :
  0 ≤ i < h → 0 ≤ e.1 < h → sized h ms m → same_rows h ms i m0 m → has_row m i es → Z.of_nat (length es) < ms →
  returns (read_mtx_entry (file_entry i e) m) (λ m', sized h ms m' ∧ same_rows h ms i m0 m' ∧ has_row m' i (es ++ [(e.1, printed e.2)])).
Proof.
  intros Hi He Hm Hs [HN Hes] Hlt. unfold read_mtx_entry, file_entry. rewrite !Z.add_simpl_r.
  rewrite (int32_Ok i), ret_bind, (int32_Ok e.1), ret_bind, (nnz_Ok _ _ _ HN), ret_bind by (unfold INT_MIN, INT_MAX in *; lia).
  assert (slot_ok h ms i (Z.of_nat (length es))) as Hp by (split; lia).
  eapply returns_bind; [by apply (set_jja_Ok h ms)|]. intros m1 [U1 U2 U3 U4].
  eapply returns_bind; [by apply (set_val_Ok h ms)|]. intros m2 [W1 W2 W3 W4].
  rewrite (nnz_Ok m2 i (Z.of_nat (length es))) by (rewrite ?W4, ?U4; done || lia). csimpl.
  eapply returns_mono; [by apply (set_nnz_Ok h ms)|]. intros m3 [V1 V2 V3 V4]. split; [done|split].
  - eapply same_rows_trans; [exact Hs|]. intros i' Hi' Hne. split; [|rewrite V4, W4, U4 by done; by rewrite decide_False].
    intros q Hq. rewrite V2, V3, W2, W3, U2, U3 by (split; lia). by rewrite !decide_False by naive_solver.
  - split; [rewrite V4, decide_True by done; f_equal; rewrite length_app; simpl; lia|].
    intros q e' He'. apply lookup_lt_Some in He' as Hq. rewrite length_app in Hq. simpl in Hq.
    rewrite V2, V3, W2, W3, U2, U3 by (split; lia). destruct (decide (q = length es)) as [->|Hne].
    + rewrite list_lookup_middle in He' by done. injection He' as <-. by rewrite !decide_True.
    + rewrite lookup_app_l in He' by lia. rewrite !decide_False by lia. by apply Hes.
Qed.

Lemma read_row_ok i m0 :
  0 ≤ i < h → valid h ms m0 → row m0 i = [] →
  returns (foldM read_mtx_entry (file_entry i <$> row X i) m0) (λ m, valid h ms m ∧
    ∀ i', 0 ≤ i' < h → row m i' = if decide (i' = i) then row_printed i else row m0 i').
Proof.
  intros Hi Hv Hnil. destruct (valid_row h ms X i HX Hi) as [_ Hl]. destruct HX as [_ Hr]. destruct (Hr i Hi) as [_ Hc]. clear Hr.
  assert (∀ es, (∀ e, e ∈ es → 0 ≤ e.1 < h) → Z.of_nat (length es) ≤ ms →
    returns (foldM read_mtx_entry (file_entry i <$> es) m0)
      (λ m, sized h ms m ∧ same_rows h ms i m0 m ∧ has_row m i ((λ e, (e.1, printed e.2)) <$> es))) as Hes.
  { induction es as [|e es IH] using rev_ind; intros Hc' Hl'.
    - split; [apply Hv|split; [done|]]. csimpl. rewrite <-Hnil. by apply (valid_row h ms).
    - rewrite length_app in Hl'. simpl in Hl'. rewrite fmap_app, foldM_app. eapply returns_bind; [apply IH; [set_solver|lia]|].
      intros m (H1 & H2 & H3). rewrite fmap_app.
      pose proof (read_entry_ok i m0 _ m e Hi (Hc' e ltac:(set_solver)) H1 H2 H3 ltac:(rewrite length_fmap; lia)) as Ha.
      apply (returns_bind _ _ _ _ Ha). done. }
  eapply returns_mono; [by apply Hes|]. intros m (H1 & H2 & H3). apply (row_replaced h ms i m0); try done.
  - unfold row_printed. by rewrite length_fmap.
  - unfold row_printed. intros e (e0 & -> & He0)%list_elem_of_fmap. simpl. by apply Hc.
Qed.

Lemma readMTX_ok m0 :
  valid h ms m0 → (∀ i, 0 ≤ i < h → row m0 i = []) →
  returns (readMTX (h, h, Z.of_nat (length (file_rows h)), file_rows h) m0)
    (λ m, valid h ms m ∧ ∀ i, 0 ≤ i < h → row m i = row_printed i).
Proof.
  intros Hv Hnil. unfold readMTX. rewrite for_range_list. pose proof (sz_pos _ _ _ (proj1 HX)) as [Hh _].
  assert (∀ n, Z.of_nat n ≤ h → returns (foldM read_mtx_entry (file_rows (Z.of_nat n)) m0)
    (λ m, valid h ms m ∧ ∀ i, 0 ≤ i < h → row m i = if decide (i < Z.of_nat n) then row_printed i else [])) as Hn.
  { induction n as [|n IH]; intros Hn.
    - split; [done|]. intros i Hi. rewrite decide_False by lia. by apply Hnil.
    - replace (Z.of_nat (S n)) with (Z.of_nat n + 1) by lia. rewrite file_rows_snoc, foldM_app by lia.
      eapply returns_bind; [apply IH; lia|]. intros m [Hm Hrows].
      eapply returns_mono; [apply (read_row_ok (Z.of_nat n) m); [lia|done|rewrite Hrows, decide_False by lia; done]|].
      intros m' [Hm' Hr]. split; [done|]. intros i Hi. rewrite Hr, Hrows by done. repeat case_decide; (done || lia || by subst). }
  specialize (Hn (Z.to_nat h)). rewrite Z2Nat.id in Hn by lia. eapply returns_mono; [by apply Hn|].
  intros m [Hm Hrows]. split; [done|]. intros i Hi. rewrite Hrows by done. by rewrite decide_True by lia.
Qed.
End round_trip.

(** A matrix written to a file and read back into a new matrix of its size is the same matrix, row by row and in the order of the entries, with the values that the printed ones are read as. *)
Theorem mtx_roundtrip printed h ms X :
  valid h ms X → h * ms ≤ INT_MAX → h + 1 ≤ INT_MAX →
  returns (file ← writeMTX printed X; m ← initSparseMatrix h ms; readMTX file m)
    (λ m, valid h ms m ∧ ∀ i, 0 ≤ i < h → row m i = (λ e, (e.1, printed e.2)) <$> row X i).
Proof.
  intros HX Hmax Hint. pose proof (sz_pos _ _ _ (proj1 HX)) as [Hh Hms].
  eapply returns_bind; [by apply (writeMTX_ok printed h ms)|]. intros file ->.
  eapply returns_bind; [by apply initSparseMatrix_valid|]. intros m [Hm Hnil].
  by apply (readMTX_ok printed h ms).
Qed.

Lemma mtx_roundtrip_witness :
  returns (file ← writeMTX id small_matrix; m ← initSparseMatrix 2 2; readMTX file m)
    (λ m, valid 2 2 m ∧ ∀ i, 0 ≤ i < 2 → row m i = (λ e, (e.1, id e.2)) <$> row small_matrix i).
Proof. apply (mtx_roundtrip id 2 2); [exact small_valid|done|done]. Defined.

(** ** The program *)

(** C31: The program ends when it is built without preservation ([DO_PRV] is 0; with it and with the domain of a pass, the first pass fails, [preserving_pass_fails]): on one task, with a generated matrix and a place for every column ([nnzStart] gives it when the number of entries is not limited), the main program returns after at most 100 passes with a well-formed matrix and every domain completed, one of level 2 for each pass; or a generated row has an entry in every column, and [sparsity] writes behind its array of counts. *)
Theorem sp2_main_ends `{Par : Parallel} fexp lo hi b N amp alpha eps idemTol received final :
  getNRanks = 1 → getMyRank = 0 → DO_PRV b = false → (CD2 b = true → CD1 b = true) → 0 < N → N * N ≤ INT_MAX → N + N + 32 ≤ INT_MAX →
  returns (sp2_main fexp lo hi true b None N 0 amp alpha eps idemTol received final) (λ '(X, n, log),
    valid N N X ∧ 0 ≤ n ≤ 100 ∧ keeps [false] log ∧
    labels 2 log = replicate (if CD2 b then Z.to_nat n else 0%nat) "sp2Loop_while"%string) ∨
  sp2_main fexp lo hi true b None N 0 amp alpha eps idemTol received final = Err OutOfBounds ∧
  ∃ H i, generateHMatrix fexp eps amp alpha N N = Ok H ∧ 0 ≤ i < N ∧ Z.of_nat (length (row H i)) = N.
Proof.
  intros Hone Hrank Hb Hcd HN Hmax HM. unfold sp2_main, sp2_initSimulation. rewrite nnzStart_full by lia. csimpl.
  pose proof (generateHMatrix_ok fexp eps amp alpha N (conj HN Hmax) ltac:(lia)) as HH.
  apply returns_Ok in HH as (H & Hgen & HH & Hrows). rewrite Hgen. csimpl.
  rewrite (sz_h _ _ _ (proj1 HH)), (sz_ms _ _ _ (proj1 HH)), Hone, Hrank.
  destruct (initDecomposition 1 0 1 N N) as [d|e] eqn:Hd.
  2:{ exfalso. unfold initDecomposition in Hd. rewrite Z.sub_0_r, int32_Ok in Hd by (unfold INT_MIN; lia). csimpl in Hd.
      rewrite Z.quot_1_r, Z.mul_1_l, int32_Ok in Hd by (unfold INT_MIN; lia). done. }
  csimpl. destruct (sparsity_cases N N H HH ltac:(lia) Hmax) as [[_ Hs]|[(i & Hi & Hfull) ->]].
  2:{ right. split; [done|]. by exists H, i. }
  left. apply returns_Ok in Hs as (r & -> & _). csimpl.
  eapply returns_bind; [apply (gershgorin_ok N N H lo hi 1 HH); intros i Hi; by apply Hrows|]. intros H' [HH' _].
  eapply returns_bind; [by apply (sp2Loop_ok eps idemTol b N H' d received final)|].
  intros [[X s] log] (HX & Hn & _ & Hk & Hl). rewrite Hb. split; [done|split; [done|]]. split.
  - by apply (keeps_block 0 "Root" []).
  - rewrite app_nil_l. change (labels 2 (log ++ [CdDetect 0; CdComplete 0]) = replicate (if CD2 b then Z.to_nat (iter s) else 0%nat) "sp2Loop_while"%string).
    by rewrite labels_app, app_nil_r.
Qed.

Lemma sp2_main_ends_witness :
  let run := sp2_main (λ _, fzero) id id true (mkBuild true true false) None 2 0 fone fone (flit 1 100000) (flit 1 100000000) (λ _, []) [] in
  returns run (λ '(X, n, log), valid 2 2 X ∧ 0 ≤ n ≤ 100 ∧ keeps [false] log ∧ labels 2 log = replicate (Z.to_nat n) "sp2Loop_while"%string) ∨
  run = Err OutOfBounds ∧
  ∃ H i, generateHMatrix (λ _, fzero) (flit 1 100000) fone fone 2 2 = Ok H ∧ 0 ≤ i < 2 ∧ Z.of_nat (length (row H i)) = 2.
Proof. by apply (sp2_main_ends _ _ _ (mkBuild true true false) 2). Defined.
